(* ===== verification/_CoqProject ===== *)
-Q . S2P
Prelude.v
CppString.v
Position.v
Utils.v
Utf8.v
Files.v
StringRef.v
MarkupText.v
Markup.v
Uri.v
PathMapping.v
RequestContext.v
ContextLifetime.v
WorkingFiles.v
Stream.v
StdStream.v
Process.v
ThreadedQueue.v
Timers.v
TcpServer.v
WebSocketServer.v
Framing.v
Output.v
Adapters.v
MacroMap.v
Json.v
WindowsProcess.v
Reflect.v
LspTypes.v
AnyMap.v
RequestId.v
Cancellation.v
Future.v
Message.v
Envelope.v
Reorder.v
Ordered.v
Pending.v
RemoteEndPoint.v
Traits.v
Handlers.v
Outgoing.v
LruCache.v
Protocol.v
Session.v
ProtocolData.v
Capabilities.v
ClientPreferences.v
Extensions.v
Nullable.v
Jdtls.v
Trees.v
Writer.v
Catalogue.v
Conversation.v
