(* ===== verification/Prelude.v ===== *)
(** * LspCpp: a verification library

    LspCpp is a C++ library for language servers and clients: it reads and
    writes JSON-RPC messages over streams, dispatches them to registered
    handlers on worker threads, keeps the open documents, and converts between
    paths, URIs, positions and offsets.  This development models these parts
    as executable Rocq definitions and proves what makes them correct.

    ** How the program's parts interact

    A stream (stream.h, Process.cpp, TcpServer.cpp, WebSocketServer.cpp)
    delivers bytes to a message producer (StreamMessageProducer.cpp), which
    cuts them into frames and hands every frame to the remote endpoint
    (RemoteEndPoint.cpp).  The endpoint numbers the frames, parses and
    classifies them on a worker pool ([parseAndClassify], with the parsers
    that ProtocolJsonHandler.cpp registers in a MessageJsonHandler), restores
    the wire order in a reorder buffer, and routes: notifications to a queue
    that one thread works through in order, requests to the handler pool (or
    parked behind an earlier notification), responses to the table of
    outgoing requests, cancel notifications to the cancellation registry.
    Typed handlers (RemoteEndPoint.h) are wrapped so that each request gets one
    response.  The parsers are made by the reflection macros (serializer.h)
    from the structs of include/LibLsp/lsp.  Handlers of a language server use
    the open documents (working_files.cpp), positions (utils.cpp), URIs
    (uri.cpp, lsp.cpp), path mappings (path_mapping.cpp), markup (Markup.cpp)
    and the values of the request's context (request_context.cpp).

    ** Files

    Bytes, text and documents:

    - Prelude.v: bytes, machine integers, hint databases and tactics.
    - CppString.v: the operations of [std::string] that the code uses
      ([find], [rfind], [substr], [c_str], [to_string]) with their lemmas.
    - Position.v: [lsPosition], [lsRange], [GetOffsetForPosition],
      [GetPositionForOffset], [CharPos] (src/lsp/utils.cpp) and the encoding
      variants (src/lsp/offset_encoding.cpp).  Round trips at character
      boundaries; what happens past a line's end.
    - Utils.v: string and path helpers of src/lsp/utils.cpp.  [ReplaceAll] as
      split and join, newline conversion, [NormalizePath] against a lexical
      canonical form.  [lstat], [readlink] and [getcwd] are parameters.
    - Utf8.v: [ws2s] and [s2ws] (src/lsp/utils.cpp) with the conversions of
      third_party/utfcpp that they call: [s2ws] accepts exactly UTF-8, and text
      survives both ways.
    - Files.v: the scans of directories, [IsDirectory], [ReadContent], the
      current directory and [NormalizePath] on Windows (src/lsp/utils.cpp) over
      a tree of files.  A scan finds what it visits, all of the tree unless a
      directory cannot be read, whose exception leaves the scan; the loop
      around [getcwd] returns for a path of any length; Windows paths come out
      with forward slashes.
    - StringRef.v: include/LibLsp/lsp/Markup/string_ref.h.  When [replace]
      terminates, what [split] and [trim] compute, where iterators leave the
      text.
    - MarkupText.v, Markup.v: src/lsp/Markup.cpp.  Escaping can be undone
      where the functions of <cctype> are given ASCII characters; with others
      they are undefined, which [None] stands for; number buffers suffice;
      paragraphs, lists and documents.
    - Uri.v: the percent codecs and URIs of src/lsp/uri.cpp and lsp.cpp.
      Round trips of bytes, of file paths and of document URIs.
    - PathMapping.v: src/lsp/path_mapping.cpp.  Prefix matching at component
      boundaries, round trip between client and server paths.
    - RequestContext.v: Context.h, Context.cpp and src/lsp/request_context.cpp.
      Scopes restore the context; the encoding of the innermost scope counts.
    - ContextLifetime.v: the same contexts as shared, reference-counted layers:
      a layer lives exactly as long as a context can see it.
    - WorkingFiles.v: src/lsp/working_files.cpp.  A store of shared file
      objects and the table of open files; a step relation with its
      invariant; [OnChange] refines the replacement of text ranges.
    - LruCache.v: include/LibLsp/lsp/lru_cache.h.  The cache refines the list
      of its entries in the order of use; what happens when the 32-bit score
      wraps around.

    Streams, queues and processes:

    - Stream.v: the interface [lsp::istream] as the class [Istream], the laws
      [StreamLaws] that a reader relies on, and [stdin_istream] (with [poll]
      and [read] as a list of events) as an instance that satisfies them.
    - StdStream.v: [standard_istream] over a model of [std::istream].
    - Process.v: Process.cpp and ParentProcessWatcher.cpp over a model of
      descriptors and children; no descriptor leaks, and no child stays behind
      unless a signal interrupts [waitpid]; the child gets its pipes; the
      Windows command line.
    - WindowsProcess.v: the Windows branch of Process.cpp over a model of
      handles and processes: pipe streams, and no handle leaks here either.
    - ThreadedQueue.v: include/LibLsp/JsonRpc/threaded_queue.h.  Nothing is
      lost or reordered within a priority class; a step relation for the
      condition variable, without lost wake-ups for a queue with its own
      waiter and with them for a shared one.
    - Timers.v: SimpleTimer.h, ProcessIoService.h and ScopeExit.h.  A stopped
      timer never calls, [stop] waits for what was posted, a guard runs its
      function once.
    - TcpServer.v: TcpServer.cpp and the streams of WebSocketServer.cpp, with
      asio's completions as steps: a writer posts one chunk per step, the
      accept handler and [stop] act in the steps between which other threads
      may act.  Chunks leave in the order of their posts, the newest connection
      is the one that is served; where writers interleave inside a message and
      an accept handler outlives [stop].
    - WebSocketServer.v: the output and the callbacks of WebSocketServer.cpp;
      connection callbacks that may overlap as steps: only the newest
      connection is served.
    - Framing.v: src/jsonrpc/StreamMessageProducer.cpp, proved against
      [StreamLaws]: whatever the chunks, [listen] delivers exactly the frames
      that were sent, survives oversized and invalid ones, and returns.
    - Output.v: the interface [lsp::ostream] as the class [Ostream] with the
      laws [OstreamLaws], [std::ostream] and the pipe to a child as instances,
      [WriterMsg], and the logs.  Messages cross from any such output to any
      input that satisfies [StreamLaws].
    - Adapters.v: [base_istream] and [base_iostream] keep the laws of what they
      wrap; [make_stdin_stream] and its companions; SIGPIPE.

    The endpoint:

    - RequestId.v: [lsRequestId]; its order, its round trip.
    - Cancellation.v: contexts, cancelable tasks and the cancellation
      registry; a step relation with its invariant (bounded tables, no leak);
      which request a cancel reaches.
    - Future.v: future.h, the state that promises and futures share, with its
      condition variable as steps of threads: no wake-up is lost.
    - Message.v: messages, parser and handler tables, [parseAndClassify], and
      the parser that [resovleResponseMessage] finds by trying.
    - Reorder.v, Ordered.v, Pending.v: the three groups of state of
      [RemoteEndPoint::Data] guarded by [route_mutex], [ordered_mutex] and
      [m_requestInfo], each with its operations and invariant.
    - RemoteEndPoint.v: [Data] as a whole, the operations of every thread,
      the step relation [rstep] that interleaves them, and the end-to-end
      theorems: requests see the notifications sent before them, a stopped
      session is silent.  [route_dispatch_mutex] is a lock of the state; a
      handler in flight sends its messages in steps of its own, also after
      [stop], and a notification thread that [stop] detached runs on.
    - Traits.v: traits.h and the choice among the overloads of
      [registerHandler], which is never ambiguous.
    - Handlers.v: the typed handlers of RemoteEndPoint.h, synchronous and
      asynchronous, the completion loop, [send] with callbacks or a future,
      and Condition.h.  Each request is answered once, with what its handler
      returned, and no request starves behind one that is not ready.
    - Outgoing.v: the requests that the endpoint sends, from [send] to the
      callback or the future: each is resolved once, by the response to it.
    - Session.v: LanguageSession.h, BindLspHandler.h, Transport.h, Error.h,
      RequestError.h and the construction and destruction of the endpoint.  A
      session serves what was registered before its start; bound handlers
      reply like those registered directly; request ids differ for 2^32
      requests.

    The protocol:

    - MacroMap.v: macro_map.h, the preprocessor's loop over the members of a
      struct, and the swap methods it makes.
    - Json.v: the document tree, [JsonReader] and the reflection of types
      (src/jsonrpc/serializer.cpp, serializer.h) as a record [codec] with the
      law classes [Roundtrip] and [NotNull].
    - Reflect.v: the struct macros as combinators on [fields]: one law for all
      structs, extensible readers, maps, choices, enumerations.
    - Writer.v: the calls that the reflection makes to [Writer] and
      [JsonWriter], for every type that can be reflected: properly nested, and
      equal to what the codecs say.
    - LspTypes.v: the hand-written readers of lsp.cpp, textDocument.cpp and
      initialize.cpp, [lsp::Any], resource operations, semantic tokens, error
      codes.
    - AnyMap.v: structs read from maps of values ([GetFromMap], lsAny.h).
    - Nullable.v: the class [Nullable], mandatory optionals and structs as
      arrays (serializer.h).
    - ProtocolData.v, Capabilities.v, Jdtls.v: the structs of
      include/LibLsp/lsp, as records [X] with their reader and writer
      [X_codec] and the values that survive, [X_valid].
    - ClientPreferences.v: ClientPreferences.h.  An answer about the client
      is what the document of its capabilities says, but for the diagnostic
      tags, which are always reported as not supported.
    - Extensions.v: the SonarLint extension, the token names of clangd and
      JDT, arguments of code actions, comparison and reading of paths.
    - Trees.v: the recursive structs (selection ranges, document symbols, type
      hierarchies) and colours.
    - Envelope.v: requests, responses, notifications and errors as documents
      (RequestInMessage.h, lsResponseMessage.h, NotificationInMessage.h).
    - Protocol.v: ProtocolJsonHandler.cpp: which parser is registered under
      which method, for every choice of options.
    - Catalogue.v: the types of [params] and [result] of every message, and
      the handler with these parsers.
    - Conversation.v: the composition: any sequence of messages that one
      endpoint writes is what the other one dispatches.

    ** Conventions

    A [std::string] is a list of bytes ([bytes]); [npos] and null pointers are
    [None].  [unsigned] and [int] values are [N] and [Z] with the casts and
    wrap-around written out where they can occur; sequence numbers
    ([uint64_t]) are unbounded.  A [std::map] is a [gmap], or the list of its
    entries where it is written out; shared objects live in a store and are
    named by an index.  Undefined behaviour, exceptions and deadlocks are
    values ([None], or the left side of a sum).  Critical sections are
    functions on the state their mutex guards; threads are steps of a
    relation.  An enumeration that is read from a document is a number of its
    underlying type, which GCC and Clang choose as [unsigned] for an unscoped
    one without negative values.

    Loops that are not structural take fuel.  For the loops over a string or
    a buffer the fuel is the length of what is consumed, which each round
    shortens, so that the definition is total; [listen] and its inner loops
    read from an arbitrary stream, take their fuel as an argument and return
    [None] when it runs out, and the theorems about them prove that fuel above
    the number of bytes of the input is enough to return.  The readers of
    recursive structs iterate as often as the document is deep;
    [tree_codecs_recurse] shows that this is the program's recursion.
    [StringRef.replace], which does not always terminate in the program, has a
    fuel argument of its own and a theorem for when it is enough.

    ** What is not modelled

    rapidjson's parser and printer, asio, ixwebsocket and the thread pools are
    third-party code: the parser and printer are parameters ([RapidJson], the
    argument of [parseAndClassify]), a pool is a list of tasks of which any
    may run next, network events are steps.  Handlers and parsers that an
    application registers are entries of the tables.  The calls of the
    operating system (files, descriptors, processes, Windows path names) are
    parameters or steps with the results they may have.  Not modelled: the
    registration of threads with the Boehm collector (GCThreadContext.cpp),
    which only calls that library; the constructors of string_ref.h that
    forward to [std::string] and its conversion to [double]; declarations
    without a definition; and the example programs. *)
From Stdlib Require Import Strings.Byte Strings.String.
From stdpp Require Export prelude gmap list.

#[global] Set Default Goal Selector "!".

(** ** Bytes

    A C++ [char] of a [std::string] is a byte; a [std::string] is a list of
    bytes.  [bval] is the value of [uint8_t(c)]. *)

Abbreviation byte := Byte.byte.
Abbreviation bytes := (list byte).

Export Stdlib.Strings.String.StringSyntax.
Export Stdlib.Strings.Byte.ByteNotations.
Delimit Scope byte_scope with byte.
Bind Scope byte_scope with Byte.byte.

(** Characters of the source's character literals. *)
Abbreviation NUL := Byte.x00.
Abbreviation LF := Byte.x0a.
Abbreviation CR := Byte.x0d.
Abbreviation TAB := Byte.x09.

Definition bval (c : byte) : Z := Z.of_N (Byte.to_N c).

(** [lit "..."] is the byte string of a C++ string literal. *)
Definition lit (s : string) : bytes := String.list_byte_of_string s.
Arguments lit s%_string.

#[export] Instance byte_eq_decision : EqDecision byte := Byte.byte_eq_dec.

#[export] Instance byte_countable : Countable byte :=
  inj_countable Byte.to_N Byte.of_N Byte.of_to_N.

(** The byte of a value, as [static_cast<char>(v)]: reduced modulo 256. *)
Definition byte_of (v : Z) : byte :=
  default x00 (Byte.of_N (Z.to_N (v `mod` 256))).

Definition all_bytes : bytes :=
  omap (fun n => Byte.of_N (N.of_nat n)) (seq 0 256).

Lemma all_bytes_elem (c : byte) : c ∈ all_bytes.
Proof.
  apply list_elem_of_omap. exists (N.to_nat (Byte.to_N c)). split.
  - apply elem_of_seq. pose proof (Byte.to_N_bounded c). lia.
  - rewrite N2Nat.id. apply Byte.of_to_N.
Qed.

(** A decidable fact about every byte is checked by evaluation. *)
Lemma byte_forall (P : byte -> bool) :
  forallb P all_bytes = true -> forall c, P c = true.
Proof.
  intros H c. rewrite forallb_forall in H. apply H.
  apply list_elem_of_In, all_bytes_elem.
Qed.

Lemma bval_range (c : byte) : (0 <= bval c < 256)%Z.
Proof. unfold bval. pose proof (Byte.to_N_bounded c). lia. Qed.

Lemma bval_inj (c d : byte) : bval c = bval d -> c = d.
Proof.
  unfold bval. intros H. apply N2Z.inj in H.
  apply (f_equal Byte.of_N) in H. rewrite !Byte.of_to_N in H. congruence.
Qed.

Lemma byte_of_bval (c : byte) : byte_of (bval c) = c.
Proof.
  unfold byte_of. pose proof (bval_range c).
  rewrite Z.mod_small by lia. unfold bval. rewrite N2Z.id, Byte.of_to_N. done.
Qed.

(** Boolean equality of characters. *)
Definition ceq (c d : byte) : bool := bool_decide (c = d).

Lemma ceq_refl c : ceq c c = true.
Proof. by apply bool_decide_eq_true. Qed.
Lemma ceq_true c d : ceq c d = true <-> c = d.
Proof. apply bool_decide_eq_true. Qed.
Lemma ceq_false c d : ceq c d = false <-> c <> d.
Proof. apply bool_decide_eq_false. Qed.
Lemma ceq_comm c d : ceq c d = ceq d c.
Proof. unfold ceq. by apply bool_decide_ext. Qed.

(** ** Machine integers *)

Definition INT_MAX : Z := (2 ^ 31 - 1)%Z.
Definition LONG_MAX : Z := (2 ^ 63 - 1)%Z.

(** [static_cast<int>] and [static_cast<unsigned>] *)
Definition to_int32 (z : Z) : Z := ((z + 2 ^ 31) `mod` 2 ^ 32 - 2 ^ 31)%Z.
Definition to_uint32 (z : Z) : Z := (z `mod` 2 ^ 32)%Z.

Lemma to_int32_id z : (- 2 ^ 31 <= z < 2 ^ 31)%Z -> to_int32 z = z.
Proof. intros H. unfold to_int32. rewrite Z.mod_small; lia. Qed.
Lemma to_uint32_id z : (0 <= z < 2 ^ 32)%Z -> to_uint32 z = z.
Proof. intros H. unfold to_uint32. apply Z.mod_small. lia. Qed.
Lemma to_int32_range z : (- 2 ^ 31 <= to_int32 z < 2 ^ 31)%Z.
Proof. unfold to_int32. pose proof (Z.mod_pos_bound (z + 2 ^ 31) (2 ^ 32)). lia. Qed.
Lemma to_int32_add a b : to_int32 (to_int32 a + b) = to_int32 (a + b).
Proof.
  unfold to_int32. f_equal.
  replace ((a + 2 ^ 31) `mod` 2 ^ 32 - 2 ^ 31 + b + 2 ^ 31)%Z
    with ((a + 2 ^ 31) `mod` 2 ^ 32 + b)%Z by lia.
  rewrite Zplus_mod_idemp_l. f_equal. lia.
Qed.

(** Unsigned 32-bit counters are kept as [N]; [+=] wraps around. *)
Definition uadd32 (a b : N) : N := ((a + b) `mod` 2 ^ 32)%N.

Lemma uadd32_id a b : (a + b < 2 ^ 32)%N -> uadd32 a b = (a + b)%N.
Proof. apply N.mod_small. Qed.

(** ** Automation *)

Create HintDb lsp.
Create Rewrite HintDb lsp.
#[export] Hint Rewrite @length_app @length_take @length_drop @length_fmap : lsp.
#[export] Hint Rewrite @app_nil_r @take_0 @drop_0 : lsp.
#[export] Hint Resolve ceq_refl byte_of_bval bval_range : lsp.

(** Case analysis on every [if] and [match] scrutinee of the goal, keeping
    the equations. *)
Ltac destr_goal :=
  match goal with
  | |- context [if ?b then _ else _] => destruct b eqn:?
  | |- context [match ?x with _ => _ end] => destruct x eqn:?
  end.

(** Turn boolean tests of characters into equalities. *)
Ltac char_cases :=
  repeat match goal with
  | H : ceq _ _ = true |- _ => apply ceq_true in H
  | H : ceq _ _ = false |- _ => apply ceq_false in H
  | H : bool_decide _ = true |- _ => apply bool_decide_eq_true in H
  | H : bool_decide _ = false |- _ => apply bool_decide_eq_false in H
  | H : _ && _ = true |- _ => apply andb_true_iff in H as [? ?]
  | H : _ || _ = false |- _ => apply orb_false_iff in H as [? ?]
  | H : negb _ = true |- _ => apply negb_true_iff in H
  | H : negb _ = false |- _ => apply negb_false_iff in H
  end.

(** Length goals about [take], [drop] and [++]. *)
Ltac len := autorewrite with lsp in *; simpl in *; lia.
