(* ===== verification/CppString.v ===== *)
(** * The operations of [std::string] the program uses

    A string is a list of bytes, a position a [nat], [npos] is [None].  Each
    operation is executable; the lemmas below characterise the searches. *)
From S2P Require Import Prelude.

(** [std::equal(start.begin(), start.end(), value.begin())] after the size test *)
Fixpoint starts_with (p s : bytes) : bool :=
  match p, s with
  | [], _ => true
  | x :: p', y :: s' => ceq x y && starts_with p' s'
  | _ :: _, [] => false
  end.

(** [s.find(p)] *)
Fixpoint find_sub (p s : bytes) : option nat :=
  if starts_with p s then Some 0
  else match s with
       | [] => None
       | _ :: s' => S <$> find_sub p s'
       end.

(** [s.find(p, pos)] *)
Definition find_from (p s : bytes) (pos : nat) : option nat :=
  if decide (pos <= length s) then (fun i => pos + i) <$> find_sub p (drop pos s) else None.

(** [s.find_first_of(...)]: the first position whose byte satisfies [f] *)
Fixpoint find_pred (f : byte -> bool) (s : bytes) : option nat :=
  match s with
  | [] => None
  | c :: s' => if f c then Some 0 else S <$> find_pred f s'
  end.

(** [s.find(c)] *)
Definition find_char (c : byte) (s : bytes) : option nat := find_pred (ceq c) s.

(** [s.find(c, pos)] *)
Definition find_char_from (c : byte) (s : bytes) (pos : nat) : option nat :=
  (fun i => pos + i) <$> find_char c (drop pos s).

(** [s.find_last_of(c)] / [s.rfind(c)] *)
Fixpoint rfind_char (c : byte) (s : bytes) : option nat :=
  match s with
  | [] => None
  | d :: s' => match rfind_char c s' with
               | Some i => Some (S i)
               | None => if ceq c d then Some 0 else None
               end
  end.

(** [s.rfind(c, pos)]: the last occurrence at an index [<= pos] *)
Definition rfind_char_to (c : byte) (s : bytes) (pos : nat) : option nat :=
  rfind_char c (take (S pos) s).

(** [s.substr(pos, len)] for [pos <= s.size()] *)
Definition substr (s : bytes) (pos len : nat) : bytes := take len (drop pos s).

(** [s.back()] of a non-empty string *)
Definition back_is (c : byte) (s : bytes) : bool :=
  match last s with Some d => ceq c d | None => false end.

(** [s.pop_back()] *)
Definition pop_back (s : bytes) : bytes := take (length s - 1) s.

(** [std::replace(s.begin(), s.end(), a, b)] *)
Definition replace_char (a b : byte) (s : bytes) : bytes :=
  (fun c => if ceq c a then b else c) <$> s.

(** [s.c_str()]: the bytes before the first NUL *)
Fixpoint c_str (s : bytes) : bytes :=
  match s with
  | [] => []
  | c :: s' => if ceq c NUL then [] else c :: c_str s'
  end.

(** ** Prefixes *)

Lemma starts_with_spec p s :
  starts_with p s = true <-> s = p ++ drop (length p) s.
Proof.
  revert s. induction p as [|x p IH]; intros [|y s]; simpl.
  - done.
  - done.
  - split; [discriminate|]. intros H. discriminate H.
  - rewrite andb_true_iff, ceq_true, IH. split.
    + intros [-> ->]. by rewrite drop_app_length.
    + intros H. injection H as -> Hs. done.
Qed.

Lemma starts_with_app p s : starts_with p (p ++ s) = true.
Proof. apply starts_with_spec. by rewrite drop_app_length. Qed.

Lemma starts_with_refl p : starts_with p p = true.
Proof. rewrite <- (app_nil_r p) at 2. apply starts_with_app. Qed.

Lemma starts_with_exists p s :
  starts_with p s = true <-> exists r, s = p ++ r.
Proof.
  split.
  - intros H. exists (drop (length p) s). by apply starts_with_spec.
  - intros [r ->]. apply starts_with_app.
Qed.

Lemma starts_with_length p s : starts_with p s = true -> length p <= length s.
Proof. intros [r ->]%starts_with_exists. rewrite length_app. lia. Qed.

Lemma starts_with_app_short p s r :
  length p <= length s -> starts_with p (s ++ r) = starts_with p s.
Proof.
  revert s. induction p as [|x p IH]; intros [|y s] Hl; simpl in *; try done; try lia.
  rewrite IH by lia. done.
Qed.

(** ** Searching for a substring *)

Lemma find_sub_Some p s i :
  find_sub p s = Some i <->
  s = take i s ++ p ++ drop (i + length p) s /\
  i <= length s /\
  (forall j, j < i -> starts_with p (drop j s) = false).
Proof.
  revert i. induction s as [|c s IH]; intros i; simpl.
  - destruct (starts_with p []) eqn:E.
    + destruct p; [|done]. split.
      * intros [= <-]. split; [done|]. split; [lia|]. lia.
      * intros (_ & Hi & _). destruct i; [done|simpl in Hi; lia].
    + split; [done|]. intros (H & Hi & _).
      destruct i; [|simpl in Hi; lia]. simpl in H. rewrite drop_nil, app_nil_r in H.
      subst p. done.
  - destruct (starts_with p (c :: s)) eqn:E.
    + split.
      * intros [= <-]. simpl. split; [by apply starts_with_spec|]. split; lia.
      * intros (_ & _ & H). destruct i as [|i]; [done|].
        specialize (H 0 ltac:(lia)). rewrite drop_0 in H. congruence.
    + rewrite fmap_Some. split.
      * intros (k & Hk & ->). apply IH in Hk as (H1 & H2 & H3). simpl.
        split; [by f_equal|]. split; [lia|].
        intros [|j] Hj; [done|]. simpl. apply H3. lia.
      * intros (H1 & H2 & H3). destruct i as [|i].
        -- simpl in H1. apply not_true_iff_false in E. destruct E.
           apply starts_with_spec. done.
        -- exists i. split; [|done]. apply IH. simpl in H1. injection H1 as H1.
           split; [done|]. split; [simpl in H2; lia|].
           intros j Hj. apply (H3 (S j)). lia.
Qed.

Lemma find_sub_None p s :
  find_sub p s = None <-> (forall j, j <= length s -> starts_with p (drop j s) = false).
Proof.
  induction s as [|c s IH]; simpl.
  - destruct (starts_with p []) eqn:E.
    + split; [done|]. intros H. specialize (H 0 ltac:(lia)). simpl in H. congruence.
    + split; [|done]. intros _ [|j] Hj; [done|lia].
  - destruct (starts_with p (c :: s)) eqn:E.
    + split; [done|]. intros H. specialize (H 0 ltac:(lia)). simpl in H. congruence.
    + rewrite fmap_None, IH. split.
      * intros H [|j] Hj; [done|]. simpl. apply H. lia.
      * intros H j Hj. apply (H (S j)). lia.
Qed.

Lemma find_sub_bound p s i : find_sub p s = Some i -> i + length p <= length s.
Proof.
  intros (H & Hi & _)%find_sub_Some.
  apply (f_equal length) in H. rewrite !length_app, length_take, length_drop in H. lia.
Qed.

(** The first occurrence does not move when bytes are appended, and is found
    at the end of a prefix that contains no earlier occurrence. *)
Lemma find_sub_app p s r i : find_sub p s = Some i -> find_sub p (s ++ r) = Some i.
Proof.
  intros H. pose proof (find_sub_bound _ _ _ H) as Hb.
  apply find_sub_Some in H as (H1 & H2 & H3). apply find_sub_Some. split.
  - rewrite take_app_le, drop_app_le by lia. rewrite !app_assoc, <- (app_assoc (take i s)).
    by rewrite <- H1.
  - split; [len|]. intros j Hj. rewrite drop_app_le by lia.
    rewrite starts_with_app_short; [by apply H3|len].
Qed.

Lemma find_sub_from_prefix p a r :
  (forall j, j < length a -> starts_with p (drop j (a ++ p ++ r)) = false) ->
  find_sub p (a ++ p ++ r) = Some (length a).
Proof.
  intros H. apply find_sub_Some. split; [|split; [len|done]].
  rewrite take_app_length, <- drop_drop, !drop_app_length. done.
Qed.

(** ** Searching for a character *)

Lemma find_pred_Some f s i :
  find_pred f s = Some i <->
  (exists c, s !! i = Some c /\ f c = true) /\
  Forall (fun c => f c = false) (take i s).
Proof.
  revert i. induction s as [|c s IH]; intros i; simpl.
  - split; [done|]. intros [(c & Hc & _) _]. by rewrite lookup_nil in Hc.
  - destruct (f c) eqn:E.
    + split.
      * intros [= <-]. split; [eauto|constructor].
      * intros [_ HF]. destruct i; [done|]. simpl in HF. inversion HF. congruence.
    + rewrite fmap_Some. split.
      * intros (k & Hk & ->). apply IH in Hk as [Hk1 Hk2]. simpl. eauto.
      * intros [(d & Hd & Hfd) HF]. destruct i as [|i].
        -- simpl in Hd. congruence.
        -- exists i. split; [|done]. apply IH. inversion HF; subst. eauto.
Qed.

Lemma find_pred_None f s :
  find_pred f s = None <-> Forall (fun c => f c = false) s.
Proof.
  induction s as [|c s IH]; simpl; [by split|].
  destruct (f c) eqn:E.
  - split; [done|]. intros H. inversion H. congruence.
  - rewrite fmap_None, IH. rewrite Forall_cons. naive_solver.
Qed.

Lemma find_pred_app_l f s r i : find_pred f s = Some i -> find_pred f (s ++ r) = Some i.
Proof.
  revert i. induction s as [|c s IH]; intros i; simpl; [done|].
  destruct (f c); [done|]. rewrite fmap_Some. intros (k & Hk & ->).
  by rewrite (IH _ Hk).
Qed.

Lemma find_pred_app_r f s r :
  Forall (fun c => f c = false) s ->
  find_pred f (s ++ r) = (fun i => length s + i) <$> find_pred f r.
Proof.
  induction 1 as [|c s Hc _ IH]; simpl.
  - by destruct (find_pred f r).
  - rewrite Hc, IH. by destruct (find_pred f r).
Qed.

Lemma find_pred_bound f s i : find_pred f s = Some i -> i < length s.
Proof. intros [(c & Hc & _) _]%find_pred_Some. by eapply lookup_lt_Some. Qed.

Lemma find_char_app c a r :
  c ∉ a -> find_char c (a ++ c :: r) = Some (length a).
Proof.
  intros Ha. unfold find_char. rewrite find_pred_app_r.
  - simpl. rewrite ceq_refl. simpl. f_equal. lia.
  - apply Forall_forall. intros d Hd. apply ceq_false. intros ->. done.
Qed.

Lemma find_char_None c s : find_char c s = None <-> c ∉ s.
Proof.
  unfold find_char. rewrite find_pred_None, Forall_forall. split.
  - intros H Hc. specialize (H c Hc). by rewrite ceq_refl in H.
  - intros H d Hd. apply ceq_false. intros ->. done.
Qed.

Lemma rfind_char_None c s : rfind_char c s = None <-> c ∉ s.
Proof.
  induction s as [|d s IH]; simpl.
  - split; [|done]. intros _. apply not_elem_of_nil.
  - rewrite not_elem_of_cons. destruct (rfind_char c s) eqn:E.
    + split; [done|]. intros [_ H]. apply IH in H. done.
    + destruct (ceq c d) eqn:Ec; char_cases; naive_solver.
Qed.

Lemma rfind_char_app c a r :
  c ∉ r -> rfind_char c (a ++ c :: r) = Some (length a).
Proof.
  intros Hr. induction a as [|d a IH]; simpl.
  - apply rfind_char_None in Hr. by rewrite Hr, ceq_refl.
  - by rewrite IH.
Qed.

Lemma rfind_char_Some c s i :
  rfind_char c s = Some i -> s = take i s ++ c :: drop (S i) s /\ c ∉ drop (S i) s.
Proof.
  revert i. induction s as [|d s IH]; intros i; simpl; [done|].
  destruct (rfind_char c s) as [k|] eqn:E.
  - intros [= <-]. destruct (IH k eq_refl) as [H1 H2]. split; [|done].
    simpl. by f_equal.
  - destruct (ceq c d) eqn:Ec; [|done]. char_cases. intros [= <-]. subst. simpl.
    rewrite drop_0. split; [done|]. by apply rfind_char_None.
Qed.

(** ** Small operations *)

Lemma back_is_app c s : back_is c (s ++ [c]) = true.
Proof. unfold back_is. rewrite last_snoc. apply ceq_refl. Qed.

Lemma back_is_spec c s : back_is c s = true <-> exists r, s = r ++ [c].
Proof.
  unfold back_is. split.
  - destruct (last s) eqn:E; [|done]. intros H%ceq_true. subst.
    apply last_Some in E. done.
  - intros [r ->]. rewrite last_snoc. apply ceq_refl.
Qed.

Lemma pop_back_app s c : pop_back (s ++ [c]) = s.
Proof.
  unfold pop_back. rewrite length_app. simpl.
  rewrite Nat.add_sub. apply take_app_length.
Qed.

Lemma c_str_id s : NUL ∉ s -> c_str s = s.
Proof.
  induction s as [|c s IH]; simpl; [done|]. rewrite not_elem_of_cons. intros [H1 H2].
  destruct (ceq c NUL) eqn:E; char_cases; [congruence|]. by rewrite IH.
Qed.

Lemma c_str_short s : NUL ∈ s -> length (c_str s) < length s.
Proof.
  induction s as [|c s IH]; simpl; [by intros ?%elem_of_nil|].
  destruct (ceq c NUL) eqn:E; char_cases; cbn; [lia|]. intros [?|?]%elem_of_cons; [congruence|].
  rewrite <- Nat.succ_lt_mono. by apply IH.
Qed.

(** ** [std::to_string] *)

Definition digit_char (d : Z) : byte := byte_of (48 + d).

(** Decimal digits of [n >= 0]; one round per digit, at most [1 + log2 n]. *)
Fixpoint dec_digits (fuel : nat) (n : Z) (acc : bytes) : bytes :=
  match fuel with
  | 0 => acc
  | S fuel' =>
      let acc' := digit_char (n `mod` 10) :: acc in
      if (n <? 10)%Z then acc' else dec_digits fuel' (n `div` 10) acc'
  end.

Definition to_string (z : Z) : bytes :=
  if (z <? 0)%Z then "-"%byte :: dec_digits (S (Z.to_nat (Z.log2 (- z)))) (- z) []
  else dec_digits (S (Z.to_nat (Z.log2 z))) z [].

Definition is_digit (c : byte) : bool := (48 <=? bval c)%Z && (bval c <=? 57)%Z.

(** The value of a digit string read from the left. *)
Definition dec_value (acc : Z) (s : bytes) : Z :=
  fold_left (fun v c => v * 10 + (bval c - 48))%Z s acc.

Lemma digit_char_bval d : (0 <= d < 10)%Z -> bval (digit_char d) = (48 + d)%Z.
Proof.
  intros H. unfold digit_char, byte_of, bval. rewrite Z.mod_small by lia.
  destruct (Byte.of_N (Z.to_N (48 + d))) as [c|] eqn:E.
  - apply Byte.to_of_N in E. simpl. rewrite E. lia.
  - apply Byte.of_N_None_iff in E. lia.
Qed.

Lemma digit_char_is_digit d : (0 <= d < 10)%Z -> is_digit (digit_char d) = true.
Proof. intros H. unfold is_digit. rewrite digit_char_bval by done. lia. Qed.

Lemma dec_digits_spec fuel n acc :
  (0 <= n)%Z -> (Z.to_nat (Z.log2 n) < fuel) ->
  exists ds, dec_digits fuel n acc = ds ++ acc /\ ds <> [] /\
    forallb is_digit ds = true /\ dec_value 0 ds = n.
Proof.
  revert n acc. induction fuel as [|fuel IH]; intros n acc Hn Hf; [lia|].
  pose proof (Z.mod_pos_bound n 10 ltac:(lia)) as Hm.
  cbn [dec_digits]. destruct (n <? 10)%Z eqn:E.
  - exists [digit_char (n `mod` 10)]. split; [done|]. split; [done|]. split.
    + simpl. by rewrite digit_char_is_digit.
    + unfold dec_value. simpl. rewrite digit_char_bval by lia. rewrite Z.mod_small by lia. lia.
  - assert (Hd : (n `div` 10 <= n / 2)%Z) by (apply Z.div_le_compat_l; lia).
    assert (Hpos : (1 <= n `div` 10)%Z) by (apply Z.div_le_lower_bound; lia).
    assert (Hlog : (Z.log2 (n `div` 10) < Z.log2 n)%Z).
    { apply Z.log2_le_mono in Hd. rewrite <- Z.div2_div, Z.div2_spec in Hd.
      rewrite Z.log2_shiftr in Hd by lia.
      assert (0 < Z.log2 n)%Z by (apply Z.log2_pos; lia). lia. }
    destruct (IH (n `div` 10)%Z (digit_char (n `mod` 10) :: acc)) as (ds & H1 & H2 & H3 & H4);
      [lia|pose proof (Z.log2_nonneg (n `div` 10)); lia|].
    exists (ds ++ [digit_char (n `mod` 10)]). split; [by rewrite H1, <- app_assoc|].
    split; [by destruct ds|]. split.
    + rewrite forallb_app, H3. simpl. by rewrite digit_char_is_digit.
    + unfold dec_value in *. rewrite fold_left_app, H4. simpl.
      rewrite digit_char_bval by lia. pose proof (Z.div_mod n 10). lia.
Qed.

Lemma to_string_nonneg n :
  (0 <= n)%Z ->
  to_string n <> [] /\ forallb is_digit (to_string n) = true /\ dec_value 0 (to_string n) = n.
Proof.
  intros Hn. unfold to_string. replace (n <? 0)%Z with false by lia.
  destruct (dec_digits_spec (S (Z.to_nat (Z.log2 n))) n []) as (ds & H1 & H2 & H3 & H4);
    [done|lia|]. rewrite H1, app_nil_r. done.
Qed.

(** [std::string::operator<]: lexicographic on [unsigned char] *)
Fixpoint string_lt (a b : bytes) : bool :=
  match a, b with
  | [], [] => false
  | [], _ :: _ => true
  | _ :: _, [] => false
  | x :: a', y :: b' =>
      if (bval x <? bval y)%Z then true
      else if (bval y <? bval x)%Z then false else string_lt a' b'
  end.

Lemma string_lt_irrefl a : string_lt a a = false.
Proof. induction a as [|x a IH]; simpl; [done|]. by rewrite Z.ltb_irrefl. Qed.

Lemma string_lt_trans a b c :
  string_lt a b = true -> string_lt b c = true -> string_lt a c = true.
Proof.
  revert b c. induction a as [|x a IH]; intros [|y b] [|z c]; simpl; try done.
  destruct (bval x <? bval y)%Z eqn:E1, (bval y <? bval z)%Z eqn:E2.
  - intros _ _. by replace (bval x <? bval z)%Z with true by lia.
  - destruct (bval z <? bval y)%Z eqn:E3; [done|]. intros _ _.
    by replace (bval x <? bval z)%Z with true by lia.
  - destruct (bval y <? bval x)%Z eqn:E3; [done|]. intros _ _.
    by replace (bval x <? bval z)%Z with true by lia.
  - destruct (bval y <? bval x)%Z eqn:E3; [done|]. destruct (bval z <? bval y)%Z eqn:E4; [done|].
    replace (bval x <? bval z)%Z with false by lia. replace (bval z <? bval x)%Z with false by lia.
    apply IH.
Qed.

Lemma string_lt_total a b : string_lt a b = false -> string_lt b a = false -> a = b.
Proof.
  revert b. induction a as [|x a IH]; intros [|y b]; simpl; try done.
  destruct (bval x <? bval y)%Z eqn:E1; [done|]. destruct (bval y <? bval x)%Z eqn:E2; [done|].
  intros H1 H2. f_equal; [apply bval_inj; lia|by apply IH].
Qed.
