(* ===== verification/Position.v ===== *)
(** * Positions and offsets

    [lsPosition] and [lsRange] (src/lsp/lsp.cpp), the conversions between a
    position and a byte offset (src/lsp/utils.cpp) and their UTF-8 variants
    (src/lsp/offset_encoding.cpp).  Offsets are [nat] indices into the text;
    the [unsigned] fields of a position are [N] with wrap-around, and the
    [int] results are cast with [to_int32]. *)
From S2P Require Import Prelude CppString.

(** ** Data *)

Record lsPosition := mkPosition { line : N; character : N }.

#[export] Instance lsPosition_eq_dec : EqDecision lsPosition.
Proof. solve_decision. Defined.

Record lsRange := mkRange { range_start : lsPosition; range_end : lsPosition }.

(** [lsPosition::lsPosition(int, int)]: negative arguments become 0. *)
Definition lsPosition_of_ints (l c : Z) : lsPosition :=
  mkPosition (if (l <? 0)%Z then 0 else Z.to_N l) (if (c <? 0)%Z then 0 else Z.to_N c).

Definition kZeroPosition : lsPosition := mkPosition 0 0.

Definition position_eqb (p q : lsPosition) : bool :=
  (line p =? line q)%N && (character p =? character q)%N.

(** [lsPosition::operator<] *)
Definition position_ltb (p q : lsPosition) : bool :=
  if negb (line p =? line q)%N then (line p <? line q)%N
  else (character p <? character q)%N.

(** [lsRange::operator==] and [lsRange::operator<] *)
Definition range_eqb (r o : lsRange) : bool :=
  position_eqb (range_start r) (range_start o) && position_eqb (range_end r) (range_end o).

Definition range_ltb (r o : lsRange) : bool :=
  if negb (position_eqb (range_start r) (range_start o))
  then position_ltb (range_start r) (range_start o)
  else position_ltb (range_end r) (range_end o).

(** ** Bytes of UTF-8 text *)

(** [uint8_t(c) >= 128 && uint8_t(c) < 192] *)
Definition is_continuation (c : byte) : bool := (128 <=? bval c)%Z && (bval c <? 192)%Z.

(** UTF-16 code units of the code point a lead byte starts:
    [(lead >= 0xF0) ? 2u : 1u]. *)
Definition lead_units (c : byte) : N := if (240 <=? bval c)%Z then 2 else 1.

(** The inner loop that skips continuation bytes: how many it skips. *)
Fixpoint skip_continuation (s : bytes) : nat :=
  match s with
  | c :: s' => if is_continuation c then S (skip_continuation s') else 0
  | [] => 0
  end.

(** ** [GetOffsetForPosition] *)

(** The first loop: bytes consumed until [l] newlines are passed. *)
Fixpoint seek_line (l : N) (s : bytes) : nat :=
  match s with
  | [] => 0
  | c :: s' =>
      if (0 <? l)%N then S (seek_line (if ceq c LF then l - 1 else l)%N s') else 0
  end.

(** The second loop: bytes consumed until [ch] UTF-16 units are passed.  Each
    round consumes at least one byte, so [length s] rounds are enough. *)
Fixpoint seek_char_fuel (fuel : nat) (ch : N) (s : bytes) : nat :=
  match fuel, s with
  | S fuel', lead :: s' =>
      if (0 <? ch)%N then
        let k := if (128 <=? bval lead)%Z then skip_continuation s' else 0 in
        S k + seek_char_fuel fuel' (ch - N.min ch (lead_units lead))%N (drop k s')
      else 0
  | _, _ => 0
  end.

Definition seek_char (ch : N) (s : bytes) : nat := seek_char_fuel (length s) ch s.

(** The index [i] at the end of the function, before the cast. *)
Definition offset_index (p : lsPosition) (content : bytes) : nat :=
  let i := seek_line (line p) content in
  i + seek_char (character p) (drop i content).

Definition GetOffsetForPosition (p : lsPosition) (content : bytes) : Z :=
  to_int32 (Z.of_nat (offset_index p content)).

(** ** [GetPositionForOffset] *)

Definition position_step (p : lsPosition) (c : byte) : lsPosition :=
  if ceq c LF then mkPosition (uadd32 (line p) 1) 0
  else if (bval c <? 128)%Z || (192 <=? bval c)%Z
  then mkPosition (line p) (uadd32 (character p) (lead_units c))
  else p.

Definition GetPositionForOffset (offset : nat) (content : bytes) : lsPosition :=
  fold_left position_step (take offset content) kZeroPosition.

(** ** [CharPos] (utils.cpp); the assertion that the character occurs is the
    [None] case. *)
Fixpoint CharPos_loop (search : bytes) (ch : byte) (p : lsPosition) : option lsPosition :=
  match search with
  | [] => None
  | c :: s =>
      if ceq c ch then Some p
      else if ceq c LF then CharPos_loop s ch (mkPosition (uadd32 (line p) 1) 0)
      else CharPos_loop s ch (mkPosition (line p) (uadd32 (character p) 1))
  end.

Definition CharPos (search : bytes) (ch : byte) (character_offset : Z) : option lsPosition :=
  (fun p => mkPosition (line p)
      (Z.to_N ((Z.of_N (character p) + character_offset) `mod` 2 ^ 32))) <$>
  CharPos_loop search ch kZeroPosition.

(** ** The UTF-8 variants (offset_encoding.cpp) *)

Inductive OffsetEncoding := Utf16 | Utf8.

Definition GetOffsetForPositionWithEncoding
    (p : lsPosition) (content : bytes) (e : OffsetEncoding) : Z :=
  match e with
  | Utf16 => GetOffsetForPosition p content
  | Utf8 => to_int32 (Z.of_nat (seek_line (line p) content) + Z.of_N (character p))
  end.

(** The loop over [i]: [line] and [line_start] of the prefix scanned. *)
Fixpoint line_scan (s : bytes) (i : nat) (l : N) (line_start : nat) : N * nat :=
  match s with
  | [] => (l, line_start)
  | c :: s' => if ceq c LF then line_scan s' (S i) (uadd32 l 1) (S i)
               else line_scan s' (S i) l line_start
  end.

Definition GetPositionForOffsetWithEncoding
    (offset : nat) (content : bytes) (e : OffsetEncoding) : lsPosition :=
  match e with
  | Utf16 => GetPositionForOffset offset content
  | Utf8 =>
      let '(l, line_start) := line_scan (take offset content) 0 0 0 in
      mkPosition l (Z.to_N (to_int32 (Z.of_nat (offset - line_start)) `mod` 2 ^ 32))
  end.

(** ** Auxiliary notions *)

Definition lf_count (s : bytes) : N := N.of_nat (length (filter (fun c => c = LF) s)).

(** UTF-16 units that [GetPositionForOffset] counts on one line. *)
Fixpoint units (s : bytes) : N :=
  match s with
  | [] => 0
  | c :: s' => (if is_continuation c then 0 else lead_units c) + units s'
  end.

(** Every continuation byte follows a byte [>= 128], as in UTF-8 text. *)
Fixpoint framed (after_high : bool) (s : bytes) : bool :=
  match s with
  | [] => true
  | c :: s' => (negb (is_continuation c) || after_high) && framed (128 <=? bval c)%Z s'
  end.

(** [offset] does not point into the middle of a code point. *)
Definition at_boundary (offset : nat) (content : bytes) : bool :=
  match content !! offset with
  | Some c => negb (is_continuation c)
  | None => true
  end.

(** ** Lemmas on the two loops *)

Lemma seek_line_bound l s : seek_line l s <= length s.
Proof.
  revert l. induction s as [|c s IH]; intros l; simpl; [lia|].
  destruct (0 <? l)%N; [|lia]. specialize (IH (if ceq c LF then l - 1 else l)%N). lia.
Qed.

Lemma seek_line_0 s : seek_line 0 s = 0.
Proof. by destruct s. Qed.

Lemma skip_continuation_bound s : skip_continuation s <= length s.
Proof. induction s as [|c s IH]; simpl; [lia|]. destruct (is_continuation c); lia. Qed.

Lemma seek_char_fuel_bound fuel ch s : seek_char_fuel fuel ch s <= length s.
Proof.
  revert ch s. induction fuel as [|fuel IH]; intros ch [|c s]; simpl; try lia.
  destruct (0 <? ch)%N; [|lia].
  set (k := if (128 <=? bval c)%Z then skip_continuation s else 0).
  assert (Hk : k <= length s)
    by (subst k; pose proof (skip_continuation_bound s); destruct (128 <=? bval c)%Z; lia).
  match goal with |- context [seek_char_fuel fuel ?a ?b] =>
    specialize (IH a b) end.
  rewrite length_drop in IH. lia.
Qed.

Lemma seek_char_bound ch s : seek_char ch s <= length s.
Proof. apply seek_char_fuel_bound. Qed.

Lemma seek_char_fuel_enough fuel ch s :
  length s <= fuel -> seek_char_fuel fuel ch s = seek_char ch s.
Proof.
  unfold seek_char. revert ch s.
  enough (forall f1 f2 ch s, length s <= f1 -> length s <= f2 ->
    seek_char_fuel f1 ch s = seek_char_fuel f2 ch s) by eauto.
  induction f1 as [|f1 IH]; intros [|f2] ch [|c s] H1 H2; simpl in *; try lia.
  destruct (0 <? ch)%N; [|done]. do 2 f_equal. apply IH; len.
Qed.

(** The equation of the second loop, without fuel. *)
Lemma seek_char_cons ch lead s :
  seek_char ch (lead :: s) =
  if (0 <? ch)%N then
    let k := if (128 <=? bval lead)%Z then skip_continuation s else 0 in
    S k + seek_char (ch - N.min ch (lead_units lead)) (drop k s)
  else 0.
Proof.
  unfold seek_char at 1. simpl. destruct (0 <? ch)%N; [|done].
  do 2 f_equal. apply seek_char_fuel_enough. len.
Qed.

Lemma seek_char_0 s : seek_char 0 s = 0.
Proof. by destruct s. Qed.

Lemma offset_index_bound p content : offset_index p content <= length content.
Proof.
  unfold offset_index. pose proof (seek_line_bound (line p) content).
  pose proof (seek_char_bound (character p) (drop (seek_line (line p) content) content)).
  rewrite length_drop in *. lia.
Qed.

Lemma GetOffsetForPosition_index p content :
  (Z.of_nat (length content) < 2 ^ 31)%Z ->
  GetOffsetForPosition p content = Z.of_nat (offset_index p content).
Proof.
  intros H. unfold GetOffsetForPosition. apply to_int32_id.
  pose proof (offset_index_bound p content). lia.
Qed.

(** *** Newline counting *)

Lemma lf_count_cons c s :
  lf_count (c :: s) = ((if ceq c LF then 1 else 0) + lf_count s)%N.
Proof.
  unfold lf_count, ceq. rewrite filter_cons. case_decide; case_bool_decide; try done.
  simpl. lia.
Qed.

Lemma lf_count_app s t : lf_count (s ++ t) = (lf_count s + lf_count t)%N.
Proof. unfold lf_count. rewrite filter_app, length_app. lia. Qed.

Lemma lf_count_length s : (lf_count s <= N.of_nat (length s))%N.
Proof. unfold lf_count. pose proof (length_filter (fun c => c = LF) s). lia. Qed.

Lemma lf_count_none s : LF ∉ s -> lf_count s = 0%N.
Proof.
  induction s as [|c s IH]; [done|]. rewrite not_elem_of_cons. intros [H1 H2].
  rewrite lf_count_cons, IH by done. destruct (ceq c LF) eqn:E; char_cases; [congruence|done].
Qed.

(** A text splits after its last newline. *)
Definition ends_line (a : bytes) : Prop := a = [] \/ exists a', a = a' ++ [LF].

Lemma split_last_line s :
  exists a b, s = a ++ b /\ ends_line a /\ LF ∉ b.
Proof.
  destruct (rfind_char LF s) as [i|] eqn:E.
  - apply rfind_char_Some in E as [H1 H2].
    exists (take i s ++ [LF]), (drop (S i) s). rewrite <- app_assoc. simpl.
    split; [done|]. split; [|done]. right. eauto.
  - apply rfind_char_None in E. exists [], s. split; [done|]. split; [by left|done].
Qed.

Lemma seek_line_ends_line a r :
  ends_line a -> seek_line (lf_count a) (a ++ r) = length a.
Proof.
  intros [->|[a' ->]]; [apply seek_line_0|].
  induction a' as [|c a' IH]; simpl.
  - by rewrite seek_line_0.
  - rewrite lf_count_cons. rewrite lf_count_app, lf_count_cons in *.
    change (lf_count []) with 0%N in *. rewrite ceq_refl in *.
    replace (0 <? _)%N with true by (symmetry; apply N.ltb_lt; lia).
    f_equal. rewrite <- IH. f_equal. destruct (ceq c LF); lia.
Qed.

(** Past the last newline the first loop runs to the end of the text. *)
Lemma seek_line_past l s : (lf_count s < l)%N -> seek_line l s = length s.
Proof.
  revert l. induction s as [|c s IH]; intros l Hl; simpl; [done|].
  rewrite lf_count_cons in Hl.
  replace (0 <? l)%N with true by (symmetry; apply N.ltb_lt; lia).
  f_equal. apply IH. destruct (ceq c LF); lia.
Qed.

(** *** UTF-16 units *)

Lemma units_app s t : units (s ++ t) = (units s + units t)%N.
Proof. induction s as [|c s IH]; simpl; [done|]. rewrite IH. lia. Qed.

Lemma units_bound s : (units s <= 2 * N.of_nat (length s))%N.
Proof.
  induction s as [|c s IH]; [simpl; lia|]. cbn [units length].
  unfold lead_units. destruct (is_continuation c), (240 <=? bval c)%Z; lia.
Qed.

Lemma lead_units_pos c : (0 < lead_units c)%N.
Proof. unfold lead_units. destruct (240 <=? bval c)%Z; lia. Qed.

Lemma LF_bval : bval LF = 10%Z.
Proof. done. Qed.

Lemma position_step_line b p :
  LF ∉ b -> (character p + 2 * N.of_nat (length b) < 2 ^ 32)%N ->
  fold_left position_step b p = mkPosition (line p) (character p + units b).
Proof.
  revert p. induction b as [|c b IH]; intros p Hb Hlt; cbn [fold_left units length] in *.
  - destruct p. simpl. by rewrite N.add_0_r.
  - apply not_elem_of_cons in Hb as [Hc Hb].
    assert (Hu : (lead_units c <= 2)%N)
      by (unfold lead_units; destruct (240 <=? bval c)%Z; lia).
    unfold position_step at 2. replace (ceq c LF) with false
      by (symmetry; apply ceq_false; congruence).
    unfold is_continuation.
    destruct ((bval c <? 128)%Z || (192 <=? bval c)%Z) eqn:E.
    + replace ((128 <=? bval c)%Z && (bval c <? 192)%Z) with false by lia.
      rewrite uadd32_id by lia. rewrite IH; simpl; [|done|lia]. f_equal. lia.
    + replace ((128 <=? bval c)%Z && (bval c <? 192)%Z) with true by lia.
      rewrite IH; simpl; [|done|lia]. f_equal.
Qed.

Lemma position_step_lines a p :
  ends_line a -> a <> [] ->
  (line p + N.of_nat (length a) < 2 ^ 32)%N ->
  fold_left position_step a p = mkPosition (line p + lf_count a) 0.
Proof.
  intros [->|[a' ->]] Hne Hlt; [done|]. clear Hne.
  revert p Hlt. induction a' as [|c a' IH]; intros p Hlt; cbn [fold_left length app] in *.
  - unfold position_step. rewrite ceq_refl. rewrite uadd32_id by lia. done.
  - rewrite lf_count_cons, length_app in *. simpl in Hlt.
    rewrite IH by (unfold position_step; destruct (ceq c LF);
      [cbn [line]; rewrite uadd32_id by lia|destruct (_ || _); cbn [line]]; len).
    unfold position_step. destruct (ceq c LF); [cbn [line]; rewrite uadd32_id by lia; f_equal; lia|].
    destruct (_ || _); simpl; f_equal; lia.
Qed.

(** [GetPositionForOffset] counts newlines and the units after the last one. *)
Lemma GetPositionForOffset_split a b r :
  ends_line a -> LF ∉ b -> (Z.of_nat (length (a ++ b)) < 2 ^ 31)%Z ->
  GetPositionForOffset (length (a ++ b)) (a ++ b ++ r) =
  mkPosition (lf_count a) (units b).
Proof.
  intros Ha Hb Hlen. unfold GetPositionForOffset. rewrite app_assoc, take_app_length.
  rewrite fold_left_app. rewrite length_app in Hlen.
  destruct (decide (a = [])) as [->|Hne].
  - simpl. rewrite position_step_line by (unfold kZeroPosition; cbn [line character]; solve [done|lia]). done.
  - rewrite (position_step_lines a) by (unfold kZeroPosition; cbn [line character]; solve [done|lia]).
    rewrite position_step_line by (unfold kZeroPosition; cbn [line character]; solve [done|lia]). simpl. done.
Qed.

(** *** The second loop inverts the unit count *)

Lemma framed_drop h k s :
  framed h s = true ->
  framed (match k with 0 => h | S j => match s !! j with
            | Some c => (128 <=? bval c)%Z | None => true end end) (drop k s) = true.
Proof.
  revert h k. induction s as [|c s IH]; intros h k Hf; [by destruct k|].
  destruct k as [|k]; [done|]. simpl in Hf. char_cases. simpl.
  specialize (IH _ k ltac:(eassumption)). destruct k; exact IH.
Qed.

Lemma skip_continuation_app b r :
  match r with c :: _ => is_continuation c = false | [] => True end ->
  skip_continuation (b ++ r) = skip_continuation b.
Proof.
  intros Hr. induction b as [|c b IH]; simpl.
  - destruct r as [|c r]; simpl; [done|]. by rewrite Hr.
  - by rewrite IH.
Qed.

Lemma skip_continuation_units b : units (take (skip_continuation b) b) = 0%N.
Proof.
  induction b as [|c b IH]; simpl; [done|].
  destruct (is_continuation c) eqn:E; [|done]. simpl. rewrite E. lia.
Qed.

Lemma skip_continuation_next b :
  match drop (skip_continuation b) b with
  | c :: _ => is_continuation c = false | [] => True end.
Proof.
  induction b as [|c b IH]; simpl; [done|].
  destruct (is_continuation c) eqn:E; [|done]. simpl. exact IH.
Qed.

Lemma units_skip b :
  units (drop (skip_continuation b) b) = units b.
Proof.
  rewrite <- (take_drop (skip_continuation b) b) at 3.
  rewrite units_app, skip_continuation_units. lia.
Qed.

Lemma framed_skip h b :
  framed h b = true -> framed false (drop (skip_continuation b) b) = true.
Proof.
  revert h. induction b as [|c b IH]; intros h Hf; [done|]. simpl in *. char_cases.
  destruct (is_continuation c) eqn:E; simpl; [by eapply IH|].
  rewrite E. done.
Qed.

Lemma seek_char_units b r :
  framed false b = true ->
  match r with c :: _ => is_continuation c = false | [] => True end ->
  seek_char (units b) (b ++ r) = length b.
Proof.
  intros Hf Hr. remember (length b) as n eqn:Hn.
  revert b Hf Hn. induction (lt_wf n) as [n _ IH]. intros [|c b] Hf Hn.
  - simpl in *. subst. apply seek_char_0.
  - cbn [framed units app length] in *. char_cases.
    rewrite orb_false_r in H. char_cases. rewrite H.
    rewrite seek_char_cons. pose proof (lead_units_pos c).
    replace (0 <? _)%N with true by (symmetry; apply N.ltb_lt; lia).
    replace (lead_units c + units b - N.min (lead_units c + units b) (lead_units c))%N
      with (units b) by lia.
    unfold is_continuation in H.
    destruct (128 <=? bval c)%Z eqn:E.
    + rewrite skip_continuation_app by done. cbv zeta.
      pose proof (skip_continuation_bound b).
      rewrite drop_app_le by done. rewrite <- units_skip.
      erewrite (IH (length (drop (skip_continuation b) b)));
        [|rewrite length_drop; lia|by eapply framed_skip|done].
      rewrite length_drop. lia.
    + cbv zeta. rewrite drop_0. erewrite (IH (length b)); [lia|lia|done|done].
Qed.

Lemma framed_app_r h s t :
  framed h (s ++ t) = true -> ends_line s -> s <> [] -> framed false t = true.
Proof.
  intros H [->|[s' ->]] Hne; [done|]. clear Hne. revert h H.
  induction s' as [|c s' IH]; intros h H; simpl in H; char_cases; eauto.
Qed.

Lemma framed_app_l h s t : framed h (s ++ t) = true -> framed h s = true.
Proof.
  revert h. induction s as [|c s IH]; intros h H; simpl in *; [done|]. char_cases.
  rewrite (IH _ H0). by rewrite H.
Qed.

(** Offsets at code point boundaries survive the round trip through a
    position. *)
Lemma offset_index_of_position content offset :
  (Z.of_nat (length content) < 2 ^ 31)%Z ->
  framed false content = true ->
  offset <= length content ->
  at_boundary offset content = true ->
  offset_index (GetPositionForOffset offset content) content = offset.
Proof.
  intros Hlen Hf Hoff Hb.
  destruct (split_last_line (take offset content)) as (a & b & Hab & Ha & Hlf).
  assert (Hc : content = a ++ b ++ drop offset content)
    by (rewrite app_assoc, <- Hab, take_drop; done).
  assert (Hl : length (a ++ b) = offset) by (rewrite <- Hab, length_take; lia).
  set (r := drop offset content) in *.
  assert (Hr : match r with c :: _ => is_continuation c = false | [] => True end).
  { unfold at_boundary in Hb. subst r. rewrite <- (Nat.add_0_r offset) in Hb.
    rewrite <- lookup_drop in Hb. destruct (drop offset content); [done|].
    simpl in Hb. by char_cases. }
  clearbody r. subst content. rewrite <- Hl.
  rewrite GetPositionForOffset_split by (rewrite ?length_app in *; solve [done|lia]).
  unfold offset_index. simpl. rewrite seek_line_ends_line by done.
  rewrite drop_app_length, length_app. f_equal. apply seek_char_units; [|done].
  destruct (decide (a = [])) as [->|Hne].
  - by eapply framed_app_l.
  - eapply framed_app_l. by eapply framed_app_r.
Qed.

(** *** The UTF-8 scan *)

Lemma line_scan_no_lf b i l ls : LF ∉ b -> line_scan b i l ls = (l, ls).
Proof.
  revert i. induction b as [|c b IH]; intros i H; simpl; [done|].
  apply not_elem_of_cons in H as [Hc Hb].
  replace (ceq c LF) with false by (symmetry; apply ceq_false; congruence).
  by apply IH.
Qed.

Lemma line_scan_app s t i l ls :
  line_scan (s ++ t) i l ls =
  let '(l', ls') := line_scan s i l ls in line_scan t (i + length s) l' ls'.
Proof.
  revert i l ls. induction s as [|c s IH]; intros i l ls; simpl.
  - by rewrite Nat.add_0_r.
  - destruct (ceq c LF); rewrite IH; destruct line_scan; f_equal; lia.
Qed.

Lemma line_scan_ends_line a i l ls :
  ends_line a -> a <> [] -> (l + N.of_nat (length a) < 2 ^ 32)%N ->
  line_scan a i l ls = ((l + lf_count a)%N, i + length a).
Proof.
  intros [->|[a' ->]] Hne Hlt; [done|]. clear Hne. revert i l ls Hlt.
  induction a' as [|c a' IH]; intros i l ls Hlt; cbn [app length line_scan] in *.
  - rewrite ceq_refl. rewrite uadd32_id by lia. f_equal. lia.
  - rewrite lf_count_cons, length_app in *. simpl length in *.
    destruct (ceq c LF).
    + rewrite uadd32_id by lia. rewrite IH by len. f_equal; len.
    + rewrite IH by len. f_equal; len.
Qed.

(** *** ASCII text *)

Definition is_ascii (c : byte) : bool := (bval c <? 128)%Z.

Lemma ascii_units s : forallb is_ascii s = true -> units s = N.of_nat (length s).
Proof.
  induction s as [|c s IH]; [done|]. cbn [forallb units length]. intros H. char_cases.
  rewrite IH by done. unfold is_continuation, lead_units, is_ascii in *.
  replace ((128 <=? bval c)%Z && (bval c <? 192)%Z) with false by lia.
  replace (240 <=? bval c)%Z with false by lia. lia.
Qed.

Lemma ascii_framed h s : forallb is_ascii s = true -> framed h s = true.
Proof.
  revert h. induction s as [|c s IH]; intros h; [done|]. cbn [forallb framed]. intros H.
  char_cases. rewrite IH by done. unfold is_continuation, is_ascii in *.
  replace ((128 <=? bval c)%Z && (bval c <? 192)%Z) with false by lia. done.
Qed.

Lemma ascii_no_continuation s :
  forallb is_ascii s = true ->
  match s with c :: _ => is_continuation c = false | [] => True end.
Proof.
  destruct s as [|c s]; [done|]. simpl. intros H. char_cases.
  unfold is_continuation, is_ascii in *. lia.
Qed.

Lemma forallb_take {A} (f : A -> bool) k l : forallb f l = true -> forallb f (take k l) = true.
Proof.
  revert k. induction l as [|x l IH]; intros [|k]; simpl; [done|done|done|].
  intros H. char_cases. by rewrite H, IH.
Qed.

Lemma forallb_drop {A} (f : A -> bool) k l : forallb f l = true -> forallb f (drop k l) = true.
Proof.
  revert k. induction l as [|x l IH]; intros [|k]; simpl; try done.
  intros H. char_cases. by apply IH.
Qed.

Lemma seek_char_ascii k s :
  forallb is_ascii s = true -> k <= length s -> seek_char (N.of_nat k) s = k.
Proof.
  intros Hs Hk. rewrite <- (take_drop k s) at 1.
  replace (N.of_nat k) with (units (take k s))
    by (rewrite ascii_units by (by apply forallb_take); len).
  rewrite seek_char_units; [len| |].
  - by apply ascii_framed, forallb_take.
  - by apply ascii_no_continuation, forallb_drop.
Qed.

(** ** Properties *)

(** C15. On text whose continuation bytes follow a non-ASCII byte (any UTF-8
    text) and shorter than 2^31 bytes, the UTF-16 conversions invert each
    other: the offset of the position of a code point boundary is that
    boundary, and no counter wraps on the way. *)
Theorem offset_position_roundtrip (content : bytes) (offset : nat) :
  (Z.of_nat (length content) < 2 ^ 31)%Z ->
  framed false content = true ->
  offset <= length content ->
  at_boundary offset content = true ->
  GetOffsetForPosition (GetPositionForOffset offset content) content = Z.of_nat offset.
Proof.
  intros Hlen Hf Ho Hb. rewrite GetOffsetForPosition_index by done.
  by rewrite offset_index_of_position.
Qed.

(** The text "a", U+00E9, newline, U+1F600, "z": its last offset. *)
Definition sample_text : bytes :=
  [Byte.x61; Byte.xc3; Byte.xa9; LF; Byte.xf0; Byte.x9f; Byte.x98; Byte.x80; Byte.x7a].

Lemma offset_position_roundtrip_witness :
  GetPositionForOffset 8 sample_text = mkPosition 1 2 /\
  GetOffsetForPosition (GetPositionForOffset 8 sample_text) sample_text = 8%Z.
Proof.
  split; [reflexivity|].
  apply (offset_position_roundtrip sample_text 8); [reflexivity|reflexivity|simpl; lia|reflexivity].
Defined.

(** With the UTF-8 encoding the round trip holds for every offset below
    2^31, also past the end of the text. *)
Theorem offset_position_roundtrip_utf8 (content : bytes) (offset : nat) :
  (Z.of_nat offset < 2 ^ 31)%Z ->
  GetOffsetForPositionWithEncoding
    (GetPositionForOffsetWithEncoding offset content Utf8) content Utf8 = Z.of_nat offset.
Proof.
  intros Ho. destruct (split_last_line (take offset content)) as (a & b & Hab & Ha & Hlf).
  assert (Hc : content = a ++ b ++ drop offset content)
    by (rewrite app_assoc, <- Hab, take_drop; done).
  assert (Hl : length a <= offset)
    by (apply (f_equal length) in Hab; rewrite length_app, length_take in Hab; lia).
  unfold GetPositionForOffsetWithEncoding, GetOffsetForPositionWithEncoding.
  rewrite Hab, line_scan_app.
  assert (Hs : line_scan a 0 0 0 = (lf_count a, length a)).
  { destruct (decide (a = [])) as [->|Hne]; [done|].
    rewrite line_scan_ends_line by solve [done|lia]. done. }
  rewrite Hs, line_scan_no_lf by done. cbn beta iota zeta. cbn [line character].
  rewrite (to_int32_id (Z.of_nat _)) by lia. rewrite Z.mod_small by lia.
  rewrite Hc, seek_line_ends_line by done. rewrite Z2N.id by lia.
  rewrite to_int32_id by lia. lia.
Qed.

Lemma offset_position_roundtrip_utf8_witness :
  GetOffsetForPositionWithEncoding
    (GetPositionForOffsetWithEncoding 8 sample_text Utf8) sample_text Utf8 = 8%Z.
Proof. apply (offset_position_roundtrip_utf8 sample_text 8). reflexivity. Defined.

(** A character index past the end of its line does not stop at the line
    end, as the comment on [lsPosition::character] says it does: on ASCII
    text it runs over the newline and lands in the following lines. *)
Theorem character_past_line_end (first rest : bytes) (k : nat) :
  forallb is_ascii first = true ->
  forallb is_ascii rest = true ->
  LF ∉ first ->
  k <= length rest ->
  (Z.of_nat (length (first ++ LF :: rest)) < 2 ^ 31)%Z ->
  GetOffsetForPosition (mkPosition 0 (N.of_nat (S (length first + k)))) (first ++ LF :: rest)
  = Z.of_nat (S (length first + k)).
Proof.
  intros Hf Hr _ Hk Hlen. rewrite GetOffsetForPosition_index by done.
  unfold offset_index. cbn [line character]. rewrite seek_line_0, drop_0, seek_char_ascii.
  - lia.
  - rewrite forallb_app, Hf. simpl. by rewrite Hr.
  - len.
Qed.

Lemma character_past_line_end_witness :
  GetOffsetForPosition (mkPosition 0 4) (lit "ab" ++ LF :: lit "cd") = 4%Z.
Proof.
  apply (character_past_line_end (lit "ab") (lit "cd") 1);
    [reflexivity|reflexivity| |simpl; lia|reflexivity].
  apply (bool_decide_unpack _). vm_compute. exact I.
Defined.
