(* ===== verification/Utils.v ===== *)
(** * String and path helpers

    The pure helpers of src/lsp/utils.cpp: prefix and suffix tests, splitting
    and replacing, directory and base names, newline conversion, absolute path
    tests, and the POSIX path normalisation [RealPathNotExpandSymlink] with the
    calls of the operating system ([getcwd], [stat]) as parameters. *)
From S2P Require Import Prelude CppString.

(** ** Prefix and suffix tests *)

Definition StartsWith (value start : bytes) : bool :=
  if length value <? length start then false else starts_with start value.

Definition EndsWith (value ending : bytes) : bool :=
  if length value <? length ending then false else starts_with (rev ending) (rev value).

Definition AnyStartsWith (values : list bytes) (start : bytes) : bool :=
  existsb (fun value => StartsWith value start) values.

Definition StartsWithAny (value : bytes) (startings : list bytes) : bool :=
  existsb (fun starting => StartsWith value starting) startings.

Definition EndsWithAny (value : bytes) (endings : list bytes) : bool :=
  existsb (fun ending => EndsWith value ending) endings.

Definition FindAnyPartial (value : bytes) (values : list bytes) : bool :=
  existsb (fun v => match find_sub v value with Some _ => true | None => false end) values.

(** ** Replacing and splitting

    The loops search from [last_pos]; [rest] is the text from there on.  Every
    round consumes the non-empty pattern, so [length + 1] rounds are enough. *)

Fixpoint ReplaceAll_loop (fuel : nat) (from to rest : bytes) : bytes :=
  match fuel with
  | 0 => rest
  | S fuel' =>
      match find_sub from rest with
      | Some i => take i rest ++ to ++ ReplaceAll_loop fuel' from to (drop (i + length from) rest)
      | None => rest
      end
  end.

Definition ReplaceAll (source from to : bytes) : bytes :=
  match from with
  | [] => source
  | _ => ReplaceAll_loop (S (length source)) from to source
  end.

Fixpoint SplitString_loop (fuel : nat) (delimiter rest : bytes) : list bytes :=
  match fuel with
  | 0 => [rest]
  | S fuel' =>
      match find_sub delimiter rest with
      | Some i => take i rest :: SplitString_loop fuel' delimiter (drop (i + length delimiter) rest)
      | None => [rest]
      end
  end.

Definition SplitString (str delimiter : bytes) : list bytes :=
  match delimiter with
  | [] => [str]
  | _ => SplitString_loop (S (length str)) delimiter str
  end.

(** The loop of [StringJoinMap] *)
Fixpoint StringJoinMap_loop {V} (values : list V) (map : V -> bytes) (sep : bytes) (first : bool) (result : bytes)
    : bytes :=
  match values with
  | [] => result
  | entry :: rest =>
      let result := if negb first then result ++ sep else result in
      StringJoinMap_loop rest map sep false (result ++ map entry)
  end.
Definition StringJoinMap {V} (values : list V) (map : V -> bytes) (sep : bytes) : bytes :=
  StringJoinMap_loop values map sep true [].
Definition StringJoin (values : list bytes) (sep : bytes) : bytes := StringJoinMap values (fun entry => entry) sep.

(** ** Collections *)

Definition ContainsValue {V} `{EqDecision V} (collection : list V) (value : V) : bool :=
  match list_find (fun v => v = value) collection with Some _ => true | None => false end.

(** [std::remove_if] moves the elements that stay to the front, the first
    [length (remove_if l)] of the result; the rest is unspecified and erased. *)
Definition remove_if {V} (predicate : V -> bool) (vec : list V) : list V :=
  fold_right (fun v kept => if predicate v then kept else v :: kept) [] vec.
Definition RemoveIf {V} (vec : list V) (predicate : V -> bool) : list V := remove_if predicate vec.

(** ** Names *)

Definition GetDirName (path0 : bytes) : bytes :=
  let path := ReplaceAll path0 (lit "\") (lit "/") in
  if bool_decide (path = []) then lit "./"
  else if bool_decide (path = lit "/")
       || (bool_decide (length path = 3) && bool_decide (path !! 1 = Some ":"%byte)
           && bool_decide (path !! 2 = Some "/"%byte))
  then path
  else
    let path := if back_is "/" path then pop_back path else path in
    match rfind_char "/" path with
    | None => lit "./"
    | Some last_slash => substr path 0 (last_slash + 1)
    end.

Definition GetBaseName (path : bytes) : bytes :=
  match rfind_char "/" path with
  | Some last_slash =>
      if last_slash + 1 <? length path then drop (last_slash + 1) path else path
  | None => path
  end.

Definition StripFileType (path : bytes) : bytes :=
  match rfind_char "." path with
  | Some last_period => substr path 0 last_period
  | None => path
  end.

Definition EnsureEndsInSlash (path : bytes) : bytes :=
  if bool_decide (path = []) || negb (back_is "/" path) then path ++ lit "/" else path.

Definition EscapeFileName (path0 : bytes) : bytes :=
  let path := if negb (bool_decide (path0 = [])) && back_is "/" path0 then pop_back path0 else path0 in
  replace_char ":" "@" (replace_char "/" "@" (replace_char "\" "@" path)).

(** ** Lines *)

(** [ReadLinesWithEnding] on a file with the given contents: [SafeGetline]
    accumulates up to and including each newline, and the last line without
    one is returned too. *)
Fixpoint SafeGetline_all (content t : bytes) : list bytes :=
  match content with
  | [] => match t with [] => [] | _ => [t] end
  | c :: rest => if ceq c LF then (t ++ [c]) :: SafeGetline_all rest []
                 else SafeGetline_all rest (t ++ [c])
  end.

Definition ReadLinesWithEnding (content : bytes) : list bytes := SafeGetline_all content [].

(** [UpdateToRnNewlines]: the loop over [idx] on the growing [output].  A newline is
    visited once when it is preceded by a carriage return and twice otherwise,
    so [2 * length + 1] rounds are enough. *)
Fixpoint UpdateToRnNewlines_loop (fuel : nat) (output : bytes) (idx : nat) : bytes :=
  match fuel with
  | 0 => output
  | S fuel' =>
      match find_char_from LF output idx with
      | None => output
      | Some idx =>
          if (0 <? idx) && bool_decide (output !! (idx - 1) = Some CR)
          then UpdateToRnNewlines_loop fuel' output (S idx)
          else UpdateToRnNewlines_loop fuel'
                 (take idx output ++ [CR; LF] ++ drop (idx + 1) output) idx
      end
  end.

Definition UpdateToRnNewlines (output : bytes) : bytes :=
  UpdateToRnNewlines_loop (2 * length output + 1) output 0.

Definition FormatMicroseconds (microseconds : Z) : bytes :=
  let milliseconds := Z.quot microseconds 1000 in
  let hundredths := Z.quot (Z.rem microseconds 1000) 10 in
  let fraction := if (hundredths <? 10)%Z then lit "0" ++ to_string hundredths
                  else to_string hundredths in
  to_string milliseconds ++ lit "." ++ fraction ++ lit "ms".

(** ** Absolute paths *)

Definition is_drive_letter (c : byte) : bool :=
  ((65 <=? bval c)%Z && (bval c <=? 90)%Z) || ((97 <=? bval c)%Z && (bval c <=? 122)%Z).

Definition is_slash (c : byte) : bool := ceq c "/" || ceq c "\".

Definition IsUnixAbsolutePath (path : bytes) : bool :=
  match path with c :: _ => ceq c "/" | [] => false end.

Definition IsWindowsAbsolutePath (path : bytes) : bool :=
  match path with
  | c0 :: c1 :: c2 :: rest =>
      (ceq c1 ":" && is_slash c2 && is_drive_letter c0)
      || ((5 <=? length path) && is_slash c0 && is_slash c1 && negb (is_slash c2))
  | _ => false
  end.

Definition IsAbsolutePath (path : bytes) : bool :=
  IsUnixAbsolutePath path || IsWindowsAbsolutePath path.

(** [AbsolutePath] (lsp.cpp) keeps a string that is empty or absolute. *)
Record AbsolutePath := mkAbsolutePath { path_ : bytes }.

#[export] Instance AbsolutePath_eq_dec : EqDecision AbsolutePath.
Proof. solve_decision. Defined.

#[export] Instance AbsolutePath_countable : Countable AbsolutePath :=
  inj_countable path_ (fun p => Some (mkAbsolutePath p)) ltac:(by intros []).

Definition AbsolutePath_empty : AbsolutePath := mkAbsolutePath [].

Definition FromNormalized (absolute_path : bytes) : AbsolutePath :=
  if IsAbsolutePath absolute_path then mkAbsolutePath absolute_path else AbsolutePath_empty.

Definition valid (p : AbsolutePath) : bool := IsAbsolutePath (path_ p).

(** ** [RealPathNotExpandSymlink]

    [getcwd] is the result of [GetCurrentWorkingDirectory], [stat p] is
    [Some is_directory] when [stat(2)] succeeds. *)
Section RealPath.
Context (getcwd : bytes) (stat : bytes -> option bool).

(** One round of the loop on [next_token]; [more] is [j < path.size()].
    [None] is an early [return {}]. *)
Definition realpath_token (ensure_exists more : bool) (resolved0 next_token : bytes)
    : option bytes :=
  let resolved := if back_is "/" resolved0 then resolved0 else resolved0 ++ lit "/" in
  if bool_decide (next_token = []) || bool_decide (next_token = lit ".") then Some resolved
  else if bool_decide (next_token = lit "..") then
    Some (if 1 <? length resolved then
            match rfind_char_to "/" resolved (length resolved - 2) with
            | Some i => take (i + 1) resolved
            | None => take 0 resolved
            end
          else resolved)
  else
    let resolved := resolved ++ next_token in
    let stat_ok := match stat resolved with Some _ => true | None => false end in
    if negb stat_ok && ensure_exists then None
    else if ensure_exists && stat_ok
            && negb (bool_decide (stat resolved = Some true)) && more
    then None
    else Some resolved.

(** The loop over [i]; [rest] is [path] from [i] on.  The loop ends when [i]
    reaches the size; every round consumes a byte. *)
Fixpoint realpath_loop (fuel : nat) (ensure_exists : bool) (resolved rest : bytes)
    : option bytes :=
  match fuel, rest with
  | 0, _ | _, [] => Some resolved
  | S fuel', _ =>
      let j := default (length rest) (find_char "/" rest) in
      match realpath_token ensure_exists (j <? length rest) resolved (take j rest) with
      | None => None
      | Some resolved' => realpath_loop fuel' ensure_exists resolved' (drop (S j) rest)
      end
  end.

Definition RealPathNotExpandSymlink (path : bytes) (ensure_exists : bool) : AbsolutePath :=
  match path with
  | [] => AbsolutePath_empty
  | c0 :: rest0 =>
      if ceq c0 NUL then AbsolutePath_empty
      else
        let start :=
          if ceq c0 "/" && bool_decide (path !! 1 = Some "/"%byte)
             && (bool_decide (length path = 2) || negb (bool_decide (path !! 2 = Some "/"%byte)))
          then Some (lit "//", drop 2 path)
          else if ceq c0 "/" then Some (lit "/", drop 1 path)
          else match getcwd with [] => None | _ => Some (getcwd, path) end in
        match start with
        | None => AbsolutePath_empty
        | Some (resolved, rest) =>
            match realpath_loop (length rest) ensure_exists resolved rest with
            | None => AbsolutePath_empty
            | Some resolved =>
                FromNormalized
                  (if (1 <? length resolved) && back_is "/" resolved
                   then pop_back resolved else resolved)
            end
        end
  end.

(** [NormalizePath] on POSIX *)
Definition NormalizePath (path0 : bytes) (ensure_exists : bool) : AbsolutePath :=
  RealPathNotExpandSymlink path0 ensure_exists.

(** [AbsolutePath::AbsolutePath(std::string const&)] *)
Definition AbsolutePath_of (path : bytes) : AbsolutePath :=
  if IsAbsolutePath path then mkAbsolutePath (path_ (NormalizePath path false))
  else AbsolutePath_empty.
End RealPath.

(** ** [Directory] (lsp.cpp) *)
Record Directory := mkDirectory { dir_path : bytes }.

#[export] Instance Directory_eq_dec : EqDecision Directory.
Proof. solve_decision. Defined.

Definition Directory_of (p : AbsolutePath) : Directory :=
  mkDirectory (EnsureEndsInSlash (path_ p)).

(** ** Joining (lsp::join of src/lsp/Markup.cpp) *)
Fixpoint join (sep : bytes) (items : list bytes) : bytes :=
  match items with
  | [] => []
  | [x] => x
  | x :: rest => x ++ sep ++ join sep rest
  end.

Lemma join_cons sep x l : l <> [] -> join sep (x :: l) = x ++ sep ++ join sep l.
Proof. by destruct l. Qed.

(** *** Splitting and replacing *)

Lemma drop_find_shorter p s i n :
  p <> [] -> find_sub p s = Some i -> length s < S n -> length (drop (i + length p) s) < n.
Proof.
  intros Hp Hi Hn. apply find_sub_bound in Hi. rewrite length_drop.
  destruct p; [done|]. simpl in *. lia.
Qed.

Lemma SplitString_loop_nonempty fuel d s : SplitString_loop fuel d s <> [].
Proof. destruct fuel; simpl; [done|]. by destruct (find_sub d s). Qed.

Lemma SplitString_loop_join fuel d s : join d (SplitString_loop fuel d s) = s.
Proof.
  revert s. induction fuel as [|fuel IH]; intros s; simpl; [done|].
  destruct (find_sub d s) as [i|] eqn:E; [|done].
  rewrite join_cons by apply SplitString_loop_nonempty. rewrite IH.
  apply find_sub_Some in E as [H _]. by symmetry.
Qed.

Lemma drop_take_starts p s i j :
  starts_with p (drop j (take i s)) = true -> starts_with p (drop j s) = true.
Proof.
  intros [r Hr]%starts_with_exists. apply starts_with_exists.
  exists (r ++ drop i (drop (j - i) s)). rewrite app_assoc, <- Hr.
  destruct (decide (j <= i)) as [Hle|Hgt].
  - replace (j - i) with 0 by lia. rewrite drop_0.
    rewrite <- (take_drop i s) at 1. destruct (decide (i <= length s)).
    + rewrite drop_app_le by len. done.
    + rewrite (drop_ge s i) by lia. by rewrite !app_nil_r.
  - rewrite (drop_ge (take i s)) by len. rewrite drop_drop. simpl. f_equal. lia.
Qed.

(** A piece cut before the first occurrence has no occurrence. *)
Lemma find_sub_take p s i :
  p <> [] -> find_sub p s = Some i -> find_sub p (take i s) = None.
Proof.
  intros Hp (H1 & H2 & H3)%find_sub_Some. apply find_sub_None.
  intros j Hj. rewrite length_take in Hj.
  destruct (starts_with p (drop j (take i s))) eqn:E; [|done].
  pose proof (starts_with_length _ _ E) as Hl. rewrite length_drop, length_take in Hl.
  assert (0 < length p) by (destruct p; simpl; [done|lia]).
  apply drop_take_starts in E. rewrite H3 in E by lia. done.
Qed.

Lemma SplitString_loop_pieces fuel d s :
  d <> [] -> length s < fuel ->
  Forall (fun piece => find_sub d piece = None) (SplitString_loop fuel d s).
Proof.
  intros Hd. revert s. induction fuel as [|fuel IH]; intros s Hf; [lia|]. simpl.
  destruct (find_sub d s) as [i|] eqn:E; [|by repeat constructor].
  constructor; [by apply find_sub_take|]. apply IH. by eapply drop_find_shorter.
Qed.

Lemma ReplaceAll_loop_join fuel from to s :
  ReplaceAll_loop fuel from to s = join to (SplitString_loop fuel from s).
Proof.
  revert s. induction fuel as [|fuel IH]; intros s; simpl; [done|].
  destruct (find_sub from s) as [i|]; [|done].
  rewrite IH. by rewrite join_cons by apply SplitString_loop_nonempty.
Qed.

(** Splitting cuts at every occurrence of a non-empty delimiter: joining
    the pieces gives the text back, no piece contains the delimiter, and
    [ReplaceAll] is the join of the same pieces with the replacement. *)
Theorem SplitString_ReplaceAll (s d to : bytes) :
  d <> [] ->
  join d (SplitString s d) = s /\
  Forall (fun piece => find_sub d piece = None) (SplitString s d) /\
  ReplaceAll s d to = join to (SplitString s d).
Proof.
  intros Hd. unfold SplitString, ReplaceAll. destruct d as [|c d]; [done|]. split.
  - apply SplitString_loop_join.
  - split; [apply SplitString_loop_pieces; [done|lia]|apply ReplaceAll_loop_join].
Qed.

Lemma StringJoinMap_loop_spec {V} (values : list V) f sep result :
  StringJoinMap_loop values f sep false result = result ++ concat (map (fun v => sep ++ f v) values).
Proof.
  revert result. induction values as [|v values IH]; intros result; cbn; [by rewrite app_nil_r|].
  rewrite IH. by rewrite <- !app_assoc.
Qed.

(** [StringJoinMap] puts the separator between the texts, never before the
    first or after the last one. *)
Lemma StringJoinMap_join {V} (values : list V) f sep : StringJoinMap values f sep = join sep (map f values).
Proof.
  unfold StringJoinMap. destruct values as [|v values]; [done|]. cbn [StringJoinMap_loop negb app].
  rewrite StringJoinMap_loop_spec. revert v. induction values as [|w values IH]; intros v; [cbn; by rewrite app_nil_r|].
  cbn [map concat]. rewrite <- app_assoc, IH. by rewrite (join_cons sep (f v)).
Qed.

(** Joining what [SplitString] has split gives the text back. *)
Theorem StringJoin_SplitString (s d : bytes) : d <> [] -> StringJoin (SplitString s d) d = s.
Proof.
  intros Hd. unfold StringJoin. rewrite StringJoinMap_join, map_id. unfold SplitString.
  destruct d; [done|]. apply SplitString_loop_join.
Qed.

Lemma ContainsValue_spec {V} `{EqDecision V} (l : list V) v : ContainsValue l v = true <-> v ∈ l.
Proof.
  unfold ContainsValue. destruct (list_find _ l) as [[i w]|] eqn:E.
  - apply list_find_Some in E as (Hi & -> & _). split; [|done]. intros _. by apply list_elem_of_lookup_2 in Hi.
  - apply list_find_None in E. rewrite Forall_forall in E. split; [done|]. intros Hv. by destruct (E v Hv).
Qed.

Lemma RemoveIf_spec {V} (l : list V) p : RemoveIf l p = filter (fun v => p v = false) l.
Proof.
  unfold RemoveIf. induction l as [|v l IH]; [done|]. cbn [remove_if fold_right]. unfold remove_if in IH.
  rewrite IH. destruct (p v) eqn:E; [by rewrite filter_cons_False by congruence|by rewrite filter_cons_True].
Qed.

Lemma SplitString_ReplaceAll_witness :
  SplitString (lit "a::b::c") (lit "::") = [lit "a"; lit "b"; lit "c"] /\
  ReplaceAll (lit "a::b::c") (lit "::") (lit ".") = join (lit ".") (SplitString (lit "a::b::c") (lit "::")).
Proof.
  split; [reflexivity|].
  apply (SplitString_ReplaceAll (lit "a::b::c") (lit "::") (lit ".")). discriminate.
Defined.

(** ** Newline conversion *)

(** Reference: a newline gets a carriage return unless one precedes it. *)
Fixpoint crlf (after_cr : bool) (s : bytes) : bytes :=
  match s with
  | [] => []
  | c :: s' => if ceq c LF
               then (if after_cr then [LF] else [CR; LF]) ++ crlf false s'
               else c :: crlf (ceq c CR) s'
  end.

(** Every newline is preceded by a carriage return. *)
Fixpoint crlf_ok (after_cr : bool) (s : bytes) : bool :=
  match s with
  | [] => true
  | c :: s' => (negb (ceq c LF) || after_cr) && crlf_ok (ceq c CR) s'
  end.

Definition last_cr (s : bytes) : bool := back_is CR s.

Lemma crlf_no_lf a b h : LF ∉ a ->
  crlf h (a ++ b) = a ++ crlf (if bool_decide (a = []) then h else last_cr a) b.
Proof.
  revert h. induction a as [|c a IH]; intros h Ha; simpl; [done|].
  apply not_elem_of_cons in Ha as [Hc Ha].
  replace (ceq c LF) with false by (symmetry; apply ceq_false; congruence).
  f_equal. rewrite IH by done. f_equal. f_equal.
  unfold last_cr, back_is. destruct a as [|d a]; simpl.
  - unfold ceq. repeat case_bool_decide; congruence.
  - done.
Qed.

Lemma lookup_last (s : bytes) : s !! (length s - 1) = last s.
Proof. by rewrite last_lookup, Nat.sub_1_r. Qed.

Lemma prev_is_cr (a r : bytes) :
  (0 <? length a) && bool_decide ((a ++ r) !! (length a - 1) = Some CR) = last_cr a.
Proof.
  unfold last_cr, back_is. destruct (decide (a = [])) as [->|Hne]; [done|].
  assert (0 < length a) by (destruct a; simpl; [done|lia]).
  rewrite lookup_app_l by lia. rewrite lookup_last.
  replace (0 <? length a) with true by (symmetry; apply Nat.ltb_lt; lia).
  destruct (last a) as [c|] eqn:E; simpl.
  - unfold ceq. repeat case_bool_decide; congruence.
  - by apply last_None in E.
Qed.

Lemma last_cr_app a b : b <> [] -> last_cr (a ++ b) = last_cr b.
Proof.
  intros Hb. unfold last_cr, back_is. rewrite last_app.
  destruct (last b) eqn:E; [done|]. by apply last_None in E.
Qed.

Lemma split_first_lf rest :
  ((LF ∉ rest) /\ find_char LF rest = None) \/
  (exists a b, rest = a ++ (LF :: b) /\ (LF ∉ a) /\ find_char LF rest = Some (length a)).
Proof.
  destruct (find_char LF rest) as [i|] eqn:E.
  - right. unfold find_char in E. apply find_pred_Some in E as [(c & Hc & Hlf) HF].
    apply ceq_true in Hlf. subst c. exists (take i rest), (drop (S i) rest).
    split; [by rewrite take_drop_middle|]. split.
    + intros Hin. rewrite Forall_forall in HF. specialize (HF _ Hin).
      by rewrite ceq_refl in HF.
    + rewrite length_take. f_equal. apply lookup_lt_Some in Hc. lia.
  - left. split; [|done]. by apply find_char_None.
Qed.

Lemma UpdateToRnNewlines_loop_crlf fuel scanned rest :
  2 * length rest < fuel ->
  UpdateToRnNewlines_loop fuel (scanned ++ rest) (length scanned) =
  scanned ++ crlf (last_cr scanned) rest.
Proof.
  remember (length rest) as n eqn:Hn. revert fuel scanned rest Hn.
  induction (lt_wf n) as [n _ IH]. intros fuel scanned rest -> Hf.
  destruct fuel as [|fuel]; [lia|]. cbn [UpdateToRnNewlines_loop].
  unfold find_char_from. rewrite drop_app_length.
  destruct (split_first_lf rest) as [[Hno ->]|(a & b & Hab & Ha & ->)];
    cbn [fmap option_fmap option_map].
  - rewrite <- (app_nil_r rest) at 2. rewrite crlf_no_lf by done. simpl. by rewrite app_nil_r.
  - subst rest. rewrite length_app in *. cbn [length] in *.
    rewrite (app_assoc scanned a), <- (length_app scanned a), prev_is_cr, crlf_no_lf by done.
    replace (if bool_decide (a = []) then last_cr scanned else last_cr a)
      with (last_cr (scanned ++ a))
      by (case_bool_decide; subst; [by rewrite app_nil_r|by apply last_cr_app]).
    set (sc := scanned ++ a). cbn [crlf]. rewrite ceq_refl.
    destruct (last_cr sc) eqn:Hcr.
    + replace (sc ++ LF :: b) with ((sc ++ [LF]) ++ b) by by rewrite <- app_assoc.
      replace (S (length sc)) with (length (sc ++ [LF])) by (rewrite length_app; simpl; lia).
      rewrite (IH (length b)) by (simpl; lia).
      unfold sc. rewrite last_cr_app by done. rewrite <- !app_assoc. done.
    + rewrite take_app_length. rewrite drop_app_ge by lia.
      replace (length sc + 1 - length sc) with 1 by lia. simpl drop. rewrite drop_0.
      destruct fuel as [|fuel]; [lia|]. cbn [UpdateToRnNewlines_loop].
      unfold find_char_from. rewrite drop_app_length.
      assert (Hfc : (fun i => length sc + i) <$> find_char LF (CR :: LF :: b)
        = Some (length sc + 1)) by reflexivity.
      simpl app. rewrite Hfc. clear Hfc.
      replace (sc ++ CR :: LF :: b) with ((sc ++ [CR]) ++ LF :: b) by by rewrite <- app_assoc.
      replace (length sc + 1) with (length (sc ++ [CR])) by (rewrite length_app; done).
      rewrite prev_is_cr. unfold last_cr at 1. rewrite back_is_app.
      replace ((sc ++ [CR]) ++ LF :: b) with ((sc ++ [CR; LF]) ++ b) by by rewrite <- !app_assoc.
      replace (S (length (sc ++ [CR]))) with (length (sc ++ [CR; LF]))
        by (rewrite !length_app; simpl; lia).
      rewrite (IH (length b)) by (simpl; lia).
      rewrite (last_cr_app sc) by done. unfold sc. rewrite <- !app_assoc. done.
Qed.

Lemma crlf_crlf_ok h s : crlf_ok h (crlf h s) = true.
Proof.
  revert h. induction s as [|c s IH]; intros h; simpl; [done|].
  destruct (ceq c LF) eqn:E.
  - destruct h; simpl; apply IH.
  - simpl. rewrite E. simpl. apply IH.
Qed.

Lemma crlf_fixed h s : crlf_ok h s = true -> crlf h s = s.
Proof.
  revert h. induction s as [|c s IH]; intros h H; simpl in *; [done|].
  destruct (ceq c LF) eqn:E; char_cases.
  - subst. simpl in *. subst h. simpl. by rewrite IH.
  - by rewrite IH.
Qed.

(** The in-place loop terminates and computes [crlf]: afterwards every
    newline follows a carriage return, texts that are already so are left
    alone, and a second call changes nothing. *)
Theorem UpdateToRnNewlines_correct (s : bytes) :
  UpdateToRnNewlines s = crlf false s /\
  crlf_ok false (UpdateToRnNewlines s) = true /\
  UpdateToRnNewlines (UpdateToRnNewlines s) = UpdateToRnNewlines s.
Proof.
  assert (H : forall t, UpdateToRnNewlines t = crlf false t).
  { intros t. unfold UpdateToRnNewlines.
    apply (UpdateToRnNewlines_loop_crlf _ [] t). lia. }
  rewrite !H. split; [done|]. split; [apply crlf_crlf_ok|]. apply crlf_fixed, crlf_crlf_ok.
Qed.

(** ** Path normalisation

    Reference: a path is a root ("/" or "//") and a stack of components. *)

Fixpoint split_on (c : byte) (s : bytes) : list bytes :=
  match s with
  | [] => [[]]
  | d :: s' => if ceq d c then [] :: split_on c s'
               else match split_on c s' with
                    | t :: ts => (d :: t) :: ts
                    | [] => [[d]]
                    end
  end.

Definition canon_step (st : bytes * list bytes) (tok : bytes) : bytes * list bytes :=
  let '(root, comps) := st in
  if bool_decide (tok = []) || bool_decide (tok = lit ".") then (root, comps)
  else if bool_decide (tok = lit "..") then
    match comps with
    | [] => (lit "/", [])
    | _ => (root, take (length comps - 1) comps)
    end
  else (root, comps ++ [tok]).

Definition canon_root (path : bytes) : bytes * bytes :=
  if starts_with (lit "//") path && negb (bool_decide (path !! 2 = Some "/"%byte))
  then (lit "//", drop 2 path) else (lit "/", drop 1 path).

(** The canonical text: the root alone is always "/". *)
Definition canon_text (st : bytes * list bytes) : bytes :=
  let '(root, comps) := st in
  match comps with [] => lit "/" | _ => root ++ join (lit "/") comps end.

Definition canonical_path (path : bytes) : bytes :=
  let '(root, rest) := canon_root path in
  canon_text (fold_left canon_step (split_on "/" rest) (root, [])).

(** *** The accumulated string represents the stack *)

Definition root_ok (root : bytes) : Prop := root = lit "/" \/ root = lit "//".

Definition comp_ok (c : bytes) : Prop :=
  (c <> []) /\ ("/"%byte ∉ c) /\ (c <> lit ".") /\ c <> lit "..".

Definition state_ok (st : bytes * list bytes) : Prop := root_ok st.1 /\ Forall comp_ok st.2.

Definition dir_text (st : bytes * list bytes) : bytes :=
  st.1 ++ concat (map (fun c => c ++ lit "/") st.2).

(** [resolved] spells the state, with or without the trailing slash. *)
Definition spells (resolved : bytes) (st : bytes * list bytes) : Prop :=
  resolved = dir_text st \/ (st.2 <> [] /\ resolved = st.1 ++ join (lit "/") st.2).

Lemma dir_text_snoc root comps c : dir_text (root, comps ++ [c]) = dir_text (root, comps) ++ c ++ lit "/".
Proof.
  unfold dir_text. simpl. rewrite map_app, concat_app. simpl. by rewrite app_nil_r, app_assoc.
Qed.

Lemma join_dir_text root comps : comps <> [] ->
  dir_text (root, comps) = (root ++ join (lit "/") comps) ++ lit "/".
Proof.
  intros H. unfold dir_text. simpl. rewrite <- app_assoc. f_equal.
  induction comps as [|c comps IH]; [done|]. cbn [map concat].
  destruct comps as [|d comps]; [simpl; by rewrite app_nil_r|].
  rewrite join_cons by done. rewrite IH by done. by rewrite !app_assoc.
Qed.

Lemma dir_text_back root comps : root_ok root -> back_is "/" (dir_text (root, comps)) = true.
Proof.
  intros Hr. destruct (decide (comps = [])) as [->|Hne].
  - unfold dir_text. simpl. rewrite app_nil_r. by destruct Hr as [-> | ->].
  - rewrite join_dir_text by done. apply back_is_app.
Qed.

Lemma join_no_slash_back root comps :
  Forall comp_ok comps -> comps <> [] -> back_is "/" (root ++ join (lit "/") comps) = false.
Proof.
  intros HF Hne. unfold back_is. rewrite last_app.
  assert (exists d, last (join (lit "/") comps) = Some d /\ d <> "/"%byte) as (d & -> & Hd).
  { induction HF as [|c comps Hc HF IH]; [done|]. destruct comps as [|c' comps].
    - simpl. destruct Hc as (H1 & H2 & _). destruct (last c) eqn:E.
      + exists b. split; [done|]. intros ->. apply H2. by apply last_Some_elem_of in E.
      + by apply last_None in E.
    - rewrite join_cons by done. destruct IH as (d & Hd & ?); [done|]. exists d.
      rewrite !last_app, Hd. done. }
  apply ceq_false. congruence.
Qed.

(** The slash the loop appends turns either spelling into [dir_text]. *)
Lemma spells_slash resolved st :
  state_ok st -> spells resolved st ->
  (if back_is "/" resolved then resolved else resolved ++ lit "/") = dir_text st.
Proof.
  destruct st as [root comps]. intros [Hr HF] [->|[Hne ->]]; simpl in *.
  - by rewrite dir_text_back.
  - rewrite join_no_slash_back by done. by rewrite join_dir_text.
Qed.

Lemma spells_pop comps c root :
  root_ok root -> comp_ok c ->
  rfind_char_to "/" (dir_text (root, comps ++ [c])) (length (dir_text (root, comps ++ [c])) - 2)
  = Some (length (dir_text (root, comps)) - 1).
Proof.
  intros Hr (Hc1 & Hc2 & _). pose proof (dir_text_back root comps Hr) as Hb.
  apply back_is_spec in Hb as [r Hb]. rewrite dir_text_snoc, Hb.
  unfold rfind_char_to. rewrite !length_app.
  assert (0 < length c) by (destruct c; simpl; [done|lia]).
  replace (S (length r + length ["/"%byte] + (length c + length (lit "/")) - 2))
    with (length (r ++ "/"%byte :: c)) by (rewrite length_app; simpl; lia).
  replace ((r ++ ["/"%byte]) ++ c ++ lit "/") with ((r ++ "/"%byte :: c) ++ lit "/")
    by by rewrite <- !app_assoc.
  rewrite take_app_length, rfind_char_app by done. f_equal. simpl. lia.
Qed.

Lemma take_snoc_pred {A} (l : list A) x : take (length (l ++ [x]) - 1) (l ++ [x]) = l.
Proof. rewrite length_app. simpl. rewrite Nat.add_sub. apply take_app_length. Qed.

Lemma canon_step_ok st tok :
  state_ok st -> "/"%byte ∉ tok -> state_ok (canon_step st tok).
Proof.
  destruct st as [root comps]. intros [Hr HF] Ht. unfold canon_step.
  destruct (_ || _) eqn:E1; [done|]. char_cases.
  destruct (bool_decide (tok = lit "..")) eqn:E2; char_cases.
  - destruct comps as [|c comps]; [split; [by left|constructor]|].
    split; [done|]. by apply Forall_take.
  - split; [done|]. simpl in *. apply Forall_app. split; [done|]. constructor; [|constructor].
    done.
Qed.

Section RealPathCorrect.
Context (getcwd : bytes) (stat : bytes -> option bool).

Lemma realpath_token_step more resolved st tok :
  state_ok st -> "/"%byte ∉ tok -> spells resolved st ->
  exists resolved', realpath_token stat false more resolved tok = Some resolved' /\
                    spells resolved' (canon_step st tok).
Proof.
  intros Hok Ht Hs. unfold realpath_token. rewrite (spells_slash resolved st) by done.
  destruct st as [root comps]. cbn [canon_step].
  destruct (_ || _) eqn:E1; [eexists; split; [done|by left]|]. char_cases.
  destruct (bool_decide (tok = lit "..")) eqn:E2; char_cases.
  - eexists; split; [done|]. left. destruct Hok as [Hr HF]. simpl in Hr, HF.
    destruct comps as [|c comps'] using rev_ind.
    + destruct Hr as [-> | ->]; reflexivity.
    + clear IHcomps'. apply Forall_app in HF as [HF Hc]. inversion Hc as [|? ? Hc1 _]; subst.
      rewrite spells_pop by done.
      assert (Hp : 0 < length (dir_text (root, comps')))
        by (unfold dir_text; simpl; destruct Hr as [-> | ->]; simpl; lia).
      replace (1 <? _) with true
        by (symmetry; apply Nat.ltb_lt; rewrite dir_text_snoc, !length_app; simpl; lia).
      replace (length (dir_text (root, comps')) - 1 + 1)
        with (length (dir_text (root, comps'))) by lia.
      rewrite dir_text_snoc, take_app_length.
      destruct (comps' ++ [c]) eqn:El; [by destruct comps'|].
      rewrite <- El, take_snoc_pred. done.
  - rewrite andb_false_r. cbn [andb]. eexists; split; [done|]. right.
    split; [simpl; by destruct comps|]. simpl. unfold dir_text. simpl.
    rewrite <- app_assoc. f_equal. clear. induction comps as [|c comps IH]; [done|].
    cbn [map concat app]. rewrite <- app_assoc, IH, join_cons by (by destruct comps).
    by rewrite <- app_assoc.
Qed.

Lemma split_on_nonempty c s : split_on c s <> [].
Proof. destruct s as [|d s]; simpl; [done|]. destruct (ceq d c); [done|]. by destruct (split_on c s). Qed.

Lemma split_on_find c s :
  split_on c s =
  match find_char c s with
  | Some j => take j s :: split_on c (drop (S j) s)
  | None => [s]
  end.
Proof.
  induction s as [|d s IH]; simpl; [done|]. unfold find_char in *. simpl.
  replace (ceq c d) with (ceq d c) by (unfold ceq; repeat case_bool_decide; congruence).
  destruct (ceq d c); [done|]. rewrite IH. by destruct (find_pred (ceq c) s).
Qed.

Lemma realpath_loop_canon fuel resolved st rest :
  length rest <= fuel -> state_ok st -> spells resolved st ->
  exists resolved', realpath_loop stat fuel false resolved rest = Some resolved' /\
    spells resolved' (fold_left canon_step (split_on "/" rest) st) /\
    state_ok (fold_left canon_step (split_on "/" rest) st).
Proof.
  revert resolved st rest. induction fuel as [|fuel IH]; intros resolved st rest Hf Hok Hs.
  - destruct rest; [|simpl in Hf; lia]. exists resolved. by destruct st.
  - destruct rest as [|c rest]; [exists resolved; by destruct st|].
    cbn [realpath_loop]. remember (c :: rest) as s eqn:Es.
    rewrite split_on_find. destruct (find_char "/" s) as [j|] eqn:E;
      cbn [default from_option id fold_left]; cbv zeta; unfold id.
    + assert (Hj : "/"%byte ∉ take j s).
      { apply find_pred_Some in E as [_ HF]. intros Hin. rewrite Forall_forall in HF.
        specialize (HF _ Hin). by rewrite ceq_refl in HF. }
      destruct (realpath_token_step (j <? length s) resolved st (take j s)) as (r' & -> & Hr');
        [done..|].
      apply IH; [subst s; simpl in *; rewrite length_drop; lia| |done].
      by apply canon_step_ok.
    + apply find_char_None in E.
      rewrite (drop_ge s) by (simpl; lia). rewrite take_ge by (simpl; lia).
      destruct (realpath_token_step (length s <? length s) resolved st s) as (r' & -> & Hr');
        [done..|].
      exists r'. split; [by destruct fuel|]. split; [done|]. by apply canon_step_ok.
Qed.
End RealPathCorrect.

Lemma canon_root_ok path : root_ok (canon_root path).1.
Proof. unfold canon_root. destruct (_ && _); [by right|by left]. Qed.

Lemma canonical_state path :
  exists st, state_ok st /\ canonical_path path = canon_text st.
Proof.
  unfold canonical_path. destruct (canon_root path) as [root rest] eqn:E.
  destruct (realpath_loop_canon (fun _ => None) (length rest) root (root, []) rest)
    as (_ & _ & _ & H); [lia| | |by eexists].
  - split; [|constructor]. simpl. pose proof (canon_root_ok path) as H. by rewrite E in H.
  - left. unfold dir_text. simpl. by rewrite app_nil_r.
Qed.

(** The final trimming yields the canonical text. *)
Lemma spells_trim resolved st :
  state_ok st -> spells resolved st ->
  (if (1 <? length resolved) && back_is "/" resolved then pop_back resolved else resolved)
  = canon_text st.
Proof.
  destruct st as [root comps]. intros [Hr HF] Hs. simpl in Hr, HF.
  destruct (decide (comps = [])) as [->|Hne].
  - destruct Hs as [-> |[? _]]; [|done]. unfold dir_text. simpl.
    by destruct Hr as [-> | ->].
  - assert (Hc : canon_text (root, comps) = root ++ join (lit "/") comps)
      by (simpl; by destruct comps).
    rewrite Hc. destruct Hs as [-> |[_ ->]].
    + rewrite dir_text_back by done. rewrite join_dir_text by done.
      assert (0 < length root) by (destruct Hr as [-> | ->]; simpl; lia).
      replace (1 <? _) with true
        by (symmetry; apply Nat.ltb_lt; rewrite !length_app; simpl; lia).
      apply pop_back_app.
    + simpl. by rewrite join_no_slash_back, andb_false_r.
Qed.

Lemma canon_text_absolute st : state_ok st -> IsAbsolutePath (canon_text st) = true.
Proof.
  destruct st as [root comps]. intros [Hr _]. destruct comps; [done|].
  simpl in *. by destruct Hr as [-> | ->].
Qed.

Lemma split_on_join comps :
  Forall comp_ok comps -> comps <> [] -> split_on "/" (join (lit "/") comps) = comps.
Proof.
  induction 1 as [|c comps Hc HF IH]; [done|]. intros _.
  destruct Hc as (_ & Hc & _). destruct comps as [|d comps].
  - simpl. rewrite split_on_find. apply find_char_None in Hc. by rewrite Hc.
  - rewrite join_cons by done.
    replace (c ++ lit "/" ++ join (lit "/") (d :: comps))
      with (c ++ "/"%byte :: join (lit "/") (d :: comps)) by reflexivity.
    rewrite split_on_find, find_char_app by done. rewrite take_app_length.
    rewrite drop_app_ge by lia. replace (S (length c) - length c) with 1 by lia.
    rewrite skipn_cons, drop_0. by rewrite IH.
Qed.

Lemma canon_steps_ok comps root acc :
  Forall comp_ok comps ->
  fold_left canon_step comps (root, acc) = (root, acc ++ comps).
Proof.
  intros HF. revert acc. induction HF as [|c comps Hc HF IH]; intros acc; simpl.
  - by rewrite app_nil_r.
  - destruct Hc as (H1 & H2 & H3 & H4).
    rewrite !bool_decide_eq_false_2 by done. simpl. rewrite IH. by rewrite <- app_assoc.
Qed.

Lemma canonical_path_fixed st : state_ok st -> canonical_path (canon_text st) = canon_text st.
Proof.
  destruct st as [root comps]. intros [Hr HF]. simpl in Hr, HF.
  destruct (decide (comps = [])) as [->|Hne]; [reflexivity|].
  assert (Hc : canon_text (root, comps) = root ++ join (lit "/") comps)
    by (simpl; by destruct comps).
  assert (Hh : exists d t, join (lit "/") comps = d :: t /\ d <> "/"%byte).
  { destruct HF as [|c comps Hc1 _]; [done|]. destruct Hc1 as (H1 & H2 & _).
    destruct c as [|d c]; [done|]. apply not_elem_of_cons in H2 as [H2 _].
    destruct comps; simpl; eauto. }
  destruct Hh as (d & t & Hj & Hd).
  assert (Hroot : canon_root (canon_text (root, comps)) = (root, join (lit "/") comps)).
  { rewrite Hc, Hj. destruct Hr as [-> | ->]; unfold canon_root; simpl.
    - replace (ceq "/" d) with false by (symmetry; apply ceq_false; congruence). done.
    - rewrite bool_decide_eq_false_2 by congruence. done. }
  unfold canonical_path. rewrite Hroot, split_on_join, canon_steps_ok by done. done.
Qed.

Lemma canon_root_start p :
  (if bool_decide (("/"%byte :: p) !! 1 = Some "/"%byte)
      && (bool_decide (length ("/"%byte :: p) = 2)
          || negb (bool_decide (("/"%byte :: p) !! 2 = Some "/"%byte)))
   then Some (lit "//", drop 2 ("/"%byte :: p)) else Some (lit "/", drop 1 ("/"%byte :: p)))
  = Some (canon_root ("/"%byte :: p)).
Proof.
  unfold canon_root. simpl. destruct p as [|c1 p]; [done|]. simpl.
  destruct p as [|c2 p]; simpl; unfold ceq; repeat case_bool_decide; simpl in *;
    simplify_eq; try done.
Qed.

Lemma NormalizePath_unix getcwd stat path :
  IsUnixAbsolutePath path = true ->
  NormalizePath getcwd stat path false = mkAbsolutePath (canonical_path path).
Proof.
  intros Hp. unfold NormalizePath, RealPathNotExpandSymlink.
  destruct path as [|c0 p]; [done|]. simpl in Hp. apply ceq_true in Hp. subst c0.
  change (ceq "/" NUL) with false. rewrite ceq_refl. cbv iota. cbn [andb].
  rewrite canon_root_start. destruct (canon_root ("/"%byte :: p)) as [root rest] eqn:E.
  pose proof (canon_root_ok ("/"%byte :: p)) as Hr. rewrite E in Hr.
  destruct (realpath_loop_canon stat (length rest) root (root, []) rest)
    as (r & -> & Hs & Hok); [lia| | |].
  - split; [done|constructor].
  - left. unfold dir_text. simpl. by rewrite app_nil_r.
  - rewrite (spells_trim _ _ Hok Hs). unfold FromNormalized.
    rewrite canon_text_absolute by done. unfold canonical_path. by rewrite E.
Qed.

Lemma canon_text_unix st : state_ok st -> IsUnixAbsolutePath (canon_text st) = true.
Proof.
  destruct st as [root comps]. intros [Hr _]. simpl in *.
  destruct comps; [done|]. by destruct Hr as [-> | ->].
Qed.

(** C17. For an absolute POSIX path, [NormalizePath] without the existence
    test needs neither [getcwd] nor [stat]: it computes the canonical path of
    the component stack, which is absolute and a fixed point, and has no
    empty, "." or ".." component. *)
Theorem NormalizePath_canonical getcwd stat (path : bytes) :
  IsUnixAbsolutePath path = true ->
  path_ (NormalizePath getcwd stat path false) = canonical_path path /\
  valid (NormalizePath getcwd stat path false) = true /\
  NormalizePath getcwd stat (canonical_path path) false = NormalizePath getcwd stat path false /\
  exists root comps, canonical_path path = canon_text (root, comps) /\
    root_ok root /\ Forall comp_ok comps.
Proof.
  intros Hp. destruct (canonical_state path) as ([root comps] & Hok & Hst).
  rewrite !NormalizePath_unix by (rewrite ?Hst; auto using canon_text_unix).
  split; [done|]. split.
  - unfold valid. simpl path_. rewrite Hst. by apply canon_text_absolute.
  - split; [rewrite Hst; by rewrite canonical_path_fixed|].
    exists root, comps. destruct Hok. done.
Qed.

Lemma NormalizePath_canonical_witness :
  path_ (NormalizePath [] (fun _ => None) (lit "/a/./b//../c/") false) = lit "/a/c".
Proof.
  rewrite (proj1 (NormalizePath_canonical [] (fun _ => None) (lit "/a/./b//../c/") eq_refl)).
  reflexivity.
Defined.
