(* ===== verification/Utf8.v ===== *)
(** * UTF-8, UTF-16 and UTF-32

    The conversions between [std::string] and [std::wstring], [ws2s] and
    [s2ws] (src/lsp/utils.cpp), with the functions of the utfcpp library they
    call (third_party/utfcpp/source/utf8/core.h and checked.h).  An iterator
    is the text from its position on; code points and code units are [Z]. *)
From S2P Require Import Prelude CppString.
Local Open Scope Z_scope.

(** ** core.h *)

Definition LEAD_SURROGATE_MIN : Z := 0xd800.
Definition LEAD_SURROGATE_MAX : Z := 0xdbff.
Definition TRAIL_SURROGATE_MIN : Z := 0xdc00.
Definition TRAIL_SURROGATE_MAX : Z := 0xdfff.
Definition LEAD_OFFSET : Z := 0xd7c0.
Definition SURROGATE_OFFSET : Z := 0xfca02400.
Definition CODE_POINT_MAX : Z := 0x0010ffff.

Definition mask8 (oc : Z) : Z := Z.land 0xff oc.
Definition mask16 (oc : Z) : Z := Z.land 0xffff oc.
Definition is_trail (oc : byte) : bool := Z.shiftr (mask8 (bval oc)) 6 =? 0x2.

Definition is_lead_surrogate (cp : Z) : bool := (LEAD_SURROGATE_MIN <=? cp) && (cp <=? LEAD_SURROGATE_MAX).
Definition is_trail_surrogate (cp : Z) : bool := (TRAIL_SURROGATE_MIN <=? cp) && (cp <=? TRAIL_SURROGATE_MAX).
Definition is_surrogate (cp : Z) : bool := (LEAD_SURROGATE_MIN <=? cp) && (cp <=? TRAIL_SURROGATE_MAX).
Definition is_code_point_valid (cp : Z) : bool := (cp <=? CODE_POINT_MAX) && negb (is_surrogate cp).

Definition sequence_length (lead_it : byte) : nat :=
  let lead := mask8 (bval lead_it) in
  if lead <? 0x80 then 1
  else if Z.shiftr lead 5 =? 0x6 then 2
  else if Z.shiftr lead 4 =? 0xe then 3
  else if Z.shiftr lead 3 =? 0x1e then 4
  else 0.

Definition is_overlong_sequence (cp : Z) (length : nat) : bool :=
  if cp <? 0x80 then negb (length =? 1)%nat
  else if cp <? 0x800 then negb (length =? 2)%nat
  else if cp <? 0x10000 then negb (length =? 3)%nat
  else false.

(** [utf_error] but [UTF8_OK], which is the other side of a sum *)
Inductive utf_error :=
| NOT_ENOUGH_ROOM | INVALID_LEAD | INCOMPLETE_SEQUENCE | OVERLONG_SEQUENCE | INVALID_CODE_POINT.

(** [increase_safely]: the iterator moved by one, and the octet there *)
Definition increase_safely (it : bytes) : utf_error + (byte * bytes) :=
  match it with
  | _ :: c :: rest => if is_trail c then inr (c, c :: rest) else inl INCOMPLETE_SEQUENCE
  | _ => inl NOT_ENOUGH_ROOM
  end.

(** [UTF8_CPP_INCREASE_AND_RETURN_ON_ERROR] *)
Definition then_next {A} (it : bytes) (k : byte -> bytes -> utf_error + A) : utf_error + A :=
  match increase_safely it with inl e => inl e | inr (c, it') => k c it' end.

(** The decoders leave the iterator at the last octet of the sequence. *)
Definition get_sequence_1 (it : bytes) : utf_error + (Z * bytes) :=
  match it with [] => inl NOT_ENOUGH_ROOM | c :: _ => inr (mask8 (bval c), it) end.

Definition get_sequence_2 (it : bytes) : utf_error + (Z * bytes) :=
  match it with
  | [] => inl NOT_ENOUGH_ROOM
  | c0 :: _ =>
      then_next it (fun c1 it =>
        inr (Z.land (Z.shiftl (mask8 (bval c0)) 6) 0x7ff + Z.land (bval c1) 0x3f, it))
  end.

Definition get_sequence_3 (it : bytes) : utf_error + (Z * bytes) :=
  match it with
  | [] => inl NOT_ENOUGH_ROOM
  | c0 :: _ =>
      then_next it (fun c1 it =>
        let code_point := Z.land (Z.shiftl (mask8 (bval c0)) 12) 0xffff + Z.land (Z.shiftl (mask8 (bval c1)) 6) 0xfff in
        then_next it (fun c2 it => inr (code_point + Z.land (bval c2) 0x3f, it)))
  end.

Definition get_sequence_4 (it : bytes) : utf_error + (Z * bytes) :=
  match it with
  | [] => inl NOT_ENOUGH_ROOM
  | c0 :: _ =>
      then_next it (fun c1 it =>
        let code_point :=
          Z.land (Z.shiftl (mask8 (bval c0)) 18) 0x1fffff + Z.land (Z.shiftl (mask8 (bval c1)) 12) 0x3ffff in
        then_next it (fun c2 it =>
          let code_point := code_point + Z.land (Z.shiftl (mask8 (bval c2)) 6) 0xfff in
          then_next it (fun c3 it => inr (code_point + Z.land (bval c3) 0x3f, it))))
  end.

(** The code point and the iterator behind its sequence *)
Definition validate_next (it : bytes) : utf_error + (Z * bytes) :=
  match it with
  | [] => inl NOT_ENOUGH_ROOM
  | c :: _ =>
      let length := sequence_length c in
      let decoded :=
        match length with
        | 0%nat => inl INVALID_LEAD
        | 1%nat => get_sequence_1 it
        | 2%nat => get_sequence_2 it
        | 3%nat => get_sequence_3 it
        | _ => get_sequence_4 it
        end in
      match decoded with
      | inl err => inl err
      | inr (cp, it') =>
          if is_code_point_valid cp then
            if negb (is_overlong_sequence cp length) then inr (cp, tail it') else inl OVERLONG_SEQUENCE
          else inl INVALID_CODE_POINT
      end
  end.

(** [internal::append]; [byte_of] is the cast to [char] *)
Definition append_unchecked (cp : Z) : bytes :=
  if cp <? 0x80 then [byte_of cp]
  else if cp <? 0x800 then
    [byte_of (Z.lor (Z.shiftr cp 6) 0xc0); byte_of (Z.lor (Z.land cp 0x3f) 0x80)]
  else if cp <? 0x10000 then
    [byte_of (Z.lor (Z.shiftr cp 12) 0xe0); byte_of (Z.lor (Z.land (Z.shiftr cp 6) 0x3f) 0x80);
     byte_of (Z.lor (Z.land cp 0x3f) 0x80)]
  else
    [byte_of (Z.lor (Z.shiftr cp 18) 0xf0); byte_of (Z.lor (Z.land (Z.shiftr cp 12) 0x3f) 0x80);
     byte_of (Z.lor (Z.land (Z.shiftr cp 6) 0x3f) 0x80); byte_of (Z.lor (Z.land cp 0x3f) 0x80)].

(** ** checked.h *)

Inductive utf8_exception :=
| not_enough_room
| invalid_utf8 (u8 : byte)
| invalid_code_point (cp : Z)
| invalid_utf16 (u16 : Z).

Definition append (cp : Z) : utf8_exception + bytes :=
  if negb (is_code_point_valid cp) then inl (invalid_code_point cp) else inr (append_unchecked cp).

(** [next]: [cp] is still 0 when the exception for an invalid code point is made *)
Definition next (it : bytes) : utf8_exception + (Z * bytes) :=
  match validate_next it with
  | inr r => inr r
  | inl NOT_ENOUGH_ROOM => inl not_enough_room
  | inl INVALID_CODE_POINT => inl (invalid_code_point 0)
  | inl _ => inl (invalid_utf8 (default NUL (head it)))
  end.

Definition bind_utf {A B} (m : utf8_exception + A) (k : A -> utf8_exception + B) : utf8_exception + B :=
  match m with inl e => inl e | inr a => k a end.

Fixpoint utf32to8 (w : list Z) : utf8_exception + bytes :=
  match w with
  | [] => inr []
  | c :: w' => bind_utf (append (c mod 2 ^ 32)) (fun o => bind_utf (utf32to8 w') (fun r => inr (o ++ r)))
  end.

Fixpoint utf16to8 (w : list Z) : utf8_exception + bytes :=
  match w with
  | [] => inr []
  | u :: w' =>
      let cp := mask16 u in
      if is_lead_surrogate cp then
        match w' with
        | t :: w'' =>
            let trail_surrogate := mask16 t in
            if is_trail_surrogate trail_surrogate
            then bind_utf (append ((Z.shiftl cp 10 + trail_surrogate + SURROGATE_OFFSET) mod 2 ^ 32))
                   (fun o => bind_utf (utf16to8 w'') (fun r => inr (o ++ r)))
            else inl (invalid_utf16 trail_surrogate)
        | [] => inl (invalid_utf16 cp)
        end
      else if is_trail_surrogate cp then inl (invalid_utf16 cp)
      else bind_utf (append cp) (fun o => bind_utf (utf16to8 w') (fun r => inr (o ++ r)))
  end.

(** The code units that [utf8to16] makes of a code point *)
Definition units16 (cp : Z) : list Z :=
  if 0xffff <? cp
  then [(Z.shiftr cp 10 + LEAD_OFFSET) mod 2 ^ 16; (Z.land cp 0x3ff + TRAIL_SURROGATE_MIN) mod 2 ^ 16]
  else [cp mod 2 ^ 16].

(** The loops of [utf8to16] and [utf8to32] over the code points; [next]
    consumes at least one octet, so that [length s] rounds are enough. *)
Fixpoint decode (units : Z -> list Z) (fuel : nat) (s : bytes) : utf8_exception + list Z :=
  match s, fuel with
  | [], _ => inr []
  | _, O => inl not_enough_room
  | _, S fuel' =>
      bind_utf (next s) (fun '(cp, s') => bind_utf (decode units fuel' s') (fun r => inr (units cp ++ r)))
  end.
Definition utf8to16 (s : bytes) : utf8_exception + list Z := decode units16 (length s) s.
Definition utf8to32 (s : bytes) : utf8_exception + list Z := decode (fun cp => [cp]) (length s) s.

(** ** utils.cpp *)

(** [wide]: [sizeof(wchar_t) == 2] does not hold *)
Definition ws2s (wide : bool) (wstr : list Z) : utf8_exception + bytes :=
  if negb wide then utf16to8 wstr else utf32to8 wstr.
Definition s2ws (wide : bool) (str : bytes) : utf8_exception + list Z :=
  if negb wide then utf8to16 str else utf8to32 str.

(** ** Octets as numbers *)

Ltac octets := let b := fresh in intros b; destruct b; vm_compute; congruence.

Lemma is_trail_spec : forall b, is_trail b = (128 <=? bval b) && (bval b <? 192).
Proof. octets. Qed.
Lemma sequence_length_spec : forall b, sequence_length b =
  if bval b <? 128 then 1%nat else if bval b <? 192 then 0%nat else if bval b <? 224 then 2%nat
  else if bval b <? 240 then 3%nat else if bval b <? 248 then 4%nat else 0%nat.
Proof. octets. Qed.
Lemma mask8_octet : forall b, mask8 (bval b) = bval b.
Proof. octets. Qed.
Lemma trail_bits : forall b, is_trail b = true -> Z.land (bval b) 0x3f = bval b - 128.
Proof. octets. Qed.
Lemma trail_bits_6 : forall b, is_trail b = true -> Z.land (Z.shiftl (bval b) 6) 0xfff = (bval b - 128) * 64.
Proof. octets. Qed.
Lemma trail_bits_12 : forall b, is_trail b = true -> Z.land (Z.shiftl (bval b) 12) 0x3ffff = (bval b - 128) * 4096.
Proof. octets. Qed.
Lemma lead_bits_2 : forall b, sequence_length b = 2%nat -> Z.land (Z.shiftl (bval b) 6) 0x7ff = (bval b - 192) * 64.
Proof. octets. Qed.
Lemma lead_bits_3 : forall b, sequence_length b = 3%nat -> Z.land (Z.shiftl (bval b) 12) 0xffff = (bval b - 224) * 4096.
Proof. octets. Qed.
Lemma lead_bits_4 : forall b, sequence_length b = 4%nat -> Z.land (Z.shiftl (bval b) 18) 0x1fffff = (bval b - 240) * 262144.
Proof. octets. Qed.
Lemma lor_128 : forall b, bval b <? 64 = true -> Z.lor (bval b) 0x80 = bval b + 128.
Proof. octets. Qed.
Lemma lor_192 : forall b, bval b <? 32 = true -> Z.lor (bval b) 0xc0 = bval b + 192.
Proof. octets. Qed.
Lemma lor_224 : forall b, bval b <? 16 = true -> Z.lor (bval b) 0xe0 = bval b + 224.
Proof. octets. Qed.
Lemma lor_240 : forall b, bval b <? 8 = true -> Z.lor (bval b) 0xf0 = bval b + 240.
Proof. octets. Qed.
Lemma bval_byte_of z : 0 <= z < 256 -> bval (byte_of z) = z.
Proof.
  intros Hz. unfold byte_of. rewrite Z.mod_small by done. unfold bval.
  destruct (Byte.of_N (Z.to_N z)) as [b|] eqn:E; cbn.
  - apply Byte.to_of_N in E. rewrite E. lia.
  - apply Byte.of_N_None_iff in E. lia.
Qed.

(** ** The encoding of a code point *)

(** The definition of UTF-8 *)
Inductive encodes : Z -> bytes -> Prop :=
| enc1 cp b0 : 0 <= cp < 128 -> bval b0 = cp -> encodes cp [b0]
| enc2 cp b0 b1 : 128 <= cp < 2048 -> bval b0 = cp / 64 + 192 -> bval b1 = cp mod 64 + 128 -> encodes cp [b0; b1]
| enc3 cp b0 b1 b2 :
    2048 <= cp < 65536 -> ~ (0xd800 <= cp <= 0xdfff) ->
    bval b0 = cp / 4096 + 224 -> bval b1 = cp / 64 mod 64 + 128 -> bval b2 = cp mod 64 + 128 ->
    encodes cp [b0; b1; b2]
| enc4 cp b0 b1 b2 b3 :
    65536 <= cp <= 0x10ffff ->
    bval b0 = cp / 262144 + 240 -> bval b1 = cp / 4096 mod 64 + 128 -> bval b2 = cp / 64 mod 64 + 128 ->
    bval b3 = cp mod 64 + 128 -> encodes cp [b0; b1; b2; b3].

Lemma trail_octet x : 0 <= x < 64 -> bval (byte_of (Z.lor x 0x80)) = x + 128.
Proof.
  intros Hx. pose proof (lor_128 (byte_of x)) as H. rewrite bval_byte_of in H by lia.
  rewrite H by lia. apply bval_byte_of. lia.
Qed.

Lemma append_encodes cp :
  0 <= cp -> is_code_point_valid cp = true -> encodes cp (append_unchecked cp).
Proof.
  intros H0. unfold is_code_point_valid, is_surrogate, CODE_POINT_MAX, LEAD_SURROGATE_MIN, TRAIL_SURROGATE_MAX.
  intros Hv. unfold append_unchecked.
  rewrite !Z.shiftr_div_pow2 by lia. change 0x3f with (Z.ones 6). rewrite !Z.land_ones by lia.
  change (2 ^ 6) with 64. change (2 ^ 12) with 4096. change (2 ^ 18) with 262144.
  destruct (Z.ltb_spec cp 0x80); [|destruct (Z.ltb_spec cp 0x800); [|destruct (Z.ltb_spec cp 0x10000)]].
  - apply enc1; [lia|]. apply bval_byte_of. lia.
  - apply enc2; [lia| |apply trail_octet; Z.div_mod_to_equations; lia].
    pose proof (lor_192 (byte_of (cp / 64))) as H2. rewrite bval_byte_of in H2 by (Z.div_mod_to_equations; lia).
    rewrite H2 by (Z.div_mod_to_equations; lia). apply bval_byte_of. Z.div_mod_to_equations; lia.
  - apply enc3; [lia|lia| |apply trail_octet; Z.div_mod_to_equations; lia..].
    pose proof (lor_224 (byte_of (cp / 4096))) as H3. rewrite bval_byte_of in H3 by (Z.div_mod_to_equations; lia).
    rewrite H3 by (Z.div_mod_to_equations; lia). apply bval_byte_of. Z.div_mod_to_equations; lia.
  - apply enc4; [lia| |apply trail_octet; Z.div_mod_to_equations; lia..].
    pose proof (lor_240 (byte_of (cp / 262144))) as H4. rewrite bval_byte_of in H4 by (Z.div_mod_to_equations; lia).
    rewrite H4 by (Z.div_mod_to_equations; lia). apply bval_byte_of. Z.div_mod_to_equations; lia.
Qed.

Lemma encodes_inj cp l l' : encodes cp l -> encodes cp l' -> l = l'.
Proof.
  destruct 1; inversion 1; subst; try lia; repeat f_equal; apply bval_inj; lia.
Qed.

Lemma encodes_valid cp l : encodes cp l -> 0 <= cp /\ is_code_point_valid cp = true.
Proof.
  unfold is_code_point_valid, is_surrogate, CODE_POINT_MAX, LEAD_SURROGATE_MIN, TRAIL_SURROGATE_MAX.
  destruct 1; split; lia.
Qed.

(** ** Decoding *)

Lemma get_sequence_2_spec b0 b1 rest :
  sequence_length b0 = 2%nat -> is_trail b1 = true ->
  get_sequence_2 (b0 :: b1 :: rest) = inr ((bval b0 - 192) * 64 + (bval b1 - 128), b1 :: rest).
Proof.
  intros H0 H1. cbn [get_sequence_2]. unfold then_next. cbn [increase_safely]. rewrite H1.
  by rewrite mask8_octet, lead_bits_2, trail_bits.
Qed.

Lemma get_sequence_3_spec b0 b1 b2 rest :
  sequence_length b0 = 3%nat -> is_trail b1 = true -> is_trail b2 = true ->
  get_sequence_3 (b0 :: b1 :: b2 :: rest) =
    inr ((bval b0 - 224) * 4096 + (bval b1 - 128) * 64 + (bval b2 - 128), b2 :: rest).
Proof.
  intros H0 H1 H2. cbn [get_sequence_3]. unfold then_next. cbn [increase_safely]. rewrite H1. cbn [increase_safely].
  rewrite H2.
  by rewrite !mask8_octet, lead_bits_3, trail_bits_6, trail_bits.
Qed.

Lemma get_sequence_4_spec b0 b1 b2 b3 rest :
  sequence_length b0 = 4%nat -> is_trail b1 = true -> is_trail b2 = true -> is_trail b3 = true ->
  get_sequence_4 (b0 :: b1 :: b2 :: b3 :: rest) =
    inr ((bval b0 - 240) * 262144 + (bval b1 - 128) * 4096 + (bval b2 - 128) * 64 + (bval b3 - 128), b3 :: rest).
Proof.
  intros H0 H1 H2 H3. cbn [get_sequence_4]. unfold then_next. cbn [increase_safely]. rewrite H1. cbn [increase_safely].
  rewrite H2. cbn [increase_safely]. rewrite H3.
  by rewrite !mask8_octet, lead_bits_4, trail_bits_12, trail_bits_6, trail_bits.
Qed.

(** A sequence of several octets is decoded only when its trail octets are there *)
Lemma get_sequence_inv it r :
  (get_sequence_2 it = inr r -> exists b0 b1 rest, it = b0 :: b1 :: rest /\ is_trail b1 = true) /\
  (get_sequence_3 it = inr r -> exists b0 b1 b2 rest, it = b0 :: b1 :: b2 :: rest /\
     is_trail b1 = true /\ is_trail b2 = true) /\
  (get_sequence_4 it = inr r -> exists b0 b1 b2 b3 rest, it = b0 :: b1 :: b2 :: b3 :: rest /\
     is_trail b1 = true /\ is_trail b2 = true /\ is_trail b3 = true).
Proof.
  destruct it as [|b0 [|b1 it]]; try done. cbn [get_sequence_2 get_sequence_3 get_sequence_4]. unfold then_next.
  cbn [increase_safely]. destruct (is_trail b1) eqn:E1; [|done].
  split; [intros _; by exists b0, b1, it|]. destruct it as [|b2 it]; [done|]. cbn [increase_safely].
  destruct (is_trail b2) eqn:E2; [|done]. split; [intros _; by exists b0, b1, b2, it|].
  destruct it as [|b3 it]; [done|]. cbn [increase_safely]. destruct (is_trail b3) eqn:E3; [|done].
  intros _. by exists b0, b1, b2, b3, it.
Qed.

Lemma trail_range b x : bval b = x mod 64 + 128 -> is_trail b = true.
Proof. intros H. rewrite is_trail_spec, H. Z.div_mod_to_equations. lia. Qed.

Lemma lead_range b lo hi k :
  lo <= bval b < hi -> (lo, hi, k) ∈ [(0, 128, 1%nat); (192, 224, 2%nat); (224, 240, 3%nat); (240, 248, 4%nat)] ->
  sequence_length b = k.
Proof.
  intros Hb Hin. rewrite sequence_length_spec.
  assert ((lo, hi, k) = (0, 128, 1%nat) \/ (lo, hi, k) = (192, 224, 2%nat) \/ (lo, hi, k) = (224, 240, 3%nat) \/
    (lo, hi, k) = (240, 248, 4%nat)) as Hc by set_solver. clear Hin.
  destruct_or! Hc; injection Hc as -> -> ->; repeat case Z.ltb_spec; lia.
Qed.

Lemma validate_complete cp l rest : encodes cp l -> validate_next (l ++ rest) = inr (cp, rest).
Proof.
  intros He. pose proof (encodes_valid _ _ He) as [_ Hv]. destruct He as [cp b0|cp b0 b1|cp b0 b1 b2|cp b0 b1 b2 b3];
    cbn [app]; unfold validate_next.
  - rewrite (lead_range b0 0 128 1) by (set_solver || lia). cbn [get_sequence_1]. rewrite mask8_octet. subst cp.
    rewrite Hv. unfold is_overlong_sequence. by rewrite (proj2 (Z.ltb_lt (bval b0) 0x80)) by lia.
  - assert (L : sequence_length b0 = 2%nat) by (apply (lead_range b0 192 224); [Z.div_mod_to_equations; lia|set_solver]).
    rewrite L, get_sequence_2_spec by (done || by eapply trail_range).
    replace ((bval b0 - 192) * 64 + (bval b1 - 128)) with cp by (Z.div_mod_to_equations; lia). rewrite Hv.
    unfold is_overlong_sequence. destruct (Z.ltb_spec cp 0x80); [lia|]. by destruct (Z.ltb_spec cp 0x800); [|lia].
  - assert (L : sequence_length b0 = 3%nat) by (apply (lead_range b0 224 240); [Z.div_mod_to_equations; lia|set_solver]).
    rewrite L, get_sequence_3_spec by (done || by eapply trail_range).
    replace ((bval b0 - 224) * 4096 + (bval b1 - 128) * 64 + (bval b2 - 128)) with cp by (Z.div_mod_to_equations; lia).
    rewrite Hv. unfold is_overlong_sequence. destruct (Z.ltb_spec cp 0x80); [lia|].
    destruct (Z.ltb_spec cp 0x800); [lia|]. by destruct (Z.ltb_spec cp 0x10000); [|lia].
  - assert (L : sequence_length b0 = 4%nat) by (apply (lead_range b0 240 248); [Z.div_mod_to_equations; lia|set_solver]).
    rewrite L, get_sequence_4_spec by (done || by eapply trail_range).
    replace ((bval b0 - 240) * 262144 + (bval b1 - 128) * 4096 + (bval b2 - 128) * 64 + (bval b3 - 128)) with cp
      by (Z.div_mod_to_equations; lia).
    rewrite Hv. unfold is_overlong_sequence. destruct (Z.ltb_spec cp 0x80); [lia|].
    destruct (Z.ltb_spec cp 0x800); [lia|]. by destruct (Z.ltb_spec cp 0x10000); [lia|].
Qed.

(** The lead octet that goes with a length *)
Lemma sequence_length_range b :
  match sequence_length b with
  | 1%nat => bval b < 128
  | 2%nat => 192 <= bval b < 224
  | 3%nat => 224 <= bval b < 240
  | 4%nat => 240 <= bval b < 248
  | n => n = 0%nat
  end.
Proof. rewrite sequence_length_spec. repeat case Z.ltb_spec; lia. Qed.

(** What the two checks leave *)
Lemma checks_pass k cp :
  is_code_point_valid cp = true -> is_overlong_sequence cp k = false ->
  cp <= 0x10ffff /\ ~ (0xd800 <= cp <= 0xdfff) /\
  (k = 2%nat -> 128 <= cp < 2048 \/ 65536 <= cp) /\ (k = 3%nat -> 2048 <= cp) /\ (k = 4%nat -> 65536 <= cp).
Proof.
  unfold is_code_point_valid, is_surrogate, is_overlong_sequence, CODE_POINT_MAX, LEAD_SURROGATE_MIN, TRAIL_SURROGATE_MAX.
  repeat case Z.ltb_spec; intros; repeat split; intros; subst; try done; lia.
Qed.

Lemma validate_sound s cp rest :
  validate_next s = inr (cp, rest) -> exists l, s = l ++ rest /\ encodes cp l.
Proof.
  destruct s as [|b0 it]; [done|]. unfold validate_next.
  pose proof (sequence_length_range b0) as Hr. pose proof (bval_range b0) as Hb.
  pose proof (get_sequence_inv (b0 :: it)) as Hinv.
  destruct (sequence_length b0) as [|[|[|[|[|]]]]] eqn:L; try done.
  - cbn [get_sequence_1]. rewrite mask8_octet. destruct (is_code_point_valid _); [|done].
    destruct (is_overlong_sequence _ _); [done|]. intros [= <- <-]. exists [b0]. split; [done|]. apply enc1; [lia|done].
  - destruct (get_sequence_2 _) as [|[cp' it']] eqn:E; [done|].
    destruct (proj1 (Hinv _) eq_refl) as (? & b1 & r & [= <- ->] & T1). rewrite get_sequence_2_spec in E by done.
    rewrite is_trail_spec in T1. destruct (is_code_point_valid cp') eqn:V; [|done].
    destruct (is_overlong_sequence cp' 2) eqn:O; [done|]. pose proof (checks_pass 2%nat cp' V O). injection E as <- <-.
    intros [= <- <-]. exists [b0; b1]. split; [done|]. constructor; Z.div_mod_to_equations; lia.
  - destruct (get_sequence_3 _) as [|[cp' it']] eqn:E; [done|].
    destruct (proj1 (proj2 (Hinv _)) eq_refl) as (? & b1 & b2 & r & [= <- ->] & T1 & T2).
    rewrite get_sequence_3_spec in E by done. rewrite is_trail_spec in T1, T2.
    destruct (is_code_point_valid cp') eqn:V; [|done]. destruct (is_overlong_sequence cp' 3) eqn:O; [done|].
    pose proof (checks_pass 3%nat cp' V O). injection E as <- <-.
    intros [= <- <-]. exists [b0; b1; b2]. split; [done|]. constructor; Z.div_mod_to_equations; lia.
  - destruct (get_sequence_4 _) as [|[cp' it']] eqn:E; [done|].
    destruct (proj2 (proj2 (Hinv _)) eq_refl) as (? & b1 & b2 & b3 & r & [= <- ->] & T1 & T2 & T3).
    rewrite get_sequence_4_spec in E by done. rewrite is_trail_spec in T1, T2, T3.
    destruct (is_code_point_valid cp') eqn:V; [|done]. destruct (is_overlong_sequence cp' 4) eqn:O; [done|].
    pose proof (checks_pass 4%nat cp' V O). injection E as <- <-.
    intros [= <- <-]. exists [b0; b1; b2; b3]. split; [done|]. constructor; Z.div_mod_to_equations; lia.
Qed.

Lemma next_inv s cp rest : next s = inr (cp, rest) <-> exists l, s = l ++ rest /\ encodes cp l.
Proof.
  unfold next. split.
  - destruct (validate_next s) as [[]|r] eqn:E; try done. intros [= ->]. by apply validate_sound.
  - intros (l & -> & He). by rewrite (validate_complete _ _ _ He).
Qed.

Lemma encodes_length cp l : encodes cp l -> (1 <= length l <= 4)%nat.
Proof. destruct 1; cbn; lia. Qed.

(** A text in UTF-8 with its code points *)
Inductive utf8_text : list Z -> bytes -> Prop :=
| utf8_nil : utf8_text [] []
| utf8_cons cp l cps s : encodes cp l -> utf8_text cps s -> utf8_text (cp :: cps) (l ++ s).

Lemma decode_complete units cps s fuel :
  utf8_text cps s -> (length s <= fuel)%nat -> decode units fuel s = inr (concat (map units cps)).
Proof.
  intros Ht. revert fuel. induction Ht as [|cp l cps s He _ IH]; intros fuel Hf; [by destruct fuel|].
  pose proof (encodes_length _ _ He) as Hl. rewrite length_app in Hf.
  destruct fuel as [|fuel]; [lia|]. assert (Hn : next (l ++ s) = inr (cp, s)) by (apply next_inv; eauto).
  cbn [decode]. destruct (l ++ s) eqn:E; [destruct l; cbn in *; [lia|done]|]. rewrite Hn. cbn [bind_utf].
  rewrite IH by lia. done.
Qed.

Lemma decode_sound units s fuel w :
  decode units fuel s = inr w -> exists cps, utf8_text cps s /\ w = concat (map units cps).
Proof.
  revert s w. induction fuel as [|fuel IH]; intros [|c s] w; cbn [decode]; try done.
  - intros [= <-]. exists []. by split; [constructor|].
  - intros [= <-]. exists []. by split; [constructor|].
  - destruct (next (c :: s)) as [|[cp rest]] eqn:En; [done|]. cbn [bind_utf].
    destruct (decode units fuel rest) as [|r] eqn:Er; [done|]. intros [= <-].
    destruct (IH _ _ Er) as (cps & Ht & ->). apply next_inv in En as (l & -> & He).
    exists (cp :: cps). by split; [constructor|].
Qed.

(** ** Wide strings *)

Definition valid_cp (cp : Z) : Prop := 0 <= cp /\ is_code_point_valid cp = true.

Lemma utf8_text_valid cps s : utf8_text cps s -> Forall valid_cp cps.
Proof. induction 1; constructor; [by eapply encodes_valid|done]. Qed.

Lemma utf8_text_append cps : Forall valid_cp cps -> utf8_text cps (concat (map append_unchecked cps)).
Proof. induction 1 as [|cp cps [H0 Hv] _ IH]; constructor; [by apply append_encodes|done]. Qed.

Lemma utf8_text_inj cps s s' : utf8_text cps s -> utf8_text cps s' -> s = s'.
Proof.
  intros H. revert s'. induction H as [|cp l cps s He _ IH]; inversion 1; subst; [done|].
  f_equal; [by eapply encodes_inj|by apply IH].
Qed.

Lemma append_valid cp : valid_cp cp -> append cp = inr (append_unchecked cp).
Proof. intros [_ Hv]. unfold append. by rewrite Hv. Qed.

Lemma utf32to8_complete cps : Forall valid_cp cps -> utf32to8 cps = inr (concat (map append_unchecked cps)).
Proof.
  induction 1 as [|cp cps Hcp _ IH]; [done|]. cbn [utf32to8].
  rewrite Z.mod_small, append_valid by (destruct Hcp as [? H]; unfold is_code_point_valid, CODE_POINT_MAX in H; (lia || done)).
  cbn [bind_utf]. by rewrite IH.
Qed.

Lemma valid_cp_range cp : valid_cp cp -> 0 <= cp <= 0x10ffff /\ ~ (0xd800 <= cp <= 0xdfff).
Proof.
  unfold valid_cp, is_code_point_valid, is_surrogate, CODE_POINT_MAX, LEAD_SURROGATE_MIN, TRAIL_SURROGATE_MAX. lia.
Qed.

Lemma utf16to8_units cp w :
  valid_cp cp -> utf16to8 (units16 cp ++ w) =
    bind_utf (utf16to8 w) (fun r => inr (append_unchecked cp ++ r)).
Proof.
  intros Hcp. pose proof (valid_cp_range cp Hcp) as [H1 H2]. unfold units16.
  assert (Hm : forall z, 0 <= z < 65536 -> mask16 z = z).
  { intros z Hz. unfold mask16. rewrite Z.land_comm. change 0xffff with (Z.ones 16). rewrite Z.land_ones by lia.
    by apply Z.mod_small. }
  unfold LEAD_OFFSET, TRAIL_SURROGATE_MIN. rewrite Z.shiftr_div_pow2 by lia.
  change 0x3ff with (Z.ones 10). rewrite Z.land_ones by lia. change (2 ^ 10) with 1024. change (2 ^ 16) with 65536.
  destruct (Z.ltb_spec 0xffff cp).
  - rewrite (Z.mod_small (cp / 1024 + _)), (Z.mod_small (cp mod 1024 + _)) by (Z.div_mod_to_equations; lia).
    cbn [app utf16to8]. rewrite !Hm by (Z.div_mod_to_equations; lia).
    unfold is_lead_surrogate, is_trail_surrogate, LEAD_SURROGATE_MIN, LEAD_SURROGATE_MAX, TRAIL_SURROGATE_MIN,
      TRAIL_SURROGATE_MAX, SURROGATE_OFFSET.
    replace ((_ <=? cp / 1024 + _) && _) with true by (Z.div_mod_to_equations; lia).
    replace ((_ <=? cp mod 1024 + _) && _) with true by (Z.div_mod_to_equations; lia).
    rewrite Z.shiftl_mul_pow2 by lia. change (2 ^ 10) with 1024. change (2 ^ 32) with 4294967296.
    replace ((_ + _ + _) mod _) with cp by (Z.div_mod_to_equations; lia).
    by rewrite append_valid.
  - rewrite Z.mod_small by lia. cbn [app utf16to8]. rewrite Hm by lia.
    unfold is_lead_surrogate, is_trail_surrogate, LEAD_SURROGATE_MIN, LEAD_SURROGATE_MAX, TRAIL_SURROGATE_MIN,
      TRAIL_SURROGATE_MAX.
    replace ((_ <=? cp) && (cp <=? 0xdbff)) with false by lia. replace ((_ <=? cp) && _) with false by lia.
    by rewrite append_valid.
Qed.

Lemma utf16to8_complete cps :
  Forall valid_cp cps -> utf16to8 (concat (map units16 cps)) = inr (concat (map append_unchecked cps)).
Proof.
  induction 1 as [|cp cps Hcp _ IH]; [done|]. cbn [map concat]. by rewrite utf16to8_units, IH.
Qed.

(** The code units of a code point in a [std::wstring] *)
Definition wide_units (wide : bool) (cp : Z) : list Z := if wide then [cp] else units16 cp.
Definition wide_text (wide : bool) (cps : list Z) : list Z := concat (map (wide_units wide) cps).

Lemma s2ws_decode wide s : s2ws wide s = decode (wide_units wide) (length s) s.
Proof. by destruct wide. Qed.

Lemma ws2s_complete wide cps :
  Forall valid_cp cps -> ws2s wide (wide_text wide cps) = inr (concat (map append_unchecked cps)).
Proof.
  intros H. unfold ws2s, wide_text. destruct wide; cbn [negb].
  - assert (E : concat (map (wide_units true) cps) = cps).
    { clear H. induction cps as [|cp cps IH]; [done|]. cbn [map concat wide_units app]. by rewrite IH. }
    rewrite E. by apply utf32to8_complete.
  - by apply utf16to8_complete.
Qed.

Lemma wide_text_back wide cps :
  Forall valid_cp cps ->
  exists s, ws2s wide (wide_text wide cps) = inr s /\ s2ws wide s = inr (wide_text wide cps).
Proof.
  intros Hv. exists (concat (map append_unchecked cps)). split; [by apply ws2s_complete|].
  rewrite s2ws_decode. apply decode_complete; [by apply utf8_text_append|done].
Qed.

Lemma s2ws_spec wide s w :
  s2ws wide s = inr w <-> exists cps, utf8_text cps s /\ w = wide_text wide cps.
Proof.
  rewrite s2ws_decode. split; [apply decode_sound|]. intros (cps & Ht & ->). by apply decode_complete.
Qed.

Lemma s2ws_back wide s w : s2ws wide s = inr w -> ws2s wide w = inr s.
Proof.
  intros (cps & Ht & ->)%s2ws_spec. pose proof (utf8_text_valid _ _ Ht) as Hv. rewrite ws2s_complete by done.
  f_equal. by apply (utf8_text_inj cps); [apply utf8_text_append|].
Qed.

(** An ASCII character of the result comes from a unit of the wide text *)
Lemma append_no_ascii c cp :
  bval c < 128 -> valid_cp cp -> cp <> bval c -> c ∉ append_unchecked cp.
Proof.
  intros Hc [H0 Hv] Hne. pose proof (append_encodes cp H0 Hv) as He. destruct He as [cp b0|cp b0 b1|cp b0 b1 b2|cp b0 b1 b2 b3];
    rewrite !not_elem_of_cons; split_and?; try apply not_elem_of_nil; intros ->; try congruence; Z.div_mod_to_equations; lia.
Qed.

Lemma append_inr cp o : 0 <= cp -> append cp = inr o -> valid_cp cp /\ o = append_unchecked cp.
Proof.
  intros H0. unfold append. destruct (is_code_point_valid cp) eqn:E; cbn; [|done]. intros [= <-]. by repeat split.
Qed.

Lemma bind_append_inr {A} cp (m : utf8_exception + A) (f : bytes -> A -> bytes) s :
  bind_utf (append cp) (fun o => bind_utf m (fun r => inr (f o r))) = inr s ->
  exists o r, append cp = inr o /\ m = inr r /\ s = f o r.
Proof. destruct (append cp), m; cbn; try done. intros [= <-]. eauto. Qed.

Lemma utf16to8_no_ascii c w s :
  bval c < 128 -> utf16to8 w = inr s -> Forall (fun u => mask16 u <> bval c) w -> c ∉ s.
Proof.
  intros Hc. remember (length w) as n eqn:En. revert w s En.
  induction n as [n IH] using lt_wf_ind. intros [|u w] s -> Hs Hf; [injection Hs as <-; apply not_elem_of_nil|].
  apply Forall_cons in Hf as [Hu Hf]. cbn [utf16to8] in Hs.
  assert (Hm : 0 <= mask16 u) by (apply Z.land_nonneg; lia).
  destruct (is_lead_surrogate (mask16 u)) eqn:El.
  - destruct w as [|t w]; [done|]. apply Forall_cons in Hf as [_ Hf].
    destruct (is_trail_surrogate (mask16 t)) eqn:Et; [|done].
    apply (bind_append_inr _ _ (fun o r => o ++ r)) in Hs as (o & r & Ho & Hr & ->).
    apply append_inr in Ho as [Hv ->]; [|by apply Z.mod_pos_bound].
    apply not_elem_of_app. split; [|apply (IH (length w)) with w; cbn; (done || lia)].
    apply append_no_ascii; [done|done|]. rewrite Z.shiftl_mul_pow2 by lia.
    unfold is_lead_surrogate, is_trail_surrogate, LEAD_SURROGATE_MIN, LEAD_SURROGATE_MAX, TRAIL_SURROGATE_MIN,
      TRAIL_SURROGATE_MAX, SURROGATE_OFFSET in *. Z.div_mod_to_equations. lia.
  - destruct (is_trail_surrogate (mask16 u)); [done|].
    apply (bind_append_inr _ _ (fun o r => o ++ r)) in Hs as (o & r & Ho & Hr & ->).
    apply append_inr in Ho as [Hv ->]; [|done]. apply not_elem_of_app.
    split; [by apply append_no_ascii|apply (IH (length w)) with w; cbn; (done || lia)].
Qed.

(** * Theorems *)

(** C20. Text survives the conversions to wide strings and back, whether [wchar_t]
    has two bytes or four: [s2ws] accepts a string exactly if it is UTF-8 in
    the sense of the standard (shortest forms, no surrogates, at most
    U+10FFFF), makes of it the UTF-16 or UTF-32 text of the same code points,
    and [ws2s] turns that into the original bytes; a wide text of valid code
    points comes back as well. *)
Theorem wide_text_roundtrip (wide : bool) :
  (forall s w, s2ws wide s = inr w <-> exists cps, utf8_text cps s /\ w = wide_text wide cps) /\
  (forall s w, s2ws wide s = inr w -> ws2s wide w = inr s) /\
  (forall cps, Forall valid_cp cps -> exists s, ws2s wide (wide_text wide cps) = inr s /\
     utf8_text cps s /\ s2ws wide s = inr (wide_text wide cps)).
Proof.
  split; [apply s2ws_spec|]. split; [apply s2ws_back|].
  intros cps Hv. destruct (wide_text_back wide cps Hv) as (s & H1 & H2). exists s. split_and!; try done.
  rewrite ws2s_complete in H1 by done. injection H1 as <-. by apply utf8_text_append.
Qed.

(** U+00E9, U+20AC and U+1F600, whose UTF-16 is a surrogate pair *)
Lemma wide_text_roundtrip_witness :
  let s := map byte_of [0xc3; 0xa9; 0xe2; 0x82; 0xac; 0xf0; 0x9f; 0x98; 0x80] in
  s2ws false s = inr [0xe9; 0x20ac; 0xd83d; 0xde00] /\ s2ws true s = inr [0xe9; 0x20ac; 0x1f600] /\
  ws2s false [0xe9; 0x20ac; 0xd83d; 0xde00] = inr s /\ ws2s true [0xe9; 0x20ac; 0x1f600] = inr s.
Proof.
  intros s. split; [reflexivity|]. split; [reflexivity|].
  split; apply (proj1 (proj2 (wide_text_roundtrip _))); reflexivity.
Defined.

(** Overlong forms, surrogates and cut sequences are refused. *)
Example s2ws_refuses :
  s2ws false (map byte_of [0xc0; 0x80]) = inl (invalid_utf8 (byte_of 0xc0)) /\
  s2ws false (map byte_of [0xed; 0xa0; 0x80]) = inl (invalid_code_point 0) /\
  s2ws true (map byte_of [0xe2; 0x82]) = inl not_enough_room /\
  ws2s false [0xd83d] = inl (invalid_utf16 0xd83d).
Proof. vm_compute. done. Qed.
