(* ===== verification/Files.v ===== *)
(** * Files and directories

    The functions of src/lsp/utils.cpp that ask the operating system: whether a
    path is a directory or can be read, the current directory, the full name of
    a Windows path, and the scans of a directory tree.  A wide string is a list of code units, converted as
    in Utf8.v.  The [tolower] of the locale is a parameter; the directory tree
    is given by the entries in the order in which [std::filesystem] reads them,
    with the directories that cannot be opened or read to their end. *)
From S2P Require Import Prelude CppString Utils Utf8.

(** ** [stat] *)

(** [st_mode]: the type of the file above twelve bits of permissions *)
Definition S_IFDIR : Z := 16384%Z.      (** 0040000 *)

Inductive file_type := FIFO | CHR | DIR | BLK | REG | LNK | SOCK.
Definition type_bits (t : file_type) : Z :=
  match t with
  | FIFO => 4096 | CHR => 8192 | DIR => 16384 | BLK => 24576 | REG => 32768 | LNK => 40960 | SOCK => 49152
  end%Z.

(** [None]: [stat] fails *)
Definition IsDirectory (st_mode : option Z) : bool :=
  match st_mode with
  | None => false
  | Some mode => negb (Z.land mode S_IFDIR =? 0)%Z
  end.

(** [FileExists] and [ReadContent]; [open] is what a stream of the file would
    give, [None] where it cannot be opened, and [None] inside where a read
    fails *)
Definition FileExists (open : bytes -> option (option bytes)) (filename : bytes) : bool :=
  match open filename with Some _ => true | None => false end.
Definition ReadContent (open : bytes -> option (option bytes)) (filename : AbsolutePath) : option bytes :=
  match open (path_ filename) with
  | None => None
  | Some None => None
  | Some (Some content) => Some content
  end.

(** ** The current directory *)

Inductive getcwd_result := Cwd (path : bytes) | ERANGE | OtherErrno.

(** The loop of [GetCurrentWorkingDirectory]; [None]: the fuel is used up *)
Fixpoint getcwd_loop (fuel : nat) (getcwd : nat -> getcwd_result) (size : nat) : option bytes :=
  match fuel with
  | 0 => None
  | S fuel' =>
      match getcwd size with
      | Cwd path => Some (c_str path)
      | ERANGE => getcwd_loop fuel' getcwd (size * 2)
      | OtherErrno => Some []
      end
  end.
Definition GetCurrentWorkingDirectory (fuel : nat) (getcwd : nat -> getcwd_result) : option bytes :=
  getcwd_loop fuel getcwd 1024.

(** ** [NormalizePath] on Windows

    [wchar_t] has two bytes there.  [GetFullPathNameW] and [GetLongPathNameW]
    answer a number of characters and what the buffer holds; both are given a
    C string, which ends at the first NUL. *)
Section WindowsPaths.
Context (GetFullPathNameW GetLongPathNameW : list Z -> nat * list Z) (tolower : Z -> Z).

Definition MAX_PATH : nat := 260.

Fixpoint wc_str (w : list Z) : list Z :=
  match w with
  | [] => []
  | c :: w' => if (c =? 0)%Z then [] else c :: wc_str w'
  end.

(** one call and the test of its result: no path, or [std::wstring(buffer, len)] *)
Definition path_call (api : list Z -> nat * list Z) (path : list Z) : option (list Z) :=
  let '(len, buffer) := api (wc_str path) in
  if (len =? 0) || (MAX_PATH <=? len) then None else Some (take len buffer).

Definition lower_path (force_lower_on_windows : bool) (path : list Z) : list Z :=
  if force_lower_on_windows then map (fun c => mask16 (tolower c)) path else path.

Definition forward_slashes (path : list Z) : list Z :=
  map (fun c => if (c =? bval "\")%Z then bval "/" else c) path.

Definition NormalizePath_windows (path0 : bytes) (ensure_exists force_lower_on_windows : bool)
    : utf8_exception + AbsolutePath :=
  bind_utf (s2ws false path0) (fun path =>
    match path_call GetFullPathNameW path with
    | None => inr AbsolutePath_empty
    | Some path =>
        match (if ensure_exists then path_call GetLongPathNameW path else Some path) with
        | None | Some [] => inr AbsolutePath_empty
        | Some path =>
            bind_utf (ws2s false (forward_slashes (lower_path force_lower_on_windows path)))
              (fun s => inr (FromNormalized s))
        end
    end).
End WindowsPaths.

(** ** Directory trees *)

Abbreviation wstring := (list Z).
Definition separator : Z := 47%Z.

(** What an entry is; [Link] is a symbolic link, which the iterator does not
    follow although [is_directory] does; [Special] is a device, pipe or socket.
    An entry has its name and whether its status can be read; a directory has
    the entries that reading it gives, and whether it was read to its end:
    [false] where opening it fails (then without entries) or reading it does. *)
#[warnings="-register-all"]
Inductive node :=
| File
| Special
| Link (to_directory to_file : bool)
| Dir (entries : list (wstring * bool * node)) (complete : bool).

Definition is_directory (n : node) : bool := match n with Dir _ _ => true | Link d _ => d | _ => false end.
Definition is_regular_file (n : node) : bool := match n with File => true | Link _ f => f | _ => false end.

(** [path / name] *)
Definition join (dir name : wstring) : wstring :=
  match last dir with
  | Some c => if (c =? separator)%Z then dir ++ name else dir ++ separator :: name
  | None => name
  end.

(** The entries that the loop over a [recursive_directory_iterator] visits, an
    entry and then what is below it; [false] where the constructor or [iter++]
    throws, which ends the loop: a directory that cannot be opened or read. *)
Fixpoint below (dir : wstring) (n : node) : list (wstring * bool * node) * bool :=
  match n with
  | Dir es complete =>
      (fix walk (es : list (wstring * bool * node)) :=
         match es with
         | [] => ([], complete)
         | (name, ok, e) :: rest =>
             let '(inside, read) := below (join dir name) e in
             if negb read then ((join dir name, ok, e) :: inside, false)
             else let '(others, read) := walk rest in ((join dir name, ok, e) :: inside ++ others, read)
         end) es
  | _ => ([], true)
  end.
Definition walk (dir : wstring) (es : list (wstring * bool * node)) (complete : bool)
    : list (wstring * bool * node) * bool := below dir (Dir es complete).

(** What is at the root of a scan *)
Inductive root :=
| Missing
| NoStatus                       (** [fs::exists] throws *)
| NotDirectory                   (** the constructor of the iterator throws *)
| Root (entries : list (wstring * bool * node)) (complete : bool).

Inductive scan_exception := filesystem_error | utf8_error (e : utf8_exception).

Section Scan.
Variable at_path : wstring -> root.

(** The visits of a scan, and the exception that escapes from it *)
Definition visits (rootPath : wstring) : option scan_exception * list (wstring * bool * node) :=
  match at_path rootPath with
  | Missing => (None, [])
  | NoStatus | NotDirectory => (Some filesystem_error, [])
  | Root es complete =>
      let '(visited, read) := walk rootPath es complete in
      (if read then None else Some filesystem_error, visited)
  end.

(** The exception of an entry whose status cannot be read is caught, that of
    the iterator is not; [ret] keeps what was pushed before it. *)
Definition scanDirsUseRecursive (rootPath : wstring) (ret : list wstring)
    : option scan_exception * list wstring :=
  let '(ex, visited) := visits rootPath in
  (ex, ret ++ omap (fun '(p, ok, e) => if ok && is_directory e then Some p else None) visited).

(** Without recursion no exception is caught. *)
Fixpoint dirs_here (dir : wstring) (es : list (wstring * bool * node)) (complete : bool) (ret : list wstring)
    : option scan_exception * list wstring :=
  match es with
  | [] => (if complete then None else Some filesystem_error, ret)
  | (name, ok, e) :: rest =>
      if negb ok then (Some filesystem_error, ret)
      else dirs_here dir rest complete (if is_directory e then ret ++ [join dir name] else ret)
  end.
Definition scanDirsNoRecursive (rootPath : wstring) (ret : list wstring) : option scan_exception * list wstring :=
  match at_path rootPath with
  | Missing => (None, ret)
  | NoStatus | NotDirectory => (Some filesystem_error, ret)
  | Root es complete => dirs_here rootPath es complete ret
  end.

Variable tolower : Z -> Z.
Definition to_lower (input : wstring) : wstring := map tolower input.

(** The body of the loop of [scanFilesUseRecursive]; [suf] is lower case *)
Definition file_matches (suf : wstring) (e : wstring * bool * node) : option wstring :=
  let '(temp_path, ok, n) := e in
  if negb ok then None
  else if negb (is_directory n) && is_regular_file n then
    if length suf =? 0 then Some temp_path
    else if length temp_path <? length suf then None
    else if bool_decide (to_lower (drop (length temp_path - length suf) temp_path) = suf) then Some temp_path
    else None
  else None.

Definition scanFilesUseRecursive (rootPath : wstring) (ret : list wstring) (suf : wstring)
    : option scan_exception * list wstring :=
  let '(ex, visited) := visits rootPath in
  (ex, ret ++ omap (file_matches (to_lower suf)) visited).

Definition scanFileNamesUseRecursive (rootPath : wstring) (ret : list wstring) (strSuf : wstring)
    : option scan_exception * list wstring :=
  match scanFilesUseRecursive rootPath ret strSuf with
  | (Some e, ret) => (Some e, ret)
  | (None, ret) =>
      (None, omap (fun it => if length rootPath <=? length it then Some (drop (length rootPath) it) else None) ret)
  end.

(** The versions for [std::string]; [wide] is as in [ws2s].  An exception of
    the scan leaves [ret] as it was, one of the conversions leaves the names
    that were pushed before it. *)
Fixpoint push_all (wide : bool) (out : list wstring) (ret : list bytes) : option scan_exception * list bytes :=
  match out with
  | [] => (None, ret)
  | it :: rest =>
      match ws2s wide it with
      | inl e => (Some (utf8_error e), ret)
      | inr s => push_all wide rest (ret ++ [s])
      end
  end.
Definition scan_strings (wide : bool)
    (scan : wstring -> list wstring -> wstring -> option scan_exception * list wstring)
    (rootPath : bytes) (ret : list bytes) (strSuf : bytes) : option scan_exception * list bytes :=
  match s2ws wide rootPath, s2ws wide strSuf with
  | inr root, inr suf =>
      match scan root [] suf with
      | (Some e, _) => (Some e, ret)
      | (None, out) => push_all wide out ret
      end
  | inl e, _ | _, inl e => (Some (utf8_error e), ret)
  end.
Definition scanFileNames (wide : bool) := scan_strings wide scanFileNamesUseRecursive.
Definition scanFiles (wide : bool) := scan_strings wide scanFilesUseRecursive.
End Scan.

Lemma push_all_app wide (out : list wstring) ret :
  Forall (fun p => exists s, ws2s wide p = inr s) out ->
  exists names, push_all wide out ret = (None, ret ++ names) /\
    Forall2 (fun p s => ws2s wide p = inr s) out names.
Proof.
  intros H. revert ret. induction H as [|p out [s Hs] _ IH]; intros ret; cbn [push_all].
  - exists []. by rewrite app_nil_r.
  - rewrite Hs. destruct (IH (ret ++ [s])) as (names & -> & Hf). exists (s :: names).
    rewrite <- app_assoc. split; [done|]. by constructor.
Qed.

(** A scan through [std::string] finds the files of the wide scan: for a root
    and a suffix in UTF-8, a scan without exception, and names of valid code
    points, each result converts back to the path that was found. *)
Theorem scanFiles_wide at_path tolower wide rootPath strSuf root suf ret files :
  s2ws wide rootPath = inr root -> s2ws wide strSuf = inr suf ->
  scanFilesUseRecursive at_path tolower root [] suf = (None, files) ->
  Forall (fun p => exists cps, Forall valid_cp cps /\ p = wide_text wide cps) files ->
  exists names, scanFiles at_path tolower wide rootPath ret strSuf = (None, ret ++ names) /\
    Forall2 (fun p s => s2ws wide s = inr p) files names.
Proof.
  intros Hr Hs Hf0 Hv. unfold scanFiles, scan_strings. rewrite Hr, Hs, Hf0.
  pose proof (wide_text_back wide) as Hb.
  destruct (push_all_app wide files ret) as (names & E & Hf).
  - eapply Forall_impl; [exact Hv|]. intros p (cps & Hc & ->). destruct (Hb cps Hc) as (s & Hw & _). eauto.
  - exists names. split; [done|]. clear E Hf0. induction Hf as [|p s ps ss Hp _ IH]; constructor.
    + apply Forall_cons in Hv as [(cps & Hc & ->) _]. destruct (Hb cps Hc) as (s' & Hw & Hn). congruence.
    + apply IH. by apply Forall_cons in Hv as [_ Hv].
Qed.

(** ** The scans and the tree *)

(** [under dir es p ok e]: the entry [e] is reached from the entries [es] of
    the directory [dir], by the path [p] *)
Inductive under : wstring -> list (wstring * bool * node) -> wstring -> bool -> node -> Prop :=
| under_here dir es name ok e : (name, ok, e) ∈ es -> under dir es (join dir name) ok e
| under_deeper dir es name ok sub c p ok' e :
    (name, ok, Dir sub c) ∈ es -> under (join dir name) sub p ok' e -> under dir es p ok' e.

Lemma join_prefix dir name : exists r, join dir name = dir ++ r.
Proof. unfold join. destruct (last dir) eqn:E; [destruct (_ =? _)%Z; eauto|]. apply last_None in E as ->. by exists name. Qed.

(** The loop can list every directory of the tree. *)
Definition all_read (dir : wstring) (es : list (wstring * bool * node)) (complete : bool) : Prop :=
  complete = true /\ forall p ok sub c, under dir es p ok (Dir sub c) -> c = true.

Lemma under_nil dir p ok e : ~ under dir [] p ok e.
Proof. inversion 1 as [? ? ? ? ? Hin|? ? ? ? ? ? ? ? ? Hin]; subst; by apply not_elem_of_nil in Hin. Qed.

Lemma under_cons dir name ok1 e1 es p ok e :
  under dir ((name, ok1, e1) :: es) p ok e <->
  (p = join dir name /\ ok = ok1 /\ e = e1) \/
  (exists sub c, e1 = Dir sub c /\ under (join dir name) sub p ok e) \/ under dir es p ok e.
Proof.
  split.
  - inversion 1 as [? ? nm ? ? Hin|? ? nm ok2 sub c ? ? ? Hin Hu]; subst; apply elem_of_cons in Hin as [Hin|Hin].
    + injection Hin as -> -> ->. by left.
    + right. right. by apply under_here.
    + injection Hin as -> -> <-. right. left. by exists sub, c.
    + right. right. by eapply under_deeper.
  - intros [(-> & -> & ->)|[(sub & c & -> & Hu)|Hu]].
    + apply under_here. left.
    + eapply under_deeper; [left|done].
    + inversion Hu as [? ? ? ? ? Hin|? ? ? ? ? ? ? ? ? Hin]; subst; [apply under_here; by right|].
      eapply under_deeper; [by right|done].
Qed.

Lemma walk_cons dir name ok e es complete :
  walk dir ((name, ok, e) :: es) complete =
  let '(inside, read) := below (join dir name) e in
  if negb read then ((join dir name, ok, e) :: inside, false)
  else let '(others, read) := walk dir es complete in ((join dir name, ok, e) :: inside ++ others, read).
Proof. done. Qed.

(** Induction on trees through their entries *)
Fixpoint node_size (n : node) : nat :=
  match n with
  | Dir es _ => S ((fix sum (es : list (wstring * bool * node)) :=
                    match es with [] => 0 | (_, _, e) :: rest => S (node_size e) + sum rest end) es)
  | _ => 1
  end.
Definition entries_size (es : list (wstring * bool * node)) : nat := node_size (Dir es true).

Lemma entries_size_cons name ok e es : entries_size ((name, ok, e) :: es) = S (node_size e) + entries_size es.
Proof. unfold entries_size. cbn. lia. Qed.

Lemma tree_ind (P : wstring -> list (wstring * bool * node) -> Prop) :
  (forall dir, P dir []) ->
  (forall dir name ok e es, (forall sub c, e = Dir sub c -> P (join dir name) sub) -> P dir es ->
     P dir ((name, ok, e) :: es)) ->
  forall dir es, P dir es.
Proof.
  intros Hnil Hcons.
  assert (H : forall n dir es, entries_size es <= n -> P dir es).
  { induction n as [n IH] using lt_wf_ind. intros dir es. induction es as [|[[name ok] e] es IHes]; intros Hn; [done|].
    rewrite entries_size_cons in Hn. apply Hcons; [|apply IHes; lia]. intros sub c ->.
    apply (IH (entries_size sub)); [|done]. unfold entries_size. cbn in *. lia. }
  intros dir es. by apply (H (entries_size es)).
Qed.

(** What is visited is in the tree, *)
Lemma walk_sound dir es : forall complete p ok e, (p, ok, e) ∈ (walk dir es complete).1 -> under dir es p ok e.
Proof.
  revert dir es. apply (tree_ind (fun dir es => forall complete p ok e,
    (p, ok, e) ∈ (walk dir es complete).1 -> under dir es p ok e)).
  - intros dir complete p ok e H. by apply not_elem_of_nil in H.
  - intros dir name ok1 e1 es Hsub Hrest complete p ok e. rewrite walk_cons, under_cons.
    assert (Hin : (p, ok, e) ∈ (below (join dir name) e1).1 ->
      exists sub c, e1 = Dir sub c /\ under (join dir name) sub p ok e).
    { destruct e1 as [| |d f|sub c]; try (by intros ?%not_elem_of_nil). intros H. exists sub, c. split; [done|].
      by eapply Hsub. }
    specialize (Hrest complete p ok e). destruct (below (join dir name) e1) as [inside read].
    destruct (walk dir es complete) as [others read']. cbn [fst] in *.
    destruct read; cbn [negb fst]; rewrite elem_of_cons; [rewrite elem_of_app|]; naive_solver.
Qed.

(** And where no exception ends the loop, all of the tree is visited. *)
Lemma walk_complete dir es : forall complete,
  (walk dir es complete).2 = true -> forall p ok e, under dir es p ok e -> (p, ok, e) ∈ (walk dir es complete).1.
Proof.
  revert dir es. apply (tree_ind (fun dir es => forall complete,
    (walk dir es complete).2 = true -> forall p ok e, under dir es p ok e -> (p, ok, e) ∈ (walk dir es complete).1)).
  - intros dir complete _ p ok e H. by apply under_nil in H.
  - intros dir name ok1 e1 es Hsub Hrest complete Hread p ok e. rewrite under_cons. revert Hread. rewrite walk_cons.
    assert (Hin : forall sub c, e1 = Dir sub c -> (below (join dir name) e1).2 = true ->
      under (join dir name) sub p ok e -> (p, ok, e) ∈ (below (join dir name) e1).1).
    { intros sub c -> H Hu. by apply (Hsub sub c eq_refl c). }
    specialize (Hrest complete). destruct (below (join dir name) e1) as [inside read].
    destruct (walk dir es complete) as [others read']. cbn [fst snd] in *.
    destruct read; cbn [negb fst snd]; [|done]. intros ->. rewrite elem_of_cons, elem_of_app. naive_solver.
Qed.

Lemma walk_read dir es : forall complete, (walk dir es complete).2 = true <-> all_read dir es complete.
Proof.
  revert dir es. apply (tree_ind (fun dir es => forall complete,
    (walk dir es complete).2 = true <-> all_read dir es complete)).
  - intros dir complete. unfold all_read. cbn. split; [|by intros [? _]]. intros ->. split; [done|].
    intros p ok sub c H. by apply under_nil in H.
  - intros dir name ok1 e1 es Hsub Hrest complete. rewrite walk_cons.
    assert (Hin : (below (join dir name) e1).2 = true <->
      forall sub c, e1 = Dir sub c -> all_read (join dir name) sub c).
    { destruct e1 as [| |d f|sub c]; try done. split.
      - intros H sub' c' [= <- <-]. by apply (Hsub sub c eq_refl).
      - intros H. by apply (Hsub sub c eq_refl), H. }
    specialize (Hrest complete). unfold all_read in *. setoid_rewrite under_cons.
    destruct (below (join dir name) e1) as [inside read], (walk dir es complete) as [others read']. cbn [snd] in *.
    destruct read; cbn [negb snd]; [rewrite Hrest|]; split.
    + intros [Hc Hr]. split; [done|]. destruct Hin as [Hin _]. specialize (Hin eq_refl).
      intros p ok sub c [(_ & _ & He)|[(s' & c' & He & Hu)|Hu]]; [|by eapply (Hin s' c' He)|by eapply Hr].
      by apply (Hin sub c).
    + intros [Hc Hr]. split; [done|]. intros p ok sub c Hu. apply (Hr p ok sub c). auto.
    + done.
    + intros [Hc Hr]. apply Hin. intros sub c ->. split; [apply (Hr (join dir name) ok1 sub c); by left|].
      intros p ok sub' c' Hu. apply (Hr p ok sub' c'). right. left. by exists sub, c.
Qed.

Lemma under_prefix dir es p ok e : under dir es p ok e -> exists r, p = dir ++ r.
Proof.
  induction 1 as [dir es name ok e _|dir es name ok sub c p ok' e _ _ [r ->]].
  - destruct (join_prefix dir name) as [r ->]. by exists r.
  - destruct (join_prefix dir name) as [r' ->]. exists (r' ++ r). by rewrite app_assoc.
Qed.

Lemma to_lower_length tolower s t : to_lower tolower s = to_lower tolower t -> length s = length t.
Proof. unfold to_lower. intros H. apply (f_equal length) in H. by rewrite !length_map in H. Qed.

Lemma file_matches_spec tolower suf q p ok n :
  file_matches tolower (to_lower tolower suf) (p, ok, n) = Some q <->
  q = p /\ ok = true /\ is_directory n = false /\ is_regular_file n = true /\
  exists pre s, p = pre ++ s /\ to_lower tolower s = to_lower tolower suf.
Proof.
  unfold file_matches. assert (Hl : length (to_lower tolower suf) = length suf) by apply length_map. rewrite Hl.
  destruct ok; cbn [negb]; [|split; [done|by intros (_ & ? & _)]].
  destruct (is_directory n); cbn [negb andb]; [split; [done|by intros (_ & _ & ? & _)]|].
  destruct (is_regular_file n); [|split; [done|by intros (_ & _ & _ & ? & _)]].
  destruct (Nat.eqb_spec (length suf) 0) as [H0|H0].
  { destruct suf; [|done]. split; [intros [= <-]; split_and!; try done; by exists p, []; rewrite app_nil_r|].
    by intros (-> & _). }
  destruct (Nat.ltb_spec (length p) (length suf)) as [Hlt|Hge].
  { split; [done|]. intros (_ & _ & _ & _ & pre & s & -> & Hs). rewrite length_app in Hlt.
    assert (length s = length suf) by (by eapply to_lower_length). lia. }
  case_bool_decide as Hd.
  - split; [intros [= <-]|by intros (-> & _)]. split_and!; try done.
    exists (take (length p - length suf) p), (drop (length p - length suf) p). by rewrite take_drop.
  - split; [done|]. intros (_ & _ & _ & _ & pre & s & -> & Hs). destruct Hd.
    assert (Hls : length s = length suf) by (by eapply to_lower_length).
    rewrite length_app. replace (length pre + length s - length suf) with (length pre) by lia.
    by rewrite drop_app_length.
Qed.

(** A path of the scan: what it reaches, from the entries of the root *)
Definition reaches (at_path : wstring -> root) (dir p : wstring) (n : node) : Prop :=
  exists es c, at_path dir = Root es c /\ under dir es p true n.

(** No exception escapes: the root is missing, or is a directory of which every
    directory can be listed. *)
Definition listable (at_path : wstring -> root) (dir : wstring) : Prop :=
  match at_path dir with
  | Missing => True
  | NoStatus | NotDirectory => False
  | Root es c => all_read dir es c
  end.

Lemma visits_spec at_path dir :
  let '(ex, visited) := visits at_path dir in
  (ex = None \/ ex = Some filesystem_error) /\ (ex = None <-> listable at_path dir) /\
  (forall p n, (p, true, n) ∈ visited -> reaches at_path dir p n) /\
  (ex = None -> forall p n, reaches at_path dir p n -> (p, true, n) ∈ visited).
Proof.
  unfold visits, listable, reaches. destruct (at_path dir) as [| | |es c].
  - split_and!; try done; [by left|by intros p n ?%not_elem_of_nil|]. by intros _ p n (? & ? & ? & _).
  - split_and!; try done; [by right|by intros p n ?%not_elem_of_nil].
  - split_and!; try done; [by right|by intros p n ?%not_elem_of_nil].
  - pose proof (walk_sound dir es c) as Hs. pose proof (walk_complete dir es c) as Hc.
    pose proof (walk_read dir es c) as Hr. destruct (walk dir es c) as [visited read]. cbn [fst snd] in *.
    split_and!.
    + destruct read; auto.
    + rewrite <- Hr. by destruct read.
    + intros p n H. exists es, c. auto.
    + destruct read; [|done]. intros _ p n (es' & c' & [= <- <-] & Hu). auto.
Qed.

(** The names are the files without the root. *)
Lemma names_files (dir : wstring) (files : list wstring) (p : wstring) :
  (forall q, q ∈ files -> exists r, q = dir ++ r) ->
  p ∈ omap (fun it => if length dir <=? length it then Some (drop (length dir) it) else None) files <->
  dir ++ p ∈ files.
Proof.
  intros Hpre. rewrite list_elem_of_omap. split.
  - intros (it & Hin & H). destruct (Hpre it Hin) as [r ->]. rewrite length_app in H.
    rewrite (proj2 (Nat.leb_le _ _)) in H by lia. rewrite drop_app_length in H. by injection H as <-.
  - intros Hin. exists (dir ++ p). split; [done|]. rewrite length_app.
    rewrite (proj2 (Nat.leb_le _ _)) by lia. by rewrite drop_app_length.
Qed.

Lemma getcwd_loop_found fuel path size :
  0 < size -> length path < size * 2 ^ fuel -> NUL ∉ path ->
  getcwd_loop (S fuel) (fun n => if length path <? n then Cwd path else ERANGE) size = Some path.
Proof.
  revert size. induction fuel as [|fuel IH]; intros size Hs Hl Hn; cbn [getcwd_loop].
  - cbn in Hl. rewrite (proj2 (Nat.ltb_lt _ _)) by lia. by rewrite c_str_id.
  - destruct (Nat.ltb_spec (length path) size); [by rewrite c_str_id|]. apply IH; [lia| |done].
    cbn [Nat.pow] in Hl. lia.
Qed.

Lemma forward_slashes_units (path : list Z) :
  Forall (fun u => 0 <= u < 65536)%Z path ->
  Forall (fun u => mask16 u <> bval "\"%byte) (forward_slashes path).
Proof.
  unfold forward_slashes. induction 1 as [|u p Hu Hp IH]; [constructor|]. cbn [map]. constructor; [|done].
  destruct (Z.eqb_spec u (bval "\"%byte)); [by vm_compute|]. unfold mask16.
  rewrite Z.land_comm. change 65535%Z with (Z.ones 16). rewrite Z.land_ones by lia.
  change (2 ^ 16)%Z with 65536%Z. by rewrite Z.mod_small.
Qed.

Lemma lower_path_units tolower force path :
  Forall (fun u => 0 <= u < 65536)%Z path -> Forall (fun u => 0 <= u < 65536)%Z (lower_path tolower force path).
Proof.
  intros H. unfold lower_path. destruct force; [|done]. apply Forall_map. eapply Forall_impl; [exact H|].
  intros u _. cbn. unfold mask16. rewrite Z.land_comm. change 65535%Z with (Z.ones 16). rewrite Z.land_ones by lia.
  change (2 ^ 16)%Z with 65536%Z. by apply Z.mod_pos_bound.
Qed.

Lemma path_call_units api path p :
  (forall q, Forall (fun u => 0 <= u < 65536)%Z (snd (api q))) ->
  path_call api path = Some p -> Forall (fun u => 0 <= u < 65536)%Z p /\ length p < MAX_PATH.
Proof.
  intros Ha. unfold path_call. specialize (Ha (wc_str path)). destruct (api (wc_str path)) as [len buffer].
  destruct ((len =? 0) || (MAX_PATH <=? len)) eqn:E; [done|]. intros [= <-].
  apply orb_false_iff in E as [_ E%Nat.leb_gt]. split; [by apply Forall_take|]. rewrite length_take. lia.
Qed.

(** * Theorems *)


(** A directory [/r] with a subdirectory that cannot be opened: the file behind
    it is not found, and the exception escapes. *)
Example scan_unreadable :
  let tree := Root [([97%Z], true, File); ([98%Z], true, Dir [] false); ([99%Z], true, File)] true in
  scanFilesUseRecursive (fun _ => tree) (fun c => c) [47; 114]%Z [] [] =
    (Some filesystem_error, [[47; 114; 47; 97]%Z]).
Proof. vm_compute. reflexivity. Qed.

(** [GetCurrentWorkingDirectory] returns, with the current directory: for
    every path, however long, the buffer is doubled until the path fits, at
    most once more than the logarithm of its length. *)
Theorem working_directory_found (path : bytes) :
  NUL ∉ path ->
  GetCurrentWorkingDirectory (S (Nat.log2_up (S (length path))))
    (fun size => if length path <? size then Cwd path else ERANGE) = Some path.
Proof.
  intros Hn. apply getcwd_loop_found; [lia| |done].
  pose proof (Nat.log2_up_spec (S (length path))) as H.
  destruct (decide (1 < S (length path))) as [Hl|Hl].
  - specialize (H Hl). lia.
  - replace (length path) with 0 by lia. change (2 ^ Nat.log2_up 1) with 1. lia.
Qed.

Lemma working_directory_found_witness :
  GetCurrentWorkingDirectory 5 (fun size => if length (lit "/home/me") <? size then Cwd (lit "/home/me") else ERANGE)
  = Some (lit "/home/me").
Proof.
  apply (working_directory_found (lit "/home/me")). apply (bool_decide_eq_true_1 _). vm_compute. reflexivity.
Defined.

(** [IsDirectory] tests one bit of the type, which block devices and sockets
    have too: they are taken for directories. *)
Theorem is_directory_bit (t : file_type) (permissions : Z) :
  (0 <= permissions < 4096)%Z ->
  IsDirectory (Some (type_bits t + permissions)%Z) = true <-> t = DIR \/ t = BLK \/ t = SOCK.
Proof.
  intros Hp. assert (Hb : Z.land (type_bits t + permissions) S_IFDIR = Z.land (type_bits t) S_IFDIR).
  { assert (Hlow : Z.land (type_bits t) permissions = 0%Z).
    { replace (type_bits t) with (Z.shiftl (type_bits t / 4096) 12) by by destruct t.
      apply Z.bits_inj'. intros i Hi. rewrite Z.land_spec, Z.bits_0.
      destruct (decide (i < 12)%Z); [by rewrite Z.shiftl_spec_low|].
      rewrite (Z.bits_above_log2 permissions), andb_false_r; [done|lia|].
      destruct (decide (permissions = 0)%Z) as [->|]; [cbn; lia|].
      assert (Z.log2 permissions < 12)%Z by (apply Z.log2_lt_pow2; lia). lia. }
    rewrite Z.add_nocarry_lxor by done. apply Z.bits_inj'. intros i Hi. rewrite !Z.land_spec, Z.lxor_spec.
    destruct (decide (i = 14)%Z) as [->|Hne].
    - replace (Z.testbit permissions 14) with false; [by rewrite xorb_false_r|]. symmetry.
      destruct (decide (permissions = 0)%Z) as [->|]; [done|].
      apply Z.bits_above_log2; [lia|]. assert (Z.log2 permissions < 12)%Z by (apply Z.log2_lt_pow2; lia). lia.
    - replace (Z.testbit S_IFDIR i) with false; [by rewrite !andb_false_r|]. symmetry.
      change S_IFDIR with (2 ^ 14)%Z. apply Z.pow2_bits_false. lia. }
  unfold IsDirectory. rewrite Hb. destruct t; (split; intros H; [|by vm_compute; intuition discriminate]); first [by auto | by vm_compute in H].
Qed.

Lemma is_directory_bit_witness : IsDirectory (Some (type_bits SOCK + 493)%Z) = true.
Proof. apply is_directory_bit; [lia|]. right. right. reflexivity. Defined.

(** Windows paths come out in one form: what [NormalizePath] returns there is
    empty or absolute, and has forward slashes only, whatever
    [GetFullPathNameW], [GetLongPathNameW] and [tolower] answer. *)
Theorem NormalizePath_windows_slashes full long tolower (path0 : bytes) (ensure_exists force : bool) (p : AbsolutePath) :
  (forall q, Forall (fun u => 0 <= u < 65536)%Z (snd (full q))) ->
  (forall q, Forall (fun u => 0 <= u < 65536)%Z (snd (long q))) ->
  NormalizePath_windows full long tolower path0 ensure_exists force = inr p ->
  "\"%byte ∉ path_ p /\ (p = AbsolutePath_empty \/ valid p = true).
Proof.
  intros Hf Hl. unfold NormalizePath_windows. destruct (s2ws false path0) as [e|w]; [done|]. cbn [bind_utf].
  destruct (path_call full w) as [q|] eqn:Eq; [|intros [= <-]; split; [apply not_elem_of_nil|by left]].
  assert (Hq : forall q', (if ensure_exists then path_call long q else Some q) = Some q' ->
    Forall (fun u => 0 <= u < 65536)%Z q').
  { destruct ensure_exists; intros q' H; [by apply (path_call_units long q q')|].
    injection H as <-. by apply (path_call_units full w q). }
  destruct (if ensure_exists then path_call long q else Some q) as [[|u r]|];
    try (intros [= <-]; split; [apply not_elem_of_nil|by left]).
  destruct (ws2s false _) as [e|s] eqn:Es; [done|]. cbn [bind_utf]. intros [= <-].
  unfold FromNormalized, valid. destruct (IsAbsolutePath s) eqn:Ea; [|split; [apply not_elem_of_nil|by left]].
  split; [|by right]. cbn [path_]. eapply utf16to8_no_ascii; [|exact Es|]; [by vm_compute|].
  apply forward_slashes_units, lower_path_units. by apply Hq.
Qed.

Example NormalizePath_windows_drive :
  let full := fun q => (length q, q) in
  NormalizePath_windows full full (fun c => if ((65 <=? c) && (c <=? 90))%Z then (c + 32)%Z else c)
    (lit "C:\Src\a.cpp") false true = inr (mkAbsolutePath (lit "c:/src/a.cpp")).
Proof. vm_compute. reflexivity. Qed.
