(* ===== verification/StringRef.v ===== *)
(** * [std::string_ref]

    The string class of include/LibLsp/lsp/Markup/string_ref.h, which the
    markup renderer uses.  A [string_ref] owns its characters, so it is a list
    of bytes and a member that changes [*this] is a function to the new value.
    A [char] is compared as a signed value.  [None] stands for an exception
    of the standard library, for undefined behaviour, and for a loop that has
    used up its fuel; each definition says which. *)
From S2P Require Import Prelude CppString Utils.

(** The value of a [char], which is signed. *)
Definition sval (c : byte) : Z := (if bval c <? 128 then bval c else bval c - 256)%Z.

(** [lo <= c && c <= hi] for the [char] literals [lo] and [hi] *)
Definition between (lo hi c : byte) : bool := (sval lo <=? sval c)%Z && (sval c <=? sval hi)%Z.

(** ** Splitting *)

Definition is_blank (c : byte) : bool := ceq c " " || ceq c LF || ceq c TAB || ceq c CR.

(** [n >= limit - 1] on [size_type]; a limit of 0 wraps around to [npos]. *)
Definition limit_hit (n limit : N) : bool := (((limit + (2 ^ 64 - 1)) `mod` 2 ^ 64) <=? n)%N.

Definition npos : N := (2 ^ 64 - 1)%N.

(** [split(limit)]: [cur] is the text from [last] to [i], [v] the result so far. *)
Fixpoint split_blank_loop (limit : N) (s cur : bytes) (v : list bytes) : list bytes :=
  match s with
  | [] => match cur with [] => v | _ => v ++ [cur] end
  | c :: s' =>
      if is_blank c then
        if match s' with d :: _ => is_blank d | [] => false end
        then split_blank_loop limit s' (cur ++ [c]) v
        else let v := v ++ [cur] in
             if limit_hit (N.of_nat (length v)) limit then v ++ [s'] else split_blank_loop limit s' [] v
      else split_blank_loop limit s' (cur ++ [c]) v
  end.

Definition split_blank (s : bytes) (limit : N) : list bytes := split_blank_loop limit s [] [].

(** [split(separator, limit)] with a character *)
Fixpoint split_char_loop (sep : byte) (limit : N) (s cur : bytes) (v : list bytes) : list bytes :=
  match s with
  | [] => match cur with [] => v | _ => v ++ [cur] end
  | c :: s' =>
      if ceq c sep then
        let v := v ++ [cur] in
        if limit_hit (N.of_nat (length v)) limit then v ++ [s'] else split_char_loop sep limit s' [] v
      else split_char_loop sep limit s' (cur ++ [c]) v
  end.

Definition split_char (sep : byte) (s : bytes) (limit : N) : list bytes := split_char_loop sep limit s [] [].

(** [split(separator, limit)] with a string: [i] and [last] are iterators.
    [None] is undefined behaviour: the range [i, i + length) reaches beyond
    [end()], or [last] is beyond [i]. *)
Fixpoint split_str_loop (sep : bytes) (limit : N) (s : bytes) (fuel i last : nat) (v : list bytes)
    : option (list bytes) :=
  match fuel with
  | 0 =>                                   (* i == end() *)
      if last =? i then Some v
      else if i <? last then None else Some (v ++ [take (i - last) (drop last s)])
  | S fuel' =>
      if length s <? i + length sep then None
      else if bool_decide (take (length sep) (drop i s) = sep) then
        if i <? last then None
        else
          let v := v ++ [take (i - last) (drop last s)] in
          let last := i + length sep in
          if limit_hit (N.of_nat (length v)) limit then Some (v ++ [drop last s])
          else split_str_loop sep limit s fuel' (S i) last v
      else split_str_loop sep limit s fuel' (S i) last v
  end.

Definition split_str (sep s : bytes) (limit : N) : option (list bytes) :=
  split_str_loop sep limit s (length s) 0 0 [].

(** [chunk_split(chunklen)]; [None]: division by zero. *)
Fixpoint chunk_split_loop (chunklen count : nat) (s cur : bytes) (v : list bytes) : list bytes :=
  match s with
  | [] => match cur with [] => v | _ => v ++ [cur] end
  | c :: s' =>
      if count =? chunklen then chunk_split_loop chunklen 1 s' [c] (v ++ [cur])
      else chunk_split_loop chunklen (S count) s' (cur ++ [c]) v
  end.

Definition chunk_split (chunklen : nat) (s : bytes) : option (list bytes) :=
  if chunklen =? 0 then None else Some (chunk_split_loop chunklen 0 s [] []).

(** ** Joining, repeating, replacing *)

(** [join(glue, first, last)]; [None]: [erase] throws for an empty range. *)
Definition join_ref (glue : bytes) (l : list bytes) : option bytes :=
  let retval := foldl (fun r x => r ++ x ++ glue) [] l in
  if length retval <? length glue then None else Some (take (length retval - length glue) retval).

Definition join_ref_char (glue : byte) (l : list bytes) : option bytes := join_ref [glue] l.

(** [replace(needle, s)], with fuel; [None]: the fuel is used up. *)
Fixpoint replace_loop (fuel : nat) (needle s : bytes) (text : bytes) (lastpos : nat) : option bytes :=
  match find_from needle text lastpos with
  | None => Some text
  | Some thispos =>
      match fuel with
      | 0 => None
      | S fuel' =>
          replace_loop fuel' needle s
            (take thispos text ++ s ++ drop (thispos + length needle) text) (thispos + 1)
      end
  end.

Definition replace (fuel : nat) (needle s text : bytes) : option bytes :=
  replace_loop fuel needle s text 0.

Definition replace_first (needle s text : bytes) : bytes :=
  match find_from needle text 0 with
  | None => text
  | Some thispos => take thispos text ++ s ++ drop (thispos + length needle) text
  end.

Definition replace_value (needle c : byte) (text : bytes) : bytes :=
  (fun d => if ceq d needle then c else d) <$> text.

(** [operator*] *)
Fixpoint repeat_ref (n : nat) (s : bytes) : bytes :=
  match n with 0 => [] | S n' => repeat_ref n' s ++ s end.

(** ** Case and classification *)

Definition tolower (s : bytes) : bytes :=
  (fun c => if between "A" "Z" c then byte_of (sval c + 32) else c) <$> s.
Definition toupper (s : bytes) : bytes :=
  (fun c => if between "a" "z" c then byte_of (sval c - 32) else c) <$> s.
Definition swapcase (s : bytes) : bytes :=
  (fun c => if between "A" "Z" c then byte_of (sval c + 32)
            else if between "a" "z" c then byte_of (sval c - 32) else c) <$> s.

Definition nonempty (s : bytes) : bool := match s with [] => false | _ => true end.

Definition is_alnum (s : bytes) : bool :=
  nonempty s && forallb (fun c => between "A" "Z" c || between "0" "9" c || between "a" "z" c) s.
Definition is_alpha (s : bytes) : bool :=
  nonempty s && forallb (fun c => negb ((sval c <? sval "A")%Z
     || ((sval "Z" <? sval c)%Z && ((sval c <? sval "a")%Z || (sval "z" <? sval c)%Z)))) s.
Definition is_numeric (s : bytes) : bool := nonempty s && forallb (between "0" "9") s.
(** The second test is [*i < 'z']. *)
Definition is_lower (s : bytes) : bool :=
  nonempty s && forallb (fun c => negb ((sval c <? sval "a")%Z || (sval c <? sval "z")%Z)) s.
Definition is_upper (s : bytes) : bool := nonempty s && forallb (between "A" "Z") s.

(** [count(str)]: every round searches from [last + 1] on, so the rounds are
    bounded by the length. *)
Fixpoint count_loop (fuel : nat) (str s : bytes) (last : nat) (count : nat) : nat :=
  match fuel with
  | 0 => count
  | S fuel' =>
      match find_from str s (last + 1) with
      | None => count
      | Some cur => count_loop fuel' str s cur (S count)
      end
  end.

Definition count (str s : bytes) : nat := count_loop (S (length s)) str s 0 0.

(** [integer(s)]; [None]: signed overflow. *)
Fixpoint integer_loop (retval : Z) (s : bytes) : option Z :=
  match s with
  | [] => Some retval
  | c :: s' =>
      if between "0" "9" c then
        let r := (retval * 10 + (sval c - 48))%Z in
        if (LONG_MAX <? r)%Z then None else integer_loop r s'
      else Some retval
  end.

Definition integer (s : bytes) : option Z :=
  match s with
  | c :: s' => if ceq c "-" then Z.opp <$> integer_loop 0 s'
               else if ceq c "+" then integer_loop 0 s' else integer_loop 0 s
  | [] => Some 0%Z
  end.

(** ** Prefixes, suffixes and trimming *)

Definition start_with (str s : bytes) : bool := bool_decide (find_sub str s = Some 0).

(** [drop_front(N)]; [None]: [substr] throws. *)
Definition drop_front (n : nat) (s : bytes) : option bytes :=
  if length s <? n then None else Some (drop n s).

(** [substr(0, size() - N)]; the subtraction wraps around and then keeps all. *)
Definition drop_back (n : nat) (s : bytes) : bytes :=
  if length s <? n then s else take (length s - n) s.

Definition take_back (n : nat) (s : bytes) : bytes :=
  if length s <=? n then s else drop (length s - n) s.

Fixpoint drop_while (f : byte -> bool) (s : bytes) : bytes :=
  match s with [] => [] | c :: s' => if f c then drop_while f s' else s end.

Definition drop_until (f : byte -> bool) (s : bytes) : bytes := drop_while (fun c => negb (f c)) s.

Definition end_with (str s : bytes) : bool :=
  if length s <? length str then false
  else bool_decide (find_from str s (length s - length str) = Some (length s - length str)).

Definition consume_front (p s : bytes) : bool * bytes :=
  if start_with p s then (true, drop (length p) s) else (false, s).
Definition consume_back (p s : bytes) : bool * bytes :=
  if end_with p s then (true, drop_back (length p) s) else (false, s).

(** [find_first_not_of] and [find_last_not_of] *)
Definition find_first_not_of (ch : byte) (s : bytes) : option nat := find_pred (fun c => negb (ceq c ch)) s.
Fixpoint find_last_not_of (ch : byte) (s : bytes) : option nat :=
  match s with
  | [] => None
  | c :: s' => match find_last_not_of ch s' with
               | Some i => Some (S i)
               | None => if ceq c ch then None else Some 0
               end
  end.

Definition trim_left (ch : byte) (s : bytes) : bytes :=
  match find_first_not_of ch s with Some off => drop off s | None => s end.
Definition trim_right (ch : byte) (s : bytes) : bytes :=
  match find_last_not_of ch s with Some off => take (S off) s | None => [] end.
Definition trim (ch : byte) (s : bytes) : bytes := trim_right ch (trim_left ch s).

(** [strcasecmp] of the two C strings, up to its sign: the first difference of
    the characters in lower case. *)
Definition lower_char (c : byte) : byte := if between "A" "Z" c then byte_of (bval c + 32) else c.
Fixpoint strcasecmp (s t : bytes) : Z :=
  match s, t with
  | [], [] => 0
  | [], d :: _ => - bval (lower_char d)
  | c :: _, [] => bval (lower_char c)
  | c :: s', d :: t' =>
      if ceq (lower_char c) (lower_char d) then strcasecmp s' t'
      else (bval (lower_char c) - bval (lower_char d))%Z
  end.

Definition compare_nocase (s str : bytes) : Z := strcasecmp (c_str s) (c_str str).

(** [compare_nocase(index, length, str)]; [None]: [substr] throws. *)
Definition compare_nocase_sub (index len : nat) (s str : bytes) : option Z :=
  if length s <? index then None else Some (compare_nocase (substr s index len) str).
Definition compare_nocase_sub2 (index len : nat) (s str : bytes) (index2 len2 : nat) : option Z :=
  if (length s <? index) || (length str <? index2) then None
  else Some (compare_nocase (substr s index len) (substr str index2 len2)).

(** ** Searching from a position *)

Lemma find_from_Some p s pos i :
  find_from p s pos = Some i <-> pos <= length s /\ exists k, i = pos + k /\ find_sub p (drop pos s) = Some k.
Proof.
  unfold find_from. destruct (decide (pos <= length s)).
  - rewrite fmap_Some. naive_solver.
  - split; [done|]. naive_solver.
Qed.

Lemma find_from_0 p s : find_from p s 0 = find_sub p s.
Proof. unfold find_from. rewrite drop_0. destruct (decide _); [by destruct (find_sub p s)|lia]. Qed.

Lemma start_with_starts p s : start_with p s = starts_with p s.
Proof.
  unfold start_with. destruct (starts_with p s) eqn:E.
  - apply bool_decide_eq_true. by destruct s; simpl; rewrite E.
  - apply bool_decide_eq_false. destruct s; simpl; rewrite E; [done|]. by destruct (find_sub p s).
Qed.

Lemma end_with_spec p s : end_with p s = true <-> exists r, s = r ++ p.
Proof.
  unfold end_with. destruct (Nat.ltb_spec (length s) (length p)) as [Hlt|Hge].
  - split; [done|]. intros [r ->]. rewrite length_app in Hlt. lia.
  - rewrite bool_decide_eq_true, find_from_Some. split.
    + intros (_ & k & Hk & Hf). replace k with 0 in Hf by lia.
      apply find_sub_Some in Hf as (Hf & _). cbn [take app] in Hf.
      exists (take (length s - length p) s). rewrite <- (take_drop (length s - length p) s) at 1.
      f_equal. rewrite Hf.
      rewrite (drop_ge (drop _ s)); [by rewrite app_nil_r|]. rewrite length_drop. lia.
    + intros [r ->]. rewrite length_app. replace (length r + length p - length p) with (length r) by lia.
      split; [lia|]. exists 0. split; [lia|]. rewrite drop_app_length.
      destruct p; simpl; [done|]. by rewrite ceq_refl, starts_with_refl.
Qed.

(** A character that a text does not contain cannot start an occurrence there. *)
Lemma find_sub_skip n p a r :
  n ∉ a -> find_sub (n :: p) (a ++ r) = (fun i => length a + i) <$> find_sub (n :: p) r.
Proof.
  induction a as [|c a IH]; intros Ha; simpl.
  - by destruct (find_sub (n :: p) r).
  - apply not_elem_of_cons in Ha as [Hc Ha].
    replace (ceq n c) with false by (symmetry; by apply ceq_false). simpl. rewrite IH by done.
    by destruct (find_sub (n :: p) r).
Qed.

Lemma find_from_skip n p done a r :
  n ∉ a -> find_from (n :: p) (done ++ a ++ r) (length done) =
           (fun i => length done + length a + i) <$> find_sub (n :: p) r.
Proof.
  intros Ha. unfold find_from. rewrite drop_app_length, find_sub_skip by done.
  destruct (decide _) as [|Hn]; [|rewrite length_app in Hn; lia].
  destruct (find_sub (n :: p) r); simpl; [f_equal; lia|done].
Qed.

(** ** [replace] *)

Lemma replace_loop_ReplaceAll n p c t fuel done a rest :
  n ∉ a -> n ∉ t -> length rest < fuel ->
  replace_loop fuel (n :: p) (c :: t) (done ++ a ++ rest) (length done) =
  Some (done ++ a ++ ReplaceAll_loop fuel (n :: p) (c :: t) rest).
Proof.
  revert done a rest. induction fuel as [|fuel IH]; intros done a rest Ha Ht Hf; [lia|].
  cbn [replace_loop ReplaceAll_loop]. rewrite find_from_skip by done.
  destruct (find_sub (n :: p) rest) as [i|] eqn:E; cbn [fmap option_fmap option_map]; [|done].
  pose proof (find_sub_bound _ _ _ E) as Hb. cbn [length] in Hb.
  rewrite (app_assoc done a rest).
  rewrite take_app_ge, drop_app_ge by len.
  replace (length done + length a + i - length (done ++ a)) with i by len.
  replace (length done + length a + i + length (n :: p) - length (done ++ a)) with (i + length (n :: p)) by len.
  replace (length done + length a + i + 1) with (length ((done ++ a) ++ take i rest ++ [c])) by len.
  replace (((done ++ a) ++ take i rest) ++ (c :: t) ++ drop (i + length (n :: p)) rest)
    with (((done ++ a) ++ take i rest ++ [c]) ++ t ++ drop (i + length (n :: p)) rest)
    by (rewrite <- !app_assoc; done).
  rewrite IH by (done || (rewrite length_drop; cbn [length]; lia)).
  by rewrite <- !app_assoc.
Qed.

(** [replace] returns, and replaces every occurrence from left to right like
    [ReplaceAll] does, when the replacement is not empty and does not contain
    the first character of what it replaces; as many rounds as there are
    characters are enough. *)
Theorem replace_is_ReplaceAll (needle s text : bytes) :
  s <> [] -> (forall n, head needle = Some n -> n ∉ s) -> needle <> [] ->
  replace (S (length text)) needle s text = Some (ReplaceAll text needle s).
Proof.
  intros Hs Hn Hne. destruct needle as [|n p]; [done|]. destruct s as [|c t]; [done|].
  specialize (Hn n eq_refl). apply not_elem_of_cons in Hn as [_ Hn].
  apply (replace_loop_ReplaceAll n p c t (S (length text)) [] [] text); [set_solver|done|lia].
Qed.

Lemma replace_is_ReplaceAll_witness :
  replace 20 (lit "is") (lit "ere") (lit "This is a test.") = Some (lit "There ere a test.")
  /\ replace (S (length (lit "This is a test."))) (lit "is") (lit "ere") (lit "This is a test.")
     = Some (ReplaceAll (lit "This is a test.") (lit "is") (lit "ere")).
Proof.
  split; [reflexivity|].
  apply (replace_is_ReplaceAll (lit "is") (lit "ere") (lit "This is a test.")); [done| |done].
  intros n [= <-]. assert (E : bool_decide ("i"%byte ∈ lit "ere") = false) by reflexivity.
  by apply bool_decide_eq_false in E.
Defined.

(** A round that does not lengthen the text moves the search position closer
    to its end. *)
Lemma replace_loop_terminates fuel needle s text lastpos :
  length s <= length needle -> needle <> [] -> length text < lastpos + fuel ->
  exists r, replace_loop fuel needle s text lastpos = Some r /\ length r <= length text.
Proof.
  intros Hs Hne. revert text lastpos. induction fuel as [|fuel IH]; intros text lastpos Hf.
  - exists text. cbn [replace_loop]. unfold find_from. destruct (decide _); [lia|done].
  - cbn [replace_loop]. destruct (find_from needle text lastpos) as [i|] eqn:E; [|by exists text].
    apply find_from_Some in E as (Hl & k & -> & E).
    pose proof (find_sub_bound _ _ _ E) as Hb. rewrite length_drop in Hb.
    assert (0 < length needle) by (destruct needle; [done|simpl; lia]).
    edestruct IH as (r & Hr & Hlen); [|exists r; split; [exact Hr|]]; len.
Qed.

(** [replace] returns for every text when what it inserts is not longer than
    what it replaces, after at most one round per character. *)
Theorem replace_terminates (needle s text : bytes) :
  length s <= length needle -> needle <> [] ->
  exists r, replace (S (length text)) needle s text = Some r /\ length r <= length text.
Proof. intros Hs Hne. apply replace_loop_terminates; [done|done|lia]. Qed.

Lemma replace_terminates_witness :
  exists r, replace (S (length (lit "a--b--c"))) (lit "--") (lit "-") (lit "a--b--c") = Some r
    /\ length r <= length (lit "a--b--c").
Proof. apply (replace_terminates (lit "--") (lit "-") (lit "a--b--c")); [simpl; lia|done]. Defined.

Lemma find_sub_here p a r i : find_sub p a = Some i -> forall b, exists k, find_sub p (b ++ a ++ r) = Some k.
Proof.
  intros H b. destruct (find_sub p (b ++ a ++ r)) as [k|] eqn:E; [by exists k|].
  apply find_sub_None with (j := length b + i) in E.
  - apply find_sub_app with (r := r) in H. apply find_sub_Some in H as (H1 & H2 & _).
    rewrite <- drop_drop, drop_app_length in E. rewrite H1 in E.
    rewrite drop_app_length' in E by (rewrite length_take; lia). by rewrite starts_with_app in E.
  - apply find_sub_bound in H. len.
Qed.

(** It never returns when the replacement contains what it replaces after its
    first character, as in the replacement of LF by CR LF: the search goes on
    inside the text just inserted. *)
Theorem replace_diverges (needle s text : bytes) (i : nat) :
  find_sub needle (drop 1 s) = Some i -> s <> [] -> find_sub needle text <> None ->
  forall fuel, replace fuel needle s text = None.
Proof.
  intros Hi Hs Ht fuel. unfold replace.
  assert (G : forall fuel text lastpos k, find_from needle text lastpos = Some k ->
            replace_loop fuel needle s text lastpos = None).
  { clear fuel text Ht. induction fuel as [|fuel IH]; intros text lastpos k E; simpl; rewrite E; [done|].
    apply find_from_Some in E as (Hl & j & -> & E).
    pose proof (find_sub_bound _ _ _ E) as Hb. rewrite length_drop in Hb.
    set (thispos := lastpos + j) in *.
    destruct (find_sub_here needle (drop 1 s) (drop (thispos + length needle) text) i Hi []) as [m Hm].
    apply (IH _ _ (thispos + 1 + m)), find_from_Some. destruct s as [|c s]; [done|].
    split; [len|]. exists m. split; [done|].
    rewrite drop_app_ge by len. replace (thispos + 1 - length (take thispos text)) with 1 by len.
    exact Hm. }
  destruct (find_sub needle text) as [k|] eqn:E; [|done].
  apply (G fuel text 0 k). by rewrite find_from_0.
Qed.

Lemma replace_diverges_witness : replace 100 [LF] [CR; LF] (lit "a" ++ [LF]) = None.
Proof. by apply (replace_diverges [LF] [CR; LF] (lit "a" ++ [LF]) 0). Defined.

(** ** [split] and [join] *)

Lemma limit_hit_npos n : (n < 2 ^ 64 - 2)%N -> limit_hit n npos = false.
Proof.
  intros H. unfold limit_hit, npos.
  replace ((2 ^ 64 - 1 + (2 ^ 64 - 1)) `mod` 2 ^ 64)%N with (2 ^ 64 - 2)%N by reflexivity.
  apply N.leb_gt. done.
Qed.

Definition glued (c : byte) (v : list bytes) : bytes := foldl (fun r x => r ++ x ++ [c]) [] v.

Lemma glued_snoc c v x : glued c (v ++ [x]) = glued c v ++ x ++ [c].
Proof. unfold glued. by rewrite foldl_app. Qed.

(** The separator that gluing adds after the last field. *)
Definition extra_sep (c : byte) (s : bytes) : bytes :=
  match last s with Some d => if ceq d c then [] else [c] | None => [] end.

Lemma extra_sep_field c x : c ∉ x -> x <> [] -> extra_sep c x = [c].
Proof.
  intros Hc Hx. unfold extra_sep. destruct (last x) as [d|] eqn:E.
  - destruct (ceq d c) eqn:Ed; [|done]. apply ceq_true in Ed as ->.
    apply last_Some in E as [l ->]. set_solver.
  - by apply last_None in E.
Qed.

Lemma extra_sep_cons c x s : extra_sep c (x ++ c :: s) = extra_sep c s.
Proof.
  unfold extra_sep. rewrite last_app, last_cons. destruct (last s); simpl; [done|].
  by rewrite ceq_refl.
Qed.

Lemma split_char_loop_glued c s cur v :
  (N.of_nat (length v + length s) < 2 ^ 64 - 2)%N -> c ∉ cur ->
  glued c (split_char_loop c npos s cur v) = glued c v ++ (cur ++ s) ++ extra_sep c (cur ++ s).
Proof.
  revert cur v. induction s as [|d s IH]; intros cur v Hl Hc; simpl.
  - destruct cur as [|x cur]; [by rewrite !app_nil_r|].
    rewrite glued_snoc, app_nil_r, extra_sep_field by done. done.
  - simpl in Hl. destruct (ceq d c) eqn:E.
    + apply ceq_true in E as ->. rewrite limit_hit_npos by (rewrite length_app; simpl; lia).
      rewrite IH by (set_solver || (rewrite length_app; simpl; lia)).
      rewrite glued_snoc, extra_sep_cons. by rewrite <- !app_assoc.
    + apply ceq_false in E. rewrite IH by (set_solver || lia). by rewrite <- !app_assoc.
Qed.

Lemma split_char_loop_fields c s cur v :
  (N.of_nat (length v + length s) < 2 ^ 64 - 2)%N -> c ∉ cur -> Forall (fun x => c ∉ x) v ->
  Forall (fun x => c ∉ x) (split_char_loop c npos s cur v).
Proof.
  revert cur v. induction s as [|d s IH]; intros cur v Hl Hc Hv; simpl.
  - destruct cur; [done|]. apply Forall_app. by repeat constructor.
  - simpl in Hl. destruct (ceq d c) eqn:E.
    + rewrite limit_hit_npos by (rewrite length_app; simpl; lia).
      apply IH; [rewrite length_app; simpl; lia|set_solver|].
      apply Forall_app. by repeat constructor.
    + apply ceq_false in E. apply IH; [lia|set_solver|done].
Qed.

(** Splitting a text at a character cuts it at every occurrence, and joining
    the fields gives the text back, but for a separator at its very end: the
    empty field behind it is not kept. *)
Theorem split_join (c : byte) (s : bytes) :
  s <> [] -> (N.of_nat (length s) < 2 ^ 64 - 2)%N ->
  Forall (fun x => c ∉ x) (split_char c s npos)
  /\ join_ref_char c (split_char c s npos) = Some (if back_is c s then pop_back s else s).
Proof.
  intros Hs Hl. split; [apply split_char_loop_fields; [done|set_solver|constructor]|].
  unfold join_ref_char, join_ref, split_char.
  pose proof (split_char_loop_glued c s [] []) as G. unfold glued in G at 1.
  rewrite G by (done || set_solver). cbn [glued foldl app].
  unfold extra_sep, back_is, pop_back.
  destruct (last s) as [d|] eqn:E; [|by apply last_None in E].
  apply last_Some in E as [l ->]. rewrite (ceq_comm c d).
  destruct (ceq d c).
  - rewrite app_nil_r. destruct (Nat.ltb_spec (length (l ++ [d])) (length [c])); [len|done].
  - destruct (Nat.ltb_spec (length ((l ++ [d]) ++ [c])) (length [c])); [len|].
    f_equal. rewrite take_app_le by len. apply take_ge. len.
Qed.

Lemma split_join_witness :
  split_char "|" (lit "This|is|a|test.|") npos = [lit "This"; lit "is"; lit "a"; lit "test."]
  /\ join_ref_char "|" (split_char "|" (lit "This|is|a|test.|") npos) = Some (lit "This|is|a|test.").
Proof.
  split; [reflexivity|].
  etransitivity; [apply (split_join "|" (lit "This|is|a|test.|")); [done|reflexivity]|reflexivity].
Defined.

(** A separator of more than one character is undefined on every text in which
    it does not stop the loop early: near the end the compared range passes
    [end()]. *)
Theorem split_str_undefined (sep s : bytes) :
  1 < length sep -> s <> [] -> find_sub sep s = None -> split_str sep s npos = None.
Proof.
  intros Hsep Hs Hf. unfold split_str.
  assert (G : forall fuel i, fuel + i = length s -> 0 < fuel -> split_str_loop sep npos s fuel i 0 [] = None).
  { induction fuel as [|fuel IH]; intros i Hi Hpos; [lia|]. cbn [split_str_loop].
    destruct (Nat.ltb_spec (length s) (i + length sep)); [done|].
    destruct (bool_decide (take (length sep) (drop i s) = sep)) eqn:E.
    - apply bool_decide_eq_true in E. apply find_sub_None with (j := i) in Hf; [|lia].
      replace (starts_with sep (drop i s)) with true in Hf; [done|].
      symmetry. apply starts_with_spec. rewrite <- E at 1. by rewrite take_drop.
    - apply IH; lia. }
  apply G; [lia|]. destruct s; [done|simpl; lia].
Qed.

Lemma split_str_undefined_witness : split_str (lit "::") (lit "abc") npos = None.
Proof. by apply (split_str_undefined (lit "::") (lit "abc")); [simpl; lia| |]. Defined.

(** ** Trimming, chunks and counting *)

Lemma all_replicate (ch : byte) n s :
  length s = n -> Forall (fun c => c = ch) s -> s = replicate n ch.
Proof. intros <-. induction 1 as [|c s -> _ IH]; simpl; [done|by f_equal]. Qed.

Lemma trim_left_spec ch s :
  exists a, s = replicate a ch ++ trim_left ch s
    /\ (Forall (fun c => c = ch) s \/ exists c r, trim_left ch s = c :: r /\ c <> ch).
Proof.
  unfold trim_left, find_first_not_of. destruct (find_pred _ s) as [off|] eqn:E.
  - apply find_pred_Some in E as [(c & Hc & Hne) Hall].
    exists off. rewrite negb_true_iff in Hne. apply ceq_false in Hne. split.
    + rewrite <- (take_drop off s) at 1. f_equal.
      assert (H : Forall (fun d => d = ch) (take off s)).
      { eapply Forall_impl; [exact Hall|]. intros d Hd. apply negb_false_iff in Hd. by apply ceq_true. }
      apply all_replicate; [|done]. apply lookup_lt_Some in Hc. rewrite length_take. lia.
    + right. exists c, (drop (S off) s). split; [|done]. by apply drop_S.
  - apply find_pred_None in E. exists 0. split; [done|]. left.
    eapply Forall_impl; [exact E|]. intros d Hd. apply negb_false_iff in Hd. by apply ceq_true.
Qed.

Lemma find_last_not_of_None ch s : find_last_not_of ch s = None <-> Forall (fun c => c = ch) s.
Proof.
  induction s as [|c s IH]; simpl; [by split|]. rewrite Forall_cons, <- IH.
  destruct (find_last_not_of ch s); [naive_solver|].
  destruct (ceq c ch) eqn:E; [apply ceq_true in E; naive_solver|apply ceq_false in E; naive_solver].
Qed.

Lemma trim_right_spec ch s :
  exists b, s = trim_right ch s ++ replicate b ch
    /\ (trim_right ch s = [] \/ exists r c, trim_right ch s = r ++ [c] /\ c <> ch).
Proof.
  unfold trim_right. destruct (find_last_not_of ch s) as [off|] eqn:E.
  - revert off E. induction s as [|c s IH]; intros off E; simpl in E; [done|].
    destruct (find_last_not_of ch s) as [i|] eqn:E2.
    + injection E as <-. destruct (IH i eq_refl) as (b & Hb & Hl). exists b.
      cbn [take app]. split; [by rewrite <- Hb|]. right.
      destruct Hl as [Hn|(r & d & Hr & Hd)].
      * exfalso. apply (f_equal length) in Hn. rewrite length_take in Hn.
        destruct s; [done|]. simpl in Hn. lia.
      * exists (c :: r), d. by rewrite Hr.
    + destruct (ceq c ch) eqn:Ec; [done|]. injection E as <-. apply ceq_false in Ec.
      apply find_last_not_of_None in E2. exists (length s). cbn [take app]. split.
      * f_equal. by apply all_replicate.
      * right. exists [], c. done.
  - apply find_last_not_of_None in E. exists (length s). split; [|by left]. simpl.
    by apply all_replicate.
Qed.

(** [trim] removes every leading and trailing [ch] and nothing else: the text
    is a run of [ch], the result, and a run of [ch], and the result does not
    start or end with [ch]; a text of [ch] only becomes empty. *)
Theorem trim_strips (ch : byte) (s : bytes) :
  exists a b, s = replicate a ch ++ trim ch s ++ replicate b ch
    /\ head (trim ch s) <> Some ch /\ last (trim ch s) <> Some ch.
Proof.
  unfold trim. destruct (trim_left_spec ch s) as (a & Ha & Hl).
  destruct (trim_right_spec ch (trim_left ch s)) as (b & Hb & Hr).
  exists a, b. rewrite <- Hb. split; [done|].
  destruct Hr as [->|(r & c & Hr & Hc)]; [done|]. rewrite Hr. split.
  - destruct Hl as [Hall|(c' & r' & Hl & Hc')].
    + rewrite Ha, Hb, Hr, Forall_app, !Forall_app in Hall. destruct Hall as (_ & [_ Hall] & _).
      inversion Hall; congruence.
    + rewrite Hb, Hr in Hl. intros E. destruct r; simpl in *; congruence.
  - rewrite last_snoc. congruence.
Qed.

(** [trim_left] alone leaves a text of [ch] only as it is. *)
Lemma trim_left_blank ch n : trim_left ch (replicate n ch) = replicate n ch.
Proof.
  unfold trim_left, find_first_not_of.
  replace (find_pred _ (replicate n ch)) with (@None nat); [done|].
  symmetry. apply find_pred_None, Forall_replicate. by rewrite ceq_refl.
Qed.

Lemma chunk_split_loop_spec k n s cur v :
  0 < k -> n <= k -> length cur = n -> (n = 0 -> v = []) ->
  Forall (fun x => length x = k) v ->
  exists full rest, chunk_split_loop k n s cur v = full ++ rest
    /\ concat (full ++ rest) = concat v ++ cur ++ s
    /\ Forall (fun x => length x = k) full
    /\ (rest = [] \/ exists x, rest = [x] /\ 0 < length x <= k).
Proof.
  intros Hk. revert n cur v. induction s as [|c s IH]; intros n cur v Hn Hc H0 Hv; simpl.
  - destruct cur as [|x cur].
    + exists v, []. rewrite !app_nil_r. eauto.
    + exists v, [x :: cur]. rewrite concat_app. simpl. rewrite app_nil_r. split_and!; try done.
      right. exists (x :: cur). simpl in *. split; [done|lia].
  - destruct (Nat.eqb_spec n k) as [->|Hne].
    + destruct (IH 1 [c] (v ++ [cur])) as (full & rest & -> & Hcat & Hf & Hr); [lia|done|done| |].
      * apply Forall_app. by repeat constructor.
      * exists full, rest. rewrite Hcat, concat_app. simpl. rewrite app_nil_r, <- !app_assoc. done.
    + destruct (IH (S n) (cur ++ [c]) v) as (full & rest & -> & Hcat & Hf & Hr); [lia|len|done|done|].
      exists full, rest. rewrite Hcat, <- !app_assoc. done.
Qed.

(** [chunk_split] cuts the text into pieces of [chunklen] characters, of which
    only the last may be shorter; the pieces are the text, and none is empty. *)
Theorem chunk_split_spec (chunklen : nat) (s : bytes) :
  0 < chunklen ->
  exists full rest, chunk_split chunklen s = Some (full ++ rest)
    /\ concat (full ++ rest) = s
    /\ Forall (fun x => length x = chunklen) full
    /\ (rest = [] \/ exists x, rest = [x] /\ 0 < length x <= chunklen).
Proof.
  intros Hk. unfold chunk_split. destruct (Nat.eqb_spec chunklen 0); [lia|].
  destruct (chunk_split_loop_spec chunklen 0 s [] []) as (full & rest & -> & H); [done|lia|done|done|done|].
  by exists full, rest.
Qed.

Lemma chunk_split_spec_witness :
  exists full rest, chunk_split 3 (lit "abcdefghijk") = Some (full ++ rest)
    /\ concat (full ++ rest) = lit "abcdefghijk"
    /\ Forall (fun x => length x = 3) full
    /\ (rest = [] \/ exists x, rest = [x] /\ 0 < length x <= 3).
Proof. apply (chunk_split_spec 3 (lit "abcdefghijk")). lia. Defined.

Definition occurrences (c : byte) (s : bytes) : nat := length (filter (fun d => d = c) s).

Lemma find_from_single c s pos :
  find_from [c] s pos = (fun i => pos + i) <$> find_char c (drop pos s).
Proof.
  unfold find_from. destruct (decide (pos <= length s)).
  - f_equal. generalize (drop pos s). clear. intros s. unfold find_char.
    induction s as [|d s IH]; simpl; [done|]. rewrite andb_true_r. by destruct (ceq c d); [|rewrite IH].
  - by rewrite drop_ge by lia.
Qed.

Lemma count_loop_single fuel c s last n :
  length s <= last + fuel ->
  count_loop fuel [c] s last n = n + occurrences c (drop (last + 1) s).
Proof.
  revert last n. induction fuel as [|fuel IH]; intros last n Hf; simpl.
  - rewrite drop_ge by lia. unfold occurrences. simpl. lia.
  - rewrite find_from_single. set (t := drop (last + 1) s).
    destruct (find_char c t) as [i|] eqn:E; simpl.
    + pose proof (find_pred_bound _ _ _ E) as Hb. subst t. rewrite length_drop in Hb.
      rewrite IH by lia. apply find_pred_Some in E as [(d & Hd & Hcd) Hall].
      apply ceq_true in Hcd as <-.
      replace (drop (last + 1 + i + 1) s) with (drop (S i) (drop (last + 1) s)) by (rewrite drop_drop; f_equal; lia).
      rewrite <- (take_drop_middle _ _ _ Hd) at 2. unfold occurrences.
      rewrite filter_app, filter_cons_True, length_app by done. simpl.
      replace (filter _ (take i (drop (last + 1) s))) with (@nil byte); [simpl; lia|].
      symmetry. clear -Hall. induction (take i (drop (last + 1) s)) as [|d l IHl]; [done|].
      inversion Hall as [|? ? Hd Hl]; subst. apply ceq_false in Hd.
      rewrite filter_cons_False by congruence. by apply IHl.
    + apply find_char_None in E. unfold occurrences.
      replace (filter (fun d => d = c) t) with (@nil byte); [simpl; lia|].
      symmetry. clear -E. induction t as [|d l IHl]; [done|]. rewrite filter_cons_False by set_solver.
      apply IHl. set_solver.
Qed.

(** [count] of a character counts the occurrences behind the first position
    only: it starts to search at position 1. *)
Theorem count_misses_first (c : byte) (s : bytes) : count [c] s = occurrences c (drop 1 s).
Proof. unfold count. rewrite count_loop_single by lia. done. Qed.

(** ** [format]

    [formatted] is what the conversions of [vsnprintf] yield for the format
    and its arguments, or [None] for a null format.  The buffer has 2049
    bytes, of which [vsnprintf] fills at most 2048, the terminating NUL
    included; it returns the length of the whole text. *)
Definition INLINE_FORMAT_BUFFER_LEN : nat := Z.to_nat 2048.

Definition vsnprintf (n : nat) (formatted : bytes) (buf : list (option byte)) : list (option byte) :=
  let out := Some <$> (take (n - 1) formatted ++ [NUL]) in out ++ drop (length out) buf.

(** [assign(buf, buf + len)]: [None] when a byte that was never written, or
    none of the buffer, is read *)
Definition format (formatted : option bytes) (this : bytes) : option bytes :=
  match formatted with
  | None => Some this
  | Some text =>
      let buf := vsnprintf INLINE_FORMAT_BUFFER_LEN text (replicate (INLINE_FORMAT_BUFFER_LEN + 1) None) in
      if length text <=? length buf then mapM id (take (length text) buf) else None
  end.

Lemma mapM_id_Some {A} (l : list A) : mapM id (Some <$> l) = Some l.
Proof. induction l as [|x l IH]; [done|]. cbn. by rewrite IH. Qed.

Lemma mapM_id_None {A} (l : list (option A)) : None ∈ l -> mapM id l = None.
Proof.
  induction l as [|x l IH]; [by intros ?%not_elem_of_nil|]. intros [<-|H]%elem_of_cons; [done|]. cbn.
  rewrite IH by done. by destruct x.
Qed.

(** [format] is right for texts of up to 2047 bytes; a text of 2048 bytes
    loses its last byte to the NUL; for a longer one the bytes behind the NUL
    are read, which were never written or lie outside of the buffer. *)
Theorem format_limit (text this : bytes) :
  format (Some text) this =
    if decide (length text < INLINE_FORMAT_BUFFER_LEN) then Some text
    else if decide (length text = INLINE_FORMAT_BUFFER_LEN) then Some (removelast text ++ [NUL])
    else None.
Proof.
  unfold format, vsnprintf. set (N := INLINE_FORMAT_BUFFER_LEN).
  assert (HN : 0 < N) by (subst N; unfold INLINE_FORMAT_BUFFER_LEN; lia). clearbody N.
  set (out := take (N - 1) text ++ [NUL]).
  assert (Ho : length out = min (N - 1) (length text) + 1) by (subst out; rewrite length_app, length_take; done).
  rewrite length_fmap, length_app, length_fmap, length_drop, length_replicate, Ho.
  case_decide as Hl.
  - rewrite (proj2 (Nat.leb_le _ _)) by lia. rewrite take_app_le by (rewrite length_fmap; lia).
    subst out. rewrite <- fmap_take, (take_ge text) by lia. rewrite take_app_length. apply mapM_id_Some.
  - case_decide as He.
    + rewrite (proj2 (Nat.leb_le _ _)) by lia. rewrite take_app_le by (rewrite length_fmap; lia).
      rewrite <- fmap_take, take_ge by lia. subst out. rewrite mapM_id_Some. do 2 f_equal.
      rewrite removelast_firstn_len. by rewrite He, Nat.sub_1_r.
    + destruct (Nat.leb_spec (length text) (min (N - 1) (length text) + 1 + (N + 1 - (min (N - 1) (length text) + 1))));
        [|done].
      apply mapM_id_None. apply list_elem_of_lookup_2 with N. rewrite lookup_take_lt by lia.
      rewrite lookup_app_r by (rewrite length_fmap; lia). rewrite length_fmap, lookup_drop.
      apply lookup_replicate. split; [done|lia].
Qed.
