(* ===== verification/MarkupText.v ===== *)
(** * Text helpers of the markup renderer

    The first half of src/lsp/Markup.cpp: character classes, hexadecimal and
    decimal conversion, joining, and the escaping of text and inline code for
    markdown.  [None] is undefined behaviour: a read beyond the table of
    [hexDigitValue], a write before the buffer of [utostr], or a negative
    [char] other than EOF given to [std::isspace] or [std::isalnum]. *)
From S2P Require Import Prelude CppString Utils StringRef.

(** ** Characters *)

Definition isDigit (c : byte) : bool := between "0" "9" c.
Definition isAlpha (c : byte) : bool := between "a" "z" c || between "A" "Z" c.
Definition isAlnum (c : byte) : bool := isAlpha c || isDigit c.
Definition isASCII (c : byte) : bool := (bval c <=? 127)%Z.
Definition isPrint (c : byte) : bool := (32 <=? bval c)%Z && (bval c <=? 126)%Z.
(** Blank, FF, LF, CR, TAB and VT *)
Definition isSpace (c : byte) : bool :=
  ceq c " " || ceq c Byte.x0c || ceq c LF || ceq c CR || ceq c TAB || ceq c Byte.x0b.

(** [std::isspace] and [std::isalnum] of a plain [char], in the "C" locale: the
    argument is an [unsigned char] or EOF, which is the value of 0xFF *)
Definition ctype_argument (c : byte) : bool := (0 <=? sval c)%Z || (sval c =? -1)%Z.
Definition std_isspace (c : byte) : option bool := if ctype_argument c then Some (isSpace c) else None.
Definition std_isalnum (c : byte) : option bool := if ctype_argument c then Some (isAlnum c) else None.

Definition toLower (x : byte) : byte := if between "A" "Z" x then byte_of (sval x - 65 + 97) else x.
Definition toUpper (x : byte) : byte := if between "a" "z" x then byte_of (sval x - 97 + 65) else x.

(** [isASCII] of a string returns true on both ways out of its loop. *)
Fixpoint isASCII_string (s : bytes) : bool :=
  match s with
  | [] => true
  | c :: s' => if negb (isASCII c) then true else isASCII_string s'
  end.

(** ** Hexadecimal *)

Definition hexdigit (X : Z) (LowerCase : bool) : byte :=
  let HexChar := (if LowerCase then 97 else 65)%Z in
  if (X <? 10)%Z then byte_of (48 + X) else byte_of (HexChar + X - 10).

Definition invalid_digit : Z := (2 ^ 32 - 1)%Z.   (** [~0U] *)

(** The table has 255 entries; the index 255 is out of bounds. *)
Definition hexDigitValue (C : byte) : option Z :=
  if (bval C =? 255)%Z then None
  else Some (if between "0" "9" C then bval C - 48
             else if between "A" "F" C then bval C - 65 + 10
             else if between "a" "f" C then bval C - 97 + 10
             else invalid_digit)%Z.

Definition isHexDigit (C : byte) : option bool := (fun v => negb (v =? invalid_digit)%Z) <$> hexDigitValue C.

Definition hex_lut : bytes := lit "0123456789ABCDEF".

(** [LUT[n] | Offset] *)
Definition hex_char (n : Z) (LowerCase : bool) : byte :=
  byte_of (Z.lor (bval (default NUL (hex_lut !! Z.to_nat n))) (if LowerCase then 32 else 0)).

Fixpoint toHex (Input : bytes) (LowerCase : bool) : bytes :=
  match Input with
  | [] => []
  | c :: rest =>
      hex_char (Z.shiftr (bval c) 4) LowerCase :: hex_char (Z.land (bval c) 15) LowerCase
        :: toHex rest LowerCase
  end.

(** [Some None]: not a pair of digits. *)
Definition tryGetHexFromNibbles (MSB LSB : byte) : option (option byte) :=
  match hexDigitValue MSB, hexDigitValue LSB with
  | Some U1, Some U2 =>
      if (U1 =? invalid_digit)%Z || (U2 =? invalid_digit)%Z then Some None
      else Some (Some (byte_of (Z.lor (Z.shiftl U1 4) U2)))
  | _, _ => None
  end.

(** The loop on an even number of characters; the result and [Output]. *)
Fixpoint fromHex_loop (Input Output : bytes) : option (bool * bytes) :=
  match Input with
  | a :: b :: rest =>
      match tryGetHexFromNibbles a b with
      | None => None
      | Some None => Some (false, Output)
      | Some (Some h) => fromHex_loop rest (Output ++ [h])
      end
  | _ => Some (true, Output)
  end.

Definition tryGetFromHex (Input Output : bytes) : option (bool * bytes) :=
  match Input with
  | [] => Some (true, Output)
  | c :: rest =>
      if length Input `mod` 2 =? 1 then
        match tryGetHexFromNibbles "0" c with
        | None => None
        | Some None => Some (false, Output)
        | Some (Some h) => fromHex_loop rest (Output ++ [h])
        end
      else fromHex_loop Input Output
  end.

(** [fromHex], with assertions compiled out *)
Definition fromHex (Input : bytes) : option bytes := snd <$> tryGetFromHex Input [].

(** ** Numbers

    [*--BufPtr = ...] while [X] is not zero, in a buffer with [room] left. *)
Fixpoint push_digits (room : nat) (base : Z) (digit : Z -> byte) (X : Z) (acc : bytes)
    : option (nat * bytes) :=
  if (X =? 0)%Z then Some (room, acc)
  else match room with
       | 0 => None
       | S room' => push_digits room' base digit (X `div` base) (digit (X `mod` base)%Z :: acc)
       end.

Definition push_char (c : byte) (st : nat * bytes) : option (nat * bytes) :=
  match st with
  | (S room, acc) => Some (room, c :: acc)
  | (0, _) => None
  end.

Definition utohexstr (X : Z) (LowerCase : bool) : option bytes :=
  snd <$> (if (X =? 0)%Z then push_char "0" (17, [])
           else push_digits 17 16 (fun m => hexdigit m LowerCase) X []).

Definition utostr (X : Z) (isNeg : bool) : option bytes :=
  match (if (X =? 0)%Z then push_char "0" (21, []) else push_digits 21 10 digit_char X []) with
  | None => None
  | Some st => snd <$> (if isNeg then push_char "-" st else Some st)
  end.

(** [uint64_t(1) + ~uint64_t(X)] *)
Definition negate64 (X : Z) : Z := ((1 + (2 ^ 64 - 1 - X `mod` 2 ^ 64)) `mod` 2 ^ 64)%Z.

Definition itostr (X : Z) : option bytes :=
  if (X <? 0)%Z then utostr (negate64 X) true else utostr X false.

Definition getOrdinalSuffix (Val : Z) : bytes :=
  let r := (Val `mod` 100)%Z in
  if (r =? 11)%Z || (r =? 12)%Z || (r =? 13)%Z then lit "th"
  else match (Val `mod` 10)%Z with
       | 1%Z => lit "st" | 2%Z => lit "nd" | 3%Z => lit "rd" | _ => lit "th"
       end.

(** ** Joining *)

Definition join_impl (items : list bytes) (Separator : bytes) : bytes :=
  match items with
  | [] => []
  | x :: rest => foldl (fun S y => (S ++ Separator) ++ y) x rest
  end.

(** [join_items] of the items of a parameter pack *)
Fixpoint join_items_impl (Result Separator : bytes) (Items : list bytes) : bytes :=
  match Items with
  | [] => Result
  | [Item] => Result ++ Item
  | A1 :: Items => join_items_impl ((Result ++ A1) ++ Separator) Separator Items
  end.
Fixpoint join_items_size (Items : list bytes) : nat :=
  match Items with [] => 0 | [A] => length A | A :: Items => length A + join_items_size Items end.
Definition join_items (Separator : bytes) (Items : list bytes) : bytes :=
  match Items with [] => [] | _ => join_items_impl [] Separator Items end.
(** The argument of [reserve] in [join_items] *)
Definition join_items_reserved (Separator : bytes) (Items : list bytes) : nat :=
  join_items_size Items + (length Items - 1) * length Separator + 1.

(** [ListSeparator]: the separator, but nothing the first time. *)
Record ListSeparator := mkListSeparator { First : bool; Separator : bytes }.
Definition next_separator (ls : ListSeparator) : bytes * ListSeparator :=
  if First ls then ([], mkListSeparator false (Separator ls)) else (Separator ls, ls).

(** ** Escaping *)

(** The attribute part of a tag. *)
Fixpoint tag_attributes (s : bytes) : bool :=
  match s with
  | [] => true
  | c :: s' =>
      if isAlnum c || isSpace c then tag_attributes s'
      else if ceq c ">" || start_with (lit "/>") s then true
      else if ceq c "=" then true
      else false
  end.

Definition looksLikeTag (Contents : bytes) : bool :=
  match Contents with
  | [] => false
  | c :: _ =>
      if ceq c "!" || ceq c "?" || ceq c "/" then true
      else if negb (isAlpha c) then false
      else tag_attributes
             (drop_while isSpace
                (drop_while (fun d => isAlnum d || ceq d "-" || ceq d "_" || ceq d ":") Contents))
  end.

Fixpoint all_of_opt (f : byte -> option bool) (s : bytes) : option bool :=
  match s with
  | [] => Some true
  | c :: s' => match f c with
               | None => None
               | Some false => Some false
               | Some true => all_of_opt f s'
               end
  end.

Definition is_entity (After : bytes) : option bool :=
  match find_char ";" After with
  | None => Some false
  | Some End =>
      let Content := take End After in
      let '(hash, Content) := consume_front (lit "#") Content in
      if hash then
        let '(x, Content) := consume_front (lit "x") Content in
        let '(x, Content) := if x then (true, Content) else consume_front (lit "X") Content in
        if x then all_of_opt isHexDigit Content else Some (forallb isDigit Content)
      else Some (forallb isAlpha Content)
  end.

Definition is_empty (s : bytes) : bool := match s with [] => true | _ => false end.

Section Escape.
Variables (C : byte) (Before : bytes) (StartsLine : bool).

(** [RulerLength] trims [After] in place. *)
Definition RulerLength (After : bytes) : nat * bytes :=
  if negb StartsLine || negb (is_empty Before) then (0, After)
  else let A := trim_right " " After in
       (if forallb (ceq C) A then 1 + length A else 0, A).

Definition IsBullet (After : bytes) : bool :=
  StartsLine && is_empty Before && (is_empty After || start_with (lit " ") After).

(** [&&] and [||] on tests that may be undefined *)
Definition and_then (a b : option bool) : option bool :=
  match a with Some true => b | _ => a end.
Definition or_else (a b : option bool) : option bool :=
  match a with Some false => b | _ => a end.

Definition SpaceSurrounds (After : bytes) : option bool :=
  and_then (match head After with Some c => std_isspace c | None => Some true end)
    (match last Before with Some c => std_isspace c | None => Some true end).

Definition WordSurrounds (After : bytes) : option bool :=
  and_then (match head After with Some c => std_isalnum c | None => Some false end)
    (match last Before with Some c => std_isalnum c | None => Some false end).

Definition needsLeadingEscape (After : bytes) : option bool :=
  if ceq C "\" then Some true
  else if ceq C "`" then Some true
  else if ceq C "~" then Some (StartsLine && is_empty Before && start_with (lit "~~") After)
  else if ceq C "#" then
    if negb StartsLine || negb (is_empty Before) then Some false
    else let Rest := trim_left C After in Some (is_empty Rest || start_with (lit " ") Rest)
  else if ceq C "]" then Some (start_with (lit ":") After || start_with (lit "(") After)
  else if ceq C "=" then Some (0 <? (RulerLength After).1)
  else if ceq C "_" then
    let '(r, After) := RulerLength After in
    if 3 <=? r then Some true else negb <$> or_else (SpaceSurrounds After) (WordSurrounds After)
  else if ceq C "-" then
    let '(r, After) := RulerLength After in
    if 0 <? r then Some true else Some (IsBullet After)
  else if ceq C "+" then Some (IsBullet After)
  else if ceq C "*" then
    if IsBullet After then Some true
    else let '(r, After) := RulerLength After in
         if 3 <=? r then Some true else negb <$> SpaceSurrounds After
  else if ceq C "<" then Some (looksLikeTag After)
  else if ceq C ">" then Some (StartsLine && is_empty Before)
  else if ceq C "&" then is_entity After
  else if ceq C "." || ceq C ")" then
    Some (StartsLine && negb (is_empty Before) && forallb isDigit Before && start_with (lit " ") After)
  else Some false.
End Escape.

(** The loop of [renderText]: [Before] is what was read so far. *)
Fixpoint renderText_loop (StartsLine : bool) (Before Input : bytes) : option bytes :=
  match Input with
  | [] => Some []
  | c :: After =>
      match needsLeadingEscape c Before StartsLine After with
      | None => None
      | Some esc =>
          match renderText_loop StartsLine (Before ++ [c]) After with
          | None => None
          | Some R => Some ((if esc then ["\"%byte] else []) ++ c :: R)
          end
      end
  end.

Definition renderText (Input : bytes) (StartsLine : bool) : option bytes :=
  renderText_loop StartsLine [] Input.

(** The loop that doubles backticks, from [From] on. *)
Fixpoint double_backticks (fuel : nat) (rest : bytes) : bytes :=
  match fuel with
  | 0 => []
  | S fuel' =>
      match rest with
      | [] => []
      | _ =>
          match find_char "`" rest with
          | None => rest
          | Some Next => take Next rest ++ lit "``" ++ double_backticks fuel' (drop (S Next) rest)
          end
      end
  end.

Definition renderInlineBlock (Input : bytes) : bytes :=
  let R := double_backticks (length Input) Input in
  if start_with (lit "`") R || end_with (lit "`") R then lit "` " ++ R ++ lit " `"
  else if start_with (lit " ") R && end_with (lit " ") R then lit "` " ++ R ++ lit " `"
  else lit "`" ++ R ++ lit "`".

(** [MaxBackticks] and [Backticks]; [unsigned] counters are kept unbounded. *)
Definition backtick_step (st : nat * nat) (c : byte) : nat * nat :=
  let '(m, b) := st in if ceq c "`" then (m, S b) else (Nat.max m b, 0).

Definition getMarkerForCodeBlock (Input : bytes) : bytes :=
  let '(m, b) := foldl backtick_step (0, 0) Input in
  let MaxBackticks := Nat.max b m in
  replicate (Nat.max 3 (MaxBackticks + 1)) "`"%byte.

(** [SplitString(Source, OutFragments)] at the default delimiters *)
Fixpoint SplitWords_loop (fuel : nat) (rest : bytes) : list bytes :=
  match fuel with
  | 0 => []
  | S fuel' =>
      match find_pred (fun c => negb (isSpace c)) rest with
      | None => []
      | Some start =>
          let rest := drop start rest in
          match find_pred isSpace rest with
          | None => [rest]
          | Some end_ => take end_ rest :: SplitWords_loop fuel' (drop end_ rest)
          end
      end
  end.

Definition SplitWords (Source : bytes) : list bytes := SplitWords_loop (S (length Source)) Source.

Definition canonicalizeSpaces (Input : bytes) : bytes := join_impl (SplitWords Input) (lit " ").

(** ** Hexadecimal round trip *)

Lemma hex_pair c lc :
  tryGetHexFromNibbles (hex_char (Z.shiftr (bval c) 4) lc) (hex_char (Z.land (bval c) 15) lc) = Some (Some c).
Proof.
  assert (H : forall lc, forall c, bool_decide
    (tryGetHexFromNibbles (hex_char (Z.shiftr (bval c) 4) lc) (hex_char (Z.land (bval c) 15) lc) = Some (Some c)) = true).
  { intros []; apply byte_forall; vm_compute; reflexivity. }
  specialize (H lc c). by apply bool_decide_eq_true in H.
Qed.

Lemma fromHex_loop_toHex s lc out : fromHex_loop (toHex s lc) out = Some (true, out ++ s).
Proof.
  revert out. induction s as [|c s IH]; intros out; [by rewrite app_nil_r|].
  cbn [toHex fromHex_loop]. rewrite hex_pair, IH, <- app_assoc. done.
Qed.

Lemma toHex_length s lc : length (toHex s lc) = 2 * length s.
Proof. induction s as [|c s IH]; simpl; lia. Qed.

(** Every byte string survives conversion to hexadecimal, in either case, and
    back; the hexadecimal text has two characters per byte. *)
Theorem hex_roundtrip (s : bytes) (LowerCase : bool) :
  tryGetFromHex (toHex s LowerCase) [] = Some (true, s) /\ length (toHex s LowerCase) = 2 * length s.
Proof.
  split; [|apply toHex_length]. unfold tryGetFromHex.
  destruct (toHex s LowerCase) as [|a t] eqn:E.
  - by destruct s.
  - rewrite <- E, toHex_length, Nat.mul_comm, Nat.Div0.mod_mul. simpl. apply fromHex_loop_toHex.
Qed.

(** ** Numbers: the buffers are large enough *)

Lemma push_digits_fits k room base digit X acc :
  (2 <= base)%Z -> (0 <= X < base ^ Z.of_nat k)%Z -> k <= room ->
  exists ds room', push_digits room base digit X acc = Some (room', ds ++ acc)
    /\ room = room' + length ds /\ length ds <= k /\ (X <> 0%Z -> ds <> []).
Proof.
  intros Hb. revert room X acc. induction k as [|k IH]; intros room X acc HX Hk.
  - replace X with 0%Z by (change (base ^ Z.of_nat 0)%Z with 1%Z in HX; lia).
    exists [], room. unfold push_digits. destruct room; simpl; split_and!; done || lia.
  - destruct room as [|room]; [lia|]. cbn [push_digits]. destruct (X =? 0)%Z eqn:E.
    + exists [], (S room). simpl. split_and!; done || lia.
    + destruct (IH room (X `div` base)%Z (digit (X `mod` base)%Z :: acc)) as (ds & r & H & Hr & Hl & _).
      * split; [apply Z.div_pos; lia|]. apply Z.div_lt_upper_bound; [lia|].
        rewrite Nat2Z.inj_succ, Z.pow_succ_r in HX; lia.
      * lia.
      * exists (ds ++ [digit (X `mod` base)%Z]), r. rewrite H, <- app_assoc, length_app.
        simpl. split_and!; [done|lia|lia|by destruct ds].
Qed.

Lemma push_digits_dec fuel room X acc room' ds :
  (0 < X)%Z -> Z.to_nat (Z.log2 X) < fuel ->
  push_digits room 10 digit_char X acc = Some (room', ds) -> ds = dec_digits fuel X acc.
Proof.
  revert room X acc. induction fuel as [|fuel IH]; intros room X acc HX Hf; [lia|].
  destruct room as [|room]; cbn [push_digits]; replace (X =? 0)%Z with false by lia; [done|].
  cbn [dec_digits]. destruct (X <? 10)%Z eqn:E.
  - rewrite Z.div_small by lia. destruct room; simpl; by intros [= _ <-].
  - assert (Hd : (X `div` 10 <= X / 2)%Z) by (apply Z.div_le_compat_l; lia).
    assert (Hpos : (1 <= X `div` 10)%Z) by (apply Z.div_le_lower_bound; lia).
    intros H. eapply IH; [lia| |exact H].
    apply Z.log2_le_mono in Hd. rewrite <- Z.div2_div, Z.div2_spec, Z.log2_shiftr in Hd by lia.
    assert (0 < Z.log2 X)%Z by (apply Z.log2_pos; lia). pose proof (Z.log2_nonneg (X `div` 10)). lia.
Qed.

Lemma utostr_unsigned X neg :
  (0 <= X < 2 ^ 64)%Z -> utostr X neg = Some ((if neg then ["-"%byte] else []) ++ to_string X).
Proof.
  intros HX. unfold utostr. destruct (X =? 0)%Z eqn:E.
  - replace X with 0%Z by lia. by destruct neg.
  - destruct (push_digits_fits 20 21 10 digit_char X []) as (ds & r & H & Hr & Hl & _); [lia| |lia|].
    { split; [lia|]. transitivity (2 ^ 64)%Z; [lia|reflexivity]. }
    rewrite H, app_nil_r. rewrite app_nil_r in H.
    apply (push_digits_dec (S (Z.to_nat (Z.log2 X)))) in H; [|lia|lia].
    unfold to_string. replace (X <? 0)%Z with false by lia. rewrite <- H.
    destruct neg; [|done]. destruct r; [lia|done].
Qed.

Lemma negate64_opp X : (- 2 ^ 63 <= X < 0)%Z -> negate64 X = (- X)%Z.
Proof.
  intros HX. unfold negate64.
  replace (X `mod` 2 ^ 64)%Z with (X + 2 ^ 64)%Z.
  - rewrite Z.mod_small by lia. lia.
  - rewrite <- (Z.mod_small (X + 2 ^ 64) (2 ^ 64)) by lia.
    rewrite <- (Z.mul_1_l (2 ^ 64)) at 1. rewrite Z.mod_add by lia. done.
Qed.

Lemma itostr_to_string X : (- 2 ^ 63 <= X < 2 ^ 63)%Z -> itostr X = Some (to_string X).
Proof.
  intros HX. unfold itostr. destruct (X <? 0)%Z eqn:E; [|rewrite utostr_unsigned by lia; done].
  rewrite negate64_opp, utostr_unsigned by lia. unfold to_string. rewrite E.
  by replace (- X <? 0)%Z with false by lia.
Qed.

Lemma utohexstr_fits Y lc : (0 <= Y < 2 ^ 64)%Z -> exists s, utohexstr Y lc = Some s /\ 0 < length s <= 16.
Proof.
  intros HY. unfold utohexstr.
  destruct (Y =? 0)%Z eqn:E; [exists (lit "0"); split; [done|simpl; lia]|].
  destruct (push_digits_fits 16 17 16 (fun m => hexdigit m lc) Y [])
    as (ds & r & H & Hr & Hl & Hne); [lia|lia|lia|].
  rewrite H, app_nil_r. exists ds. split; [done|]. split; [|done].
  destruct ds; [by destruct Hne; [lia|]|simpl; lia].
Qed.

(** [itostr] and [utostr] never write outside their buffer of 21 characters,
    and [utohexstr] not outside its 17, for every 64-bit value, the most
    negative one included; the decimal text is that of [std::to_string]. *)
Theorem number_buffers (X Y : Z) (LowerCase : bool) :
  (- 2 ^ 63 <= X < 2 ^ 63)%Z -> (0 <= Y < 2 ^ 64)%Z ->
  itostr X = Some (to_string X) /\ utostr Y false = Some (to_string Y)
  /\ exists s, utohexstr Y LowerCase = Some s /\ 0 < length s <= 16.
Proof.
  intros HX HY. split_and!; [by apply itostr_to_string|by rewrite utostr_unsigned|by apply utohexstr_fits].
Qed.

Lemma number_buffers_witness :
  itostr (- 2 ^ 63) = Some (lit "-9223372036854775808") /\ utostr (2 ^ 64 - 1) false = Some (lit "18446744073709551615")
  /\ exists s, utohexstr (2 ^ 64 - 1) true = Some s /\ 0 < length s <= 16.
Proof. apply (number_buffers (- 2 ^ 63) (2 ^ 64 - 1) true); lia. Defined.

Lemma is_digit_range c : is_digit c = true -> (48 <= bval c <= 57)%Z.
Proof. unfold is_digit. lia. Qed.

Lemma dec_value_ge ds w : forallb is_digit ds = true -> (0 <= w)%Z -> (w <= dec_value w ds)%Z.
Proof.
  revert w. induction ds as [|c ds IH]; intros w Hd Hw; [unfold dec_value; simpl; lia|].
  cbn [forallb] in Hd. apply andb_true_iff in Hd as [Hc%is_digit_range Hd].
  change (dec_value w (c :: ds)) with (dec_value (w * 10 + (bval c - 48))%Z ds).
  etransitivity; [|apply IH; [done|lia]]. lia.
Qed.

Lemma integer_loop_digits ds v :
  forallb is_digit ds = true -> (0 <= v)%Z -> (dec_value v ds <= LONG_MAX)%Z ->
  integer_loop v ds = Some (dec_value v ds).
Proof.
  revert v. induction ds as [|c ds IH]; intros v Hd Hv Hm; [done|].
  cbn [forallb] in Hd. apply andb_true_iff in Hd as [Hc%is_digit_range Hd].
  assert (Hs : sval c = bval c) by (unfold sval; destruct (bval c <? 128)%Z eqn:E; lia).
  cbn [integer_loop]. unfold between. rewrite Hs.
  change (sval "0") with 48%Z. change (sval "9") with 57%Z.
  replace ((48 <=? bval c)%Z && (bval c <=? 57)%Z) with true by lia.
  set (r := (v * 10 + (bval c - 48))%Z). change (dec_value v (c :: ds)) with (dec_value r ds) in *.
  pose proof (dec_value_ge ds r Hd ltac:(lia)).
  destruct (LONG_MAX <? r)%Z eqn:E2; [lia|]. apply IH; [done|lia|done].
Qed.

(** [string_ref::integer] reads back every number that [itostr] prints, except
    the most negative one, on which it overflows. *)
Theorem integer_reads_itostr (X : Z) :
  (- 2 ^ 63 < X < 2 ^ 63)%Z -> exists s, itostr X = Some s /\ integer s = Some X.
Proof.
  intros HX. exists (to_string X). split.
  { apply itostr_to_string. lia. }
  assert (G : forall Y, (0 <= Y < 2 ^ 63)%Z ->
            integer_loop 0 (to_string Y) = Some Y /\ integer (to_string Y) = Some Y).
  { intros Y HY. destruct (to_string_nonneg Y) as (Hne & Hd & Hv); [lia|].
    assert (H : integer_loop 0 (to_string Y) = Some Y)
      by (rewrite integer_loop_digits, Hv by (done || (unfold LONG_MAX; lia)); done).
    split; [done|]. destruct (to_string Y) as [|c r] eqn:E; [done|]. unfold integer.
    cbn [forallb] in Hd. apply andb_true_iff in Hd as [Hc _]. unfold is_digit in Hc.
    destruct (ceq c "-") eqn:E1; [apply ceq_true in E1; subst c; discriminate Hc|].
    destruct (ceq c "+") eqn:E2; [apply ceq_true in E2; subst c; discriminate Hc|]. done. }
  destruct (X <? 0)%Z eqn:E; [|apply G; lia].
  destruct (G (- X)%Z) as [H _]; [lia|]. unfold to_string in *. rewrite E.
  replace (- X <? 0)%Z with false in H by lia. cbn [integer].
  rewrite ceq_refl, H. simpl. f_equal. lia.
Qed.

Lemma integer_reads_itostr_witness : exists s, itostr (-42) = Some s /\ integer s = Some (-42)%Z.
Proof. apply (integer_reads_itostr (-42)). lia. Defined.

(** ** Escaped text reads back as the text *)

(** A markdown reader's view of backslashes. *)
Fixpoint unescape (s : bytes) : bytes :=
  match s with
  | c :: s' => if ceq c "\" then match s' with d :: r => d :: unescape r | [] => [c] end
               else c :: unescape s'
  | [] => []
  end.

Definition is_punct (c : byte) : bool := isPrint c && negb (isAlnum c) && negb (ceq c " ").

(** Every backslash that is not itself escaped stands before punctuation. *)
Fixpoint escapes_punct (s : bytes) : bool :=
  match s with
  | c :: s' => if ceq c "\" then match s' with d :: r => is_punct d && escapes_punct r | [] => false end
               else escapes_punct s'
  | [] => true
  end.

Lemma all_of_opt_defined f s : (forall c, c ∈ s -> f c <> None) -> all_of_opt f s <> None.
Proof.
  induction s as [|c s IH]; intros H; simpl; [done|].
  destruct (f c) as [[]|] eqn:E; [|done|].
  - apply IH. set_solver.
  - exfalso. apply (H c); [left|done].
Qed.

Lemma isHexDigit_defined c : c <> Byte.xff -> isHexDigit c <> None.
Proof.
  intros Hc. unfold isHexDigit, hexDigitValue. destruct (bval c =? 255)%Z eqn:E; [|done].
  destruct Hc. apply bval_inj. change (bval Byte.xff) with 255%Z. lia.
Qed.

Lemma consume_front_sub p s : (consume_front p s).2 ⊆ s.
Proof.
  unfold consume_front. destruct (start_with p s); simpl; [|done].
  intros c Hc. rewrite <- (take_drop (length p) s). set_solver.
Qed.

Lemma is_entity_defined s : Byte.xff ∉ s -> is_entity s <> None.
Proof.
  intros Hs. unfold is_entity. destruct (find_char ";" s) as [e|]; [|done].
  assert (Ht : Byte.xff ∉ take e s).
  { intros H. apply Hs. rewrite <- (take_drop e s). set_solver. }
  pose proof (consume_front_sub (lit "#") (take e s)) as S1.
  destruct (consume_front (lit "#") (take e s)) as [[] t1]; simpl in S1; [|done].
  pose proof (consume_front_sub (lit "x") t1) as S2.
  destruct (consume_front (lit "x") t1) as [[] t2]; simpl in S2.
  - apply all_of_opt_defined. intros c Hc. apply isHexDigit_defined. set_solver.
  - pose proof (consume_front_sub (lit "X") t2) as S3.
    destruct (consume_front (lit "X") t2) as [[] t3]; simpl in S3; [|done].
    apply all_of_opt_defined. intros c Hc. apply isHexDigit_defined. set_solver.
Qed.

(** A star or an underscore has no byte above 0x7F beside it: [prev] is whether
    the character before the text is ASCII, or there is none. *)
Fixpoint ascii_marks_from (prev : bool) (s : bytes) : bool :=
  match s with
  | [] => true
  | c :: s' =>
      (if ceq c "*" || ceq c "_"
       then prev && match s' with d :: _ => isASCII d | [] => true end
       else true) && ascii_marks_from (isASCII c) s'
  end.
Definition ascii_marks (s : bytes) : bool := ascii_marks_from true s.
Definition last_ascii (before : bytes) : bool := match last before with Some d => isASCII d | None => true end.

Lemma ctype_ascii c : isASCII c = true -> ctype_argument c = true.
Proof.
  unfold isASCII, ctype_argument, sval. intros H%Z.leb_le. pose proof (bval_range c).
  replace (bval c <? 128)%Z with true by lia. replace (0 <=? bval c)%Z with true by lia. done.
Qed.

Lemma surrounds_defined before after :
  last_ascii before = true -> (forall d, head after = Some d -> isASCII d = true) ->
  (exists b, SpaceSurrounds before after = Some b) /\ exists b, WordSurrounds before after = Some b.
Proof.
  unfold last_ascii, SpaceSurrounds, WordSurrounds, std_isspace, std_isalnum. intros Hb Ha.
  assert (Hl : forall d, last before = Some d -> ctype_argument d = true).
  { intros d Hd. rewrite Hd in Hb. by apply ctype_ascii. }
  assert (Hh : forall d, head after = Some d -> ctype_argument d = true) by (intros d Hd; by apply ctype_ascii, Ha).
  split; destruct (head after) as [a|], (last before) as [b|]; rewrite ?(Hl _ eq_refl), ?(Hh _ eq_refl);
    unfold and_then; repeat first [by eexists | destr_goal].
Qed.

Lemma RulerLength_head c before sl after d :
  head (RulerLength c before sl after).2 = Some d -> head after = Some d.
Proof.
  unfold RulerLength. destruct (negb sl || _); [done|]. cbn [snd].
  destruct (trim_right_spec " "%byte after) as (n & Hn & _). rewrite Hn at 2. by destruct (trim_right _ after).
Qed.

Lemma needsLeadingEscape_defined c before sl after :
  Byte.xff ∉ after ->
  (ceq c "*" || ceq c "_" = true -> last_ascii before = true /\ forall d, head after = Some d -> isASCII d = true) ->
  exists b, needsLeadingEscape c before sl after = Some b.
Proof.
  intros Hs Hm. pose proof (is_entity_defined after Hs) as He.
  assert (Hsur : ceq c "*" || ceq c "_" = true ->
    (exists b, SpaceSurrounds before (RulerLength c before sl after).2 = Some b) /\
    exists b, WordSurrounds before (RulerLength c before sl after).2 = Some b).
  { intros [Hb Ha]%Hm. apply surrounds_defined; [done|]. intros d Hd. by eapply Ha, RulerLength_head. }
  unfold needsLeadingEscape.
  destruct (ceq c "_") eqn:E1, (ceq c "*") eqn:E2; try (destruct Hsur as [[x Hx] [y Hy]]; [done|]);
    destruct (RulerLength c before sl after) as [r t]; cbn [snd] in *;
    rewrite ?Hx, ?Hy; unfold or_else; cbn [fmap option_fmap option_map];
    repeat first [by eexists | destr_goal].
  all: destruct (is_entity after); by eauto.
Qed.

Lemma needsLeadingEscape_punct c before sl after :
  needsLeadingEscape c before sl after = Some true -> is_punct c = true.
Proof.
  unfold needsLeadingEscape.
  repeat match goal with
  | |- context [ceq c ?d] =>
      let E := fresh in destruct (ceq c d) eqn:E; [apply ceq_true in E; subst c; intros; reflexivity|];
      cbn [orb]
  end. done.
Qed.

Lemma renderText_loop_reads_back sl before input R :
  renderText_loop sl before input = Some R -> unescape R = input /\ escapes_punct R = true.
Proof.
  revert before R. induction input as [|c after IH]; intros before R; cbn [renderText_loop]; [by intros [= <-]|].
  destruct (needsLeadingEscape c before sl after) as [b|] eqn:Hb; [|done].
  destruct (renderText_loop sl (before ++ [c]) after) as [R'|] eqn:HR; [|done]. intros [= <-].
  destruct (IH _ _ HR) as [Hu He]. destruct b.
  - apply needsLeadingEscape_punct in Hb. cbn [app unescape escapes_punct]. rewrite ceq_refl.
    by rewrite Hu, Hb.
  - cbn [app unescape escapes_punct]. destruct (ceq c "\") eqn:E; [|by rewrite Hu, He].
    apply ceq_true in E. subst c. unfold needsLeadingEscape in Hb. by rewrite ceq_refl in Hb.
Qed.

Lemma renderText_loop_defined sl before input :
  Byte.xff ∉ input -> ascii_marks_from (last_ascii before) input = true ->
  exists R, renderText_loop sl before input = Some R.
Proof.
  revert before. induction input as [|c after IH]; intros before Hin Hm; [by eexists|].
  cbn [renderText_loop]. cbn [ascii_marks_from] in Hm. apply andb_true_iff in Hm as [Hc Hm].
  destruct (needsLeadingEscape_defined c before sl after) as [b Hb]; [set_solver| |].
  { intros E. rewrite E in Hc. apply andb_true_iff in Hc as [H1 H2]. split; [done|].
    intros d Hd. destruct after; [done|]. by injection Hd as ->. }
  rewrite Hb. destruct (IH (before ++ [c])) as [R HR]; [set_solver| |by rewrite HR; eexists].
  unfold last_ascii. by rewrite last_snoc.
Qed.

(** C40. Reading the backslash escapes of a rendered text gives back the text,
    and every escape stands before ASCII punctuation, the only characters that
    markdown lets a backslash escape.  A text is rendered without undefined
    behaviour if it does not contain the byte 0xFF and no star or underscore
    in it has a byte above 0x7F beside it, so every ASCII text is; a star
    beside such a byte is undefined ([star_beside_utf8_undefined]). *)
Theorem renderText_reads_back (Input : bytes) (StartsLine : bool) :
  (forall R, renderText Input StartsLine = Some R -> unescape R = Input /\ escapes_punct R = true) /\
  (Byte.xff ∉ Input -> ascii_marks Input = true -> exists R, renderText Input StartsLine = Some R).
Proof.
  split; [intros R; apply renderText_loop_reads_back|apply (renderText_loop_defined StartsLine [])].
Qed.

Lemma renderText_reads_back_witness :
  renderText (lit "* a_b `x` <b> &amp; C:\d") true = Some (lit "\* a_b \`x\` \<b> \&amp; C:\\d")
  /\ exists R, renderText (lit "* a_b `x` <b> &amp; C:\d") true = Some R
    /\ unescape R = lit "* a_b `x` <b> &amp; C:\d" /\ escapes_punct R = true.
Proof.
  split; [reflexivity|]. destruct (renderText_reads_back (lit "* a_b `x` <b> &amp; C:\d") true) as [H1 H2].
  destruct H2 as [R HR]; [|reflexivity|exists R; split; [exact HR|exact (H1 R HR)]].
  intros H. assert (E : bool_decide (Byte.xff ∈ lit "* a_b `x` <b> &amp; C:\d") = false) by reflexivity.
  by apply bool_decide_eq_false in E.
Defined.

(** [needsLeadingEscape] asks [std::isspace] about a plain [char]: every byte
    from 0x80 to 0xFE behind a star, the first of a character of UTF-8 for
    example, is undefined behaviour where [char] is signed. *)
Theorem star_beside_utf8_undefined (c : byte) (rest : bytes) :
  (128 <= bval c < 255)%Z -> renderText ("*"%byte :: c :: rest) false = None.
Proof.
  intros Hc. unfold renderText. cbn [renderText_loop].
  assert (Hct : ctype_argument c = false).
  { unfold ctype_argument, sval. destruct (Z.ltb_spec (bval c) 128); lia. }
  unfold needsLeadingEscape. cbn -[ctype_argument]. unfold SpaceSurrounds, std_isspace. cbn -[ctype_argument].
  by rewrite Hct.
Qed.

Lemma star_beside_utf8_undefined_witness : renderText (lit "*" ++ [Byte.xc3; Byte.xa9]) false = None.
Proof. apply (star_beside_utf8_undefined Byte.xc3 [Byte.xa9]). vm_compute. split; discriminate || reflexivity. Defined.

(** A line of number signs only is a heading in markdown but is not escaped:
    [trim_left] leaves a run that fills the whole text. *)
Theorem hash_line_not_escaped (n : nat) :
  renderText (replicate (S (S n)) "#"%byte) true = Some (replicate (S (S n)) "#"%byte).
Proof.
  assert (G : forall m before, before <> [] ->
            renderText_loop true before (replicate m "#"%byte) = Some (replicate m "#"%byte)).
  { induction m as [|m IH]; intros before Hb; [done|]. cbn [replicate renderText_loop].
    unfold needsLeadingEscape. simpl. destruct before as [|x before]; [done|]. cbn [is_empty negb].
    by rewrite IH. }
  assert (H : needsLeadingEscape "#" [] true (replicate (S n) "#"%byte) = Some false).
  { unfold needsLeadingEscape. cbn -[trim_left start_with replicate].
    rewrite trim_left_blank, !start_with_starts. reflexivity. }
  change (replicate (S (S n)) "#"%byte) with ("#"%byte :: replicate (S n) "#"%byte).
  unfold renderText. cbn [renderText_loop]. rewrite H, G by done. done.
Qed.

(** ** Code spans *)

Definition tick : byte := "`"%byte.

(** The text with every backtick doubled. *)
Fixpoint doubled (s : bytes) : bytes :=
  match s with
  | [] => []
  | c :: s' => if ceq c tick then tick :: tick :: doubled s' else c :: doubled s'
  end.

Lemma doubled_app a b : doubled (a ++ b) = doubled a ++ doubled b.
Proof. induction a as [|c a IH]; simpl; [done|]. rewrite IH. by destruct (ceq c tick). Qed.

Lemma doubled_plain a : tick ∉ a -> doubled a = a.
Proof.
  induction a as [|c a IH]; simpl; intros Ha; [done|].
  destruct (ceq c tick) eqn:E; [apply ceq_true in E; set_solver|]. rewrite IH by set_solver. done.
Qed.

Lemma double_backticks_doubled fuel s : length s <= fuel -> double_backticks fuel s = doubled s.
Proof.
  revert s. induction fuel as [|fuel IH]; intros s Hf.
  - destruct s; [done|simpl in Hf; lia].
  - cbn [double_backticks]. destruct s as [|c s]; [done|].
    set (t := c :: s) in *. destruct (find_char "`" t) as [i|] eqn:E.
    + pose proof (find_pred_bound _ _ _ E) as Hb.
      apply find_pred_Some in E as [(d & Hd & Hcd) Hall]. apply ceq_true in Hcd as <-.
      rewrite IH by (rewrite length_drop; lia).
      rewrite <- (take_drop_middle _ _ _ Hd) at 3. rewrite doubled_app.
      rewrite (doubled_plain (take i t)); [reflexivity|]. intros Hin. rewrite Forall_forall in Hall.
      specialize (Hall _ Hin). discriminate Hall.
    + apply find_char_None in E. by rewrite doubled_plain.
Qed.

(** A markdown reader: behind the opening backtick, the span ends at the first
    run of exactly one backtick; [n] is the length of the current run. *)
Fixpoint span_close (n : nat) (before s : bytes) : option (bytes * bytes) :=
  match s with
  | [] => if n =? 1 then Some (before, []) else None
  | c :: s' => if ceq c tick then span_close (S n) before s'
               else if n =? 1 then Some (before, s)
               else span_close 0 (before ++ replicate n tick ++ [c]) s'
  end.

Definition code_span (s : bytes) : option (bytes * bytes) :=
  match s with
  | c :: s' => if ceq c tick && negb (start_with [tick] s') then span_close 0 [] s' else None
  | [] => None
  end.

Lemma tick_run n l : tick :: replicate n tick ++ l = replicate n tick ++ tick :: l.
Proof. induction n as [|n IH]; simpl; [done|by rewrite IH]. Qed.

Lemma span_close_doubled s : forall n before c r,
  Nat.Even n -> c <> tick ->
  span_close n before (doubled s ++ c :: r) = span_close 0 (before ++ replicate n tick ++ doubled s ++ [c]) r.
Proof.
  induction s as [|d s IH]; intros n before c r Hn Hc.
  - simpl. replace (ceq c tick) with false by (symmetry; by apply ceq_false).
    destruct (Nat.eqb_spec n 1) as [->|_]; [by inversion Hn; lia|]. done.
  - cbn [doubled]. destruct (ceq d tick) eqn:E.
    + cbn [app span_close]. rewrite !ceq_refl, IH.
      * f_equal. f_equal. cbn [replicate app]. by rewrite !tick_run.
      * destruct Hn as [k ->]. exists (S k). lia.
      * done.
    + cbn [app span_close]. rewrite E. destruct (Nat.eqb_spec n 1) as [->|_]; [by inversion Hn; lia|].
      rewrite IH by (done || by exists 0). f_equal. rewrite <- !app_assoc. done.
Qed.

(** Markdown ignores one space on either side of a span that is not blank. *)
Definition strip_span (s : bytes) : bytes :=
  if start_with (lit " ") s && end_with (lit " ") s && existsb (fun c => negb (ceq c " ")) s
  then pop_back (drop 1 s) else s.

Lemma doubled_blank s : existsb (fun c => negb (ceq c " ")) (doubled s) = existsb (fun c => negb (ceq c " ")) s.
Proof.
  induction s as [|c s IH]; [done|]. cbn [doubled]. destruct (ceq c tick) eqn:E; cbn [existsb]; rewrite IH; [|done].
  apply ceq_true in E. by subst c.
Qed.

Lemma end_with_single c s : end_with [c] s = back_is c s.
Proof.
  apply eq_true_iff_eq. rewrite end_with_spec, back_is_spec. done.
Qed.

Lemma doubled_last s : s <> [] -> end_with [tick] (doubled s) = false ->
  exists t c, s = t ++ [c] /\ doubled s = doubled t ++ [c] /\ c <> tick.
Proof.
  intros Hs He. destruct s as [|x s] using rev_ind; [done|]. clear IHs. exists s, x.
  rewrite doubled_app in *. cbn [doubled] in *. destruct (ceq x tick) eqn:E.
  - exfalso. replace (doubled s ++ [tick; tick]) with ((doubled s ++ [tick]) ++ [tick]) in He
      by (by rewrite <- app_assoc).
    rewrite end_with_single, back_is_app in He. done.
  - apply ceq_false in E. done.
Qed.

Lemma code_span_padded s : code_span (lit "` " ++ doubled s ++ lit " `") = Some (lit " " ++ doubled s ++ lit " ", []).
Proof.
  change (lit "` " ++ doubled s ++ lit " `") with (tick :: " "%byte :: doubled s ++ " "%byte :: [tick]).
  unfold code_span. rewrite ceq_refl, start_with_starts.
  change (span_close 0 [" "%byte] (doubled s ++ " "%byte :: [tick]) = Some (lit " " ++ doubled s ++ lit " ", [])).
  rewrite span_close_doubled by (done || by exists 0). reflexivity.
Qed.

Lemma strip_span_padded s :
  existsb (fun c => negb (ceq c " ")) s = true -> strip_span (lit " " ++ doubled s ++ lit " ") = doubled s.
Proof.
  intros H. unfold strip_span.
  replace (end_with (lit " ") (lit " " ++ doubled s ++ lit " ")) with true
    by (symmetry; apply end_with_spec; exists (lit " " ++ doubled s); by rewrite <- app_assoc).
  rewrite start_with_starts, existsb_app, existsb_app, doubled_blank, H, starts_with_app. cbn [andb orb existsb].
  replace (existsb (fun c => negb (ceq c " ")) (lit " ")) with false by reflexivity. cbn [orb].
  change (drop 1 (lit " " ++ doubled s ++ lit " ")) with (doubled s ++ [" "%byte]). apply pop_back_app.
Qed.

(** The rendering of inline code is one code span of markdown: it starts with
    the first backtick, no backtick of the code ends it early, it ends with
    the last one, and what the reader sees is the code with its backticks
    doubled, the padding removed. *)
Theorem inline_code_reads_back (Input : bytes) :
  existsb (fun c => negb (ceq c " ")) Input = true ->
  exists content, code_span (renderInlineBlock Input) = Some (content, [])
    /\ strip_span content = doubled Input.
Proof.
  intros Hb. unfold renderInlineBlock. rewrite double_backticks_doubled by done.
  change (lit "`") with [tick]. destruct (start_with [tick] (doubled Input) || _) eqn:E1.
  { eexists. split; [apply code_span_padded|by apply strip_span_padded]. }
  apply orb_false_iff in E1 as [E1 E2].
  destruct (start_with (lit " ") (doubled Input) && _) eqn:E3.
  { eexists. split; [apply code_span_padded|by apply strip_span_padded]. }
  destruct (doubled_last Input) as (t & c & Hs & Hd & Hc); [by intros ->|done|].
  exists (doubled Input). split.
  - rewrite start_with_starts in E1. unfold code_span. cbn [app]. rewrite ceq_refl, start_with_starts.
    rewrite starts_with_app_short, E1 by (rewrite Hd, length_app; simpl; lia). cbn [andb negb].
    rewrite Hd, <- app_assoc. cbn [app]. rewrite span_close_doubled by (done || by exists 0). reflexivity.
  - unfold strip_span. by rewrite E3.
Qed.

Lemma inline_code_reads_back_witness :
  renderInlineBlock (lit "a`b") = lit "`a``b`"
  /\ exists content, code_span (renderInlineBlock (lit "a`b")) = Some (content, [])
    /\ strip_span content = doubled (lit "a`b").
Proof. split; [reflexivity|]. apply (inline_code_reads_back (lit "a`b")). reflexivity. Defined.

(** ** Code blocks *)

Lemma backtick_run k : forall m b, foldl backtick_step (m, b) (replicate k tick) = (m, b + k).
Proof.
  induction k as [|k IH]; intros m b; simpl; [f_equal; lia|]. rewrite IH. f_equal. lia.
Qed.

Lemma backtick_mono s : forall m b, Nat.max m b <=
  Nat.max (foldl backtick_step (m, b) s).1 (foldl backtick_step (m, b) s).2.
Proof.
  induction s as [|c s IH]; intros m b; simpl; [lia|].
  destruct (ceq c "`"); (etransitivity; [|apply IH]); lia.
Qed.

(** The marker of a code block has at least three backticks and does not occur
    in the code, so no line of the code closes the block. *)
Theorem code_marker_absent (Contents : bytes) :
  3 <= length (getMarkerForCodeBlock Contents)
  /\ Forall (fun c => c = tick) (getMarkerForCodeBlock Contents)
  /\ find_sub (getMarkerForCodeBlock Contents) Contents = None.
Proof.
  unfold getMarkerForCodeBlock. destruct (foldl backtick_step (0, 0) Contents) as [m b] eqn:E.
  fold tick. rewrite length_replicate. split_and!; [lia|by apply Forall_replicate|].
  destruct (find_sub _ Contents) as [i|] eqn:F; [|done]. exfalso.
  apply find_sub_Some in F as (F & _). rewrite length_replicate in F.
  set (k := Nat.max 3 (Nat.max b m + 1)) in *.
  rewrite F, !foldl_app in E. destruct (foldl backtick_step (0, 0) (take i Contents)) as [m0 b0].
  rewrite backtick_run in E. pose proof (backtick_mono (drop (i + k) Contents) m0 (b0 + k)) as H.
  rewrite E in H. simpl in H. lia.
Qed.

(** ** White space *)

Lemma join_impl_join items sep : join_impl items sep = join sep items.
Proof.
  destruct items as [|x items]; [done|]. unfold join_impl. revert x.
  induction items as [|y items IH]; intros x; [done|]. cbn [foldl].
  rewrite join_cons, IH by done. destruct items; simpl; by rewrite <- ?app_assoc.
Qed.

Definition word (w : bytes) : Prop := w <> [] /\ Forall (fun c => isSpace c = false) w.

Lemma SplitWords_loop_words fuel s : Forall word (SplitWords_loop fuel s).
Proof.
  revert s. induction fuel as [|fuel IH]; intros s; simpl; [constructor|].
  destruct (find_pred _ s) as [st|] eqn:E; [|constructor].
  apply find_pred_Some in E as [(c & Hc & Hsp) _]. apply negb_true_iff in Hsp.
  rewrite (drop_S _ _ _ Hc). set (t := drop (S st) s).
  destruct (find_pred isSpace (c :: t)) as [e|] eqn:E2.
  - constructor; [|apply IH]. apply find_pred_Some in E2 as [(d & Hd & Hdsp) Hall]. split; [|done].
    destruct e; [simpl in Hd; congruence|done].
  - constructor; [|constructor]. split; [done|]. by apply find_pred_None in E2.
Qed.

Lemma filter_not_space_nil s : Forall (fun c => isSpace c = true) s -> filter (fun c => isSpace c = false) s = [].
Proof. induction 1 as [|c s Hc _ IH]; [done|]. by rewrite filter_cons_False by congruence. Qed.

Lemma filter_not_space_all s : Forall (fun c => isSpace c = false) s -> filter (fun c => isSpace c = false) s = s.
Proof. induction 1 as [|c s Hc _ IH]; [done|]. by rewrite filter_cons_True, IH. Qed.

Lemma SplitWords_loop_concat fuel s :
  length s < fuel -> concat (SplitWords_loop fuel s) = filter (fun c => isSpace c = false) s.
Proof.
  revert s. induction fuel as [|fuel IH]; intros s Hf; [lia|]. cbn [SplitWords_loop].
  destruct (find_pred _ s) as [st|] eqn:E.
  - pose proof (find_pred_bound _ _ _ E) as Hb. apply find_pred_Some in E as [(c & Hc & Hsp) Hall].
    apply negb_true_iff in Hsp.
    rewrite <- (take_drop st s) at 2. rewrite filter_app, filter_not_space_nil; cycle 1.
    { eapply Forall_impl; [exact Hall|]. simpl. intros d. apply negb_false_iff. }
    cbn [app]. rewrite (drop_S _ _ _ Hc). set (t := c :: drop (S st) s).
    destruct (find_pred isSpace t) as [e|] eqn:E2; cbn [concat].
    + pose proof (find_pred_bound _ _ _ E2) as Hb2. apply find_pred_Some in E2 as [(d & Hd & Hdsp) Hall2].
      rewrite IH.
      * rewrite <- (take_drop e t) at 3. by rewrite filter_app, (filter_not_space_all (take e t)).
      * destruct e; [simpl in Hd; congruence|]. rewrite length_drop. subst t.
        cbn [length] in *. rewrite length_drop in *. lia.
    + apply find_pred_None in E2. by rewrite app_nil_r, filter_not_space_all.
  - apply find_pred_None in E. rewrite filter_not_space_nil; [done|].
    eapply Forall_impl; [exact E|]. intros c. apply negb_false_iff.
Qed.

Lemma find_not_space_word w r : word w -> find_pred (fun c => negb (isSpace c)) (w ++ r) = Some 0.
Proof. intros [Hne Hw]. destruct w as [|c w]; [done|]. inversion Hw as [|? ? Hc]; subst. simpl. by rewrite Hc. Qed.

Lemma SplitWords_loop_cons fuel w r :
  word w -> SplitWords_loop (S fuel) (w ++ " "%byte :: r) = w :: SplitWords_loop fuel (" "%byte :: r).
Proof.
  intros Hw. cbn [SplitWords_loop]. rewrite find_not_space_word by done. rewrite drop_0.
  rewrite find_pred_app_r by apply Hw. cbn [find_pred]. replace (isSpace " ") with true by reflexivity.
  cbn [fmap option_fmap option_map]. by rewrite Nat.add_0_r, take_app_length, drop_app_length.
Qed.

Lemma SplitWords_loop_space fuel r : SplitWords_loop fuel (" "%byte :: r) = SplitWords_loop fuel r.
Proof.
  destruct fuel as [|fuel]; [done|]. cbn [SplitWords_loop find_pred].
  replace (negb (isSpace " ")) with false by reflexivity.
  by destruct (find_pred (fun c => negb (isSpace c)) r).
Qed.

Lemma SplitWords_loop_join fuel ws :
  Forall word ws -> length (join (lit " ") ws) < fuel -> SplitWords_loop fuel (join (lit " ") ws) = ws.
Proof.
  intros Hw. revert fuel. induction Hw as [|w ws Hw Hws IH]; intros fuel Hf.
  - by destruct fuel.
  - destruct fuel as [|fuel]; [lia|]. destruct ws as [|w' ws].
    + cbn [SplitWords_loop join]. rewrite <- (app_nil_r w) at 1. rewrite find_not_space_word by done.
      rewrite drop_0. destruct Hw as [_ Hw]. apply find_pred_None in Hw. by rewrite Hw.
    + rewrite join_cons in * by done. change (lit " " ++ join (lit " ") (w' :: ws))
        with (" "%byte :: join (lit " ") (w' :: ws)) in *.
      rewrite SplitWords_loop_cons, SplitWords_loop_space, IH; [done| |done].
      rewrite length_app in Hf. cbn [length] in Hf. assert (0 < length w) by (destruct Hw as [Hne _], w; [done|simpl; lia]). lia.
Qed.

Lemma canonical_words s :
  SplitWords (canonicalizeSpaces s) = SplitWords s /\ Forall word (SplitWords s).
Proof.
  unfold canonicalizeSpaces. rewrite join_impl_join. split.
  - apply SplitWords_loop_join; [apply SplitWords_loop_words|lia].
  - apply SplitWords_loop_words.
Qed.

Lemma join_items_impl_join Result sep items :
  join_items_impl Result sep items = Result ++ join sep items.
Proof.
  revert Result. induction items as [|x items IH]; intros Result; [by rewrite app_nil_r|].
  destruct items as [|y items]; [done|].
  change (join_items_impl Result sep (x :: y :: items)) with (join_items_impl ((Result ++ x) ++ sep) sep (y :: items)).
  rewrite IH, (join_cons sep x) by done.
  by rewrite <- !app_assoc.
Qed.

Lemma join_items_length sep items :
  items <> [] -> length (join sep items) = join_items_size items + (length items - 1) * length sep.
Proof.
  induction items as [|x items IH]; [done|]. intros _. destruct items as [|y items]; [cbn; lia|].
  rewrite join_cons, !length_app, IH by done.
  change (join_items_size (x :: y :: items)) with (length x + join_items_size (y :: items)). cbn [length]. lia.
Qed.

(** Both ways to join agree, and [join_items] reserves room for its result: it
    never has to allocate a second time. *)
Theorem join_items_join (Separator : bytes) (Items : list bytes) :
  join_items Separator Items = join_impl Items Separator /\
  (Items <> [] -> length (join_items Separator Items) + 1 = join_items_reserved Separator Items).
Proof.
  rewrite join_impl_join. assert (H : join_items Separator Items = join Separator Items)
    by (destruct Items; [done|apply join_items_impl_join]).
  split; [done|]. intros Hne. rewrite H, join_items_length by done. done.
Qed.

(** [canonicalizeSpaces] keeps the words of a text and separates them by one
    space each: splitting the result gives the same words, so it is
    idempotent; the words are the characters that are not white space, in
    order, and none is empty or contains white space. *)
Theorem canonicalizeSpaces_words (Input : bytes) :
  SplitWords (canonicalizeSpaces Input) = SplitWords Input
  /\ canonicalizeSpaces Input = join (lit " ") (SplitWords Input)
  /\ Forall word (SplitWords Input)
  /\ concat (SplitWords Input) = filter (fun c => isSpace c = false) Input.
Proof.
  destruct (canonical_words Input) as [H1 H2]. split_and!; [done| |done|].
  - apply join_impl_join.
  - apply SplitWords_loop_concat. lia.
Qed.

(** A character reference with the byte 0xFF reads beyond the digit table. *)
Lemma entity_ff_undefined : renderText (lit "&#x" ++ [Byte.xff] ++ lit ";") true = None.
Proof. reflexivity. Qed.
