(* ===== verification/Markup.v ===== *)
(** * Documents of the markup renderer

    The second half of src/lsp/Markup.cpp and include/LibLsp/lsp/Markup/Markup.h:
    paragraphs, headings, rulers, code blocks and bullet lists, and their
    rendering as markdown and as plain text.  A [Block] is the class hierarchy,
    a document the vector of its children; an output stream is the text
    written to it.  Assertions are compiled out; [indentLines_assertion] says
    when the one of [indentLines] would fail. *)
From S2P Require Import Prelude CppString Utils StringRef MarkupText.

Inductive ChunkKind := PlainText | InlineCode.

Record Chunk := mkChunk {
  Kind : ChunkKind;
  Preserve : bool;
  Contents : bytes;
  SpaceBefore : bool;
  SpaceAfter : bool
}.

Inductive Block :=
| Paragraph (Chunks : list Chunk)
| Heading (Level : nat) (Chunks : list Chunk)
| Ruler
| CodeBlock (code Language : bytes)
| BulletList (Items : list (list Block)).

Definition Document := list Block.

Definition isRuler (b : Block) : bool := match b with Ruler => true | _ => false end.

(** ** Building *)

Definition set_space_after (c : Chunk) : Chunk :=
  mkChunk (Kind c) (Preserve c) (Contents c) (SpaceBefore c) true.

Definition appendSpace (Chunks : list Chunk) : list Chunk :=
  match last Chunks with
  | Some c => take (length Chunks - 1) Chunks ++ [set_space_after c]
  | None => Chunks
  end.

(** [std::isspace] of the first and of the last character, see [std_isspace] *)
Definition front_is_space (s : bytes) : option bool := head s ≫= std_isspace.
Definition back_is_space (s : bytes) : option bool := last s ≫= std_isspace.

(** [None]: undefined, the text begins or ends with a byte from 0x80 to 0xFE *)
Definition appendText (Text : bytes) (Chunks : list Chunk) : option (list Chunk) :=
  match canonicalizeSpaces Text with
  | [] => Some Chunks
  | Norm =>
      match front_is_space Text, back_is_space Text with
      | Some before, Some after => Some (Chunks ++ [mkChunk PlainText false Norm before after])
      | _, _ => None
      end
  end.

Definition appendCode (Code : bytes) (Preserve : bool) (Chunks : list Chunk) : list Chunk :=
  let AdjacentCode := match last Chunks with
                      | Some c => match Kind c with InlineCode => true | PlainText => false end
                      | None => false
                      end in
  match canonicalizeSpaces Code with
  | [] => Chunks
  | Norm => Chunks ++ [mkChunk InlineCode Preserve Norm AdjacentCode false]
  end.

Definition addParagraph (d : Document) : Document := d ++ [Paragraph []].
Definition addHeading (Level : nat) (d : Document) : Document := d ++ [Heading Level []].
Definition addRuler (d : Document) : Document := d ++ [Ruler].
Definition addCodeBlock (Code Language : bytes) (d : Document) : Document := d ++ [CodeBlock Code Language].
Definition addBulletList (d : Document) : Document := d ++ [BulletList []].
Definition append_document (Other d : Document) : Document := d ++ Other.
Definition addItem (Items : list Document) : list Document := Items ++ [[]].

(** [clone]: [Heading] inherits the one of [Paragraph], which copies the
    paragraph part only. *)
Fixpoint clone (b : Block) : Block :=
  match b with
  | Paragraph cs => Paragraph cs
  | Heading _ cs => Paragraph cs
  | Ruler => Ruler
  | CodeBlock c l => CodeBlock c l
  | BulletList items => BulletList (map (map clone) items)
  end.

(** [Document::operator=] and the copy constructor *)
Definition copy_document (d : Document) : Document := map clone d.

(** ** Rendering *)

(** The chunk loop of a paragraph; [None] as in [renderText]. *)
Fixpoint paragraph_markdown (NeedsSpace HasChunks : bool) (Chunks : list Chunk) : option bytes :=
  match Chunks with
  | [] => Some (lit "  " ++ [LF])
  | C :: rest =>
      let space := if SpaceBefore C || NeedsSpace then lit " " else [] in
      match (match Kind C with
             | PlainText => renderText (Contents C) (negb HasChunks)
             | InlineCode => Some (renderInlineBlock (Contents C))
             end), paragraph_markdown (SpaceAfter C) true rest with
      | Some text, Some more => Some (space ++ text ++ more)
      | _, _ => None
      end
  end.

Fixpoint chooseMarker_loop (Options : list bytes) (Text : bytes) : option bytes :=
  match Options with
  | [] => None
  | mark :: rest => match find_pred (fun c => bool_decide (c ∈ mark)) Text with
                    | None => Some mark
                    | Some _ => chooseMarker_loop rest Text
                    end
  end.

(** [Options] is not empty. *)
Definition chooseMarker (Options : list bytes) (Text : bytes) : bytes :=
  match chooseMarker_loop Options Text with Some mark => mark | None => default [] (head Options) end.

Definition quote_mark : bytes := [Byte.x22].

Fixpoint paragraph_plain (NeedsSpace : bool) (Chunks : list Chunk) : bytes :=
  match Chunks with
  | [] => [LF]
  | C :: rest =>
      let space := if SpaceBefore C || NeedsSpace then lit " " else [] in
      let Marker := match Preserve C, Kind C with
                    | true, InlineCode => chooseMarker [lit "`"; lit "'"; quote_mark] (Contents C)
                    | _, _ => []
                    end in
      space ++ Marker ++ Contents C ++ Marker ++ paragraph_plain (SpaceAfter C) rest
  end.

Fixpoint indentLines (Input : bytes) : bytes :=
  match Input with
  | [] => []
  | c :: s => c :: (if ceq c LF then lit "  " else []) ++ indentLines s
  end.

(** [copy_if] with the text read so far: a character is dropped when the text
    up to it ends with three newlines. *)
Fixpoint copy_lines (seen s : bytes) : bytes :=
  match s with
  | [] => []
  | c :: s' =>
      let upto := seen ++ [c] in
      (if end_with [LF; LF; LF] upto then [] else [c]) ++ copy_lines upto s'
  end.

(** [renderBlocks] on the children with their rendered text: rulers are
    removed, and then the loop skips a ruler behind a ruler. *)
Fixpoint render_loop (LastBlockWasRuler : bool) (Children : list (bool * bytes)) : bytes :=
  match Children with
  | [] => []
  | (ruler, text) :: rest =>
      if ruler && LastBlockWasRuler then render_loop LastBlockWasRuler rest
      else text ++ render_loop ruler rest
  end.

Definition renderBlocks (Children : list (bool * bytes)) : bytes :=
  let Children := filter (fun c => c.1 = false) Children in
  copy_lines [] (trim " " (render_loop true Children)).

(** One item of a bullet list. *)
Definition item_text (D : bytes) : bytes := lit "- " ++ indentLines D ++ [LF].

Fixpoint renderPlainText (b : Block) : bytes :=
  match b with
  | Paragraph cs | Heading _ cs => paragraph_plain false cs
  | Ruler => [LF]
  | CodeBlock code _ => [LF] ++ code ++ [LF; LF]
  | BulletList items =>
      concat (map (fun D => item_text (renderBlocks (map (fun c => (isRuler c, renderPlainText c)) D))) items)
  end.

(** [None] when one of them is. *)
Fixpoint sequence {A} (l : list (option A)) : option (list A) :=
  match l with
  | [] => Some []
  | Some x :: l' => match sequence l' with Some r => Some (x :: r) | None => None end
  | None :: _ => None
  end.

Definition renderBlocks_opt (Children : list (bool * option bytes)) : option bytes :=
  match sequence (map snd Children) with
  | Some texts => Some (renderBlocks (zip (map fst Children) texts))
  | None => None
  end.

Fixpoint renderMarkdown (b : Block) : option bytes :=
  match b with
  | Paragraph cs => paragraph_markdown false false cs
  | Heading Level cs =>
      match paragraph_markdown false false cs with
      | Some t => Some (replicate Level "#"%byte ++ lit " " ++ t)
      | None => None
      end
  | Ruler => Some ([LF] ++ lit "---" ++ [LF])
  | CodeBlock code Language =>
      let Marker := getMarkerForCodeBlock code in
      Some (Marker ++ Language ++ [LF] ++ code ++ [LF] ++ Marker ++ [LF])
  | BulletList items =>
      match sequence (map (fun D => renderBlocks_opt (map (fun c => (isRuler c, renderMarkdown c)) D)) items) with
      | Some texts => Some (concat (map item_text texts) ++ [LF])
      | None => None
      end
  end.

(** [Document::asMarkdown] and [Document::asPlainText] *)
Definition asMarkdown (d : Document) : option bytes :=
  renderBlocks_opt (map (fun c => (isRuler c, renderMarkdown c)) d).
Definition asPlainText (d : Document) : bytes :=
  renderBlocks (map (fun c => (isRuler c, renderPlainText c)) d).

(** [Block::asMarkdown] and [Block::asPlainText] *)
Definition Block_asMarkdown (b : Block) : option bytes := trim " " <$> renderMarkdown b.
Definition Block_asPlainText (b : Block) : bytes := c_str (trim " " (renderPlainText b)).

(** ** Paragraphs: adjacent code spans are kept apart *)

Inductive append_op := AppendText (t : bytes) | AppendCode (c : bytes) (preserve : bool) | AppendSpace.

Definition run_append (op : append_op) (cs : list Chunk) : option (list Chunk) :=
  match op with
  | AppendText t => appendText t cs
  | AppendCode c p => Some (appendCode c p cs)
  | AppendSpace => Some (appendSpace cs)
  end.
Fixpoint run_appends (ops : list append_op) (cs : list Chunk) : option (list Chunk) :=
  match ops with [] => Some cs | op :: ops' => run_append op cs ≫= run_appends ops' end.
(** The texts begin and end with ASCII characters *)
Definition ascii_ends (op : append_op) : bool :=
  match op with
  | AppendText t => match head t, last t with Some a, Some b => isASCII a && isASCII b | _, _ => true end
  | _ => true
  end.

Definition is_code (c : Chunk) : bool := match Kind c with InlineCode => true | PlainText => false end.

(** The contents of a chunk are words separated by single spaces. *)
Definition chunk_ok (c : Chunk) : Prop :=
  Contents c <> [] /\ canonicalizeSpaces (Contents c) = Contents c.

Definition separated (cs : list Chunk) : Prop :=
  forall i a b, cs !! i = Some a -> cs !! S i = Some b -> is_code a = true -> is_code b = true ->
    SpaceBefore b = true.

Definition paragraph_ok (cs : list Chunk) : Prop := Forall chunk_ok cs /\ separated cs.

Lemma canonical_ok t : canonicalizeSpaces t <> [] ->
  canonicalizeSpaces (canonicalizeSpaces t) = canonicalizeSpaces t.
Proof.
  intros _. destruct (canonical_words t) as [H1 H2]. unfold canonicalizeSpaces at 1. by rewrite H1.
Qed.

Lemma separated_snoc cs c :
  separated cs -> (forall a, last cs = Some a -> is_code a = true -> is_code c = true -> SpaceBefore c = true) ->
  separated (cs ++ [c]).
Proof.
  intros Hs Hl i a b Ha Hb. apply lookup_app_Some in Hb as [Hb|[Hi Hb]].
  - apply lookup_lt_Some in Hb as Hlt. rewrite lookup_app_l in Ha by lia. by eapply Hs.
  - destruct (S i - length cs) eqn:E; [|done]. injection Hb as <-.
    rewrite lookup_app_l in Ha by lia. apply Hl. rewrite last_lookup. by replace (Init.Nat.pred (length cs)) with i by lia.
Qed.

Lemma appendSpace_lookup cs i a :
  appendSpace cs !! i = Some a ->
  exists a', cs !! i = Some a' /\ Kind a = Kind a' /\ Contents a = Contents a' /\ SpaceBefore a = SpaceBefore a'.
Proof.
  unfold appendSpace. destruct (last cs) as [c|] eqn:E; [|by eauto 10].
  apply last_Some in E as [l ->]. rewrite length_app, take_app_le, take_ge by (simpl; lia).
  intros [H|[Hi H]]%lookup_app_Some.
  - exists a. rewrite lookup_app_l by (by eapply lookup_lt_Some). done.
  - destruct (i - length l) eqn:Ei; [|done]. injection H as <-. exists c.
    rewrite lookup_app_r, Ei by done. done.
Qed.

Lemma run_append_defined op cs : ascii_ends op = true -> exists cs', run_append op cs = Some cs'.
Proof.
  destruct op as [t|t p|]; cbn [run_append ascii_ends]; [|by eexists..]. intros H. unfold appendText.
  destruct (canonicalizeSpaces t) as [|x n] eqn:E; [by eexists|]. unfold front_is_space, back_is_space, std_isspace.
  destruct t as [|a t]; [done|]. destruct (last (a :: t)) as [b|] eqn:El; [|by apply last_None in El].
  cbn [head] in *. apply andb_true_iff in H as [Ha Hb]. cbn [mbind option_bind].
  rewrite !ctype_ascii by done. by eexists.
Qed.

Lemma run_append_ok op cs cs' : run_append op cs = Some cs' -> paragraph_ok cs -> paragraph_ok cs'.
Proof.
  intros Hop [Hc Hs]. destruct op as [t|t p|]; cbn [run_append] in Hop.
  - unfold appendText in Hop. destruct (canonicalizeSpaces t) as [|x n] eqn:E; [by injection Hop as <-|].
    destruct (front_is_space t), (back_is_space t); try done. injection Hop as <-.
    pose proof (canonical_ok t) as H. rewrite E in H. split.
    + apply Forall_app. split; [done|]. constructor; [|done]. split; [done|by apply H].
    + apply separated_snoc; [done|]. by intros a _ _ [=].
  - injection Hop as <-. unfold appendCode. destruct (canonicalizeSpaces t) as [|x n] eqn:E; [done|].
    pose proof (canonical_ok t) as H. rewrite E in H. split.
    + apply Forall_app. split; [done|]. constructor; [|done]. split; [done|by apply H].
    + apply separated_snoc; [done|]. intros a Ha Hk _. simpl. rewrite Ha. unfold is_code in Hk.
      by destruct (Kind a).
  - injection Hop as <-. split.
    + apply Forall_lookup. intros i a Ha. apply appendSpace_lookup in Ha as (a' & Ha' & _ & HC & _).
      rewrite Forall_lookup in Hc. apply Hc in Ha'. unfold chunk_ok in *. by rewrite HC.
    + intros i a b Ha Hb Ka Kb. apply appendSpace_lookup in Ha as (a' & Ha' & HKa & _).
      apply appendSpace_lookup in Hb as (b' & Hb' & HKb & _ & ->).
      unfold is_code in *. rewrite HKa in Ka. rewrite HKb in Kb. by apply (Hs i a' b').
Qed.

(** However a paragraph is built, its chunks hold words separated by single
    spaces, none is empty, and two adjacent code spans have a space between
    them (markdown cannot render them otherwise).  Building is defined for
    texts that begin and end with ASCII characters. *)
Theorem paragraph_invariant (ops : list append_op) :
  (forall cs, run_appends ops [] = Some cs -> paragraph_ok cs) /\
  (forallb ascii_ends ops = true -> exists cs, run_appends ops [] = Some cs).
Proof.
  assert (H0 : paragraph_ok []) by (split; [constructor|]; intros i a b H; by rewrite lookup_nil in H).
  revert H0. generalize (@nil Chunk). induction ops as [|op ops IH]; intros cs0 H0; cbn [run_appends forallb].
  - split; [by intros cs [= <-]|by eexists].
  - split.
    + intros cs (cs1 & H1 & H2)%bind_Some. by apply (IH cs1); [eapply run_append_ok|].
    + intros [Ho Hs]%andb_true_iff. destruct (run_append_defined op cs0 Ho) as [cs1 H1].
      rewrite H1. cbn [mbind option_bind]. apply (IH cs1); [by eapply run_append_ok|done].
Qed.

(** ** Blank lines *)

(** Runs of newlines cut to two; [n] newlines stand directly before [s]. *)
Fixpoint cut_runs (n : nat) (s : bytes) : bytes :=
  match s with
  | [] => []
  | c :: s' => if ceq c LF then (if 2 <=? n then [] else [c]) ++ cut_runs (S n) s' else c :: cut_runs 0 s'
  end.

Fixpoint trailing_lfs (n : nat) (s : bytes) : nat :=
  match s with [] => n | c :: s' => trailing_lfs (if ceq c LF then S n else 0) s' end.

Lemma trailing_lfs_app n a b : trailing_lfs n (a ++ b) = trailing_lfs (trailing_lfs n a) b.
Proof. revert n. induction a as [|c a IH]; intros n; simpl; [done|]. apply IH. Qed.

Lemma end_with_lf3 seen c :
  end_with [LF; LF; LF] (seen ++ [c]) = ceq c LF && (2 <=? trailing_lfs 0 seen).
Proof.
  apply eq_true_iff_eq. rewrite end_with_spec, andb_true_iff, ceq_true. split.
  - intros [r Hr]. change (r ++ [LF; LF; LF]) with (r ++ [LF; LF] ++ [LF]) in Hr. rewrite app_assoc in Hr.
    apply app_inj_tail in Hr as [-> ->]. split; [done|]. rewrite trailing_lfs_app. simpl. done.
  - intros [-> Hn]. destruct seen as [|b s _] using rev_ind; [done|].
    rewrite trailing_lfs_app in Hn. simpl in Hn. destruct (ceq b LF) eqn:Eb; [|done].
    destruct s as [|a r _] using rev_ind; [done|].
    rewrite trailing_lfs_app in Hn. simpl in Hn. destruct (ceq a LF) eqn:Ea; [|done].
    apply ceq_true in Ea, Eb. subst. exists r. by rewrite <- !app_assoc.
Qed.

Lemma copy_lines_cut seen s : copy_lines seen s = cut_runs (trailing_lfs 0 seen) s.
Proof.
  revert seen. induction s as [|c s IH]; intros seen; [done|]. cbn [copy_lines cut_runs].
  rewrite end_with_lf3, IH, trailing_lfs_app. simpl.
  destruct (ceq c LF); [|done]. by destruct (2 <=? trailing_lfs 0 seen).
Qed.

(** No run of three newlines, after [n] newlines. *)
Fixpoint runs_ok (n : nat) (s : bytes) : bool :=
  match s with
  | [] => true
  | c :: s' => if ceq c LF then (n <? 2) && runs_ok (S n) s' else runs_ok 0 s'
  end.

Lemma runs_ok_weaken n m s : m <= n -> runs_ok n s = true -> runs_ok m s = true.
Proof.
  revert n m. induction s as [|c s IH]; intros n m Hm; simpl; [done|].
  destruct (ceq c LF); [|done]. rewrite !andb_true_iff, !Nat.ltb_lt. intros [Hn H].
  split; [lia|]. eapply IH; [|exact H]. lia.
Qed.

Lemma runs_ok_absent s : runs_ok 0 s = true -> find_sub [LF; LF; LF] s = None.
Proof.
  induction s as [|c s IH]; intros H; [done|]. cbn [find_sub].
  replace (starts_with [LF; LF; LF] (c :: s)) with false.
  - rewrite IH; [done|]. simpl in H. destruct (ceq c LF); [|done].
    eapply runs_ok_weaken; [|exact H]. lia.
  - symmetry. apply not_true_iff_false. intros [r Hr]%starts_with_exists. rewrite Hr in H. discriminate H.
Qed.

Lemma cut_runs_ok n s : runs_ok (n `min` 2) (cut_runs n s) = true.
Proof.
  revert n. induction s as [|c s IH]; intros n; [done|]. cbn [cut_runs].
  destruct (ceq c LF) eqn:E; [|simpl; rewrite E; apply (IH 0)].
  destruct (Nat.leb_spec 2 n).
  - simpl. specialize (IH (S n)). rewrite Nat.min_r in * by lia. done.
  - cbn [app runs_ok]. rewrite E. specialize (IH (S n)).
    rewrite Nat.min_l in * by lia. rewrite IH. destruct (Nat.ltb_spec n 2); [done|lia].
Qed.

Lemma renderBlocks_lines Children : find_sub [LF; LF; LF] (renderBlocks Children) = None.
Proof.
  unfold renderBlocks. rewrite copy_lines_cut. apply runs_ok_absent. apply (cut_runs_ok 0).
Qed.

Lemma cut_runs_last n s :
  last s = Some LF -> last (cut_runs n s) = Some LF \/ (cut_runs n s = [] /\ 2 <= n).
Proof.
  revert n. induction s as [|c s IH]; intros n Hl; [done|].
  change (cut_runs n (c :: s)) with
    (if ceq c LF then (if 2 <=? n then [] else [c]) ++ cut_runs (S n) s else c :: cut_runs 0 s).
  destruct s as [|d s].
  - injection Hl as ->. rewrite ceq_refl. destruct (Nat.leb_spec 2 n); [by right|by left].
  - rewrite last_cons_cons in Hl. specialize (IH (if ceq c LF then S n else 0) Hl).
    destruct (ceq c LF) eqn:E; [apply ceq_true in E as ->|].
    + destruct (cut_runs (S n) (d :: s)) as [|x t]; destruct (Nat.leb_spec 2 n), IH as [Hx|[Hx H2]];
        try done; try (by left); by right.
    + destruct IH as [H|[H H2]]; [|lia]. left. by rewrite last_cons, H.
Qed.

(** ** Documents *)

Lemma renderBlocks_snoc_lf Children text :
  last text = Some LF -> last (renderBlocks (Children ++ [(false, text)])) = Some LF.
Proof.
  intros Hl. unfold renderBlocks. rewrite filter_app. cbn [filter].
  set (cs := filter _ Children).
  assert (Hr : forall cs b, exists pre, render_loop b (cs ++ [(false, text)]) = pre ++ text).
  { clear. induction cs as [|[r t] cs IH]; intros b.
    - exists []. simpl. by rewrite app_nil_r.
    - cbn [app render_loop]. destruct (r && b); [apply IH|]. destruct (IH r) as [pre ->].
      exists (t ++ pre). by rewrite app_assoc. }
  replace (filter (fun c : bool * bytes => c.1 = false) [(false, text)]) with [(false, text)] by done.
  destruct (Hr cs true) as [pre ->]. rewrite copy_lines_cut.
  apply last_Some in Hl as [t ->].
  destruct (trim_strips " " (pre ++ t ++ [LF])) as (a & b & Hs & Hh & Hb).
  destruct b as [|b].
  - cbn [replicate] in Hs. rewrite app_nil_r in Hs.
    assert (Hlast : last (trim " " (pre ++ t ++ [LF])) = Some LF).
    { destruct (trim " " (pre ++ t ++ [LF])) as [|x r] using rev_ind.
      - rewrite app_nil_r in Hs. apply (f_equal last) in Hs. rewrite !app_assoc, last_snoc in Hs.
        destruct a; [done|]. rewrite replicate_S_end, last_snoc in Hs. discriminate Hs.
      - apply (f_equal last) in Hs. rewrite !app_assoc, !last_snoc in Hs. by rewrite last_snoc. }
    destruct (cut_runs_last 0 _ Hlast) as [H|[_ H]]; [done|lia].
  - apply (f_equal last) in Hs. rewrite replicate_S_end, !app_assoc, !last_snoc in Hs. discriminate Hs.
Qed.

Lemma paragraph_plain_last ns cs : last (paragraph_plain ns cs) = Some LF.
Proof.
  revert ns. induction cs as [|c cs IH]; intros ns; [done|]. cbn [paragraph_plain].
  by rewrite !last_app, IH.
Qed.

Lemma sequence_app {A} (l1 l2 : list (option A)) :
  sequence (l1 ++ l2) = match sequence l1, sequence l2 with Some a, Some b => Some (a ++ b) | _, _ => None end.
Proof.
  induction l1 as [|[x|] l1 IH]; simpl; [by destruct (sequence l2)| |done].
  rewrite IH. destruct (sequence l1), (sequence l2); done.
Qed.

Lemma sequence_length {A} (l : list (option A)) r : sequence l = Some r -> length r = length l.
Proof.
  revert r. induction l as [|[x|] l IH]; simpl; intros r H; [by injection H as <-| |done].
  destruct (sequence l) as [t|]; [|done]. injection H as <-. simpl. by rewrite (IH t).
Qed.

Lemma renderBlocks_opt_ruler c1 c2 text :
  renderBlocks_opt (c1 ++ (true, Some text) :: c2) = renderBlocks_opt (c1 ++ c2).
Proof.
  unfold renderBlocks_opt. rewrite !map_app. cbn [map fst snd]. rewrite !sequence_app. cbn [sequence].
  destruct (sequence (map snd c1)) as [t1|] eqn:E1; [|done].
  destruct (sequence (map snd c2)) as [t2|] eqn:E2; [|done].
  apply sequence_length in E1. rewrite length_map in E1.
  unfold renderBlocks. rewrite !zip_with_app by (by rewrite length_map).
  cbn [zip_with]. by rewrite !filter_app, filter_cons_False.
Qed.

(** No rendering of a document has two blank lines in a row, and rulers, which
    should separate blocks, leave no trace in it. *)
Theorem document_lines (d1 d2 : Document) :
  find_sub [LF; LF; LF] (asPlainText d1) = None
  /\ (forall t, asMarkdown d1 = Some t -> find_sub [LF; LF; LF] t = None)
  /\ asPlainText (d1 ++ Ruler :: d2) = asPlainText (d1 ++ d2)
  /\ asMarkdown (d1 ++ Ruler :: d2) = asMarkdown (d1 ++ d2).
Proof.
  split_and!.
  - apply renderBlocks_lines.
  - intros t. unfold asMarkdown, renderBlocks_opt. destruct (sequence _); [|done].
    intros [= <-]. apply renderBlocks_lines.
  - unfold asPlainText. rewrite !map_app. cbn [map isRuler]. unfold renderBlocks.
    by rewrite !filter_app, filter_cons_False.
  - unfold asMarkdown. rewrite !map_app. cbn [map isRuler renderMarkdown]. apply renderBlocks_opt_ruler.
Qed.

(** Copying a document turns its headings into paragraphs. *)
Theorem copy_loses_headings :
  exists d t t', asMarkdown d = Some t /\ asMarkdown (copy_document d) = Some t' /\ t <> t'.
Proof.
  exists [Heading 2 [mkChunk PlainText false (lit "Title") false false]]. do 2 eexists.
  split; [vm_compute; reflexivity|]. split; [vm_compute; reflexivity|]. discriminate.
Qed.

(** A document without headings is copied faithfully. *)
Fixpoint no_heading (b : Block) : bool :=
  match b with
  | Heading _ _ => false
  | BulletList items => forallb (forallb no_heading) items
  | _ => true
  end.

Lemma map_id_forallb {A} (f : A -> A) (p : A -> bool) (l : list A) :
  (forall x, p x = true -> f x = x) -> forallb p l = true -> map f l = l.
Proof.
  intros H. induction l as [|x l IH]; simpl; [done|]. intros [Hx Hl]%andb_true_iff.
  by rewrite H, IH.
Qed.

Fixpoint clone_id (b : Block) : no_heading b = true -> clone b = b.
Proof.
  destruct b as [cs|n cs| |c l|items]; simpl; try done. intros H. f_equal.
  induction items as [|d items IH]; [done|]. simpl in H. apply andb_true_iff in H as [Hd Hi].
  simpl. rewrite IH by done. f_equal.
  clear -clone_id Hd. induction d as [|b d IHd]; [done|]. simpl in Hd. apply andb_true_iff in Hd as [Hb Hd].
  simpl. by rewrite clone_id, IHd.
Qed.

Theorem copy_without_headings (d : Document) :
  forallb no_heading d = true -> copy_document d = d.
Proof. apply map_id_forallb. intros b. apply clone_id. Qed.

(** Texts without the byte 0xFF and without a star or an underscore beside a byte
    above 0x7F *)
Definition clean_chunk (c : Chunk) : bool := bool_decide (Byte.xff ∉ Contents c) && ascii_marks (Contents c).
Fixpoint clean (b : Block) : bool :=
  match b with
  | Paragraph cs | Heading _ cs => forallb clean_chunk cs
  | BulletList items => forallb (forallb clean) items
  | _ => true
  end.

Lemma paragraph_markdown_total ns hc cs :
  forallb clean_chunk cs = true -> exists t, paragraph_markdown ns hc cs = Some t /\ last t = Some LF.
Proof.
  revert ns hc. induction cs as [|c cs IH]; intros ns hc H.
  { eexists. split; [reflexivity|done]. }
  simpl in H. apply andb_true_iff in H as [[Hc Hm]%andb_true_iff H]. apply bool_decide_eq_true in Hc.
  destruct (IH (SpaceAfter c) true H) as (t & Ht & Hl). cbn [paragraph_markdown]. rewrite Ht.
  destruct (Kind c).
  - destruct (renderText_loop_defined (negb hc) [] (Contents c) Hc Hm) as [R HR].
    unfold renderText. rewrite HR. eexists. split; [done|]. by rewrite !last_app, Hl.
  - eexists. split; [done|]. by rewrite !last_app, Hl.
Qed.

Lemma sequence_total {A B} (f : A -> option B) (l : list A) :
  (forall x, x ∈ l -> exists y, f x = Some y) -> exists r, sequence (map f l) = Some r.
Proof.
  induction l as [|x l IH]; intros H; [by exists []|]. simpl.
  destruct (H x) as [y ->]; [left|]. destruct IH as [r ->]; [|by eexists].
  intros z Hz. apply H. by right.
Qed.

Lemma map_snd_pair (f : Block -> option bytes) (d : Document) :
  map snd (map (fun c => (isRuler c, f c)) d) = map f d.
Proof. by rewrite map_map. Qed.

Fixpoint renderMarkdown_total (b : Block) : clean b = true -> exists t, renderMarkdown b = Some t.
Proof.
  destruct b as [cs|n cs| |c l|items]; simpl; intros H.
  - destruct (paragraph_markdown_total false false cs H) as (t & -> & _). by eexists.
  - destruct (paragraph_markdown_total false false cs H) as (t & -> & _). by eexists.
  - by eexists.
  - by eexists.
  - assert (exists r, sequence (map (fun D => renderBlocks_opt (map (fun c => (isRuler c, renderMarkdown c)) D)) items)
              = Some r) as [r ->]; [|by eexists].
    induction items as [|d items IH]; [by exists []|]. simpl in H. apply andb_true_iff in H as [Hd Hi].
    cbn [map sequence]. destruct (IH Hi) as [r ->].
    assert (exists t, renderBlocks_opt (map (fun c => (isRuler c, renderMarkdown c)) d) = Some t) as [t ->];
      [|by eexists].
    assert (exists ts, sequence (map renderMarkdown d) = Some ts) as [ts Hts].
    { clear -renderMarkdown_total Hd. induction d as [|b d IHd]; [by exists []|].
      simpl in Hd. apply andb_true_iff in Hd as [Hb Hd]. cbn [map sequence].
      destruct (renderMarkdown_total b Hb) as [t ->], (IHd Hd) as [ts ->]. by eexists. }
    unfold renderBlocks_opt. rewrite map_snd_pair, Hts. by eexists.
Qed.

(** Every document whose texts do not contain the byte 0xFF, nor a star or an
    underscore beside a byte above 0x7F, is rendered; one that ends with a
    paragraph is rendered with a newline at its end, in both formats, although
    neither is documented to have one: [trim] removes spaces only. *)
Theorem paragraph_trailing_newline (d : Document) (cs : list Chunk) :
  forallb clean d = true -> forallb clean_chunk cs = true ->
  (exists t, asMarkdown (d ++ [Paragraph cs]) = Some t /\ last t = Some LF)
  /\ last (asPlainText (d ++ [Paragraph cs])) = Some LF.
Proof.
  intros Hd Hcs. split.
  - unfold asMarkdown, renderBlocks_opt. rewrite !map_app, map_snd_pair. cbn [map snd fst renderMarkdown isRuler].
    destruct (paragraph_markdown_total false false cs Hcs) as (t & Ht & Hl). rewrite Ht.
    rewrite sequence_app. cbn [sequence].
    destruct (sequence_total renderMarkdown d) as [ts Hts].
    { intros b Hb. apply renderMarkdown_total. rewrite forallb_forall in Hd. by apply Hd, list_elem_of_In. }
    rewrite Hts. eexists. split; [done|].
    rewrite zip_with_app by (apply sequence_length in Hts; by rewrite !length_map in *).
    apply renderBlocks_snoc_lf, Hl.
  - unfold asPlainText. rewrite map_app. apply renderBlocks_snoc_lf, paragraph_plain_last.
Qed.

Lemma paragraph_trailing_newline_witness :
  (exists t, asMarkdown ([Ruler] ++ [Paragraph [mkChunk PlainText false (lit "text") false false]]) = Some t /\ last t = Some LF)
  /\ last (asPlainText ([Ruler] ++ [Paragraph [mkChunk PlainText false (lit "text") false false]])) = Some LF.
Proof. by apply (paragraph_trailing_newline [Ruler] [mkChunk PlainText false (lit "text") false false]). Defined.

(** The assertion of [indentLines] that its input does not end with a newline
    fails for every list item that ends with a paragraph. *)
Lemma indentLines_assertion (d : Document) (cs : list Chunk) :
  end_with [LF] (asPlainText (d ++ [Paragraph cs])) = true.
Proof.
  apply end_with_spec. unfold asPlainText. rewrite map_app.
  apply last_Some, renderBlocks_snoc_lf, paragraph_plain_last.
Qed.
