(* ===== verification/Uri.v ===== *)
(** * URIs and paths

    The percent codecs and the [Uri] type of src/lsp/uri.cpp, and the
    [file:] URI conversions behind [lsDocumentUri] in src/lsp/lsp.cpp (POSIX
    build).  [getcwd] and [stat] are the operating-system calls of path
    normalisation. *)
From S2P Require Import Prelude CppString Utils.

(** ** Character classes *)

Definition is_alnum (c : byte) : bool :=
  ((48 <=? bval c)%Z && (bval c <=? 57)%Z) || is_drive_letter c.

(** [IsUnreserved] (uri.cpp) *)
Definition IsUnreserved (c : byte) : bool :=
  is_alnum c || ceq c "-" || ceq c "_" || ceq c "." || ceq c "~".

Definition IsTestPathSafe (c : byte) : bool := IsUnreserved c || ceq c "/" || ceq c ":".

(** [IsUnreservedUriPathByte] (lsp.cpp) *)
Definition IsUnreservedUriPathByte (c : byte) : bool :=
  ((97 <=? bval c)%Z && (bval c <=? 122)%Z) || ((65 <=? bval c)%Z && (bval c <=? 90)%Z)
  || ((48 <=? bval c)%Z && (bval c <=? 57)%Z) || ceq c "-" || ceq c "." || ceq c "_" || ceq c "~".

Definition IsHex (c : byte) : bool :=
  ((48 <=? bval c)%Z && (bval c <=? 57)%Z) || ((97 <=? bval c)%Z && (bval c <=? 102)%Z)
  || ((65 <=? bval c)%Z && (bval c <=? 70)%Z).

Definition HexValue (c : byte) : Z :=
  if (48 <=? bval c)%Z && (bval c <=? 57)%Z then bval c - 48
  else if (97 <=? bval c)%Z && (bval c <=? 102)%Z then bval c - 97 + 10
  else bval c - 65 + 10.

(** The [hex] lambda of [percent_decode_uri_component]: -1 when not a digit. *)
Definition hex_lambda (c : byte) : Z :=
  if (48 <=? bval c)%Z && (bval c <=? 57)%Z then bval c - 48
  else if (65 <=? bval c)%Z && (bval c <=? 70)%Z then bval c - 65 + 10
  else if (97 <=? bval c)%Z && (bval c <=? 102)%Z then bval c - 97 + 10
  else -1.

(** [hex[n]] of the table "0123456789ABCDEF" *)
Definition hex_table (n : Z) : byte := default NUL (lit "0123456789ABCDEF" !! Z.to_nat n).

(** The three characters [%XX] of a byte. *)
Definition percent (c : byte) : bytes :=
  ["%"%byte; hex_table (Z.shiftr (bval c) 4); hex_table (Z.land (bval c) 15)].

(** ** Codecs *)

Definition percent_encode_uri_component (value : bytes) : bytes :=
  concat (map (fun c => if IsUnreserved c then [c] else percent c) value).

Definition PercentEncodeTestPath (value : bytes) : bytes :=
  concat (map (fun c => if IsTestPathSafe c then [c] else percent c) value).

Definition PercentEncodeFilePath (path : bytes) : bytes :=
  concat (map (fun c => if ceq c "/" || IsUnreservedUriPathByte c then [c] else percent c) path).

(** The three-byte window is present exactly when [i + 2 < value.size()]. *)
Fixpoint percent_decode_uri_component (value : bytes) : bytes :=
  match value with
  | [] => []
  | c :: s =>
      match s with
      | h :: l :: rest =>
          if ceq c "%" && (0 <=? hex_lambda h)%Z && (0 <=? hex_lambda l)%Z
          then byte_of (Z.lor (Z.shiftl (hex_lambda h) 4) (hex_lambda l))
               :: percent_decode_uri_component rest
          else c :: percent_decode_uri_component s
      | _ => c :: percent_decode_uri_component s
      end
  end.

Fixpoint PercentDecodeFilePath (value : bytes) : bytes :=
  match value with
  | [] => []
  | c :: s =>
      let plain := if ceq c "\" then "/"%byte else c in
      match s with
      | h :: l :: rest =>
          if ceq c "%" && IsHex h && IsHex l
          then byte_of (Z.shiftl (HexValue h) 4 + HexValue l) :: PercentDecodeFilePath rest
          else plain :: PercentDecodeFilePath s
      | _ => plain :: PercentDecodeFilePath s
      end
  end.

(** ** File URIs (lsp.cpp) *)

Definition IsWindowsDrivePath (path : bytes) : bool :=
  match path with
  | c0 :: c1 :: _ => ceq c1 ":" && is_drive_letter c0
  | _ => false
  end.

Definition to_lower (c : byte) : byte :=
  if (65 <=? bval c)%Z && (bval c <=? 90)%Z then byte_of (bval c - 65 + 97) else c.

Definition equal_ignore_case (lhs rhs : byte) : bool := ceq (to_lower lhs) (to_lower rhs).

Definition StartsWithFileScheme (uri : bytes) : bool :=
  match uri with
  | u0 :: u1 :: u2 :: u3 :: u4 :: u5 :: u6 :: _ =>
      equal_ignore_case u0 "f" && equal_ignore_case u1 "i" && equal_ignore_case u2 "l"
      && equal_ignore_case u3 "e" && ceq u4 ":" && ceq u5 "/" && ceq u6 "/"
  | _ => false
  end.

Definition IsLocalhostAuthority (authority : bytes) : bool :=
  bool_decide (length authority = 9) && bool_decide (map to_lower authority = lit "localhost").

Definition NormalizePathSeparators (path : bytes) : bytes := replace_char "\" "/" path.

Definition IsAbsoluteFilePath (path : bytes) : bool :=
  match path with c :: _ => ceq c "/" | [] => false end || IsWindowsDrivePath path.

Definition StripUriPathSuffix (path : bytes) : bytes :=
  match find_pred (fun c => ceq c "?" || ceq c "#") path with
  | None => path
  | Some suffix => substr path 0 suffix
  end.

Definition MakeFileUriFromPath (path0 : bytes) : bytes :=
  let path := NormalizePathSeparators path0 in
  let path := if IsAbsoluteFilePath path then path else "/"%byte :: path in
  let encoded_path := PercentEncodeFilePath path in
  if IsWindowsDrivePath path then lit "file:///" ++ encoded_path
  else if bool_decide (take 2 encoded_path = lit "//") then lit "file:" ++ encoded_path
  else lit "file://" ++ encoded_path.

Definition RawPathFromFileUri (uri : bytes) : bytes :=
  if negb (StartsWithFileScheme uri) then uri
  else
    let tail := drop 7 uri in
    let '(authority, path) :=
      match find_pred (fun c => ceq c "/" || ceq c "?" || ceq c "#") tail with
      | None => (tail, [])
      | Some i =>
          if bool_decide (tail !! i = Some "/"%byte)
          then (take i tail, StripUriPathSuffix (drop i tail))
          else (take i tail, [])
      end in
    if negb (bool_decide (authority = [])) && negb (IsLocalhostAuthority authority)
    then PercentDecodeFilePath (lit "//" ++ authority ++ path)
    else PercentDecodeFilePath path.

Definition make_file_scheme_uri (absolute_path : bytes) : bytes := MakeFileUriFromPath absolute_path.

Record lsDocumentUri := mkDocumentUri { raw_uri_ : bytes }.

#[export] Instance lsDocumentUri_eq_dec : EqDecision lsDocumentUri.
Proof. solve_decision. Defined.

(** [lsDocumentUri::SetPath] on a fresh value, as in [FromPath] and the
    constructor from a path *)
Definition lsDocumentUri_FromPath (path : AbsolutePath) : lsDocumentUri :=
  mkDocumentUri (if valid path then MakeFileUriFromPath (path_ path) else []).

Definition GetRawPath (u : lsDocumentUri) : bytes := RawPathFromFileUri (raw_uri_ u).

Section WithOS.
Context (getcwd : bytes) (stat : bytes -> option bool).

Definition GetAbsolutePath (u : lsDocumentUri) : AbsolutePath :=
  if StartsWithFileScheme (raw_uri_ u) then NormalizePath getcwd stat (GetRawPath u) false
  else AbsolutePath_empty.
End WithOS.

(** ** [Uri] (uri.cpp) *)

Record Uri := mkUri { raw : bytes }.

Fixpoint strip_leading_slashes (path : bytes) : bytes :=
  match path with
  | c :: rest => if ceq c "/" then strip_leading_slashes rest else path
  | [] => []
  end.

Definition NormalizeTestPath (path : bytes) : bytes :=
  strip_leading_slashes (replace_char "\" "/" path).

Definition Uri_from_raw (uri : bytes) : Uri := mkUri uri.

Definition Uri_from_file_path (path : AbsolutePath) : Uri :=
  mkUri (make_file_scheme_uri (path_ path)).

Definition Uri_from_test_path (path : bytes) : Uri :=
  mkUri (lit "test:///" ++ PercentEncodeTestPath (NormalizeTestPath path)).

Definition scheme (u : Uri) : bytes :=
  match find_char ":" (raw u) with None => [] | Some pos => substr (raw u) 0 pos end.

Definition body (u : Uri) : bytes :=
  match find_sub (lit "://") (raw u) with None => raw u | Some pos => drop (pos + 3) (raw u) end.

Definition is_test_scheme (u : Uri) : bool := bool_decide (scheme u = lit "test").

Section UriPaths.
Context (getcwd : bytes) (stat : bytes -> option bool).

Definition to_absolute_path (u : Uri) : AbsolutePath :=
  if bool_decide (scheme u = lit "file") then GetAbsolutePath getcwd stat (mkDocumentUri (raw u))
  else if bool_decide (scheme u = lit "test") then
    let path := percent_decode_uri_component (body u) in
    let path := match path with
                | c :: _ => if ceq c "/" then path else "/"%byte :: path
                | [] => "/"%byte :: path
                end in
    AbsolutePath_of getcwd stat path
  else AbsolutePath_empty.
End UriPaths.

(** ** Lemmas *)

(** Facts checked on all 256 bytes. *)
Lemma percent_lambda_table c :
  (0 <=? hex_lambda (hex_table (Z.shiftr (bval c) 4)))%Z
  && (0 <=? hex_lambda (hex_table (Z.land (bval c) 15)))%Z
  && ceq (byte_of (Z.lor (Z.shiftl (hex_lambda (hex_table (Z.shiftr (bval c) 4))) 4)
       (hex_lambda (hex_table (Z.land (bval c) 15))))) c = true.
Proof. revert c. apply byte_forall. vm_compute. reflexivity. Qed.

Lemma percent_hex_table c :
  IsHex (hex_table (Z.shiftr (bval c) 4)) && IsHex (hex_table (Z.land (bval c) 15))
  && ceq (byte_of (Z.shiftl (HexValue (hex_table (Z.shiftr (bval c) 4))) 4
       + HexValue (hex_table (Z.land (bval c) 15)))) c = true.
Proof. revert c. apply byte_forall. vm_compute. reflexivity. Qed.

Definition plain_uri_byte (c : byte) : bool :=
  negb (ceq c "%") && negb (ceq c "\") && negb (ceq c "?") && negb (ceq c "#").

Lemma unreserved_plain c : implb (IsTestPathSafe c) (plain_uri_byte c) = true.
Proof. revert c. apply byte_forall. vm_compute. reflexivity. Qed.

Lemma file_byte_plain c :
  implb (ceq c "/" || IsUnreservedUriPathByte c) (plain_uri_byte c) = true.
Proof. revert c. apply byte_forall. vm_compute. reflexivity. Qed.

Lemma hex_table_plain c :
  let f d := plain_uri_byte d && negb (ceq d "/") && negb (ceq d ":") in
  f (hex_table (Z.shiftr (bval c) 4)) && f (hex_table (Z.land (bval c) 15)) = true.
Proof. revert c. apply byte_forall. vm_compute. reflexivity. Qed.

Lemma decode_plain c s : ceq c "%" = false ->
  percent_decode_uri_component (c :: s) = c :: percent_decode_uri_component s.
Proof. intros H. simpl. rewrite H. destruct s as [|h [|l rest]]; done. Qed.

Lemma decode_percent c s :
  percent_decode_uri_component (percent c ++ s) = c :: percent_decode_uri_component s.
Proof.
  pose proof (percent_lambda_table c) as H. apply andb_true_iff in H as [H1 H2].
  unfold percent. cbn [app percent_decode_uri_component].
  change (ceq "%" "%") with true. cbn [andb]. rewrite H1. f_equal. by apply ceq_true.
Qed.

(** Any encoder that leaves only non-percent bytes alone is inverted. *)
Lemma decode_encode (safe : byte -> bool) s :
  (forall c, safe c = true -> ceq c "%" = false) ->
  percent_decode_uri_component
    (concat (map (fun c => if safe c then [c] else percent c) s)) = s.
Proof.
  intros Hs. induction s as [|c s IH]; [done|]. cbn [map concat].
  destruct (safe c) eqn:E.
  - cbn [app]. rewrite decode_plain by auto. by rewrite IH.
  - rewrite decode_percent. by rewrite IH.
Qed.

Lemma file_decode_plain c s : ceq c "%" = false -> ceq c "\" = false ->
  PercentDecodeFilePath (c :: s) = c :: PercentDecodeFilePath s.
Proof. intros H H'. simpl. rewrite H, H'. destruct s as [|h [|l rest]]; done. Qed.

Lemma file_decode_percent c s :
  PercentDecodeFilePath (percent c ++ s) = c :: PercentDecodeFilePath s.
Proof.
  pose proof (percent_hex_table c) as H. apply andb_true_iff in H as [H1 H2].
  unfold percent. cbn [app PercentDecodeFilePath].
  change (ceq "%" "%") with true. cbn [andb]. rewrite H1. f_equal. by apply ceq_true.
Qed.

Lemma test_safe_not_percent c : IsTestPathSafe c = true -> ceq c "%" = false.
Proof.
  intros H. pose proof (unreserved_plain c) as H'. rewrite H in H'. simpl in H'.
  unfold plain_uri_byte in H'. char_cases. by apply ceq_false.
Qed.

Lemma file_path_decode_encode p : PercentDecodeFilePath (PercentEncodeFilePath p) = p.
Proof.
  unfold PercentEncodeFilePath. induction p as [|c p IH]; [done|]. cbn [map concat].
  pose proof (file_byte_plain c) as H.
  destruct (ceq c "/" || IsUnreservedUriPathByte c).
  - simpl in H. unfold plain_uri_byte in H. char_cases.
    cbn [app]. rewrite file_decode_plain by (by apply ceq_false). by rewrite IH.
  - rewrite file_decode_percent. by rewrite IH.
Qed.

(** *** Encoded paths contain no delimiter *)

Lemma encode_app p q :
  PercentEncodeFilePath (p ++ q) = PercentEncodeFilePath p ++ PercentEncodeFilePath q.
Proof. unfold PercentEncodeFilePath. by rewrite map_app, concat_app. Qed.

Lemma encode_slash q : PercentEncodeFilePath ("/"%byte :: q) = "/"%byte :: PercentEncodeFilePath q.
Proof. done. Qed.

Lemma encode_no_suffix p :
  Forall (fun c => ceq c "?" || ceq c "#" = false) (PercentEncodeFilePath p).
Proof.
  induction p as [|c p IH]; [constructor|]. unfold PercentEncodeFilePath. cbn [map concat].
  apply Forall_app. split; [|exact IH].
  pose proof (file_byte_plain c) as H. pose proof (hex_table_plain c) as H'.
  unfold plain_uri_byte in *.
  destruct (ceq c "/" || IsUnreservedUriPathByte c); simpl in H; char_cases.
  - repeat constructor. apply orb_false_iff. split; by apply ceq_false.
  - repeat constructor; apply orb_false_iff; split; by apply ceq_false.
Qed.

Lemma encode_no_slash p : "/"%byte ∉ p -> "/"%byte ∉ PercentEncodeFilePath p.
Proof.
  induction p as [|c p IH]; intros Hp; [done|].
  apply not_elem_of_cons in Hp as [Hc Hp]. unfold PercentEncodeFilePath. cbn [map concat].
  rewrite not_elem_of_app. split; [|by apply IH].
  pose proof (hex_table_plain c) as H'. cbv zeta in H'.
  destruct (ceq c "/" || IsUnreservedUriPathByte c); char_cases.
  - rewrite list_elem_of_singleton. congruence.
  - unfold percent. rewrite !not_elem_of_cons.
    repeat split; solve [congruence|done|apply not_elem_of_nil].
Qed.

Lemma encode_no_percent p :
  "%"%byte ∉ PercentEncodeFilePath p -> PercentEncodeFilePath p = p.
Proof.
  induction p as [|c p IH]; [done|]. unfold PercentEncodeFilePath. cbn [map concat].
  rewrite not_elem_of_app. intros [H1 H2].
  destruct (ceq c "/" || IsUnreservedUriPathByte c).
  - simpl. f_equal. by apply IH.
  - destruct H1. unfold percent. rewrite elem_of_cons. by left.
Qed.

Lemma encode_nonempty p : p <> [] -> PercentEncodeFilePath p <> [].
Proof.
  destruct p as [|c p]; [done|]. intros _. unfold PercentEncodeFilePath. cbn [map concat].
  by destruct (ceq c "/" || IsUnreservedUriPathByte c).
Qed.

Lemma lower_percent : to_lower "%" = "%"%byte.
Proof. done. Qed.

Lemma encode_localhost host :
  IsLocalhostAuthority host = false -> IsLocalhostAuthority (PercentEncodeFilePath host) = false.
Proof.
  intros H. destruct (decide ("%"%byte ∈ PercentEncodeFilePath host)) as [Hin|Hno].
  - unfold IsLocalhostAuthority. apply andb_false_iff. right. apply bool_decide_eq_false.
    intros Hm. assert ("%"%byte ∈ lit "localhost") as Hbad.
    { rewrite <- Hm. apply list_elem_of_fmap. eauto using lower_percent. }
    revert Hbad. apply (bool_decide_unpack _). vm_compute. exact I.
  - by rewrite encode_no_percent.
Qed.

Lemma strip_encoded p : StripUriPathSuffix (PercentEncodeFilePath p) = PercentEncodeFilePath p.
Proof.
  unfold StripUriPathSuffix. pose proof (encode_no_suffix p) as H.
  apply find_pred_None in H. by rewrite H.
Qed.

Lemma no_backslash_normal p : "\"%byte ∉ p -> NormalizePathSeparators p = p.
Proof.
  unfold NormalizePathSeparators, replace_char. induction p as [|c p IH]; [done|].
  rewrite not_elem_of_cons. intros [H1 H2]. rewrite fmap_cons, IH by done.
  replace (ceq c "\") with false by (symmetry; apply ceq_false; congruence). done.
Qed.

(** ** Properties *)

(** Both percent codecs are inverses on every byte string: decoding an
    encoded URI component, test path or file path returns the original. *)
Theorem percent_roundtrip (s : bytes) :
  percent_decode_uri_component (percent_encode_uri_component s) = s /\
  percent_decode_uri_component (PercentEncodeTestPath s) = s /\
  PercentDecodeFilePath (PercentEncodeFilePath s) = s.
Proof.
  split; [|split; [|apply file_path_decode_encode]].
  - apply decode_encode. intros c H. apply test_safe_not_percent.
    unfold IsTestPathSafe. by rewrite H.
  - apply decode_encode, test_safe_not_percent.
Qed.

(** Paths whose file URI denotes them again: rooted at one slash, or at two
    followed by an authority other than localhost; no backslash. *)
Definition uri_path (p : bytes) : bool :=
  bool_decide ("\"%byte ∉ p) &&
  match p with
  | c0 :: rest => ceq c0 "/" &&
      match rest with
      | c1 :: r => if ceq c1 "/" then
                     let host := take (default (length r) (find_char "/" r)) r in
                     negb (bool_decide (host = [])) && negb (IsLocalhostAuthority host)
                   else true
      | [] => true
      end
  | [] => false
  end.

Lemma take_until_slash r :
  exists host tail, r = host ++ tail /\ ("/"%byte ∉ host) /\
    (tail = [] \/ exists t, tail = "/"%byte :: t) /\
    take (default (length r) (find_char "/" r)) r = host.
Proof.
  destruct (find_char "/" r) as [i|] eqn:E; simpl.
  - apply find_pred_Some in E as [(c & Hc & Hs) HF]. apply ceq_true in Hs. subst c.
    exists (take i r), (drop i r). rewrite take_drop. split; [done|]. split.
    + intros Hin. rewrite Forall_forall in HF. specialize (HF _ Hin). by rewrite ceq_refl in HF.
    + split; [right; exists (drop (S i) r); by apply drop_S|done].
  - apply find_char_None in E. exists r, []. rewrite app_nil_r. split; [done|].
    split; [done|]. split; [by left|]. rewrite take_ge by (simpl; lia). done.
Qed.

Lemma delim_pred_no_slash h :
  "/"%byte ∉ h -> Forall (fun c => ceq c "?" || ceq c "#" = false) h ->
  Forall (fun c => ceq c "/" || ceq c "?" || ceq c "#" = false) h.
Proof.
  intros Hs HF. rewrite Forall_forall in *. intros c Hc. specialize (HF c Hc).
  replace (ceq c "/") with false; [done|]. symmetry. apply ceq_false. intros ->. done.
Qed.

Lemma raw_path_rooted rest :
  match rest with c1 :: _ => ceq c1 "/" = false | [] => True end ->
  take 2 (PercentEncodeFilePath ("/"%byte :: rest)) <> lit "//" /\
  RawPathFromFileUri (lit "file://" ++ PercentEncodeFilePath ("/"%byte :: rest)) = "/"%byte :: rest.
Proof.
  intros Hr. split.
  - rewrite encode_slash. destruct rest as [|c1 rest]; [done|].
    unfold PercentEncodeFilePath. cbn [map concat].
    destruct (ceq c1 "/" || IsUnreservedUriPathByte c1); simpl.
    + apply ceq_false in Hr. intros [= ->]. done.
    + done.
  - unfold RawPathFromFileUri. change (StartsWithFileScheme _) with true. cbn [negb].
    change (drop 7 _) with (PercentEncodeFilePath ("/"%byte :: rest)).
    rewrite encode_slash. cbn [find_pred]. change (ceq "/" "/") with true. cbn [orb].
    rewrite bool_decide_eq_true_2 by done. cbn [take drop].
    rewrite <- encode_slash, strip_encoded. rewrite bool_decide_eq_true_2 by done.
    cbn [negb andb]. apply file_path_decode_encode.
Qed.

Lemma raw_path_authority host tail :
  ("/"%byte ∉ host) -> host <> [] -> IsLocalhostAuthority host = false ->
  (tail = [] \/ exists t, tail = "/"%byte :: t) ->
  RawPathFromFileUri (lit "file:" ++ PercentEncodeFilePath (lit "//" ++ host ++ tail))
  = lit "//" ++ host ++ tail.
Proof.
  intros Hs Hne Hl Ht. unfold RawPathFromFileUri.
  change (StartsWithFileScheme _) with true. cbn [negb].
  change (drop 7 _) with (PercentEncodeFilePath (host ++ tail)).
  rewrite encode_app.
  pose proof (encode_nonempty host Hne) as Hene.
  pose proof (encode_localhost host Hl) as Hel.
  pose proof (delim_pred_no_slash _ (encode_no_slash host Hs) (encode_no_suffix host)) as HF.
  assert (Hfin : PercentDecodeFilePath (lit "//" ++ PercentEncodeFilePath host
    ++ PercentEncodeFilePath tail) = lit "//" ++ host ++ tail).
  { rewrite <- encode_app. exact (file_path_decode_encode (lit "//" ++ host ++ tail)). }
  rewrite find_pred_app_r by done.
  destruct Ht as [-> |[t ->]].
  - change (PercentEncodeFilePath []) with (@nil byte) in *.
    cbn [find_pred fmap option_fmap option_map]. rewrite app_nil_r in *. cbn beta iota.
    rewrite Hel, (bool_decide_eq_false_2 (PercentEncodeFilePath host = [])) by exact Hene.
    rewrite app_nil_r. exact Hfin.
  - rewrite encode_slash in *. cbn [find_pred]. change (ceq "/" "/") with true. cbn [orb].
    cbn [fmap option_fmap option_map]. rewrite Nat.add_0_r.
    rewrite list_lookup_middle, bool_decide_eq_true_2 by done.
    rewrite take_app_length, drop_app_length. rewrite <- encode_slash, strip_encoded.
    cbn beta iota. rewrite Hel, (bool_decide_eq_false_2 (PercentEncodeFilePath host = [])) by exact Hene.
    exact Hfin.
Qed.

Lemma make_file_uri_unix p :
  "\"%byte ∉ p -> IsUnixAbsolutePath p = true ->
  MakeFileUriFromPath p =
  if bool_decide (take 2 (PercentEncodeFilePath p) = lit "//")
  then lit "file:" ++ PercentEncodeFilePath p else lit "file://" ++ PercentEncodeFilePath p.
Proof.
  intros Hb Ha. unfold MakeFileUriFromPath. rewrite no_backslash_normal by done.
  destruct p as [|c p]; [done|]. simpl in Ha. apply ceq_true in Ha. subst c.
  unfold IsAbsoluteFilePath. rewrite ceq_refl. cbn [orb].
  replace (IsWindowsDrivePath ("/"%byte :: p)) with false; [done|].
  unfold IsWindowsDrivePath. destruct p; [done|]. by rewrite andb_false_r.
Qed.

Lemma raw_of_file_uri (p : bytes) :
  uri_path p = true -> RawPathFromFileUri (MakeFileUriFromPath p) = p.
Proof.
  unfold uri_path. intros H. apply andb_true_iff in H as [Hb H]. apply bool_decide_eq_true in Hb.
  destruct p as [|c0 rest]; [done|]. apply andb_true_iff in H as [Hc0 H].
  rewrite make_file_uri_unix by done. apply ceq_true in Hc0. subst c0.
  destruct rest as [|c1 r].
  - exact (proj2 (raw_path_rooted [] I)).
  - destruct (ceq c1 "/") eqn:E1.
    + apply ceq_true in E1. subst c1.
      destruct (take_until_slash r) as (host & tail & -> & Hs & Ht & Hh).
      rewrite Hh in H. char_cases.
      rewrite bool_decide_eq_true_2 by done. by apply (raw_path_authority host tail).
    + destruct (raw_path_rooted (c1 :: r)) as [H1 H2]; [done|].
      by rewrite bool_decide_eq_false_2.
Qed.

Lemma normal_idempotent p : NormalizePathSeparators (NormalizePathSeparators p) = NormalizePathSeparators p.
Proof.
  unfold NormalizePathSeparators, replace_char. rewrite map_map. apply map_ext. intros c.
  by destruct (ceq c "\") eqn:E; [|rewrite E].
Qed.

(** C16. The file URI made of a path denotes the path again, its backslashes
    turned into slashes, so a path without backslashes denotes itself.  This
    holds for every path that, with slashes for backslashes, is rooted at one
    slash, or at two slashes followed by a host that is neither empty nor
    localhost ([uri_path]); relative paths, which are made absolute, and paths
    with a drive letter, which come back behind a slash, are not among them. *)
Theorem file_uri_roundtrip (p : bytes) :
  uri_path (NormalizePathSeparators p) = true ->
  RawPathFromFileUri (MakeFileUriFromPath p) = NormalizePathSeparators p /\
  ("\"%byte ∉ p -> RawPathFromFileUri (MakeFileUriFromPath p) = p).
Proof.
  intros H. assert (Hr : RawPathFromFileUri (MakeFileUriFromPath p) = NormalizePathSeparators p).
  { transitivity (RawPathFromFileUri (MakeFileUriFromPath (NormalizePathSeparators p))); [|by apply raw_of_file_uri].
    unfold MakeFileUriFromPath. by rewrite normal_idempotent. }
  split; [done|]. intros Hb. by rewrite Hr, no_backslash_normal.
Qed.

Lemma file_uri_roundtrip_witness :
  RawPathFromFileUri (MakeFileUriFromPath (lit "//srv/a b#c")) = lit "//srv/a b#c" /\
  RawPathFromFileUri (MakeFileUriFromPath (lit "/a\b")) = lit "/a/b".
Proof.
  split.
  - apply (proj2 (file_uri_roundtrip (lit "//srv/a b#c") eq_refl)). apply (bool_decide_eq_true_1 _). reflexivity.
  - exact (proj1 (file_uri_roundtrip (lit "/a\b") eq_refl)).
Defined.

(** A valid normalised path survives the trip through [lsDocumentUri]:
    [GetAbsolutePath] of its URI is the path itself, so the open-file table is
    keyed consistently. *)
Theorem document_uri_roundtrip getcwd stat (p : bytes) :
  uri_path p = true ->
  canonical_path p = p ->
  GetAbsolutePath getcwd stat (lsDocumentUri_FromPath (FromNormalized p)) = mkAbsolutePath p.
Proof.
  intros Hu Hc.
  assert (Ha : IsUnixAbsolutePath p = true).
  { unfold uri_path in Hu. apply andb_true_iff in Hu as [_ Hu]. destruct p; [done|].
    by apply andb_true_iff in Hu as [? _]. }
  assert (Habs : IsAbsolutePath p = true) by (unfold IsAbsolutePath; by rewrite Ha).
  unfold FromNormalized. rewrite Habs. unfold lsDocumentUri_FromPath, valid. simpl. rewrite Habs.
  unfold GetAbsolutePath, GetRawPath. simpl.
  replace (StartsWithFileScheme (MakeFileUriFromPath p)) with true.
  - rewrite raw_of_file_uri by done. rewrite NormalizePath_unix by done. by rewrite Hc.
  - unfold uri_path in Hu. apply andb_true_iff in Hu as [Hb _]. apply bool_decide_eq_true in Hb.
    rewrite make_file_uri_unix by done. case_bool_decide as Ht; [|done].
    destruct (PercentEncodeFilePath p) as [|d0 [|d1 q]]; cbn in Ht; try discriminate Ht.
    injection Ht as -> ->. reflexivity.
Qed.

Lemma document_uri_roundtrip_witness :
  GetAbsolutePath [] (fun _ => None) (lsDocumentUri_FromPath (FromNormalized (lit "/w s/x.cpp")))
  = mkAbsolutePath (lit "/w s/x.cpp").
Proof. apply document_uri_roundtrip; reflexivity. Defined.

Lemma test_uri_scheme p : scheme (Uri_from_test_path p) = lit "test".
Proof. reflexivity. Qed.

Lemma test_uri_body p :
  body (Uri_from_test_path p) = "/"%byte :: PercentEncodeTestPath (NormalizeTestPath p).
Proof. reflexivity. Qed.

(** A test URI is recognised as such and resolves to the canonical path
    of the (slash-normalised) test path it was made of, whatever bytes the
    path contains. *)
Theorem test_uri_roundtrip getcwd stat (p : bytes) :
  is_test_scheme (Uri_from_test_path p) = true /\
  to_absolute_path getcwd stat (Uri_from_test_path p)
  = mkAbsolutePath (canonical_path ("/"%byte :: NormalizeTestPath p)).
Proof.
  split; [reflexivity|]. unfold to_absolute_path. rewrite test_uri_scheme, test_uri_body.
  rewrite bool_decide_eq_false_2 by discriminate. rewrite bool_decide_eq_true_2 by done.
  rewrite decode_plain by done. rewrite ceq_refl. unfold PercentEncodeTestPath.
  rewrite decode_encode by apply test_safe_not_percent. unfold AbsolutePath_of.
  change (IsAbsolutePath ("/"%byte :: _)) with true. by rewrite NormalizePath_unix.
Qed.
