(* ===== verification/PathMapping.v ===== *)
(** * Path mapping

    src/lsp/path_mapping.cpp: the ordered list of client/server prefixes and
    the two remapping directions. *)
From S2P Require Import Prelude CppString Utils Uri.

Definition IsPathSeparator (c : byte) : bool := ceq c "/" || ceq c "\".

Definition MatchesPathPrefix (value prefix : bytes) : bool :=
  if negb (StartsWith value prefix) then false
  else if length value =? length prefix then true
  else if bool_decide (prefix = []) then false
  else if match last prefix with Some c => IsPathSeparator c | None => false end then true
  else match value !! length prefix with Some c => IsPathSeparator c | None => false end.

Definition RemapPrefix (value from_prefix to_prefix : bytes) : bytes :=
  if negb (MatchesPathPrefix value from_prefix) then value
  else to_prefix ++ drop (length from_prefix) value.

Record PathMappingEntry := mkEntry { client_prefix : bytes; server_prefix : bytes }.

(** [PathMapping::entries_] *)
Abbreviation PathMapping := (list PathMappingEntry).

Definition PathMapping_add (entries : PathMapping) (c s : bytes) : PathMapping :=
  entries ++ [mkEntry c s].

Fixpoint client_to_server (entries : PathMapping) (client_path : bytes) : bytes :=
  match entries with
  | [] => client_path
  | entry :: rest =>
      let remapped := RemapPrefix client_path (client_prefix entry) (server_prefix entry) in
      if negb (bool_decide (remapped = client_path)) then remapped
      else client_to_server rest client_path
  end.

Fixpoint server_to_client (entries : PathMapping) (server_path : bytes) : bytes :=
  match entries with
  | [] => server_path
  | entry :: rest =>
      let remapped := RemapPrefix server_path (server_prefix entry) (client_prefix entry) in
      if negb (bool_decide (remapped = server_path)) then remapped
      else server_to_client rest server_path
  end.

Section Remap.
Context (getcwd : bytes) (stat : bytes -> option bool).

Definition remap_uri_to_server (entries : PathMapping) (client_uri : lsDocumentUri) : lsDocumentUri :=
  let uri := Uri_from_raw (raw_uri_ client_uri) in
  if is_test_scheme uri then lsDocumentUri_FromPath (to_absolute_path getcwd stat uri)
  else lsDocumentUri_FromPath
         (FromNormalized (client_to_server entries (GetRawPath client_uri))).

Definition remap_uri_to_client (entries : PathMapping) (server_path : bytes) : lsDocumentUri :=
  lsDocumentUri_FromPath (FromNormalized (server_to_client entries server_path)).
End Remap.

(** ** Lemmas *)

Lemma StartsWith_spec value start : StartsWith value start = true <-> exists r, value = start ++ r.
Proof.
  unfold StartsWith. rewrite <- starts_with_exists. destruct (length value <? length start) eqn:E.
  - split; [done|]. intros H%starts_with_length. apply Nat.ltb_lt in E. lia.
  - done.
Qed.

(** A prefix matches exactly when the rest of the path starts a new
    component: "/ws" matches "/ws" and "/ws/x" but not "/wsx". *)
Definition component_boundary (prefix rest : bytes) : bool :=
  match rest with
  | [] => true
  | c :: _ => negb (bool_decide (prefix = [])) &&
      (match last prefix with Some d => IsPathSeparator d | None => false end || IsPathSeparator c)
  end.

Lemma MatchesPathPrefix_app prefix rest :
  MatchesPathPrefix (prefix ++ rest) prefix = component_boundary prefix rest.
Proof.
  unfold MatchesPathPrefix, component_boundary.
  rewrite (proj2 (StartsWith_spec _ _)) by eauto. cbn [negb].
  rewrite length_app. destruct rest as [|c rest].
  - rewrite Nat.add_0_r, Nat.eqb_refl. done.
  - replace (length prefix + length (c :: rest) =? length prefix) with false
      by (symmetry; apply Nat.eqb_neq; simpl; lia).
    case_bool_decide; [done|]. cbn [negb andb].
    rewrite list_lookup_middle by done. by destruct (match last prefix with _ => _ end).
Qed.

Lemma MatchesPathPrefix_spec value prefix :
  MatchesPathPrefix value prefix = true <->
  exists rest, value = prefix ++ rest /\ component_boundary prefix rest = true.
Proof.
  split.
  - intros H. destruct (StartsWith value prefix) eqn:E.
    + apply StartsWith_spec in E as [rest ->]. rewrite MatchesPathPrefix_app in H. eauto.
    + unfold MatchesPathPrefix in H. by rewrite E in H.
  - intros (rest & -> & H). by rewrite MatchesPathPrefix_app.
Qed.

Lemma RemapPrefix_app from to rest :
  component_boundary from rest = true -> RemapPrefix (from ++ rest) from to = to ++ rest.
Proof.
  intros H. unfold RemapPrefix. rewrite MatchesPathPrefix_app, H. cbn [negb].
  by rewrite drop_app_length.
Qed.

(** A remapping to the same text is invisible to the loop. *)
Lemma client_to_server_first entry entries path :
  MatchesPathPrefix path (client_prefix entry) = true ->
  server_prefix entry <> client_prefix entry ->
  client_to_server (entry :: entries) path =
  server_prefix entry ++ drop (length (client_prefix entry)) path.
Proof.
  intros Hm Hne. apply MatchesPathPrefix_spec in Hm as (rest & -> & Hb). cbn [client_to_server].
  rewrite RemapPrefix_app by done. rewrite drop_app_length.
  rewrite bool_decide_eq_false_2; [done|]. intros Heq%app_inv_tail. done.
Qed.

Lemma client_to_server_skip entry entries path :
  MatchesPathPrefix path (client_prefix entry) = false ->
  client_to_server (entry :: entries) path = client_to_server entries path.
Proof.
  intros H. cbn [client_to_server]. unfold RemapPrefix. rewrite H. cbn [negb].
  by rewrite bool_decide_eq_true_2.
Qed.

Lemma server_to_client_skip entry entries path :
  MatchesPathPrefix path (server_prefix entry) = false ->
  server_to_client (entry :: entries) path = server_to_client entries path.
Proof.
  intros H. cbn [server_to_client]. unfold RemapPrefix. rewrite H. cbn [negb].
  by rewrite bool_decide_eq_true_2.
Qed.

(** ** Properties *)

(** The first entry whose client prefix matches at a component boundary
    decides: its prefix is replaced and the rest of the path kept; a path no
    entry matches is returned unchanged. *)
Theorem client_to_server_spec (before after : PathMapping) (entry : PathMappingEntry) (path : bytes) :
  Forall (fun e => MatchesPathPrefix path (client_prefix e) = false) before ->
  MatchesPathPrefix path (client_prefix entry) = true ->
  server_prefix entry <> client_prefix entry ->
  client_to_server before path = path /\
  exists rest, path = client_prefix entry ++ rest /\
    component_boundary (client_prefix entry) rest = true /\
    client_to_server (before ++ entry :: after) path = server_prefix entry ++ rest.
Proof.
  intros HF Hm Hne. split.
  - induction HF as [|e before He HF IH]; [done|]. by rewrite client_to_server_skip.
  - pose proof (proj1 (MatchesPathPrefix_spec _ _) Hm) as (rest & Hp & Hb). exists rest.
    split; [done|]. split; [done|].
    induction HF as [|e before He HF IH]; cbn [app].
    + rewrite client_to_server_first by done. subst path. by rewrite drop_app_length.
    + by rewrite client_to_server_skip.
Qed.

Lemma client_to_server_spec_witness :
  let m := [mkEntry (lit "/wsx") (lit "/a"); mkEntry (lit "/ws") (lit "/srv")] in
  client_to_server m (lit "/ws/main.cpp") = lit "/srv/main.cpp".
Proof.
  destruct (client_to_server_spec [mkEntry (lit "/wsx") (lit "/a")] []
    (mkEntry (lit "/ws") (lit "/srv")) (lit "/ws/main.cpp")) as (_ & rest & Hp & _ & H).
  - repeat constructor.
  - reflexivity.
  - discriminate.
  - injection Hp as <-. exact H.
Defined.

(** C25. Remapping a client path to the server and back returns it, for a path
    below the client prefix of an entry of the mapping, under these conditions:
    the two prefixes of the entry differ, the rest of the path begins at a
    component boundary of both, no earlier entry matches the client path, and
    no earlier entry's server prefix matches the server path.  (A path that
    only happens to lie below a server prefix, without an entry of its own,
    does not come back.) *)
Theorem path_mapping_roundtrip (before after : PathMapping) (c s rest : bytes) :
  let entries := before ++ mkEntry c s :: after in
  s <> c ->
  component_boundary c rest = true ->
  component_boundary s rest = true ->
  Forall (fun e => MatchesPathPrefix (c ++ rest) (client_prefix e) = false) before ->
  Forall (fun e => MatchesPathPrefix (s ++ rest) (server_prefix e) = false) before ->
  server_to_client entries (client_to_server entries (c ++ rest)) = c ++ rest.
Proof.
  intros entries Hne Hc Hs HF1 HF2. subst entries.
  assert (H1 : client_to_server (before ++ mkEntry c s :: after) (c ++ rest) = s ++ rest).
  { clear HF2. induction HF1 as [|e before He _ IH]; cbn [app].
    - rewrite client_to_server_first; simpl; [by rewrite drop_app_length| |done].
      by rewrite MatchesPathPrefix_app.
    - by rewrite client_to_server_skip. }
  rewrite H1. clear HF1 H1. induction HF2 as [|e before He _ IH]; cbn [app].
  - cbn [server_to_client client_prefix server_prefix]. rewrite RemapPrefix_app by done.
    rewrite bool_decide_eq_false_2; [done|]. intros Heq%app_inv_tail. congruence.
  - by rewrite server_to_client_skip.
Qed.

Lemma path_mapping_roundtrip_witness :
  let m := [mkEntry (lit "/ws") (lit "/srv")] in
  server_to_client m (client_to_server m (lit "/ws/a.h")) = lit "/ws/a.h".
Proof.
  exact (path_mapping_roundtrip [] [] (lit "/ws") (lit "/srv") (lit "/a.h")
    ltac:(discriminate) eq_refl eq_refl ltac:(constructor) ltac:(constructor)).
Defined.
