(* ===== verification/RequestContext.v ===== *)
(** * Contexts with keyed values

    [Context], [Key] and [WithContext] (include/LibLsp/JsonRpc/Context.h,
    src/jsonrpc/Context.cpp), and the values of a request: the offset encoding
    and the path mapping (src/lsp/request_context.cpp).

    A [Key<T>] is an object of which the address counts: a value of a type with
    decidable equality that determines the type [T].  A context is the chain
    of its layers; [derive] shares its parent. *)
From S2P Require Import Prelude CppString Position Utils Uri PathMapping.

Section Chain.
Context {Key : Type} `{EqDecision Key} (value_type : Key -> Type).

Definition layer : Type := { k : Key & value_type k }.
Definition Context_ : Type := list layer.

Definition empty_context : Context_ := [].

Fixpoint get (k : Key) (c : Context_) : option (value_type k) :=
  match c with
  | [] => None
  | existT k' v :: parent =>
      match decide (k' = k) with
      | left H => Some (eq_rect k' value_type v k H)
      | right _ => get k parent
      end
  end.

(** [getExisting]: [None] where the assertion fails *)
Definition getExisting := get.

Definition derive (k : Key) (v : value_type k) (c : Context_) : Context_ := existT k v :: c.
Definition clone (c : Context_) : Context_ := c.

(** [derive] with an anonymous key: a static [Key] of the function for the
    type of the value, which no other code can name *)
Definition derive_anonymous (Private : Key) (v : value_type Private) (c : Context_) : Context_ := derive Private v c.

(** The thread-local current context *)
Definition swapCurrent (replacement current : Context_) : Context_ * Context_ := (current, replacement).

(** [WithContext]: the constructor swaps the context in, the destructor swaps
    the saved one back *)
Definition WithContext {A} (c : Context_) (body : Context_ -> A * Context_) (current : Context_) : A * Context_ :=
  let '(restore, current) := swapCurrent c current in
  let '(a, current) := body current in
  let '(_, current) := swapCurrent restore current in
  (a, current).
Definition WithContextValue {A} (k : Key) (v : value_type k) (body : Context_ -> A * Context_) (current : Context_)
    : A * Context_ := WithContext (derive k v current) body current.
Definition WithContextAnonymous {A} (Private : Key) (v : value_type Private) (body : Context_ -> A * Context_)
    (current : Context_) : A * Context_ := WithContext (derive_anonymous Private v current) body current.

Lemma get_derive k v c : get k (derive k v c) = Some v.
Proof. cbn. destruct (decide (k = k)) as [H|]; [|done]. by rewrite (proof_irrel H eq_refl). Qed.
Lemma get_derive_ne k k' v c : k' <> k -> get k (derive k' v c) = get k c.
Proof. intros Hk. cbn. by destruct (decide (k' = k)). Qed.

(** Layers for other keys do not hide a value. *)
Lemma get_below k (above c : Context_) :
  Forall (fun l => projT1 l <> k) above -> get k (above ++ c) = get k c.
Proof.
  induction 1 as [|[k' v] above Hk _ IH]; [done|]. cbn. by destruct (decide (k' = k)).
Qed.

(** An anonymous value changes nothing that code outside of [derive] can look up. *)
Lemma anonymous_unseen (Private : Key) (v : value_type Private) (above c : Context_) k :
  k <> Private -> get k (above ++ derive_anonymous Private v c) = get k (above ++ c).
Proof.
  intros Hk. induction above as [|[k' w] above IH]; cbn; [by apply get_derive_ne|].
  by destruct (decide (k' = k)).
Qed.

(** A scope sees its own value and those around it, and leaves the context of
    the thread as it was, whatever the code inside leaves behind. *)
Theorem scope_restores {A} k (v : value_type k) (body : Context_ -> A * Context_) (current : Context_) :
  WithContextValue k v body current = ((body (derive k v current)).1, current) /\
  get k (derive k v current) = Some v /\
  (forall k', k <> k' -> get k' (derive k v current) = get k' current).
Proof.
  split; [|split; [apply get_derive|intros k' Hk; by apply get_derive_ne]].
  unfold WithContextValue, WithContext. cbn. by destruct (body _).
Qed.
End Chain.

(** ** The values of a request *)

Record OffsetEncodingContext := mkEncodingContext { encoding : OffsetEncoding }.
Definition default_encoding : OffsetEncodingContext := mkEncodingContext Utf16.

(** The two keys of request_context.cpp among those of the application *)
Inductive request_key := offsetEncodingContextKey | pathMappingContextKey | other_key (n : nat).
#[export] Instance request_key_eq_dec : EqDecision request_key.
Proof. solve_decision. Defined.

Section Request.
(** The values of the other keys *)
Variable other_value : nat -> Type.

Definition request_value (k : request_key) : Type :=
  match k with
  | offsetEncodingContextKey => OffsetEncodingContext
  | pathMappingContextKey => option PathMapping       (** a [shared_ptr], which may be null *)
  | other_key n => other_value n
  end.
Abbreviation context := (Context_ request_value).

Definition currentOffsetEncodingContext (ctx : context) : OffsetEncodingContext :=
  default default_encoding (get request_value offsetEncodingContextKey ctx).
Definition currentOffsetEncoding (ctx : context) : OffsetEncoding := encoding (currentOffsetEncodingContext ctx).

Definition withOffsetEncodingContext (e : OffsetEncoding) (current : context) : context :=
  derive request_value offsetEncodingContextKey (mkEncodingContext e) current.

Definition currentPathMapping (ctx : context) : option PathMapping :=
  default None (get request_value pathMappingContextKey ctx).
Definition withPathMapping (mapping : option PathMapping) (current : context) : context :=
  derive request_value pathMappingContextKey mapping current.

Definition GetOffsetForPositionInContext (p : lsPosition) (content : bytes) (ctx : context) : Z :=
  GetOffsetForPositionWithEncoding p content (currentOffsetEncoding ctx).
Definition GetPositionForOffsetInContext (offset : nat) (content : bytes) (ctx : context) : lsPosition :=
  GetPositionForOffsetWithEncoding offset content (currentOffsetEncoding ctx).

(** Positions are converted with the encoding of the innermost scope that
    chose one, UTF-16 where none did; scopes for the path mapping and for other
    values make no difference, and the other way round. *)
Theorem request_encoding (e : OffsetEncoding) (m : option PathMapping) (above outer : context)
    (p : lsPosition) (offset : nat) (content : bytes) :
  Forall (fun l => projT1 l <> offsetEncodingContextKey) above ->
  GetOffsetForPositionInContext p content (above ++ withOffsetEncodingContext e outer) =
    GetOffsetForPositionWithEncoding p content e /\
  GetPositionForOffsetInContext offset content (above ++ withOffsetEncodingContext e outer) =
    GetPositionForOffsetWithEncoding offset content e /\
  GetOffsetForPositionInContext p content above = GetOffsetForPosition p content /\
  currentPathMapping (withOffsetEncodingContext e (withPathMapping m outer)) = m.
Proof.
  intros Ha. unfold GetOffsetForPositionInContext, GetPositionForOffsetInContext, currentOffsetEncoding,
    currentOffsetEncodingContext, currentPathMapping. rewrite (get_below _ _ _ _ Ha).
  split_and!; try done. rewrite <- (app_nil_r above). by rewrite (get_below _ _ _ _ Ha).
Qed.
End Request.
