(* ===== verification/ContextLifetime.v ===== *)
(** * The lifetime of the layers of a context

    RequestContext.v takes a context to be the list of its values.  In
    include/LibLsp/JsonRpc/Context.h it is a [shared_ptr] to its innermost
    layer, a layer holds a [shared_ptr] to its parent, and contexts derived
    from the same one share it.  Here the layers are kept with their reference
    counts: a layer's value is destroyed when the last context that can see it
    is gone, and before the values it may refer to, those of its parents. *)
From S2P Require Import Prelude.
From stdpp Require Import relations.

(** [Context::Data] without key and value; [refs] is the count of its control
    block, 0 once the layer is destroyed *)
Record layer := mkLayer { parent : option nat; refs : nat }.

(** [handles]: the [Context] objects of the program, by what [dataPtr] points
    to, [None] for an object that is empty, moved from or destroyed;
    [destroyed]: the layers in the order in which their values were destroyed *)
Record store := mkStore {
  layers : list layer;
  handles : list (option nat);
  destroyed : list nat
}.
Definition store_init : store := mkStore [] [] [].

Definition set_layers ls (st : store) := mkStore ls (handles st) (destroyed st).
Definition set_handles hs (st : store) := mkStore (layers st) hs (destroyed st).

(** A [shared_ptr] is copied *)
Definition retain (p : option nat) (st : store) : store :=
  match p with
  | None => st
  | Some n => set_layers (alter (fun l => mkLayer (parent l) (S (refs l))) n (layers st)) st
  end.

(** A [shared_ptr] is destroyed.  The last one destroys the layer: first the
    value, then [parent], since members are destroyed in reverse order. *)
Fixpoint release (fuel : nat) (p : option nat) (st : store) : store :=
  match fuel, p with
  | S fuel', Some n =>
      match layers st !! n with
      | Some (mkLayer up (S 0)) =>
          release fuel' up (mkStore (<[n := mkLayer up 0]> (layers st)) (handles st) (destroyed st ++ [n]))
      | Some (mkLayer up (S k)) => set_layers (<[n := mkLayer up k]> (layers st)) st
      | _ => st
      end
  | _, _ => st
  end.

(** A new layer above [p], with one [shared_ptr] to it in a new context *)
Definition add_layer (p : option nat) (st : store) : store :=
  mkStore (layers st ++ [mkLayer p 1]) (handles st ++ [Some (length (layers st))]) (destroyed st).

(** [derive] of an lvalue copies [dataPtr]; that of an rvalue moves it, as the
    overloads with an anonymous key do for the two cases *)
Definition derive_copy (i : nat) (st : store) : store :=
  let p := default None (handles st !! i) in add_layer p (retain p st).
Definition derive_move (i : nat) (st : store) : store :=
  let p := default None (handles st !! i) in add_layer p (set_handles (<[i := None]> (handles st)) st).

(** [Context::empty], [clone], the move constructor and the destructor *)
Definition empty (st : store) : store := set_handles (handles st ++ [None]) st.
Definition clone (i : nat) (st : store) : store :=
  let p := default None (handles st !! i) in
  set_handles (handles st ++ [p]) (retain p st).
Definition move (i : nat) (st : store) : store :=
  let p := default None (handles st !! i) in
  set_handles (<[i := None]> (handles st) ++ [p]) st.
Definition destroy (i : nat) (st : store) : store :=
  let p := default None (handles st !! i) in
  release (S (length (layers st))) p (set_handles (<[i := None]> (handles st)) st).

Inductive cstep : store -> store -> Prop :=
| c_empty st : cstep st (empty st)
| c_derive_copy i st : i < length (handles st) -> cstep st (derive_copy i st)
| c_derive_move i st : i < length (handles st) -> cstep st (derive_move i st)
| c_clone i st : i < length (handles st) -> cstep st (clone i st)
| c_move i st : i < length (handles st) -> cstep st (move i st)
| c_destroy i st : i < length (handles st) -> cstep st (destroy i st).

(** ** Counting pointers *)

Definition count {A} (P : A -> bool) (l : list A) : nat := length (filter (fun x => P x = true) l).

Lemma count_app {A} (P : A -> bool) l k : count P (l ++ k) = count P l + count P k.
Proof. unfold count. by rewrite filter_app, length_app. Qed.
Lemma count_cons {A} (P : A -> bool) x l : count P (x :: l) = Nat.b2n (P x) + count P l.
Proof. unfold count. rewrite filter_cons. destruct (P x); cbn; case_decide; cbn; congruence || done. Qed.
Lemma count_insert {A} (P : A -> bool) l n x y :
  l !! n = Some x -> count P (<[n := y]> l) + Nat.b2n (P x) = count P l + Nat.b2n (P y).
Proof.
  intros Hn. rewrite <- (take_drop_middle l n x Hn) at 2. rewrite insert_take_drop by by eapply lookup_lt_Some.
  rewrite !count_app, !count_cons. lia.
Qed.
Lemma count_pos {A} (P : A -> bool) l : 0 < count P l -> exists n x, l !! n = Some x /\ P x = true.
Proof.
  unfold count. destruct (filter _ l) as [|x k] eqn:E; cbn; [lia|]. intros _.
  assert (Hx : x ∈ filter (fun x => P x = true) l) by (rewrite E; by left).
  apply list_elem_of_filter in Hx as [HP Hx]. apply list_elem_of_lookup in Hx as [n Hn]. eauto.
Qed.
Lemma count_elem {A} (P : A -> bool) l n x : l !! n = Some x -> P x = true -> 0 < count P l.
Proof.
  intros Hn HP. rewrite <- (take_drop_middle l n x Hn), count_app, count_cons, HP. cbn. lia.
Qed.

Definition points (n : nat) (p : option nat) : bool := bool_decide (p = Some n).
(** A live layer with parent [n] *)
Definition child_of (n : nat) (l : layer) : bool := negb (refs l =? 0) && points n (parent l).
(** The [shared_ptr]s to layer [n], those in [pend] included *)
Definition uses (pend : option nat) (st : store) (n : nat) : nat :=
  count (points n) (handles st) + count (child_of n) (layers st) + Nat.b2n (points n pend).

Definition live (st : store) (n : nat) : Prop := exists l, layers st !! n = Some l /\ 0 < refs l.

(** The invariant, with one more pointer [pend] that is about to be released *)
Record lifetime_inv (pend : option nat) (st : store) : Prop := {
  inv_refs : forall n l, layers st !! n = Some l -> refs l = uses pend st n;
  inv_down : forall n l m, layers st !! n = Some l -> parent l = Some m -> m < n;
  inv_bound : forall n, 0 < uses pend st n -> n < length (layers st);
  inv_once : NoDup (destroyed st);
  inv_dead : forall n, n ∈ destroyed st <-> (exists l, layers st !! n = Some l /\ refs l = 0);
  inv_order : forall n l m d1 d2, layers st !! n = Some l -> parent l = Some m ->
    destroyed st = d1 ++ m :: d2 -> n ∈ d1
}.

Lemma inv_live pend st n : lifetime_inv pend st -> 0 < uses pend st n -> live st n.
Proof.
  intros Hi Hu. destruct (lookup_lt_is_Some_2 (layers st) n (inv_bound _ _ Hi n Hu)) as [l Hl].
  exists l. split; [done|]. by rewrite (inv_refs _ _ Hi n l Hl).
Qed.

(** A context gives its pointer away, or takes one *)
Lemma handle_to_pend st i p :
  lifetime_inv None st -> handles st !! i = Some p ->
  lifetime_inv p (set_handles (<[i := None]> (handles st)) st).
Proof.
  intros [H1 H2 H3 H4 H5 H6] Hp.
  assert (Hu : forall n, uses p (set_handles (<[i := None]> (handles st)) st) n = uses None st n).
  { intros n. unfold uses. cbn [set_handles handles layers].
    pose proof (count_insert (points n) (handles st) i p None Hp) as E.
    change (Nat.b2n (points n None)) with 0 in *. lia. }
  constructor; try done; intros n; rewrite Hu; auto.
Qed.

Lemma pend_to_handle st p : lifetime_inv p st -> lifetime_inv None (set_handles (handles st ++ [p]) st).
Proof.
  intros [H1 H2 H3 H4 H5 H6].
  assert (Hu : forall n, uses None (set_handles (handles st ++ [p]) st) n = uses p st n).
  { intros n. unfold uses. cbn [set_handles handles layers]. rewrite count_app, count_cons.
    change (count (points n) []) with 0. change (Nat.b2n (points n None)) with 0. lia. }
  constructor; try done; intros n; rewrite Hu; auto.
Qed.

(** Only the count of layer [n] changes, and it stays alive *)
Lemma recount pend pend' st n l k :
  layers st !! n = Some l -> 0 < refs l -> 0 < k ->
  (forall m, uses pend' st m + (if decide (m = n) then refs l else 0) =
             uses pend st m + (if decide (m = n) then k else 0)) ->
  lifetime_inv pend st -> lifetime_inv pend' (set_layers (<[n := mkLayer (parent l) k]> (layers st)) st).
Proof.
  intros Hn Hr Hk Hu [H1 H2 H3 H4 H5 H6].
  assert (Hc : forall m, uses pend' (set_layers (<[n := mkLayer (parent l) k]> (layers st)) st) m = uses pend' st m).
  { intros m. unfold uses. cbn [set_layers handles layers].
    pose proof (count_insert (child_of m) (layers st) n l (mkLayer (parent l) k) Hn) as E.
    assert (child_of m (mkLayer (parent l) k) = child_of m l) as Ec.
    { unfold child_of. cbn. destruct (refs l), k; [lia..|done]. }
    rewrite Ec in E. lia. }
  assert (Hl : forall m l', <[n := mkLayer (parent l) k]> (layers st) !! m = Some l' ->
    (m = n /\ l' = mkLayer (parent l) k) \/ (m <> n /\ layers st !! m = Some l')).
  { intros m l' Hm. apply list_lookup_insert_Some in Hm as [(<- & <- & _)|[? ?]]; [by left|right; naive_solver]. }
  constructor; cbn [set_layers layers destroyed].
  - intros m l' Hm. rewrite Hc. specialize (Hu m). destruct (Hl _ _ Hm) as [[-> ->]|[Hne Hm']]; cbn.
    + rewrite decide_True in Hu by done. rewrite decide_True in Hu by done. rewrite <- (H1 _ _ Hn) in Hu. lia.
    + rewrite !decide_False in Hu by done. rewrite (H1 _ _ Hm'). lia.
  - intros m l' q Hm. destruct (Hl _ _ Hm) as [[-> ->]|[_ Hm']]; cbn; [by apply H2|by apply H2].
  - intros m. rewrite Hc, length_insert. intros Hm. specialize (Hu m). apply H3. destruct (decide (m = n)) as [->|]; [|lia].
    rewrite <- (H1 _ _ Hn). done.
  - done.
  - intros m. rewrite H5. split.
    + intros (l' & Hm & Hz). exists l'. rewrite list_lookup_insert_ne; [done|]. intros ->. rewrite Hn in Hm. naive_solver lia.
    + intros (l' & Hm & Hz). destruct (Hl _ _ Hm) as [[-> ->]|[_ Hm']]; [cbn in Hz; lia|eauto].
  - intros m l' q d1 d2 Hm. destruct (Hl _ _ Hm) as [[-> ->]|[_ Hm']]; cbn; [by apply H6|by apply H6].
Qed.

Lemma retain_inv st p :
  (forall n, p = Some n -> live st n) -> lifetime_inv None st -> lifetime_inv p (retain p st).
Proof.
  intros Hp Hi. destruct p as [n|]; [|done]. destruct (Hp n eq_refl) as (l & Hl & Hr). cbn [retain].
  replace (alter _ n (layers st)) with (<[n := mkLayer (parent l) (S (refs l))]> (layers st)).
  - apply (recount None); try done; [lia|]. intros m. unfold uses, points.
    destruct (decide (m = n)) as [->|Hne].
    + rewrite (bool_decide_eq_true_2 (Some n = Some n)), bool_decide_eq_false_2 by done. cbn [Nat.b2n]. lia.
    + rewrite !bool_decide_eq_false_2 by congruence. done.
  - apply list_eq. intros m. destruct (decide (m = n)) as [->|].
    + rewrite list_lookup_alter_eq, Hl, list_lookup_insert_eq by by eapply lookup_lt_Some. done.
    + by rewrite list_lookup_alter_ne, list_lookup_insert_ne.
Qed.

Lemma add_layer_inv st p : lifetime_inv p st -> lifetime_inv None (add_layer p st).
Proof.
  intros Hi. pose proof Hi as [H1 H2 H3 H4 H5 H6].
  set (N := length (layers st)).
  assert (HN : uses p st N = 0) by (destruct (uses p st N) eqn:E; [done|]; specialize (H3 N); unfold N in *; lia).
  assert (Hu : forall n, uses None (add_layer p st) n = uses p st n + Nat.b2n (bool_decide (n = N))).
  { intros n. unfold uses, add_layer. cbn [handles layers]. rewrite !count_app, !count_cons. change (count (points n) []) with 0. change (count (child_of n) []) with 0.
    change (child_of n (mkLayer p 1)) with (points n p). change (Nat.b2n (points n None)) with 0.
    change (points n (Some (length (layers st)))) with (bool_decide (Some N = Some n)).
    rewrite (bool_decide_ext (Some N = Some n) (n = N)) by naive_solver. lia. }
  assert (Hl : forall n l, (layers st ++ [mkLayer p 1]) !! n = Some l ->
    (n < N /\ layers st !! n = Some l) \/ (n = N /\ l = mkLayer p 1)).
  { intros n l [Hn|[Hge Hn]]%lookup_app_Some; [left; split; [by eapply lookup_lt_Some|done]|].
    right. apply list_lookup_singleton_Some in Hn as [? <-]. split; [lia|done]. }
  constructor; cbn [add_layer layers handles destroyed].
  - intros n l Hn. rewrite Hu. destruct (Hl _ _ Hn) as [[Hlt Hn']|[-> ->]].
    + rewrite (H1 _ _ Hn'), bool_decide_eq_false_2 by lia. cbn. lia.
    + rewrite HN, bool_decide_eq_true_2 by done. done.
  - intros n l m Hn. destruct (Hl _ _ Hn) as [[Hlt Hn']|[-> ->]]; [by apply H2|]. cbn. intros ->. apply H3.
    unfold uses, points. rewrite bool_decide_eq_true_2 by done. cbn. lia.
  - intros n. rewrite Hu, length_app. cbn. destruct (bool_decide_reflect (n = N)) as [->|]; [unfold N; lia|].
    cbn. intros Hn. specialize (H3 n). lia.
  - done.
  - intros n. rewrite H5. split.
    + intros (l & Hn & Hz). exists l. split; [by apply lookup_app_l_Some|done].
    + intros (l & Hn & Hz). destruct (Hl _ _ Hn) as [[_ Hn']|[-> ->]]; [eauto|done].
  - intros n l m d1 d2 Hn. destruct (Hl _ _ Hn) as [[Hlt Hn']|[-> ->]]; [by apply H6|]. cbn. intros -> Hd.
    destruct (proj1 (H5 m)) as (l' & Hm & Hz); [rewrite Hd; set_solver|]. exfalso. rewrite (H1 _ _ Hm) in Hz.
    unfold uses, points in Hz. rewrite bool_decide_eq_true_2 in Hz by done. cbn in Hz. lia.
Qed.

Lemma points_some m n : points m (Some n) = bool_decide (m = n).
Proof. apply bool_decide_ext. naive_solver. Qed.

(** The last pointer to layer [n]: its value goes, its pointer to the parent is pending *)
Lemma last_release st n up :
  layers st !! n = Some (mkLayer up 1) -> lifetime_inv (Some n) st ->
  lifetime_inv up (mkStore (<[n := mkLayer up 0]> (layers st)) (handles st) (destroyed st ++ [n])).
Proof.
  intros Hn Hi. pose proof Hi as [H1 H2 H3 H4 H5 H6]. set (st' := mkStore _ _ _).
  assert (Hu : forall m, uses up st' m + Nat.b2n (bool_decide (m = n)) = uses (Some n) st m).
  { intros m. unfold uses, st'. cbn [handles layers].
    pose proof (count_insert (child_of m) (layers st) n _ (mkLayer up 0) Hn) as E.
    change (child_of m (mkLayer up 1)) with (points m up) in E. change (Nat.b2n (child_of m (mkLayer up 0))) with 0 in E.
    rewrite points_some. lia. }
  assert (Hl : forall m l, layers st' !! m = Some l ->
    (m = n /\ l = mkLayer up 0) \/ (m <> n /\ layers st !! m = Some l)).
  { intros m l Hm. apply list_lookup_insert_Some in Hm as [(<- & <- & _)|[? ?]]; [by left|right; naive_solver]. }
  assert (Hz : uses up st' n = 0).
  { pose proof (H1 _ _ Hn) as E. specialize (Hu n). rewrite bool_decide_eq_true_2 in Hu by done. cbn in *. lia. }
  assert (Hdead : forall c l, layers st' !! c = Some l -> parent l = Some n -> refs l = 0).
  { intros c l Hc Hp. destruct (refs l) eqn:E; [done|]. exfalso.
    assert (0 < count (child_of n) (layers st')); [|unfold uses in Hz; lia].
    eapply count_elem; [exact Hc|]. unfold child_of, points. rewrite E, Hp. cbn. by apply bool_decide_eq_true_2. }
  assert (Hnd : n ∉ destroyed st) by (intros (l & Hm & ?)%H5; rewrite Hn in Hm; naive_solver).
  constructor.
  - intros m l Hm. specialize (Hu m). destruct (Hl _ _ Hm) as [[-> ->]|[Hne Hm']]; [done|].
    rewrite bool_decide_eq_false_2 in Hu by done. cbn [Nat.b2n] in Hu. rewrite (H1 _ _ Hm'). lia.
  - intros m l q Hm. destruct (Hl _ _ Hm) as [[-> ->]|[_ Hm']]; [|by apply H2]. cbn. intros ->. by apply (H2 _ _ _ Hn).
  - intros m Hm. unfold st'. cbn. rewrite length_insert. apply H3. rewrite <- Hu. lia.
  - cbn. apply NoDup_app. split; [done|]. split; [set_solver|apply NoDup_singleton].
  - intros m. cbn [st' destroyed]. rewrite elem_of_app, list_elem_of_singleton, H5. split.
    + intros [(l & Hm & Hr)| ->].
      * exists l. split; [|done]. cbn. rewrite list_lookup_insert_ne; [done|]. intros ->. rewrite Hn in Hm. naive_solver.
      * exists (mkLayer up 0). split; [|done]. cbn. apply list_lookup_insert_eq. by eapply lookup_lt_Some.
    + intros (l & Hm & Hr). destruct (Hl _ _ Hm) as [[-> ->]|[_ Hm']]; [by right|left; eauto].
  - intros m l q d1 d2 Hm Hp Hd. cbn [st' destroyed] in Hd.
    destruct d2 as [|x d2 _] using rev_ind.
    + apply app_inj_tail in Hd as [<- <-]. pose proof (Hdead _ _ Hm Hp) as Hr.
      destruct (Hl _ _ Hm) as [[-> ->]|[_ Hm']]; [|apply H5; eauto]. cbn in Hp. specialize (H2 _ _ _ Hn Hp). lia.
    + rewrite app_comm_cons, app_assoc in Hd. apply app_inj_tail in Hd as [Hd _].
      destruct (Hl _ _ Hm) as [[-> ->]|[_ Hm']]; [by eapply H6|by eapply H6].
Qed.

Lemma release_inv fuel p st :
  (forall n, p = Some n -> n < fuel) -> lifetime_inv p st -> lifetime_inv None (release fuel p st).
Proof.
  revert p st. induction fuel as [|fuel IH]; intros [n|] st Hf Hi; cbn [release]; try done.
  { specialize (Hf n eq_refl). lia. }
  assert (Hpos : 0 < uses (Some n) st n).
  { unfold uses. rewrite points_some, bool_decide_eq_true_2 by done. cbn [Nat.b2n]. lia. }
  destruct (inv_live _ _ _ Hi Hpos) as ([up r] & Hl & Hr). rewrite Hl. cbn in Hr.
  destruct r as [|[|k]]; [lia| |].
  - apply IH; [|by apply last_release]. intros m ->. pose proof (inv_down _ _ Hi _ _ m Hl eq_refl).
    specialize (Hf n eq_refl). lia.
  - apply (recount (Some n) None st n (mkLayer up (S (S k)))); [done|cbn; lia|lia| |done].
    intros m. unfold uses. change (Nat.b2n (points m None)) with 0. rewrite points_some. cbn [refs].
    destruct (decide (m = n)) as [->|]; [rewrite bool_decide_eq_true_2 by done|rewrite bool_decide_eq_false_2 by congruence];
      cbn [Nat.b2n]; lia.
Qed.

Lemma handle_live st i p n : lifetime_inv None st -> handles st !! i = Some p -> p = Some n -> live st n.
Proof.
  intros Hi Hp ->. apply (inv_live _ _ _ Hi). unfold uses.
  assert (0 < count (points n) (handles st)); [|lia]. eapply count_elem; [done|]. by apply bool_decide_eq_true_2.
Qed.

Lemma cstep_inv st st' : cstep st st' -> lifetime_inv None st -> lifetime_inv None st'.
Proof.
  destruct 1 as [st|i st Hlt|i st Hlt|i st Hlt|i st Hlt|i st Hlt]; intros Hi.
  { apply pend_to_handle. exact Hi. }
  all: destruct (lookup_lt_is_Some_2 (handles st) i Hlt) as [p Hp].
  - unfold derive_copy. rewrite Hp. change (default None (Some p)) with p. apply add_layer_inv, retain_inv; [|done].
    intros n. by apply handle_live with i.
  - unfold derive_move. rewrite Hp. change (default None (Some p)) with p. by apply add_layer_inv, handle_to_pend.
  - unfold clone. rewrite Hp. change (default None (Some p)) with p. replace (handles st) with (handles (retain p st)) by by destruct p.
    apply pend_to_handle, retain_inv; [|done].
    intros n. by apply handle_live with i.
  - unfold move. rewrite Hp. change (default None (Some p)) with p. apply (pend_to_handle _ p (handle_to_pend _ _ _ Hi Hp)).
  - unfold destroy. rewrite Hp. change (default None (Some p)) with p. apply release_inv; [|by apply handle_to_pend].
    intros n ->. destruct (handle_live _ _ _ n Hi Hp eq_refl) as (l & Hl & _). apply lookup_lt_Some in Hl. lia.
Qed.

Lemma lifetime_reach st : rtc cstep store_init st -> lifetime_inv None st.
Proof.
  assert (H0 : lifetime_inv None store_init).
  { constructor.
    - by intros n l Hn.
    - by intros n l m Hn.
    - intros n Hn. exfalso. revert Hn. apply Nat.lt_irrefl.
    - apply NoDup_nil_2.
    - intros n. split; [by intros ?%elem_of_nil|by intros (l & ? & _)].
    - by intros n l m d1 d2 Hn. }
  intros Hr. induction Hr as [|x y z Hs _ IH]; [done|]. apply IH. by eapply cstep_inv.
Qed.

(** ** What a context sees *)

(** Layer [a] has the parent [b] *)
Definition above (st : store) (a b : nat) : Prop := exists l, layers st !! a = Some l /\ parent l = Some b.
(** A context of the program has the layer [n] in its chain *)
Definition seen (st : store) (n : nat) : Prop :=
  exists i p, handles st !! i = Some (Some p) /\ rtc (above st) p n.

Lemma seen_live st n : lifetime_inv None st -> seen st n -> live st n.
Proof.
  intros Hi (i & p & Hp & Hr). apply (handle_live _ _ _ p Hi) in Hp; [|done].
  induction Hr as [|a b c (l & Ha & Hb) _ IH]; [done|]. apply IH. destruct Hp as (l' & Ha' & Hpos).
  assert (l' = l) by congruence. subst l'.
  apply (inv_live _ _ _ Hi). unfold uses.
  assert (0 < count (child_of b) (layers st)); [|lia]. eapply count_elem; [exact Ha|].
  unfold child_of. rewrite Hb, points_some, bool_decide_eq_true_2 by done.
  by destruct (refs l) eqn:E; [lia|].
Qed.

Lemma live_seen st n : lifetime_inv None st -> live st n -> seen st n.
Proof.
  intros Hi. remember (length (layers st) - n) as k eqn:Ek. revert n Ek.
  induction k as [k IH] using lt_wf_ind. intros n Ek (l & Hl & Hr).
  pose proof (lookup_lt_Some _ _ _ Hl) as Hn. rewrite (inv_refs _ _ Hi _ _ Hl) in Hr. unfold uses in Hr.
  change (Nat.b2n (points n None)) with 0 in Hr.
  destruct (count (points n) (handles st)) eqn:Eh.
  - destruct (count_pos (child_of n) (layers st)) as (c & lc & Hc & Hch); [lia|].
    unfold child_of in Hch. apply andb_true_iff in Hch as [Hlive Hp%bool_decide_eq_true].
    pose proof (inv_down _ _ Hi _ _ _ Hc Hp) as Hlt. pose proof (lookup_lt_Some _ _ _ Hc) as Hcn.
    destruct (IH (length (layers st) - c)) with (n := c) as (i & p & Hh & Hrtc); [lia|done| |].
    + exists lc. split; [done|]. destruct (refs lc); [done|lia].
    + exists i, p. split; [done|]. eapply rtc_r; [exact Hrtc|]. by exists lc.
  - destruct (count_pos (points n) (handles st)) as (i & p & Hh & Hp%bool_decide_eq_true); [lia|]. subst p.
    exists i, n. split; [done|apply rtc_refl].
Qed.

(** * Theorems *)

(** C39. The values of contexts live as long as they are needed and no longer: in
    every sequence of [derive], [clone], moves and destructions of contexts, a
    layer is alive exactly if some context of the program has it in its chain
    of parents; each value is destroyed at most once, and after the values of
    all layers derived from its own. *)
Theorem context_lifetime (st : store) :
  rtc cstep store_init st ->
  (forall n, live st n <-> seen st n) /\
  NoDup (destroyed st) /\
  (forall n, n < length (layers st) -> n ∈ destroyed st <-> ~ live st n) /\
  (forall n m d1 d2, above st n m -> destroyed st = d1 ++ m :: d2 -> n ∈ d1).
Proof.
  intros Hi%lifetime_reach. split_and!.
  - intros n. split; [by apply live_seen|by apply seen_live].
  - by apply (inv_once _ _ Hi).
  - intros n Hn. destruct (lookup_lt_is_Some_2 (layers st) n Hn) as [l Hl].
    rewrite (inv_dead _ _ Hi). split.
    + intros (l' & Hl' & Hz) (l'' & Hl'' & Hr). simplify_eq. lia.
    + intros Hd. exists l. split; [done|]. destruct (refs l) eqn:E; [done|]. destruct Hd. exists l. split; [done|lia].
  - intros n m d1 d2 (l & Hl & Hp). by apply (inv_order _ _ Hi _ l).
Qed.

(** A request's context, a child that outlives it, and then the child *)
Lemma context_lifetime_witness :
  let st := destroy 2 (destroy 1 (derive_copy 1 (derive_move 0 (empty store_init)))) in
  destroyed (destroy 1 (derive_copy 1 (derive_move 0 (empty store_init)))) = [] /\
  destroyed st = [1; 0] /\ (forall n, live st n <-> seen st n) /\
  (forall m d1 d2, above st 1 m -> destroyed st = d1 ++ m :: d2 -> 1 ∈ d1).
Proof.
  intros st. split; [reflexivity|]. split; [reflexivity|].
  destruct (context_lifetime st) as (H1 & _ & _ & H4).
  - eapply rtc_l; [apply c_empty|]. eapply rtc_l; [apply (c_derive_move 0); cbn; lia|].
    eapply rtc_l; [apply (c_derive_copy 1); cbn; lia|]. eapply rtc_l; [apply (c_destroy 1); cbn; lia|].
    eapply rtc_l; [apply (c_destroy 2); cbn; lia|]. apply rtc_refl.
  - split; [exact H1|]. intros m d1 d2. apply H4.
Defined.
