(* ===== verification/WorkingFiles.v ===== *)
(** * Open documents

    src/lsp/working_files.cpp: the table of open files and the incremental
    edits.  [WorkingFile] objects are shared ([std::shared_ptr]): the table
    maps a path to a location of a heap, and handles returned to callers are
    locations, so a change is visible through every handle and a handle
    outlives the closing of its file.  Undefined behaviour of
    [std::string::replace] on an invalid range is the [None] of [OnChange]. *)
From S2P Require Import Prelude CppString Utils Utf8 Position Uri.

(** ** Line offsets *)

(** The loop of [BuildLineOffsets] from index [i] on. *)
Fixpoint line_starts (content : bytes) (i : nat) : list nat :=
  match content with
  | [] => []
  | c :: rest => if ceq c LF then S i :: line_starts rest (S i) else line_starts rest (S i)
  end.

Definition BuildLineOffsets (content : bytes) : list nat := 0 :: line_starts content 0.

(** ** [WorkingFile] *)

Record WorkingFile := mkWorkingFile {
  version : Z;
  filename : AbsolutePath;
  directory : Directory;
  counter : Z;
  buffer_content : bytes;
  line_offsets : list nat
}.

Definition RebuildLineOffsets (f : WorkingFile) : WorkingFile :=
  mkWorkingFile (version f) (filename f) (directory f) (counter f) (buffer_content f)
    (BuildLineOffsets (buffer_content f)).

Definition directory_of (p : AbsolutePath) : Directory :=
  Directory_of (FromNormalized (GetDirName (path_ p))).

(** The constructors *)
Definition new_WorkingFile (p : AbsolutePath) (content : bytes) : WorkingFile :=
  RebuildLineOffsets (mkWorkingFile 0 p (directory_of p) 0 content []).

Definition set_content (f : WorkingFile) (content : bytes) : WorkingFile :=
  mkWorkingFile (version f) (filename f) (directory f) (counter f) content (line_offsets f).

Definition set_version (f : WorkingFile) (v : Z) : WorkingFile :=
  mkWorkingFile v (filename f) (directory f) (counter f) (buffer_content f) (line_offsets f).

Definition set_counter (f : WorkingFile) (n : Z) : WorkingFile :=
  mkWorkingFile (version f) (filename f) (directory f) n (buffer_content f) (line_offsets f).

(** [WorkingFile::GetOffsetForPosition]: the line is looked up in the cache,
    the character loop is that of [GetOffsetForPosition]. *)
Definition cached_index (f : WorkingFile) (p : lsPosition) : nat :=
  let i := if (line p <? N.of_nat (length (line_offsets f)))%N
           then default 0 (line_offsets f !! N.to_nat (line p))
           else length (buffer_content f) in
  i + seek_char (character p) (drop i (buffer_content f)).

Definition WorkingFile_GetOffsetForPosition (f : WorkingFile) (p : lsPosition) : Z :=
  match line_offsets f with
  | [] => GetOffsetForPosition p (buffer_content f)
  | _ => to_int32 (Z.of_nat (cached_index f p))
  end.

(** ** Protocol data *)

Record lsTextDocumentItem := mkItem { item_uri : lsDocumentUri; item_version : Z; item_text : bytes }.

Record lsTextDocumentContentChangeEvent := mkChange { range : option lsRange; text : bytes }.

Record lsTextDocumentDidChangeParams := mkDidChange {
  change_uri : lsDocumentUri;
  change_version : option Z;
  contentChanges : list lsTextDocumentContentChangeEvent
}.

(** ** [WorkingFiles] *)

Record WorkingFiles := mkWorkingFiles {
  files : gmap AbsolutePath nat;
  heap : gmap nat WorkingFile;
  next_loc : nat;
  disk : gmap bytes bytes
}.

Definition WorkingFiles_init : WorkingFiles := mkWorkingFiles ∅ ∅ 0 ∅.

Definition set_files (st : WorkingFiles) (fs : gmap AbsolutePath nat) : WorkingFiles :=
  mkWorkingFiles fs (heap st) (next_loc st) (disk st).

Definition set_object (st : WorkingFiles) (l : nat) (f : WorkingFile) : WorkingFiles :=
  mkWorkingFiles (files st) (<[l := f]> (heap st)) (next_loc st) (disk st).

Definition GetFileByFilenameNoLock (st : WorkingFiles) (p : AbsolutePath) : option nat :=
  if negb (valid p) then None else files st !! p.

Definition GetFileByFilename (st : WorkingFiles) (p : AbsolutePath) : option nat :=
  GetFileByFilenameNoLock st p.

(** One content change: [None] when the replaced range is invalid. *)
Definition apply_change (f : WorkingFile) (diff : lsTextDocumentContentChangeEvent)
    : option WorkingFile :=
  match range diff with
  | None => Some (RebuildLineOffsets (set_content f (text diff)))
  | Some r =>
      let start_offset := WorkingFile_GetOffsetForPosition f (range_start r) in
      let end_offset := WorkingFile_GetOffsetForPosition f (range_end r) in
      if (0 <=? start_offset)%Z && (start_offset <=? end_offset)%Z
         && (end_offset <=? Z.of_nat (length (buffer_content f)))%Z
      then Some (RebuildLineOffsets (set_content f
             (take (Z.to_nat start_offset) (buffer_content f) ++ text diff
              ++ drop (Z.to_nat end_offset) (buffer_content f))))
      else None
  end.

Fixpoint apply_changes (f : WorkingFile) (diffs : list lsTextDocumentContentChangeEvent)
    : option WorkingFile :=
  match diffs with
  | [] => Some f
  | d :: rest => match apply_change f d with
                 | None => None
                 | Some f' => apply_changes f' rest
                 end
  end.

Section Operations.
(** [getcwd], [stat]: path normalisation; [writable]: files that
    [std::ofstream] can open for writing. *)
Context (getcwd : bytes) (stat : bytes -> option bool) (writable : bytes -> bool).

(** Also returns the text left in [open] ([swap] on a file already open). *)
Definition OnOpen (st : WorkingFiles) (open : lsTextDocumentItem)
    : option nat * bytes * WorkingFiles :=
  let p := GetAbsolutePath getcwd stat (item_uri open) in
  if negb (valid p) then (None, item_text open, st)
  else
    match GetFileByFilenameNoLock st p with
    | Some l =>
        match heap st !! l with
        | Some file =>
            let file' := RebuildLineOffsets
                           (set_content (set_version file (item_version open)) (item_text open)) in
            (Some l, buffer_content file, set_object st l file')
        | None => (None, item_text open, st)
        end
    | None =>
        let l := next_loc st in
        (Some l, item_text open,
         mkWorkingFiles (<[p := l]> (files st))
           (<[l := new_WorkingFile p (item_text open)]> (heap st)) (S l) (disk st))
    end.

Definition OnChange (st : WorkingFiles) (change : lsTextDocumentDidChangeParams)
    : option (option nat * WorkingFiles) :=
  let p := GetAbsolutePath getcwd stat (change_uri change) in
  if negb (valid p) then Some (None, st)
  else
    match GetFileByFilenameNoLock st p with
    | None => Some (None, st)
    | Some l =>
        match heap st !! l with
        | None => Some (None, st)
        | Some file =>
            let file := match change_version change with
                        | Some v => set_version file v
                        | None => file
                        end in
            let file := set_counter file (counter file + 1) in
            match apply_changes file (contentChanges change) with
            | None => None
            | Some file' => Some (Some l, set_object st l file')
            end
        end
    end.

Definition OnClose (st : WorkingFiles) (close_uri : lsDocumentUri) : bool * WorkingFiles :=
  let p := GetAbsolutePath getcwd stat close_uri in
  if negb (valid p) then (false, st)
  else match files st !! p with
       | Some _ => (true, set_files st (delete p (files st)))
       | None => (false, st)
       end.

(** [WriteToFile]: opens with truncation, then writes the content. *)
Definition WriteToFile (d : gmap bytes bytes) (name content : bytes) : bool * gmap bytes bytes :=
  if negb (writable name) then (false, d) else (true, <[name := content]> d).

Definition OnSave (st : WorkingFiles) (save_uri : lsDocumentUri) : option nat * WorkingFiles :=
  let p := GetAbsolutePath getcwd stat save_uri in
  if negb (valid p) then (None, st)
  else match files st !! p with
       | Some l =>
           match heap st !! l with
           | Some file =>
               (Some l, mkWorkingFiles (files st) (heap st) (next_loc st)
                          (snd (WriteToFile (disk st) (path_ (filename file)) (buffer_content file))))
           | None => (None, st)
           end
       | None => (None, st)
       end.

Definition in_directories (st : WorkingFiles) (dirs : list Directory) (l : nat) : bool :=
  match heap st !! l with
  | Some f => existsb (fun d => bool_decide (directory f = d)) dirs
  | None => false
  end.

Definition CloseFilesInDirectory (st : WorkingFiles) (dirs : list Directory) : WorkingFiles :=
  let files_to_be_delete :=
    filter (fun kv => in_directories st dirs kv.2 = true) (map_to_list (files st)) in
  set_files st (foldr (fun kv m => delete kv.1 m) (files st) files_to_be_delete).

Definition GetFileBufferContent (st : WorkingFiles) (file : option nat) : option bytes :=
  match file with
  | Some l => buffer_content <$> heap st !! l
  | None => None
  end.

Definition GetFileBufferContent_path (st : WorkingFiles) (p : AbsolutePath) : option bytes :=
  match GetFileByFilename st p with
  | None => None
  | Some l => GetFileBufferContent st (Some l)
  end.

(** The version for a [std::wstring]; [wide] as in [s2ws], [inl]: the
    conversion throws *)
Definition GetFileBufferContent_wide (wide : bool) (st : WorkingFiles) (file : option nat)
    : option (utf8_exception + list Z) :=
  s2ws wide <$> GetFileBufferContent st file.

(** The wide text of a document converts back to its content. *)
Lemma GetFileBufferContent_wide_back wide st file w :
  GetFileBufferContent_wide wide st file = Some (inr w) ->
  exists content, GetFileBufferContent st file = Some content /\ ws2s wide w = inr content.
Proof.
  unfold GetFileBufferContent_wide. destruct (GetFileBufferContent st file) as [content|]; [|done].
  intros [= Hw]. exists content. split; [done|]. by apply s2ws_back.
Qed.

Definition WorkingFiles_Clear (st : WorkingFiles) : WorkingFiles := set_files st ∅.

(** The operations as steps, each under the table's mutex. *)
Inductive wf_step : WorkingFiles -> WorkingFiles -> Prop :=
| step_open st item : wf_step st (OnOpen st item).2
| step_change st change r st' : OnChange st change = Some (r, st') -> wf_step st st'
| step_close st u : wf_step st (OnClose st u).2
| step_save st u : wf_step st (OnSave st u).2
| step_close_directory st dirs : wf_step st (CloseFilesInDirectory st dirs)
| step_clear st : wf_step st (WorkingFiles_Clear st).
End Operations.

(** ** Invariant *)

Definition file_ok (f : WorkingFile) : Prop :=
  line_offsets f = BuildLineOffsets (buffer_content f) /\ directory f = directory_of (filename f).

Record wf_ok (st : WorkingFiles) : Prop := {
  wf_objects : forall l f, heap st !! l = Some f -> file_ok f;
  wf_files : forall p l, files st !! p = Some l ->
    valid p = true /\ exists f, heap st !! l = Some f /\ filename f = p;
  wf_fresh : forall l f, heap st !! l = Some f -> l < next_loc st
}.

Lemma RebuildLineOffsets_ok f : directory f = directory_of (filename f) -> file_ok (RebuildLineOffsets f).
Proof. intros H. split; [done|exact H]. Qed.

Lemma apply_change_ok f d f' : file_ok f -> apply_change f d = Some f' ->
  file_ok f' /\ filename f' = filename f.
Proof.
  intros [_ Hd] H. unfold apply_change in H.
  destruct (range d); [destruct (_ && _); [|done]|]; simplify_eq;
    (split; [by apply RebuildLineOffsets_ok|done]).
Qed.

Lemma apply_changes_ok f ds f' : file_ok f -> apply_changes f ds = Some f' ->
  file_ok f' /\ filename f' = filename f.
Proof.
  revert f. induction ds as [|d ds IH]; intros f Hok H; simpl in H; [by simplify_eq|].
  destruct (apply_change f d) as [f1|] eqn:E; [|done].
  apply apply_change_ok in E as [H1 H2]; [|done]. rewrite <- H2. by apply IH.
Qed.

(** Replacing an object by one with the same name keeps the invariant. *)
Lemma set_object_ok st l f f' :
  wf_ok st -> heap st !! l = Some f -> file_ok f' -> filename f' = filename f ->
  wf_ok (set_object st l f').
Proof.
  intros [H1 H2 H3] Hl Hok Hn. split; simpl.
  - intros k g. rewrite lookup_insert. case_decide; [intros [= <-]; done|apply H1].
  - intros p k Hp. destruct (H2 p k Hp) as (Hv & g & Hg & Hf). split; [done|].
    rewrite lookup_insert. case_decide; [subst; exists f'; split; [done|]; congruence|eauto].
  - intros k g. rewrite lookup_insert. case_decide; [subst; intros _; eauto|apply H3].
Qed.

(** Any part of the table keeps the invariant. *)
Lemma set_files_ok st fs : wf_ok st -> fs ⊆ files st -> wf_ok (set_files st fs).
Proof.
  intros [H1 H2 H3] Hsub. split; simpl; [done| |done].
  intros p l Hp. apply H2. by eapply lookup_weaken.
Qed.

Lemma delete_all_subseteq {V} (ks : list (AbsolutePath * V)) (m : gmap AbsolutePath V) :
  foldr (fun kv m => delete kv.1 m) m ks ⊆ m.
Proof. induction ks as [|k ks IH]; simpl; [done|]. etrans; [apply delete_subseteq|done]. Qed.

Lemma wf_ok_init : wf_ok WorkingFiles_init.
Proof. split; intros *; simpl; rewrite lookup_empty; done. Qed.

(** ** The line cache *)

Lemma line_starts_shift s i : line_starts s (S i) = S <$> line_starts s i.
Proof.
  revert i. induction s as [|c s IH]; intros i; simpl; [done|].
  destruct (ceq c LF); rewrite IH; done.
Qed.

(** Entry [l] of the cache is where the line loop stops; past the cache it
    stops at the end of the text. *)
Lemma seek_line_offsets l s :
  seek_line (N.of_nat l) s = default (length s) (BuildLineOffsets s !! l).
Proof.
  unfold BuildLineOffsets. revert l. induction s as [|c s IH]; intros l.
  - simpl. destruct l as [|l]; [done|]. done.
  - destruct l as [|l]; [done|]. cbn [seek_line].
    replace (0 <? N.of_nat (S l))%N with true by (symmetry; apply N.ltb_lt; lia).
    rewrite lookup_cons. cbn [line_starts]. destruct (ceq c LF).
    + replace (N.of_nat (S l) - 1)%N with (N.of_nat l) by lia. rewrite IH.
      rewrite line_starts_shift. destruct l as [|l]; [done|].
      rewrite !lookup_cons, list_lookup_fmap. by destruct (line_starts s 0 !! l).
    + rewrite (IH (S l)), lookup_cons, line_starts_shift, list_lookup_fmap.
      by destruct (line_starts s 0 !! l).
Qed.

Lemma cached_index_linear f p :
  line_offsets f = BuildLineOffsets (buffer_content f) ->
  cached_index f p = offset_index p (buffer_content f).
Proof.
  intros Hc. unfold cached_index, offset_index.
  replace (seek_line (line p) (buffer_content f))
    with (if (line p <? N.of_nat (length (line_offsets f)))%N
          then default 0 (line_offsets f !! N.to_nat (line p)) else length (buffer_content f));
    [done|].
  rewrite <- (N2Nat.id (line p)) at 3. rewrite seek_line_offsets, Hc.
  destruct (line p <? _)%N eqn:E.
  - apply N.ltb_lt in E. destruct (lookup_lt_is_Some_2 (BuildLineOffsets (buffer_content f)) (N.to_nat (line p)))
      as [i ->]; [lia|]. done.
  - apply N.ltb_ge in E. rewrite lookup_ge_None_2 by lia. done.
Qed.

Lemma cached_offset_linear f p :
  line_offsets f = BuildLineOffsets (buffer_content f) ->
  WorkingFile_GetOffsetForPosition f p = GetOffsetForPosition p (buffer_content f).
Proof.
  intros Hc. unfold WorkingFile_GetOffsetForPosition, GetOffsetForPosition.
  rewrite cached_index_linear by done. by rewrite Hc.
Qed.

(** ** Properties *)

(** The cached lookup of a file whose cache is current computes the same
    offset as the linear scan of its text, for every position. *)
Theorem cached_offset_equiv (f : WorkingFile) (p : lsPosition) :
  line_offsets f = BuildLineOffsets (buffer_content f) ->
  WorkingFile_GetOffsetForPosition f p = GetOffsetForPosition p (buffer_content f).
Proof. apply cached_offset_linear. Qed.

Lemma cached_offset_equiv_witness :
  let f := new_WorkingFile (mkAbsolutePath (lit "/a/b.c")) sample_text in
  WorkingFile_GetOffsetForPosition f (mkPosition 1 2) = 8%Z.
Proof.
  cbv zeta. rewrite (cached_offset_equiv (new_WorkingFile (mkAbsolutePath (lit "/a/b.c")) sample_text)
    (mkPosition 1 2) eq_refl). reflexivity.
Defined.

Section Invariant.
Context (getcwd : bytes) (stat : bytes -> option bool) (writable : bytes -> bool).

Lemma OnOpen_ok st item : wf_ok st -> wf_ok (OnOpen getcwd stat st item).2.
Proof.
  intros Hwf. unfold OnOpen. set (p := GetAbsolutePath getcwd stat (item_uri item)).
  destruct (valid p) eqn:Hv; cbn [negb snd]; [|done].
  unfold GetFileByFilenameNoLock. rewrite Hv. cbn [negb].
  destruct (files st !! p) as [l|] eqn:Hp.
  - destruct (heap st !! l) as [f|] eqn:Hl; cbn [snd]; [|done].
    destruct (wf_objects _ Hwf _ _ Hl) as [_ Hd].
    eapply set_object_ok; [done|done| |done]. by apply RebuildLineOffsets_ok.
  - cbn [snd]. destruct Hwf as [H1 H2 H3].
    assert (Hfr : forall l f, heap st !! l = Some f -> next_loc st <> l)
      by (intros l f Hl; specialize (H3 _ _ Hl); lia).
    split; simpl.
    + intros l f. rewrite lookup_insert. case_decide; [intros [= <-]; split; done|apply H1].
    + intros q l. rewrite lookup_insert. case_decide.
      * intros [= <-]. subst q. split; [done|]. rewrite lookup_insert_eq. eauto.
      * intros Hq. destruct (H2 q l Hq) as (Hvq & f & Hf & Hn). split; [done|].
        rewrite lookup_insert_ne by eauto. eauto.
    + intros l f. rewrite lookup_insert. case_decide; [intros _; lia|].
      intros Hl. specialize (H3 _ _ Hl). lia.
Qed.

Lemma OnChange_ok st change r st' :
  wf_ok st -> OnChange getcwd stat st change = Some (r, st') -> wf_ok st'.
Proof.
  intros Hwf. unfold OnChange. set (p := GetAbsolutePath getcwd stat (change_uri change)).
  destruct (valid p); cbn [negb]; [|by intros [= <- <-]].
  destruct (GetFileByFilenameNoLock st p) as [l|]; [|by intros [= <- <-]].
  destruct (heap st !! l) as [f|] eqn:Hl; [|by intros [= <- <-]].
  set (f1 := match change_version change with Some v => set_version f v | None => f end).
  set (f2 := set_counter f1 (counter f1 + 1)).
  destruct (wf_objects _ Hwf _ _ Hl) as [Ho Hd].
  assert (Hf2 : file_ok f2 /\ filename f2 = filename f)
    by (subst f2 f1; destruct (change_version change); done).
  destruct Hf2 as [Hf2 Hn2].
  destruct (apply_changes f2 (contentChanges change)) as [f3|] eqn:E; [|done].
  intros [= <- <-]. apply apply_changes_ok in E as [Hok Hn]; [|done].
  eapply set_object_ok; [done|done|done|]. by rewrite Hn.
Qed.

Lemma wf_step_ok st st' : wf_step getcwd stat writable st st' -> wf_ok st -> wf_ok st'.
Proof.
  intros Hs Hwf. destruct Hs.
  - by apply OnOpen_ok.
  - by eapply OnChange_ok.
  - unfold OnClose. destruct (valid _); [|done]. cbn [negb].
    destruct (files st !! _); [|done]. apply set_files_ok; [done|apply delete_subseteq].
  - unfold OnSave. destruct (valid _); [|done]. cbn [negb].
    destruct (files st !! _) as [l|]; [|done]. destruct (heap st !! l); [|done].
    destruct Hwf. by split.
  - apply set_files_ok; [done|apply delete_all_subseteq].
  - apply set_files_ok; [done|]. apply map_empty_subseteq.
Qed.
End Invariant.

(** C9. In every state reached from the empty table by open, change, close,
    save, close-directory and clear, every document object (also one only a
    caller still holds) has a line cache that matches its text and the
    directory of its name, and every table entry is a valid path that names
    the object it points to. *)
Theorem working_files_invariant getcwd stat writable (st : WorkingFiles) :
  rtc (wf_step getcwd stat writable) WorkingFiles_init st -> wf_ok st.
Proof.
  apply (rtc_ind_r (fun st => wf_ok st)); [apply wf_ok_init|].
  intros st1 st2 _ Hs IH. by eapply wf_step_ok.
Qed.

Definition demo_uri : lsDocumentUri := mkDocumentUri (lit "file:///w/a.c").

Definition demo_open : WorkingFiles :=
  (OnOpen [] (fun _ => None) WorkingFiles_init (mkItem demo_uri 5 (lit "int x;"))).2.

Lemma working_files_invariant_witness : wf_ok demo_open.
Proof.
  apply (working_files_invariant [] (fun _ => None) (fun _ => true)).
  apply rtc_once. apply step_open.
Defined.

(** ** Edits: specification and refinement *)

(** What a content change means for a text: replace it, or replace the bytes
    between the offsets of the two positions. *)
Definition edit_text (s : bytes) (d : lsTextDocumentContentChangeEvent) : option bytes :=
  match range d with
  | None => Some (text d)
  | Some r =>
      let a := offset_index (range_start r) s in
      let b := offset_index (range_end r) s in
      if a <=? b then Some (take a s ++ text d ++ drop b s) else None
  end.

Fixpoint edit_texts (s : bytes) (ds : list lsTextDocumentContentChangeEvent) : option bytes :=
  match ds with
  | [] => Some s
  | d :: rest => match edit_text s d with Some s' => edit_texts s' rest | None => None end
  end.

(** Every text on the way stays below 2^31 bytes. *)
Fixpoint texts_small (s : bytes) (ds : list lsTextDocumentContentChangeEvent) : Prop :=
  (Z.of_nat (length s) < 2 ^ 31)%Z /\
  match ds with
  | [] => True
  | d :: rest => match edit_text s d with Some s' => texts_small s' rest | None => True end
  end.

Lemma apply_change_edit f d :
  file_ok f -> (Z.of_nat (length (buffer_content f)) < 2 ^ 31)%Z ->
  apply_change f d =
  (fun s => RebuildLineOffsets (set_content f s)) <$> edit_text (buffer_content f) d.
Proof.
  intros [Hc _] Hlen. unfold apply_change, edit_text. destruct (range d) as [r|]; [|done].
  rewrite !cached_offset_linear, !GetOffsetForPosition_index by done.
  pose proof (offset_index_bound (range_start r) (buffer_content f)) as H1.
  pose proof (offset_index_bound (range_end r) (buffer_content f)) as H2.
  set (a := offset_index (range_start r) (buffer_content f)) in *.
  set (b := offset_index (range_end r) (buffer_content f)) in *.
  replace ((0 <=? Z.of_nat a)%Z && (Z.of_nat a <=? Z.of_nat b)%Z
    && (Z.of_nat b <=? Z.of_nat (length (buffer_content f)))%Z) with (a <=? b).
  - destruct (a <=? b); [|done]. rewrite !Nat2Z.id. done.
  - destruct (a <=? b) eqn:E; [apply Nat.leb_le in E|apply Nat.leb_gt in E]; symmetry; lia.
Qed.

Lemma apply_changes_edit f ds :
  file_ok f -> texts_small (buffer_content f) ds ->
  (buffer_content <$> apply_changes f ds) = edit_texts (buffer_content f) ds /\
  (forall f', apply_changes f ds = Some f' -> version f' = version f /\ counter f' = counter f).
Proof.
  revert f. induction ds as [|d ds IH]; intros f Hok Hs; simpl.
  - split; [done|]. by intros f' [= <-].
  - destruct Hs as [Hlen Hs]. rewrite apply_change_edit by done.
    destruct (edit_text (buffer_content f) d) as [s|]; simpl; [|done].
    destruct (IH (RebuildLineOffsets (set_content f s))) as [H1 H2].
    + apply RebuildLineOffsets_ok. apply Hok.
    + done.
    + split; [done|]. intros f' Hf'. by destruct (H2 f' Hf').
Qed.

(** C10. On an open file, [OnChange] computes the sequence of text edits
    exactly: the new text of the object is the edited text, its version is the
    announced one, its change counter grows by one, no other object changes;
    and it is undefined exactly when an edit has a range whose end offset
    precedes its start. *)
Theorem OnChange_refines getcwd stat (st : WorkingFiles) (change : lsTextDocumentDidChangeParams)
    (l : nat) (f : WorkingFile) :
  let p := GetAbsolutePath getcwd stat (change_uri change) in
  wf_ok st ->
  files st !! p = Some l ->
  heap st !! l = Some f ->
  texts_small (buffer_content f) (contentChanges change) ->
  match edit_texts (buffer_content f) (contentChanges change) with
  | None => OnChange getcwd stat st change = None
  | Some s => exists f', OnChange getcwd stat st change = Some (Some l, set_object st l f') /\
      buffer_content f' = s /\
      version f' = default (version f) (change_version change) /\
      counter f' = (counter f + 1)%Z /\
      forall k, k <> l -> heap (set_object st l f') !! k = heap st !! k
  end.
Proof.
  intros p Hwf Hp Hl Hs. destruct (wf_files _ Hwf _ _ Hp) as [Hv _].
  unfold OnChange. fold p. unfold GetFileByFilenameNoLock. rewrite Hv. cbn [negb]. rewrite Hp, Hl.
  set (f1 := match change_version change with Some v => set_version f v | None => f end).
  set (f2 := set_counter f1 (counter f1 + 1)).
  destruct (wf_objects _ Hwf _ _ Hl) as [Ho Hd].
  assert (Hf2 : file_ok f2 /\ buffer_content f2 = buffer_content f /\
    version f2 = default (version f) (change_version change) /\ counter f2 = (counter f + 1)%Z)
    by (subst f2 f1; destruct (change_version change); done).
  destruct Hf2 as (Hok & Hb & Hver & Hcnt). rewrite <- Hb in *.
  destruct (apply_changes_edit f2 (contentChanges change)) as [H1 H2]; [done|done|].
  rewrite <- H1. destruct (apply_changes f2 (contentChanges change)) as [f3|]; simpl; [|done].
  exists f3. destruct (H2 f3 eq_refl) as [Hv3 Hc3]. split; [done|]. split; [done|].
  split; [congruence|]. split; [congruence|]. intros k Hk. by rewrite lookup_insert_ne.
Qed.

Definition demo_change : lsTextDocumentDidChangeParams :=
  mkDidChange demo_uri (Some 7%Z)
    [mkChange (Some (mkRange (mkPosition 0 4) (mkPosition 0 5))) (lit "yy")].

Lemma OnChange_refines_witness :
  exists f', OnChange [] (fun _ => None) demo_open demo_change
             = Some (Some 0, set_object demo_open 0 f') /\ buffer_content f' = lit "int yy;".
Proof.
  assert (Hf : files demo_open !! GetAbsolutePath [] (fun _ => None) (change_uri demo_change) = Some 0)
    by (vm_compute; reflexivity).
  pose proof (OnChange_refines [] (fun _ => None) demo_open demo_change 0
    (new_WorkingFile (mkAbsolutePath (lit "/w/a.c")) (lit "int x;"))) as H.
  destruct H as (f' & H1 & H2 & _).
  - apply OnOpen_ok, wf_ok_init.
  - exact Hf.
  - vm_compute. reflexivity.
  - vm_compute. repeat split.
  - exists f'. split; [exact H1|]. rewrite H2. reflexivity.
Defined.

(** ** When edits are defined *)

Lemma seek_line_mono l l' s : (l <= l')%N -> seek_line l s <= seek_line l' s.
Proof.
  revert l l'. induction s as [|c s IH]; intros l l' Hl; simpl; [lia|].
  destruct (0 <? l)%N eqn:E; [|lia].
  apply N.ltb_lt in E. replace (0 <? l')%N with true by (symmetry; apply N.ltb_lt; lia).
  apply le_n_S, IH. destruct (ceq c LF); lia.
Qed.

Lemma seek_char_mono ch ch' s : (ch <= ch')%N -> seek_char ch s <= seek_char ch' s.
Proof.
  remember (length s) as n eqn:Hn. revert ch ch' s Hn.
  induction (lt_wf n) as [n _ IH]. intros ch ch' [|c s] Hn Hle; [done|].
  rewrite !seek_char_cons. destruct (0 <? ch)%N eqn:E; [|lia].
  apply N.ltb_lt in E. replace (0 <? ch')%N with true by (symmetry; apply N.ltb_lt; lia).
  cbv zeta. set (k := if (128 <=? bval c)%Z then skip_continuation s else 0).
  apply Nat.add_le_mono_l. eapply IH; [|reflexivity|lia].
  rewrite length_drop. simpl in Hn. lia.
Qed.

(** [p] does not reach beyond the line it names. *)
Definition within_line (p : lsPosition) (s : bytes) : bool :=
  offset_index p s <=? seek_line (line p + 1) s.

Lemma offset_index_mono p q s :
  position_ltb q p = false -> within_line p s = true -> offset_index p s <= offset_index q s.
Proof.
  intros Hle Hin%Nat.leb_le. unfold position_ltb in Hle.
  destruct (line q =? line p)%N eqn:E; cbn [negb] in Hle.
  - apply N.eqb_eq in E. apply N.ltb_ge in Hle. unfold offset_index. rewrite E.
    apply Nat.add_le_mono_l, seek_char_mono. done.
  - apply N.eqb_neq in E. apply N.ltb_ge in Hle.
    etrans; [exact Hin|]. etrans; [apply (seek_line_mono _ (line q)); lia|].
    unfold offset_index. lia.
Qed.

(** A ranged edit whose start is not after its end and does not reach
    beyond its own line is always defined, and keeps exactly the text before
    the start and after the end. *)
Theorem edit_defined (s : bytes) (r : lsRange) (t : bytes) :
  position_ltb (range_end r) (range_start r) = false ->
  within_line (range_start r) s = true ->
  edit_text s (mkChange (Some r) t) =
  Some (take (offset_index (range_start r) s) s ++ t ++ drop (offset_index (range_end r) s) s).
Proof.
  intros Hle Hin. unfold edit_text. simpl.
  pose proof (offset_index_mono _ _ _ Hle Hin) as H. apply Nat.leb_le in H. by rewrite H.
Qed.

Lemma edit_defined_witness :
  edit_text sample_text (mkChange (Some (mkRange (mkPosition 0 1) (mkPosition 1 2))) (lit "-"))
  = Some (lit "a-z").
Proof.
  rewrite (edit_defined sample_text (mkRange (mkPosition 0 1) (mkPosition 1 2)) (lit "-"));
    [reflexivity|reflexivity|reflexivity].
Defined.

(** The guard of [edit_defined] is needed: a client range with start before end, but a
    start character beyond its line, makes [OnChange] call
    [std::string::replace] with an end before the begin, on an open file. *)
Theorem OnChange_undefined_range :
  exists (st : WorkingFiles) (r : lsRange),
    rtc (wf_step [] (fun _ => None) (fun _ => true)) WorkingFiles_init st /\
    position_ltb (range_start r) (range_end r) = true /\
    OnChange [] (fun _ => None) st (mkDidChange demo_uri None [mkChange (Some r) []]) = None.
Proof.
  exists (OnOpen [] (fun _ => None) WorkingFiles_init
            (mkItem demo_uri 1 (lit "a" ++ LF :: lit "b"))).2,
         (mkRange (mkPosition 0 3) (mkPosition 1 0)).
  split; [apply rtc_once, step_open|]. split; [reflexivity|]. vm_compute. reflexivity.
Qed.

(** Opening a document that is not open yet stores its text with a fresh
    cache under its path, but leaves the version of the object at 0 whatever
    version the client announced; only re-opening records it. *)
Theorem OnOpen_version getcwd stat (st : WorkingFiles) (item : lsTextDocumentItem) :
  let p := GetAbsolutePath getcwd stat (item_uri item) in
  wf_ok st ->
  valid p = true ->
  exists l f, (OnOpen getcwd stat st item).1.1 = Some l /\
    files (OnOpen getcwd stat st item).2 !! p = Some l /\
    heap (OnOpen getcwd stat st item).2 !! l = Some f /\
    buffer_content f = item_text item /\
    version f = match files st !! p with Some _ => item_version item | None => 0%Z end.
Proof.
  intros p Hwf Hv. unfold OnOpen. fold p. unfold GetFileByFilenameNoLock.
  rewrite Hv. cbn [negb]. destruct (files st !! p) as [l|] eqn:Hp.
  - destruct (wf_files _ Hwf _ _ Hp) as (_ & f & Hf & _). rewrite Hf. simpl.
    exists l. eexists. rewrite lookup_insert_eq. done.
  - simpl. exists (next_loc st). eexists. rewrite !lookup_insert_eq. done.
Qed.

Lemma OnOpen_version_witness :
  exists f, heap demo_open !! 0 = Some f /\ version f = 0%Z.
Proof.
  destruct (OnOpen_version [] (fun _ => None) WorkingFiles_init (mkItem demo_uri 5 (lit "int x;"))
    wf_ok_init eq_refl) as (l & f & Hl & _ & Hf & _ & Hv).
  assert (Hl0 : l = 0) by (vm_compute in Hl; congruence). subst l.
  exists f. split; [exact Hf|exact Hv].
Defined.
