(* ===== verification/Stream.v ===== *)
(** * Input streams

    The interface [lsp::istream] of include/LibLsp/JsonRpc/stream.h, the laws
    a stream over a byte source promises to its readers, and the POSIX
    [stdin_istream] with the kernel's [poll] and [read] as a list of events.
    The class [pipe_istream] of Process.cpp has the same code with other
    texts for [what()], so the stream is indexed by its texts. *)
From S2P Require Import Prelude CppString.

(** ** The interface

    [get] is [None] for EOF; [read] and [read_some] return the bytes they
    store in the caller's buffer. *)
Class Istream (S : Type) := {
  bad : S -> bool;
  fail : S -> bool;
  eof : S -> bool;
  what : S -> bytes;
  need_to_clear_the_state : S -> bool;
  clear : S -> S;
  get : S -> option byte * S;
  read : nat -> S -> bytes * S;
  read_some : nat -> S -> bytes * S
}.

Definition good {S} `{Istream S} (s : S) : bool := negb (fail s) && negb (bad s) && negb (eof s).

(** [istream::read_some], the default implementation by one [get] *)
Definition default_read_some {S} (get : S -> option byte * S) (count : nat) (s : S) : bytes * S :=
  match count with
  | 0 => ([], s)
  | _ => match get s with
         | (None, s') => ([], s')
         | (Some c, s') => ([c], s')
         end
  end.

(** What a reader may rely on while the stream is [alive] (not interrupted, no
    error, end not yet observed); [pending] is what is still to be read. *)
Class StreamLaws (S : Type) `{Istream S} (alive : S -> Prop) (pending : S -> bytes) := {
  alive_flags : forall s, alive s -> bad s = false /\ fail s = false /\ eof s = false;
  get_law : forall s, alive s ->
    match pending s with
    | [] => (get s).1 = None
    | c :: rest => exists s', get s = (Some c, s') /\ alive s' /\ pending s' = rest
    end;
  read_law : forall n s, alive s -> n <= length (pending s) ->
    exists s', read n s = (take n (pending s), s') /\ alive s' /\ pending s' = drop n (pending s);
  read_some_law : forall n s, alive s -> 0 < n -> pending s <> [] ->
    exists k s', 0 < k <= n /\ read_some n s = (take k (pending s), s') /\
      take k (pending s) <> [] /\ alive s' /\ pending s' = drop k (pending s);
  read_some_end : forall n s, alive s -> pending s = [] -> (read_some n s).1 = []
}.

(** ** [stdin_istream]

    One event per return of [poll] (and of the [read] that follows it). *)
Inductive os_event :=
| Timeout                        (** [poll] returned 0 *)
| PollEintr                      (** [poll] failed with EINTR *)
| PollFailed (msg : bytes)       (** [poll] failed otherwise *)
| PollNval | PollErr             (** POLLNVAL, POLLERR *)
| PollOther                      (** neither POLLIN nor POLLHUP *)
| Interrupt                      (** [interrupt()] was called during the wait *)
| Data (chunk : bytes)           (** bytes that [read] finds in the descriptor; [[]]: it returned 0 *)
| ReadEintr                      (** [read] failed with EINTR *)
| ReadFailed (msg : bytes).      (** [read] failed otherwise *)

(** The texts of [what()] *)
Record fd_messages := mkMessages { invalid_fd : bytes; fd_error : bytes; interrupted_text : bytes }.

Record fd_istream (m : fd_messages) := mkFd {
  fd_ok : bool;                  (** [fd_ >= 0] *)
  interrupted_ : bool;
  eof_ : bool;
  bad_ : bool;
  what_ : bytes;
  buffer_ : bytes;               (** the unread part of [buffer_], from [buffer_pos_] on *)
  events : list os_event         (** what the kernel will report; [[]] is end of file *)
}.
Arguments mkFd {m}.
Arguments fd_ok {m}.
Arguments interrupted_ {m}.
Arguments eof_ {m}.
Arguments bad_ {m}.
Arguments what_ {m}.
Arguments buffer_ {m}.
Arguments events {m}.

Definition stdin_messages : fd_messages :=
  mkMessages (lit "Invalid input file descriptor.") (lit "Input file descriptor error.")
    (lit "Input stream interrupted.").
Abbreviation stdin_istream := (fd_istream stdin_messages).
Abbreviation mkStdin := (@mkFd stdin_messages).

Definition kBufferCapacity : nat := Z.to_nat 4096.

Definition set_bad {m} (s : fd_istream m) (msg : bytes) (evs : list os_event) : fd_istream m :=
  mkFd (fd_ok s) (interrupted_ s) (eof_ s) true msg (buffer_ s) evs.

Definition set_events {m} (s : fd_istream m) (evs : list os_event) : fd_istream m :=
  mkFd (fd_ok s) (interrupted_ s) (eof_ s) (bad_ s) (what_ s) (buffer_ s) evs.

Definition set_eof {m} (s : fd_istream m) (evs : list os_event) : fd_istream m :=
  mkFd (fd_ok s) (interrupted_ s) true (bad_ s) (what_ s) (buffer_ s) evs.

Definition fd_interrupt {m} (s : fd_istream m) : fd_istream m :=
  mkFd (fd_ok s) true (eof_ s) (bad_ s) (what_ s) (buffer_ s) (events s).

(** The loop of [read_some] once the internal buffer is empty. *)
Fixpoint fd_poll {m} (count : nat) (s : fd_istream m) (evs : list os_event)
    : bytes * fd_istream m :=
  match evs with
  | [] => ([], set_eof s [])
  | Interrupt :: rest => ([], set_eof (fd_interrupt s) rest)
  | Timeout :: rest | PollEintr :: rest | PollOther :: rest | ReadEintr :: rest =>
      fd_poll count s rest
  | PollFailed msg :: rest | ReadFailed msg :: rest => ([], set_bad s msg rest)
  | PollNval :: rest => ([], set_bad s (invalid_fd m) rest)
  | PollErr :: rest => ([], set_bad s (fd_error m) rest)
  | Data [] :: rest => ([], set_eof s rest)
  | Data chunk :: rest =>
      let capacity := if kBufferCapacity <=? count then count else kBufferCapacity in
      let got := take capacity chunk in
      let left := drop capacity chunk in
      let evs' := match left with [] => rest | _ => Data left :: rest end in
      (take count got,
       mkFd (fd_ok s) (interrupted_ s) (eof_ s) (bad_ s) (what_ s) (drop count got) evs')
  end.

Definition fd_read_some {m} (count : nat) (s : fd_istream m) : bytes * fd_istream m :=
  if (count =? 0) || interrupted_ s then ([], s)
  else match buffer_ s with
       | _ :: _ =>
           (take count (buffer_ s),
            mkFd (fd_ok s) (interrupted_ s) (eof_ s) (bad_ s) (what_ s)
              (drop count (buffer_ s)) (events s))
       | [] =>
           if negb (fd_ok s) then ([], set_bad s (invalid_fd m) (events s))
           else fd_poll count s (events s)
       end.

Definition fd_get {m} (s : fd_istream m) : option byte * fd_istream m :=
  match fd_read_some 1 s with
  | ([c], s') => (Some c, s')
  | (_, s') => (None, s')
  end.

(** The loop of [read]: every round but the last stores at least one byte. *)
Fixpoint fd_read_loop {m} (fuel count : nat) (s : fd_istream m) : bytes * fd_istream m :=
  match fuel with
  | 0 => ([], s)
  | S fuel' =>
      if count =? 0 then ([], s)
      else match fd_read_some count s with
           | ([], s') => ([], s')
           | (chunk, s') =>
               let '(more, s'') := fd_read_loop fuel' (count - length chunk) s' in
               (chunk ++ more, s'')
           end
  end.

Definition fd_read {m} (count : nat) (s : fd_istream m) : bytes * fd_istream m :=
  if interrupted_ s || (count =? 0) then ([], s) else fd_read_loop count count s.

Definition fd_clear {m} (s : fd_istream m) : fd_istream m :=
  mkFd (fd_ok s) false false false [] (buffer_ s) (events s).

Definition fd_what {m} (s : fd_istream m) : bytes :=
  if interrupted_ s then interrupted_text m else what_ s.

#[export] Instance fd_Istream {m} : Istream (fd_istream m) := {
  bad := bad_;
  fail := interrupted_;
  eof s := eof_ s || interrupted_ s;
  what := fd_what;
  need_to_clear_the_state _ := false;
  clear := fd_clear;
  get := fd_get;
  read := fd_read;
  read_some := fd_read_some
}.

(** ** The laws hold for [stdin_istream] *)

Definition event_bytes (e : os_event) : bytes := match e with Data chunk => chunk | _ => [] end.

(** No error is coming: only data and interrupted or idle polls. *)
Definition event_harmless (e : os_event) : bool :=
  match e with
  | Timeout | PollEintr | PollOther | Data (_ :: _) | ReadEintr => true
  | _ => false
  end.

Definition fd_alive {m} (s : fd_istream m) : Prop :=
  fd_ok s = true /\ interrupted_ s = false /\ eof_ s = false /\ bad_ s = false /\
  forallb event_harmless (events s) = true.

Definition fd_pending {m} (s : fd_istream m) : bytes :=
  buffer_ s ++ concat (map event_bytes (events s)).

Lemma take_take_drop (count : nat) (l r : bytes) :
  l <> [] -> exists k, k <= count /\ (0 < count -> 0 < k) /\
    take count l = take k (l ++ r) /\ drop count l ++ r = drop k (l ++ r).
Proof.
  intros Hl. exists (min count (length l)). split; [lia|].
  split; [destruct l; simpl; [done|lia]|].
  destruct (decide (count <= length l)).
  - rewrite Nat.min_l by lia. rewrite take_app_le, drop_app_le by lia. done.
  - rewrite Nat.min_r by lia. rewrite take_app_length, drop_app_length.
    rewrite take_ge, drop_ge by lia. done.
Qed.

Lemma take_nonempty (k : nat) (l : bytes) : 0 < k -> l <> [] -> take k l <> [].
Proof. destruct k, l; try done; lia. Qed.

Lemma drop_take_drop (count capacity : nat) (l : bytes) :
  count <= capacity -> drop count (take capacity l) ++ drop capacity l = drop count l.
Proof.
  intros Hc. rewrite <- (take_drop capacity l) at 3.
  destruct (decide (capacity <= length l)).
  - rewrite drop_app_le by len. done.
  - rewrite (drop_ge l capacity) by lia. rewrite !app_nil_r. done.
Qed.

Lemma fd_poll_law {m} count (s : fd_istream m) evs :
  0 < count -> buffer_ s = [] -> fd_ok s = true -> interrupted_ s = false ->
  eof_ s = false -> bad_ s = false -> forallb event_harmless evs = true ->
  let pend := concat (map event_bytes evs) in
  (pend = [] -> (fd_poll count s evs).1 = []) /\
  (pend <> [] -> exists k s', 0 < k <= count /\ fd_poll count s evs = (take k pend, s') /\
     fd_alive s' /\ fd_pending s' = drop k pend).
Proof.
  intros Hc Hb Hfd Hi He Hbad. induction evs as [|e evs IH]; intros Hev pend; [by split|].
  cbn [forallb] in Hev. apply andb_true_iff in Hev as [He1 Hev]. specialize (IH Hev).
  destruct e; try done; try exact IH. destruct chunk as [|c chunk]; [done|].
  split; [done|]. intros _. cbn [fd_poll].
  set (ch := c :: chunk) in *. set (rest := concat (map event_bytes evs)) in *.
  set (capacity := if kBufferCapacity <=? count then count else kBufferCapacity).
  assert (Hcap : count <= capacity)
    by (subst capacity; destruct (Nat.leb_spec kBufferCapacity count); lia).
  set (evs' := match drop capacity ch with [] => evs | _ => Data (drop capacity ch) :: evs end).
  assert (Hpe : concat (map event_bytes evs') = drop capacity ch ++ rest)
    by (subst evs'; by destruct (drop capacity ch)).
  assert (Hhe : forallb event_harmless evs' = true)
    by (subst evs'; by destruct (drop capacity ch)).
  destruct (take_take_drop count ch rest) as (k & Hk1 & Hk2 & Hk3 & Hk4); [done|].
  exists k. eexists. split; [auto with lia|]. split; [|split].
  - f_equal. rewrite take_take, Nat.min_l by lia. exact Hk3.
  - unfold fd_alive. simpl. auto.
  - unfold fd_pending. cbn [buffer_ events]. rewrite Hpe, app_assoc.
    unfold pend. cbn [map concat event_bytes]. fold rest. rewrite <- Hk4. f_equal.
    by apply drop_take_drop.
Qed.

Lemma fd_read_some_law {m} count (s : fd_istream m) :
  fd_alive s -> 0 < count -> fd_pending s <> [] ->
  exists k s', 0 < k <= count /\ fd_read_some count s = (take k (fd_pending s), s') /\
    take k (fd_pending s) <> [] /\ fd_alive s' /\ fd_pending s' = drop k (fd_pending s).
Proof.
  intros (Hfd & Hi & He & Hb & Hev) Hc Hne. unfold fd_read_some.
  replace (count =? 0) with false by (symmetry; apply Nat.eqb_neq; lia). rewrite Hi. cbn [orb].
  destruct (buffer_ s) as [|c buf] eqn:Ebuf.
  - rewrite Hfd. cbn [negb].
    destruct (fd_poll_law count s (events s)) as [_ H]; [done..|].
    unfold fd_pending in *. rewrite Ebuf in *. simpl in *.
    destruct (H Hne) as (k & s' & Hk & H1 & H2 & H3). exists k, s'.
    split; [done|]. split; [done|]. split; [apply take_nonempty; [lia|done]|]. done.
  - destruct (take_take_drop count (c :: buf) (concat (map event_bytes (events s))))
      as (k & Hk1 & Hk2 & Hk3 & Hk4); [done|].
    unfold fd_pending in *. rewrite Ebuf in *. exists k. eexists.
    split; [auto with lia|]. split; [by rewrite <- Hk3|].
    split; [apply take_nonempty; [auto|done]|]. split; [by unfold fd_alive; simpl|].
    simpl buffer_. simpl events. exact Hk4.
Qed.

Lemma fd_read_some_end {m} count (s : fd_istream m) :
  fd_alive s -> fd_pending s = [] -> (fd_read_some count s).1 = [].
Proof.
  intros (Hfd & Hi & He & Hb & Hev) Hp. unfold fd_read_some. rewrite Hi, orb_false_r.
  destruct (count =? 0) eqn:Ec; [done|]. apply Nat.eqb_neq in Ec.
  apply app_eq_nil in Hp as [Hbuf Hp]. rewrite Hbuf, Hfd. cbn [negb].
  apply (fd_poll_law count s (events s)); done || lia.
Qed.

Lemma fd_read_loop_law {m} fuel count (s : fd_istream m) :
  count <= fuel -> fd_alive s -> count <= length (fd_pending s) ->
  exists s', fd_read_loop fuel count s = (take count (fd_pending s), s') /\
    fd_alive s' /\ fd_pending s' = drop count (fd_pending s).
Proof.
  revert count s. induction fuel as [|fuel IH]; intros count s Hf Ha Hc.
  - replace count with 0 by lia. exists s. by rewrite take_0, drop_0.
  - cbn [fd_read_loop]. destruct (count =? 0) eqn:E0.
    + apply Nat.eqb_eq in E0. subst. exists s. by rewrite take_0, drop_0.
    + apply Nat.eqb_neq in E0.
      destruct (fd_read_some_law count s) as (k & s1 & Hk & H1 & Hne & Ha1 & Hp1);
        [done|lia|by intros Hn; rewrite Hn in Hc; simpl in Hc; lia|].
      assert (Hlen : length (take k (fd_pending s)) = k) by (rewrite length_take; lia).
      rewrite H1. destruct (take k (fd_pending s)) as [|c l] eqn:Ech; [done|].
      destruct (IH (count - length (c :: l)) s1) as (s2 & H2 & Ha2 & Hp2);
        [lia|done|rewrite Hp1, length_drop; lia|].
      rewrite H2. exists s2. split; [|split; [done|]].
      * f_equal. rewrite Hp1, Hlen, <- Ech.
        rewrite <- (take_drop k (take count (fd_pending s))) at 1.
        rewrite take_take, Nat.min_l by lia. by rewrite skipn_firstn_comm.
      * rewrite Hp2, Hp1, drop_drop, Hlen. f_equal. lia.
Qed.

#[export] Instance fd_StreamLaws {m} : StreamLaws (fd_istream m) fd_alive fd_pending.
Proof.
  split.
  - intros s (_ & Hi & He & Hb & _). simpl. rewrite He, Hi. done.
  - intros s Ha. simpl. unfold fd_get. destruct (fd_pending s) as [|c rest] eqn:Hp.
    + pose proof (fd_read_some_end 1 s Ha Hp) as H.
      destruct (fd_read_some 1 s) as [l s']. simpl in H. by subst l.
    + destruct (fd_read_some_law 1 s) as (k & s' & Hk & H1 & _ & Ha' & Hp');
        [done|lia|by rewrite Hp|].
      replace k with 1 in * by lia. rewrite H1, Hp. simpl. exists s'.
      rewrite Hp', Hp. simpl. by rewrite drop_0.
  - intros n s Ha Hn. simpl. unfold fd_read. destruct Ha as (? & Hi & Ha') eqn:E.
    rewrite Hi. cbn [orb]. destruct (n =? 0) eqn:E0.
    + apply Nat.eqb_eq in E0. subst. exists s. by rewrite take_0, drop_0.
    + by apply fd_read_loop_law.
  - apply fd_read_some_law.
  - apply fd_read_some_end.
Qed.
