(* ===== verification/StdStream.v ===== *)
(** * Wrappers of the standard streams

    [standard_istream] and [standard_ostream] of
    include/LibLsp/JsonRpc/stream.h over a model of [std::istream]: the state
    bits, the get area of the stream buffer and what its refills will bring.
    [standard_istream] satisfies [StreamLaws], so the theorems on framing hold
    for it as they do for [stdin_istream]. *)
From S2P Require Import Prelude CppString Stream.

(** ** [std::istream]

    A refill of the stream buffer brings a chunk; [SInterrupt] marks a call of
    [interrupt()] by another thread while the refill waits. *)
Inductive std_event := Chunk (c : bytes) | SInterrupt.

Record std_istream := mkStd {
  eofbit : bool;
  failbit : bool;
  badbit : bool;
  gbuf : bytes;                  (** the unread part of the get area *)
  refills : list std_event;      (** [[]] is end of file *)
  showmanyc : nat                (** what [showmanyc()] estimates when the get area is empty *)
}.

Definition std_good (s : std_istream) : bool := negb (eofbit s || failbit s || badbit s).

(** [streambuf::sgetn]; the flag says whether [interrupt()] was called during
    the wait, which also sets [eofbit]. *)
Fixpoint sgetn (n : nat) (buf : bytes) (evs : list std_event) : bytes * bool * bytes * list std_event :=
  if n <=? length buf then (take n buf, false, drop n buf, evs)
  else match evs with
       | [] => (buf, false, [], [])
       | SInterrupt :: rest => let '(b, _, buf', evs') := sgetn n buf rest in (b, true, buf', evs')
       | Chunk c :: rest =>
           let '(b, i, buf', evs') := sgetn (n - length buf) c rest in (buf ++ b, i, buf', evs')
       end.

(** [istream::read] and [istream::get] (a [read] of one character): a stream
    that is not good sets [failbit]; a short read sets [eofbit] and [failbit] *)
Definition std_read (n : nat) (s : std_istream) : bytes * bool * std_istream :=
  if negb (std_good s)
  then ([], false, mkStd (eofbit s) true (badbit s) (gbuf s) (refills s) (showmanyc s))
  else let '(b, i, buf', evs') := sgetn n (gbuf s) (refills s) in
       let short := length b <? n in
       (b, i, mkStd (i || short) short false buf' evs' (showmanyc s)).

Definition std_get (s : std_istream) : option byte * bool * std_istream :=
  match std_read 1 s with
  | (c :: _, i, s') => (Some c, i, s')
  | ([], i, s') => (None, i, s')
  end.

Definition in_avail (s : std_istream) : nat :=
  match gbuf s with [] => showmanyc s | _ => length (gbuf s) end.

Definition std_setstate_eof (s : std_istream) : std_istream :=
  mkStd true (failbit s) (badbit s) (gbuf s) (refills s) (showmanyc s).

Definition std_clear (s : std_istream) : std_istream :=
  mkStd false false false (gbuf s) (refills s) (showmanyc s).

(** ** [standard_istream] *)
Record standard_istream := mkStandard { impl : std_istream; std_interrupted : bool }.

Definition standard_get (s : standard_istream) : option byte * standard_istream :=
  if std_interrupted s then (None, s)
  else let '(c, i, impl') := std_get (impl s) in
       (if i then None else c, mkStandard impl' i).

Definition standard_read (count : nat) (s : standard_istream) : bytes * standard_istream :=
  if std_interrupted s then ([], s)
  else let '(b, i, impl') := std_read count (impl s) in (b, mkStandard impl' i).

Definition standard_read_some (count : nat) (s : standard_istream) : bytes * standard_istream :=
  if (count =? 0) || std_interrupted s then ([], s)
  else match std_get (impl s) with
       | (None, i, impl') | (Some _, true as i, impl') => ([], mkStandard impl' i)
       | (Some first, false, impl') =>
           let available := in_avail impl' in
           if (1 <? count) && (0 <? available) then
             let to_read := min available (count - 1) in
             let '(b, i, buf', evs') := sgetn to_read (gbuf impl') (refills impl') in
             (first :: b,
              mkStandard (mkStd (eofbit impl' || i) (failbit impl') (badbit impl') buf' evs'
                            (showmanyc impl')) i)
           else ([first], mkStandard impl' false)
       end.

Definition standard_interrupt (s : standard_istream) : standard_istream :=
  mkStandard (std_setstate_eof (impl s)) true.

Definition standard_clear (s : standard_istream) : standard_istream :=
  mkStandard (std_clear (impl s)) false.

Definition standard_what (s : standard_istream) : bytes :=
  if std_interrupted s then lit "Input stream interrupted." else [].

#[export] Instance standard_Istream : Istream standard_istream := {
  bad s := badbit (impl s);
  fail s := std_interrupted s || failbit (impl s) || badbit (impl s);
  eof s := std_interrupted s || eofbit (impl s);
  what := standard_what;
  need_to_clear_the_state _ := false;
  clear := standard_clear;
  get := standard_get;
  read := standard_read;
  read_some := standard_read_some
}.

(** ** The laws hold for [standard_istream] *)

Definition refill_bytes (e : std_event) : bytes := match e with Chunk c => c | SInterrupt => [] end.
Definition is_chunk (e : std_event) : bool := match e with Chunk _ => true | SInterrupt => false end.

Definition std_pending (buf : bytes) (evs : list std_event) : bytes := buf ++ concat (map refill_bytes evs).

Definition standard_pending (s : standard_istream) : bytes :=
  std_pending (gbuf (impl s)) (refills (impl s)).

Definition standard_alive (s : standard_istream) : Prop :=
  std_interrupted s = false /\ std_good (impl s) = true /\ forallb is_chunk (refills (impl s)) = true.

(** [sgetn] takes from the front of what is pending, across refills. *)
Lemma sgetn_spec n buf evs :
  forallb is_chunk evs = true ->
  exists buf' evs', sgetn n buf evs = (take n (std_pending buf evs), false, buf', evs') /\
    std_pending buf' evs' = drop n (std_pending buf evs) /\ forallb is_chunk evs' = true.
Proof.
  unfold std_pending. revert n buf. induction evs as [|[c|] evs IH]; intros n buf Hev; [..|done].
  - cbn [sgetn map concat]. rewrite app_nil_r.
    destruct (Nat.leb_spec n (length buf)) as [Hn|Hn].
    + exists (drop n buf), []. by rewrite app_nil_r.
    + exists [], []. rewrite (take_ge buf), (drop_ge buf) by lia. done.
  - cbn [sgetn]. cbn [forallb is_chunk andb] in Hev.
    destruct (Nat.leb_spec n (length buf)) as [Hn|Hn].
    + exists (drop n buf), (Chunk c :: evs). rewrite take_app_le, drop_app_le by lia. done.
    + destruct (IH (n - length buf) c Hev) as (buf' & evs' & H1 & H2 & H3). rewrite H1.
      exists buf', evs'. cbn [map concat refill_bytes].
      rewrite (take_app_ge buf), (drop_app_ge buf) by lia. done.
Qed.

Lemma std_good_bits s : std_good s = true -> eofbit s = false /\ failbit s = false /\ badbit s = false.
Proof. unfold std_good. intros H. by char_cases. Qed.

Lemma std_read_spec n s :
  std_good s = true -> forallb is_chunk (refills s) = true ->
  exists buf' evs',
    let b := take n (std_pending (gbuf s) (refills s)) in
    let short := length b <? n in
    std_read n s = (b, false, mkStd short short false buf' evs' (showmanyc s)) /\
    std_pending buf' evs' = drop n (std_pending (gbuf s) (refills s)) /\ forallb is_chunk evs' = true.
Proof.
  intros Hg Hev. unfold std_read. rewrite Hg. cbn [negb].
  destruct (sgetn_spec n (gbuf s) (refills s) Hev) as (buf' & evs' & H1 & H2 & H3).
  rewrite H1. exists buf', evs'. done.
Qed.

Lemma std_read_enough n s :
  std_good s = true -> forallb is_chunk (refills s) = true ->
  n <= length (std_pending (gbuf s) (refills s)) ->
  exists s', std_read n s = (take n (std_pending (gbuf s) (refills s)), false, s') /\
    standard_alive (mkStandard s' false) /\
    standard_pending (mkStandard s' false) = drop n (std_pending (gbuf s) (refills s)).
Proof.
  intros Hg Hev Hn. destruct (std_read_spec n s Hg Hev) as (buf' & evs' & H1 & H2 & H3).
  cbv zeta in H1. rewrite H1. eexists. split; [done|].
  replace (length _ <? n) with false by (symmetry; apply Nat.ltb_ge; rewrite length_take; lia).
  done.
Qed.

Lemma std_get_spec s :
  std_good s = true -> forallb is_chunk (refills s) = true ->
  match std_pending (gbuf s) (refills s) with
  | [] => exists s', std_get s = (None, false, s')
  | c :: rest => exists s', std_get s = (Some c, false, s') /\
      standard_alive (mkStandard s' false) /\ standard_pending (mkStandard s' false) = rest
  end.
Proof.
  intros Hg Hev. unfold std_get. destruct (std_pending (gbuf s) (refills s)) as [|c rest] eqn:Hp.
  - destruct (std_read_spec 1 s Hg Hev) as (buf' & evs' & H1 & _). cbv zeta in H1.
    rewrite H1, Hp. simpl. eauto.
  - destruct (std_read_enough 1 s Hg Hev) as (s' & H1 & H2 & H3); [rewrite Hp; simpl; lia|].
    rewrite H1, Hp in *. simpl in *. rewrite drop_0 in H3. eauto.
Qed.

Lemma standard_read_some_law count s :
  standard_alive s -> 0 < count -> standard_pending s <> [] ->
  exists k s', 0 < k <= count /\ standard_read_some count s = (take k (standard_pending s), s') /\
    take k (standard_pending s) <> [] /\ standard_alive s' /\
    standard_pending s' = drop k (standard_pending s).
Proof.
  intros (Hi & Hg & Hev) Hc Hne. unfold standard_read_some.
  replace (count =? 0) with false by (symmetry; apply Nat.eqb_neq; lia). rewrite Hi. cbn [orb].
  pose proof (std_get_spec (impl s) Hg Hev) as Hget. unfold standard_pending in *.
  destruct (std_pending (gbuf (impl s)) (refills (impl s))) as [|c rest]; [done|].
  destruct Hget as (s' & -> & (Hi' & Hg' & Hev') & Hp'). unfold standard_pending in Hp'.
  cbn [impl] in *. destruct ((1 <? count) && (0 <? in_avail s')) eqn:Emore.
  - set (to_read := min (in_avail s') (count - 1)).
    destruct (sgetn_spec to_read (gbuf s') (refills s') Hev') as (buf' & evs' & H1 & H2 & H3).
    rewrite H1, Hp' in *. exists (S to_read). eexists. split; [lia|].
    split; [done|]. split; [done|]. cbn [impl gbuf refills]. split; [|done].
    destruct (std_good_bits s' Hg') as (-> & -> & ->). done.
  - exists 1, (mkStandard s' false). simpl. rewrite drop_0. by repeat split; try lia.
Qed.

Lemma standard_read_some_end count s :
  standard_alive s -> standard_pending s = [] -> (standard_read_some count s).1 = [].
Proof.
  intros (Hi & Hg & Hev) Hp. unfold standard_read_some. rewrite Hi, orb_false_r.
  destruct (count =? 0); [done|]. pose proof (std_get_spec (impl s) Hg Hev) as Hget.
  unfold standard_pending in Hp. rewrite Hp in Hget. by destruct Hget as (s' & ->).
Qed.

#[export] Instance standard_StreamLaws : StreamLaws standard_istream standard_alive standard_pending.
Proof.
  split.
  - intros s (Hi & Hg & _). simpl. destruct (std_good_bits _ Hg) as (-> & -> & ->). by rewrite Hi.
  - intros s (Hi & Hg & Hev). simpl. unfold standard_get. rewrite Hi.
    pose proof (std_get_spec (impl s) Hg Hev) as Hget. unfold standard_pending.
    destruct (std_pending (gbuf (impl s)) (refills (impl s))).
    + by destruct Hget as (s' & ->).
    + destruct Hget as (s' & -> & Ha & Hp). eauto.
  - intros n s (Hi & Hg & Hev) Hn. simpl. unfold standard_read. rewrite Hi.
    destruct (std_read_enough n (impl s) Hg Hev Hn) as (s' & -> & H). eauto.
  - apply standard_read_some_law.
  - apply standard_read_some_end.
Qed.

(** An interrupted stream delivers nothing until it is cleared. *)
Lemma standard_interrupted_silent s count :
  let s' := standard_interrupt s in
  standard_get s' = (None, s') /\ standard_read count s' = ([], s') /\
  standard_read_some count s' = ([], s') /\ good s' = false.
Proof.
  unfold standard_get, standard_read, standard_read_some, standard_interrupt. cbn [std_interrupted].
  rewrite orb_true_r. done.
Qed.

(** The byte for which a reader waits while [interrupt()] is called is taken
    from the stream and dropped: after [clear()] the text continues behind it. *)
Lemma standard_interrupt_drops_byte :
  let s := mkStandard (mkStd false false false [] [SInterrupt; Chunk (lit "abc")] 0) false in
  exists s', standard_get s = (None, s') /\ standard_pending (standard_clear s') = lit "bc".
Proof. eexists. split; vm_compute; reflexivity. Qed.
