(* ===== verification/Process.v ===== *)
(** * Child processes

    src/jsonrpc/Process.cpp: the pipe streams, the life of a child process on
    POSIX over a model of the kernel's descriptor tables and children, the
    command line built for Windows; and the watcher of
    src/lsp/ParentProcessWatcher.cpp. *)
From S2P Require Import Prelude CppString Stream.
From stdpp Require Import gmap.

(** ** [pipe_istream]: the code of [stdin_istream] with its own texts *)
Definition pipe_messages : fd_messages :=
  mkMessages (lit "Invalid process stdout pipe.") (lit "Process stdout pipe error.")
    (lit "Process input stream interrupted.").
Abbreviation pipe_istream := (fd_istream pipe_messages).

Definition pipe_get : pipe_istream -> option byte * pipe_istream := fd_get.
Definition pipe_read : nat -> pipe_istream -> bytes * pipe_istream := fd_read.
Definition pipe_read_some : nat -> pipe_istream -> bytes * pipe_istream := fd_read_some.
Definition pipe_clear : pipe_istream -> pipe_istream := fd_clear.
Definition pipe_what : pipe_istream -> bytes := fd_what.
Definition pipe_interrupt : pipe_istream -> pipe_istream := fd_interrupt.
Definition pipe_close (s : pipe_istream) : pipe_istream :=
  mkFd false (interrupted_ s) (eof_ s) (bad_ s) (what_ s) (buffer_ s) (events s).

(** ** [pipe_ostream]

    One event per return of [write]. *)
Inductive write_event :=
| WriteEintr
| WriteFailed (msg : bytes)
| Wrote (n : nat).             (** the kernel takes [n] bytes, or all of them if there are fewer *)

Record pipe_ostream := mkOut {
  ofd_ok : bool;
  obad : bool;
  owhat : bytes;
  delivered : bytes;             (** what went into the pipe *)
  wevents : list write_event     (** [[]]: everything is taken *)
}.

Fixpoint write_loop (data : bytes) (s : pipe_ostream) (evs : list write_event) : pipe_ostream :=
  match data, evs with
  | [], _ => mkOut (ofd_ok s) (obad s) (owhat s) (delivered s) evs
  | _, [] => mkOut (ofd_ok s) (obad s) (owhat s) (delivered s ++ data) []
  | _, WriteEintr :: rest => write_loop data s rest
  | _, WriteFailed msg :: rest => mkOut (ofd_ok s) true msg (delivered s) rest
  | _, Wrote 0 :: rest =>
      mkOut (ofd_ok s) true (lit "Failed to write to process stdin pipe.") (delivered s) rest
  | _, Wrote n :: rest =>
      write_loop (drop n data)
        (mkOut (ofd_ok s) (obad s) (owhat s) (delivered s ++ take n data) (wevents s)) rest
  end.

Definition pipe_write (value : bytes) (s : pipe_ostream) : pipe_ostream :=
  if negb (ofd_ok s) || obad s
  then mkOut (ofd_ok s) true (owhat s) (delivered s) (wevents s)
  else write_loop value s (wevents s).

Definition pipe_write_number (n : Z) (s : pipe_ostream) : pipe_ostream := pipe_write (to_string n) s.

Definition opipe_clear (s : pipe_ostream) : pipe_ostream :=
  mkOut (ofd_ok s) false [] (delivered s) (wevents s).

Definition opipe_close (s : pipe_ostream) : pipe_ostream :=
  mkOut false (obad s) (owhat s) (delivered s) (wevents s).

Lemma take_plus (n k : nat) (l : bytes) : take (n + k) l = take n l ++ take k (drop n l).
Proof.
  rewrite <- (take_drop n l) at 1. destruct (decide (n <= length l)).
  - rewrite take_app_ge by len. f_equal. f_equal. len.
  - rewrite (drop_ge l n) by lia. rewrite app_nil_r, take_nil, app_nil_r. apply take_ge. len.
Qed.

Lemma write_loop_spec data s evs :
  obad s = false ->
  exists k, let s' := write_loop data s evs in
    delivered s' = delivered s ++ take k data /\ ofd_ok s' = ofd_ok s /\
    (obad s' = false -> take k data = data).
Proof.
  revert data s. induction evs as [|e evs IH]; intros data s Hb.
  - destruct data as [|c data].
    + exists 0. by rewrite app_nil_r.
    + exists (length (c :: data)). by rewrite take_ge.
  - destruct data as [|c data]; [exists 0; by rewrite app_nil_r|].
    destruct e as [|msg|[|n]]; cbn [write_loop].
    + by apply IH.
    + exists 0. by rewrite app_nil_r.
    + exists 0. by rewrite app_nil_r.
    + set (d := c :: data) in *.
      destruct (IH (drop (S n) d) (mkOut (ofd_ok s) (obad s) (owhat s) (delivered s ++ take (S n) d)
        (wevents s)) Hb) as (k & H1 & H2 & H3). exists (S n + k). cbv zeta in *.
      rewrite H1, H2. cbn [delivered ofd_ok]. rewrite take_plus, <- app_assoc. split; [done|]. split; [done|].
      intros Hok. by rewrite H3, take_drop.
Qed.

Abbreviation pipe_writes := (fold_left (fun s v => pipe_write v s)).

(** A closed or bad stream takes nothing more. *)
Lemma pipe_write_stuck vs s :
  negb (ofd_ok s) || obad s = true ->
  delivered (pipe_writes vs s) = delivered s /\ (vs <> [] -> obad (pipe_writes vs s) = true).
Proof.
  revert s. induction vs as [|v vs IH]; intros t Ht; [done|]. cbn [fold_left].
  unfold pipe_write at 2 4. rewrite Ht.
  destruct (IH (mkOut (ofd_ok t) true (owhat t) (delivered t) (wevents t))) as [H1 H2];
    [by rewrite orb_true_r|]. split; [done|]. intros _. destruct vs; [done|by apply H2].
Qed.

(** Whatever the kernel reports, the bytes in the pipe are a prefix of the
    values written, one after the other: nothing is repeated after a partial
    write or an interrupted call, nothing follows a lost byte; and when the
    stream is not bad at the end, everything was delivered. *)
Theorem pipe_output_prefix (values : list bytes) (s : pipe_ostream) :
  exists k, let s' := pipe_writes values s in
    delivered s' = delivered s ++ take k (concat values) /\
    (obad s' = false -> delivered s' = delivered s ++ concat values).
Proof.
  revert s. induction values as [|v vs IH]; intros s.
  - exists 0. cbv zeta. simpl. by rewrite app_nil_r.
  - destruct (negb (ofd_ok s) || obad s) eqn:E.
    + exists 0. destruct (pipe_write_stuck (v :: vs) s E) as [H1 H2]. cbv zeta. rewrite H1, H2 by done.
      by rewrite app_nil_r.
    + apply orb_false_iff in E as [Efd Eb]. cbn [fold_left concat].
      assert (Hw : pipe_write v s = write_loop v s (wevents s))
        by (unfold pipe_write; by rewrite Efd, Eb).
      destruct (write_loop_spec v s (wevents s) Eb) as (k & H1 & H2 & H3). cbv zeta in *.
      rewrite Hw. destruct (obad (write_loop v s (wevents s))) eqn:Eb'.
      * destruct (pipe_write_stuck vs (write_loop v s (wevents s))) as [Hs1 Hs2]; [by rewrite Eb', orb_true_r|].
        exists (min k (length v)). rewrite Hs1, H1. split.
        -- f_equal. rewrite take_app_le by lia. destruct (decide (k <= length v)).
           ++ by rewrite Nat.min_l.
           ++ rewrite Nat.min_r, !take_ge by lia. done.
        -- destruct vs; [simpl in *; congruence|]. rewrite Hs2 by done. done.
      * destruct (IH (write_loop v s (wevents s))) as (j & J1 & J2). exists (length v + j).
        split.
        -- rewrite J1, H1, H3, take_plus, take_app_length, drop_app_length by done.
           by rewrite app_assoc.
        -- intros Hok. specialize (J2 Hok). rewrite J2, H1, H3 by done.
           by rewrite <- app_assoc.
Qed.

(** ** The kernel

    What the descriptors of a process refer to: something of the rest of the
    program, or an end of a pipe. *)
Inductive file := Other (n : Z) | Rd (p : nat) | Wr (p : nat).
#[export] Instance file_eq_dec : EqDecision file.
Proof. solve_decision. Defined.

Record child := mkChild { child_fds : gmap Z file; exited : bool }.

Record kernel := mkKernel {
  fds : gmap Z file;             (** the descriptors of this process *)
  kids : gmap Z child;           (** the children that were not waited for *)
  next_pipe : nat;
  stray : bool                   (** a close of a descriptor that is not open, or a signal
                                     to a process that is not a child *)
}.

Definition set_fds (k : kernel) (f : gmap Z file) : kernel := mkKernel f (kids k) (next_pipe k) (stray k).
Definition set_kids (k : kernel) (c : gmap Z child) : kernel := mkKernel (fds k) c (next_pipe k) (stray k).

(** The lowest number that is not in use, which POSIX gives to a new descriptor *)
Definition lowest (f : gmap Z file) : Z :=
  match list_find (fun n => f !! Z.of_nat n = None) (seq 0 (S (size f))) with
  | Some (_, n) => Z.of_nat n
  | None => 0%Z
  end.

Definition sys_pipe (k : kernel) : Z * Z * kernel :=
  let r := lowest (fds k) in
  let f1 := <[r := Rd (next_pipe k)]> (fds k) in
  let w := lowest f1 in
  (r, w, mkKernel (<[w := Wr (next_pipe k)]> f1) (kids k) (S (next_pipe k)) (stray k)).

Definition sys_close (fd : Z) (k : kernel) : kernel :=
  match fds k !! fd with
  | Some _ => set_fds k (delete fd (fds k))
  | None => mkKernel (fds k) (kids k) (next_pipe k) true
  end.

Definition dup2 (a b : Z) (f : gmap Z file) : gmap Z file :=
  match f !! a with Some x => <[b := x]> f | None => f end.

(** [waitpid] without options: the child exits and is removed; the call may be
    interrupted by a signal *)
Definition waitpid (interrupted : bool) (pid : Z) (k : kernel) : kernel :=
  if interrupted then k else set_kids k (delete pid (kids k)).

(** [waitpid] with WNOHANG *)
Definition waitpid_nohang (pid : Z) (k : kernel) : Z * kernel :=
  match kids k !! pid with
  | None => (-1, k)%Z
  | Some c => if exited c then (pid, set_kids k (delete pid (kids k))) else (0%Z, k)
  end.

Definition sys_kill (pid : Z) (k : kernel) : kernel :=
  match kids k !! pid with
  | Some _ => k
  | None => mkKernel (fds k) (kids k) (next_pipe k) true
  end.

(** ** [Process::Impl] *)
Record Impl := mkImpl {
  pid : Z;
  process_id : Z;
  input_fd : Z;                  (** [fd_] of [input_stream], -1 when closed *)
  output_fd : Z                  (** [fd_] of [output_stream] *)
}.

(** What the system calls of the constructor return *)
Record outcomes := mkOutcomes {
  pipe1 : option bytes;          (** the error text of the first [pipe] *)
  pipe2 : option bytes;
  pipe3 : option bytes;
  fork_result : bytes + Z;
  exec_error : option bytes;     (** the error of [execvp] in the child *)
  report_interrupted : bool;     (** [read] of the error pipe failed with EINTR *)
  exec_wait_interrupted : bool   (** [waitpid] after a failed [execvp] failed with EINTR *)
}.

(** The child's descriptors when the new program starts *)
Definition child_table (in0 in1 out0 out1 err0 err1 : Z) (f : gmap Z file) : gmap Z file :=
  let f := dup2 out1 1 (dup2 in0 0 f) in
  let f := delete err0 (delete out1 (delete out0 (delete in1 (delete in0 f)))) in
  delete err1 f.

Definition close_all (l : list Z) (k : kernel) : kernel := fold_left (fun k fd => sys_close fd k) l k.

Definition Impl_start (o : outcomes) (k : kernel) : (bytes + Impl) * kernel :=
  match pipe1 o with
  | Some e => (inl e, k)
  | None =>
  let '(in0, in1, k) := sys_pipe k in
  match pipe2 o with
  | Some e => (inl e, close_all [in0; in1] k)
  | None =>
  let '(out0, out1, k) := sys_pipe k in
  match pipe3 o with
  | Some e => (inl e, close_all [in0; in1; out0; out1] k)
  | None =>
  let '(err0, err1, k) := sys_pipe k in
  match fork_result o with
  | inl e => (inl e, close_all [in0; in1; out0; out1; err0; err1] k)
  | inr p =>
      let failed := match exec_error o with Some _ => true | None => false end in
      let kid := mkChild (if failed then ∅ else child_table in0 in1 out0 out1 err0 err1 (fds k)) failed in
      let k := set_kids k (<[p := kid]> (kids k)) in
      let k := close_all [in0; out1; err1] k in
      let k := close_all [err0] k in
      match exec_error o, report_interrupted o with
      | Some e, false => (inl e, waitpid (exec_wait_interrupted o) p (close_all [in1; out0] k))
      | _, _ => (inr (mkImpl p p out0 in1), k)
      end
  end end end end.

(** [pipe_istream::close] and [pipe_ostream::close] of both streams *)
Definition close_streams (i : Impl) (k : kernel) : Impl * kernel :=
  (mkImpl (pid i) (process_id i) (-1) (-1),
   let k := if (0 <=? input_fd i)%Z then sys_close (input_fd i) k else k in
   if (0 <=? output_fd i)%Z then sys_close (output_fd i) k else k).

Definition checkRunning (i : Impl) (k : kernel) : bool * Impl * kernel :=
  if (pid i =? -1)%Z then (false, i, k)
  else let '(status, k) := waitpid_nohang (pid i) k in
       if (status =? 0)%Z then (true, i, k)
       else let '(i, k) := close_streams i k in
            (false, mkImpl (-1) (-1) (input_fd i) (output_fd i), k).

Definition wait (interrupted : bool) (i : Impl) (k : kernel) : Impl * kernel :=
  let '(running, i, k) := checkRunning i k in
  if running then
    let '(i, k) := close_streams i k in
    (mkImpl (-1) (-1) (input_fd i) (output_fd i), waitpid interrupted (pid i) k)
  else (i, k).

Definition terminate (interrupted : bool) (i : Impl) (k : kernel) : Impl * kernel :=
  let '(running, i, k) := checkRunning i k in
  if running then
    let '(i, k) := close_streams i k in
    (mkImpl (-1) (-1) (input_fd i) (output_fd i), waitpid interrupted (pid i) (sys_kill (pid i) k))
  else (i, k).

(** [Process::~Process] *)
Definition Process_destroy (interrupted : bool) (i : Impl) (k : kernel) : Impl * kernel :=
  let '(running, i, k) := checkRunning i k in
  if running then terminate interrupted i k else (i, k).

(** [Process::operator=(Process&&)]: the old process ends as in the
    destructor, the new one is taken over *)
Definition Process_assign (interrupted : bool) (i other : Impl) (k : kernel) : Impl * kernel :=
  let '(_, k) := Process_destroy interrupted i k in (other, k).

(** ** Resources *)

Lemma lowest_free f : f !! lowest f = None.
Proof.
  unfold lowest. destruct (list_find _ _) as [[i n]|] eqn:E.
  - apply list_find_Some in E as (_ & H & _). exact H.
  - exfalso. apply list_find_None in E. rewrite Forall_forall in E.
    set (l := Z.of_nat <$> seq 0 (S (size f))).
    assert (Hsub : (list_to_set l : gset Z) ⊆ dom f).
    { intros x Hx. apply elem_of_list_to_set, list_elem_of_fmap in Hx as (n & -> & Hn).
      apply elem_of_dom. specialize (E n Hn). by destruct (f !! Z.of_nat n). }
    apply subseteq_size in Hsub. rewrite size_dom, size_list_to_set in Hsub
      by (apply NoDup_fmap_2; [intros ??; lia|apply NoDup_seq]).
    unfold l in Hsub. rewrite length_fmap, length_seq in Hsub. lia.
Qed.

Lemma lowest_nonneg f : (0 <= lowest f)%Z.
Proof. unfold lowest. destruct (list_find _ _) as [[i n]|]; lia. Qed.

Lemma close_all_spec l k :
  NoDup l -> (forall x, x ∈ l -> is_Some (fds k !! x)) ->
  close_all l k = mkKernel (foldl (fun f x => delete x f) (fds k) l) (kids k) (next_pipe k) (stray k).
Proof.
  unfold close_all. revert k. induction l as [|x l IH]; intros k Hnd Hopen; [by destruct k|].
  cbn [fold_left foldl]. inversion Hnd as [|? ? Hx Hl]; subst.
  destruct (Hopen x) as [y Hy]; [set_solver|]. unfold sys_close at 2. rewrite Hy. rewrite IH; try done.
  intros z Hz. cbn [set_fds fds]. rewrite lookup_delete_ne by set_solver. apply Hopen. set_solver.
Qed.

(** What [sys_pipe] does to the descriptors *)
Lemma sys_pipe_spec k r w k' :
  sys_pipe k = (r, w, k') ->
  (0 <= r)%Z /\ (0 <= w)%Z /\ r <> w /\ fds k !! r = None /\ fds k !! w = None /\
  k' = mkKernel (<[w := Wr (next_pipe k)]> (<[r := Rd (next_pipe k)]> (fds k)))
         (kids k) (S (next_pipe k)) (stray k).
Proof.
  unfold sys_pipe. intros [= <- <- <-].
  pose proof (lowest_free (fds k)) as Hr.
  pose proof (lowest_free (<[lowest (fds k) := Rd (next_pipe k)]> (fds k))) as Hw.
  rewrite lookup_insert_None in Hw. destruct Hw as [Hw Hne].
  by repeat split; try apply lowest_nonneg.
Qed.

(** The process object holds its two descriptors and its child, or nothing;
    [F] and [K] are the descriptors and the children of the rest of the
    program. *)
Definition holds (i : Impl) (k : kernel) (F : gmap Z file) (K : gmap Z child) : Prop :=
  (pid i = -1 /\ input_fd i = -1 /\ output_fd i = -1)%Z /\ fds k = F /\ kids k = K \/
  (0 < pid i)%Z /\ (0 <= input_fd i)%Z /\ (0 <= output_fd i)%Z /\ input_fd i <> output_fd i /\
  F !! input_fd i = None /\ F !! output_fd i = None /\ K !! pid i = None /\
  exists a b c, fds k = <[input_fd i := a]> (<[output_fd i := b]> F) /\ kids k = <[pid i := c]> K.

Definition running (i : Impl) : bool := negb (pid i =? -1)%Z.

Lemma close_streams_spec i k F a b :
  (0 <= input_fd i)%Z -> (0 <= output_fd i)%Z -> input_fd i <> output_fd i ->
  F !! input_fd i = None -> F !! output_fd i = None ->
  fds k = <[input_fd i := a]> (<[output_fd i := b]> F) ->
  close_streams i k =
    (mkImpl (pid i) (process_id i) (-1) (-1), mkKernel F (kids k) (next_pipe k) (stray k)).
Proof.
  intros Hi Ho Hne HFi HFo Hf. unfold close_streams.
  rewrite (proj2 (Z.leb_le _ _) Hi), (proj2 (Z.leb_le _ _) Ho).
  f_equal. unfold sys_close at 2. rewrite Hf, lookup_insert_eq.
  rewrite delete_insert_id by (rewrite lookup_insert_ne; done).
  unfold sys_close. cbn [set_fds fds kids next_pipe stray]. rewrite lookup_insert_eq.
  unfold set_fds. cbn [fds kids next_pipe stray]. by rewrite delete_insert_id by done.
Qed.

Lemma checkRunning_spec i k F K :
  holds i k F K ->
  let '(r, i', k') := checkRunning i k in
  holds i' k' F K /\ r = running i' /\ stray k' = stray k /\ (running i' = true -> pid i' = pid i).
Proof.
  intros [H|H]; unfold checkRunning, running.
  - pose proof H as [(Hp & _) _]. rewrite Hp. cbn [Z.eqb]. split; [by left|]. by rewrite Hp.
  - pose proof H as (Hp & Hi & Ho & Hne & HFi & HFo & HK & a & b & c & Hf & Hk).
    replace (pid i =? -1)%Z with false by lia.
    unfold waitpid_nohang. rewrite Hk, lookup_insert_eq. destruct (exited c).
    + replace (pid i =? 0)%Z with false by lia.
      erewrite close_streams_spec; try done. cbn. split; [|done].
      left. cbn. by rewrite delete_insert_id by done.
    + cbn [Z.eqb]. split; [by right|]. by replace (pid i =? -1)%Z with false by lia.
Qed.

Lemma running_holds i k F K :
  holds i k F K -> running i = true ->
  exists a b c, (0 < pid i)%Z /\ (0 <= input_fd i)%Z /\ (0 <= output_fd i)%Z /\
    input_fd i <> output_fd i /\ F !! input_fd i = None /\ F !! output_fd i = None /\
    K !! pid i = None /\ fds k = <[input_fd i := a]> (<[output_fd i := b]> F) /\
    kids k = <[pid i := c]> K.
Proof.
  unfold running. intros [[(Hp & _) _]|H] Hr; [by rewrite Hp in Hr|]. destruct H as (? & ? & ? & ? & ? & ? & ? & a & b & c & ? & ?). by exists a, b, c.
Qed.

Lemma stopped_holds i k F K :
  holds i k F K -> running i = false -> fds k = F /\ kids k = K.
Proof. unfold running. intros [H|H] Hr; [by destruct H|]. destruct H as [H _]. lia. Qed.

(** [wait] and [terminate] leave nothing behind, unless a signal interrupts
    them: then the child stays, and the object forgets it. *)
Definition ends_with (interrupted : bool) (i : Impl) (k : kernel) (F : gmap Z file) (K : gmap Z child)
    (r : Impl * kernel) : Prop :=
  exists K', holds r.1 r.2 F K' /\ running r.1 = false /\ stray r.2 = stray k /\
    (interrupted = false -> K' = K) /\ forall q, q <> pid i -> K' !! q = K !! q.

Lemma ends_with_child interrupted i k F K p r i' c :
  pid i = p -> K !! p = None -> running i' = false -> holds i' (set_kids r K) F K -> stray r = stray k ->
  kids r = <[p := c]> K -> ends_with interrupted i k F K (i', waitpid interrupted p r).
Proof.
  intros Hp HK Hr H Hs Hk. unfold ends_with. cbn [fst snd]. unfold waitpid. destruct interrupted.
  - exists (<[p := c]> K). destruct H as [(H1 & H2 & _)|H]; [|unfold running in Hr; destruct H; lia].
    split; [by left|]. split_and!; try done. intros q Hq. rewrite lookup_insert_ne; congruence.
  - exists K. rewrite Hk, delete_insert_id by done. by split_and!.
Qed.

Lemma wait_spec b i k F K : holds i k F K -> ends_with b i k F K (wait b i k).
Proof.
  intros H. unfold wait. pose proof (checkRunning_spec i k F K H) as Hc.
  destruct (checkRunning i k) as [[r i1] k1]. destruct Hc as (H1 & -> & Hs1 & Hp1).
  destruct (running i1) eqn:Er; [|by exists K; split_and!].
  destruct (running_holds _ _ _ _ H1 Er) as (x & y & c & Hp & Hi & Ho & Hne & HFi & HFo & HK & Hf & Hk).
  erewrite close_streams_spec; try done. cbn [pid input_fd output_fd]. rewrite Hp1 in HK, Hk |- * by done.
  by eapply ends_with_child; [..|exact Hk]; try done; left.
Qed.

Lemma terminate_spec b i k F K : holds i k F K -> ends_with b i k F K (terminate b i k).
Proof.
  intros H. unfold terminate. pose proof (checkRunning_spec i k F K H) as Hc.
  destruct (checkRunning i k) as [[r i1] k1]. destruct Hc as (H1 & -> & Hs1 & Hp1).
  destruct (running i1) eqn:Er; [|by exists K; split_and!].
  destruct (running_holds _ _ _ _ H1 Er) as (x & y & c & Hp & Hi & Ho & Hne & HFi & HFo & HK & Hf & Hk).
  erewrite close_streams_spec; try done. unfold sys_kill. cbn [pid input_fd output_fd kids].
  rewrite Hp1 in HK, Hk |- * by done. rewrite Hk, lookup_insert_eq, <- Hk.
  by eapply ends_with_child; [..|exact Hk]; try done; left.
Qed.

Lemma destroy_spec b i k F K :
  holds i k F K ->
  let k' := (Process_destroy b i k).2 in
  fds k' = F /\ stray k' = stray k /\ (b = false -> kids k' = K) /\
  forall q, q <> pid i -> kids k' !! q = K !! q.
Proof.
  intros H. unfold Process_destroy. pose proof (checkRunning_spec i k F K H) as Hc.
  destruct (checkRunning i k) as [[r i1] k1]. destruct Hc as (H1 & -> & Hs1 & Hp1).
  destruct (running i1) eqn:Er.
  - destruct (terminate_spec b i1 k1 F K H1) as (K' & H2 & Hr & Hs2 & Hb & Hq).
    destruct (stopped_holds _ _ _ _ H2 Hr) as [-> ->]. rewrite Hs2. rewrite Hp1 in Hq by done. by split_and!.
  - cbv zeta; cbn [snd]. destruct (stopped_holds _ _ _ _ H1 Er) as [-> ->]. by split_and!.
Qed.

(** *** Starting a process *)

Ltac fresh_fds :=
  repeat match goal with
  | H : <[_ := _]> _ !! _ = None |- _ => rewrite lookup_insert_None in H; destruct H
  end.
Ltac open_fds := intros ? ?; set_unfold; destruct_or?; subst; simplify_map_eq; by eauto.
Ltac nodup_fds := repeat (apply NoDup_cons; split; [set_solver|]); apply NoDup_nil_2.
Ltac map_by_cases :=
  let x := fresh "x" in
  apply map_eq; intros x;
  repeat match goal with
  | |- context [delete ?a ?m !! x] =>
      destruct (decide (x = a)) as [->|]; [rewrite (lookup_delete_eq m a)|rewrite (lookup_delete_ne m a x) by congruence]
  | |- context [<[?a := ?v]> ?m !! x] => rewrite (lookup_insert_ne m a x v) by congruence
  | |- context [<[?a := ?v]> ?m !! x] =>
      destruct (decide (x = a)) as [->|]; [rewrite (lookup_insert_eq m a v)|rewrite (lookup_insert_ne m a x v) by congruence]
  end;
  simplify_map_eq; congruence || done.

(** A start that fails takes nothing; one that succeeds holds the two
    descriptors of its streams and its child. *)
Lemma start_spec o k :
  match fork_result o with inr p => (0 < p)%Z /\ kids k !! p = None | inl _ => True end ->
  match Impl_start o k with
  | (inl _, k') => fds k' = fds k /\ stray k' = stray k /\ (exec_wait_interrupted o = false -> kids k' = kids k) /\
      forall q, fork_result o <> inr q -> kids k' !! q = kids k !! q
  | (inr i, k') => holds i k' (fds k) (kids k) /\ stray k' = stray k /\ fork_result o = inr (pid i)
  end.
Proof.
  intros Hfork. unfold Impl_start. destruct (pipe1 o); [done|].
  destruct (sys_pipe k) as [[in0 in1] k1] eqn:E1.
  apply sys_pipe_spec in E1 as (Hi0 & Hi1 & Hi & Fi0 & Fi1 & ->).
  destruct (pipe2 o).
  { rewrite close_all_spec; [cbn|nodup_fds|cbn; open_fds]. split; [map_by_cases|done]. }
  destruct (sys_pipe _) as [[out0 out1] k2] eqn:E2.
  apply sys_pipe_spec in E2 as (Ho0 & Ho1 & Ho & Fo0 & Fo1 & ->). cbn [fds kids next_pipe stray] in *.
  fresh_fds. destruct (pipe3 o).
  { rewrite close_all_spec; [cbn|nodup_fds|cbn; open_fds]. split; [|done]. map_by_cases. }
  destruct (sys_pipe _) as [[err0 err1] k3] eqn:E3.
  apply sys_pipe_spec in E3 as (He0 & He1 & He & Fe0 & Fe1 & ->). cbn [fds kids next_pipe stray] in *.
  fresh_fds. destruct (fork_result o) as [e|p].
  { rewrite close_all_spec; [cbn|nodup_fds|cbn; open_fds]. split; [|done]. map_by_cases. }
  destruct Hfork as [Hp Hkp].
  rewrite (close_all_spec [in0; out1; err1]); [cbn [set_kids fds kids next_pipe stray foldl]|nodup_fds|cbn [set_kids fds kids next_pipe stray foldl]; open_fds].
  rewrite (close_all_spec [err0]); [cbn [set_kids fds kids next_pipe stray foldl]|nodup_fds|cbn [set_kids fds kids next_pipe stray foldl]; open_fds].
  match goal with |- context [mkKernel ?f _ _ _] =>
    assert (Hf : f = <[out0 := Rd (S (next_pipe k))]> (<[in1 := Wr (next_pipe k)]> (fds k)))
      by map_by_cases; rewrite Hf; clear Hf
  end.
  assert (Hok : forall c n, holds (mkImpl p p out0 in1)
    (mkKernel (<[out0 := Rd (S (next_pipe k))]> (<[in1 := Wr (next_pipe k)]> (fds k)))
       (<[p := c]> (kids k)) n (stray k)) (fds k) (kids k)).
  { intros c n. right. cbn. repeat (split; [by auto|]). eauto 6. }
  destruct (exec_error o) as [e|]; [destruct (report_interrupted o)|]; [by auto| |by auto].
  rewrite close_all_spec; [cbn [set_kids fds kids next_pipe stray foldl]|nodup_fds|cbn [set_kids fds kids next_pipe stray foldl]; open_fds].
  split; [by destruct (exec_wait_interrupted o); cbn [waitpid set_kids fds]; map_by_cases|].
  split; [by destruct (exec_wait_interrupted o)|]. split.
  - intros ->. cbn [waitpid set_kids kids]. by rewrite delete_insert_id.
  - intros q Hq. assert (p <> q) by congruence. destruct (exec_wait_interrupted o); cbn [waitpid set_kids kids].
    + by rewrite lookup_insert_ne.
    + by rewrite delete_insert_id.
Qed.

(** *** The life of a process object

    Between the operations the rest of the program may open, close or reuse
    any descriptor that the object does not hold, and start or wait for
    other children; the child may exit at any time. *)
Inductive event :=
| OpIsRunning | OpWait (interrupted : bool) | OpTerminate (interrupted : bool)
| ChildExits
| EnvFd (fd : Z) (f : option file)
| EnvKid (p : Z) (c : option child).

Definition run_event (e : event) (st : Impl * kernel) : option (Impl * kernel) :=
  let '(i, k) := st in
  match e with
  | OpIsRunning => let '(_, i', k') := checkRunning i k in Some (i', k')
  | OpWait b => Some (wait b i k)
  | OpTerminate b => Some (terminate b i k)
  | ChildExits =>
      if running i
      then Some (i, set_kids k (alter (fun c => mkChild (child_fds c) true) (pid i) (kids k)))
      else Some (i, k)
  | EnvFd fd f =>
      if bool_decide (fd = input_fd i \/ fd = output_fd i) then None
      else Some (i, set_fds k (partial_alter (fun _ => f) fd (fds k)))
  | EnvKid p c =>
      if bool_decide (p = pid i) then None
      else Some (i, set_kids k (partial_alter (fun _ => c) p (kids k)))
  end.

(** A blocking [waitpid] was interrupted by a signal. *)
Definition interrupted_wait (e : event) : bool := match e with OpWait b | OpTerminate b => b | _ => false end.

Fixpoint run_events (evs : list event) (st : Impl * kernel) : option (Impl * kernel) :=
  match evs with
  | [] => Some st
  | e :: evs' => run_event e st ≫= run_events evs'
  end.

(** What the rest of the program alone would have made of its descriptors and
    children *)
Definition env_fds (evs : list event) (F : gmap Z file) : gmap Z file :=
  foldl (fun F e => match e with EnvFd fd f => partial_alter (fun _ => f) fd F | _ => F end) F evs.
Definition env_kids (evs : list event) (K : gmap Z child) : gmap Z child :=
  foldl (fun K e => match e with EnvKid p c => partial_alter (fun _ => c) p K | _ => K end) K evs.

Lemma partial_alter_insert_commute {A} (m : gmap Z A) (a b : Z) (x : A) (f : option A) :
  a <> b -> partial_alter (fun _ => f) a (<[b := x]> m) = <[b := x]> (partial_alter (fun _ => f) a m).
Proof. intros H. apply map_eq. intros y. destruct (decide (y = a)) as [->|Hy].
  - by rewrite lookup_insert_ne, !lookup_partial_alter_eq by done.
  - rewrite lookup_partial_alter_ne by done. destruct (decide (y = b)) as [->|].
    + by rewrite !lookup_insert_eq.
    + by rewrite !lookup_insert_ne, lookup_partial_alter_ne by done. Qed.

(** The children of the rest of the program, up to the object's own child [p],
    which they inherit when a wait for it was interrupted *)
Lemma env_kids_except evs p (K K' : gmap Z child) :
  (forall q, q <> p -> K' !! q = K !! q) -> forall q, q <> p -> env_kids evs K' !! q = env_kids evs K !! q.
Proof.
  unfold env_kids. revert K K'. induction evs as [|e evs IH]; intros K K' H; [done|]. cbn [foldl]. apply IH.
  destruct e as [| | | | |r c]; try done. intros q Hq. destruct (decide (q = r)) as [->|].
  - by rewrite !lookup_partial_alter_eq.
  - rewrite !lookup_partial_alter_ne by done. auto.
Qed.

Lemma run_event_spec e i k F K p i' k' :
  holds i k F K -> pid i = p \/ pid i = (-1)%Z -> run_event e (i, k) = Some (i', k') ->
  exists K', holds i' k' (env_fds [e] F) K' /\ stray k' = stray k /\ (pid i' = p \/ pid i' = (-1)%Z) /\
    (interrupted_wait e = false -> K' = env_kids [e] K) /\ forall q, q <> p -> K' !! q = env_kids [e] K !! q.
Proof.
  intros H Hpid.
  assert (Hend : forall b r, ends_with b i k F K r -> r = (i', k') -> running i = true \/ holds r.1 r.2 F K ->
    exists K', holds i' k' F K' /\ stray k' = stray k /\ (pid i' = p \/ pid i' = (-1)%Z) /\
      (b = false -> K' = K) /\ forall q, q <> p -> K' !! q = K !! q).
  { intros b r (K' & H1 & Hr & Hs & Hb & Hq) -> Hrun. cbn [fst snd] in *.
    assert (Hp' : pid i' = (-1)%Z) by (unfold running in Hr; destruct (Z.eqb_spec (pid i') (-1)); done).
    destruct Hrun as [Hrun|Hh]; [exists K'|exists K; auto 6]. split_and!; auto.
    intros q Hne. apply Hq. destruct Hpid as [->|Hp]; [done|]. unfold running in Hrun. by rewrite Hp in Hrun. }
  assert (Hidle : forall (r : Impl * kernel), running i = false -> (checkRunning i k = (false, i, k) -> r = (i, k)) ->
    holds r.1 r.2 F K).
  { intros r Hr Heq. rewrite Heq; [done|]. unfold checkRunning. unfold running in Hr. by destruct (pid i =? -1)%Z. }
  destruct e as [|b|b| |fd f|q c]; cbn [run_event env_fds env_kids foldl interrupted_wait].
  - pose proof (checkRunning_spec i k F K H) as Hc. destruct (checkRunning i k) as [[r i1] k1].
    destruct Hc as (H1 & -> & Hs & Hp1). intros [= <- <-]. exists K. split_and!; try done.
    destruct (running i1) eqn:Er; [rewrite Hp1; auto|]. right. unfold running in Er.
    by destruct (Z.eqb_spec (pid i1) (-1)).
  - intros [= Hw]. eapply Hend; [by apply (wait_spec b)|done|]. destruct (running i) eqn:Er; [by left|right].
    apply Hidle; [done|]. intros Hc. unfold wait. by rewrite Hc.
  - intros [= Hw]. eapply Hend; [by apply (terminate_spec b)|done|]. destruct (running i) eqn:Er; [by left|right].
    apply Hidle; [done|]. intros Hc. unfold terminate. by rewrite Hc.
  - destruct (running i) eqn:Er; intros [= <- <-]; [|by exists K].
    destruct (running_holds _ _ _ _ H Er) as (a & b & c & Hp & Hi & Ho & Hne & HFi & HFo & HK & Hf & Hk).
    exists K. split_and!; try done. right. repeat (split; [done|]). exists a, b, (mkChild (child_fds c) true).
    split; [done|]. cbn [set_kids kids]. by rewrite Hk, alter_insert_eq.
  - case_bool_decide as Hown; [done|]. intros [= <- <-]. exists K. split_and!; try done.
    destruct H as [(Hp & <- & <-)|(Hp & Hi & Ho & Hne & HFi & HFo & HK & a & b & c & Hf & Hk)]; [by left|].
    right. repeat (split; [done|]). rewrite !lookup_partial_alter_ne by tauto.
    repeat (split; [done|]). exists a, b, c. split; [|done]. cbn [set_fds fds].
    by rewrite Hf, !partial_alter_insert_commute by tauto.
  - case_bool_decide as Hown; [done|]. intros [= <- <-]. exists (partial_alter (fun _ => c) q K).
    split_and!; try done.
    destruct H as [(Hp & <- & <-)|(Hp & Hi & Ho & Hne & HFi & HFo & HK & a & b & c' & Hf & Hk)]; [by left|].
    right. repeat (split; [done|]). rewrite !lookup_partial_alter_ne by tauto.
    repeat (split; [done|]). exists a, b, c'. split; [done|]. cbn [set_kids kids].
    by rewrite Hk, !partial_alter_insert_commute by tauto.
Qed.

Lemma run_events_spec evs i k F K p i' k' :
  holds i k F K -> pid i = p \/ pid i = (-1)%Z -> run_events evs (i, k) = Some (i', k') ->
  exists K', holds i' k' (env_fds evs F) K' /\ stray k' = stray k /\ (pid i' = p \/ pid i' = (-1)%Z) /\
    (existsb interrupted_wait evs = false -> K' = env_kids evs K) /\
    forall q, q <> p -> K' !! q = env_kids evs K !! q.
Proof.
  revert i k F K. induction evs as [|e evs IH]; intros i k F K H Hp Hrun; [injection Hrun as <- <-; by exists K|].
  cbn [run_events] in Hrun. apply bind_Some in Hrun as ([i1 k1] & He & Hrun).
  destruct (run_event_spec e i k F K p i1 k1 H Hp He) as (K1 & H1 & Hs1 & Hp1 & Hb1 & Hq1).
  destruct (IH i1 k1 _ _ H1 Hp1 Hrun) as (K2 & H2 & Hs2 & Hp2 & Hb2 & Hq2).
  exists K2. split; [exact H2|]. split; [congruence|]. split; [done|]. split.
  - cbn [existsb]. intros [Hb Hbs]%orb_false_iff. rewrite Hb2, Hb1 by done. done.
  - intros q Hq. rewrite Hq2 by done. change (env_kids (e :: evs) K) with (env_kids evs (env_kids [e] K)).
    by apply (env_kids_except evs p).
Qed.

(** C32. Whatever is done with a process object, whatever the rest of the
    program does meanwhile and whichever blocking [waitpid] is interrupted by a
    signal, after its destructor the descriptors are those that the rest of the
    program alone would have left: no descriptor leaks, none that another part
    has reused is closed, and no signal reaches a process that is not the
    child.  The children are those of the rest of the program too, the object's
    own child excepted: that one is gone as well if no blocking [waitpid] was
    interrupted, neither of [wait] and [terminate], nor of the destructor, nor
    of a constructor whose [execvp] fails ([wait_interrupted] shows what
    remains otherwise). *)
Theorem process_leaves_no_trace (o : outcomes) (k : kernel) :
  match fork_result o with inr p => (0 < p)%Z /\ kids k !! p = None | inl _ => True end ->
  match Impl_start o k with
  | (inl _, k') =>
      fds k' = fds k /\ stray k' = stray k /\ (exec_wait_interrupted o = false -> kids k' = kids k) /\
      (forall q, fork_result o <> inr q -> kids k' !! q = kids k !! q)
  | (inr i, k1) =>
      forall evs i2 k2 b, run_events evs (i, k1) = Some (i2, k2) ->
      let k3 := (Process_destroy b i2 k2).2 in
      fds k3 = env_fds evs (fds k) /\ stray k3 = stray k /\
      (existsb interrupted_wait evs || b = false -> kids k3 = env_kids evs (kids k)) /\
      (forall q, q <> pid i -> kids k3 !! q = env_kids evs (kids k) !! q)
  end.
Proof.
  intros Hfork. pose proof (start_spec o k Hfork) as Hs.
  destruct (Impl_start o k) as [[e|i] k1]; [done|]. destruct Hs as (H & Hs & _).
  intros evs i2 k2 b Hrun.
  destruct (run_events_spec evs i k1 _ _ (pid i) i2 k2 H (or_introl eq_refl) Hrun) as (K & H2 & Hs2 & Hp2 & Hb2 & Hq2).
  pose proof (destroy_spec b i2 k2 _ _ H2) as (Hf & Hst & Hkb & Hkq). split; [done|].
  split; [by rewrite Hst, Hs2|]. split.
  - intros [He Hb]%orb_false_iff. rewrite Hkb, Hb2 by done. done.
  - intros q Hq. destruct (decide (q = pid i2)) as [->|Hne]; [|rewrite Hkq by done; by apply Hq2].
    destruct Hp2 as [Hp2|Hp2]; [by destruct Hq; rewrite Hp2|].
    rewrite <- Hq2 by done. destruct H2 as [(_ & _ & Hk2)|(Hpos & _)]; [|lia].
    unfold Process_destroy, checkRunning. rewrite Hp2. cbn. by rewrite Hk2.
Qed.

Definition terminal : kernel :=
  mkKernel (<[0%Z := Other 0]> (<[1%Z := Other 1]> (<[2%Z := Other 2]> ∅))) ∅ 0 false.

Definition started (p : Z) : outcomes := mkOutcomes None None None (inr p) None false false.

Lemma process_leaves_no_trace_witness :
  exists i k1 i2 k2,
    Impl_start (started 100) terminal = (inr i, k1) /\
    run_events [OpIsRunning; EnvFd 9 (Some (Other 9)); ChildExits; OpIsRunning;
                EnvFd 3 (Some (Other 3)); OpTerminate false] (i, k1) = Some (i2, k2) /\
    let k3 := (Process_destroy false i2 k2).2 in
    fds k3 !! 3%Z = Some (Other 3) /\ fds k3 !! 9%Z = Some (Other 9) /\ fds k3 !! 4%Z = None /\
    kids k3 = ∅.
Proof.
  pose proof (process_leaves_no_trace (started 100) terminal (conj eq_refl eq_refl)) as H.
  destruct (Impl_start (started 100) terminal) as [[e|i] k1] eqn:E; [vm_compute in E; discriminate|].
  destruct (run_events [OpIsRunning; EnvFd 9 (Some (Other 9)); ChildExits; OpIsRunning;
    EnvFd 3 (Some (Other 3)); OpTerminate false] (i, k1)) as [[i2 k2]|] eqn:Er.
  - exists i, k1, i2, k2. split; [done|]. split; [done|].
    destruct (H _ _ _ false Er) as (H1 & _ & H2 & _). cbv zeta. rewrite H1, (H2 eq_refl). vm_compute. auto.
  - exfalso. vm_compute in E. injection E as <- <-. vm_compute in Er. discriminate.
Defined.

(** The child's standard input and output are the pipes, and it inherits
    nothing else of them, when the program itself has a standard input and
    output. *)
Theorem child_gets_its_pipes (o : outcomes) (k k' : kernel) (i : Impl) :
  is_Some (fds k !! 0%Z) -> is_Some (fds k !! 1%Z) ->
  Impl_start o k = (inr i, k') -> exec_error o = None ->
  kids k' !! pid i =
    Some (mkChild (<[1%Z := Wr (S (next_pipe k))]> (<[0%Z := Rd (next_pipe k)]> (fds k))) false) /\
  fds k' !! input_fd i = Some (Rd (S (next_pipe k))) /\ fds k' !! output_fd i = Some (Wr (next_pipe k)).
Proof.
  intros H0 H1 Hs Hx. unfold Impl_start in Hs. destruct (pipe1 o); [done|].
  destruct (sys_pipe k) as [[in0 in1] k1] eqn:E1.
  apply sys_pipe_spec in E1 as (Hi0 & Hi1 & Hi & Fi0 & Fi1 & ->). destruct (pipe2 o); [done|].
  destruct (sys_pipe _) as [[out0 out1] k2] eqn:E2.
  apply sys_pipe_spec in E2 as (Ho0 & Ho1 & Ho & Fo0 & Fo1 & ->). cbn [fds kids next_pipe stray] in *.
  fresh_fds. destruct (pipe3 o); [done|].
  destruct (sys_pipe _) as [[err0 err1] k3] eqn:E3.
  apply sys_pipe_spec in E3 as (He0 & He1 & He & Fe0 & Fe1 & ->). cbn [fds kids next_pipe stray] in *.
  fresh_fds. destruct (fork_result o) as [e|p]; [done|]. rewrite Hx in Hs.
  rewrite (close_all_spec [in0; out1; err1]) in Hs; [|nodup_fds|cbn [set_kids fds]; open_fds].
  rewrite (close_all_spec [err0]) in Hs; [|nodup_fds|cbn [fds foldl set_kids]; open_fds].
  injection Hs as <- <-. cbn [pid input_fd output_fd kids fds set_kids foldl].
  rewrite lookup_insert_eq.
  assert (forall x, fds k !! x = None -> x <> 0%Z /\ x <> 1%Z) as Hstd.
  { intros x Hn. split; intros ->; [destruct H0|destruct H1]; congruence. }
  repeat match goal with
  | H : fds k !! ?x = None |- _ =>
      lazymatch goal with H' : x <> 0%Z |- _ => fail | _ => destruct (Hstd x H) end end.
  split; [|split; by simplify_map_eq].
  do 2 f_equal. unfold child_table, dup2. simplify_map_eq. map_by_cases.
Qed.

Lemma child_gets_its_pipes_witness :
  exists i k', Impl_start (started 100) terminal = (inr i, k') /\
    (child_fds <$> kids k' !! pid i) =
      Some (<[1%Z := Wr 1]> (<[0%Z := Rd 0]> (fds terminal))).
Proof.
  destruct (Impl_start (started 100) terminal) as [[e|i] k'] eqn:E; [vm_compute in E; discriminate|].
  exists i, k'. split; [done|].
  destruct (child_gets_its_pipes (started 100) terminal k' i) as [H _];
    [by eexists|by eexists|exact E|done|]. by rewrite H.
Defined.

(** The descriptors of a running process are not marked close-on-exec: a child
    started later inherits the write end of the first child's standard input.
    [wait] on the first process closes its own end, but the first child sees
    no end of file as long as the second child lives. *)
Theorem later_child_holds_first_stdin :
  exists i1 k1 i2 k2,
    Impl_start (started 100) terminal = (inr i1, k1) /\
    Impl_start (started 101) k1 = (inr i2, k2) /\
    let k3 := (close_streams i1 k2).2 in
    fds k3 !! output_fd i1 = None /\
    exists c fd, kids k3 !! 101%Z = Some c /\ child_fds c !! fd = Some (Wr 0) /\
      fds k1 !! output_fd i1 = Some (Wr 0).
Proof. do 4 eexists. split; [by vm_compute|]. split; [by vm_compute|]. 
  split; [by vm_compute|]. eexists. exists 4%Z. split; [vm_compute; done|]. split; vm_compute; done.
Qed.

(** A program that runs without standard input gives its child none: [dup2] of
    descriptor 0 onto itself does nothing, and the child then closes it. *)
Theorem child_without_stdin :
  exists i k' c,
    Impl_start (started 100) (mkKernel (delete 0%Z (fds terminal)) ∅ 0 false) = (inr i, k') /\
    kids k' !! 100%Z = Some c /\ child_fds c !! 0%Z = None.
Proof. do 3 eexists. split; [by vm_compute|]. split; by vm_compute. Qed.

(** A blocking [waitpid] that a signal interrupts is not repeated: the object
    forgets the child, which stays a zombie. *)
Theorem wait_interrupted :
  exists i k1, Impl_start (started 100) terminal = (inr i, k1) /\
    let '(i2, k2) := wait true i k1 in
    pid i2 = (-1)%Z /\ is_Some (kids k2 !! 100%Z) /\
    forall b, (Process_destroy b i2 k2).2 = k2.
Proof. do 2 eexists. split; [by vm_compute|]. vm_compute. split; [done|]. split; [by eexists|done]. Qed.

(** ** The command line on Windows

    Wide strings are lists of 16-bit units. *)
Module Windows.

Definition backslash : Z := 92.
Definition quote : Z := 34.
Definition space : Z := 32.

Definition special (c : Z) : bool :=
  (c =? 32)%Z || (c =? 9)%Z || (c =? 10)%Z || (c =? 11)%Z || (c =? backslash)%Z || (c =? quote)%Z.

(** The loop over the argument, with the backslashes counted so far *)
Fixpoint escape_loop (backslashes : nat) (arg : list Z) : list Z :=
  match arg with
  | [] => replicate (backslashes * 2) backslash
  | c :: rest =>
      if (c =? backslash)%Z then escape_loop (S backslashes) rest
      else if (c =? quote)%Z
      then replicate (backslashes * 2 + 1) backslash ++ c :: escape_loop 0 rest
      else replicate backslashes backslash ++ c :: escape_loop 0 rest
  end.

Definition escapeArg (arg : list Z) : list Z :=
  if negb (existsb special arg) then arg else quote :: escape_loop 0 arg ++ [quote].

(** The command line of the constructor *)
Definition command_line (executable : list Z) (args : list (list Z)) : list Z :=
  foldl (fun command arg => command ++ [space] ++ escapeArg arg) (escapeArg executable) args.

(** The rules by which the C runtime on Windows splits the arguments that
    follow the program's name: white space outside quotes separates; a quote
    opens or closes a quoted part; [2n] backslashes before a quote stand for
    [n] backslashes, one more makes the quote literal; other backslashes are
    literal.  [cur] is the argument read so far, [None] between arguments. *)
Fixpoint split_args (quoted : bool) (backslashes : nat) (cur : option (list Z)) (s : list Z)
    : list (list Z) :=
  let flush := default [] cur ++ replicate backslashes backslash in
  match s with
  | [] => match cur, backslashes with None, 0 => [] | _, _ => [flush] end
  | c :: rest =>
      if (c =? backslash)%Z then split_args quoted (S backslashes) cur rest
      else if (c =? quote)%Z then
        let cur' := default [] cur ++ replicate (backslashes / 2) backslash in
        if Nat.even backslashes then split_args (negb quoted) 0 (Some cur') rest
        else split_args quoted 0 (Some (cur' ++ [quote])) rest
      else if negb quoted && ((c =? 32)%Z || (c =? 9)%Z) then
        match cur, backslashes with
        | None, 0 => split_args false 0 None rest
        | _, _ => flush :: split_args false 0 None rest
        end
      else split_args quoted 0 (Some (flush ++ [c])) rest
  end.

Lemma split_backslashes quoted n m cur s :
  split_args quoted m cur (replicate n backslash ++ s) = split_args quoted (m + n) cur s.
Proof.
  revert m. induction n as [|n IH]; intros m; [by rewrite Nat.add_0_r|].
  cbn [replicate app split_args]. rewrite Z.eqb_refl, IH. f_equal. lia.
Qed.

Lemma split_quoted arg n cur rest :
  split_args true 0 (Some cur) (escape_loop n arg ++ quote :: rest) =
  split_args false 0 (Some (cur ++ replicate n backslash ++ arg)) rest.
Proof.
  revert n cur. induction arg as [|c arg IH]; intros n cur; cbn [escape_loop].
  - rewrite split_backslashes. cbn [split_args Nat.add]. cbn [Z.eqb quote backslash Pos.eqb].
    replace (Nat.even (n * 2)) with true by (symmetry; apply Nat.even_spec; exists n; lia).
    rewrite Nat.div_mul by lia. by rewrite app_nil_r.
  - destruct (c =? backslash)%Z eqn:Eb.
    + apply Z.eqb_eq in Eb. subst c. rewrite IH. do 2 f_equal.
      rewrite replicate_S_end, <- !app_assoc. done.
    + destruct (c =? quote)%Z eqn:Eq.
      * apply Z.eqb_eq in Eq. subst c. rewrite <- app_assoc, split_backslashes. cbn [app split_args].
        cbn [Z.eqb quote backslash Pos.eqb].
        replace (Nat.even (0 + (n * 2 + 1))) with false
          by (symmetry; rewrite Nat.add_0_l, Nat.even_add, Nat.even_mul, orb_true_r; done).
        replace ((0 + (n * 2 + 1)) / 2) with n
          by (symmetry; rewrite Nat.add_0_l, Nat.div_add_l by lia; rewrite Nat.div_small; lia).
        rewrite IH. cbn [replicate app default]. rewrite <- !app_assoc. done.
      * rewrite <- app_assoc, split_backslashes. cbn [app split_args]. rewrite Eb, Eq.
        cbn [negb andb]. rewrite IH. cbn [replicate app default Nat.add]. rewrite <- !app_assoc. done.
Qed.

Lemma split_plain arg cur rest :
  existsb special arg = false ->
  split_args false 0 (Some cur) (arg ++ rest) = split_args false 0 (Some (cur ++ arg)) rest.
Proof.
  revert cur. induction arg as [|c arg IH]; intros cur H; [by rewrite app_nil_r|].
  cbn [existsb] in H. apply orb_false_iff in H as [Hc H]. unfold special in Hc.
  repeat (apply orb_false_iff in Hc as [Hc ?]).
  cbn [app split_args]. replace (c =? backslash)%Z with false by done.
  replace (c =? quote)%Z with false by done.
  replace (c =? 32)%Z with false by done. replace (c =? 9)%Z with false by done.
  cbn [orb andb negb replicate]. rewrite app_nil_r, IH by done. rewrite <- app_assoc. done.
Qed.

Lemma split_arg arg rest :
  arg <> [] ->
  split_args false 0 None (space :: escapeArg arg ++ rest) = split_args false 0 (Some arg) rest.
Proof.
  intros Hne. cbn [split_args]. cbn [Z.eqb space quote backslash Pos.eqb orb andb negb].
  unfold escapeArg. destruct (existsb special arg) eqn:E; cbn [negb].
  - cbn [app split_args]. cbn [Z.eqb quote backslash Pos.eqb Nat.even negb default replicate app Nat.div].
    rewrite <- app_assoc. cbn [app]. by rewrite split_quoted.
  - destruct arg as [|c arg]; [done|]. cbn [existsb] in E. apply orb_false_iff in E as [Ec E].
    unfold special in Ec. repeat (apply orb_false_iff in Ec as [Ec ?]).
    cbn [app split_args]. replace (c =? backslash)%Z with false by done.
    replace (c =? quote)%Z with false by done.
    replace (c =? 32)%Z with false by done. replace (c =? 9)%Z with false by done.
    cbn [orb andb negb replicate default app]. by rewrite split_plain.
Qed.

(** The arguments after the program's name *)
Definition arguments (args : list (list Z)) : list Z := concat (map (fun a => space :: escapeArg a) args).

Lemma command_arguments executable args :
  command_line executable args = escapeArg executable ++ arguments args.
Proof.
  unfold command_line, arguments. generalize (escapeArg executable) as e.
  induction args as [|a args IH]; intros e; [by rewrite app_nil_r|]. cbn [foldl map concat].
  rewrite IH, <- !app_assoc. done.
Qed.

(** The program started on Windows gets exactly the arguments it was given,
    whatever spaces, quotes and backslashes they contain, provided that none
    is empty. *)
Theorem escapeArg_roundtrip (executable : list Z) (args : list (list Z)) :
  Forall (fun a => a <> []) args ->
  exists tail, command_line executable args = escapeArg executable ++ tail /\
    split_args false 0 None tail = args.
Proof.
  intros H. exists (arguments args). split; [apply command_arguments|]. unfold arguments.
  induction H as [|a args Ha Hargs IH]; [done|]. cbn [map concat]. cbn [app].
  rewrite split_arg by done. destruct args as [|b args]; [cbn [map concat split_args]|].
  - cbn. by rewrite app_nil_r.
  - cbn [map concat app] in *. cbn [split_args] in *.
    cbn [Z.eqb space quote backslash Pos.eqb orb andb negb] in *.
    rewrite IH. cbn [default replicate]. by rewrite app_nil_r.
Qed.

Lemma escapeArg_roundtrip_witness :
  exists tail, command_line [112]%Z [[97; 32; 98]; [99; 92]; [34]]%Z = escapeArg [112]%Z ++ tail /\
    split_args false 0 None tail = [[97; 32; 98]; [99; 92]; [34]]%Z.
Proof. apply (escapeArg_roundtrip [112]%Z [[97; 32; 98]; [99; 92]; [34]]%Z). repeat constructor; done. Defined.

(** An empty argument is not quoted and disappears. *)
Theorem empty_argument_lost (a b : list Z) :
  a <> [] -> b <> [] -> split_args false 0 None (arguments [a; []; b]) = [a; b].
Proof.
  intros Ha Hb. unfold arguments. cbn [map concat]. cbn [app].
  rewrite split_arg by done. cbn. rewrite app_nil_r.
  pose proof (split_arg b [] Hb) as H. cbn [split_args] in H.
  cbn [Z.eqb space quote backslash Pos.eqb orb andb negb] in H. rewrite H. by rewrite app_nil_r.
Qed.

End Windows.

(** ** [ParentProcessWatcher]

    One check at a time: [system("ps -p <pid>")] on a thread, then on the
    event loop either the delayed call of [on_exit] or a timer for the next
    check. *)
Module Watcher.

Definition ps_command (pid : Z) : bytes := lit "ps -p " ++ to_string pid.

(** WIFEXITED and WEXITSTATUS on a wait status *)
Definition WIFEXITED (status : Z) : bool := (Z.land status 127 =? 0)%Z.
Definition WEXITSTATUS (status : Z) : Z := Z.land (Z.shiftr status 8) 255.

Definition exit_code (status : Z) : Z :=
  if (status =? -1)%Z then 2
  else if WIFEXITED status then WEXITSTATUS status else status.

Record Watcher := mkWatcher {
  checks : nat;                  (** checks whose result is not yet handled *)
  armed : bool;                  (** [timer] is set and running *)
  delayed : nat;                 (** calls of [on_exit] that wait for the delay *)
  on_exit_calls : nat;
  has_on_exit : bool;
  warnings : list Z;             (** the exit codes logged *)
  destroyed : bool
}.

(** The constructor calls [run] *)
Definition new_watcher (on_exit : bool) : Watcher := mkWatcher 1 false 0 0 on_exit [] false.

Definition handle_result (status : Z) (w : Watcher) : Watcher :=
  let code := exit_code status in
  if (code =? 1)%Z
  then mkWatcher (checks w - 1) (armed w) (if has_on_exit w then S (delayed w) else delayed w)
         (on_exit_calls w) (has_on_exit w) (warnings w) (destroyed w)
  else mkWatcher (checks w - 1) true (delayed w) (on_exit_calls w) (has_on_exit w)
         (if (1 <? code)%Z then warnings w ++ [code] else warnings w) (destroyed w).

Inductive step : Watcher -> Watcher -> Prop :=
| CheckDone w status : 0 < checks w -> step w (handle_result status w)
| TimerFires w : armed w = true ->
    step w (mkWatcher (S (checks w)) false (delayed w) (on_exit_calls w) (has_on_exit w)
              (warnings w) (destroyed w))
| DelayOver w n : delayed w = S n ->
    step w (mkWatcher (checks w) (armed w) n (S (on_exit_calls w)) (has_on_exit w)
              (warnings w) (destroyed w))
| Destroy w : destroyed w = false ->
    step w (mkWatcher (checks w) false (delayed w) (on_exit_calls w) (has_on_exit w)
              (warnings w) true).

Definition reachable (w : Watcher) : Prop := exists b, rtc step (new_watcher b) w.

(** Everything the watcher still has to do, plus what it has reported *)
Definition activity (w : Watcher) : nat :=
  checks w + (if armed w then 1 else 0) + delayed w + on_exit_calls w.

Lemma step_activity w w' : step w w' -> activity w <= 1 -> activity w' <= 1.
Proof.
  unfold activity. intros H. destruct H; cbn.
  - unfold handle_result. destruct (_ =? 1)%Z; cbn; destruct (has_on_exit w), (armed w); lia.
  - rewrite H. lia.
  - rewrite H. lia.
  - destruct (armed w); lia.
Qed.

(** [on_exit] is called at most once, there is never more than one check or
    timer, and no check or timer remains when it was called. *)
Theorem on_exit_at_most_once (w : Watcher) :
  reachable w ->
  on_exit_calls w <= 1 /\ checks w + (if armed w then 1 else 0) <= 1 /\
  (on_exit_calls w = 1 -> checks w = 0 /\ armed w = false).
Proof.
  intros [b Hr]. assert (H : activity w <= 1).
  { assert (H0 : activity (new_watcher b) <= 1) by done.
    induction Hr as [|x y z Hxy _ IH]; [done|]. eauto using step_activity. }
  unfold activity in H. destruct (armed w); split_and!; try lia; intros; split; done || lia.
Qed.

Lemma on_exit_at_most_once_witness :
  exists w, reachable w /\ on_exit_calls w = 1 /\ checks w = 0 /\ armed w = false.
Proof.
  assert (Hr : reachable (mkWatcher 0 false 0 1 true [] false)).
  { exists true. eapply rtc_l; [apply (CheckDone _ 0); cbn; lia|].
    eapply rtc_l; [by apply TimerFires|].
    eapply rtc_l; [apply (CheckDone _ 256); cbn; lia|].
    eapply rtc_l; [by apply (DelayOver _ 0)|]. apply rtc_refl. }
  eexists. split; [exact Hr|]. split; [reflexivity|].
  apply (on_exit_at_most_once _ Hr). reflexivity.
Defined.

(** The destructor stops the timer only: a check that is under way arms a new
    timer afterwards, and [on_exit] is called on behalf of a destroyed
    watcher. *)
Theorem on_exit_after_destroy :
  exists w, reachable w /\ destroyed w = true /\ on_exit_calls w = 1.
Proof.
  exists (mkWatcher 0 false 0 1 true [] true). split; [|done]. exists true.
  eapply rtc_l; [by apply Destroy|].
  eapply rtc_l; [apply (CheckDone _ 0); cbn; lia|].
  eapply rtc_l; [by apply TimerFires|].
  eapply rtc_l; [apply (CheckDone _ 256); cbn; lia|].
  eapply rtc_l; [by apply (DelayOver _ 0)|]. apply rtc_refl.
Qed.

(** A shell killed by signal 1 (SIGHUP) is taken for the answer that the
    parent does not exist. *)
Lemma sighup_means_exit : WIFEXITED 1 = false /\ exit_code 1 = 1%Z /\ exit_code 256 = 1%Z.
Proof. done. Qed.

End Watcher.
