(* ===== verification/ThreadedQueue.v ===== *)
(** * The threaded queue

    [ThreadedQueue] and [MultiQueueWaiter] of
    include/LibLsp/JsonRpc/threaded_queue.h and
    src/jsonrpc/threaded_queue.cpp: two deques, one for elements with
    priority, and an atomic [int] with the number of elements.  Every operation
    but [Size] and [IsEmpty] is one critical section and hence one function on
    the state.  The condition variable is the step relation [wstep]: a
    producer notifies after it has left its critical section, and a notified
    thread tests its condition again before it returns. *)
From S2P Require Import Prelude.

Section Queue.
Context {T : Type}.

Record ThreadedQueue := mkQueue {
  total_count_ : Z;     (** [std::atomic<int>] *)
  priority_ : list T;
  queue_ : list T
}.

Definition new_queue : ThreadedQueue := mkQueue 0 [] [].

(** The [int] counter converted to [size_t]. *)
Definition Size (q : ThreadedQueue) : Z := (total_count_ q `mod` 2 ^ 64)%Z.
Definition IsEmpty (q : ThreadedQueue) : bool := (total_count_ q =? 0)%Z.

Definition push_back (t : T) (priority : bool) (q : ThreadedQueue) : ThreadedQueue :=
  if priority then mkQueue (total_count_ q) (priority_ q ++ [t]) (queue_ q)
  else mkQueue (total_count_ q) (priority_ q) (queue_ q ++ [t]).

(** [total_count_ += n]; arithmetic on [std::atomic<int>] wraps around. *)
Definition add_count (n : Z) (q : ThreadedQueue) : ThreadedQueue :=
  mkQueue (to_int32 (total_count_ q + n)) (priority_ q) (queue_ q).

Definition Enqueue (t : T) (priority : bool) (q : ThreadedQueue) : ThreadedQueue :=
  add_count 1 (push_back t priority q).

Definition EnqueueAll (elements : list T) (priority : bool) (q : ThreadedQueue) : ThreadedQueue :=
  match elements with
  | [] => q
  | _ => foldl (fun q t => push_back t priority q) (add_count (Z.of_nat (length elements)) q) elements
  end.

(** The lambda [execute] (and [pop]) on either deque; [None] for an empty one. *)
Definition pop_front (first : bool) (q : ThreadedQueue) : option (T * ThreadedQueue) :=
  match (if first then priority_ q else queue_ q) with
  | [] => None
  | x :: l => Some (x, add_count (-1) (if first then mkQueue (total_count_ q) l (queue_ q)
                                       else mkQueue (total_count_ q) (priority_ q) l))
  end.

(** [None]: the predicate of [cv.wait] is false and the caller blocks. *)
Definition Dequeue (q : ThreadedQueue) : option (T * ThreadedQueue) :=
  match priority_ q, queue_ q with
  | [], [] => None
  | [], _ => pop_front false q
  | _, _ => pop_front true q
  end.

Definition get_result (first second : bool) (q : ThreadedQueue) : option T * ThreadedQueue :=
  match pop_front first q with
  | Some (x, q') => (Some x, q')
  | None =>
      match pop_front second q with
      | Some (x, q') => (Some x, q')
      | None => (None, q)
      end
  end.

Definition TryDequeue (priority : bool) (q : ThreadedQueue) : option T * ThreadedQueue :=
  if priority then get_result true false q else get_result false true q.

(** [while (!q.empty()) { result.emplace_back(move(q.front())); q.pop_front(); }] *)
Fixpoint move_all (result q : list T) : list T :=
  match q with
  | [] => result
  | x :: q' => move_all (result ++ [x]) q'
  end.

Definition DequeueAll (q : ThreadedQueue) : list T * ThreadedQueue :=
  (move_all (move_all [] (priority_ q)) (queue_ q), mkQueue 0 [] []).

(** [while (num) { if (q.empty()) break; ...; num -= 1; }]: the result, what
    is left of the deque and of [num]. *)
Fixpoint move_some (num : nat) (result q : list T) : list T * list T * nat :=
  match num, q with
  | 0, _ => (result, q, num)
  | _, [] => (result, q, num)
  | S num', x :: q' => move_some num' (result ++ [x]) q'
  end.

Definition TryDequeueSome (num : nat) (q : ThreadedQueue) : list T * ThreadedQueue :=
  let num := num `min` (length (priority_ q) + length (queue_ q)) in
  let q := add_count (- Z.of_nat num) q in
  let '(result, p, num) := move_some num [] (priority_ q) in
  let '(result, l, _) := move_some num result (queue_ q) in
  (result, mkQueue (total_count_ q) p l).

(** [fn] gets a reference to every entry: it threads a state and may change
    the entry. *)
Fixpoint iterate_deque {S : Type} (fn : S -> T -> S * T) (s : S) (l : list T) : S * list T :=
  match l with
  | [] => (s, [])
  | x :: l' =>
      let '(s, x) := fn s x in
      let '(s, l') := iterate_deque fn s l' in
      (s, x :: l')
  end.

Definition Iterate {S : Type} (fn : S -> T -> S * T) (s : S) (q : ThreadedQueue) : S * ThreadedQueue :=
  let '(s, p) := iterate_deque fn s (priority_ q) in
  let '(s, l) := iterate_deque fn s (queue_ q) in
  (s, mkQueue (total_count_ q) p l).

(** [MultiQueueWaiter::HasState] *)
Fixpoint HasState (queues : list ThreadedQueue) : bool :=
  match queues with
  | [] => false
  | q :: rest => if negb (IsEmpty q) then true else HasState rest
  end.

(** ** The elements in the order in which they leave *)

Definition items (q : ThreadedQueue) : list T := priority_ q ++ queue_ q.

(** The counter is the number of elements, as long as an [int] can hold it. *)
Definition counted (q : ThreadedQueue) : Prop :=
  total_count_ q = to_int32 (Z.of_nat (length (items q))).

Lemma new_counted : counted new_queue.
Proof. reflexivity. Qed.

Lemma add_count_counted n q l p :
  counted q -> (Z.of_nat (length (p ++ l)) = Z.of_nat (length (items q)) + n)%Z ->
  counted (mkQueue (to_int32 (total_count_ q + n)) p l).
Proof.
  unfold counted, items. simpl. intros -> Hn. rewrite to_int32_add, Hn. done.
Qed.

(** The length side condition of [add_count_counted]. *)
Ltac count_len := unfold items; simpl; autorewrite with lsp; simpl; lia.

Lemma push_back_all es b q :
  foldl (fun q t => push_back t b q) q es =
  mkQueue (total_count_ q) (priority_ q ++ if b then es else [])
    (queue_ q ++ if b then [] else es).
Proof.
  revert q. induction es as [|e es IH]; intros [n p l]; simpl.
  - by destruct b; rewrite !app_nil_r.
  - rewrite IH. by destruct b; simpl; rewrite <- ?app_assoc, ?app_nil_r.
Qed.

Lemma EnqueueAll_eq es b q :
  counted q ->
  EnqueueAll es b q =
  mkQueue (to_int32 (total_count_ q + Z.of_nat (length es)))
    (priority_ q ++ if b then es else []) (queue_ q ++ if b then [] else es).
Proof.
  intros Hc. destruct es as [|e es]; unfold EnqueueAll.
  - destruct q as [n p l]. unfold counted, items in Hc. simpl in *. subst n.
    by rewrite to_int32_add, Z.add_0_r; destruct b; rewrite !app_nil_r.
  - by rewrite push_back_all.
Qed.

Lemma move_all_eq result q : move_all result q = result ++ q.
Proof.
  revert result. induction q as [|x q IH]; intros result; simpl.
  - by rewrite app_nil_r.
  - by rewrite IH, <- app_assoc.
Qed.

Lemma move_some_eq num result q :
  move_some num result q = (result ++ take num q, drop num q, num - length q).
Proof.
  revert num result. induction q as [|x q IH]; intros [|num] result; simpl;
    rewrite ?app_nil_r, ?Nat.sub_0_r; try done.
  by rewrite IH, <- app_assoc.
Qed.

Lemma TryDequeueSome_eq num q :
  TryDequeueSome num q =
  (take num (items q),
   mkQueue (to_int32 (total_count_ q - Z.of_nat (num `min` length (items q))))
     (drop num (priority_ q)) (drop (num - length (priority_ q)) (queue_ q))).
Proof.
  unfold TryDequeueSome, items. destruct q as [n p l]. simpl.
  rewrite length_app, !move_some_eq. cbn [app].
  assert (Hp : forall A (l : list A) k, length l <= k -> take (num `min` k) l = take num l
      /\ drop (num `min` k) l = drop num l).
  { intros A x k Hk. destruct (le_lt_dec num k).
    - by rewrite Nat.min_l.
    - rewrite Nat.min_r by lia. by rewrite !take_ge, !drop_ge by lia. }
  destruct (Hp _ p (length p + length l)) as [-> ->]; [lia|].
  replace (num `min` (length p + length l) - length p)
    with ((num - length p) `min` length l) by lia.
  rewrite take_app. f_equal.
  - f_equal. destruct (le_lt_dec (num - length p) (length l)).
    + by rewrite Nat.min_l.
    + rewrite Nat.min_r by lia. by rewrite !take_ge by lia.
  - f_equal. destruct (le_lt_dec (num - length p) (length l)).
    + by rewrite Nat.min_l.
    + rewrite Nat.min_r by lia. by rewrite !drop_ge by lia.
Qed.

(** ** One element at a time

    The reference for the batch operations: [Dequeue], called until [n]
    elements are there or it would block. *)
Fixpoint dequeue_n (n : nat) (q : ThreadedQueue) : list T * ThreadedQueue :=
  match n with
  | 0 => ([], q)
  | S n' =>
      match Dequeue q with
      | None => ([], q)
      | Some (x, q') => let '(l, q'') := dequeue_n n' q' in (x :: l, q'')
      end
  end.

Lemma Dequeue_counted q x q' :
  counted q -> Dequeue q = Some (x, q') -> items q = x :: items q' /\ counted q'.
Proof.
  intros Hc. destruct q as [n [|y p] [|z l]]; intros H; inversion H; subst; clear H;
    (split; [done|]); refine (add_count_counted (-1) _ _ _ Hc _); count_len.
Qed.

Lemma Dequeue_None q : Dequeue q = None <-> items q = [].
Proof. by destruct q as [n [|y p] [|z l]]. Qed.

Lemma TryDequeueSome_step n x q q' :
  Dequeue q = Some (x, q') -> counted q ->
  TryDequeueSome (S n) q =
  (x :: (TryDequeueSome n q').1, (TryDequeueSome n q').2).
Proof.
  intros H Hc. rewrite !TryDequeueSome_eq. destruct (Dequeue_counted _ _ _ Hc H) as [Hi Hc'].
  rewrite Hi. cbn [take length fst snd]. f_equal.
  unfold counted in Hc, Hc'. rewrite Hi in Hc. rewrite Hc, Hc'. cbn [length].
  unfold Z.sub. rewrite !to_int32_add.
  replace (Z.of_nat (S (length (items q'))) + - Z.of_nat (S n `min` S (length (items q'))))%Z
    with (Z.of_nat (length (items q')) + - Z.of_nat (n `min` length (items q')))%Z by lia.
  by destruct q as [m [|y p] [|z l]]; inversion H; subst; simpl; rewrite ?Nat.sub_0_r, ?drop_nil.
Qed.

Lemma TryDequeueSome_nil n q :
  items q = [] -> counted q -> TryDequeueSome n q = ([], q).
Proof.
  intros Hi Hc. rewrite TryDequeueSome_eq, Hi. unfold counted in Hc. rewrite Hi in Hc.
  destruct q as [m p l]. apply app_nil in Hi as [Hp Hl]. simpl in *. subst.
  by rewrite !drop_nil, take_nil, Nat.min_0_r.
Qed.

Lemma TryDequeueSome_dequeue_n n q :
  counted q -> TryDequeueSome n q = dequeue_n n q.
Proof.
  revert q. induction n as [|n IH]; intros q Hc.
  - rewrite TryDequeueSome_eq. simpl. unfold counted in Hc.
    destruct q as [m p l]. unfold items in Hc. simpl in *. subst m.
    unfold Z.sub. by rewrite to_int32_add, Z.add_0_r, drop_0.
  - simpl. destruct (Dequeue q) as [[x q']|] eqn:H.
    + rewrite (TryDequeueSome_step _ _ _ _ H Hc), <- IH by (eapply Dequeue_counted; eauto).
      by destruct (TryDequeueSome n q').
    + apply TryDequeueSome_nil; [by apply Dequeue_None|done].
Qed.

Lemma EnqueueAll_foldl es b q :
  counted q -> EnqueueAll es b q = foldl (fun q t => Enqueue t b q) q es.
Proof.
  intros Hc. rewrite EnqueueAll_eq by done.
  revert q Hc. induction es as [|e es IH]; intros q Hc; simpl.
  - destruct q as [m p l]. unfold counted, items in Hc. simpl in *. subst m.
    by rewrite to_int32_add, Z.add_0_r; destruct b; rewrite !app_nil_r.
  - rewrite <- IH.
    + destruct q as [m p l]. unfold Enqueue, add_count. simpl.
      by destruct b; simpl; rewrite to_int32_add, <- ?app_assoc, ?app_nil_r;
        do 2 f_equal; lia.
    + unfold Enqueue, add_count, push_back.
      destruct b; refine (add_count_counted 1 _ _ _ Hc _);
        count_len.
Qed.

Lemma DequeueAll_some q :
  counted q -> DequeueAll q = TryDequeueSome (length (items q)) q.
Proof.
  intros Hc. unfold DequeueAll. rewrite TryDequeueSome_eq, !move_all_eq.
  rewrite take_ge, Nat.min_id by done. unfold counted in Hc. rewrite Hc.
  unfold Z.sub. rewrite to_int32_add. unfold items. f_equal. f_equal.
  - by rewrite Z.add_opp_diag_r.
  - rewrite drop_ge; [done|len].
  - rewrite drop_ge; [done|len].
Qed.

(** A batch is the same as its elements one at a time: [EnqueueAll] is
    [Enqueue] on each element, [TryDequeueSome] is [Dequeue] until it would
    block, [DequeueAll] takes as many as there are, and [TryDequeue(true)] is
    [Dequeue] without blocking. *)
Theorem batch_is_one_by_one (q : ThreadedQueue) (es : list T) (b : bool) (n : nat) :
  counted q ->
  EnqueueAll es b q = foldl (fun q t => Enqueue t b q) q es
  /\ TryDequeueSome n q = dequeue_n n q
  /\ DequeueAll q = dequeue_n (length (items q)) q
  /\ TryDequeue true q = match Dequeue q with Some (x, q') => (Some x, q') | None => (None, q) end.
Proof.
  intros Hc. split_and!.
  - by apply EnqueueAll_foldl.
  - by apply TryDequeueSome_dequeue_n.
  - rewrite DequeueAll_some by done. by apply TryDequeueSome_dequeue_n.
  - by destruct q as [m [|x p] [|y l]].
Qed.

(** ** Sequences of operations

    The critical sections of all threads, in the order of the mutex.  A
    [Dequeue] that would block is not a step. *)
Inductive qop :=
| QEnqueue (t : T) (priority : bool)
| QEnqueueAll (elements : list T) (priority : bool)
| QDequeue
| QTryDequeue (priority : bool)
| QDequeueAll
| QTryDequeueSome (num : nat).

Definition exec_op (op : qop) (q : ThreadedQueue) : option (list T * ThreadedQueue) :=
  match op with
  | QEnqueue t b => Some ([], Enqueue t b q)
  | QEnqueueAll es b => Some ([], EnqueueAll es b q)
  | QDequeue => match Dequeue q with Some (x, q') => Some ([x], q') | None => None end
  | QTryDequeue b => let '(r, q') := TryDequeue b q in Some (option_list r, q')
  | QDequeueAll => Some (DequeueAll q)
  | QTryDequeueSome n => Some (TryDequeueSome n q)
  end.

Fixpoint exec_ops (ops : list qop) (q : ThreadedQueue) : option (list T * ThreadedQueue) :=
  match ops with
  | [] => Some ([], q)
  | op :: ops' =>
      match exec_op op q with
      | None => None
      | Some (out, q1) =>
          match exec_ops ops' q1 with
          | None => None
          | Some (outs, q2) => Some (out ++ outs, q2)
          end
      end
  end.

(** What an operation puts in, with its priority. *)
Definition puts (op : qop) : list (T * bool) :=
  match op with
  | QEnqueue t b => [(t, b)]
  | QEnqueueAll es b => (fun t => (t, b)) <$> es
  | _ => []
  end.

(** The elements that an operation puts with priority [b]. *)
Definition puts_of (b : bool) (op : qop) : list T :=
  (filter (fun p => p.2 = b) (puts op)).*1.

Lemma puts_of_all es b b' :
  puts_of b' (QEnqueueAll es b) = if decide (b = b') then es else [].
Proof.
  unfold puts_of. simpl. induction es as [|e es IH]; simpl; [by destruct (decide _)|].
  rewrite filter_cons. simpl. destruct (decide (b = b')); simpl; [f_equal; exact IH|exact IH].
Qed.

(** One element leaves: the equations of the deques, then the counter. *)
Ltac one :=
  simpl; rewrite ?app_nil_r; split_and!; try done;
  match goal with Hc : counted _ |- _ => refine (add_count_counted (-1) _ _ _ Hc _); count_len end.

(** Every operation takes a prefix from either deque and appends what it puts. *)
Lemma exec_op_split op q out q' :
  exec_op op q = Some (out, q') -> counted q ->
  exists o1 o2, out = o1 ++ o2
    /\ priority_ q ++ puts_of true op = o1 ++ priority_ q'
    /\ queue_ q ++ puts_of false op = o2 ++ queue_ q'
    /\ counted q'.
Proof.
  intros H Hc. destruct op as [t b|es b| |b| |num]; cbn [exec_op] in H.
  - exists [], []. inversion H; subst; clear H.
    unfold puts_of. simpl.
    destruct b; simpl; rewrite ?app_nil_r; split_and!; try done;
      refine (add_count_counted 1 _ _ _ Hc _); count_len.
  - exists [], []. inversion H; subst; clear H.
    rewrite EnqueueAll_eq by done. rewrite !puts_of_all.
    destruct b; simpl; rewrite ?app_nil_r; split_and!; try done;
      refine (add_count_counted _ _ _ _ Hc _); count_len.
  - destruct (Dequeue q) as [[x q1]|] eqn:Hd; [|done]. inversion H; subst; clear H.
    destruct (Dequeue_counted _ _ _ Hc Hd) as [_ Hc'].
    destruct q as [n [|y p] [|z l]]; inversion Hd; subst; unfold puts_of; simpl;
      [exists [], [x] | exists [x], [] | exists [x], []]; by rewrite ?app_nil_r.
  - destruct q as [n [|y p] [|z l]], b; inversion H; subst; clear H; unfold puts_of; simpl;
      first [ by exists [], []; rewrite ?app_nil_r | exists [], [z]; solve [one] | exists [y], []; solve [one] ].
  - inversion H; subst; clear H. exists (priority_ q), (queue_ q).
    unfold puts_of. simpl. by rewrite !move_all_eq, !app_nil_r.
  - rewrite TryDequeueSome_eq in H. inversion H; subst; clear H.
    exists (take num (priority_ q)), (take (num - length (priority_ q)) (queue_ q)).
    unfold puts_of, items. simpl. rewrite take_app, !app_nil_r, !take_drop.
    split_and!; try done.
    refine (add_count_counted _ _ _ _ Hc _). count_len.
Qed.

Context (cls : T -> bool).
Definition of_class (b : bool) (l : list T) : list T := filter (fun t => cls t = b) l.

Lemma of_class_app b l1 l2 : of_class b (l1 ++ l2) = of_class b l1 ++ of_class b l2.
Proof. apply filter_app. Qed.

Lemma of_class_all b l : Forall (fun t => cls t = b) l -> of_class b l = l.
Proof.
  induction 1 as [|x l Hx _ IH]; [done|]. unfold of_class in *.
  by rewrite filter_cons_True, IH.
Qed.

Lemma of_class_none b l : Forall (fun t => cls t = negb b) l -> of_class b l = [].
Proof.
  induction 1 as [|x l Hx _ IH]; [done|]. unfold of_class in *.
  rewrite filter_cons_False; [done|]. rewrite Hx. by destruct b.
Qed.

(** Elements are in the deque of their class. *)
Definition sorted_in (q : ThreadedQueue) : Prop :=
  Forall (fun t => cls t = true) (priority_ q) /\ Forall (fun t => cls t = false) (queue_ q).

Definition respects (op : qop) : Prop := Forall (fun p => cls p.1 = p.2) (puts op).

Lemma puts_of_class b op :
  respects op -> Forall (fun t => cls t = b) (puts_of b op) /\ of_class b (puts op).*1 = puts_of b op.
Proof.
  unfold respects, puts_of. induction 1 as [|[x c] l Hx _ [IH1 IH2]]; [done|]. simpl in *.
  unfold of_class in *. rewrite !filter_cons. simpl. rewrite Hx.
  destruct (decide (c = b)) as [->|]; simpl; [|done].
  split; [by constructor|f_equal; exact IH2].
Qed.

Lemma exec_op_fifo op q out q' :
  exec_op op q = Some (out, q') -> counted q -> sorted_in q -> respects op ->
  priority_ q ++ of_class true (puts op).*1 = of_class true out ++ priority_ q'
  /\ queue_ q ++ of_class false (puts op).*1 = of_class false out ++ queue_ q'
  /\ counted q' /\ sorted_in q'.
Proof.
  intros H Hc [Hp Hl] Hop.
  destruct (exec_op_split _ _ _ _ H Hc) as (o1 & o2 & -> & E1 & E2 & Hc').
  destruct (puts_of_class true _ Hop) as [F1 ->], (puts_of_class false _ Hop) as [F2 ->].
  assert (G1 : Forall (fun t => cls t = true) (o1 ++ priority_ q')) by (rewrite <- E1; by apply Forall_app).
  assert (G2 : Forall (fun t => cls t = false) (o2 ++ queue_ q')) by (rewrite <- E2; by apply Forall_app).
  apply Forall_app in G1 as [G1 G1'], G2 as [G2 G2'].
  rewrite !of_class_app, (of_class_all true o1), (of_class_none true o2), (of_class_none false o1),
    (of_class_all false o2), app_nil_r by done.
  done.
Qed.

Lemma exec_ops_fifo ops q outs q' :
  exec_ops ops q = Some (outs, q') -> counted q -> sorted_in q -> Forall respects ops ->
  priority_ q ++ of_class true (concat (puts <$> ops)).*1 = of_class true outs ++ priority_ q'
  /\ queue_ q ++ of_class false (concat (puts <$> ops)).*1 = of_class false outs ++ queue_ q'
  /\ counted q'.
Proof.
  revert q outs. induction ops as [|op ops IH]; intros q outs H Hc Hs Hr; simpl in H.
  - inversion H; subst. by rewrite !app_nil_r.
  - destruct (exec_op op q) as [[out q1]|] eqn:H1; [|done].
    destruct (exec_ops ops q1) as [[outs' q2]|] eqn:H2; [|done].
    inversion H; subst; clear H. inversion Hr; subst.
    destruct (exec_op_fifo _ _ _ _ H1) as (E1 & E2 & Hc1 & Hs1); [done..|].
    destruct (IH _ _ H2) as (E3 & E4 & Hc2); [done..|].
    cbn [fmap list_fmap concat map]. rewrite !fmap_app, !of_class_app, !app_assoc, E1, E2, <- !app_assoc.
    rewrite E3, E4. done.
Qed.

End Queue.
Arguments ThreadedQueue T : clear implicits.
Arguments qop T : clear implicits.

(** ** Waiting for several queues

    [MultiQueueWaiter::Wait] and [WaitUntil] look at [quit] and at all queues
    while [MultiQueueLock] holds every mutex; between two looks they are in
    [cv.wait], which gives the mutexes back.  The looks of a call are given as
    a list; a call whose looks are used up is still asleep. *)
Section MultiWait.
Context {T : Type}.

(** [waiter.get() == this] for every queue; a waiter is named by a number *)
Fixpoint ValidateWaiter (this : nat) (waiters : list nat) : bool :=
  match waiters with
  | [] => true
  | w :: rest => if negb (w =? this) then false else ValidateWaiter this rest
  end.

(** [Wait(quit, queues...)]: the result says whether [quit] ended the wait *)
Fixpoint WaitQuit (looks : list (bool * list (ThreadedQueue T))) : option bool :=
  match looks with
  | [] => None
  | (quit, qs) :: rest =>
      if quit then Some true else if HasState qs then Some false else WaitQuit rest
  end.

(** [Wait(queues...)]; [None]: asleep *)
Fixpoint WaitAny (looks : list (list (ThreadedQueue T))) : option unit :=
  match looks with
  | [] => None
  | qs :: rest => if HasState qs then Some tt else WaitAny rest
  end.

(** [WaitUntil]: at most one [cv.wait_until], and no look after it; the result
    says whether it waited *)
Definition WaitUntil (qs : list (ThreadedQueue T)) : bool := negb (HasState qs).

Lemma HasState_exists (qs : list (ThreadedQueue T)) : HasState qs = true <-> exists q, q ∈ qs /\ IsEmpty q = false.
Proof.
  induction qs as [|q qs IH]; cbn [HasState]; [split; [done|]; by intros (q & ?%not_elem_of_nil & _)|].
  destruct (IsEmpty q) eqn:E; cbn [negb].
  - rewrite IH. split; intros (x & Hx & Hx'); exists x; (split; [|done]); [by right|].
    apply elem_of_cons in Hx as [->|Hx]; [congruence|done].
  - split; [|done]. intros _. exists q. split; [left|done].
Qed.

(** A wait ends at the first look that finds [quit] or an element, and says
    which; [quit] has the precedence. *)
Lemma WaitQuit_first looks b :
  WaitQuit looks = Some b <->
  exists before qs after, looks = before ++ (b, qs) :: after /\
    Forall (fun '(quit, qs) => quit = false /\ HasState qs = false) before /\ (b = false -> HasState qs = true).
Proof.
  induction looks as [|[quit qs] looks IH]; cbn [WaitQuit].
  - split; [done|]. by intros ([|[]] & ? & ? & ? & _).
  - destruct quit; [|destruct (HasState qs) eqn:E].
    + split; [intros [= <-]; by exists [], qs, looks|].
      intros ([|[q1 qs1] before] & qs' & after & Hl & Hb & _); injection Hl as <- <- ?; [done|].
      apply Forall_cons_1 in Hb as [[? _] _]. done.
    + split; [intros [= <-]; by exists [], qs, looks|].
      intros ([|[q1 qs1] before] & qs' & after & Hl & Hb & _); injection Hl as <- <- ?; [done|].
      apply Forall_cons_1 in Hb as [[_ Hx] _]. congruence.
    + rewrite IH. split.
      * intros (before & qs' & after & -> & Hb & Hq). exists ((false, qs) :: before), qs', after.
        split; [done|]. split; [|done]. by constructor.
      * intros ([|[q1 qs1] before] & qs' & after & Hl & Hb & Hq).
        -- injection Hl as <- <- _. specialize (Hq eq_refl). congruence.
        -- injection Hl as <- <- ->. apply Forall_cons_1 in Hb as [_ Hb]. by exists before, qs', after.
Qed.
End MultiWait.

(** C24. For any sequence of operations from any number of threads on a new queue:
    nothing is lost, duplicated or reordered within a priority class (what was
    put is what was taken followed by what is still there, in order), and as
    long as an [int] can count the elements, [Size] is their number and
    [IsEmpty] tells whether there are none. *)
Theorem queue_fifo {T} (cls : T -> bool) (ops : list (qop T)) (outs : list T) (q : ThreadedQueue T) :
  Forall (respects cls) ops -> exec_ops ops new_queue = Some (outs, q) ->
  of_class cls true (concat (puts <$> ops)).*1 = of_class cls true outs ++ priority_ q
  /\ of_class cls false (concat (puts <$> ops)).*1 = of_class cls false outs ++ queue_ q
  /\ ((Z.of_nat (length (items q)) < 2 ^ 31)%Z ->
      Size q = Z.of_nat (length (items q)) /\ IsEmpty q = bool_decide (items q = [])).
Proof.
  intros Hr H. destruct (exec_ops_fifo cls _ _ _ _ H) as (E1 & E2 & Hc); [done| |done|].
  { by split; constructor. }
  split_and!; [done..|]. intros Hlt. unfold Size, IsEmpty. rewrite Hc, to_int32_id by lia.
  rewrite Z.mod_small by lia. split; [done|].
  by destruct (items q).
Qed.

Definition sample_ops : list (qop Z) :=
  [QEnqueue 3%Z false; QEnqueueAll [10; 12]%Z true; QDequeue; QEnqueueAll [5; 7]%Z false;
   QTryDequeue false; QTryDequeueSome 2; QEnqueue 14%Z true].

Lemma queue_fifo_witness :
  of_class Z.even true (concat (puts <$> sample_ops)).*1 = [10; 12; 14]%Z
  /\ exec_ops sample_ops new_queue = Some ([10; 3; 12; 5]%Z, mkQueue 2 [14]%Z [7]%Z)
  /\ Size (mkQueue 2 [14]%Z [7]%Z) = 2%Z.
Proof.
  split; [reflexivity|]. split; [reflexivity|].
  apply (queue_fifo Z.even sample_ops [10; 3; 12; 5]%Z).
  - repeat constructor.
  - reflexivity.
  - reflexivity.
Defined.

Lemma batch_is_one_by_one_witness :
  TryDequeueSome 3 (mkQueue 4 [1; 2]%Z [3; 4]%Z) = ([1; 2; 3]%Z, mkQueue 1 [] [4]%Z).
Proof.
  etransitivity;
    [apply (batch_is_one_by_one (mkQueue 4 [1; 2]%Z [3; 4]%Z) [] true 3); reflexivity|reflexivity].
Defined.

(** ** The condition variable

    Queues that share one [MultiQueueWaiter].  A thread in [Dequeue] of queue
    [i] sleeps in [cv.wait], or has been notified and will take the mutex and
    test its predicate again.  A producer that has left its critical section
    still has to call [notify_one] ([pending_one] of them) or [notify_all]. *)
Section Waiter.
Context {T : Type}.

Record wstate := mkW {
  queues : list (ThreadedQueue T);
  sleeping : list nat;       (** queue index of every sleeping thread *)
  notified : list nat;
  pending_one : nat;
  pending_all : nat
}.

Definition start_waiter (n : nat) : wstate := mkW (replicate n new_queue) [] [] 0 0.

Inductive wstep : wstate -> wstate -> Prop :=
| W_Enqueue qs sl no po pa i q t b :
    qs !! i = Some q ->
    wstep (mkW qs sl no po pa) (mkW (<[i := Enqueue t b q]> qs) sl no (S po) pa)
| W_EnqueueAll qs sl no po pa i q es b :
    qs !! i = Some q -> es <> [] ->
    wstep (mkW qs sl no po pa) (mkW (<[i := EnqueueAll es b q]> qs) sl no po (S pa))
| W_notify_one qs sl1 i sl2 no po pa :       (** any sleeping thread *)
    wstep (mkW qs (sl1 ++ i :: sl2) no (S po) pa) (mkW qs (sl1 ++ sl2) (i :: no) po pa)
| W_notify_nobody qs no po pa :
    wstep (mkW qs [] no (S po) pa) (mkW qs [] no po pa)
| W_notify_all qs sl no po pa :
    wstep (mkW qs sl no po (S pa)) (mkW qs [] (sl ++ no) po pa)
| W_spurious qs sl1 i sl2 no po pa :
    wstep (mkW qs (sl1 ++ i :: sl2) no po pa) (mkW qs (sl1 ++ sl2) (i :: no) po pa)
| W_Dequeue qs sl no po pa i q x q' :
    qs !! i = Some q -> Dequeue q = Some (x, q') ->
    wstep (mkW qs sl no po pa) (mkW (<[i := q']> qs) sl no po pa)
| W_block qs sl no po pa i q :
    qs !! i = Some q -> Dequeue q = None ->
    wstep (mkW qs sl no po pa) (mkW qs (i :: sl) no po pa)
| W_wake_take qs sl no1 i no2 po pa q x q' :
    qs !! i = Some q -> Dequeue q = Some (x, q') ->
    wstep (mkW qs sl (no1 ++ i :: no2) po pa) (mkW (<[i := q']> qs) sl (no1 ++ no2) po pa)
| W_wake_block qs sl no1 i no2 po pa q :
    qs !! i = Some q -> Dequeue q = None ->
    wstep (mkW qs sl (no1 ++ i :: no2) po pa) (mkW qs (i :: sl) (no1 ++ no2) po pa)
| W_TryDequeue qs sl no po pa i q b :
    qs !! i = Some q ->
    wstep (mkW qs sl no po pa) (mkW (<[i := (TryDequeue b q).2]> qs) sl no po pa)
| W_DequeueAll qs sl no po pa i q :
    qs !! i = Some q ->
    wstep (mkW qs sl no po pa) (mkW (<[i := (DequeueAll q).2]> qs) sl no po pa)
| W_TryDequeueSome qs sl no po pa i q num :
    qs !! i = Some q ->
    wstep (mkW qs sl no po pa) (mkW (<[i := (TryDequeueSome num q).2]> qs) sl no po pa).

Definition quiet (s : wstate) : Prop := notified s = [] /\ pending_one s = 0 /\ pending_all s = 0.

(** A single queue: whoever sleeps, enough threads are on their way to take
    every element. *)
Definition woken_enough (s : wstate) : Prop :=
  exists q, queues s = [q]
    /\ (sleeping s = [] \/ 0 < pending_all s
        \/ length (items q) <= length (notified s) + pending_one s).

Lemma Dequeue_items (q : ThreadedQueue T) x q' :
  Dequeue q = Some (x, q') -> length (items q) = S (length (items q')).
Proof. by destruct q as [n [|y p] [|z l]]; inversion 1; subst; unfold items; simpl; rewrite ?length_app. Qed.

Lemma Enqueue_items (q : ThreadedQueue T) t b : length (items (Enqueue t b q)) = S (length (items q)).
Proof. destruct b; unfold items; simpl; rewrite ?app_assoc, !length_app; simpl; lia. Qed.

Lemma TryDequeue_items (q : ThreadedQueue T) b : length (items (TryDequeue b q).2) <= length (items q).
Proof.
  destruct q as [n [|y p] [|z l]], b; unfold items; simpl; rewrite ?length_app; simpl; lia.
Qed.

Lemma TryDequeueSome_items (q : ThreadedQueue T) num :
  length (items (TryDequeueSome num q).2) <= length (items q).
Proof. rewrite TryDequeueSome_eq. unfold items. simpl. rewrite !length_app, !length_drop. lia. Qed.

Lemma start_woken : woken_enough (start_waiter 1).
Proof. exists new_queue. split; [done|by left]. Qed.

Lemma wstep_woken s s' : wstep s s' -> woken_enough s -> woken_enough s'.
Proof.
  intros H (q0 & Hq & Hw).
  destruct H as [? ? ? ? ? [|i] q t b Hi|? ? ? ? ? [|i] q es b Hi He| | | | |
                 ? ? ? ? ? [|i] q x q' Hi Hd|? ? ? ? ? [|i] q Hi Hd|? ? ? [|i] ? ? ? q x q' Hi Hd
                |? ? ? [|i] ? ? ? q Hi Hd|? ? ? ? ? [|i] q b Hi|? ? ? ? ? [|i] q Hi
                |? ? ? ? ? [|i] q num Hi];
    simpl in Hq; subst; try done; simpl in *; try (injection Hi as <-);
    (eexists; split; [reflexivity|]); simpl in *;
    try (apply Dequeue_items in Hd); try (apply Dequeue_None in Hd; rewrite Hd in * );
    try (pose proof (Enqueue_items q0 t b)); try (pose proof (TryDequeue_items q0 b));
    try (pose proof (TryDequeueSome_items q0 num));
    (destruct Hw as [Hs|[Ha|Hl]]; [try (by destruct sl1)|..]);
    rewrite ?length_app in *; simpl in *; try rewrite length_app in *; simpl in *;
    solve [by left | right; left; lia | right; right; lia].
Qed.

(** With a waiter of its own, a queue loses no wake-up: when no thread is
    notified or about to notify, a thread blocked in [Dequeue] means that the
    queue is empty, in every interleaving of producers and consumers. *)
Theorem no_lost_wakeup (s : wstate) (q : ThreadedQueue T) :
  rtc wstep (start_waiter 1) s -> quiet s -> queues s = [q] -> sleeping s <> [] -> items q = [].
Proof.
  intros Hr (Hn & Ho & Ha) Hq Hs.
  assert (woken_enough s) as (q' & Hq' & Hw).
  { revert Hr. apply (rtc_ind_r (fun s => woken_enough s)); [apply start_woken|].
    intros. by eapply wstep_woken. }
  rewrite Hq in Hq'. injection Hq' as <-. rewrite Hn, Ho, Ha in Hw.
  destruct Hw as [?|[?|Hw]]; [done|lia|]. simpl in Hw. apply nil_length_inv. lia.
Qed.
End Waiter.
Arguments wstate T : clear implicits.

Lemma no_lost_wakeup_witness :
  items (mkQueue (T := Z) 0 [] []) = [].
Proof.
  apply (no_lost_wakeup (mkW [mkQueue (T := Z) 0 [] []] [0] [] 0 0)).
  - apply rtc_once. by eapply W_block.
  - done.
  - done.
  - done.
Defined.

(** Two queues that share a waiter can lose one: [notify_one] of the second
    queue wakes the thread blocked on the first, which goes back to sleep, and
    the thread blocked on the second sleeps on although its queue holds an
    element and nobody is left to notify it. *)
Theorem shared_waiter_loses_wakeup :
  exists s : wstate Z, rtc wstep (start_waiter 2) s /\ quiet s
    /\ exists i q, i ∈ sleeping s /\ queues s !! i = Some q /\ items q <> [].
Proof.
  exists (mkW [new_queue; Enqueue 7%Z false new_queue] [0; 1] [] 0 0). split_and!; [|done|].
  - eapply rtc_l; [by eapply (W_block _ _ _ _ _ 0)|].
    eapply rtc_l; [by eapply (W_block _ _ _ _ _ 1)|].
    eapply rtc_l; [by eapply (W_Enqueue _ _ _ _ _ 1 _ 7%Z false)|].
    eapply rtc_l; [by eapply (W_notify_one _ [1] 0 [])|].
    eapply rtc_l; [by eapply (W_wake_block _ _ [] 0 [])|].
    apply rtc_refl.
  - exists 1, (Enqueue 7%Z false new_queue). split_and!; [|done|done]. set_solver.
Qed.
