(* ===== verification/Timers.v ===== *)
(** * Timers, the I/O thread and scope guards

    [SimpleTimer] (include/LibLsp/lsp/SimpleTimer.h), [ProcessIoService]
    (include/LibLsp/lsp/ProcessIoService.h) and [scope_exit]
    (include/LibLsp/JsonRpc/ScopeExit.h).  Threads are the steps of a relation;
    [io_context::run] invokes one ready handler after the other, returns when
    the context is stopped, and without a stop when there is no work left. *)
From S2P Require Import Prelude.

(** ** [SimpleTimer] *)
Module SimpleTimer.

(** Where the thread that runs [_ios.run()] is: waiting for the timer, at the
    test of [is_running_] in the handler, in the callback, or done *)
Inductive thread := Waiting | Testing | Calling | Done.
(** Where a call of [Stop] is: not begun, [is_running_] cleared, [_ios]
    stopped, thread joined *)
Inductive stop_phase := NotStopped | Cleared | IosStopped | Joined.

Record timer := mkTimer {
  is_running_ : bool;
  ios_stopped : bool;
  thread_ : thread;
  stop_ : stop_phase;
  calls : nat                    (** calls of [call_back] so far *)
}.

(** The constructor *)
Definition new_timer : timer := mkTimer true false Waiting NotStopped 0.

Inductive timer_step : timer -> timer -> Prop :=
| Expire t : thread_ t = Waiting -> ios_stopped t = false ->
    timer_step t (mkTimer (is_running_ t) (ios_stopped t) Testing (stop_ t) (calls t))
| RunReturns t : thread_ t = Waiting -> ios_stopped t = true ->
    timer_step t (mkTimer (is_running_ t) (ios_stopped t) Done (stop_ t) (calls t))
| Test t : thread_ t = Testing ->
    timer_step t (if is_running_ t
            then mkTimer (is_running_ t) (ios_stopped t) Calling (stop_ t) (S (calls t))
            else mkTimer (is_running_ t) (ios_stopped t) Done (stop_ t) (calls t))
| CallbackReturns t : thread_ t = Calling ->
    timer_step t (mkTimer (is_running_ t) (ios_stopped t) Done (stop_ t) (calls t))
| StopClears t : stop_ t = NotStopped ->
    timer_step t (mkTimer false (ios_stopped t) (thread_ t) Cleared (calls t))
| StopStopsIos t : stop_ t = Cleared ->
    timer_step t (mkTimer (is_running_ t) true (thread_ t) IosStopped (calls t))
| StopJoins t : stop_ t = IosStopped -> thread_ t = Done ->
    timer_step t (mkTimer (is_running_ t) (ios_stopped t) (thread_ t) Joined (calls t)).

(** [Stop] called by the callback itself: [join] of the calling thread throws,
    and the exception leaves the function of the thread: [None] stands for
    [std::terminate] *)
Definition Stop_in_callback (t : timer) : option timer :=
  match thread_ t with
  | Calling => None
  | _ => Some (mkTimer false true (thread_ t) (stop_ t) (calls t))
  end.

Definition reachable (t : timer) : Prop := rtc timer_step new_timer t.

(** The callback is called at most once; after a join the thread is done, and
    a stop that has begun has cleared the flag. *)
Definition ok (t : timer) : Prop :=
  calls t + (match thread_ t with Waiting | Testing => 1 | _ => 0 end) <= 1 /\
  (stop_ t <> NotStopped -> is_running_ t = false) /\
  (stop_ t = Joined -> thread_ t = Done) /\
  (stop_ t = IosStopped -> ios_stopped t = true).

Lemma step_ok t t' : timer_step t t' -> ok t -> ok t'.
Proof.
  unfold ok. destruct 1 as [t E E'|t E E'|t E|t E|t E|t E|t E E']; intros (H1 & H2 & H3 & H4); rewrite ?E in *;
    try destruct (is_running_ t) eqn:Er; cbn; try rewrite Er; repeat split; intros; try congruence; try lia; auto;
    naive_solver.
Qed.

Lemma reachable_timer_ok t : reachable t -> ok t.
Proof.
  intros H. eapply (rtc_ind_r ok); [| |exact H].
  - unfold ok. cbn. repeat split; intros; congruence || lia.
  - intros t1 t2 _ Hs Hok. by eapply step_ok.
Qed.

(** Once the flag is cleared no call begins. *)
Lemma stopped_calls t t' :
  rtc timer_step t t' -> is_running_ t = false -> is_running_ t' = false /\ calls t' = calls t.
Proof.
  induction 1 as [|t t1 t2 Hs _ IH]; intros Hr; [done|].
  assert (H1 : is_running_ t1 = false /\ calls t1 = calls t) by (destruct Hs; rewrite ?Hr in *; cbn in *; done).
  destruct H1 as [H1 <-]. by apply IH.
Qed.

Lemma thread_finishes t : ios_stopped t = true -> exists t', rtc timer_step t t' /\ thread_ t' = Done /\ stop_ t' = stop_ t.
Proof.
  intros Hi. destruct (thread_ t) eqn:E.
  - eexists. split; [eapply rtc_once, RunReturns; done|done].
  - destruct (is_running_ t) eqn:Er.
    + eexists. split; [eapply rtc_l; [apply Test; done|]; rewrite Er; eapply rtc_once, CallbackReturns; done|done].
    + eexists. split; [eapply rtc_once, Test; done|]. by rewrite Er.
  - eexists. split; [eapply rtc_once, CallbackReturns; done|done].
  - exists t. split; [apply rtc_refl|done].
Qed.

Lemma ios_stopped_joins t : ios_stopped t = true -> stop_ t = IosStopped -> exists t', rtc timer_step t t' /\ stop_ t' = Joined.
Proof.
  intros Hi Hs. destruct (thread_finishes t Hi) as (t1 & H1 & Hd & Hs1).
  eexists. split; [eapply rtc_r; [exact H1|apply StopJoins; congruence]|done].
Qed.

(** A timer calls its callback at most once.  Once [Stop] has cleared the flag
    no call begins any more, and [Stop] can always finish, after the callback
    that is under way; when it has returned, the thread is done. *)
Theorem timer_stop_final (t : timer) :
  reachable t ->
  calls t <= 1 /\
  (stop_ t <> NotStopped -> forall t', rtc timer_step t t' -> calls t' = calls t) /\
  (stop_ t <> NotStopped -> exists t', rtc timer_step t t' /\ stop_ t' = Joined) /\
  (stop_ t = Joined -> thread_ t = Done).
Proof.
  intros (H1 & H2 & H3 & H4)%reachable_timer_ok. split; [lia|]. split; [|split; [|done]].
  - intros Hs t' Hr. by apply (stopped_calls t t' Hr), H2.
  - intros Hs. destruct (stop_ t) eqn:E; [done| | |].
    + destruct (ios_stopped_joins (mkTimer (is_running_ t) true (thread_ t) IosStopped (calls t))) as (t' & Hr & Hj);
        [done|done|]. exists t'. split; [|done]. eapply rtc_l; [by apply StopStopsIos|exact Hr].
    + by apply ios_stopped_joins; [apply H4|].
    + exists t. by split; [apply rtc_refl|].
Qed.

Lemma timer_stop_final_witness :
  let t := mkTimer false false Calling Cleared 1 in exists t', rtc timer_step t t' /\ stop_ t' = Joined.
Proof.
  intros t. destruct (timer_stop_final t) as (_ & _ & H & _); [|by apply H].
  eapply rtc_l; [by apply Expire|]. eapply rtc_l; [by apply Test|]. eapply rtc_l; [by apply StopClears|]. apply rtc_refl.
Defined.

(** A callback that stops its own timer ends the program. *)
Lemma stop_in_callback_terminates t : thread_ t = Calling -> Stop_in_callback t = None.
Proof. intros H. unfold Stop_in_callback. by rewrite H. Qed.
End SimpleTimer.

(** ** [ProcessIoService] *)
Module IoService.

(** The handlers of the context, named by numbers *)
Record service := mkService {
  work_ : bool;                  (** the work guard *)
  queue : list nat;
  ran : list nat;                (** the handlers that have run, in order *)
  returned : bool;               (** [run()] has returned *)
  joined : bool                  (** [stop()] has returned *)
}.
Definition new_service : service := mkService true [] [] false false.

Inductive io_step : service -> service -> Prop :=
| Post s h : io_step s (mkService (work_ s) (queue s ++ [h]) (ran s) (returned s) (joined s))
| RunOne s h rest : queue s = h :: rest -> returned s = false ->
    io_step s (mkService (work_ s) rest (ran s ++ [h]) (returned s) (joined s))
| RunReturns s : queue s = [] -> work_ s = false ->
    io_step s (mkService (work_ s) (queue s) (ran s) true (joined s))
| StopResets s : work_ s = true -> io_step s (mkService false (queue s) (ran s) (returned s) (joined s))
| StopJoins s : work_ s = false -> returned s = true -> joined s = false ->
    io_step s (mkService (work_ s) (queue s) (ran s) (returned s) true).

(** All handlers that were posted *)
Definition posted (s : service) : list nat := ran s ++ queue s.

Lemma step_posted s s' : io_step s s' -> posted s `prefix_of` posted s' /\ (returned s = true -> ran s' = ran s).
Proof.
  unfold posted. destruct 1 as [s h|s h rest E E'|s E E'|s E|s E E' E'']; cbn.
  - split; [|done]. rewrite app_assoc. by eexists.
  - split; [|congruence]. rewrite E. by rewrite <- app_assoc.
  - done.
  - done.
  - done.
Qed.

Lemma posted_mono s s' : rtc io_step s s' -> posted s `prefix_of` posted s'.
Proof. induction 1 as [|s s1 s2 Hs _ IH]; [done|]. etransitivity; [by apply (step_posted s s1 Hs)|exact IH]. Qed.

(** [run] returns only when the work guard is gone and nothing is queued; what
    is posted later is never run. *)
Lemma returned_done s s' :
  rtc io_step s s' -> returned s = false -> returned s' = true -> posted s `prefix_of` ran s'.
Proof.
  induction 1 as [|s s1 s2 Hs Hr IH]; intros H1 H2; [congruence|].
  destruct (returned s1) eqn:E1; [|etransitivity; [by apply (step_posted s s1 Hs)|by apply IH]].
  assert (Hd : ran s2 = ran s1).
  { clear -Hr E1. induction Hr as [|s1 s2 s3 Hs _ IH]; [done|]. rewrite IH; [by apply (step_posted s1 s2 Hs)|].
    by destruct Hs. }
  rewrite Hd. destruct Hs; cbn in *; try congruence. unfold posted. by rewrite H, app_nil_r.
Qed.

Definition service_ok (s : service) : Prop :=
  (returned s = true -> work_ s = false) /\ (joined s = true -> returned s = true).

Lemma service_ok_rtc s s' : rtc io_step s s' -> service_ok s -> service_ok s'.
Proof.
  induction 1 as [|s s1 s2 Hs _ IH]; intros Hok; [done|]. apply IH. clear IH. destruct Hok as [H1 H2].
  destruct Hs; split; cbn; intros; auto; congruence.
Qed.

(** [stop] returns only after every handler that was posted before it was
    called has run, each once and in the order of posting. *)
Theorem stop_runs_all (s s' : service) :
  rtc io_step new_service s -> work_ s = true -> rtc io_step s s' -> joined s' = true ->
  posted s `prefix_of` ran s'.
Proof.
  intros Hr Hw Hs Hj. assert (Hok : service_ok s) by (by apply (service_ok_rtc _ _ Hr)).
  pose proof (service_ok_rtc _ _ Hs Hok) as Hok'. apply (returned_done s s' Hs); [|by apply Hok'].
  destruct (returned s) eqn:E; [|done]. destruct Hok as [H _]. rewrite H in Hw by done. done.
Qed.

Lemma stop_runs_all_witness :
  exists s', rtc io_step (mkService true [7; 8] [] false false) s' /\ joined s' = true /\ [7; 8] `prefix_of` ran s'.
Proof.
  assert (Hr : rtc io_step new_service (mkService true [7; 8] [] false false)).
  { eapply rtc_l; [apply (Post _ 7)|]. eapply rtc_l; [apply (Post _ 8)|]. apply rtc_refl. }
  assert (Hs : rtc io_step (mkService true [7; 8] [] false false) (mkService false [] [7; 8] true true)).
  { eapply rtc_l; [by apply StopResets|]. eapply rtc_l; [by apply RunOne|]. eapply rtc_l; [by apply RunOne|].
    eapply rtc_l; [by apply RunReturns|]. eapply rtc_l; [by apply StopJoins|]. apply rtc_refl. }
  exists (mkService false [] [7; 8] true true). split; [exact Hs|]. split; [done|].
  apply (stop_runs_all (mkService true [7; 8] [] false false)); done.
Defined.
End IoService.

(** ** [scope_exit] *)
Module ScopeExit.

(** The guards made from one [make_scope_exit], each with [Engaged], or [None]
    once it is destroyed; [runs] counts the calls of [ExitFunction], [released] says that
    an engaged guard was released. *)
Record guards := mkGuards { alive : list (option bool); runs : nat; released : bool }.
Definition make_scope_exit : guards := mkGuards [Some true] 0 false.

(** [scope_exit(scope_exit&& Rhs)], the last element of the new list *)
Definition move_from (i : nat) (g : guards) : option guards :=
  match (alive g !! i : option (option bool)) with
  | Some (Some e) => Some (mkGuards (<[i := Some false]> (alive g) ++ [Some e]) (runs g) (released g))
  | _ => None
  end.
Definition release (i : nat) (g : guards) : option guards :=
  match (alive g !! i : option (option bool)) with
  | Some (Some e) => Some (mkGuards (<[i := Some false]> (alive g)) (runs g) (released g || e))
  | _ => None
  end.
(** [~scope_exit] *)
Definition destroy (i : nat) (g : guards) : option guards :=
  match (alive g !! i : option (option bool)) with
  | Some (Some e) => Some (mkGuards (<[i := None]> (alive g)) (if e then S (runs g) else runs g) (released g))
  | _ => None
  end.

Inductive op := Move (i : nat) | Release (i : nat) | Destroy (i : nat).
Definition run_op (o : op) : guards -> option guards :=
  match o with Move i => move_from i | Release i => release i | Destroy i => destroy i end.
Fixpoint run_ops (os : list op) (g : guards) : option guards :=
  match os with [] => Some g | o :: os => run_op o g ≫= run_ops os end.

Definition engaged (l : list (option bool)) : nat := length (filter (fun e : option bool => e = Some true) l).

(** Exactly one of: some guard is engaged, the function has run, the guard was
    released *)
Definition balanced (g : guards) : Prop := engaged (alive g) + runs g + Nat.b2n (released g) = 1.

Lemma engaged_app l1 l2 : engaged (l1 ++ l2) = engaged l1 + engaged l2.
Proof. unfold engaged. by rewrite filter_app, length_app. Qed.

Lemma engaged_insert l i e e' :
  l !! i = Some e -> engaged (<[i := e']> l) + engaged [e] = engaged l + engaged [e'].
Proof.
  intros Hi. pose proof (lookup_lt_Some _ _ _ Hi) as Hl.
  rewrite insert_take_drop by done. rewrite <- (take_drop_middle l i e Hi) at 3.
  rewrite !engaged_app. change (e' :: drop (S i) l) with ([e'] ++ drop (S i) l).
  change (e :: drop (S i) l) with ([e] ++ drop (S i) l). rewrite !engaged_app. lia.
Qed.

Lemma engaged_some (e : bool) : engaged [Some e] = Nat.b2n e.
Proof. by destruct e. Qed.
Lemma engaged_none : engaged [None] = 0.
Proof. done. Qed.

Ltac count_engaged e' E :=
  let H := fresh in pose proof (engaged_insert _ _ _ e' E) as H;
  rewrite ?engaged_some, ?engaged_none in *; cbn [Nat.b2n] in *.

Lemma run_op_balanced o g g' : run_op o g = Some g' -> balanced g -> balanced g'.
Proof.
  unfold balanced. destruct o as [i|i|i]; cbn [run_op]; unfold move_from, release, destroy;
    destruct (alive g !! i) as [[e|]|] eqn:E; intros [= <-]; cbn [alive runs released];
    rewrite ?engaged_app.
  - count_engaged (Some false) E. destruct e; cbn in *; lia.
  - count_engaged (Some false) E. destruct e, (released g); cbn in *; lia.
  - count_engaged (@None bool) E. destruct e; cbn in *; lia.
Qed.

Lemma run_ops_balanced os g g' : run_ops os g = Some g' -> balanced g -> balanced g'.
Proof.
  revert g. induction os as [|o os IH]; intros g; cbn; [by intros [= <-]|].
  intros (g1 & H1 & H2)%bind_Some Hb. eapply IH; [exact H2|]. by eapply run_op_balanced.
Qed.

(** However a guard is moved around, the function runs exactly once, when the
    last guard is gone, unless an engaged guard was released: then never. *)
Theorem scope_exit_once (os : list op) (g : guards) :
  run_ops os make_scope_exit = Some g ->
  runs g <= 1 /\ (Forall (fun e => e = None) (alive g) -> runs g = if released g then 0 else 1).
Proof.
  intros H. apply run_ops_balanced in H; [|done]. unfold balanced in H. split; [lia|]. intros Hn.
  assert (He : engaged (alive g) = 0); [|destruct (released g); cbn in H; lia].
  clear H. unfold engaged. induction Hn as [|e l -> _ IH]; [done|]. rewrite filter_cons_False by done. exact IH.
Qed.

Lemma scope_exit_once_witness :
  exists g, run_ops [Move 0; Destroy 0; Move 1; Destroy 1; Destroy 2] make_scope_exit = Some g /\ runs g = 1.
Proof.
  eexists. split; [reflexivity|]. eapply (scope_exit_once [Move 0; Destroy 0; Move 1; Destroy 1; Destroy 2]);
  [reflexivity|]. repeat constructor.
Defined.
End ScopeExit.
