(* ===== verification/TcpServer.v ===== *)
(** * The TCP and WebSocket servers

    src/jsonrpc/TcpServer.cpp and src/jsonrpc/WebSocketServer.cpp: the stream
    wrappers over a queue of received bytes, the queue of outgoing chunks, and
    the server's accept loop.  asio and ixwebsocket appear through the
    completions they deliver: bytes received, an error, a finished write, a
    new connection. *)
From S2P Require Import Prelude CppString Stream ThreadedQueue.
From stdpp Require Import relations.

(** ** [tcp_stream_wrapper] as an input stream *)

(** What the event loop and other threads do to the stream *)
Inductive net_event :=
| Received (chunk : bytes)       (** [do_read] completed: [EnqueueAll] *)
| NetError (msg : bytes)         (** [do_read] or a write failed, or the peer closed *)
| Interrupted.                   (** [interrupt()] by [stop] or by a new connection *)

Record tcp_stream := mkTcp {
  quit : bool;
  on_request : ThreadedQueue byte;
  error_message : bytes;
  socket_open : bool;
  arrivals : list net_event;     (** what is still to happen; [[]]: the peer closes *)
  ahead : list nat               (** how many arrivals come before each call *)
}.

Definition set_queue (s : tcp_stream) (q : ThreadedQueue byte) : tcp_stream :=
  mkTcp (quit s) q (error_message s) (socket_open s) (arrivals s) (ahead s).

Definition tcp_interrupt (s : tcp_stream) : tcp_stream :=
  mkTcp true (on_request s) (error_message s) (socket_open s) (arrivals s) (ahead s).

Definition read_failed (msg : bytes) (s : tcp_stream) : tcp_stream :=
  mkTcp true (on_request s) msg (socket_open s) (arrivals s) (ahead s).

(** The completion handler of [do_read], or [interrupt()] *)
Definition handle_event (e : net_event) (s : tcp_stream) : tcp_stream :=
  match e with
  | Received chunk => set_queue s (EnqueueAll chunk false (on_request s))
  | NetError msg => read_failed msg s
  | Interrupted => tcp_interrupt s
  end.

Definition set_arrivals (s : tcp_stream) (evs : list net_event) : tcp_stream :=
  mkTcp (quit s) (on_request s) (error_message s) (socket_open s) evs (ahead s).

Fixpoint deliver (n : nat) (evs : list net_event) (s : tcp_stream) : tcp_stream :=
  match n, evs with
  | S n', e :: rest => deliver n' rest (handle_event e s)
  | _, _ => set_arrivals s evs
  end.

(** The arrivals that precede the next call *)
Definition arrive (s : tcp_stream) : tcp_stream :=
  match ahead s with
  | [] => s
  | n :: more =>
      deliver n (arrivals s)
        (mkTcp (quit s) (on_request s) (error_message s) (socket_open s) (arrivals s) more)
  end.

(** [MultiQueueWaiter::Wait(quit, &on_request)]: the flag is true when [quit]
    ended the wait *)
Fixpoint wait_loop (evs : list net_event) (s : tcp_stream) : bool * tcp_stream :=
  if quit s then (true, set_arrivals s evs)
  else if HasState [on_request s] then (false, set_arrivals s evs)
  else match evs with
       | [] => (true, set_arrivals (read_failed (lit "End of file") s) [])
       | e :: rest => wait_loop rest (handle_event e s)
       end.

Definition Wait (s : tcp_stream) : bool * tcp_stream := wait_loop (arrivals s) s.

Definition tcp_get (s : tcp_stream) : option byte * tcp_stream :=
  match Wait (arrive s) with
  | (true, s') => (None, s')
  | (false, s') =>
      let '(item, q) := TryDequeue false (on_request s') in (item, set_queue s' q)
  end.

Definition try_some (num : nat) (s : tcp_stream) : bytes * tcp_stream :=
  let '(some, q) := TryDequeueSome num (on_request s) in (some, set_queue s q).

Fixpoint get_n (n : nat) (s : tcp_stream) : bytes * tcp_stream :=
  match n with
  | 0 => ([], s)
  | S n' =>
      match tcp_get s with
      | (None, s') => ([], s')
      | (Some c, s') => let '(l, s'') := get_n n' s' in (c :: l, s'')
      end
  end.

Definition tcp_read (count : nat) (s : tcp_stream) : bytes * tcp_stream :=
  let '(some, s') := try_some count (arrive s) in
  let '(more, s'') := get_n (count - length some) s' in
  (some ++ more, s'').

Definition tcp_read_some (count : nat) (s : tcp_stream) : bytes * tcp_stream :=
  if count =? 0 then ([], s)
  else match try_some count (arrive s) with
       | ([], s1) =>
           match tcp_get s1 with
           | (None, s2) => ([], s2)
           | (Some c, s2) =>
               let '(some, s3) := try_some (count - 1) (arrive s2) in (c :: some, s3)
           end
       | (some, s1) => (some, s1)
       end.

Definition tcp_bad (s : tcp_stream) : bool := quit s || negb (socket_open s).

Definition tcp_what (s : tcp_stream) : bytes :=
  match error_message s with
  | [] => if negb (socket_open s) then lit "Socket is not open." else []
  | msg => msg
  end.

#[export] Instance tcp_Istream : Istream tcp_stream := {
  bad := tcp_bad;
  fail := tcp_bad;
  eof := tcp_bad;
  what := tcp_what;
  need_to_clear_the_state _ := false;
  clear s := s;
  get := tcp_get;
  read := tcp_read;
  read_some := tcp_read_some
}.

(** *** The laws hold while the peer keeps the connection open *)

Definition event_bytes (e : net_event) : bytes := match e with Received c => c | _ => [] end.
Definition is_received (e : net_event) : bool := match e with Received _ => true | _ => false end.

Definition tcp_pending (s : tcp_stream) : bytes :=
  items (on_request s) ++ concat (map event_bytes (arrivals s)).

Definition tcp_alive (s : tcp_stream) : Prop :=
  quit s = false /\ socket_open s = true /\ forallb is_received (arrivals s) = true /\
  counted (on_request s) /\ priority_ (on_request s) = [] /\
  (Z.of_nat (length (tcp_pending s)) < 2 ^ 32)%Z.

Lemma EnqueueAll_plain chunk (q : ThreadedQueue byte) :
  counted q -> priority_ q = [] ->
  let q' := EnqueueAll chunk false q in
  counted q' /\ priority_ q' = [] /\ items q' = items q ++ chunk.
Proof.
  intros Hc Hp q'. subst q'. rewrite EnqueueAll_eq by done. unfold items. cbn [priority_ queue_].
  rewrite Hp. split; [|done]. apply add_count_counted; [done|]. unfold items. rewrite Hp. cbn [app].
  rewrite length_app. lia.
Qed.

(** One delivery moves its bytes from the network into the queue. *)
Lemma handle_event_alive e rest s :
  tcp_alive (set_arrivals s (e :: rest)) ->
  tcp_alive (set_arrivals (handle_event e s) rest) /\
  tcp_pending (set_arrivals (handle_event e s) rest) = tcp_pending (set_arrivals s (e :: rest)).
Proof.
  intros (Hq & Ho & He & Hc & Hp & Hl). cbn [set_arrivals quit socket_open arrivals on_request] in *.
  cbn [forallb] in He. apply andb_true_iff in He as [He Hr]. destruct e as [chunk| |]; [|done..].
  destruct (EnqueueAll_plain chunk (on_request s) Hc Hp) as (Hc' & Hp' & Hi).
  assert (Hpend : tcp_pending (set_arrivals (handle_event (Received chunk) s) rest)
    = tcp_pending (set_arrivals s (Received chunk :: rest))).
  { unfold tcp_pending. cbn [set_arrivals handle_event set_queue on_request arrivals].
    rewrite Hi. cbn [map concat event_bytes]. by rewrite app_assoc. }
  split; [|done]. unfold tcp_alive. rewrite Hpend. cbn [set_arrivals handle_event set_queue]. done.
Qed.

Lemma deliver_alive n evs s :
  tcp_alive (set_arrivals s evs) ->
  tcp_alive (deliver n evs s) /\ tcp_pending (deliver n evs s) = tcp_pending (set_arrivals s evs).
Proof.
  revert n s. induction evs as [|e evs IH]; intros [|n] s H; try done.
  cbn [deliver]. destruct (handle_event_alive e evs s H) as [H1 H2].
  destruct (IH n _ H1) as [H3 H4]. by rewrite H4.
Qed.

Lemma arrive_alive s : tcp_alive s -> tcp_alive (arrive s) /\ tcp_pending (arrive s) = tcp_pending s.
Proof.
  intros H. unfold arrive. destruct (ahead s) as [|n more]; [done|].
  apply deliver_alive. exact H.
Qed.

Lemma HasState_alive s :
  tcp_alive s -> HasState [on_request s] = negb (bool_decide (items (on_request s) = [])).
Proof.
  intros (_ & _ & _ & Hc & _ & Hl). cbn [HasState]. unfold IsEmpty. rewrite Hc.
  unfold tcp_pending in Hl. rewrite length_app in Hl.
  destruct (items (on_request s)) as [|c l]; [done|].
  replace (to_int32 (Z.of_nat (length (c :: l))) =? 0)%Z with false; [done|].
  symmetry. apply Z.eqb_neq. unfold to_int32. intros H.
  set (n := Z.of_nat (length (c :: l))) in *.
  assert (0 < n < 2 ^ 32)%Z by (subst n; simpl length in *; lia).
  destruct (decide (n < 2 ^ 31)%Z).
  - rewrite Z.mod_small in H by lia. lia.
  - replace (n + 2 ^ 31)%Z with (n - 2 ^ 31 + 1 * 2 ^ 32)%Z in H by lia.
    rewrite Z.mod_add, Z.mod_small in H by lia. lia.
Qed.

Lemma wait_alive evs s :
  tcp_alive (set_arrivals s evs) ->
  let '(q, s') := wait_loop evs s in
  match tcp_pending (set_arrivals s evs) with
  | [] => q = true
  | pend => q = false /\ tcp_alive s' /\ tcp_pending s' = pend /\ items (on_request s') <> []
  end.
Proof.
  revert s. induction evs as [|e evs IH]; intros s H.
  - pose proof (HasState_alive _ H) as Hs. pose proof H as (Hq & _). cbn [wait_loop].
    cbn [set_arrivals quit on_request] in *. rewrite Hq, Hs.
    unfold tcp_pending. cbn [set_arrivals on_request arrivals map concat]. rewrite app_nil_r.
    case_bool_decide as Hi; cbn [negb]; [by rewrite Hi|]. destruct (items (on_request s)) eqn:E; [done|].
    split; [done|]. split; [done|]. unfold tcp_pending. cbn. by rewrite E, app_nil_r.
  - pose proof (HasState_alive _ H) as Hs. pose proof H as (Hq & _). cbn [wait_loop].
    cbn [set_arrivals quit on_request] in *. rewrite Hq, Hs.
    case_bool_decide as Hi; cbn [negb].
    + destruct (handle_event_alive e evs s H) as [H1 H2]. specialize (IH _ H1).
      destruct (wait_loop evs (handle_event e s)) as [q s']. by rewrite <- H2.
    + destruct (tcp_pending (set_arrivals s (e :: evs))) eqn:E; [|done].
      unfold tcp_pending in E. cbn in E. by apply app_eq_nil in E as [E _].
Qed.

Lemma try_some_alive n s :
  tcp_alive s ->
  exists s', try_some n s = (take n (items (on_request s)), s') /\ tcp_alive s' /\
    tcp_pending s' = drop (min n (length (items (on_request s)))) (tcp_pending s).
Proof.
  intros (Hq & Ho & Hr & Hc & Hp & Hl). unfold try_some. rewrite TryDequeueSome_eq.
  eexists. split; [done|].
  assert (Hi : items (on_request s) = queue_ (on_request s)) by (unfold items; by rewrite Hp).
  assert (Hpend : tcp_pending (set_queue s (mkQueue (to_int32 (total_count_ (on_request s) -
      Z.of_nat (n `min` length (items (on_request s))))) (drop n (priority_ (on_request s)))
      (drop (n - length (priority_ (on_request s))) (queue_ (on_request s)))))
    = drop (min n (length (items (on_request s)))) (tcp_pending s)).
  { unfold tcp_pending. cbn [set_queue on_request arrivals]. unfold items at 1. cbn [priority_ queue_].
    rewrite Hp, drop_nil, Nat.sub_0_r, Hi. cbn [app]. rewrite drop_app_le by lia. f_equal.
    destruct (decide (n <= length (queue_ (on_request s)))).
    - by rewrite Nat.min_l.
    - rewrite Nat.min_r, !drop_ge by lia. done. }
  split; [|done]. unfold tcp_alive. rewrite Hpend.
  cbn [set_queue quit socket_open arrivals on_request priority_]. rewrite Hp, drop_nil.
  split_and!; try done; [|rewrite length_drop; lia].
  apply add_count_counted; [done|]. rewrite Hi. cbn [length]. rewrite Nat.sub_0_r.
  cbn [app]. rewrite length_drop. lia.
Qed.

Lemma TryDequeue_plain (q : ThreadedQueue byte) c l :
  counted q -> priority_ q = [] -> items q = c :: l ->
  exists q', TryDequeue false q = (Some c, q') /\ counted q' /\ priority_ q' = [] /\ items q' = l.
Proof.
  destruct q as [n p l']. unfold items. cbn [priority_ queue_]. intros Hc -> Hi. cbn [app] in Hi.
  subst l'. unfold TryDequeue, get_result, pop_front. cbn [queue_]. eexists. split; [done|].
  split; [|done].
  unfold counted, add_count, items in *. cbn [total_count_ priority_ queue_ app] in *. subst n.
  rewrite to_int32_add. f_equal. cbn [length]. lia.
Qed.

Lemma tcp_get_law s :
  tcp_alive s ->
  match tcp_pending s with
  | [] => (tcp_get s).1 = None
  | c :: rest => exists s', tcp_get s = (Some c, s') /\ tcp_alive s' /\ tcp_pending s' = rest
  end.
Proof.
  intros H. destruct (arrive_alive s H) as [H1 Hp1]. unfold tcp_get, Wait.
  assert (Hsame : set_arrivals (arrive s) (arrivals (arrive s)) = arrive s) by by destruct (arrive s).
  pose proof (wait_alive (arrivals (arrive s)) (arrive s)) as Hw. rewrite Hsame, Hp1 in Hw.
  specialize (Hw H1). destruct (wait_loop _ _) as [q s2]. destruct (tcp_pending s) as [|c rest].
  - by rewrite Hw.
  - destruct Hw as (-> & H2 & Hp2 & Hne).
    pose proof H2 as (Hq & Ho & Hr & Hc & Hpr & Hl).
    destruct (items (on_request s2)) as [|d l] eqn:Ei; [done|].
    destruct (TryDequeue_plain (on_request s2) d l Hc Hpr Ei) as (q' & Hd & Hc' & Hpr' & Hi').
    rewrite Hd. unfold tcp_pending in Hp2. rewrite Ei in Hp2. cbn [app] in Hp2.
    injection Hp2 as -> Hrest. eexists. split; [done|].
    assert (Hpend : tcp_pending (set_queue s2 q') = rest)
      by (unfold tcp_pending; cbn [set_queue on_request arrivals]; by rewrite Hi').
    split; [|done]. unfold tcp_alive. rewrite Hpend. cbn [set_queue]. split_and!; try done.
    unfold tcp_pending in Hl. rewrite Ei in Hl. rewrite <- Hrest. cbn in Hl. cbn. lia.
Qed.

Lemma get_n_law n s :
  tcp_alive s -> n <= length (tcp_pending s) ->
  exists s', get_n n s = (take n (tcp_pending s), s') /\ tcp_alive s' /\
    tcp_pending s' = drop n (tcp_pending s).
Proof.
  revert s. induction n as [|n IH]; intros s H Hn; [exists s; by rewrite drop_0|].
  cbn [get_n]. pose proof (tcp_get_law s H) as Hg. destruct (tcp_pending s) as [|c rest]; [cbn in Hn; lia|].
  destruct Hg as (s1 & -> & H1 & Hp1). destruct (IH s1 H1) as (s2 & -> & H2 & Hp2);
    [rewrite Hp1; cbn in Hn; lia|].
  exists s2. rewrite Hp2, Hp1. done.
Qed.

Lemma pending_queue s : exists r, tcp_pending s = items (on_request s) ++ r.
Proof. by eexists. Qed.

Lemma tcp_read_law n s :
  tcp_alive s -> n <= length (tcp_pending s) ->
  exists s', tcp_read n s = (take n (tcp_pending s), s') /\ tcp_alive s' /\
    tcp_pending s' = drop n (tcp_pending s).
Proof.
  intros H Hn. unfold tcp_read. destruct (arrive_alive s H) as [H1 Hp1].
  destruct (try_some_alive n (arrive s) H1) as (s2 & -> & H2 & Hp2).
  destruct (pending_queue (arrive s)) as [r Hr].
  set (q := items (on_request (arrive s))) in *. set (k := min n (length q)) in *.
  assert (Hk : length (take n q) = k) by (rewrite length_take; done). rewrite Hk.
  destruct (get_n_law (n - k) s2 H2) as (s3 & -> & H3 & Hp3).
  { rewrite Hp2, Hp1, length_drop. lia. }
  exists s3. rewrite Hp3, Hp2, Hp1, drop_drop. split; [|split; [done|f_equal; lia]]. f_equal.
  assert (Hq : take n q = take k (tcp_pending s)).
  { rewrite <- Hp1, Hr, take_app_le by lia. subst k. destruct (decide (n <= length q)).
    - by rewrite Nat.min_l.
    - rewrite Nat.min_r, !take_ge by lia. done. }
  rewrite Hq. rewrite <- (take_drop k (take n (tcp_pending s))).
  rewrite take_take, Nat.min_l, skipn_firstn_comm by lia. done.
Qed.

Lemma tcp_read_some_law n s :
  tcp_alive s -> 0 < n -> tcp_pending s <> [] ->
  exists k s', 0 < k <= n /\ tcp_read_some n s = (take k (tcp_pending s), s') /\
    take k (tcp_pending s) <> [] /\ tcp_alive s' /\ tcp_pending s' = drop k (tcp_pending s).
Proof.
  intros H Hn Hne. unfold tcp_read_some.
  replace (n =? 0) with false by (symmetry; apply Nat.eqb_neq; lia).
  destruct (arrive_alive s H) as [H1 Hp1].
  destruct (try_some_alive n (arrive s) H1) as (s2 & -> & H2 & Hp2).
  destruct (pending_queue (arrive s)) as [r Hr]. rewrite Hp1 in *.
  destruct (items (on_request (arrive s))) as [|c l] eqn:Ei.
  - rewrite take_nil. cbn [length] in Hp2. rewrite Nat.min_0_r, drop_0 in Hp2.
    pose proof (tcp_get_law s2 H2) as Hg. rewrite Hp2 in Hg.
    destruct (tcp_pending s) as [|d rest]; [done|]. destruct Hg as (s3 & -> & H3 & Hp3).
    destruct (arrive_alive s3 H3) as [H4 Hp4].
    destruct (try_some_alive (n - 1) (arrive s3) H4) as (s5 & -> & H5 & Hp5).
    destruct (pending_queue (arrive s3)) as [r' Hr']. rewrite Hp4, Hp3 in *.
    set (q := items (on_request (arrive s3))) in *.
    exists (S (min (n - 1) (length q))), s5. split; [lia|]. cbn [firstn skipn]. split; [|done].
    do 2 f_equal. rewrite Hr', take_app_le by lia.
    destruct (decide (n - 1 <= length q)); [by rewrite Nat.min_l|].
    rewrite Nat.min_r, !take_ge by lia. done.
  - destruct n as [|n]; [lia|]. cbn [firstn].
    exists (min (S n) (length (c :: l))), s2. split; [cbn; lia|].
    assert (Ht : take (min (S n) (length (c :: l))) (tcp_pending s) = c :: take n l).
    { rewrite Hr, take_app_le by lia. cbn [length Nat.min firstn]. f_equal.
      destruct (decide (n <= length l)); [by rewrite Nat.min_l|].
      rewrite Nat.min_r, !take_ge by lia. done. }
    by rewrite Ht.
Qed.

Lemma tcp_read_some_end n s : tcp_alive s -> tcp_pending s = [] -> (tcp_read_some n s).1 = [].
Proof.
  intros H Hp. unfold tcp_read_some. destruct (n =? 0); [done|].
  destruct (arrive_alive s H) as [H1 Hp1].
  destruct (try_some_alive n (arrive s) H1) as (s2 & -> & H2 & Hp2).
  rewrite Hp1, Hp in *. rewrite drop_nil in Hp2.
  destruct (pending_queue (arrive s)) as [r Hr]. rewrite Hp1 in Hr.
  symmetry in Hr. apply app_eq_nil in Hr as [-> _]. rewrite take_nil.
  pose proof (tcp_get_law s2 H2) as Hg. rewrite Hp2 in Hg.
  destruct (tcp_get s2) as [o s3]. cbn in Hg. by subst o.
Qed.

Lemma tcp_alive_flags s : tcp_alive s -> tcp_bad s = false.
Proof. intros (Hq & Ho & _). unfold tcp_bad. by rewrite Hq, Ho. Qed.

#[export] Instance tcp_StreamLaws : StreamLaws tcp_stream tcp_alive tcp_pending.
Proof.
  split; intros; cbn.
  - by rewrite tcp_alive_flags.
  - by apply tcp_get_law.
  - by apply tcp_read_law.
  - by apply tcp_read_some_law.
  - by apply tcp_read_some_end.
Qed.

(** A peer that sends its last message and closes at once: when the close is
    handled before the reader has taken the bytes, [quit] is set, the stream
    is bad and [get] reports the end of the input, although every byte was
    received. *)
Theorem bytes_before_close_lost (msg : bytes) :
  let s := mkTcp false new_queue [] true [Received msg; NetError (lit "End of file")] [2] in
  exists s', tcp_get s = (None, s') /\ tcp_bad s' = true /\ items (on_request s') = msg.
Proof.
  eexists. split; [by destruct msg|]. split; [done|]. cbn [on_request set_arrivals].
  destruct (EnqueueAll_plain msg new_queue new_counted eq_refl) as (_ & _ & H). exact H.
Qed.

(** ** [websocket_stream_wrapper]

    The same queue and wait, filled by the message callback; [bad()] is the
    flag alone, and [read_some] is the default of [istream]. *)
Record ws_stream := mkWs { ws_impl : tcp_stream }.

(** The message callback: a text is queued, an error or a close interrupts
    (an open or a ping is ignored). *)
Inductive ws_message := WsMessage (str : bytes) | WsError (str : bytes) | WsClose | WsOther.

Definition on_message (msg : ws_message) (s : ws_stream) : ws_stream :=
  mkWs match msg with
       | WsMessage str => set_queue (ws_impl s) (EnqueueAll str false (on_request (ws_impl s)))
       | WsError str => read_failed str (ws_impl s)
       | WsClose => tcp_interrupt (ws_impl s)
       | WsOther => ws_impl s
       end.

Definition ws_get (s : ws_stream) : option byte * ws_stream :=
  let '(c, s') := tcp_get (ws_impl s) in (c, mkWs s').
Definition ws_read (count : nat) (s : ws_stream) : bytes * ws_stream :=
  let '(b, s') := tcp_read count (ws_impl s) in (b, mkWs s').
Definition ws_bad (s : ws_stream) : bool := quit (ws_impl s).
Definition ws_interrupt (s : ws_stream) : ws_stream := mkWs (tcp_interrupt (ws_impl s)).

#[export] Instance ws_Istream : Istream ws_stream := {
  bad := ws_bad;
  fail := ws_bad;
  eof := ws_bad;
  what s := tcp_what (ws_impl s);
  need_to_clear_the_state _ := false;
  clear s := s;
  get := ws_get;
  read := ws_read;
  read_some := default_read_some ws_get
}.

Definition ws_alive (s : ws_stream) : Prop := tcp_alive (ws_impl s).
Definition ws_pending (s : ws_stream) : bytes := tcp_pending (ws_impl s).

Lemma ws_get_law s :
  ws_alive s ->
  match ws_pending s with
  | [] => (ws_get s).1 = None
  | c :: rest => exists s', ws_get s = (Some c, s') /\ ws_alive s' /\ ws_pending s' = rest
  end.
Proof.
  intros H. unfold ws_get, ws_pending. pose proof (tcp_get_law (ws_impl s) H) as Hg.
  destruct (tcp_pending (ws_impl s)).
  - by destruct (tcp_get (ws_impl s)).
  - destruct Hg as (s' & -> & ? & ?). by exists (mkWs s').
Qed.

#[export] Instance ws_StreamLaws : StreamLaws ws_stream ws_alive ws_pending.
Proof.
  split; cbn.
  - intros s (Hq & _). unfold ws_bad. by rewrite Hq.
  - apply ws_get_law.
  - intros n s H Hn. unfold ws_read. destruct (tcp_read_law n (ws_impl s) H Hn) as (s' & -> & ? & ?).
    by exists (mkWs s').
  - intros n s H Hn Hne. pose proof (ws_get_law s H) as Hg.
    destruct (ws_pending s) as [|c rest]; [done|]. destruct Hg as (s' & Hg & Ha & Hp).
    exists 1, s'. unfold default_read_some. destruct n; [lia|]. rewrite Hg. cbn. rewrite drop_0.
    split; [lia|done].
  - intros n s H Hp. pose proof (ws_get_law s H) as Hg. rewrite Hp in Hg.
    unfold default_read_some. destruct n; [done|]. destruct (ws_get s) as [o s']. cbn in Hg. by subst o.
Qed.

(** ** The wait and [interrupt()]

    [Wait] tests [quit] and the queue under the queue's mutex and then goes to
    sleep; [interrupt()] stores the flag and notifies without that mutex. *)
Inductive reader :=
| Testing                        (** holds the mutex, about to test [quit] and [HasState] *)
| Decided                        (** holds the mutex, both tests were negative *)
| Slept
| Returned (by_quit : bool).
Inductive interrupter := NotCalled | FlagStored | Notified.

Record wait_state := mkWait { w_quit : bool; w_empty : bool; w_reader : reader; w_intr : interrupter }.

(** A notification wakes a sleeping reader, which then tests again. *)
Definition woken (r : reader) : reader := match r with Slept => Testing | _ => r end.

Inductive wait_step : wait_state -> wait_state -> Prop :=
| TestQuit e i : wait_step (mkWait true e Testing i) (mkWait true e (Returned true) i)
| TestState i : wait_step (mkWait false false Testing i) (mkWait false false (Returned false) i)
| TestNegative i : wait_step (mkWait false true Testing i) (mkWait false true Decided i)
(** [cv.wait] releases the mutex and sleeps *)
| Sleep q e i : wait_step (mkWait q e Decided i) (mkWait q e Slept i)
(** [quit.store(true)] and [cv.notify_all()] of [interrupt()] *)
| Store e r : wait_step (mkWait false e r NotCalled) (mkWait true e r FlagStored)
| NotifyAll q e r : wait_step (mkWait q e r FlagStored) (mkWait q e (woken r) Notified)
(** [EnqueueAll], which needs the mutex, and its notification *)
| Arrival q e r i :
    r = Slept \/ (exists b, r = Returned b) ->
    wait_step (mkWait q e r i) (mkWait q false (woken r) i).

(** A wait that had tested before the flag was stored and goes to sleep after
    the notification stays asleep: only new data can wake it. *)
Theorem interrupt_wakeup_lost :
  exists s, rtc wait_step (mkWait false true Testing NotCalled) s /\
    w_quit s = true /\ w_reader s = Slept /\ w_intr s = Notified /\
    forall s', wait_step s s' -> w_empty s' = false.
Proof.
  exists (mkWait true true Slept Notified). split.
  - eapply rtc_l; [apply TestNegative|]. eapply rtc_l; [apply Store|].
    eapply rtc_l; [apply NotifyAll|]. eapply rtc_l; [apply Sleep|]. apply rtc_refl.
  - split_and!; try done. intros s' H. inversion H; subst; done.
Qed.

(** ** The outgoing side: [write], the strand and [write_queue_] *)

Record tcp_out := mkTcpOut {
  posted : list bytes;           (** chunks posted to the strand *)
  write_queue_ : list bytes;
  writing : bool;                (** an [async_write] of the front is outstanding *)
  sent : bytes;                  (** what the socket has taken *)
  write_failed : bool
}.

(** [do_write]: the handler is posted to the strand *)
Definition do_write (message : bytes) (s : tcp_out) : tcp_out :=
  mkTcpOut (posted s ++ [message]) (write_queue_ s) (writing s) (sent s) (write_failed s).

(** A call of [tcp_stream_wrapper::write(std::string const&)] that is under way:
    its argument, [off], and whether the loop goes on *)
Record write_call := mkCall { text : bytes; off : nat; looping : bool }.
Definition new_call (c : bytes) : write_call := mkCall c 0 true.

(** One round of its loop: the chunk for [do_write], if any *)
Definition tcp_write (call : write_call) : option bytes * write_call :=
  let 'mkCall c off _ := call in
  if negb (off <? length c) then (None, mkCall c off false)
  else if off + 1024 <? length c then (Some (take 1024 (drop off c)), mkCall c (off + 1024) true)
  else (Some (take (length c - off) (drop off c)), mkCall c off false).

(** [write(std::streamsize)]: the digits in one chunk *)
Definition tcp_write_number (n : Z) (s : tcp_out) : tcp_out := do_write (to_string n) s.

(** The handler that [do_write] posts *)
Definition run_posted (s : tcp_out) : option tcp_out :=
  match posted s with
  | [] => None
  | message :: rest =>
      let write_in_progress := match write_queue_ s with [] => false | _ => true end in
      Some (mkTcpOut rest (write_queue_ s ++ [message])
              (if write_in_progress then writing s else true) (sent s) (write_failed s))
  end.

(** The completion handler of [do_write_queued] *)
Definition write_done (s : tcp_out) : option tcp_out :=
  match writing s, write_queue_ s with
  | true, front :: rest =>
      Some (mkTcpOut (posted s) rest (match rest with [] => false | _ => true end)
              (sent s ++ front) (write_failed s))
  | _, _ => None
  end.

(** the same handler with an error after [n] bytes *)
Definition write_error (n : nat) (s : tcp_out) : option tcp_out :=
  match writing s, write_queue_ s with
  | true, front :: _ =>
      Some (mkTcpOut (posted s) (write_queue_ s) false (sent s ++ take n front) true)
  | _, _ => None
  end.

(** The calls of all the writing threads, in the order in which they began,
    the chunks in the order in which they were posted, each with the number of
    its call, and the connection *)
Record out_run := mkOutRun { calls : list write_call; chunks : list (nat * bytes); out : tcp_out }.
Definition start_out : out_run := mkOutRun [] [] (mkTcpOut [] [] false [] false).

(** The threads, the strand and the completions, step by step.  [one]: a call
    begins only when the earlier ones have returned, as under the endpoint's
    [send_mutex]. *)
Inductive out_step (one : bool) : out_run -> out_run -> Prop :=
| OutCall c cs l s :
    (one = true -> Forall (fun call => looping call = false) cs) ->
    out_step one (mkOutRun cs l s) (mkOutRun (cs ++ [new_call c]) l s)
| OutNumber n cs l s :
    (one = true -> Forall (fun call => looping call = false) cs) ->
    out_step one (mkOutRun cs l s)
      (mkOutRun (cs ++ [mkCall (to_string n) 0 false]) (l ++ [(length cs, to_string n)]) (tcp_write_number n s))
| OutChunk i call call' chunk cs l s :
    cs !! i = Some call -> looping call = true -> tcp_write call = (Some chunk, call') ->
    out_step one (mkOutRun cs l s) (mkOutRun (<[i := call']> cs) (l ++ [(i, chunk)]) (do_write chunk s))
| OutReturn i call call' cs l s :
    cs !! i = Some call -> looping call = true -> tcp_write call = (None, call') ->
    out_step one (mkOutRun cs l s) (mkOutRun (<[i := call']> cs) l s)
| OutPosted cs l s s' : run_posted s = Some s' -> out_step one (mkOutRun cs l s) (mkOutRun cs l s')
| OutDone cs l s s' : write_done s = Some s' -> out_step one (mkOutRun cs l s) (mkOutRun cs l s')
| OutError n cs l s s' : write_error n s = Some s' -> out_step one (mkOutRun cs l s) (mkOutRun cs l s').

(** The bytes of a call that were posted so far: all of them once it returned *)
Definition written (call : write_call) : bytes :=
  if looping call then take (off call) (text call) else text call.
(** The chunks of one call *)
Definition chunks_of (i : nat) (l : list (nat * bytes)) : list bytes :=
  map snd (filter (fun e => e.1 = i) l).

(** *** The connection *)

(** While no write has failed, what was sent and what is queued is what was
    posted; exactly one [async_write] is outstanding when the queue is not
    empty.  After a failure, what was sent is a prefix. *)
Definition out_ok (w : list bytes) (s : tcp_out) : Prop :=
  if write_failed s then writing s = false /\ write_queue_ s <> [] /\ sent s `prefix_of` concat w
  else sent s ++ concat (write_queue_ s) ++ concat (posted s) = concat w /\
       writing s = match write_queue_ s with [] => false | _ => true end.

Lemma out_ok_write w s m : out_ok w s -> out_ok (w ++ [m]) (do_write m s).
Proof.
  unfold out_ok. cbn. intros H. destruct (write_failed s).
  - destruct H as (? & ? & Hp). split_and!; try done. rewrite concat_app. by apply prefix_app_r.
  - destruct H as [H ?]. split; [|done]. rewrite !concat_app, <- H. cbn.
    by rewrite app_nil_r, <- !app_assoc.
Qed.

Lemma run_posted_ok w s s' : run_posted s = Some s' -> out_ok w s -> out_ok w s'.
Proof.
  intros Hr Hok. unfold run_posted in Hr. destruct (posted s) as [|m rest] eqn:Ep; [done|]. injection Hr as <-.
  unfold out_ok in *. cbn. rewrite Ep in Hok. destruct (write_failed s).
  - destruct Hok as (-> & Hq & ?). destruct (write_queue_ s); [done|]. by split_and!.
  - destruct Hok as [H1 H2]. rewrite <- H1, concat_app. cbn. rewrite app_nil_r, <- !app_assoc.
    split; [done|]. by destruct (write_queue_ s).
Qed.

Lemma write_done_ok w s s' : write_done s = Some s' -> out_ok w s -> out_ok w s'.
Proof.
  intros Hr Hok. unfold write_done in Hr.
  destruct (writing s) eqn:Ew, (write_queue_ s) as [|f rest] eqn:Eq; try done.
  injection Hr as <-. unfold out_ok in *. cbn. rewrite Ew, Eq in Hok. destruct (write_failed s).
  - by destruct Hok.
  - destruct Hok as [H1 H2]. rewrite <- H1. cbn. by rewrite <- !app_assoc.
Qed.

Lemma write_error_ok w n s s' : write_error n s = Some s' -> out_ok w s -> out_ok w s'.
Proof.
  intros Hr Hok. unfold write_error in Hr.
  destruct (writing s) eqn:Ew, (write_queue_ s) as [|f rest] eqn:Eq; try done.
  injection Hr as <-. unfold out_ok in *. cbn. rewrite Ew, Eq in Hok. destruct (write_failed s).
  - by destruct Hok.
  - destruct Hok as [H1 H2]. split_and!; try done. rewrite <- H1. cbn. rewrite <- !app_assoc.
    apply prefix_app. rewrite <- (take_drop n f) at 2. rewrite <- app_assoc. apply prefix_app_r. done.
Qed.

(** *** The calls *)

(** [off] stays inside the text while the loop goes on *)
Definition call_ok (call : write_call) : Prop := looping call = true -> off call <= length (text call).

Lemma tcp_write_chunk call chunk call' :
  call_ok call -> looping call = true -> tcp_write call = (Some chunk, call') ->
  text call' = text call /\ call_ok call' /\ written call' = written call ++ chunk.
Proof.
  destruct call as [c o []]; [|done]. unfold tcp_write, call_ok, written. cbn [text off looping]. intros Hok _.
  specialize (Hok eq_refl). destruct (Nat.ltb_spec o (length c)) as [Hlt|]; cbn [negb]; [|done].
  destruct (Nat.ltb_spec (o + 1024) (length c)); intros [= <- <-]; cbn [text off looping].
  - split; [done|]. split; [lia|]. symmetry. apply take_take_drop.
  - split; [done|]. split; [done|]. rewrite (take_ge (drop o c)) by (rewrite length_drop; lia). symmetry. apply take_drop.
Qed.

Lemma tcp_write_return call call' :
  call_ok call -> looping call = true -> tcp_write call = (None, call') ->
  text call' = text call /\ call_ok call' /\ looping call' = false /\ written call' = written call.
Proof.
  destruct call as [c o []]; [|done]. unfold tcp_write, call_ok, written. cbn [text off looping]. intros Hok _.
  destruct (Nat.ltb_spec o (length c)) as [Hlt|]; cbn [negb]; [by destruct (_ <? _)|].
  intros [= <-]. cbn [text off looping]. split_and!; try done. by rewrite take_ge.
Qed.

(** Each call has posted the part of its text up to [off], in order; when the
    calls do not overlap, call after call, and only the last may be under way. *)
Definition calls_ok (one : bool) (cs : list write_call) (l : list (nat * bytes)) : Prop :=
  Forall call_ok cs /\
  (forall i call, cs !! i = Some call -> concat (chunks_of i l) = written call) /\
  Forall (fun e => e.1 < length cs) l /\
  (one = true -> concat (map snd l) = concat (map written cs) /\
     forall i call, cs !! i = Some call -> looping call = true -> S i = length cs).

Lemma chunks_of_app i l j c : chunks_of i (l ++ [(j, c)]) = chunks_of i l ++ (if decide (j = i) then [c] else []).
Proof.
  unfold chunks_of. rewrite filter_app, map_app, filter_cons, filter_nil. cbn [fst]. by destruct (decide (j = i)).
Qed.

Lemma chunks_of_fresh l n : Forall (fun e => e.1 < n) l -> chunks_of n l = [].
Proof.
  intros H. unfold chunks_of. induction H as [|e l He _ IH]; [done|]. rewrite filter_cons, decide_False by lia. done.
Qed.

Lemma calls_ok_call one c cs l :
  calls_ok one cs l -> (one = true -> Forall (fun call => looping call = false) cs) ->
  calls_ok one (cs ++ [new_call c]) l.
Proof.
  intros (H1 & H2 & H3 & H4) Hone. split_and!.
  - apply Forall_app. split; [done|]. apply Forall_singleton. intros _. cbn. lia.
  - intros i call [Hi|[Hi Hc]]%lookup_app_Some; [by apply H2|].
    apply list_lookup_singleton_Some in Hc as [Hz <-]. replace i with (length cs) by lia. by rewrite chunks_of_fresh.
  - eapply Forall_impl; [exact H3|]. intros e. rewrite length_app. cbn. lia.
  - intros Ho. destruct (H4 Ho) as [H5 H6]. split; [by rewrite map_app, concat_app, <- H5, app_nil_r|].
    intros i call [Hi|[Hi Hc]]%lookup_app_Some Hl; rewrite length_app; cbn [length].
    + pose proof (proj1 (Forall_lookup _ _) (Hone Ho) i call Hi) as Hf. cbn in Hf. congruence.
    + apply list_lookup_singleton_Some in Hc as [Hz _]. lia.
Qed.

Lemma calls_ok_number one c cs l :
  calls_ok one cs l -> (one = true -> Forall (fun call => looping call = false) cs) ->
  calls_ok one (cs ++ [mkCall c 0 false]) (l ++ [(length cs, c)]).
Proof.
  intros (H1 & H2 & H3 & H4) Hone. split_and!.
  - apply Forall_app. split; [done|]. by apply Forall_singleton.
  - intros i call [Hi|[Hi Hc]]%lookup_app_Some; rewrite chunks_of_app.
    + apply lookup_lt_Some in Hi as Hlt. rewrite decide_False, app_nil_r by lia. by apply H2.
    + apply list_lookup_singleton_Some in Hc as [Hz <-]. replace i with (length cs) by lia.
      rewrite chunks_of_fresh, decide_True by done. apply app_nil_r.
  - apply Forall_app. split; [|by apply Forall_singleton; rewrite length_app; cbn; lia].
    eapply Forall_impl; [exact H3|]. intros e. rewrite length_app. cbn. lia.
  - intros Ho. destruct (H4 Ho) as [H5 H6]. split; [by rewrite !map_app, !concat_app, <- H5|].
    intros i call [Hi|[Hi Hc]]%lookup_app_Some Hl; rewrite length_app; cbn [length].
    + pose proof (proj1 (Forall_lookup _ _) (Hone Ho) i call Hi) as Hf. cbn in Hf. congruence.
    + apply list_lookup_singleton_Some in Hc as [Hz _]. lia.
Qed.

(** Replacing the last call *)
Lemma written_last cs i call call' d :
  cs !! i = Some call -> S i = length cs -> written call' = written call ++ d ->
  concat (map written (<[i := call']> cs)) = concat (map written cs) ++ d.
Proof.
  intros Hi Hl Hw. rewrite <- (take_drop_middle cs i call Hi) at 2.
  rewrite insert_take_drop by lia. rewrite (drop_ge cs (S i)) by lia.
  rewrite !map_app, !concat_app. cbn. by rewrite Hw, !app_nil_r, app_assoc.
Qed.

Lemma last_only {cs i call call'} :
  (forall j c, cs !! j = Some c -> looping c = true -> S j = length cs) ->
  cs !! i = Some call -> S i = length cs ->
  forall j c, <[i := call']> cs !! j = Some c -> looping c = true -> S j = length (<[i := call']> cs).
Proof.
  intros H Hi Hl j c Hj Hc. rewrite length_insert. destruct (decide (i = j)) as [->|Hne]; [done|].
  rewrite list_lookup_insert_ne in Hj by done. by eapply H.
Qed.

Lemma calls_ok_chunk one i call call' chunk cs l :
  calls_ok one cs l -> cs !! i = Some call -> looping call = true -> tcp_write call = (Some chunk, call') ->
  calls_ok one (<[i := call']> cs) (l ++ [(i, chunk)]).
Proof.
  intros (H1 & H2 & H3 & H4) Hi Hl Hw.
  pose proof (proj1 (Forall_lookup _ _) H1 i call Hi) as Hc.
  destruct (tcp_write_chunk _ _ _ Hc Hl Hw) as (Ht & Hc' & Hwr). apply lookup_lt_Some in Hi as Hlt.
  split_and!.
  - by apply Forall_insert.
  - intros j c Hj. rewrite chunks_of_app. destruct (decide (i = j)) as [->|Hne].
    + rewrite list_lookup_insert_eq in Hj by done. injection Hj as <-.
      rewrite concat_app, (H2 _ _ Hi), Hwr. cbn. by rewrite app_nil_r.
    + rewrite list_lookup_insert_ne in Hj by done. rewrite app_nil_r. by apply H2.
  - rewrite length_insert. apply Forall_app. split; [done|]. by apply Forall_singleton.
  - intros Ho. destruct (H4 Ho) as [H5 H6]. assert (Hlast : S i = length cs) by by eapply H6.
    split; [|by eapply last_only].
    rewrite (written_last cs i call call' chunk Hi Hlast Hwr), <- H5, map_app, concat_app. cbn. by rewrite app_nil_r.
Qed.

Lemma calls_ok_return one i call call' cs l :
  calls_ok one cs l -> cs !! i = Some call -> looping call = true -> tcp_write call = (None, call') ->
  calls_ok one (<[i := call']> cs) l.
Proof.
  intros (H1 & H2 & H3 & H4) Hi Hl Hw.
  pose proof (proj1 (Forall_lookup _ _) H1 i call Hi) as Hc.
  destruct (tcp_write_return _ _ Hc Hl Hw) as (Ht & Hc' & Hl' & Hwr). apply lookup_lt_Some in Hi as Hlt.
  split_and!.
  - by apply Forall_insert.
  - intros j c Hj. destruct (decide (i = j)) as [->|Hne].
    + rewrite list_lookup_insert_eq in Hj by done. injection Hj as <-. by rewrite (H2 _ _ Hi), Hwr.
    + rewrite list_lookup_insert_ne in Hj by done. by apply H2.
  - by rewrite length_insert.
  - intros Ho. destruct (H4 Ho) as [H5 H6]. assert (Hlast : S i = length cs) by by eapply H6.
    split; [|by eapply last_only].
    rewrite (written_last cs i call call' [] Hi Hlast) by by rewrite app_nil_r. by rewrite app_nil_r.
Qed.

Definition run_ok (one : bool) (r : out_run) : Prop :=
  calls_ok one (calls r) (chunks r) /\ out_ok (map snd (chunks r)) (out r).

Lemma out_step_ok one r r' : out_step one r r' -> run_ok one r -> run_ok one r'.
Proof.
  intros Hs [Hc Ho]. destruct Hs; cbn [calls chunks out] in *; (split; cbn [calls chunks out];
    [|try (rewrite map_app; by apply out_ok_write)]).
  all: eauto using calls_ok_call, calls_ok_number, calls_ok_chunk, calls_ok_return,
    run_posted_ok, write_done_ok, write_error_ok.
Qed.

Lemma out_reachable one r : rtc (out_step one) start_out r -> run_ok one r.
Proof.
  intros H. assert (H0 : run_ok one start_out).
  { split; [|done]. split_and!; cbn; try done. }
  induction H as [|x y z Hs _ IH]; [done|]. apply IH. by eapply out_step_ok.
Qed.

(** Finish what was posted and queued *)
Fixpoint drain (n : nat) (s : tcp_out) : tcp_out :=
  match n with
  | 0 => s
  | S n' => match run_posted s with
            | Some s' => drain n' s'
            | None => match write_done s with Some s' => drain n' s' | None => s end
            end
  end.

Lemma drain_sent w n s :
  out_ok w s -> write_failed s = false -> 2 * length (posted s) + length (write_queue_ s) <= n ->
  sent (drain n s) = concat w.
Proof.
  revert s. induction n as [|n IH]; intros s Hok Hf Hn.
  - unfold out_ok in Hok. rewrite Hf in Hok. destruct Hok as [<- _].
    destruct (posted s), (write_queue_ s); cbn in Hn; try lia. cbn. by rewrite app_nil_r.
  - cbn [drain]. destruct (run_posted s) as [s'|] eqn:Er.
    + apply IH; [by eapply run_posted_ok|..];
        unfold run_posted in Er; destruct (posted s); try done; injection Er as <-; cbn; [done|].
      cbn in Hn. rewrite length_app. cbn. lia.
    + unfold run_posted in Er. destruct (posted s) eqn:Ep; [|done].
      destruct (write_done s) as [s'|] eqn:Ed.
      * apply IH; [by eapply write_done_ok|..];
          unfold write_done in Ed; destruct (writing s), (write_queue_ s); try done;
          injection Ed as <-; cbn; [done|]. rewrite Ep. cbn in *. lia.
      * unfold out_ok in Hok. rewrite Hf, Ep in Hok. destruct Hok as [<- Hw].
        unfold write_done in Ed. rewrite Hw in Ed. destruct (write_queue_ s); [|done].
        cbn. by rewrite app_nil_r.
Qed.

(** C33. The socket gets the chunks in the order in which they were posted: in
    every interleaving of the writers, each of which posts its text in chunks
    of at most 1024 bytes, with the strand and the completions, the bytes sent
    are a prefix of the posted chunks, and unless a write fails, finishing the
    queued handlers sends all of them.  The chunks of one call make up its
    text, from the start and in order, all of it once the call has returned.
    When no call begins before the earlier ones have returned (an endpoint
    writes under its [send_mutex]), the texts are not mixed: what is posted is
    the texts one after the other. *)
Theorem tcp_output_in_order (one : bool) (r : out_run) :
  rtc (out_step one) start_out r ->
  let s := out r in
  sent s `prefix_of` concat (map snd (chunks r)) /\
  (write_failed s = false ->
     sent (drain (2 * length (posted s) + length (write_queue_ s)) s) = concat (map snd (chunks r))) /\
  (forall i call, calls r !! i = Some call ->
     concat (chunks_of i (chunks r)) = if looping call then take (off call) (text call) else text call) /\
  (one = true -> Forall (fun call => looping call = false) (calls r) ->
     concat (map snd (chunks r)) = concat (map text (calls r))).
Proof.
  intros H s. apply out_reachable in H as [(_ & Hi & _ & Hone) Ho]. split_and!.
  - unfold out_ok in Ho. destruct (write_failed s) eqn:Ef; fold s in Ho; rewrite Ef in Ho; [apply Ho|].
    destruct Ho as [<- _]. by apply prefix_app_r.
  - intros Hf. by apply drain_sent.
  - exact Hi.
  - intros H1 Hd. rewrite (proj1 (Hone H1)). f_equal. apply map_ext_in. intros call Hin%list_elem_of_In.
    unfold written. by rewrite (proj1 (Forall_forall _ _) Hd call Hin).
Qed.

Lemma tcp_output_in_order_witness :
  exists r, rtc (out_step true) start_out r /\ sent (out r) = lit "ab" /\
    concat (map snd (chunks r)) = lit "ab7" /\
    sent (drain (2 * length (posted (out r)) + length (write_queue_ (out r))) (out r)) = concat (map snd (chunks r)).
Proof.
  assert (H : rtc (out_step true) start_out
    (mkOutRun [mkCall (lit "ab") 0 false; mkCall (lit "7") 0 false] [(0, lit "ab"); (1, lit "7")]
       (mkTcpOut [lit "7"] [] false (lit "ab") false))).
  { eapply rtc_l; [by apply (OutCall _ (lit "ab"))|].
    eapply rtc_l; [by apply (OutChunk _ 0 (new_call (lit "ab")) (mkCall (lit "ab") 0 false) (lit "ab"))|].
    eapply rtc_l; [by apply OutPosted|].
    eapply rtc_l; [apply (OutNumber _ 7); intros _; by apply Forall_singleton|].
    eapply rtc_l; [by apply OutDone|]. apply rtc_refl. }
  pose proof (tcp_output_in_order _ _ H) as (_ & H2 & _ & H4).
  eexists. split; [exact H|]. split; [reflexivity|]. split; [|exact (H2 eq_refl)].
  apply (H4 eq_refl). by repeat constructor.
Defined.

(** Without such a lock two writers mix their chunks: the stream itself takes
    none, and a text of more than 1024 bytes can have another in its middle. *)
Theorem writers_interleave :
  let a := replicate 1024 Byte.x61 in
  exists r, rtc (out_step false) start_out r /\ map text (calls r) = [a ++ lit "z"; lit "b"] /\
    sent (out r) = a ++ lit "bz".
Proof.
  intros a. set (c := a ++ lit "z").
  set (s1 := do_write a (out start_out)). set (s2 := do_write (lit "b") s1). set (s3 := do_write (lit "z") s2).
  exists (mkOutRun [mkCall c 1024 false; mkCall (lit "b") 0 false] [(0, a); (1, lit "b"); (0, lit "z")] (drain 6 s3)).
  split; [|split; vm_compute; reflexivity].
  eapply rtc_l; [by apply (OutCall _ c)|].
  eapply rtc_l; [by apply (OutChunk _ 0 (new_call c) (mkCall c 1024 true) a)|].
  eapply rtc_l; [by apply (OutCall _ (lit "b"))|].
  eapply rtc_l; [by apply (OutChunk _ 1 (new_call (lit "b")) (mkCall (lit "b") 0 false) (lit "b"))|].
  eapply rtc_l; [by apply (OutChunk _ 0 (mkCall c 1024 true) (mkCall c 1024 false) (lit "z"))|].
  do 3 (eapply rtc_l; [by apply OutPosted|]). do 3 (eapply rtc_l; [by apply OutDone|]).
  replace (drain 6 s3) with (mkTcpOut [] [] false (a ++ lit "bz") false) by (vm_compute; reflexivity).
  apply rtc_refl.
Qed.

(** ** The server

    The accept loop and the calls into the endpoint.  A connection is named by
    its number.  The completion handler of the accept runs on the thread that
    called [run], [stop] on another; neither takes a lock, so that each is a
    sequence of steps, and the steps interleave. *)

(** Where the accept handler is, with the connection it has in hand *)
Inductive accept_phase :=
| Checked (n : nat)              (** past the test of [is_open()] and [ec] *)
| Disconnected (n : nat)         (** past the interruption of the previous session *)
| Vacated (n : nat)              (** past [point.stop()] *)
| Adopted (n : nat)              (** [_connect_session] is the new one *)
| Started (n : nat).             (** past [startProcessingMessages] *)

(** and [stop] *)
Inductive stop_phase := AcceptorClosed | SessionClosed.

Record TcpServer := mkServer {
  acceptor_open : bool;
  accepting : bool;              (** an [async_accept] is outstanding *)
  session : option nat;          (** [_connect_session] *)
  open_sockets : list nat;       (** sessions whose socket is open *)
  interrupted : list nat;        (** sessions whose stream was interrupted *)
  reading : list nat;            (** sessions with an outstanding [async_read_some] *)
  processing : option nat;       (** the session the endpoint reads from *)
  handler : option accept_phase; (** the accept handler, while it runs *)
  stopper : option stop_phase;   (** [stop], while it runs *)
  arrived : nat                  (** connections that asio has delivered *)
}.

(** The constructor after a successful [bind] and [listen] *)
Definition new_server : TcpServer := mkServer true true None [] [] [] None None None 0.

Definition set_handler (h : option accept_phase) (s : TcpServer) : TcpServer :=
  mkServer (acceptor_open s) (accepting s) (session s) (open_sockets s) (interrupted s) (reading s)
    (processing s) h (stopper s) (arrived s).
Definition set_stopper (p : option stop_phase) (s : TcpServer) : TcpServer :=
  mkServer (acceptor_open s) (accepting s) (session s) (open_sockets s) (interrupted s) (reading s)
    (processing s) (handler s) p (arrived s).
Definition set_processing (p : option nat) (s : TcpServer) : TcpServer :=
  mkServer (acceptor_open s) (accepting s) (session s) (open_sockets s) (interrupted s) (reading s)
    p (handler s) (stopper s) (arrived s).

(** asio delivers the completion of the accept, with a connection if [ok] *)
Definition accept_completed (ok : bool) (s : TcpServer) : TcpServer :=
  mkServer (acceptor_open s) false (session s) (open_sockets s) (interrupted s) (reading s)
    (processing s) (handler s) (stopper s) (if ok then S (arrived s) else arrived s).

(** [proxy_->interrupt()] and [socket_.close()] *)
Definition disconnect (m : nat) (s : TcpServer) : TcpServer :=
  mkServer (acceptor_open s) (accepting s) (session s) (filter (fun k => k <> m) (open_sockets s))
    (m :: interrupted s) (reading s) (processing s) (handler s) (stopper s) (arrived s).

(** The handler of [do_accept]: the two tests; [ok] is [!ec].  A handler that
    returns here drops the connection it was given. *)
Definition check_accept (ok : bool) (n : nat) (s : TcpServer) : TcpServer :=
  if negb (acceptor_open s) then s
  else if ok then set_handler (Some (Checked n)) s else s.

(** the steps that follow, up to [do_accept()], which starts the next accept *)
Definition on_accept (h : accept_phase) (s : TcpServer) : TcpServer :=
  match h with
  | Checked n =>
      let s := set_handler (Some (Disconnected n)) s in
      match session s with
      | Some m => if bool_decide (m ∈ open_sockets s) then disconnect m s else s
      | None => s
      end
  | Disconnected n =>
      let s := set_handler (Some (Vacated n)) s in
      match session s with Some _ => set_processing None s | None => s end
  | Vacated n =>
      mkServer (acceptor_open s) (accepting s) (Some n) (n :: open_sockets s) (interrupted s) (reading s)
        (processing s) (Some (Adopted n)) (stopper s) (arrived s)
  | Adopted n => set_handler (Some (Started n)) (set_processing (Some n) s)
  | Started n =>
      mkServer (acceptor_open s) true (session s) (open_sockets s) (interrupted s) (n :: reading s)
        (processing s) None (stopper s) (arrived s)
  end.

(** [TcpServer::do_stop]: the acceptor, *)
Definition close_acceptor (s : TcpServer) : TcpServer :=
  mkServer false (accepting s) (session s) (open_sockets s) (interrupted s) (reading s)
    (processing s) (handler s) (Some AcceptorClosed) (arrived s).
(** the session and the endpoint *)
Definition do_stop (p : stop_phase) (s : TcpServer) : TcpServer :=
  match p with
  | AcceptorClosed =>
      let s := set_stopper (Some SessionClosed) s in
      match session s with Some m => disconnect m s | None => s end
  | SessionClosed => set_processing None (set_stopper None s)
  end.

(** The read of a connection fails: the peer closed it, or the socket was
    closed.  The stream is interrupted; the socket is left as it is. *)
Definition peer_lost (n : nat) (s : TcpServer) : TcpServer :=
  mkServer (acceptor_open s) (accepting s) (session s) (open_sockets s) (n :: interrupted s)
    (filter (fun k => k <> n) (reading s)) (processing s) (handler s) (stopper s) (arrived s).

Inductive server_step : TcpServer -> TcpServer -> Prop :=
| Accept ok s :
    accepting s = true -> handler s = None ->
    server_step s (check_accept ok (arrived s) (accept_completed ok s))
| Handle h s : handler s = Some h -> server_step s (on_accept h s)
| PeerLost n s : handler s = None -> n ∈ reading s -> server_step s (peer_lost n s)
| StopBegin s : stopper s = None -> server_step s (close_acceptor s)
| StopNext p s : stopper s = Some p -> server_step s (do_stop p s).

(** The connection before the [n]-th *)
Definition before (n : nat) : option nat := match n with 0 => None | S m => Some m end.

(** Until [stop] is called, the session is open and read, unless its peer was lost *)
Definition session_live (s : TcpServer) : Prop :=
  acceptor_open s = true ->
  open_sockets s = option_list (session s) /\ processing s = session s /\
  forall n, session s = Some n -> n ∈ reading s \/ n ∈ interrupted s.

(** What holds between the steps of the handler: until its adoption a
    connection follows the session, which is the one before it *)
Definition phase_ok (s : TcpServer) : Prop :=
  match handler s with
  | None => session_live s /\ (acceptor_open s = true -> session s = before (arrived s))
  | Some (Checked n) => arrived s = S n /\ session s = before n
  | Some (Disconnected n) => arrived s = S n /\ session s = before n /\ open_sockets s = []
  | Some (Vacated n) => arrived s = S n /\ session s = before n /\ open_sockets s = [] /\ processing s = None
  | Some (Adopted n) =>
      arrived s = S n /\ session s = Some n /\ processing s = None /\
      (acceptor_open s = true -> open_sockets s = [n])
  | Some (Started n) =>
      arrived s = S n /\ session s = Some n /\
      (acceptor_open s = true -> open_sockets s = [n] /\ processing s = Some n)
  end.

Record server_ok (s : TcpServer) : Prop := {
  one_socket : open_sockets s = [] \/ exists m, session s = Some m /\ open_sockets s = [m];
  processed : processing s = None \/ processing s = session s;
  phase : phase_ok s;
  closed_interrupted : forall m, session s = Some m -> open_sockets s = [] -> m ∈ interrupted s;
  older_interrupted : forall m k, session s = Some k -> m < k -> m ∈ interrupted s
}.

(** Closing the session's socket leaves none open. *)
Lemma disconnect_closes (s : TcpServer) m :
  server_ok s -> session s = Some m -> open_sockets (disconnect m s) = [].
Proof.
  intros [[H|(k & Hk & H)] _ _ _ _] Hm; cbn; rewrite H; [done|].
  assert (k = m) as -> by congruence. rewrite filter_cons, decide_False by auto. done.
Qed.

Lemma accept_ok ok s :
  handler s = None -> server_ok s -> server_ok (check_accept ok (arrived s) (accept_completed ok s)).
Proof.
  intros Hh [H1 H2 H3 H4 H5]. unfold phase_ok in H3. rewrite Hh in H3. destruct H3 as [Hl Hs].
  unfold check_accept. cbn [accept_completed acceptor_open].
  destruct (acceptor_open s) eqn:Ea, ok; cbn [negb];
    (split; [done|done| |done|done]); unfold phase_ok; cbn; rewrite ?Hh.
  - by auto.
  - split; [exact Hl|]. by intros; apply Hs.
  - split; intros H; cbn in H; congruence.
  - split; intros H; cbn in H; congruence.
Qed.

Lemma on_accept_ok h s : handler s = Some h -> server_ok s -> server_ok (on_accept h s).
Proof.
  intros Hh Hok. pose proof Hok as [H1 H2 H3 H4 H5]. unfold phase_ok in H3. rewrite Hh in H3.
  destruct h as [n|n|n|n|n]; cbn [on_accept].
  - destruct H3 as [Ha Hs]. cbn [set_handler session open_sockets].
    destruct (session s) as [m|] eqn:Em.
    + case_bool_decide as Hin.
      * pose proof (disconnect_closes s m Hok Em) as Hd. cbn in Hd.
        split; cbn; rewrite ?Em; [by left|done|unfold phase_ok; cbn; by rewrite ?Em|set_solver|].
        intros i k Hk Hi. right. by eapply H5.
      * assert (Ho : open_sockets s = []).
        { destruct H1 as [|(k & Hk & Ho)]; [done|]. rewrite Ho in Hin. set_solver. }
        split; cbn; rewrite ?Em; [by left|done|unfold phase_ok; cbn; by rewrite ?Em|done|done].
    + destruct H1 as [Ho|(k & Hk & _)]; [|congruence].
      split; cbn; rewrite ?Em; [by left|done|unfold phase_ok; cbn; by rewrite ?Em|done|done].
  - destruct H3 as (Ha & Hs & Ho). cbn [set_handler session].
    destruct (session s) as [m|] eqn:Em;
      (split; cbn; rewrite ?Em; [by left| |unfold phase_ok; cbn; rewrite ?Em|done|done]); auto.
    + split_and!; try done. destruct H2; congruence.
  - destruct H3 as (Ha & Hs & Ho & Hp).
    split; cbn; [right; exists n; by rewrite Ho|by left| |done|].
    + unfold phase_ok. cbn. by rewrite Ho.
    + intros m k [= <-] Hm. destruct n as [|n]; [lia|]. cbn in Hs.
      destruct (decide (m = n)) as [->|]; [by apply H4|]. apply (H5 m n); [done|lia].
  - destruct H3 as (Ha & Hs & Hp & Ho). split; cbn; [done|by right| |done|done].
    unfold phase_ok. cbn. split_and!; [done..|]. intros Hopen. split; [by apply Ho|done].
  - destruct H3 as (Ha & Hs & Hp). split; cbn; [done|done| |done|done].
    unfold phase_ok, session_live. cbn. rewrite Hs, Ha. cbn. split; [|done]. intros Ho. destruct (Hp Ho) as [-> ->].
    split_and!; [done..|]. intros m [= <-]. left. left.
Qed.

Lemma peer_lost_ok n s : handler s = None -> server_ok s -> server_ok (peer_lost n s).
Proof.
  intros Hh [H1 H2 H3 H4 H5]. unfold phase_ok in H3. rewrite Hh in H3. destruct H3 as [Hl Hs].
  split; cbn; [done|done| |by intros; right; apply H4|by intros; right; eapply H5].
  unfold phase_ok. cbn. rewrite Hh. split; [|exact Hs]. intros Ha. destruct (Hl Ha) as (Ho & Hp & Hr).
  cbn. split_and!; [done..|]. intros m Hm. destruct (Hr m Hm) as [Hin|Hin]; [|right; by right].
  destruct (decide (m = n)) as [->|]; [right; left|]. left. by apply list_elem_of_filter.
Qed.

(** What [stop] changes while a handler is under way *)
Lemma stop_phase_ok s s' :
  phase_ok s -> acceptor_open s' = false -> handler s' = handler s -> session s' = session s ->
  arrived s' = arrived s -> (open_sockets s = [] -> open_sockets s' = []) ->
  (processing s = None -> processing s' = None) -> phase_ok s'.
Proof.
  intros H Ha Hh Hs Hn Ho Hp. unfold phase_ok, session_live in *. rewrite Ha, Hh, Hs, Hn in *.
  destruct (handler s) as [[]|]; naive_solver.
Qed.

Lemma stop_ok p s :
  acceptor_open s = false -> server_ok s -> server_ok (do_stop p s).
Proof.
  intros Ha Hok. pose proof Hok as [H1 H2 H3 H4 H5]. destruct p; cbn [do_stop set_stopper session].
  - destruct (session s) as [m|] eqn:Em.
    + pose proof (disconnect_closes s m Hok Em) as Hd. cbn in Hd.
      split; cbn; [by left|by rewrite Em| |by set_solver|by intros; right; eapply H5; eauto; congruence].
      eapply (stop_phase_ok s); cbn; auto.
    + split; cbn; rewrite ?Em; try done.
  - split; cbn; [done|by left| |done|done]. eapply (stop_phase_ok s); cbn; auto.
Qed.

(** [stop] begins by closing the acceptor, which never opens again. *)
Lemma acceptor_kept s s' :
  server_step s s' -> (acceptor_open s = true -> stopper s = None) ->
  (acceptor_open s' = true -> stopper s' = None) /\ (acceptor_open s = false -> acceptor_open s' = false).
Proof.
  intros Hs H. destruct Hs as [ok s ? ?|h s Hh|n s ? ?|s ?|p s Hp].
  - unfold check_accept. cbn. by destruct (acceptor_open s) eqn:E, ok; cbn; rewrite ?E.
  - destruct h; cbn; destruct (session s); try case_bool_decide; done.
  - done.
  - done.
  - assert (Ha : acceptor_open s = false) by (destruct (acceptor_open s); [by rewrite H in Hp|done]).
    destruct p; cbn; destruct (session s); cbn; by rewrite Ha.
Qed.

Lemma server_step_ok s s' :
  server_step s s' -> server_ok s /\ (acceptor_open s = true -> stopper s = None) ->
  server_ok s' /\ (acceptor_open s' = true -> stopper s' = None).
Proof.
  intros Hs [Hok Hst]. split; [|by apply (acceptor_kept s s' Hs Hst)].
  destruct Hs as [ok s ? Hh|h s Hh|n s Hh ?|s ?|p s Hp].
  - by apply accept_ok.
  - by apply on_accept_ok.
  - by apply peer_lost_ok.
  - destruct Hok. split; cbn; try done. by eapply stop_phase_ok.
  - apply stop_ok; [|done]. destruct (acceptor_open s); [|done]. by rewrite Hst in Hp.
Qed.

Lemma server_reachable s :
  rtc server_step new_server s -> server_ok s /\ (acceptor_open s = true -> stopper s = None).
Proof.
  intros Hr. assert (H0 : server_ok new_server /\ (acceptor_open new_server = true -> stopper new_server = None)).
  { split; [|done]. split; cbn; [by left|by left| |done|done]. unfold phase_ok, session_live. cbn. done. }
  induction Hr as [|x y z Hxy _ IH]; [done|]. apply IH. by eapply server_step_ok.
Qed.

(** After a [stop] that no accept handler overlaps *)
Definition stopped (s : TcpServer) : Prop :=
  acceptor_open s = false /\ handler s = None /\
  match stopper s with
  | None => open_sockets s = [] /\ processing s = None
  | Some AcceptorClosed => True
  | Some SessionClosed => open_sockets s = []
  end.

Lemma stopped_step s s' : server_step s s' -> server_ok s -> stopped s -> stopped s'.
Proof.
  intros Hs Hok (Ha & Hh & Hst). destruct Hs as [ok s ? ?|h s Hh'|n s ? ?|s ?|p s Hp].
  - unfold check_accept. cbn. rewrite Ha. done.
  - congruence.
  - by split_and!.
  - by split_and!.
  - rewrite Hp in Hst. destruct p; cbn.
    + destruct (session s) as [m|] eqn:Em.
      * pose proof (disconnect_closes s m Hok Em). by split_and!.
      * destruct Hok as [[Ho|(? & ? & _)] _ _ _ _]; [by split_and!|congruence].
    + by split_and!.
Qed.

Lemma stopped_forever s s' :
  rtc server_step s s' -> server_ok s /\ (acceptor_open s = true -> stopper s = None) -> stopped s -> stopped s'.
Proof.
  induction 1 as [|x y z Hxy _ IH]; intros Hok Hst; [done|].
  apply IH; [by eapply server_step_ok|by eapply stopped_step; [|apply Hok|]].
Qed.

(** C34. Until [stop] is called, and while no accept handler is running, the
    server's session is the newest connection that arrived: its socket is the
    only one open, the endpoint processes it, it is being read unless it was
    interrupted, and every older one has been interrupted.  At any moment, in
    every interleaving of the accept handler, [stop] and the failing reads, at
    most the session's socket is open and the endpoint processes nothing else.
    After a [stop] that no accept handler overlaps, nothing is open or
    processed, whatever arrives. *)
Theorem server_one_session (s : TcpServer) :
  rtc server_step new_server s ->
  (acceptor_open s = true -> handler s = None ->
     session s = before (arrived s) /\ processing s = session s /\ open_sockets s = option_list (session s) /\
     forall n, n < arrived s -> n ∈ interrupted s \/ (S n = arrived s /\ n ∈ reading s)) /\
  (forall n, n ∈ open_sockets s \/ processing s = Some n -> session s = Some n) /\
  length (open_sockets s) <= 1 /\
  (forall s', stopper s = None -> handler s = None -> rtc server_step (close_acceptor s) s' -> stopper s' = None ->
     open_sockets s' = [] /\ processing s' = None /\ handler s' = None).
Proof.
  intros Hr. pose proof (server_reachable s Hr) as [Hok Hst]. pose proof Hok as [H1 H2 H3 H4 H5]. split_and!.
  - intros Ha Hh. unfold phase_ok in H3. rewrite Hh in H3. destruct H3 as [Hl Hs].
    destruct (Hl Ha) as (Ho & Hp & Hrd). specialize (Hs Ha). split_and!; [done..|].
    intros n Hn. destruct (arrived s) as [|k]; [lia|]. cbn in Hs. destruct (decide (n = k)) as [->|Hne].
    + destruct (Hrd k Hs); auto.
    + left. apply (H5 n k); [done|lia].
  - intros n [Hn|Hn]; [|destruct H2; congruence]. destruct H1 as [Ho|(m & Hm & Ho)]; rewrite Ho in Hn; set_solver.
  - destruct H1 as [->|(m & _ & ->)]; cbn; lia.
  - intros s' Hns Hh Hr' Hs'.
    destruct (stopped_forever _ _ Hr') as (_ & ? & Hst'); [|done|].
    + eapply server_step_ok; [by apply StopBegin|done].
    + rewrite Hs' in Hst'. by destruct Hst'.
Qed.

(** The whole handler, and the whole of [stop] *)
Definition accept_whole (s : TcpServer) : TcpServer :=
  let n := arrived s in
  on_accept (Started n) (on_accept (Adopted n) (on_accept (Vacated n) (on_accept (Disconnected n)
    (on_accept (Checked n) (check_accept true n (accept_completed true s)))))).
Definition stop_whole (s : TcpServer) : TcpServer :=
  do_stop SessionClosed (do_stop AcceptorClosed (close_acceptor s)).

Lemma on_accept_next h s :
  handler (on_accept h s) =
  match h with
  | Checked n => Some (Disconnected n)
  | Disconnected n => Some (Vacated n)
  | Vacated n => Some (Adopted n)
  | Adopted n => Some (Started n)
  | Started n => None
  end.
Proof. destruct h; cbn; try done; destruct (session s); try case_bool_decide; done. Qed.

Lemma accept_whole_steps s :
  acceptor_open s = true -> accepting s = true -> handler s = None -> rtc server_step s (accept_whole s).
Proof.
  intros Ha Hacc Hh. unfold accept_whole. eapply rtc_l; [by apply (Accept true)|].
  unfold check_accept. cbn [accept_completed acceptor_open]. rewrite Ha. cbn [negb].
  do 5 (eapply rtc_l; [apply Handle; by rewrite ?on_accept_next|]). apply rtc_refl.
Qed.

Lemma stop_whole_steps s : stopper s = None -> rtc server_step s (stop_whole s).
Proof.
  intros Hs. eapply rtc_l; [by apply StopBegin|]. eapply rtc_l; [by apply (StopNext AcceptorClosed)|].
  eapply rtc_l; [apply (StopNext SessionClosed); cbn; by destruct (session s)|]. apply rtc_refl.
Qed.

Lemma server_one_session_witness :
  exists s, rtc server_step new_server s /\ arrived s = 2 /\ processing s = Some 1 /\ 0 ∈ interrupted s /\
    open_sockets (stop_whole s) = [].
Proof.
  set (s := accept_whole (accept_whole new_server)).
  assert (H : rtc server_step new_server s).
  { etransitivity; by apply accept_whole_steps. }
  destruct (server_one_session s H) as (H1 & _ & _ & H4). destruct (H1 eq_refl eq_refl) as (_ & Hp & _ & Hi).
  exists s. split; [exact H|]. split; [reflexivity|]. split; [rewrite Hp; reflexivity|]. split.
  - destruct (Hi 0) as [|[? _]]; [apply Nat.ltb_lt; reflexivity|done|done].
  - apply (H4 (stop_whole s) eq_refl eq_refl); [|reflexivity].
    eapply rtc_l; [by apply (StopNext AcceptorClosed)|]. eapply rtc_l; [by apply (StopNext SessionClosed)|]. apply rtc_refl.
Defined.

(** A handler that has passed the test of [is_open()] goes on while another
    thread runs all of [stop]: the connection is adopted and processed by a
    server that was stopped, and its socket stays open. *)
Theorem accept_outlives_stop :
  exists s, rtc server_step new_server s /\ acceptor_open s = false /\ handler s = None /\ stopper s = None /\
    processing s = Some 0 /\ open_sockets s = [0] /\ 0 ∉ interrupted s.
Proof.
  set (s0 := check_accept true 0 (accept_completed true new_server)).
  exists (on_accept (Started 0) (on_accept (Adopted 0) (on_accept (Vacated 0) (on_accept (Disconnected 0)
           (on_accept (Checked 0) (stop_whole s0)))))).
  split; [|split_and!; try done; cbn; set_solver].
  eapply rtc_l; [by apply (Accept true)|]. etransitivity; [by apply (stop_whole_steps s0)|].
  do 5 (eapply rtc_l; [by apply Handle|]). apply rtc_refl.
Qed.

Lemma never_accepts s0 s :
  rtc server_step s0 s -> accepting s0 = false /\ handler s0 = None /\ arrived s0 = 0 ->
  accepting s = false /\ handler s = None /\ arrived s = 0.
Proof.
  induction 1 as [|x y z Hxy _ IH]; [done|]. intros (Ha & Hh & Hn). apply IH.
  destruct Hxy as [ok s ? ?|h s Hh'|n s ? ?|s ?|p s Hp]; [congruence|congruence|done|done|].
  destruct p; cbn; by destruct (session s).
Qed.

(** The accept completes with an error *)
Definition accept_fails (s : TcpServer) : TcpServer := check_accept false (arrived s) (accept_completed false s).

(** One failed accept ends the accept loop: the server stays open, but no
    connection is ever accepted again. *)
Theorem accept_error_ends_accepting (s : TcpServer) :
  rtc server_step (accept_fails new_server) s -> accepting s = false /\ arrived s = 0.
Proof. intros Hr. by destruct (never_accepts _ _ Hr) as (? & _ & ?). Qed.

Lemma accept_error_ends_accepting_witness :
  acceptor_open (accept_fails new_server) = true /\ arrived (accept_fails new_server) = 0.
Proof. split; [reflexivity|]. apply accept_error_ends_accepting. apply rtc_refl. Defined.

(** *** The constructor, [run] and [stop] *)

(** The constructor: when [bind] fails it returns before [listen] and
    [do_accept]; the failure is logged only. *)
Definition construct (bind_ok : bool) : TcpServer :=
  if negb bind_ok then mkServer true false None [] [] [] None None None 0 else new_server.

(** [io_context::run] goes on while the work guard is held, a handler runs, or
    an operation is outstanding: the accept, or a read. *)
Definition run_goes_on (work : bool) (s : TcpServer) : bool :=
  work || accepting s || negb (bool_decide (handler s = None)) || negb (bool_decide (reading s = [])).

(** [stop]: the work guard and the server *)
Definition TcpServer_stop (work : bool) (s : TcpServer) : bool * TcpServer := (false, stop_whole s).

(** The completions that closing the acceptor and the sockets brings about *)
Definition cancelled (s : TcpServer) : TcpServer :=
  foldl (fun s n => peer_lost n s) (accept_fails s) (reading s).

Lemma lost_all l s :
  handler s = None -> accepting s = false ->
  let s' := foldl (fun s n => peer_lost n s) s l in
  handler s' = None /\ accepting s' = false /\ forall n, n ∈ reading s' -> n ∈ reading s /\ n ∉ l.
Proof.
  revert s. induction l as [|m l IH]; intros s Hh Ha; cbn [foldl]; [set_solver|].
  destruct (IH (peer_lost m s)) as (H1 & H2 & H3); [done|done|]. split_and!; [done..|].
  intros n Hn. destruct (H3 n Hn) as [Hr Hl]. cbn in Hr. apply list_elem_of_filter in Hr as [? ?]. set_solver.
Qed.

(** [run] returns after a [stop] that no accept handler overlaps, once the
    accept and the reads, which it cancelled, have completed. *)
Theorem stop_ends_run (work : bool) (s : TcpServer) :
  rtc server_step new_server s -> handler s = None ->
  let '(work, s) := TcpServer_stop work s in
  run_goes_on work (cancelled s) = false.
Proof.
  intros _ Hh. cbn [TcpServer_stop]. unfold cancelled, run_goes_on.
  assert (Hh' : handler (stop_whole s) = None) by (unfold stop_whole; cbn; by destruct (session s)).
  destruct (lost_all (reading (stop_whole s)) (accept_fails (stop_whole s))) as (H1 & -> & H3).
  - unfold accept_fails, check_accept. by destruct (negb _).
  - unfold accept_fails, check_accept. by destruct (negb _).
  - rewrite (bool_decide_eq_true_2 _ H1). cbn [orb negb]. rewrite bool_decide_eq_true_2; [done|].
    apply elem_of_nil_inv. intros n [Hn1 Hn2]%H3. apply Hn2. revert Hn1.
    unfold accept_fails, check_accept. by destruct (negb _).
Qed.

Lemma stop_ends_run_witness :
  run_goes_on true (accept_whole new_server) = true /\
  run_goes_on false (cancelled (stop_whole (accept_whole new_server))) = false.
Proof.
  split; [reflexivity|]. apply (stop_ends_run true (accept_whole new_server)); [|done].
  by apply accept_whole_steps.
Defined.

(** A server whose [bind] failed accepts no connection, and yet its [run]
    blocks on the work guard. *)
Theorem bind_failure_blocks (s : TcpServer) :
  rtc server_step (construct false) s -> arrived s = 0 /\ run_goes_on true s = true.
Proof.
  intros Hr. split; [|done]. by destruct (never_accepts _ _ Hr) as (_ & _ & ?).
Qed.

Lemma bind_failure_blocks_witness :
  arrived (construct false) = 0 /\ run_goes_on true (construct false) = true.
Proof. apply bind_failure_blocks. apply rtc_refl. Defined.
