(* ===== verification/WebSocketServer.v ===== *)
(** * The WebSocket server

    The outgoing side of [websocket_stream_wrapper] and [WebSocketServer]
    (src/jsonrpc/WebSocketServer.cpp); the incoming side is in TcpServer.
    ixwebsocket appears through its calls: [send] gives the peer one message,
    and the connection callback runs on a thread of its own for every
    connection, so that two callbacks interleave at the mutex that only the
    first half of the callback holds. *)
From S2P Require Import Prelude CppString Stream ThreadedQueue TcpServer.
From stdpp Require Import relations.

(** ** [websocket_stream_wrapper] as an output stream *)

(** The messages handed to [ix::WebSocket::send], one per call of [write] *)
Record ws_out := mkWsOut { sends : list bytes }.

Definition ws_write (c : bytes) (s : ws_out) : ws_out := mkWsOut (sends s ++ [c]).
Definition ws_write_number (n : Z) (s : ws_out) : ws_out := mkWsOut (sends s ++ [to_string n]).
Definition ws_flush (s : ws_out) : ws_out := s.
Definition ws_clear (s : ws_stream) : ws_stream := s.

(** [getReadyState()] *)
Inductive ReadyState := Connecting | Open | Closing | Closed.

Definition ws_what (state : ReadyState) (s : ws_stream) : bytes :=
  match error_message (ws_impl s) with
  | [] => match state with Closing | Closed => lit "Socket is not open." | _ => [] end
  | msg => msg
  end.

(** The callback holds the wrapper weakly: a message after the destructor, which
    interrupts and installs an empty callback, is dropped. *)
Definition ws_destroy (s : option ws_stream) : option ws_stream := None.
Definition ws_callback (msg : ws_message) (self : option ws_stream) : option ws_stream :=
  match self with Some s => Some (on_message msg s) | None => None end.

(** What one side sends arrives at the other *)
Definition receive_all (ms : list bytes) (s : ws_stream) : ws_stream :=
  foldl (fun s m => on_message (WsMessage m) s) s ms.

Definition ws_counted (s : ws_stream) : Prop :=
  counted (on_request (ws_impl s)) /\ priority_ (on_request (ws_impl s)) = [].

Lemma on_message_text m s :
  ws_counted s ->
  ws_counted (on_message (WsMessage m) s) /\
  items (on_request (ws_impl (on_message (WsMessage m) s))) = items (on_request (ws_impl s)) ++ m.
Proof.
  intros [Hc Hp]. destruct (EnqueueAll_plain m _ Hc Hp) as (Hc' & Hp' & Hi). done.
Qed.

Lemma receive_all_items ms s :
  ws_counted s ->
  items (on_request (ws_impl (receive_all ms s))) = items (on_request (ws_impl s)) ++ concat ms.
Proof.
  unfold receive_all. revert s. induction ms as [|m ms IH]; intros s H; cbn [foldl concat].
  - by rewrite app_nil_r.
  - destruct (on_message_text m s H) as [H1 Hi]. by rewrite (IH _ H1), Hi, app_assoc.
Qed.

(** ** [WebSocketServer] *)

(** Connections are named by their number, in the order in which their
    callbacks enter the critical section.  [entered]: the callbacks between
    their critical section and [startProcessingMessages].  The last two fields
    count what happened to the server: no code of it changes them. *)
Record WebSocketServer := mkWsServer {
  listening : bool;
  active_stream : option nat;
  ws_interrupted : list nat;
  point : option nat;            (** the stream of the endpoint's session, if it is working *)
  entered : list nat;
  connections : nat;             (** connections so far *)
  stopped_at : nat               (** connections when [stop] was last called *)
}.

Definition new_ws_server : WebSocketServer := mkWsServer false None [] None [] 0 0.

Definition ws_arrive (s : WebSocketServer) : WebSocketServer :=
  mkWsServer (listening s) (active_stream s) (ws_interrupted s) (point s) (entered s) (S (connections s))
    (stopped_at s).
Definition ws_note_stop (s : WebSocketServer) : WebSocketServer :=
  mkWsServer (listening s) (active_stream s) (ws_interrupted s) (point s) (entered s) (connections s)
    (connections s).

(** [RemoteEndPoint::stop] and [startProcessingMessages], which refuses a second
    session *)
Definition point_stop (p : option nat) : option nat := None.
Definition point_start (n : nat) (p : option nat) : option nat :=
  match p with Some m => Some m | None => Some n end.

(** [run()]; [listen_ok] is the result of [listen()] *)
Definition ws_run (listen_ok : bool) (s : WebSocketServer) : WebSocketServer :=
  if negb listen_ok then s
  else mkWsServer true (active_stream s) (ws_interrupted s) (point s) (entered s) (connections s) (stopped_at s).

(** The callback of connection [n] up to the end of its critical section;
    [locked]: [wp.lock()] still gave the socket *)
Definition on_connection (locked : bool) (n : nat) (s : WebSocketServer) : WebSocketServer :=
  if negb locked then s else
  match active_stream s with
  | Some m => mkWsServer (listening s) (Some n) (m :: ws_interrupted s) (point_stop (point s))
                (n :: entered s) (connections s) (stopped_at s)
  | None => mkWsServer (listening s) (Some n) (ws_interrupted s) (point s) (n :: entered s) (connections s)
              (stopped_at s)
  end.

(** and its last line *)
Definition start_processing (n : nat) (s : WebSocketServer) : WebSocketServer :=
  mkWsServer (listening s) (active_stream s) (ws_interrupted s) (point_start n (point s))
    (filter (fun m => m <> n) (entered s)) (connections s) (stopped_at s).

(** An error or close message of a connection *)
Definition ws_peer_lost (n : nat) (s : WebSocketServer) : WebSocketServer :=
  mkWsServer (listening s) (active_stream s) (n :: ws_interrupted s) (point s) (entered s) (connections s)
    (stopped_at s).

Definition ws_stop (s : WebSocketServer) : WebSocketServer :=
  match active_stream s with
  | Some m => mkWsServer false None (m :: ws_interrupted s) (point_stop (point s)) (entered s) (connections s)
                (stopped_at s)
  | None => mkWsServer false None (ws_interrupted s) (point_stop (point s)) (entered s) (connections s)
              (stopped_at s)
  end.

(** A connection whose socket is gone before its callback runs is not counted. *)
Inductive ws_step : WebSocketServer -> WebSocketServer -> Prop :=
| WsRun ok s : ws_step s (ws_run ok s)
| WsConnect s : listening s = true -> ws_step s (on_connection true (connections s) (ws_arrive s))
| WsGone n s : listening s = true -> ws_step s (on_connection false n s)
| WsStart n s : n ∈ entered s -> ws_step s (start_processing n s)
| WsPeerLost n s : ws_step s (ws_peer_lost n s)
| WsStop s : ws_step s (ws_note_stop (ws_stop s)).

(** The newest connection since [stop] was last called *)
Definition ws_newest (s : WebSocketServer) : option nat :=
  if connections s <=? stopped_at s then None else before (connections s).

(** The newest connection is the active one, and every other has been
    interrupted. *)
Record ws_ok (s : WebSocketServer) : Prop := {
  active_newest : active_stream s = ws_newest s;
  others_interrupted : forall n, n < connections s -> active_stream s <> Some n -> n ∈ ws_interrupted s;
  stopped_before : stopped_at s <= connections s
}.

Lemma newest_arrived (s : WebSocketServer) :
  stopped_at s <= connections s -> (if S (connections s) <=? stopped_at s then None else before (S (connections s))) =
  Some (connections s).
Proof. intros H. destruct (Nat.leb_spec (S (connections s)) (stopped_at s)); [lia|done]. Qed.

Lemma ws_step_ok s s' : ws_step s s' -> ws_ok s -> ws_ok s'.
Proof.
  intros Hs [H1 H2 H3]. destruct Hs as [ok s|s Hl|n s Hl|n s Hn|n s|s].
  - by destruct ok.
  - unfold on_connection. cbn [negb ws_arrive active_stream].
    destruct (active_stream s) as [m|] eqn:Em; split; unfold ws_newest; cbn; try lia;
      try (symmetry; by apply newest_arrived).
    + intros n Hn Hne. destruct (decide (n = m)) as [->|]; [by left|].
      right. apply H2; [|congruence]. destruct (decide (n = connections s)); [congruence|lia].
    + intros n Hn Hne. apply H2; [|congruence]. destruct (decide (n = connections s)); [congruence|lia].
  - done.
  - done.
  - split; cbn; [done| |done]. intros m Hm Hne. right. auto.
  - unfold ws_stop. destruct (active_stream s) as [m|] eqn:Em; split; unfold ws_newest; cbn; try done;
      try (by rewrite Nat.leb_refl).
    intros n Hn _. destruct (decide (n = m)) as [->|]; [by left|]. right. apply H2; congruence.
Qed.

Lemma ws_reachable s : rtc ws_step new_ws_server s -> ws_ok s.
Proof.
  intros Hr. assert (H0 : ws_ok new_ws_server) by (split; cbn; [done|lia|done]).
  induction Hr as [|x y z Hxy _ IH]; [done|]. apply IH. by eapply ws_step_ok.
Qed.

(** The callback of one connection as a whole, and the steps of a server whose
    callbacks do not overlap *)
Definition connect (s : WebSocketServer) : WebSocketServer :=
  start_processing (connections s) (on_connection true (connections s) (ws_arrive s)).

Inductive ws_serial_step : WebSocketServer -> WebSocketServer -> Prop :=
| SRun ok s : ws_serial_step s (ws_run ok s)
| SConnect s : listening s = true -> ws_serial_step s (connect s)
| SPeerLost n s : ws_serial_step s (ws_peer_lost n s)
| SStop s : ws_serial_step s (ws_note_stop (ws_stop s)).

Lemma serial_step_steps s s' : ws_serial_step s s' -> rtc ws_step s s'.
Proof.
  intros [ok x|x Hl|n x|x]; [apply rtc_once, WsRun| |apply rtc_once, WsPeerLost|apply rtc_once, WsStop].
  eapply rtc_l; [by apply WsConnect|]. eapply rtc_l; [|apply rtc_refl]. apply WsStart.
  unfold on_connection. cbn [negb ws_arrive active_stream]. destruct (active_stream x); left.
Qed.

Lemma serial_active s : rtc ws_serial_step new_ws_server s -> point s = active_stream s.
Proof.
  intros Hr. assert (H0 : point new_ws_server = active_stream new_ws_server) by done.
  induction Hr as [|x y z Hxy _ IH]; [done|]. apply IH. destruct Hxy as [ok s|s Hl|n s|s].
  - by destruct ok.
  - unfold connect, on_connection. cbn [negb ws_arrive active_stream].
    destruct (active_stream s) as [m|] eqn:Em; cbn; [done|]. by rewrite H0.
  - done.
  - unfold ws_stop. by destruct (active_stream s).
Qed.

(** * Theorems *)

(** A message may be cut into any number of [write]s: a peer that is a
    [websocket_stream_wrapper] too finds in its queue the bytes that were
    written, numbers by their digits, whatever the boundaries of the WebSocket
    messages, behind the bytes that were already there. *)
Theorem ws_bytes_arrive (ws : list (bytes + Z)) (s : ws_stream) :
  counted (on_request (ws_impl s)) -> priority_ (on_request (ws_impl s)) = [] ->
  let out := foldl (fun o w => match w with inl c => ws_write c o | inr n => ws_write_number n o end)
               (mkWsOut []) ws in
  items (on_request (ws_impl (receive_all (sends out) s))) =
  items (on_request (ws_impl s)) ++
  concat (map (fun w => match w with inl c => c | inr n => to_string n end) ws).
Proof.
  intros Hc Hp out. rewrite receive_all_items by done. do 2 f_equal. subst out.
  assert (Hgen : forall o, sends (foldl (fun o w => match w with inl c => ws_write c o | inr n => ws_write_number n o end)
      o ws) = sends o ++ map (fun w => match w with inl c => c | inr n => to_string n end) ws).
  { induction ws as [|w ws IH]; intros o; cbn; [by rewrite app_nil_r|]. rewrite IH.
    destruct w; cbn; by rewrite <- app_assoc. }
  by rewrite Hgen.
Qed.

Lemma ws_bytes_arrive_witness :
  let s := mkWs (mkTcp false new_queue [] true [] []) in
  items (on_request (ws_impl (receive_all [lit "Content-Length: "; to_string 2; lit "{}"] s))) =
  lit "Content-Length: 2{}".
Proof.
  intros s. etransitivity; [apply (ws_bytes_arrive [inl (lit "Content-Length: "); inr 2%Z; inl (lit "{}")] s)|];
  reflexivity.
Defined.

(** C35. A WebSocket server turns to each new connection and leaves the one
    before: in every interleaving of the connection callbacks, the messages of
    the peers, [run] and [stop], the active stream is that of the newest
    connection since the last [stop], there is none if there was no such
    connection, and every other connection has been interrupted; [stop]
    interrupts that one too and stops the endpoint.  While the callbacks do not
    overlap, the endpoint works exactly on the newest connection. *)
Theorem ws_only_newest (s : WebSocketServer) :
  (rtc ws_step new_ws_server s ->
     active_stream s = (if connections s <=? stopped_at s then None else Some (connections s - 1)) /\
     (forall n, n < connections s -> active_stream s <> Some n -> n ∈ ws_interrupted s) /\
     (forall n, n < connections (ws_stop s) -> n ∈ ws_interrupted (ws_stop s)) /\
     active_stream (ws_stop s) = None /\ point (ws_stop s) = None) /\
  (rtc ws_serial_step new_ws_server s ->
     point s = (if connections s <=? stopped_at s then None else Some (connections s - 1))).
Proof.
  assert (Hnew : rtc ws_step new_ws_server s ->
    active_stream s = (if connections s <=? stopped_at s then None else Some (connections s - 1))).
  { intros [-> _ _]%ws_reachable. unfold ws_newest. destruct (Nat.leb_spec (connections s) (stopped_at s)); [done|].
    destruct (connections s); [lia|]. cbn. f_equal. lia. }
  split.
  - intros Hr. pose proof (ws_reachable _ Hr) as Hok. split; [by apply Hnew|]. split; [apply Hok|].
    assert (Hst : ws_ok (ws_note_stop (ws_stop s))) by by eapply ws_step_ok; [apply WsStop|].
    split; [|by unfold ws_stop; destruct (active_stream s)].
    intros n Hn. apply Hst; [done|]. unfold ws_stop. by destruct (active_stream s).
  - intros Hr. rewrite serial_active by done. apply Hnew. clear Hnew.
    induction Hr as [|x y z Hxy _ IH]; [done|]. etransitivity; [by apply serial_step_steps|done].
Qed.

Lemma ws_only_newest_witness :
  exists s, rtc ws_step new_ws_server s /\ rtc ws_serial_step new_ws_server s /\
    active_stream s = Some 1 /\ 0 ∈ ws_interrupted s /\ point s = Some 1.
Proof.
  set (s := connect (connect (ws_run true new_ws_server))).
  assert (H : rtc ws_step new_ws_server s).
  { eapply rtc_l; [apply (WsRun true)|]. do 2 (eapply rtc_l; [by apply WsConnect|];
      eapply rtc_l; [by apply WsStart; left|]). apply rtc_refl. }
  assert (H' : rtc ws_serial_step new_ws_server s).
  { eapply rtc_l; [apply (SRun true)|]. do 2 (eapply rtc_l; [by apply SConnect|]). apply rtc_refl. }
  destruct (ws_only_newest s) as [H1 H2]. destruct (H1 H) as (Ha & Hi & _).
  exists s. split; [exact H|]. split; [exact H'|]. split; [rewrite Ha; reflexivity|]. split.
  - apply Hi; [|done]. apply Nat.ltb_lt. reflexivity.
  - rewrite (H2 H'). reflexivity.
Defined.

(** Two callbacks can overlap so that the endpoint is left with the older
    connection, which has been interrupted, while [startProcessingMessages]
    refuses the newer one: the client that is connected is never served. *)
Theorem ws_overlap_serves_nobody :
  exists s, rtc ws_step new_ws_server s /\ entered s = [] /\
    active_stream s = Some 1 /\ point s = Some 0 /\ 0 ∈ ws_interrupted s.
Proof.
  exists (start_processing 1 (start_processing 0 (on_connection true 1 (ws_arrive (on_connection true 0 (ws_arrive (ws_run true new_ws_server))))))).
  split; [|split_and!; try done; set_solver].
  eapply rtc_l; [apply (WsRun true)|]. do 2 (eapply rtc_l; [by apply WsConnect|]).
  eapply rtc_l; [by apply (WsStart 0); right; left|]. eapply rtc_l; [by apply (WsStart 1); left|]. apply rtc_refl.
Qed.
