(* ===== verification/Framing.v ===== *)
(** * Message framing

    src/jsonrpc/StreamMessageProducer.cpp: header parsing, the [listen] loops
    of the Content-Length and of the delimited producer, and the frame that
    [WriterMsg] (RemoteEndPoint.cpp) puts on the wire.

    The stream is any [Istream]; the consumer [callBack] and the overload
    handler act on a consumer state [C], and [callBack] also says whether it
    cleared [keepRunning].  The loops take fuel; the theorems about a run say
    how much is enough. *)
From S2P Require Import Prelude CppString Stream.

(** ** Headers *)

Definition isspace (c : byte) : bool :=
  ((9 <=? bval c)%Z && (bval c <=? 13)%Z) || (bval c =? 32)%Z.

Fixpoint skip_while (f : byte -> bool) (s : bytes) : bytes :=
  match s with
  | [] => []
  | c :: s' => if f c then skip_while f s' else s
  end.

(** The longest prefix of digits and the rest. *)
Fixpoint span_digits (s : bytes) : bytes * bytes :=
  match s with
  | c :: s' => if is_digit c then let '(d, r) := span_digits s' in (c :: d, r) else ([], s)
  | [] => ([], [])
  end.

(** [strtol(s, &end, 10)]: [None] when no conversion is done, else the value
    clamped to [long], whether [errno] is [ERANGE], and the text at [end]. *)
Definition strtol (s : bytes) : option (Z * bool * bytes) :=
  let s1 := skip_while isspace s in
  let '(neg, s2) := match s1 with
                    | c :: r => if ceq c "-" then (true, r)
                                else if ceq c "+" then (false, r) else (false, s1)
                    | [] => (false, s1)
                    end in
  match span_digits s2 with
  | ([], _) => None
  | (ds, rest) =>
      let v := dec_value 0 ds in
      if neg then if (LONG_MAX + 1 <? v)%Z then Some ((- LONG_MAX - 1)%Z, true, rest)
                  else Some ((- v)%Z, false, rest)
      else if (LONG_MAX <? v)%Z then Some (LONG_MAX, true, rest) else Some (v, false, rest)
  end.

Definition parseContentLength (value : bytes) : option Z :=
  match strtol (c_str value) with
  | None => None
  | Some (parsed, erange, end_) =>
      if erange || (parsed <? 0)%Z || (INT_MAX <? parsed)%Z then None
      else match skip_while (fun c => ceq c " " || ceq c TAB) end_ with
           | [] => Some parsed
           | _ => None
           end
  end.

Record Headers := mkHeaders { contentLength : Z; charset : bytes }.

Definition Headers_init : Headers := mkHeaders (-1) [].

Definition CONTENT_LENGTH_HEADER : bytes := lit "Content-Length".
Definition CONTENT_TYPE_HEADER : bytes := lit "Content-Type".

Definition parseHeader (line : bytes) (h : Headers) : Headers :=
  match find_char ":" line with
  | None => h
  | Some sepIndex =>
      let key := take sepIndex line in
      if bool_decide (key = CONTENT_LENGTH_HEADER) then
        match parseContentLength (drop (sepIndex + 1) line) with
        | Some n => mkHeaders n (charset h)
        | None => h
        end
      else if bool_decide (key = CONTENT_TYPE_HEADER) then
        match find_sub (lit "charset=") line with
        | Some i => mkHeaders (contentLength h) (drop (i + 8) line)
        | None => h
        end
      else h
  end.

(** The line loop on the text from [start] on; each round consumes a line. *)
Fixpoint parseHeaderBlock_loop (fuel : nat) (rest : bytes) (h : Headers) : Headers :=
  match fuel with
  | 0 => h
  | S fuel' =>
      let '(line, next) := match find_char LF rest with
                           | Some e => (take e rest, Some (drop (S e) rest))
                           | None => (rest, None)
                           end in
      let line := if back_is CR line then pop_back line else line in
      let h := match line with [] => h | _ => parseHeader line h end in
      match next with
      | None => h
      | Some rest' => parseHeaderBlock_loop fuel' rest' h
      end
  end.

Definition parseHeaderBlock (block : bytes) (h : Headers) : Headers :=
  parseHeaderBlock_loop (S (length block)) block h.

Definition CRLF2 : bytes := [CR; LF; CR; LF].
Definition LF2 : bytes := [LF; LF].

(** The header's end and the delimiter's size. *)
Definition findHeaderEnd (buffer : bytes) : option (nat * nat) :=
  match find_sub CRLF2 buffer, find_sub LF2 buffer with
  | None, None => None
  | None, Some lf => Some (lf, 2)
  | Some crlf, None => Some (crlf, 4)
  | Some crlf, Some lf => if crlf <? lf then Some (crlf, 4) else Some (lf, 2)
  end.

(** ** The producers *)

Inductive Level := SEVERE | WARNING | INFO.

Record MessageIssue := mkIssue { text : bytes; code : Level }.

Section Producer.
Context {S : Type} `{Istream S} {C : Type}.

(** [bound] is [input != nullptr]; [issues] is what [issueHandler] was given. *)
Record producer := mkProducer {
  input : S;
  bound : bool;
  keepRunning : bool;
  issues : list MessageIssue;
  consumer : C
}.

Definition bind (s : S) (p : producer) : producer :=
  mkProducer s true (keepRunning p) (issues p) (consumer p).
Definition set_input (p : producer) (s : S) : producer :=
  mkProducer s (bound p) (keepRunning p) (issues p) (consumer p).
Definition set_running (p : producer) (b : bool) : producer :=
  mkProducer (input p) (bound p) b (issues p) (consumer p).
Definition handle (p : producer) (t : bytes) (l : Level) : producer :=
  mkProducer (input p) (bound p) (keepRunning p) (issues p ++ [mkIssue t l]) (consumer p).
Definition set_consumer (p : producer) (c : C) : producer :=
  mkProducer (input p) (bound p) (keepRunning p) (issues p) c.

Definition with_reason (msg reason : bytes) : bytes :=
  match reason with [] => msg | _ => msg ++ lit "Reason:" ++ reason end.

Variable callBack : bytes -> C -> C * bool.
Variable maxFrameSize : Z.
Variable overloadHandler : option (bytes -> C -> bool * C).

Definition reportInputState (p : producer) : bool * producer :=
  if bad (input p) then
    (false, handle p (with_reason (lit "Input stream is bad.") (what (input p))) SEVERE)
  else if fail (input p) then
    let p' := handle p (with_reason (lit "Input fail.") (what (input p))) WARNING in
    if need_to_clear_the_state (input p) then (true, set_input p' (clear (input p)))
    else (false, p')
  else (true, p).

Definition readMore (p : producer) (buffer : bytes) : option bytes * producer :=
  let '(chunk, s) := read_some (Z.to_nat 4096) (input p) in
  match chunk with
  | [] => (None, set_input p s)
  | _ => (Some (buffer ++ chunk), set_input p s)
  end.

(** Every round reads at least one byte, so [count] rounds are enough. *)
Fixpoint discard_loop (fuel count : nat) (p : producer) : bool * producer :=
  match fuel with
  | 0 => (true, p)
  | Datatypes.S fuel' =>
      if count =? 0 then (true, p)
      else
        let toRead := Nat.min count (Z.to_nat 4096) in
        let p := set_input p (read toRead (input p)).2 in
        if bad (input p) then
          (false, handle p (lit "Input stream is bad while discarding oversized frame.") SEVERE)
        else if eof (input p) || fail (input p) then
          (false, handle p (lit "Input ended while discarding oversized frame.") WARNING)
        else discard_loop fuel' (count - toRead) p
  end.

Definition discardBytes (count : nat) (p : producer) : bool * producer := discard_loop count count p.

Definition reportOverload (message : bytes) (p : producer) : bool * producer :=
  let p := handle p message WARNING in
  match overloadHandler with
  | None => (false, p)
  | Some h => let '(ok, c) := h message (consumer p) in (ok, set_consumer p c)
  end.

(** The loop that reads until the header's end is in the buffer: [inl] when
    [listen] returns there. *)
Fixpoint read_header (fuel : nat) (p : producer) (buffer : bytes)
    : option (producer + producer * bytes * (nat * nat)) :=
  match findHeaderEnd buffer with
  | Some e => Some (inr (p, buffer, e))
  | None =>
      match fuel with
      | 0 => None
      | Datatypes.S fuel' =>
          match readMore p buffer with
          | (None, p) =>
              let p := set_running p false in
              Some (inl (match buffer with
                         | [] => p
                         | _ => handle p (lit "No more input when reading message headers") INFO
                         end))
          | (Some buffer, p) =>
              let '(ok, p) := reportInputState p in
              if ok then read_header fuel' p buffer else Some (inl p)
          end
      end
  end.

Definition overload_text (n : Z) : bytes :=
  lit "LSP frame size " ++ to_string n ++ lit " exceeds configured maximum " ++
  to_string maxFrameSize ++ lit ".".

(** Read the rest of a body of [n] bytes into the resized buffer: [inl] when
    [listen] returns there. *)
Definition read_body (n : nat) (p : producer) (buffer : bytes) : producer + producer * bytes :=
  if length buffer <? n then
    let needed := n - length buffer in
    let '(got, s) := read needed (input p) in
    let p := set_input p s in
    let buffer := buffer ++ got ++ replicate (needed - length got) NUL in
    if bad s then
      inl (set_running (handle p (with_reason (lit "Input stream is bad.") (what s)) SEVERE) false)
    else if eof s then
      inl (set_running (handle p (lit "No more input when reading content body") INFO) false)
    else if fail s then
      inl (set_running (handle p (with_reason (lit "Input fail.") (what s)) WARNING) false)
    else inr (p, buffer)
  else inr (p, buffer).

(** The part of a round after the header's end was found at [headerEnd]. *)
Definition handle_block (p : producer) (buffer : bytes) (headerEnd delimiterSize : nat)
    : producer + producer * bytes :=
  let headerBlock := take headerEnd buffer in
  let headers := parseHeaderBlock headerBlock Headers_init in
  let buffer := drop (headerEnd + delimiterSize) buffer in
  if (contentLength headers <? 0)%Z then
    inr (handle p (lit "Unexpected token:" ++ headerBlock ++
                   lit "  (expected Content-Length: sequence);") WARNING, buffer)
  else
    let n := Z.to_nat (contentLength headers) in
    if negb (maxFrameSize =? 0)%Z && (maxFrameSize <? contentLength headers)%Z then
      let '(ok, p) := reportOverload (overload_text (contentLength headers)) p in
      if negb ok then inl (set_running p false)
      else
        let buffered := Nat.min (length buffer) n in
        let remaining := n - buffered in
        if remaining =? 0 then inr (p, drop buffered buffer)
        else let '(ok, p) := discardBytes remaining p in
             if ok then inr (p, drop buffered buffer) else inl (set_running p false)
    else
      match read_body n p buffer with
      | inl p => inl p
      | inr (p, buffer) =>
          let content := take n buffer in
          let buffer := drop n buffer in
          let '(c, stopped) := callBack content (consumer p) in
          let p := set_consumer p c in
          let p := if stopped then set_running p false else p in
          inr (if eof (input p) && bool_decide (buffer = []) then set_running p false else p, buffer)
      end.

Fixpoint listen_loop (fuel : nat) (p : producer) (buffer : bytes) : option producer :=
  match fuel with
  | 0 => None
  | Datatypes.S fuel' =>
      if negb (keepRunning p) then Some p
      else
        let '(ok, p) := reportInputState p in
        if negb ok then Some p
        else match read_header fuel p buffer with
             | None => None
             | Some (inl p) => Some p
             | Some (inr (p, buffer, (headerEnd, delimiterSize))) =>
                 match handle_block p buffer headerEnd delimiterSize with
                 | inl p => Some p
                 | inr (p, buffer) => listen_loop fuel' p buffer
                 end
             end
  end.

(** [LSPStreamMessageProducer::listen]; [None]: out of fuel *)
Definition listen (fuel : nat) (p : producer) : option producer :=
  if negb (bound p) then Some p else listen_loop fuel (set_running p true) [].

(** [LSPStreamMessageProducer::handleMessage]; [None]: the string of negative
    length throws [std::length_error] *)
Definition handleMessage (headers : Headers) (p : producer) : option (bool * producer) :=
  if (contentLength headers <? 0)%Z then None
  else
    let n := Z.to_nat (contentLength headers) in
    let '(content, p) :=
      if (0 <? contentLength headers)%Z then
        let '(got, s) := read n (input p) in
        (got ++ replicate (n - length got) NUL, set_input p s)
      else ([], p) in
    let s := input p in
    Some
      (if bad s then (false, handle p (with_reason (lit "Input stream is bad.") (what s)) SEVERE)
       else if eof s then (false, handle p (lit "No more input when reading content body") INFO)
       else if fail s then (false, handle p (with_reason (lit "Input fail.") (what s)) WARNING)
       else let '(c, stopped) := callBack content (consumer p) in
            (true, set_running (set_consumer p c) (keepRunning p && negb stopped))).
End Producer.
Arguments producer S C : clear implicits.

(** [WriterMsg]: the frame of a serialised message. *)
Definition WriterMsg (s : bytes) : bytes :=
  lit "Content-Length: " ++ to_string (Z.of_nat (length s)) ++ CRLF2 ++ s.

(** ** Headers: lemmas *)

Lemma findHeaderEnd_long_crlf hdr r :
  findHeaderEnd (hdr ++ CRLF2) = Some (length hdr, 4) ->
  findHeaderEnd (hdr ++ CRLF2 ++ r) = Some (length hdr, 4).
Proof.
  unfold findHeaderEnd. rewrite app_assoc. set (s := hdr ++ CRLF2).
  assert (Hs : length s = length hdr + 4) by (subst s; by rewrite length_app).
  destruct (find_sub CRLF2 s) as [i|] eqn:Ei.
  2: { destruct (find_sub LF2 s) as [j|]; [|done]. intros [= _ ?]. }
  rewrite (find_sub_app _ _ r _ Ei).
  destruct (find_sub LF2 (s ++ r)) as [j|] eqn:Ej.
  - destruct (decide (j + 2 <= length s)) as [Hj|Hj].
    + apply find_sub_Some in Ej as Hj'. destruct Hj' as (H1 & H2 & H3).
      assert (Hst : starts_with LF2 (drop j s) = true).
      { rewrite <- (starts_with_app_short LF2 (drop j s) r) by (rewrite length_drop; simpl; lia).
        rewrite <- drop_app_le by lia. rewrite H1, drop_app_length' by len.
        apply starts_with_app. }
      destruct (find_sub LF2 s) as [k|] eqn:Ek.
      * rewrite (find_sub_app _ _ r _ Ek) in Ej. by injection Ej as ->.
      * rewrite find_sub_None in Ek. rewrite Ek in Hst; [done|lia].
    + assert (Hij : i <= length hdr).
      { pose proof (find_sub_bound _ _ _ Ei) as Hb. simpl in Hb. lia. }
      destruct (find_sub LF2 s) as [k|] eqn:Ek.
      * rewrite (find_sub_app _ _ r _ Ek) in Ej. injection Ej as ->.
        apply find_sub_bound in Ek. simpl in Ek. lia.
      * intros [= ->]. replace (length hdr <? j) with true; [done|].
        symmetry. apply Nat.ltb_lt. lia.
  - destruct (find_sub LF2 s) as [k|] eqn:Ek; [|done].
    by rewrite (find_sub_app _ _ r _ Ek) in Ej.
Qed.

Lemma findHeaderEnd_short_crlf hdr b r :
  findHeaderEnd (hdr ++ CRLF2) = Some (length hdr, 4) ->
  hdr ++ CRLF2 = b ++ r -> r <> [] -> findHeaderEnd b = None.
Proof.
  intros Hf Hs Hr. unfold findHeaderEnd in *.
  assert (Hlen : length b < length hdr + 4).
  { apply (f_equal length) in Hs. rewrite !length_app in Hs. simpl in Hs.
    destruct r; [done|]. simpl in Hs. lia. }
  destruct (find_sub CRLF2 b) as [i|] eqn:Ei.
  { pose proof (find_sub_bound _ _ _ Ei) as Hb. simpl in Hb.
    apply (find_sub_app _ _ r) in Ei. rewrite <- Hs in Ei. rewrite Ei in Hf.
    destruct (find_sub LF2 (hdr ++ CRLF2)); [destruct (i <? n)|]; injection Hf; intros; lia. }
  destruct (find_sub LF2 b) as [j|] eqn:Ej; [|done]. exfalso.
  pose proof (find_sub_bound _ _ _ Ej) as Hb. simpl in Hb.
  apply (find_sub_app _ _ r) in Ej. rewrite <- Hs in Ej. rewrite Ej in Hf.
  destruct (find_sub CRLF2 (hdr ++ CRLF2)) as [i|]; [|by injection Hf].
  destruct (i <? j) eqn:Eij; [|by injection Hf]. injection Hf as ->.
  apply Nat.ltb_lt in Eij. apply find_sub_Some in Ej as (H1 & _ & _).
  replace j with (length hdr + 1) in H1 by lia.
  apply (f_equal (fun l => l !! (length hdr + 2))) in H1.
  rewrite lookup_app_r, (lookup_app_r (take _ _)) in H1 by len.
  rewrite length_take, length_app in H1. simpl in H1.
  replace (length hdr + 2 - length hdr) with 2 in H1 by lia.
  replace (length hdr + 2 - (length hdr + 1) `min` (length hdr + 4)) with 1 in H1 by lia.
  done.
Qed.

(** A header block ends at an empty line, whose line ends may lack the CR. *)
Inductive delimiter := CrLf | LfOnly.
Definition delim (d : delimiter) : bytes := match d with CrLf => CRLF2 | LfOnly => LF2 end.

Lemma findHeaderEnd_lf hdr :
  findHeaderEnd (hdr ++ LF2) = Some (length hdr, 2) ->
  find_sub LF2 (hdr ++ LF2) = Some (length hdr) /\
  (forall i, find_sub CRLF2 (hdr ++ LF2) = Some i -> length hdr <= i).
Proof.
  unfold findHeaderEnd. destruct (find_sub CRLF2 (hdr ++ LF2)) as [i|], (find_sub LF2 (hdr ++ LF2)) as [j|]; try done.
  - destruct (Nat.ltb_spec i j); intros [= ->]. split; [done|]. by intros ? [= <-].
  - by intros [= ->].
Qed.

Lemma findHeaderEnd_long_lf hdr r :
  findHeaderEnd (hdr ++ LF2) = Some (length hdr, 2) ->
  findHeaderEnd (hdr ++ LF2 ++ r) = Some (length hdr, 2).
Proof.
  intros [Hl Hc]%findHeaderEnd_lf. unfold findHeaderEnd. rewrite app_assoc, (find_sub_app _ _ r _ Hl).
  destruct (find_sub CRLF2 ((hdr ++ LF2) ++ r)) as [i|] eqn:Ei; [|done].
  destruct (Nat.ltb_spec i (length hdr)) as [Hlt|]; [exfalso|done].
  pose proof (find_sub_bound _ _ _ Ei) as Hb. apply find_sub_Some in Ei as (H1 & _ & _).
  assert (Hat : forall k, k < 4 -> ((hdr ++ LF2) ++ r) !! (i + k) = CRLF2 !! k).
  { intros k Hk. rewrite H1. rewrite !length_app in Hb. simpl in Hb. rewrite lookup_app_r by len.
    rewrite length_take, Nat.min_l by len. replace (i + k - i) with k by lia. by rewrite lookup_app_l. }
  destruct (decide (i + 4 <= length (hdr ++ LF2))) as [Hi|Hi].
  - destruct (find_sub CRLF2 (hdr ++ LF2)) as [i'|] eqn:E'.
    + pose proof (find_sub_app _ _ r _ E') as E2. specialize (Hc i' eq_refl).
      apply find_sub_Some in E2 as (_ & _ & Hmin). specialize (Hmin i ltac:(lia)).
      rewrite H1 in Hmin. rewrite drop_app_length' in Hmin by (rewrite !length_app in *; len).
      rewrite starts_with_app in Hmin. done.
    + rewrite find_sub_None in E'. specialize (E' i ltac:(lia)).
      rewrite <- (starts_with_app_short CRLF2 (drop i (hdr ++ LF2)) r) in E' by (rewrite length_drop; simpl; lia).
      rewrite <- drop_app_le in E' by lia. rewrite H1, drop_app_length' in E' by (rewrite !length_app in *; len).
      by rewrite starts_with_app in E'.
  - rewrite length_app in Hi. simpl in Hi. specialize (Hat 2 ltac:(lia)).
    replace (i + 2) with (length hdr + 1) in Hat by lia.
    rewrite <- app_assoc, lookup_app_r in Hat by lia.
    by replace (length hdr + 1 - length hdr) with 1 in Hat by lia.
Qed.

Lemma findHeaderEnd_short_lf hdr b r :
  findHeaderEnd (hdr ++ LF2) = Some (length hdr, 2) -> hdr ++ LF2 = b ++ r -> r <> [] -> findHeaderEnd b = None.
Proof.
  intros [Hl Hc]%findHeaderEnd_lf Hs Hr.
  assert (Hlen : length b < length hdr + 2).
  { apply (f_equal length) in Hs. rewrite !length_app in Hs. simpl in Hs.
    destruct r; [done|]. simpl in Hs. lia. }
  unfold findHeaderEnd. destruct (find_sub CRLF2 b) as [i|] eqn:Ei.
  { pose proof (find_sub_bound _ _ _ Ei) as Hb. simpl in Hb. apply (find_sub_app _ _ r) in Ei.
    rewrite <- Hs in Ei. specialize (Hc i Ei). lia. }
  destruct (find_sub LF2 b) as [j|] eqn:Ej; [|done].
  pose proof (find_sub_bound _ _ _ Ej) as Hb. simpl in Hb. apply (find_sub_app _ _ r) in Ej.
  rewrite <- Hs, Hl in Ej. injection Ej as E. lia.
Qed.

Lemma findHeaderEnd_long d hdr r :
  findHeaderEnd (hdr ++ delim d) = Some (length hdr, length (delim d)) ->
  findHeaderEnd (hdr ++ delim d ++ r) = Some (length hdr, length (delim d)).
Proof. destruct d; [apply findHeaderEnd_long_crlf|apply findHeaderEnd_long_lf]. Qed.

Lemma findHeaderEnd_short d hdr b r :
  findHeaderEnd (hdr ++ delim d) = Some (length hdr, length (delim d)) ->
  hdr ++ delim d = b ++ r -> r <> [] -> findHeaderEnd b = None.
Proof. destruct d; [apply findHeaderEnd_short_crlf|apply findHeaderEnd_short_lf]. Qed.

Lemma app_split {A} (a b c d : list A) :
  a ++ b = c ++ d -> length c <= length a ->
  a = c ++ drop (length c) a /\ d = drop (length c) a ++ b.
Proof.
  intros H Hl. assert (Hc : c = take (length c) a).
  { apply (f_equal (take (length c))) in H. by rewrite take_app_length, take_app_le in H. }
  split.
  - rewrite Hc at 1. by rewrite take_drop.
  - apply (f_equal (drop (length c))) in H. by rewrite drop_app_length, drop_app_le in H.
Qed.

(** ** A run of [listen] over well-delimited input *)

(** What the peer sent: a header block with its body, or a header block that
    announces no length. *)
Inductive item :=
| Frame (d : delimiter) (hdr body : bytes)
| Junk (d : delimiter) (hdr : bytes).

Definition item_delim (it : item) : bytes := match it with Frame d _ _ | Junk d _ => delim d end.
Definition item_header (it : item) : bytes := match it with Frame _ h _ | Junk _ h => h end.
Definition item_body (it : item) : bytes := match it with Frame _ _ b => b | Junk _ _ => [] end.
Definition wire (it : item) : bytes := item_header it ++ item_delim it ++ item_body it.

Section Run.
Context {S : Type} `{Istream S} {alive : S -> Prop} {pending : S -> bytes}.
Context {laws : StreamLaws S alive pending} {C : Type}.
Variable callBack : bytes -> C -> C * bool.
Variable maxFrameSize : Z.
Variable overloadHandler : option (bytes -> C -> bool * C).

Local Abbreviation oversized n := (negb (maxFrameSize =? 0)%Z && (maxFrameSize <? n)%Z).

(** The header block ends at its delimiter, and announces the body or
    nothing. *)
Definition item_ok (it : item) : Prop :=
  findHeaderEnd (item_header it ++ item_delim it) = Some (length (item_header it), length (item_delim it)) /\
  let n := contentLength (parseHeaderBlock (item_header it) Headers_init) in
  match it with
  | Junk _ _ => (n < 0)%Z
  | Frame _ _ body => n = Z.of_nat (length body)
  end.

(** The effect of an item on the consumer and on the issue log, and whether
    the producer goes on after it: not if the consumer has stopped it, nor
    after an oversized frame that the overload handler does not accept, or
    for which there is none. *)
Definition deliver_one (c : C) (log : list MessageIssue) (it : item) : bool * (C * list MessageIssue) :=
  match it with
  | Junk _ hdr =>
      (true, (c, log ++ [mkIssue (lit "Unexpected token:" ++ hdr ++
                                  lit "  (expected Content-Length: sequence);") WARNING]))
  | Frame _ _ body =>
      let n := Z.of_nat (length body) in
      if oversized n then
        let '(ok, c') := match overloadHandler with
                         | Some h => h (overload_text maxFrameSize n) c
                         | None => (false, c)
                         end in
        (ok, (c', log ++ [mkIssue (overload_text maxFrameSize n) WARNING]))
      else let '(c', stopped) := callBack body c in (negb stopped, (c', log))
  end.

(** A sequence of items; those behind the one at which the producer stops
    have no effect. *)
Definition deliver (st : bool * (C * list MessageIssue)) (it : item) : bool * (C * list MessageIssue) :=
  let '(running, (c, log)) := st in if running then deliver_one c log it else st.

Lemma deliver_stopped items st : st.1 = false -> fold_left deliver items st = st.
Proof.
  intros Hs. induction items as [|it items IH]; [done|]. cbn [fold_left].
  assert (deliver st it = st) as -> by (destruct st as [[] []]; done). done.
Qed.

Lemma reportInputState_alive (p : producer S C) :
  alive (input p) -> reportInputState p = (true, p).
Proof.
  intros Ha. destruct (alive_flags _ Ha) as (Hb & Hf & _).
  unfold reportInputState. by rewrite Hb, Hf.
Qed.

Lemma read_header_found fuel (p : producer S C) buffer hdr d r :
  alive (input p) -> buffer ++ pending (input p) = hdr ++ delim d ++ r ->
  findHeaderEnd (hdr ++ delim d) = Some (length hdr, length (delim d)) -> length (pending (input p)) <= fuel ->
  exists s buffer', alive s /\ buffer' ++ pending s = hdr ++ delim d ++ r /\
    length hdr + length (delim d) <= length buffer' /\
    read_header fuel p buffer = Some (inr (set_input p s, buffer', (length hdr, length (delim d)))).
Proof.
  intros Ha Hp Hf. revert p buffer Ha Hp.
  induction fuel as [|fuel IH]; intros p buffer Ha Hp Hfuel.
  all: destruct (decide (length hdr + length (delim d) <= length buffer)) as [Hl|Hl].
  1, 3: exists (input p), buffer; split; [done|]; split; [done|]; split; [done|];
    rewrite app_assoc in Hp;
    (destruct (app_split _ _ _ _ Hp) as [E _]; [by rewrite length_app|]);
    assert (Hfound : findHeaderEnd buffer = Some (length hdr, length (delim d)))
      by (rewrite E, <- app_assoc; by apply findHeaderEnd_long);
    simpl; rewrite Hfound; by destruct p.
  all: assert (Hne : pending (input p) <> [])
      by (intros E; apply (f_equal length) in Hp; rewrite E, !length_app in Hp; simpl in Hp; lia).
  { destruct (pending (input p)); [done|]. simpl in Hfuel. lia. }
  assert (Hnone : findHeaderEnd buffer = None).
  { rewrite app_assoc in Hp. symmetry in Hp.
    destruct (app_split _ _ _ _ Hp) as [E _]; [rewrite length_app; simpl; lia|].
    eapply findHeaderEnd_short; [exact Hf|exact E|]. intros E'. rewrite E', app_nil_r in E.
    rewrite <- E, length_app in Hl. simpl in Hl. lia. }
  cbn [read_header]. rewrite Hnone. unfold readMore.
  destruct (read_some_law (Z.to_nat 4096) (input p)) as (k & s' & Hk & -> & Hne' & Ha' & Hp');
    [done|lia|done|].
  destruct (take k (pending (input p))) as [|x l] eqn:Et; [done|]. rewrite <- Et.
  rewrite reportInputState_alive by done.
  destruct (IH (set_input p s') (buffer ++ take k (pending (input p)))) as
    (s2 & b2 & H1 & H2 & H3 & H4); [done| | |].
  - cbn [input set_input]. rewrite Hp', <- app_assoc, take_drop. done.
  - cbn [input set_input]. rewrite Hp', length_drop.
    destruct (pending (input p)); [done|]. simpl in *. lia.
  - exists s2, b2. split; [done|]. split; [done|]. split; [done|]. exact H4.
Qed.

Lemma discard_loop_alive fuel count (p : producer S C) :
  count <= fuel -> alive (input p) -> count <= length (pending (input p)) ->
  exists s, discard_loop fuel count p = (true, set_input p s) /\ alive s /\
    pending s = drop count (pending (input p)).
Proof.
  revert count p. induction fuel as [|fuel IH]; intros count p Hf Ha Hc.
  - exists (input p). replace count with 0 by lia. rewrite drop_0. by destruct p.
  - cbn [discard_loop]. destruct (count =? 0) eqn:E0.
    + apply Nat.eqb_eq in E0. subst. exists (input p). rewrite drop_0. by destruct p.
    + apply Nat.eqb_neq in E0. set (n := Nat.min count (Z.to_nat 4096)).
      assert (Hn : 0 < n <= count) by lia. clearbody n.
      destruct (read_law n (input p)) as (s1 & -> & Ha1 & Hp1); [done|lia|]. cbn [snd input set_input].
      destruct (alive_flags _ Ha1) as (-> & -> & ->). cbn [orb].
      destruct (IH (count - n) (set_input p s1)) as (s2 & H2 & Ha2 & Hp2);
        [lia|done|cbn [input set_input]; rewrite Hp1, length_drop; lia|].
      exists s2. split; [exact H2|]. split; [done|]. rewrite Hp2. cbn [input set_input].
      rewrite Hp1, drop_drop. f_equal. lia.
Qed.

Lemma read_body_alive n (p : producer S C) buffer body rest :
  alive (input p) -> buffer ++ pending (input p) = body ++ rest -> n = length body ->
  exists s buffer', read_body n p buffer = inr (set_input p s, buffer') /\ alive s /\
    take n buffer' = body /\ drop n buffer' ++ pending s = rest.
Proof.
  intros Ha Hp ->. unfold read_body. destruct (Nat.ltb_spec (length buffer) (length body)) as [Hl|Hl].
  - set (needed := length body - length buffer).
    assert (Hpl : needed <= length (pending (input p)))
      by (apply (f_equal length) in Hp; rewrite !length_app in Hp; subst needed; lia).
    destruct (read_law needed (input p)) as (s1 & -> & Ha1 & Hp1); [done|done|].
    destruct (alive_flags _ Ha1) as (-> & -> & ->).
    symmetry in Hp. destruct (app_split _ _ _ _ Hp) as [E1 E2]; [lia|].
    assert (Hg : take needed (pending (input p)) = drop (length buffer) body).
    { rewrite E2, take_app_le by len. by rewrite take_ge by len. }
    rewrite Hg, length_drop.
    replace (needed - (length body - length buffer)) with 0 by lia. cbn [replicate].
    rewrite app_nil_r, <- E1. exists s1, body. split; [done|]. split; [done|].
    split; [by rewrite take_ge|]. rewrite drop_ge by lia. rewrite Hp1, E2.
    by rewrite drop_app_length' by (subst needed; len).
  - destruct (app_split _ _ _ _ Hp) as [E1 E2]; [lia|].
    exists (input p), buffer. split; [by destruct p|]. split; [done|].
    split; [|by rewrite <- E2]. rewrite E1. apply take_app_length.
Qed.

Definition with_effect (p : producer S C) (s : S) (st : C * list MessageIssue) : producer S C :=
  mkProducer s (bound p) (keepRunning p) st.2 st.1.

(** An oversized frame that is accepted: its body is skipped, in the buffer and
    in the stream. *)
Lemma skip_oversized (p : producer S C) buf (body rest : bytes) (c' : C) log :
  alive (input p) -> body ++ rest = buf ++ pending (input p) ->
  let pc := mkProducer (input p) (bound p) (keepRunning p) log c' in
  let buffered := Nat.min (length buf) (length body) in
  exists s buffer', alive s /\ buffer' ++ pending s = rest /\
    (if length body - buffered =? 0 then inr (pc, drop buffered buf)
     else let '(ok, p') := discardBytes (length body - buffered) pc in
          if ok then inr (p', drop buffered buf) else inl (set_running p' false)) =
    inr (with_effect p s (c', log), buffer').
Proof.
  intros Ha E2 pc buffered. subst buffered. destruct (_ =? 0) eqn:Er.
  - apply Nat.eqb_eq in Er. exists (input p), (drop (length body) buf). split; [done|].
    destruct (app_split _ _ _ _ (eq_sym E2)) as [_ E3]; [lia|].
    split; [by rewrite <- E3|]. by rewrite Nat.min_r by lia.
  - apply Nat.eqb_neq in Er. rewrite Nat.min_l in * by lia.
    destruct (app_split _ _ _ _ E2) as [_ E3]; [lia|]. unfold discardBytes.
    destruct (discard_loop_alive (length body - length buf) (length body - length buf) pc)
      as (s' & -> & Ha' & Hp'); [done|done|subst pc; simpl; rewrite E3; len|].
    exists s', []. split; [done|]. split; [|by rewrite (drop_ge buf) by lia].
    rewrite Hp'. subst pc. simpl. rewrite E3. by rewrite drop_app_length' by len.
Qed.

(** A round over an item, at which the producer goes on *)
Lemma handle_block_item (p : producer S C) buffer it rest :
  alive (input p) -> item_ok it -> length (item_header it) + length (item_delim it) <= length buffer ->
  buffer ++ pending (input p) = wire it ++ rest ->
  let '(running, st) := deliver_one (consumer p) (issues p) it in
  let res := handle_block callBack maxFrameSize overloadHandler p buffer (length (item_header it))
               (length (item_delim it)) in
  if running then
    exists s buffer', alive s /\ buffer' ++ pending s = rest /\ res = inr (with_effect p s st, buffer')
  else exists s, res = inl (set_running (with_effect p s st) false) \/
    exists buffer', res = inr (set_running (with_effect p s st) false, buffer').
Proof.
  intros Ha [Hf Hok] Hl Hp. unfold wire in Hp. rewrite <- !app_assoc in Hp.
  assert (Htake : take (length (item_header it)) buffer = item_header it).
  { destruct (app_split _ _ _ _ Hp) as [E _]; [lia|]. rewrite E. apply take_app_length. }
  rewrite app_assoc in Hp.
  destruct (app_split _ _ _ _ Hp) as [_ E2]; [rewrite length_app; lia|].
  rewrite length_app in E2. unfold handle_block. rewrite Htake. set (buf := drop _ buffer) in *. clearbody buf.
  destruct it as [d hdr body|d hdr]; cbn [item_header item_body deliver_one] in *.
  2: { rewrite (proj2 (Z.ltb_lt _ _) Hok). by exists (input p), buf. }
  rewrite Hok. replace (Z.of_nat (length body) <? 0)%Z with false by lia.
  rewrite Nat2Z.id. destruct (oversized _) eqn:Eo.
  - unfold reportOverload. destruct overloadHandler as [h|].
    2: { exists (input p). by left. }
    cbn [consumer handle]. destruct (h _ (consumer p)) as [[] c']; cbn [negb].
    2: { exists (input p). by left. }
    exact (skip_oversized p buf body rest c'
      (issues p ++ [mkIssue (overload_text maxFrameSize (Z.of_nat (length body))) WARNING]) Ha E2).
  - destruct (read_body_alive (length body) p buf body rest) as (s' & b' & -> & Ha' & H3 & H4);
      [done|done|done|].
    cbn [consumer set_input]. rewrite H3. destruct (callBack body (consumer p)) as [c' []]; cbn [negb].
    + exists s'. right. exists (drop (length body) b'). cbn [input set_running set_consumer set_input].
      by destruct (eof s' && _).
    + exists s', (drop (length body) b'). split; [done|]. split; [done|].
      cbn [input set_consumer set_input]. destruct (alive_flags _ Ha') as (_ & _ & ->). done.
Qed.

Lemma listen_loop_items items fuel (p : producer S C) buffer :
  alive (input p) -> keepRunning p = true -> Forall item_ok items ->
  buffer ++ pending (input p) = concat (map wire items) ->
  length (buffer ++ pending (input p)) < fuel ->
  exists p', listen_loop callBack maxFrameSize overloadHandler fuel p buffer = Some p' /\
    keepRunning p' = false /\
    (consumer p', issues p') = (fold_left deliver items (true, (consumer p, issues p))).2.
Proof.
  intros Ha Hrun Hok. revert fuel p buffer Ha Hrun.
  induction Hok as [|it items Hit _ IH]; intros fuel p buffer Ha Hrun Hp Hfuel.
  all: destruct fuel as [|fuel]; [lia|]; cbn [listen_loop]; rewrite Hrun; cbn [negb];
    rewrite reportInputState_alive by done; cbn [negb].
  - apply app_eq_nil in Hp as [-> Hp].
    cbn [read_header]. change (findHeaderEnd []) with (@None (nat * nat)). cbn iota. unfold readMore.
    pose proof (read_some_end (Z.to_nat 4096) (input p) Ha Hp) as Hend.
    destruct (read_some _ (input p)) as [l s']. simpl in Hend. subst l.
    eexists. split; [done|]. by split.
  - cbn [map concat] in Hp.
    destruct (read_header_found (Datatypes.S fuel) p buffer (item_header it)
                (match it with Frame d _ _ | Junk d _ => d end) (item_body it ++ concat (map wire items)))
      as (s1 & b1 & Ha1 & Hp1 & Hl1 & ->);
      [done| |destruct Hit, it; done|rewrite length_app in Hfuel; lia|].
    { rewrite Hp. unfold wire. rewrite <- !app_assoc. by destruct it. }
    replace (delim match it with Frame d _ _ | Junk d _ => d end) with (item_delim it) in * by by destruct it.
    pose proof (handle_block_item (set_input p s1) b1 it (concat (map wire items)) Ha1 Hit Hl1) as Hb.
    cbn [fold_left deliver consumer issues set_input] in *.
    destruct (deliver_one (consumer p) (issues p) it) as [[] st].
    + destruct Hb as (s2 & b2 & Ha2 & Hp2 & ->).
      { cbn [input set_input]. rewrite Hp1. unfold wire. by rewrite <- !app_assoc. }
      destruct (IH fuel (with_effect (set_input p s1) s2 st) b2) as (p' & H1 & H2 & H3); [done|done|done| |].
      * cbn [input with_effect]. rewrite Hp2.
        assert (2 <= length (wire it)) by (unfold wire; rewrite !length_app; destruct it as [[]|[]]; simpl; lia).
        rewrite Hp, length_app in Hfuel. lia.
      * exists p'. split; [exact H1|]. split; [done|]. rewrite H3. cbn [consumer issues with_effect].
        by rewrite <- surjective_pairing.
    + rewrite deliver_stopped by done. destruct Hb as (s2 & Hb).
      { cbn [input set_input]. rewrite Hp1. unfold wire. by rewrite <- !app_assoc. }
      exists (set_running (with_effect (set_input p s1) s2 st) false).
      split; [|split; [done|by destruct st]]. destruct Hb as [->|(b2 & ->)]; [done|].
      destruct fuel as [|fuel']; [|done]. rewrite Hp, length_app in Hfuel.
      assert (2 <= length (wire it)) by (unfold wire; rewrite !length_app; destruct it as [[]|[]]; simpl; lia). lia.
Qed.

Lemma listen_run items fuel (p : producer S C) :
  bound p = true -> alive (input p) -> Forall item_ok items ->
  pending (input p) = concat (map wire items) -> length (pending (input p)) < fuel ->
  exists p', listen callBack maxFrameSize overloadHandler fuel p = Some p' /\
    keepRunning p' = false /\
    (consumer p', issues p') = (fold_left deliver items (true, (consumer p, issues p))).2.
Proof.
  intros Hb Ha Hok Hp Hf. unfold listen. rewrite Hb. cbn [negb].
  destruct (listen_loop_items items fuel (set_running p true) []) as (p' & H1 & H2 & H3); [done..|].
  by exists p'.
Qed.
End Run.

(** ** What the writer emits, the reader accepts *)

Lemma digits_no c s : is_digit c = false -> forallb is_digit s = true -> c ∉ s.
Proof.
  intros Hc Hs Hin. rewrite forallb_forall in Hs. apply list_elem_of_In in Hin.
  rewrite (Hs _ Hin) in Hc. done.
Qed.

Lemma span_digits_all s : forallb is_digit s = true -> span_digits s = (s, []).
Proof.
  induction s as [|c s IH]; simpl; [done|]. intros [H1 H2]%andb_true_iff. by rewrite H1, IH.
Qed.

Lemma digit_not_sign c :
  is_digit c = true -> isspace c = false /\ ceq c "-" = false /\ ceq c "+" = false.
Proof.
  pose proof (byte_forall (fun c => negb (is_digit c) ||
    (negb (isspace c) && negb (ceq c "-") && negb (ceq c "+"))) ltac:(by vm_compute) c) as H.
  cbv beta in H. intros Hd. rewrite Hd in H. cbn [negb orb] in H.
  by apply andb_true_iff in H as [[?%negb_true_iff ?%negb_true_iff]%andb_true_iff ?%negb_true_iff].
Qed.

Lemma parseContentLength_print n :
  (0 <= n <= INT_MAX)%Z -> parseContentLength (" "%byte :: to_string n) = Some n.
Proof.
  intros Hn. destruct (to_string_nonneg n) as (Hne & Hd & Hv); [lia|].
  unfold parseContentLength. cbn [c_str]. change (ceq " "%byte NUL) with false. cbn iota.
  rewrite c_str_id by (apply digits_no; done). unfold strtol. cbn [skip_while].
  change (isspace " "%byte) with true. cbn iota.
  destruct (to_string n) as [|c s] eqn:E; [done|]. cbn [skip_while].
  destruct (digit_not_sign c) as (H1 & H2 & H3); [by apply andb_true_iff in Hd as [? _]|].
  rewrite H1, H2, H3, (span_digits_all (c :: s)) by done. rewrite Hv.
  replace (LONG_MAX <? n)%Z with false by (unfold LONG_MAX, INT_MAX in *; lia). cbn [orb skip_while].
  replace (n <? 0)%Z with false by lia. by replace (INT_MAX <? n)%Z with false by lia.
Qed.

Lemma WriterMsg_header_end n :
  (0 <= n)%Z -> let hdr := lit "Content-Length: " ++ to_string n in
  findHeaderEnd (hdr ++ CRLF2) = Some (length hdr, 4).
Proof.
  intros Hn hdr. destruct (to_string_nonneg n) as (_ & Hd & _); [lia|].
  assert (Hno : forall c, c = CR \/ c = LF -> c ∉ hdr).
  { intros c Hc. subst hdr. rewrite not_elem_of_app. split.
    - apply find_char_None. by destruct Hc as [-> | ->].
    - apply digits_no; [by destruct Hc; subst c|done]. }
  assert (Hst : forall c p r j, c = CR \/ c = LF -> j < length hdr ->
            starts_with (c :: p) (drop j (hdr ++ r)) = false).
  { intros c p r j Hc Hj. rewrite drop_app_le by lia.
    destruct (drop j hdr) as [|d l] eqn:E; [apply (f_equal length) in E; len|].
    simpl. replace (ceq c d) with false; [done|]. symmetry. apply ceq_false. intros ->.
    apply (Hno d Hc). rewrite <- (take_drop j hdr), E. set_solver. }
  unfold findHeaderEnd.
  assert (Hcr : find_sub CRLF2 (hdr ++ CRLF2) = Some (length hdr)).
  { rewrite <- (app_nil_r CRLF2) at 2. apply find_sub_from_prefix.
    intros j Hj. apply Hst; [by left|done]. }
  assert (Hlf : find_sub LF2 (hdr ++ CRLF2) = None).
  { apply find_sub_None. intros j _. destruct (decide (j < length hdr)) as [Hj|Hj].
    - apply Hst; [by right|done].
    - rewrite drop_app_ge by lia. by destruct (j - length hdr) as [|[|[|[|[|k]]]]]. }
  by rewrite Hcr, Hlf.
Qed.

Lemma WriterMsg_header_length n :
  (0 <= n <= INT_MAX)%Z ->
  contentLength (parseHeaderBlock (lit "Content-Length: " ++ to_string n) Headers_init) = n.
Proof.
  intros Hn. destruct (to_string_nonneg n) as (Hne & Hd & _); [lia|].
  set (hdr := lit "Content-Length: " ++ to_string n).
  assert (Hlf : find_char LF hdr = None).
  { apply find_char_None. subst hdr. rewrite not_elem_of_app.
    split; [by apply find_char_None|by apply digits_no]. }
  assert (Hcr : back_is CR hdr = false).
  { destruct (back_is CR hdr) eqn:E; [|done]. apply back_is_spec in E as [r E].
    assert (Hin : CR ∈ hdr) by (rewrite E; set_solver). exfalso. revert Hin.
    subst hdr. rewrite elem_of_app. intros [Hin|Hin].
    - revert Hin. by apply find_char_None.
    - revert Hin. by apply digits_no. }
  unfold parseHeaderBlock. cbn [parseHeaderBlock_loop]. rewrite Hlf. cbn beta iota zeta.
  rewrite Hcr. unfold parseHeader.
  assert (Hcolon : find_char ":" hdr = Some 14) by reflexivity.
  assert (Htake : take 14 hdr = CONTENT_LENGTH_HEADER) by reflexivity.
  assert (Hdrop : drop (14 + 1) hdr = " "%byte :: to_string n) by reflexivity.
  destruct hdr as [|c0 hdr0]; [done|]. rewrite Hcolon, Htake, Hdrop.
  rewrite bool_decide_eq_true_2 by done. by rewrite parseContentLength_print.
Qed.

(** ** [DelimitedStreamMessageProducer] *)

Definition is_ws (c : byte) : bool := ceq c " " || ceq c TAB || ceq c CR || ceq c LF.

Definition trimWhitespace (line : bytes) : bytes :=
  rev (skip_while is_ws (rev (skip_while is_ws line))).

Section Delimited.
Context {S : Type} `{Istream S} {C : Type}.
Variable callBack : bytes -> C -> C * bool.
Variable maxFrameSize : Z.
Variable overloadHandler : option (bytes -> C -> bool * C).

(** [readLine]: whether a line was read, the line builder, the state *)
Fixpoint readLine (fuel : nat) (p : producer S C) (lineBuilder : bytes)
    : option (bool * bytes * producer S C) :=
  match fuel with
  | 0 => None
  | Datatypes.S fuel' =>
      if negb (keepRunning p) then Some (false, lineBuilder, p)
      else if bad (input p) then
        Some (false, lineBuilder,
              handle p (with_reason (lit "Input stream is bad.") (what (input p))) SEVERE)
      else
        let '(ok, p) :=
          if fail (input p) then
            let p' := handle p (with_reason (lit "Input fail.") (what (input p))) WARNING in
            if need_to_clear_the_state (input p) then (true, set_input p' (clear (input p)))
            else (false, p')
          else (true, p) in
        if negb ok then Some (false, lineBuilder, p)
        else match get (input p) with
             | (None, s) => readLine fuel' (set_running (set_input p s) false) lineBuilder
             | (Some c, s) =>
                 let p := set_input p s in
                 if ceq c LF then
                   match lineBuilder with
                   | [] => readLine fuel' p []
                   | _ => Some (true, lineBuilder ++ [c], p)
                   end
                 else if negb (ceq c CR) then readLine fuel' p (lineBuilder ++ [c])
                 else readLine fuel' p lineBuilder
             end
  end.

Definition delimited_overload_text : bytes :=
  lit "Delimited frame size exceeds configured maximum " ++ to_string maxFrameSize ++ lit ".".

(** [getMessage]: whether a delimiter was found, the collected text *)
Fixpoint getMessage (fuel : nat) (p : producer S C) (json : bytes)
    : option (bool * bytes * producer S C) :=
  match fuel with
  | 0 => None
  | Datatypes.S fuel' =>
      match readLine fuel p [] with
      | None => None
      | Some (false, _, p) => Some (false, json, p)
      | Some (true, line, p) =>
          let line := trimWhitespace line in
          if starts_with (lit "//") line then
            if bool_decide (line = lit "// -----") then Some (true, json, p)
            else getMessage fuel' p json
          else
            let json := json ++ line in
            if negb (maxFrameSize =? 0)%Z && (maxFrameSize <? Z.of_nat (length json))%Z then
              let '(ok, p) := reportOverload overloadHandler delimited_overload_text p in
              if ok then getMessage fuel' p []
              else Some (false, json, set_running p false)
            else getMessage fuel' p json
      end
  end.

Fixpoint delimited_loop (fuel : nat) (p : producer S C) : option (producer S C) :=
  match fuel with
  | 0 => None
  | Datatypes.S fuel' =>
      match getMessage fuel p [] with
      | None => None
      | Some (false, _, p) => Some p
      | Some (true, json, p) =>
          let '(c, stopped) := callBack json (consumer p) in
          let p := set_consumer p c in
          delimited_loop fuel' (if stopped then set_running p false else p)
      end
  end.

(** [DelimitedStreamMessageProducer::listen] *)
Definition delimited_listen (fuel : nat) (p : producer S C) : option (producer S C) :=
  if negb (bound p) then Some p else delimited_loop fuel (set_running p true).
End Delimited.

(** *** Reference: the messages of a list of lines *)

Definition delim_text (raws : list bytes) (tail : bytes) : bytes :=
  concat (map (fun r => r ++ [LF]) raws) ++ tail.

Definition drop_cr (raw : bytes) : bytes := filter (fun c => negb (ceq c CR)) raw.

(** Lines without their carriage returns; empty ones do not count. *)
Definition logical_lines (raws : list bytes) : list bytes :=
  filter (fun l => l <> []) (map drop_cr raws).

Fixpoint next_msg (ls : list bytes) (json : bytes) : option (bytes * list bytes) :=
  match ls with
  | [] => None
  | l :: ls' =>
      let line := trimWhitespace (l ++ [LF]) in
      if starts_with (lit "//") line then
        if bool_decide (line = lit "// -----") then Some (json, ls') else next_msg ls' json
      else next_msg ls' (json ++ line)
  end.

(** The texts between delimiter lines, comment lines left out. *)
Fixpoint delim_messages (ls : list bytes) (json : bytes) : list bytes :=
  match ls with
  | [] => []
  | l :: ls' =>
      let line := trimWhitespace (l ++ [LF]) in
      if starts_with (lit "//") line then
        if bool_decide (line = lit "// -----") then json :: delim_messages ls' []
        else delim_messages ls' json
      else delim_messages ls' (json ++ line)
  end.

Lemma delim_messages_next ls json :
  delim_messages ls json =
  match next_msg ls json with Some (j, ls') => j :: delim_messages ls' [] | None => [] end.
Proof.
  revert json. induction ls as [|l ls IH]; intros json; [done|]. cbn [delim_messages next_msg].
  destruct (starts_with _ _); [|apply IH]. case_bool_decide; [done|apply IH].
Qed.

Lemma logical_lines_cons raw raws :
  logical_lines (raw :: raws) =
  match drop_cr raw with [] => logical_lines raws | l => l :: logical_lines raws end.
Proof.
  unfold logical_lines. cbn [map]. rewrite filter_cons. by destruct (drop_cr raw).
Qed.

Section DelimitedRun.
Context {S : Type} `{Istream S} {alive : S -> Prop} {pending : S -> bytes}.
Context {laws : StreamLaws S alive pending} {C : Type}.
Variable callBack : bytes -> C -> C * bool.
Variable overloadHandler : option (bytes -> C -> bool * C).
Hypothesis callBack_runs : forall b c, (callBack b c).2 = false.

(** A round of [readLine] that finds a byte, and one at the end. *)
Lemma readLine_byte fuel (p : producer S C) lb c rest :
  alive (input p) -> keepRunning p = true -> pending (input p) = c :: rest ->
  exists s, alive s /\ pending s = rest /\
    readLine (Datatypes.S fuel) p lb =
    let p := set_input p s in
    if ceq c LF then
      match lb with [] => readLine fuel p [] | _ => Some (true, lb ++ [c], p) end
    else if negb (ceq c CR) then readLine fuel p (lb ++ [c]) else readLine fuel p lb.
Proof.
  intros Ha Hr Hp. destruct (alive_flags _ Ha) as (Hb & Hf & _).
  pose proof (get_law _ Ha) as Hg. rewrite Hp in Hg. destruct Hg as (s & Hg & Ha' & Hp').
  exists s. split; [done|]. split; [done|]. cbn [readLine].
  rewrite Hr, Hb, Hf. cbn [negb]. cbn beta iota zeta. by rewrite Hg.
Qed.

Lemma readLine_end fuel (p : producer S C) lb :
  alive (input p) -> keepRunning p = true -> pending (input p) = [] ->
  exists p', readLine (Datatypes.S (Datatypes.S fuel)) p lb = Some (false, lb, p') /\
    consumer p' = consumer p /\ issues p' = issues p /\ keepRunning p' = false.
Proof.
  intros Ha Hr Hp. destruct (alive_flags _ Ha) as (Hb & Hf & _).
  pose proof (get_law _ Ha) as Hg. rewrite Hp in Hg.
  remember (Datatypes.S fuel) as k. cbn [readLine]. rewrite Hr, Hb, Hf. cbn [negb].
  cbn beta iota zeta. destruct (get (input p)) as [o s]. simpl in Hg. subst o k.
  cbn [readLine]. eexists. split; [done|]. done.
Qed.

Lemma readLine_line raw fuel (p : producer S C) lb rest :
  alive (input p) -> keepRunning p = true -> LF ∉ raw -> pending (input p) = raw ++ LF :: rest ->
  exists s, alive s /\ pending s = rest /\
    readLine (length raw + 1 + fuel) p lb =
    match lb ++ drop_cr raw with
    | [] => readLine fuel (set_input p s) []
    | l => Some (true, l ++ [LF], set_input p s)
    end.
Proof.
  revert p lb. induction raw as [|c raw IH]; intros p lb Ha Hr Hlf Hp.
  - destruct (readLine_byte fuel p lb LF rest) as (s & Ha' & Hp' & E); [done..|].
    exists s. split; [done|]. split; [done|]. cbn [length Nat.add].
    rewrite E. cbn zeta. rewrite ceq_refl, app_nil_r. by destruct lb.
  - apply not_elem_of_cons in Hlf as [Hc Hlf].
    destruct (readLine_byte (length raw + 1 + fuel) p lb c (raw ++ LF :: rest))
      as (s & Ha' & Hp' & E); [done..|].
    destruct (IH (set_input p s) (lb ++ drop_cr [c])) as (s2 & Ha2 & Hp2 & E2); [done..|].
    exists s2. split; [done|]. split; [done|]. cbn [length Nat.add]. rewrite E. cbn zeta.
    replace (ceq c LF) with false by (symmetry; apply ceq_false; congruence).
    unfold drop_cr in *. rewrite filter_cons, filter_nil in E2. rewrite filter_cons.
    destruct (ceq c CR); simpl in E2 |- *.
    + rewrite app_nil_r in E2. exact E2.
    + rewrite <- app_assoc in E2. exact E2.
Qed.

Lemma readLine_tail tail fuel (p : producer S C) lb :
  alive (input p) -> keepRunning p = true -> LF ∉ tail -> pending (input p) = tail ->
  length tail + 2 <= fuel ->
  exists p' lb', readLine fuel p lb = Some (false, lb', p') /\
    consumer p' = consumer p /\ issues p' = issues p /\ keepRunning p' = false.
Proof.
  revert fuel p lb. induction tail as [|c tail IH]; intros fuel p lb Ha Hr Hlf Hp Hfuel.
  - destruct fuel as [|[|fuel]]; [simpl in Hfuel; lia..|].
    destruct (readLine_end fuel p lb) as (p' & ? & ?); [done..|]. by exists p', lb.
  - apply not_elem_of_cons in Hlf as [Hc Hlf]. destruct fuel as [|fuel]; [simpl in Hfuel; lia|].
    destruct (readLine_byte fuel p lb c tail) as (s & Ha' & Hp' & E); [done..|].
    rewrite E. cbn zeta. replace (ceq c LF) with false by (symmetry; apply ceq_false; congruence).
    simpl in Hfuel. destruct (negb _); apply (IH fuel (set_input p s)); done || lia.
Qed.

Lemma readLine_lines raws tail fuel (p : producer S C) :
  alive (input p) -> keepRunning p = true -> Forall (fun r => LF ∉ r) raws -> LF ∉ tail ->
  pending (input p) = delim_text raws tail -> length (delim_text raws tail) + 2 <= fuel ->
  match logical_lines raws with
  | [] => exists p' lb, readLine fuel p [] = Some (false, lb, p') /\
      consumer p' = consumer p /\ issues p' = issues p /\ keepRunning p' = false
  | l :: ls => exists s raws', readLine fuel p [] = Some (true, l ++ [LF], set_input p s) /\
      alive s /\ pending s = delim_text raws' tail /\ logical_lines raws' = ls /\
      Forall (fun r => LF ∉ r) raws' /\
      length (delim_text raws' tail) < length (delim_text raws tail)
  end.
Proof.
  intros Ha Hr Hall Htail. revert fuel p Ha Hr.
  induction Hall as [|raw raws Hraw Hall IH]; intros fuel p Ha Hr Hp Hfuel.
  - by apply (readLine_tail tail).
  - assert (Hsplit : delim_text (raw :: raws) tail = raw ++ LF :: delim_text raws tail)
      by (unfold delim_text; simpl; by rewrite <- !app_assoc).
    rewrite Hsplit in Hp, Hfuel |- *. rewrite length_app in Hfuel |- *. cbn [length] in Hfuel |- *.
    destruct (readLine_line raw (fuel - (length raw + 1)) p [] (delim_text raws tail))
      as (s & Ha' & Hp' & E); [done..|].
    replace (length raw + 1 + (fuel - (length raw + 1))) with fuel in E by lia.
    rewrite E, logical_lines_cons. cbn [app]. destruct (drop_cr raw) as [|c l].
    + specialize (IH (fuel - (length raw + 1)) (set_input p s) Ha' Hr Hp' ltac:(lia)).
      destruct (logical_lines raws); [exact IH|].
      destruct IH as (s2 & raws' & E2 & H2 & H3 & H4 & H5 & H6). exists s2, raws'.
      split; [exact E2|]. split; [done|]. split; [done|]. split; [done|]. split; [done|lia].
    + exists s, raws. split; [done|]. split; [done|]. split; [done|]. split; [done|]. split; [done|lia].
Qed.

Lemma getMessage_lines ls json raws tail fuel (p : producer S C) :
  logical_lines raws = ls ->
  alive (input p) -> keepRunning p = true -> Forall (fun r => LF ∉ r) raws -> LF ∉ tail ->
  pending (input p) = delim_text raws tail -> length (delim_text raws tail) + 2 <= fuel ->
  match next_msg ls json with
  | None => exists p' j, getMessage 0 overloadHandler fuel p json = Some (false, j, p') /\
      consumer p' = consumer p /\ issues p' = issues p /\ keepRunning p' = false
  | Some (j, ls') => exists s raws',
      getMessage 0 overloadHandler fuel p json = Some (true, j, set_input p s) /\
      alive s /\ pending s = delim_text raws' tail /\ logical_lines raws' = ls' /\
      Forall (fun r => LF ∉ r) raws' /\
      length (delim_text raws' tail) < length (delim_text raws tail)
  end.
Proof.
  revert json raws fuel p. induction ls as [|l ls IH]; intros json raws fuel p Hls Ha Hr Hall Htail Hp Hfuel.
  all: pose proof (readLine_lines raws tail fuel p Ha Hr Hall Htail Hp Hfuel) as Hl;
    rewrite Hls in Hl; (destruct fuel as [|fuel]; [lia|]); cbn [getMessage next_msg].
  - destruct Hl as (p' & lb & -> & Hrest). by exists p', json.
  - destruct Hl as (s & raws1 & -> & Ha1 & Hp1 & Hls1 & Hall1 & Hlen1).
    destruct (starts_with _ _).
    + case_bool_decide.
      * exists s, raws1. done.
      * specialize (IH json raws1 fuel (set_input p s) Hls1 Ha1 Hr Hall1 Htail Hp1 ltac:(lia)).
        destruct (next_msg ls json) as [[j ls']|]; [|exact IH].
        destruct IH as (s2 & raws2 & E2 & ? & ? & ? & ? & ?). exists s2, raws2.
        split; [exact E2|]. do 4 (split; [done|]). lia.
    + cbn [negb andb Z.eqb].
      specialize (IH (json ++ trimWhitespace (l ++ [LF])) raws1 fuel (set_input p s)
                    Hls1 Ha1 Hr Hall1 Htail Hp1 ltac:(lia)).
      destruct (next_msg ls _) as [[j ls']|]; [|exact IH].
      destruct IH as (s2 & raws2 & E2 & ? & ? & ? & ? & ?). exists s2, raws2.
      split; [exact E2|]. do 4 (split; [done|]). lia.
Qed.

Lemma delimited_loop_lines fuel raws tail (p : producer S C) :
  alive (input p) -> keepRunning p = true -> Forall (fun r => LF ∉ r) raws -> LF ∉ tail ->
  pending (input p) = delim_text raws tail -> length (delim_text raws tail) + 2 <= fuel ->
  exists p', delimited_loop callBack 0 overloadHandler fuel p = Some p' /\
    keepRunning p' = false /\ issues p' = issues p /\
    consumer p' = fold_left (fun c b => (callBack b c).1)
                    (delim_messages (logical_lines raws) []) (consumer p).
Proof.
  revert raws p. induction fuel as [|fuel IH]; intros raws p Ha Hr Hall Htail Hp Hfuel; [lia|].
  pose proof (getMessage_lines (logical_lines raws) [] raws tail (Datatypes.S fuel) p eq_refl
                Ha Hr Hall Htail Hp Hfuel) as Hm.
  cbn [delimited_loop]. rewrite delim_messages_next.
  destruct (next_msg (logical_lines raws) []) as [[j ls']|].
  - destruct Hm as (s & raws1 & -> & Ha1 & Hp1 & Hls1 & Hall1 & Hlen1).
    cbn [consumer set_input]. pose proof (callBack_runs j (consumer p)) as Hrun.
    destruct (callBack j (consumer p)) as [c' st] eqn:Ec. simpl in Hrun. subst st.
    destruct (IH raws1 (set_consumer (set_input p s) c')) as (p' & E & H1 & H2 & H3); [done..|lia|].
    exists p'. split; [exact E|]. split; [done|]. split; [done|].
    rewrite H3, Hls1. cbn [fold_left consumer set_consumer]. by rewrite Ec.
  - destruct Hm as (p' & j & -> & H1 & H2 & H3). exists p'. done.
Qed.
End DelimitedRun.

(** * Theorems *)

(** C3. Whatever chunks the stream delivers its bytes in, [listen] processes
    exactly the sequence of header blocks sent, in order, whether they end
    with CR LF or with LF alone: every frame within the limit reaches the
    consumer with exactly its body; an oversized frame is reported and, if
    there is an overload handler and it accepts, skipped without losing the
    frame boundary; a header block without a valid Content-Length is reported
    and skipped.  [listen] returns: at the end of the input, after the frame at
    which the consumer stops it, or at an oversized frame that is not accepted
    (no overload handler, or one that answers false), and then nothing behind
    has an effect. *)
Theorem listen_items {S : Type} `{Istream S} {alive : S -> Prop} {pending : S -> bytes}
    {laws : StreamLaws S alive pending} {C : Type} (callBack : bytes -> C -> C * bool)
    (maxFrameSize : Z) (overloadHandler : option (bytes -> C -> bool * C))
    (items : list item) (fuel : nat) (p : producer S C) :
  bound p = true -> alive (input p) -> Forall item_ok items ->
  pending (input p) = concat (map wire items) -> length (pending (input p)) < fuel ->
  exists p', listen callBack maxFrameSize overloadHandler fuel p = Some p' /\
    keepRunning p' = false /\
    (consumer p', issues p') =
    (fold_left (deliver callBack maxFrameSize overloadHandler) items (true, (consumer p, issues p))).2.
Proof. intros. by apply listen_run. Qed.

(** A consumer that collects the messages. *)
Definition collect (b : bytes) (c : list bytes) : list bytes * bool := (c ++ [b], false).

Definition split_input : stdin_istream :=
  mkStdin true false false false [] []
    [Data (lit "Content-Type: x" ++ [CR; LF] ++ lit "Content-Le"); Timeout;
     Data (lit "ngth: 2" ++ [CR; LF; CR]); PollEintr; Data ([LF] ++ lit "{}Bad"); 
     Data (CRLF2 ++ lit "Content-Length: 9" ++ LF2 ++ lit "1234567");
     Data (lit "89Content-Length:1 " ++ CRLF2 ++ lit "7")].

Definition split_items : list item :=
  [Frame CrLf (lit "Content-Type: x" ++ [CR; LF] ++ lit "Content-Length: 2") (lit "{}");
   Junk CrLf (lit "Bad"); Frame LfOnly (lit "Content-Length: 9") (lit "123456789");
   Frame CrLf (lit "Content-Length:1 ") (lit "7")].

(** The same input with an overload handler that goes on and without one *)
Lemma listen_items_witness :
  (exists p', listen collect 4 (Some (fun m c => (true, c ++ [m]))) 200
      (mkProducer split_input true false [] []) = Some p' /\ keepRunning p' = false /\
    consumer p' = [lit "{}"; lit "LSP frame size 9 exceeds configured maximum 4."; lit "7"]) /\
  (exists p', listen collect 4 None 200 (mkProducer split_input true false [] []) = Some p' /\
    keepRunning p' = false /\ consumer p' = [lit "{}"]).
Proof.
  assert (Hall : Forall item_ok split_items) by (repeat constructor; by vm_compute).
  split.
  - destruct (listen_items collect 4 (Some (fun m c => (true, c ++ [m]))) split_items 200
      (mkProducer split_input true false [] [])) as (p' & H1 & H2 & H3).
    + done.
    + by repeat split.
    + exact Hall.
    + by vm_compute.
    + apply Nat.ltb_lt. by vm_compute.
    + exists p'. split; [exact H1|]. split; [exact H2|].
      apply (f_equal fst) in H3. cbn [fst] in H3. rewrite H3. by vm_compute.
  - destruct (listen_items collect 4 None split_items 200
      (mkProducer split_input true false [] [])) as (p' & H1 & H2 & H3).
    + done.
    + by repeat split.
    + exact Hall.
    + by vm_compute.
    + apply Nat.ltb_lt. by vm_compute.
    + exists p'. split; [exact H1|]. split; [exact H2|].
      apply (f_equal fst) in H3. cbn [fst] in H3. rewrite H3. by vm_compute.
Defined.

(** The frames that [WriterMsg] produces reach any consumer one after the
    other. *)
Lemma listen_written {S : Type} `{Istream S} {alive : S -> Prop} {pending : S -> bytes}
    {laws : StreamLaws S alive pending} {C : Type} (callBack : bytes -> C -> C * bool) (msgs : list bytes) (fuel : nat)
    (p : producer S C) :
  (forall b c, (callBack b c).2 = false) -> bound p = true -> alive (input p) ->
  Forall (fun m => Z.of_nat (length m) <= INT_MAX)%Z msgs ->
  pending (input p) = concat (map WriterMsg msgs) -> length (pending (input p)) < fuel ->
  exists p', listen callBack 0 None fuel p = Some p' /\
    consumer p' = fold_left (fun c b => (callBack b c).1) msgs (consumer p) /\ issues p' = issues p.
Proof.
  intros Hc Hb Ha Hm Hp Hf.
  set (to_item := fun m => Frame CrLf (lit "Content-Length: " ++ to_string (Z.of_nat (length m))) m).
  assert (Hw : map wire (map to_item msgs) = map WriterMsg msgs).
  { rewrite map_map. apply map_ext. intros m. unfold wire, to_item, WriterMsg.
    cbn [item_header item_body item_delim delim]. by rewrite <- app_assoc. }
  destruct (listen_run callBack 0 None (map to_item msgs) fuel p) as (p' & H1 & _ & H3).
  - done.
  - done.
  - apply Forall_fmap. eapply Forall_impl; [exact Hm|]. intros m Hl. cbv beta in Hl. split.
    + apply WriterMsg_header_end. lia.
    + cbn zeta. unfold to_item. cbn [item_header]. rewrite WriterMsg_header_length by lia. done.
  - by rewrite Hw.
  - done.
  - exists p'. split; [done|].
    assert (Hfold : forall c, fold_left (deliver callBack 0 None) (map to_item msgs) (true, (c, issues p))
                              = (true, (fold_left (fun c b => (callBack b c).1) msgs c, issues p))).
    { clear - Hc. induction msgs as [|m msgs IH]; intros c; [done|]. cbn [map fold_left]. rewrite <- IH. f_equal.
      subst to_item. cbn. specialize (Hc m c). destruct (callBack m c) as [c' st]. simpl in Hc. by subst st. }
    rewrite Hfold in H3. by injection H3.
Qed.

(** C2. Round trip of the writer and the reader: when the input consists of
    the frames [WriterMsg] produces for a list of messages (each of at most
    [INT_MAX] bytes, and no frame limit), [listen] hands exactly these
    messages to the consumer, in order, reports no issue and returns. *)
Theorem writer_reader_roundtrip {S : Type} `{Istream S} {alive : S -> Prop} {pending : S -> bytes}
    {laws : StreamLaws S alive pending} (msgs : list bytes) (fuel : nat)
    (p : producer S (list bytes)) :
  bound p = true -> alive (input p) ->
  Forall (fun m => Z.of_nat (length m) <= INT_MAX)%Z msgs ->
  pending (input p) = concat (map WriterMsg msgs) -> length (pending (input p)) < fuel ->
  exists p', listen collect 0 None fuel p = Some p' /\
    consumer p' = consumer p ++ msgs /\ issues p' = issues p.
Proof.
  intros Hb Ha Hm Hp Hf. destruct (listen_written collect msgs fuel p) as (p' & H1 & H2 & H3); [done..|].
  exists p'. split; [done|]. split; [|done]. rewrite H2. generalize (consumer p). clear.
  induction msgs as [|m msgs IH]; intros c; [by rewrite app_nil_r|]. cbn [fold_left]. rewrite IH. cbn.
  by rewrite <- app_assoc.
Qed.

Lemma writer_reader_roundtrip_witness :
  exists p', listen collect 0 None 100
      (mkProducer (mkStdin true false false false [] []
         [Data (WriterMsg (lit "{}") ++ lit "Content-Length: 3" ++ [CR; LF; CR]); Timeout;
          Data ([LF] ++ lit "[1]")]) true false [] []) = Some p' /\
    consumer p' = [lit "{}"; lit "[1]"] /\ issues p' = [].
Proof.
  apply (writer_reader_roundtrip [lit "{}"; lit "[1]"]).
  - done.
  - by repeat split.
  - repeat constructor; unfold INT_MAX; simpl; lia.
  - by vm_compute.
  - apply Nat.ltb_lt. by vm_compute.
Defined.

(** The delimited producer delivers exactly the texts between delimiter
    lines: the trimmed non-comment lines of each, concatenated; carriage
    returns, blank lines and comment lines count for nothing, and what
    follows the last delimiter is dropped when the input ends. *)
Theorem delimited_listen_lines {S : Type} `{Istream S} {alive : S -> Prop} {pending : S -> bytes}
    {laws : StreamLaws S alive pending} {C : Type} (callBack : bytes -> C -> C * bool)
    (overloadHandler : option (bytes -> C -> bool * C))
    (raws : list bytes) (tail : bytes) (fuel : nat) (p : producer S C) :
  (forall b c, (callBack b c).2 = false) ->
  bound p = true -> alive (input p) -> Forall (fun r => LF ∉ r) raws -> LF ∉ tail ->
  pending (input p) = delim_text raws tail -> length (pending (input p)) + 2 <= fuel ->
  exists p', delimited_listen callBack 0 overloadHandler fuel p = Some p' /\
    keepRunning p' = false /\ issues p' = issues p /\
    consumer p' = fold_left (fun c b => (callBack b c).1)
                    (delim_messages (logical_lines raws) []) (consumer p).
Proof.
  intros Hrun Hb Ha Hall Htail Hp Hf. unfold delimited_listen. rewrite Hb. cbn [negb].
  rewrite Hp in Hf.
  apply (delimited_loop_lines callBack overloadHandler Hrun fuel raws tail (set_running p true)); done.
Qed.

Lemma delimited_listen_lines_witness :
  exists p', delimited_listen collect 0 None 100
      (mkProducer (mkStdin true false false false [] []
         [Data (lit " {"); Data ([CR; LF; LF] ++ lit "// note" ++ [LF] ++ lit "} " ++ [LF]);
          Data (lit "// -----" ++ [LF] ++ lit "[]")]) true false [] []) = Some p' /\
    keepRunning p' = false /\ issues p' = [] /\ consumer p' = [lit "{}"].
Proof.
  apply (delimited_listen_lines collect None
    [lit " {" ++ [CR]; []; lit "// note"; lit "} "; lit "// -----"] (lit "[]")).
  - done.
  - done.
  - by repeat split.
  - repeat constructor; by apply find_char_None.
  - by apply find_char_None.
  - by vm_compute.
  - apply Nat.leb_le. by vm_compute.
Defined.

(** With a frame limit and an overload handler that continues, the
    delimited producer clears the text collected so far but not the rest of
    the frame: of the oversized message [aaaa], [bb] it delivers the tail
    [bb] as a message of its own. *)
Theorem delimited_oversize_tail :
  exists p', delimited_listen collect 3 (Some (fun _ c => (true, c))) 100
      (mkProducer (mkStdin true false false false [] []
         [Data (lit "aaaa" ++ [LF] ++ lit "bb" ++ [LF] ++ lit "// -----" ++ [LF])])
         true false [] []) = Some p' /\
    consumer p' = [lit "bb"] /\ length (issues p') = 1.
Proof. eexists. split; [by vm_compute|]. by vm_compute. Qed.
