(* ===== verification/Output.v ===== *)
(** * Output streams and logs

    The interface [lsp::ostream] of include/LibLsp/JsonRpc/stream.h with what a
    writer of messages may rely on, the wrappers of [std::ostream], the pipe
    to a child process, [WriterMsg] (src/jsonrpc/RemoteEndPoint.cpp) over this
    interface, and the logs of MessageIssue.h, which write to [std::cerr]. *)
From S2P Require Import Prelude CppString Stream Process Framing.

(** ** The interface *)
Class Ostream (S : Type) := {
  write : bytes -> S -> S;
  flush : S -> S;
  obad_bit : S -> bool;
  ofail_bit : S -> bool;
  oeof_bit : S -> bool;
  oclear : S -> S;
  owhat_text : S -> bytes
}.

(** [write(std::streamsize)] writes the decimal text. *)
Definition write_number {S} `{Ostream S} (n : Z) (s : S) : S := write (to_string n) s.
(** [stream::operator!] *)
Definition not_usable {S} `{Ostream S} (s : S) : bool := obad_bit s.

(** What a writer may rely on: [sent] is what arrived at the other side, and
    [wrote s w] says that [w] was written since the stream was fresh. *)
Class OstreamLaws (S : Type) `{Ostream S} (sent : S -> bytes) (wrote : S -> bytes -> Prop) := {
  wrote_write : forall s w v, wrote s w -> wrote (write v s) (w ++ v);
  wrote_flush : forall s w, wrote s w -> wrote (flush s) w;
  wrote_prefix : forall s w, wrote s w -> sent s `prefix_of` w;
  wrote_flushed : forall s w, wrote s w -> obad_bit (flush s) = false -> sent (flush s) = w
}.

(** ** [std::ostream]

    A buffer in front of a device.  An insertion may leave everything in the
    buffer, drain it, or fail after some bytes; a flush drains it or fails.  A
    failure sets [badbit], and from then on nothing is inserted. *)
Inductive device_event := Keep | Drain | Break (n : nat).

Record std_ostream := mkStdOut {
  obuffer : bytes;
  device : bytes;
  obadbit : bool;
  ofailbit : bool;
  oevents : list device_event      (** [[]]: no failure any more *)
}.

Definition next_event (s : std_ostream) : device_event * list device_event :=
  match oevents s with [] => (Keep, []) | e :: rest => (e, rest) end.

Definition drain (data : bytes) (rest : list device_event) (s : std_ostream) : std_ostream :=
  mkStdOut [] (device s ++ data) (obadbit s) (ofailbit s) rest.
Definition broken (n : nat) (data : bytes) (rest : list device_event) (s : std_ostream) : std_ostream :=
  mkStdOut [] (device s ++ take n data) true (ofailbit s) rest.

(** [operator<<] *)
Definition std_insert (v : bytes) (s : std_ostream) : std_ostream :=
  if obadbit s || ofailbit s then s
  else match next_event s with
       | (Keep, rest) => mkStdOut (obuffer s ++ v) (device s) (obadbit s) (ofailbit s) rest
       | (Drain, rest) => drain (obuffer s ++ v) rest s
       | (Break n, rest) => broken n (obuffer s ++ v) rest s
       end.
Definition std_flush (s : std_ostream) : std_ostream :=
  if obadbit s || ofailbit s then s
  else match next_event s with
       | (Break n, rest) => broken n (obuffer s) rest s
       | (_, rest) => drain (obuffer s) rest s
       end.
Definition std_oclear (s : std_ostream) : std_ostream := mkStdOut (obuffer s) (device s) false false (oevents s).

(** [base_ostream<std::ostream>] and [standard_ostream]: every call is passed
    on; [what] is empty *)
#[export] Instance standard_ostream : Ostream std_ostream := {
  write := std_insert;
  flush := std_flush;
  obad_bit := obadbit;
  ofail_bit s := obadbit s || ofailbit s;
  oeof_bit _ := false;
  oclear := std_oclear;
  owhat_text _ := []
}.

(** The pipe to the standard input of a child *)
#[export] Instance pipe_Ostream : Ostream pipe_ostream := {
  write := pipe_write;
  flush s := s;
  obad_bit := obad;
  ofail_bit := obad;
  oeof_bit _ := false;
  oclear := opipe_clear;
  owhat_text := owhat
}.

(** ** [WriterMsg] *)
Definition WriterMsg_to {S} `{Ostream S} (s : bytes) (output : S) : S := flush (write (WriterMsg s) output).
Definition WriterMsg_all {S} `{Ostream S} (msgs : list bytes) (output : S) : S :=
  foldl (fun o s => WriterMsg_to s o) output msgs.

(** ** Logs (MessageIssue.h) *)
Class Log (L : Type) := log : Level -> bytes -> L -> L.
Definition log_info {L} `{Log L} (msg : bytes) (l : L) : L := log INFO msg l.
Definition log_error {L} `{Log L} (msg : bytes) (l : L) : L := log SEVERE msg l.
Definition log_warning {L} `{Log L} (msg : bytes) (l : L) : L := log WARNING msg l.

(** [std::cerr << msg << std::endl] *)
Record StderrLog := mkStderr { cerr : std_ostream }.
#[export] Instance StderrLog_log : Log StderrLog :=
  fun _ msg l => mkStderr (std_flush (std_insert [LF] (std_insert msg (cerr l)))).
#[export] Instance NullLog_log : Log unit := fun _ _ l => l.

(** [getText], [getIssueCode] and [toString] of an issue *)
Definition getText (i : MessageIssue) : bytes := text i.
Definition getIssueCode (i : MessageIssue) : Level := code i.
Definition issue_toString (i : MessageIssue) : bytes := getText i.

(** [RemoteEndPoint::handle] of several issues, over any log *)
Definition report {L} `{Log L} (issues : list MessageIssue) (l : L) : L :=
  foldl (fun l i => log (code i) (text i) l) l issues.

(** ** The laws hold *)

(** No insertion has failed for another reason. *)
Definition std_wrote (s : std_ostream) (w : bytes) : Prop :=
  ofailbit s = false /\ if obadbit s then device s `prefix_of` w else device s ++ obuffer s = w.

Lemma prefix_take (n : nat) (a b : bytes) : a ++ take n b `prefix_of` a ++ b.
Proof. exists (drop n b). by rewrite <- app_assoc, take_drop. Qed.

#[export] Instance standard_laws : OstreamLaws std_ostream device std_wrote.
Proof.
  split; unfold std_wrote; cbn [write flush obad_bit standard_ostream].
  - intros s w v [Hf H]. unfold std_insert. rewrite Hf, orb_false_r. destruct (obadbit s) eqn:E.
    + rewrite E, Hf. split; [done|]. by apply prefix_app_r.
    + destruct (next_event s) as [[| |n] rest]; cbn; rewrite ?E, ?Hf; (split; [done|]); subst w.
      * by rewrite <- app_assoc.
      * by rewrite app_nil_r, app_assoc.
      * rewrite <- app_assoc. apply prefix_take.
  - intros s w [Hf H]. unfold std_flush. rewrite Hf, orb_false_r. destruct (obadbit s) eqn:E; [by rewrite E|].
    destruct (next_event s) as [[| |n] rest]; cbn; rewrite ?E, ?Hf; (split; [done|]); subst w.
    + by rewrite app_nil_r.
    + by rewrite app_nil_r.
    + apply prefix_take.
  - intros s w [_ H]. destruct (obadbit s); [done|]. subst w. by exists (obuffer s).
  - intros s w [Hf H]. unfold std_flush. rewrite Hf, orb_false_r. destruct (obadbit s) eqn:E; [by rewrite E|].
    by destruct (next_event s) as [[| |n] rest]; cbn.
Qed.

Definition pipe_wrote (s : pipe_ostream) (w : bytes) : Prop :=
  if obad s then delivered s `prefix_of` w else delivered s = w.

#[export] Instance pipe_laws : OstreamLaws pipe_ostream delivered pipe_wrote.
Proof.
  split; unfold pipe_wrote; cbn [write flush obad_bit pipe_Ostream].
  - intros s w v H. destruct (pipe_output_prefix [v] s) as (k & H1 & H2). cbn [fold_left concat] in *.
    rewrite app_nil_r in *. assert (Hp : delivered s `prefix_of` w) by (destruct (obad s); [done|by subst w]).
    destruct (obad (pipe_write v s)) eqn:E.
    + rewrite H1. destruct (obad s) eqn:Eb; [|subst w; apply prefix_take].
      assert (Hs : delivered (pipe_write v s) = delivered s) by (unfold pipe_write; by rewrite Eb, orb_true_r).
      rewrite <- H1, Hs. by apply prefix_app_r.
    + rewrite (H2 eq_refl). destruct (obad s) eqn:Eb; [|by subst w].
      unfold pipe_write in E. by rewrite Eb, orb_true_r in E.
  - done.
  - intros s w H. by destruct (obad s); [|subst w].
  - intros s w H Hb. by rewrite Hb in H.
Qed.

(** ** Clients of the interface *)
Section Client.
Context {S : Type} `{Ostream S} {sent : S -> bytes} {wrote : S -> bytes -> Prop} `{!OstreamLaws S sent wrote}.

Lemma wrote_all msgs s w : wrote s w -> wrote (WriterMsg_all msgs s) (w ++ concat (map WriterMsg msgs)).
Proof.
  revert s w. induction msgs as [|m msgs IH]; intros s w Hw; cbn [map concat]; [by rewrite app_nil_r|].
  rewrite app_assoc. apply (IH (WriterMsg_to m s)). by apply wrote_flush, wrote_write.
Qed.

Lemma sent_all msgs m s w :
  wrote s w -> obad_bit (WriterMsg_all (msgs ++ [m]) s) = false ->
  sent (WriterMsg_all (msgs ++ [m]) s) = w ++ concat (map WriterMsg (msgs ++ [m])).
Proof.
  intros Hw. unfold WriterMsg_all. rewrite foldl_app. cbn [foldl]. unfold WriterMsg_to at 1 3. intros Hb.
  rewrite (wrote_flushed _ (w ++ concat (map WriterMsg (msgs ++ [m])))); [done| |done].
  rewrite map_app, concat_app, app_assoc. cbn [map concat]. rewrite app_nil_r.
  apply wrote_write. by apply wrote_all.
Qed.
End Client.

Lemma collected (msgs c : list bytes) : fold_left (fun c b => (collect b c).1) msgs c = c ++ msgs.
Proof.
  revert c. induction msgs as [|m msgs IH]; intros c; [by rewrite app_nil_r|]. cbn [fold_left]. rewrite IH. cbn.
  by rewrite <- app_assoc.
Qed.

(** ** Logs: lemmas *)
Definition log_line (i : MessageIssue) : bytes := text i ++ [LF].

Lemma report_wrote issues l w :
  std_wrote (cerr l) w -> std_wrote (cerr (report issues l)) (w ++ concat (map log_line issues)).
Proof.
  revert l w. induction issues as [|i issues IH]; intros l w Hw; cbn [map concat]; [by rewrite app_nil_r|].
  rewrite app_assoc. apply (IH (log (code i) (text i) l)). unfold log_line. rewrite app_assoc.
  exact (wrote_flush _ _ (wrote_write _ _ [LF] (wrote_write _ _ (text i) Hw))).
Qed.

Lemma log_flushed level msg (l : StderrLog) w :
  std_wrote (cerr l) w -> obadbit (cerr (log level msg l)) = false ->
  device (cerr (log level msg l)) = w ++ msg ++ [LF].
Proof.
  intros Hw Hb. rewrite app_assoc. exact (wrote_flushed _ _ (wrote_write _ _ [LF] (wrote_write _ _ msg Hw)) Hb).
Qed.

(** * Theorems *)

(** C5. From one endpoint to the other, over any output stream and any input
    stream that keep their promises: what has arrived is always a prefix of
    the frames of the messages sent, even when the stream breaks in the middle
    of one; and as long as the output stream is not bad, a reader at the other
    end is handed exactly the messages, in order, without an issue. *)
Theorem messages_cross {So Si : Type} `{Ostream So} {sent : So -> bytes} {wrote : So -> bytes -> Prop}
    {olaws : OstreamLaws So sent wrote} `{Istream Si} {alive : Si -> Prop} {pending : Si -> bytes}
    {ilaws : StreamLaws Si alive pending} (msgs : list bytes) (o : So) (p : producer Si (list bytes)) :
  wrote o [] -> Forall (fun m => Z.of_nat (length m) <= INT_MAX)%Z msgs ->
  bound p = true -> alive (input p) -> pending (input p) = sent (WriterMsg_all msgs o) ->
  sent (WriterMsg_all msgs o) `prefix_of` concat (map WriterMsg msgs) /\
  (obad_bit (WriterMsg_all msgs o) = false ->
   exists p', listen collect 0 None (S (length (pending (input p)))) p = Some p' /\
     consumer p' = consumer p ++ msgs /\ issues p' = issues p).
Proof.
  intros Ho Hm Hb Ha Hp. pose proof (wrote_all msgs o [] Ho) as Hw.
  split; [by apply (wrote_prefix _ _ Hw)|]. intros Hok.
  assert (Hs : sent (WriterMsg_all msgs o) = concat (map WriterMsg msgs)).
  { destruct msgs as [|m msgs _] using rev_ind; [|by apply (sent_all msgs m o [] Ho)].
    apply prefix_nil_inv. by apply (wrote_prefix _ _ Hw). }
  destruct (listen_written collect msgs (S (length (pending (input p)))) p) as (p' & H1 & H2 & H3);
    [done|done|done|done|by rewrite Hp|lia|].
  exists p'. split; [done|]. split; [by rewrite H2, collected|done].
Qed.

(** An instance: messages go over the pipe to a child, which takes a few bytes
    at a time, and are
    read from a descriptor, in two chunks. *)
Lemma messages_cross_witness :
  let o := mkOut true false [] [] [Wrote 5; WriteEintr; Wrote 3] in
  let frames := delivered (WriterMsg_all [lit "{}"; lit "[1]"] o) in
  let p := mkProducer (mkStdin true false false false [] [] [Data (take 4 frames); Timeout; Data (drop 4 frames)])
             true true [] [] in
  exists p', listen collect 0 None (S (length (fd_pending (input p)))) p = Some p' /\
    consumer p' = [lit "{}"; lit "[1]"].
Proof.
  intros o frames p.
  destruct (messages_cross (olaws := pipe_laws) (ilaws := fd_StreamLaws) [lit "{}"; lit "[1]"] o p)
    as [_ H].
  - reflexivity.
  - repeat constructor; vm_compute; discriminate.
  - reflexivity.
  - repeat split; vm_compute; reflexivity.
  - vm_compute. reflexivity.
  - destruct H as (p' & H1 & H2 & _); [vm_compute; reflexivity|]. exists p'. by split.
Defined.

(** The standard log has one line per issue, in order; a failure of the device
    cuts it off, and nothing follows the cut. *)
Theorem stderr_log_lines (issues : list MessageIssue) (l : StderrLog) :
  std_wrote (cerr l) [] ->
  let l' := report issues l in
  device (cerr l') `prefix_of` concat (map log_line issues) /\
  (issues <> [] -> obadbit (cerr l') = false -> device (cerr l') = concat (map log_line issues)).
Proof.
  intros Hw l'. pose proof (report_wrote issues l [] Hw) as H. split; [exact (wrote_prefix _ _ H)|].
  destruct issues as [|i issues _] using rev_ind; [done|]. intros _ Hb. subst l'.
  unfold report in *. rewrite foldl_app in *. cbn [foldl] in *.
  rewrite (log_flushed _ _ _ (concat (map log_line issues))); [|exact (report_wrote issues l [] Hw)|done].
  rewrite map_app, concat_app. cbn. by rewrite app_nil_r.
Qed.
