(* ===== verification/Adapters.v ===== *)
(** * Streams over other classes, and signals

    The templates [base_istream] and [base_iostream] of
    include/LibLsp/JsonRpc/stream.h wrap any class with the functions of a
    standard stream: what the wrapped class promises, the wrapper promises.
    Also [make_stdin_stream] and its companions, and the disposition of
    SIGPIPE that a pipe to a child process depends on (src/jsonrpc/Process.cpp). *)
From S2P Require Import Prelude CppString Stream StdStream Process Framing Output.

(** ** [base_istream]

    [what] is left to the derived class.  [read_some] is not overridden: the
    default of [istream] takes one character with [get]. *)
Record base_istream (T : Type) := mkBase { _impl : T }.
Arguments mkBase {T} _.
Arguments _impl {T} _.

Section BaseIstream.
Context {T : Type} `{Istream T} (what_of : T -> bytes).

Definition base_get (s : base_istream T) : option byte * base_istream T :=
  let '(c, t) := get (_impl s) in (c, mkBase t).
Definition base_read (count : nat) (s : base_istream T) : bytes * base_istream T :=
  let '(b, t) := read count (_impl s) in (b, mkBase t).

Definition base_Istream : Istream (base_istream T) := {|
  bad s := bad (_impl s);
  fail s := fail (_impl s);
  eof s := eof (_impl s);
  what s := what_of (_impl s);
  need_to_clear_the_state _ := false;
  clear s := mkBase (clear (_impl s));
  get := base_get;
  read := base_read;
  read_some := default_read_some base_get
|}.
End BaseIstream.

(** A wrapper of a well-behaved stream is one, so that the theorems on framing
    hold for it. *)
Theorem base_istream_laws {T} `{Istream T} (what_of : T -> bytes) (alive : T -> Prop) (pending : T -> bytes) :
  StreamLaws T alive pending ->
  @StreamLaws (base_istream T) (base_Istream what_of) (fun s => alive (_impl s)) (fun s => pending (_impl s)).
Proof.
  intros L.
  assert (Hget : forall s : base_istream T, alive (_impl s) ->
    match pending (_impl s) with
    | [] => (base_get s).1 = None
    | c :: rest => exists s', base_get s = (Some c, s') /\ alive (_impl s') /\ pending (_impl s') = rest
    end).
  { intros [t] Ha. pose proof (get_law t Ha) as Hg. unfold base_get. cbn [_impl] in *.
    destruct (pending t) as [|c rest]; [by destruct (get t)|]. destruct Hg as (t' & -> & Hr). by exists (mkBase t'). }
  constructor.
  - intros [t] Ha. exact (alive_flags (StreamLaws := L) t Ha).
  - exact Hget.
  - intros n [t] Ha Hn. destruct (read_law n t Ha Hn) as (t' & E & Hr). exists (mkBase t'). cbn. unfold base_read.
    cbn [_impl]. by rewrite E.
  - intros n s Ha Hn Hp. specialize (Hget s Ha). cbn [read_some base_Istream]. unfold default_read_some.
    destruct (pending (_impl s)) as [|c rest] eqn:E; [done|]. destruct Hget as (s' & -> & Ha' & Hp').
    exists 1, s'. destruct n; [lia|]. cbn. rewrite take_0, drop_0. split_and!; try done; lia.
  - intros n s Ha Hp. specialize (Hget s Ha). rewrite Hp in Hget. cbn [read_some base_Istream].
    unfold default_read_some. destruct n; [done|]. destruct (base_get s) as [o s']. cbn in Hget. by subst o.
Qed.

(** ** [base_iostream]: both directions over one object *)
Definition base_iostream := base_istream.

Section BaseIostream.
Context {T : Type} `{Istream T} `{Ostream T}.

Definition base_iostream_Ostream : Ostream (base_iostream T) := {|
  write v s := mkBase (write v (_impl s));
  flush s := mkBase (flush (_impl s));
  obad_bit s := obad_bit (_impl s);
  ofail_bit s := ofail_bit (_impl s);
  oeof_bit s := oeof_bit (_impl s);
  oclear s := mkBase (oclear (_impl s));
  owhat_text s := owhat_text (_impl s)
|}.
End BaseIostream.

Theorem base_iostream_laws {T} `{Ostream T} (sent : T -> bytes) (wrote : T -> bytes -> Prop) :
  OstreamLaws T sent wrote ->
  @OstreamLaws (base_iostream T) base_iostream_Ostream (fun s => sent (_impl s)) (fun s => wrote (_impl s)).
Proof.
  intros L. constructor; intros [t] w; cbn.
  - intros v. apply (wrote_write (OstreamLaws := L)).
  - apply (wrote_flush (OstreamLaws := L)).
  - apply (wrote_prefix (OstreamLaws := L)).
  - apply (wrote_flushed (OstreamLaws := L)).
Qed.

(** ** The streams of the process *)

(** [make_istream] and [make_ostream]; [make_stdin_stream] takes the
    descriptor itself on POSIX, [std::cin] on Windows *)
Definition make_istream (stream : std_istream) : standard_istream := mkStandard stream false.
Definition make_ostream (stream : std_ostream) : std_ostream := stream.
Inductive stdin_stream := FromDescriptor (s : stdin_istream) | FromCin (s : standard_istream).
Definition make_stdin_stream (windows : bool) (fd : stdin_istream) (cin : std_istream) : stdin_stream :=
  if windows then FromCin (make_istream cin) else FromDescriptor fd.
Definition make_stdout_stream (cout : std_ostream) : std_ostream := make_ostream cout.

(** ** SIGPIPE *)

Inductive disposition := SIG_DFL | SIG_IGN | Handler (n : nat).
#[export] Instance disposition_eq_dec : EqDecision disposition.
Proof. solve_decision. Defined.

(** The [once_flag] and the disposition of the process *)
Record sigpipe := mkSigpipe { once : bool; action : disposition }.

(** [queried] and [set]: whether the two calls of [sigaction] succeed *)
Definition IgnoreSigPipeIfDefault (queried set : bool) (s : sigpipe) : sigpipe :=
  if once s then s
  else if negb queried then mkSigpipe true (action s)
  else if bool_decide (action s <> SIG_DFL) then mkSigpipe true (action s)
  else mkSigpipe true (if set then SIG_IGN else action s).

(** A write to a pipe that nobody reads: the signal ends the process, or the
    call fails with EPIPE *)
Definition killed_by_write (s : sigpipe) : bool := bool_decide (action s = SIG_DFL).

(** The first write to a child saves the process from SIGPIPE; a handler or
    a disposition that the application has chosen, before or after, is never
    replaced. *)
Theorem sigpipe_handled (queried set : bool) (s : sigpipe) :
  let s' := IgnoreSigPipeIfDefault queried set s in
  once s' = true /\
  (action s <> SIG_DFL -> action s' = action s) /\
  (forall d q t, action (IgnoreSigPipeIfDefault q t (mkSigpipe (once s') d)) = d) /\
  (once s = false -> queried = true -> set = true -> killed_by_write s' = false).
Proof.
  destruct s as [o d]. unfold IgnoreSigPipeIfDefault, killed_by_write. cbn.
  destruct o; cbn; [done|]. destruct queried; cbn; [|done].
  case_bool_decide as Hd; cbn; split_and!; try done.
  - intros _ _ _. by apply bool_decide_eq_false_2.
  - intros _ _ ->. done.
Qed.

(** ** The functions of [Process] without an object *)

(** [Process::exists] on POSIX: [kill(pid, 0)] asks whether a signal could be
    sent; [signalable] is its answer *)
Definition existsImpl (signalable : Z -> bool) (id : Z) : bool := (0 <? id)%Z && signalable id.

(** On other platforms there are no processes: the constructor throws *)
Definition unsupported_start : bytes + Impl := inl (lit "Process helper is not supported on this platform.").
Definition unsupported_checkRunning : bool := false.
Definition unsupported_currentProcessId : Z := (-1)%Z.
Definition unsupported_exists (_ : Z) : bool := false.

(** A process is not asked about with a number that [kill] takes for a group. *)
Theorem exists_no_group (signalable : Z -> bool) (id : Z) : (id <= 0)%Z -> existsImpl signalable id = false.
Proof. intros Hid. unfold existsImpl. by replace (0 <? id)%Z with false by lia. Qed.
