(* ===== verification/MacroMap.v ===== *)
(** * Macros over the members of a struct

    include/LibLsp/JsonRpc/macro_map.h: [MACRO_MAP] applies a macro to each of
    its arguments.  The preprocessor has no loops: the number of arguments is
    counted by shifting a list of numbers, and selects one of seventy macros
    that are written out.  The structs of the protocol are read, written and
    swapped by statements that [MACRO_MAP] makes from the names of their
    members, so that a slip in these macros would drop or repeat a member. *)
From S2P Require Import Prelude CppString.

(** ** Counting arguments *)

(** An argument of a macro: one that the user wrote, or a number *)
Definition token (A : Type) : Type := A + nat.

(** [VISIT_STRUCT_PP_ARG_N(_1, ..., _69, N, ...)] is the seventieth argument. *)
Definition VISIT_STRUCT_PP_ARG_N {A} (args : list (token A)) : option (token A) := args !! 69.

Definition PP_NUMBERS : list nat :=
  [69; 68; 67; 66; 65; 64; 63; 62; 61; 60; 59; 58; 57; 56; 55; 54; 53; 52; 51; 50; 49; 48; 47; 46; 45; 44; 43; 42;
   41; 40; 39; 38; 37; 36; 35; 34; 33; 32; 31; 30; 29; 28; 27; 26; 25; 24; 23; 22; 21; 20; 19; 18; 17; 16; 15; 14;
   13; 12; 11; 10; 9; 8; 7; 6; 5; 4; 3; 2; 1; 0].
Definition VISIT_STRUCT_PP_NARG {A} (args : list A) : option (token A) :=
  VISIT_STRUCT_PP_ARG_N (map inl args ++ map inr PP_NUMBERS).

(** [NUM_VA_ARGS] of serializer.h: the same for thirty arguments *)
Definition NUM_VA_ARGS_IMPL {A} (args : list (token A)) : option (token A) := args !! 30.
Definition NUM_VA_ARGS {A} (args : list A) : option (token A) :=
  NUM_VA_ARGS_IMPL (map inl args ++ map inr
    [30; 29; 28; 27; 26; 25; 24; 23; 22; 21; 20; 19; 18; 17; 16; 15; 14; 13; 12; 11; 10; 9; 8; 7; 6; 5; 4; 3; 2; 1]).

(** ** The macros [VISIT_STRUCT_APPLYF0] to [VISIT_STRUCT_APPLYF69]

    Each is given by the parameters that its text applies [f] to, in order:
    [k] stands for [f(_k)].  [VISIT_STRUCT_APPLYFn] has the parameters [_1] to
    [_n]. *)
Definition APPLYF_0_29 : list (list nat) := [
    [];
    [1];
    [1; 2];
    [1; 2; 3];
    [1; 2; 3; 4];
    [1; 2; 3; 4; 5];
    [1; 2; 3; 4; 5; 6];
    [1; 2; 3; 4; 5; 6; 7];
    [1; 2; 3; 4; 5; 6; 7; 8];
    [1; 2; 3; 4; 5; 6; 7; 8; 9];
    [1; 2; 3; 4; 5; 6; 7; 8; 9; 10];
    [1; 2; 3; 4; 5; 6; 7; 8; 9; 10; 11];
    [1; 2; 3; 4; 5; 6; 7; 8; 9; 10; 11; 12];
    [1; 2; 3; 4; 5; 6; 7; 8; 9; 10; 11; 12; 13];
    [1; 2; 3; 4; 5; 6; 7; 8; 9; 10; 11; 12; 13; 14];
    [1; 2; 3; 4; 5; 6; 7; 8; 9; 10; 11; 12; 13; 14; 15];
    [1; 2; 3; 4; 5; 6; 7; 8; 9; 10; 11; 12; 13; 14; 15; 16];
    [1; 2; 3; 4; 5; 6; 7; 8; 9; 10; 11; 12; 13; 14; 15; 16; 17];
    [1; 2; 3; 4; 5; 6; 7; 8; 9; 10; 11; 12; 13; 14; 15; 16; 17; 18];
    [1; 2; 3; 4; 5; 6; 7; 8; 9; 10; 11; 12; 13; 14; 15; 16; 17; 18; 19];
    [1; 2; 3; 4; 5; 6; 7; 8; 9; 10; 11; 12; 13; 14; 15; 16; 17; 18; 19; 20];
    [1; 2; 3; 4; 5; 6; 7; 8; 9; 10; 11; 12; 13; 14; 15; 16; 17; 18; 19; 20; 21];
    [1; 2; 3; 4; 5; 6; 7; 8; 9; 10; 11; 12; 13; 14; 15; 16; 17; 18; 19; 20; 21; 22];
    [1; 2; 3; 4; 5; 6; 7; 8; 9; 10; 11; 12; 13; 14; 15; 16; 17; 18; 19; 20; 21; 22; 23];
    [1; 2; 3; 4; 5; 6; 7; 8; 9; 10; 11; 12; 13; 14; 15; 16; 17; 18; 19; 20; 21; 22; 23; 24];
    [1; 2; 3; 4; 5; 6; 7; 8; 9; 10; 11; 12; 13; 14; 15; 16; 17; 18; 19; 20; 21; 22; 23; 24; 25];
    [1; 2; 3; 4; 5; 6; 7; 8; 9; 10; 11; 12; 13; 14; 15; 16; 17; 18; 19; 20; 21; 22; 23; 24; 25; 26];
    [1; 2; 3; 4; 5; 6; 7; 8; 9; 10; 11; 12; 13; 14; 15; 16; 17; 18; 19; 20; 21; 22; 23; 24; 25; 26; 27];
    [1; 2; 3; 4; 5; 6; 7; 8; 9; 10; 11; 12; 13; 14; 15; 16; 17; 18; 19; 20; 21; 22; 23; 24; 25; 26; 27; 28];
    [1; 2; 3; 4; 5; 6; 7; 8; 9; 10; 11; 12; 13; 14; 15; 16; 17; 18; 19; 20; 21; 22; 23; 24; 25; 26; 27; 28; 29]].

Definition APPLYF_30_49 : list (list nat) := [
    [1; 2; 3; 4; 5; 6; 7; 8; 9; 10; 11; 12; 13; 14; 15; 16; 17; 18; 19; 20; 21; 22; 23; 24; 25; 26; 27; 28; 29; 30];
    [1; 2; 3; 4; 5; 6; 7; 8; 9; 10; 11; 12; 13; 14; 15; 16; 17; 18; 19; 20; 21; 22; 23; 24; 25; 26; 27; 28; 29; 30;
     31];
    [1; 2; 3; 4; 5; 6; 7; 8; 9; 10; 11; 12; 13; 14; 15; 16; 17; 18; 19; 20; 21; 22; 23; 24; 25; 26; 27; 28; 29; 30;
     31; 32];
    [1; 2; 3; 4; 5; 6; 7; 8; 9; 10; 11; 12; 13; 14; 15; 16; 17; 18; 19; 20; 21; 22; 23; 24; 25; 26; 27; 28; 29; 30;
     31; 32; 33];
    [1; 2; 3; 4; 5; 6; 7; 8; 9; 10; 11; 12; 13; 14; 15; 16; 17; 18; 19; 20; 21; 22; 23; 24; 25; 26; 27; 28; 29; 30;
     31; 32; 33; 34];
    [1; 2; 3; 4; 5; 6; 7; 8; 9; 10; 11; 12; 13; 14; 15; 16; 17; 18; 19; 20; 21; 22; 23; 24; 25; 26; 27; 28; 29; 30;
     31; 32; 33; 34; 35];
    [1; 2; 3; 4; 5; 6; 7; 8; 9; 10; 11; 12; 13; 14; 15; 16; 17; 18; 19; 20; 21; 22; 23; 24; 25; 26; 27; 28; 29; 30;
     31; 32; 33; 34; 35; 36];
    [1; 2; 3; 4; 5; 6; 7; 8; 9; 10; 11; 12; 13; 14; 15; 16; 17; 18; 19; 20; 21; 22; 23; 24; 25; 26; 27; 28; 29; 30;
     31; 32; 33; 34; 35; 36; 37];
    [1; 2; 3; 4; 5; 6; 7; 8; 9; 10; 11; 12; 13; 14; 15; 16; 17; 18; 19; 20; 21; 22; 23; 24; 25; 26; 27; 28; 29; 30;
     31; 32; 33; 34; 35; 36; 37; 38];
    [1; 2; 3; 4; 5; 6; 7; 8; 9; 10; 11; 12; 13; 14; 15; 16; 17; 18; 19; 20; 21; 22; 23; 24; 25; 26; 27; 28; 29; 30;
     31; 32; 33; 34; 35; 36; 37; 38; 39];
    [1; 2; 3; 4; 5; 6; 7; 8; 9; 10; 11; 12; 13; 14; 15; 16; 17; 18; 19; 20; 21; 22; 23; 24; 25; 26; 27; 28; 29; 30;
     31; 32; 33; 34; 35; 36; 37; 38; 39; 40];
    [1; 2; 3; 4; 5; 6; 7; 8; 9; 10; 11; 12; 13; 14; 15; 16; 17; 18; 19; 20; 21; 22; 23; 24; 25; 26; 27; 28; 29; 30;
     31; 32; 33; 34; 35; 36; 37; 38; 39; 40; 41];
    [1; 2; 3; 4; 5; 6; 7; 8; 9; 10; 11; 12; 13; 14; 15; 16; 17; 18; 19; 20; 21; 22; 23; 24; 25; 26; 27; 28; 29; 30;
     31; 32; 33; 34; 35; 36; 37; 38; 39; 40; 41; 42];
    [1; 2; 3; 4; 5; 6; 7; 8; 9; 10; 11; 12; 13; 14; 15; 16; 17; 18; 19; 20; 21; 22; 23; 24; 25; 26; 27; 28; 29; 30;
     31; 32; 33; 34; 35; 36; 37; 38; 39; 40; 41; 42; 43];
    [1; 2; 3; 4; 5; 6; 7; 8; 9; 10; 11; 12; 13; 14; 15; 16; 17; 18; 19; 20; 21; 22; 23; 24; 25; 26; 27; 28; 29; 30;
     31; 32; 33; 34; 35; 36; 37; 38; 39; 40; 41; 42; 43; 44];
    [1; 2; 3; 4; 5; 6; 7; 8; 9; 10; 11; 12; 13; 14; 15; 16; 17; 18; 19; 20; 21; 22; 23; 24; 25; 26; 27; 28; 29; 30;
     31; 32; 33; 34; 35; 36; 37; 38; 39; 40; 41; 42; 43; 44; 45];
    [1; 2; 3; 4; 5; 6; 7; 8; 9; 10; 11; 12; 13; 14; 15; 16; 17; 18; 19; 20; 21; 22; 23; 24; 25; 26; 27; 28; 29; 30;
     31; 32; 33; 34; 35; 36; 37; 38; 39; 40; 41; 42; 43; 44; 45; 46];
    [1; 2; 3; 4; 5; 6; 7; 8; 9; 10; 11; 12; 13; 14; 15; 16; 17; 18; 19; 20; 21; 22; 23; 24; 25; 26; 27; 28; 29; 30;
     31; 32; 33; 34; 35; 36; 37; 38; 39; 40; 41; 42; 43; 44; 45; 46; 47];
    [1; 2; 3; 4; 5; 6; 7; 8; 9; 10; 11; 12; 13; 14; 15; 16; 17; 18; 19; 20; 21; 22; 23; 24; 25; 26; 27; 28; 29; 30;
     31; 32; 33; 34; 35; 36; 37; 38; 39; 40; 41; 42; 43; 44; 45; 46; 47; 48];
    [1; 2; 3; 4; 5; 6; 7; 8; 9; 10; 11; 12; 13; 14; 15; 16; 17; 18; 19; 20; 21; 22; 23; 24; 25; 26; 27; 28; 29; 30;
     31; 32; 33; 34; 35; 36; 37; 38; 39; 40; 41; 42; 43; 44; 45; 46; 47; 48; 49]].

Definition APPLYF_50_59 : list (list nat) := [
    [1; 2; 3; 4; 5; 6; 7; 8; 9; 10; 11; 12; 13; 14; 15; 16; 17; 18; 19; 20; 21; 22; 23; 24; 25; 26; 27; 28; 29; 30;
     31; 32; 33; 34; 35; 36; 37; 38; 39; 40; 41; 42; 43; 44; 45; 46; 47; 48; 49; 50];
    [1; 2; 3; 4; 5; 6; 7; 8; 9; 10; 11; 12; 13; 14; 15; 16; 17; 18; 19; 20; 21; 22; 23; 24; 25; 26; 27; 28; 29; 30;
     31; 32; 33; 34; 35; 36; 37; 38; 39; 40; 41; 42; 43; 44; 45; 46; 47; 48; 49; 50; 51];
    [1; 2; 3; 4; 5; 6; 7; 8; 9; 10; 11; 12; 13; 14; 15; 16; 17; 18; 19; 20; 21; 22; 23; 24; 25; 26; 27; 28; 29; 30;
     31; 32; 33; 34; 35; 36; 37; 38; 39; 40; 41; 42; 43; 44; 45; 46; 47; 48; 49; 50; 51; 52];
    [1; 2; 3; 4; 5; 6; 7; 8; 9; 10; 11; 12; 13; 14; 15; 16; 17; 18; 19; 20; 21; 22; 23; 24; 25; 26; 27; 28; 29; 30;
     31; 32; 33; 34; 35; 36; 37; 38; 39; 40; 41; 42; 43; 44; 45; 46; 47; 48; 49; 50; 51; 52; 53];
    [1; 2; 3; 4; 5; 6; 7; 8; 9; 10; 11; 12; 13; 14; 15; 16; 17; 18; 19; 20; 21; 22; 23; 24; 25; 26; 27; 28; 29; 30;
     31; 32; 33; 34; 35; 36; 37; 38; 39; 40; 41; 42; 43; 44; 45; 46; 47; 48; 49; 50; 51; 52; 53; 54];
    [1; 2; 3; 4; 5; 6; 7; 8; 9; 10; 11; 12; 13; 14; 15; 16; 17; 18; 19; 20; 21; 22; 23; 24; 25; 26; 27; 28; 29; 30;
     31; 32; 33; 34; 35; 36; 37; 38; 39; 40; 41; 42; 43; 44; 45; 46; 47; 48; 49; 50; 51; 52; 53; 54; 55];
    [1; 2; 3; 4; 5; 6; 7; 8; 9; 10; 11; 12; 13; 14; 15; 16; 17; 18; 19; 20; 21; 22; 23; 24; 25; 26; 27; 28; 29; 30;
     31; 32; 33; 34; 35; 36; 37; 38; 39; 40; 41; 42; 43; 44; 45; 46; 47; 48; 49; 50; 51; 52; 53; 54; 55; 56];
    [1; 2; 3; 4; 5; 6; 7; 8; 9; 10; 11; 12; 13; 14; 15; 16; 17; 18; 19; 20; 21; 22; 23; 24; 25; 26; 27; 28; 29; 30;
     31; 32; 33; 34; 35; 36; 37; 38; 39; 40; 41; 42; 43; 44; 45; 46; 47; 48; 49; 50; 51; 52; 53; 54; 55; 56; 57];
    [1; 2; 3; 4; 5; 6; 7; 8; 9; 10; 11; 12; 13; 14; 15; 16; 17; 18; 19; 20; 21; 22; 23; 24; 25; 26; 27; 28; 29; 30;
     31; 32; 33; 34; 35; 36; 37; 38; 39; 40; 41; 42; 43; 44; 45; 46; 47; 48; 49; 50; 51; 52; 53; 54; 55; 56; 57; 58];
    [1; 2; 3; 4; 5; 6; 7; 8; 9; 10; 11; 12; 13; 14; 15; 16; 17; 18; 19; 20; 21; 22; 23; 24; 25; 26; 27; 28; 29; 30;
     31; 32; 33; 34; 35; 36; 37; 38; 39; 40; 41; 42; 43; 44; 45; 46; 47; 48; 49; 50; 51; 52; 53; 54; 55; 56; 57; 58;
     59]].

Definition APPLYF_60_69 : list (list nat) := [
    [1; 2; 3; 4; 5; 6; 7; 8; 9; 10; 11; 12; 13; 14; 15; 16; 17; 18; 19; 20; 21; 22; 23; 24; 25; 26; 27; 28; 29; 30;
     31; 32; 33; 34; 35; 36; 37; 38; 39; 40; 41; 42; 43; 44; 45; 46; 47; 48; 49; 50; 51; 52; 53; 54; 55; 56; 57; 58;
     59; 60];
    [1; 2; 3; 4; 5; 6; 7; 8; 9; 10; 11; 12; 13; 14; 15; 16; 17; 18; 19; 20; 21; 22; 23; 24; 25; 26; 27; 28; 29; 30;
     31; 32; 33; 34; 35; 36; 37; 38; 39; 40; 41; 42; 43; 44; 45; 46; 47; 48; 49; 50; 51; 52; 53; 54; 55; 56; 57; 58;
     59; 60; 61];
    [1; 2; 3; 4; 5; 6; 7; 8; 9; 10; 11; 12; 13; 14; 15; 16; 17; 18; 19; 20; 21; 22; 23; 24; 25; 26; 27; 28; 29; 30;
     31; 32; 33; 34; 35; 36; 37; 38; 39; 40; 41; 42; 43; 44; 45; 46; 47; 48; 49; 50; 51; 52; 53; 54; 55; 56; 57; 58;
     59; 60; 61; 62];
    [1; 2; 3; 4; 5; 6; 7; 8; 9; 10; 11; 12; 13; 14; 15; 16; 17; 18; 19; 20; 21; 22; 23; 24; 25; 26; 27; 28; 29; 30;
     31; 32; 33; 34; 35; 36; 37; 38; 39; 40; 41; 42; 43; 44; 45; 46; 47; 48; 49; 50; 51; 52; 53; 54; 55; 56; 57; 58;
     59; 60; 61; 62; 63];
    [1; 2; 3; 4; 5; 6; 7; 8; 9; 10; 11; 12; 13; 14; 15; 16; 17; 18; 19; 20; 21; 22; 23; 24; 25; 26; 27; 28; 29; 30;
     31; 32; 33; 34; 35; 36; 37; 38; 39; 40; 41; 42; 43; 44; 45; 46; 47; 48; 49; 50; 51; 52; 53; 54; 55; 56; 57; 58;
     59; 60; 61; 62; 63; 64];
    [1; 2; 3; 4; 5; 6; 7; 8; 9; 10; 11; 12; 13; 14; 15; 16; 17; 18; 19; 20; 21; 22; 23; 24; 25; 26; 27; 28; 29; 30;
     31; 32; 33; 34; 35; 36; 37; 38; 39; 40; 41; 42; 43; 44; 45; 46; 47; 48; 49; 50; 51; 52; 53; 54; 55; 56; 57; 58;
     59; 60; 61; 62; 63; 64; 65];
    [1; 2; 3; 4; 5; 6; 7; 8; 9; 10; 11; 12; 13; 14; 15; 16; 17; 18; 19; 20; 21; 22; 23; 24; 25; 26; 27; 28; 29; 30;
     31; 32; 33; 34; 35; 36; 37; 38; 39; 40; 41; 42; 43; 44; 45; 46; 47; 48; 49; 50; 51; 52; 53; 54; 55; 56; 57; 58;
     59; 60; 61; 62; 63; 64; 65; 66];
    [1; 2; 3; 4; 5; 6; 7; 8; 9; 10; 11; 12; 13; 14; 15; 16; 17; 18; 19; 20; 21; 22; 23; 24; 25; 26; 27; 28; 29; 30;
     31; 32; 33; 34; 35; 36; 37; 38; 39; 40; 41; 42; 43; 44; 45; 46; 47; 48; 49; 50; 51; 52; 53; 54; 55; 56; 57; 58;
     59; 60; 61; 62; 63; 64; 65; 66; 67];
    [1; 2; 3; 4; 5; 6; 7; 8; 9; 10; 11; 12; 13; 14; 15; 16; 17; 18; 19; 20; 21; 22; 23; 24; 25; 26; 27; 28; 29; 30;
     31; 32; 33; 34; 35; 36; 37; 38; 39; 40; 41; 42; 43; 44; 45; 46; 47; 48; 49; 50; 51; 52; 53; 54; 55; 56; 57; 58;
     59; 60; 61; 62; 63; 64; 65; 66; 67; 68];
    [1; 2; 3; 4; 5; 6; 7; 8; 9; 10; 11; 12; 13; 14; 15; 16; 17; 18; 19; 20; 21; 22; 23; 24; 25; 26; 27; 28; 29; 30;
     31; 32; 33; 34; 35; 36; 37; 38; 39; 40; 41; 42; 43; 44; 45; 46; 47; 48; 49; 50; 51; 52; 53; 54; 55; 56; 57; 58;
     59; 60; 61; 62; 63; 64; 65; 66; 67; 68; 69]].

Definition VISIT_STRUCT_APPLYF (n : nat) : option (list nat) :=
  (APPLYF_0_29 ++ APPLYF_30_49 ++ APPLYF_50_59 ++ APPLYF_60_69) !! n.

(** A call of the macro: the number of arguments must be right. *)
Definition call_macro {A B} (n : nat) (f : A -> B) (args : list A) : option (list B) :=
  body ← VISIT_STRUCT_APPLYF n;
  if decide (length args = n) then mapM (fun k => f <$> args !! (k - 1)) body else None.

(** [MACRO_MAP(f, ...)]; [None]: the text does not compile.  There is always
    an argument, which may be empty. *)
Definition MACRO_MAP {A B} (f : A -> B) (args : list A) : option (list B) :=
  match VISIT_STRUCT_PP_NARG args with
  | Some (inr n) => call_macro n f args
  | _ => None
  end.

(** ** [MAKE_SWAP_METHOD]

    An object by its members. *)
Section Swap.
Context {V : Type}.
Abbreviation object := (gmap bytes V).

(** [std::swap(name, arg.name);] *)
Definition SWAP_MEMBER (name : bytes) (st : object * object) : object * object :=
  let '(this, arg) := st in
  (partial_alter (fun _ => arg !! name) name this, partial_alter (fun _ => this !! name) name arg).

(** [void swap(type& arg)] *)
Definition swap (names : list bytes) (this arg : object) : option (object * object) :=
  stmts ← MACRO_MAP SWAP_MEMBER names; Some (foldl (fun st stmt => stmt st) (this, arg) stmts).

End Swap.

(** ** Lemmas *)

Lemma shifted_number {A} (args : list A) (numbers : list nat) (n k : nat) :
  length args <= n -> numbers !! (n - length args) = Some k ->
  (map inl args ++ map inr numbers : list (token A)) !! n = Some (inr k).
Proof.
  intros Hl Hk. rewrite lookup_app_r by (rewrite length_map; lia). rewrite length_map.
  change (map inr numbers) with (inr (A := A) <$> numbers). by rewrite list_lookup_fmap, Hk.
Qed.

Lemma own_argument {A} (args : list A) (numbers : list nat) (n : nat) (a : A) :
  args !! n = Some a -> (map inl args ++ map inr numbers : list (token A)) !! n = Some (inl a).
Proof.
  intros Ha. apply lookup_app_l_Some. change (map inl args) with (inl (B := nat) <$> args).
  by rewrite list_lookup_fmap, Ha.
Qed.

Ltac by_table := apply (bool_decide_unpack _); vm_compute; exact I.

Lemma pp_numbers_shift : Forall (fun k => PP_NUMBERS !! (69 - k) = Some k) (seq 0 70).
Proof. by_table. Qed.

Lemma applyf_table : Forall (fun n => VISIT_STRUCT_APPLYF n = Some (seq 1 n)) (seq 0 70).
Proof. by_table. Qed.

Lemma table_entry (P : nat -> Prop) (k n : nat) : Forall P (seq 0 k) -> n < k -> P n.
Proof. intros H Hn. rewrite Forall_forall in H. apply H, elem_of_seq. lia. Qed.

Lemma mapM_positions {A B} (f : A -> B) (args : list A) :
  mapM (fun k => f <$> args !! (k - 1)) (seq 1 (length args)) = Some (map f args).
Proof.
  apply mapM_Some. apply Forall2_same_length_lookup. rewrite length_map, length_seq. split; [done|].
  intros i k b Hk Hb. apply lookup_seq in Hk as [-> Hi]. change (map f args) with (f <$> args) in Hb.
  rewrite list_lookup_fmap in Hb. by replace (1 + i - 1) with i by lia.
Qed.

Lemma pp_narg_length {A} (args : list A) :
  length args <= 69 -> VISIT_STRUCT_PP_NARG args = Some (inr (length args)).
Proof.
  intros Hl. apply shifted_number; [done|].
  apply (table_entry (fun k => PP_NUMBERS !! (69 - k) = Some k) 70); [apply pp_numbers_shift|lia].
Qed.

Lemma pp_narg_too_many {A} (args : list A) :
  69 < length args -> exists a, VISIT_STRUCT_PP_NARG args = Some (inl a).
Proof.
  intros Hl. destruct (lookup_lt_is_Some_2 args 69 Hl) as [a Ha]. exists a. by apply own_argument.
Qed.

Lemma macro_map_ok {A B} (f : A -> B) (args : list A) : length args <= 69 -> MACRO_MAP f args = Some (map f args).
Proof.
  intros Hl. unfold MACRO_MAP. rewrite pp_narg_length by done. unfold call_macro.
  rewrite (table_entry (fun n => VISIT_STRUCT_APPLYF n = Some (seq 1 n)) 70 (length args) applyf_table) by lia.
  cbn [mbind option_bind]. rewrite decide_True by done. apply mapM_positions.
Qed.

(** *** Swaps *)
Section SwapLemmas.
Context {V : Type}.
Implicit Types (this arg : gmap bytes V).

(** What the statements [stmts] make of one member *)
Lemma swap_member_lookup name this arg n :
  let '(this', arg') := SWAP_MEMBER name (this, arg) in
  (this' !! n, arg' !! n) = if decide (n = name) then (arg !! n, this !! n) else (this !! n, arg !! n).
Proof.
  cbn. destruct (decide (n = name)) as [->|Hn]; [by rewrite !lookup_partial_alter_eq|].
  by rewrite !lookup_partial_alter_ne by done.
Qed.

Lemma swap_all_lookup names this arg n :
  let '(this', arg') := foldl (fun st stmt => stmt st) (this, arg) (map SWAP_MEMBER names) in
  (this' !! n, arg' !! n) =
    if Nat.odd (count_occ (decide_rel eq) names n) then (arg !! n, this !! n) else (this !! n, arg !! n).
Proof.
  revert this arg. induction names as [|name names IH]; intros this arg; [done|].
  cbn [map foldl]. pose proof (swap_member_lookup name this arg n) as H1.
  destruct (SWAP_MEMBER name (this, arg)) as [this1 arg1]. specialize (IH this1 arg1).
  destruct (foldl _ (this1, arg1) _) as [this2 arg2]. rewrite IH. cbn [count_occ].
  destruct (decide_rel eq name n) as [->|Hn].
  - rewrite decide_True in H1 by done. injection H1 as -> ->. rewrite Nat.odd_succ, <- Nat.negb_odd.
    by destruct (Nat.odd _).
  - rewrite decide_False in H1 by congruence. injection H1 as -> ->. done.
Qed.
End SwapLemmas.

(** * Theorems *)

(** [MACRO_MAP] applies the macro to each argument, once and in order, for up
    to [max_visitable_members] = 69 arguments; with more it does not compile,
    so that no member is ever dropped silently. *)
Theorem macro_map_exact {A B} (f : A -> B) (args : list A) :
  MACRO_MAP f args = if decide (length args <= 69) then Some (map f args) else None.
Proof.
  case_decide as Hl; [by apply macro_map_ok|]. unfold MACRO_MAP.
  destruct (pp_narg_too_many args) as [a ->]; [lia|done].
Qed.

(** [NUM_VA_ARGS] is the number of its arguments for up to thirty of them;
    with more it is one of the arguments. *)
Theorem num_va_args_bound {A} (args : list A) :
  0 < length args ->
  if decide (length args <= 30) then NUM_VA_ARGS args = Some (inr (length args))
  else exists a, a ∈ args /\ NUM_VA_ARGS args = Some (inl a).
Proof.
  intros Hp. case_decide as Hl.
  - apply shifted_number; [done|].
    assert (Ht : Forall (fun k => 0 < k -> [30; 29; 28; 27; 26; 25; 24; 23; 22; 21; 20; 19; 18; 17; 16; 15; 14; 13;
      12; 11; 10; 9; 8; 7; 6; 5; 4; 3; 2; 1] !! (30 - k) = Some k) (seq 0 31)) by by_table.
    apply (table_entry _ 31 (length args) Ht); lia.
  - destruct (lookup_lt_is_Some_2 args 30) as [a Ha]; [lia|]. exists a.
    split; [by eapply list_elem_of_lookup_2|by apply own_argument].
Qed.

(** The method made by [MAKE_SWAP_METHOD] exchanges exactly the members that
    are listed an odd number of times and leaves all others alone; a member
    that is listed twice stays where it was.  Swapping twice changes nothing. *)
Theorem swap_exchanges {V} (names : list bytes) (this arg : gmap bytes V) :
  length names <= 69 ->
  exists this' arg', swap names this arg = Some (this', arg') /\
    (forall n, (this' !! n, arg' !! n) =
       if Nat.odd (count_occ (decide_rel eq) names n) then (arg !! n, this !! n) else (this !! n, arg !! n)) /\
    swap names this' arg' = Some (this, arg).
Proof.
  intros Hl. unfold swap. rewrite macro_map_ok by done. cbn [mbind option_bind].
  pose proof (swap_all_lookup names this arg) as H.
  destruct (foldl _ (this, arg) _) as [this' arg']. exists this', arg'. split; [done|]. split; [exact H|].
  pose proof (swap_all_lookup names this' arg') as H'.
  destruct (foldl _ (this', arg') _) as [this2 arg2].
  assert (E : forall n, this2 !! n = this !! n /\ arg2 !! n = arg !! n).
  { intros n. specialize (H n). specialize (H' n). destruct (Nat.odd _); injection H as H1 H2; injection H' as H3 H4; split; congruence. }
  do 2 f_equal; apply map_eq; intros n; apply E.
Qed.

Lemma swap_exchanges_witness :
  exists this' arg', swap [lit "a"; lit "b"; lit "b"] (<[lit "a" := 1]> (<[lit "b" := 2]> ∅)) (<[lit "a" := 3]> ∅) =
    Some (this', arg') /\ this' !! lit "a" = Some 3 /\ this' !! lit "b" = Some 2.
Proof.
  destruct (swap_exchanges [lit "a"; lit "b"; lit "b"] (<[lit "a" := 1]> (<[lit "b" := 2]> ∅)) (<[lit "a" := 3]> ∅))
    as (this' & arg' & H1 & H2 & _); [cbn; lia|].
  exists this', arg'. split; [exact H1|]. split.
  - etransitivity; [exact (f_equal fst (H2 (lit "a")))|vm_compute; reflexivity].
  - etransitivity; [exact (f_equal fst (H2 (lit "b")))|vm_compute; reflexivity].
Defined.
