(* ===== verification/Json.v ===== *)
(** * JSON values and their reflection

    The document tree that [JsonReader] walks (include/LibLsp/JsonRpc/json.h),
    the reader and writer of the elementary types
    (src/jsonrpc/serializer.cpp) and of the type constructors
    (include/LibLsp/JsonRpc/serializer.h).

    The text is parsed and printed by rapidjson, which is not modelled: a
    [json] is its document.  The writer's calls ([StartObject], [Key], ...)
    are given by the value they spell. *)
From S2P Require Import Prelude CppString Position.

#[warnings="-register-all"]
Inductive json :=
| JNull
| JBool (b : bool)
| JNumber (z : Z)              (** an integer of the ranges of int64_t and uint64_t *)
| JDouble (text : bytes)       (** any other number, by its text *)
| JString (s : bytes)
| JArray (elems : list json)
| JObject (members : list (bytes * json)).

(** ** [JsonReader] *)

Definition IsNull (j : json) : bool := match j with JNull => true | _ => false end.
Definition IsBool (j : json) : bool := match j with JBool _ => true | _ => false end.
Definition IsString (j : json) : bool := match j with JString _ => true | _ => false end.
Definition IsArray (j : json) : bool := match j with JArray _ => true | _ => false end.

Definition in_range (lo hi z : Z) : bool := (lo <=? z)%Z && (z <=? hi)%Z.

Definition IsInt (j : json) : bool :=
  match j with JNumber z => in_range (- 2 ^ 31) (2 ^ 31 - 1) z | _ => false end.
Definition IsInt64 (j : json) : bool :=
  match j with JNumber z => in_range (- 2 ^ 63) (2 ^ 63 - 1) z | _ => false end.
Definition IsUint64 (j : json) : bool :=
  match j with JNumber z => in_range 0 (2 ^ 64 - 1) z | _ => false end.

(** [GetInt], [GetInt64], [GetUint64]; defined where the test above holds *)
Definition GetNumber (j : json) : Z := match j with JNumber z => z | _ => 0%Z end.
Definition GetBool (j : json) : bool := match j with JBool b => b | _ => false end.

(** [GetString] makes a [std::string] of the [char const*]: it ends at a NUL. *)
Definition GetString (j : json) : bytes := match j with JString s => c_str s | _ => [] end.

Fixpoint FindMember (name : bytes) (ms : list (bytes * json)) : option json :=
  match ms with
  | [] => None
  | (k, v) :: ms' => if bool_decide (k = name) then Some v else FindMember name ms'
  end.

Definition member (j : json) (name : bytes) : option json :=
  match j with JObject ms => FindMember name ms | _ => None end.

Definition HasMember (j : json) (name : bytes) : bool :=
  match member j name with Some _ => true | None => false end.

(** [path_] joined, as [JsonReader::GetPath] does: the last character is
    popped.  [None]: [pop_back] of the empty string is undefined. *)
Definition GetPath (path_ : list bytes) : option bytes :=
  match concat (map (fun t => "/"%byte :: t) path_) with
  | [] => None
  | ret => Some (pop_back ret)
  end.

(** ** Readers

    [Reflect(visitor, value)] is a function of the visitor's node [m_] and of
    the old value.  A thrown exception carries its text and the node that
    [m_] was left at: the iterators restore [m_] only on a normal return. *)
Record exn := mkExn { what_text : bytes; left_at : json }.

Definition throw {A} (msg : bytes) (j : json) : exn + A := inl (mkExn msg j).

Record codec (T : Type) := mkCodec {
  rread : json -> T -> exn + T;
  rwrite : T -> json;
  rinit : T                       (** a default-constructed (or zeroed) [T] *)
}.
Arguments mkCodec {T} _ _ _.
Arguments rread {T} _ _ _.
Arguments rwrite {T} _ _.
Arguments rinit {T} _.

(** [JsonReader::DoMember] *)
Definition DoMember {T} (name : bytes) (fn : json -> T -> exn + T) (j : json) (v : T) : exn + T :=
  match j with
  | JObject ms => match FindMember name ms with Some c => fn c v | None => inr v end
  | _ => inr v
  end.

Fixpoint iter_elems {T} (fn : json -> T -> exn + T) (elems : list json) (v : T) : exn + T :=
  match elems with
  | [] => inr v
  | e :: rest => match fn e v with inl x => inl x | inr v' => iter_elems fn rest v' end
  end.

(** [JsonReader::IterArray] *)
Definition IterArray {T} (fn : json -> T -> exn + T) (j : json) (v : T) : exn + T :=
  match j with
  | JArray elems => iter_elems fn elems v
  | _ => throw (lit "array") j
  end.

(** [(uint8_t)], [(short)] and [(unsigned short)] of an [int], [static_cast<uint32_t>] *)
Definition uwrap (w z : Z) : Z := (z `mod` 2 ^ w)%Z.
Definition swrap (w z : Z) : Z := ((z + 2 ^ (w - 1)) `mod` 2 ^ w - 2 ^ (w - 1))%Z.

Definition read_number (test : json -> bool) (name : bytes) (conv : Z -> Z) (j : json) (_ : Z) : exn + Z :=
  if negb (test j) then throw name j else inr (conv (GetNumber j)).

Definition uint8_codec := mkCodec (read_number IsInt (lit "uint8_t") (uwrap 8)) JNumber 0%Z.
Definition short_codec := mkCodec (read_number IsInt (lit "short") (swrap 16)) JNumber 0%Z.
Definition ushort_codec := mkCodec (read_number IsInt (lit "unsigned short") (uwrap 16)) JNumber 0%Z.
Definition int_codec := mkCodec (read_number IsInt (lit "int") id) JNumber 0%Z.
Definition unsigned_codec := mkCodec (read_number IsUint64 (lit "unsigned") (uwrap 32)) JNumber 0%Z.
Definition long_codec := mkCodec (read_number IsInt64 (lit "long") id) JNumber 0%Z.
Definition ulong_codec := mkCodec (read_number IsUint64 (lit "unsigned long") id) JNumber 0%Z.
Definition longlong_codec := mkCodec (read_number IsInt64 (lit "long long") id) JNumber 0%Z.
Definition ulonglong_codec := mkCodec (read_number IsUint64 (lit "unsigned long long") id) JNumber 0%Z.

Definition bool_codec : codec bool :=
  mkCodec (fun j _ => if negb (IsBool j) then throw (lit "bool") j else inr (GetBool j)) JBool false.

Definition string_codec : codec bytes :=
  mkCodec (fun j _ => if negb (IsString j) then throw (lit "std::string") j else inr (GetString j))
    JString [].

Definition jsonnull_codec : codec unit := mkCodec (fun _ v => inr v) (fun _ => JNull) tt.

Inductive SerializeFormat := Json | MessagePack.

(** The reader looks at [fmt[0]], which is NUL for the empty string. *)
Definition format_codec : codec SerializeFormat :=
  mkCodec (fun j _ => inr (match GetString j with
                           | c :: _ => if ceq c "m" then MessagePack else Json
                           | [] => Json
                           end))
    (fun v => JString (match v with Json => lit "json" | MessagePack => lit "msgpack" end)) Json.

(** *** Type constructors *)

Definition optional_codec {T} (c : codec T) : codec (option T) :=
  mkCodec
    (fun j v => if IsNull j then inr v
                else match rread c j (rinit c) with inl e => inl e | inr x => inr (Some x) end)
    (fun v => match v with Some x => rwrite c x | None => JNull end) None.

(** [Nullable]: null resets the value *)
Definition nullable_codec {T} (c : codec T) : codec (option T) :=
  mkCodec
    (fun j v => if IsNull j then inr None
                else match rread c j (rinit c) with inl e => inl e | inr x => inr (Some x) end)
    (fun v => match v with Some x => rwrite c x | None => JNull end) None.

Definition vector_codec {T} (c : codec T) : codec (list T) :=
  mkCodec
    (IterArray (fun e values => match rread c e (rinit c) with
                                | inl x => inl x
                                | inr x => inr (values ++ [x])
                                end))
    (fun values => JArray (map (rwrite c) values)) [].

(** [ReflectMember(Writer&, name, value)], and for an [optional] value *)
Definition WriteMember {T} (c : codec T) (name : bytes) (v : T) : list (bytes * json) :=
  [(name, rwrite c v)].
Definition WriteOptional {T} (c : codec T) (name : bytes) (v : option T) : list (bytes * json) :=
  match v with Some x => [(name, rwrite c x)] | None => [] end.

(** The generic [std::pair<optional<_Ty1>, optional<_Ty2>>]: the second type
    is tried, and after an exception the first, with the visitor as it is. *)
Definition pair_codec {A B} (c1 : codec A) (c2 : codec B) : codec (option A * option B) :=
  let o1 := optional_codec c1 in let o2 := optional_codec c2 in
  mkCodec
    (fun j '(a, b) =>
       match rread o2 j b with
       | inr b' => inr (a, b')
       | inl e => match rread o1 (left_at e) a with inr a' => inr (a', b) | inl e' => inl e' end
       end)
    (fun '(a, b) => match a with Some _ => rwrite o1 a | None => rwrite o2 b end)
    (None, None).

(** The pairs whose first type is [bool] or [std::string] *)
Definition tagged_pair_codec {A B} (test : json -> bool) (c1 : codec A) (c2 : codec B)
    : codec (option A * option B) :=
  let o1 := optional_codec c1 in let o2 := optional_codec c2 in
  mkCodec
    (fun j '(a, b) =>
       if test j then match rread o1 j a with inr a' => inr (a', b) | inl e => inl e end
       else match rread o2 j b with inr b' => inr (a, b') | inl e => inl e end)
    (rwrite (pair_codec c1 c2)) (None, None).

(** *** The structs [lsPosition] and [lsRange] *)

Definition bind_exn {A B} (m : exn + A) (k : A -> exn + B) : exn + B :=
  match m with inl e => inl e | inr x => k x end.

Definition lsPosition_codec : codec lsPosition :=
  mkCodec
    (fun j v =>
       bind_exn (DoMember (lit "line") (rread unsigned_codec) j (Z.of_N (line v))) (fun l =>
       bind_exn (DoMember (lit "character") (rread unsigned_codec) j (Z.of_N (character v))) (fun c =>
       inr (mkPosition (Z.to_N l) (Z.to_N c)))))
    (fun v => JObject (WriteMember unsigned_codec (lit "line") (Z.of_N (line v)) ++
                       WriteMember unsigned_codec (lit "character") (Z.of_N (character v))))
    (mkPosition 0 0).

Definition lsRange_codec : codec lsRange :=
  mkCodec
    (fun j v =>
       bind_exn (DoMember (lit "start") (rread lsPosition_codec) j (range_start v)) (fun s =>
       bind_exn (DoMember (lit "end") (rread lsPosition_codec) j (range_end v)) (fun e =>
       inr (mkRange s e))))
    (fun v => JObject (WriteMember lsPosition_codec (lit "start") (range_start v) ++
                       WriteMember lsPosition_codec (lit "end") (range_end v)))
    (mkRange (mkPosition 0 0) (mkPosition 0 0)).

(** ** Laws

    [valid] says which values survive: those in the range of their type, and
    strings without NUL. *)
Class Roundtrip {T} (c : codec T) (valid : T -> Prop) :=
  read_back : forall v, valid v -> rread c (rwrite c v) (rinit c) = inr v.

Class NotNull {T} (c : codec T) (valid : T -> Prop) :=
  not_null : forall v, valid v -> IsNull (rwrite c v) = false.

Definition between (lo hi z : Z) : Prop := (lo <= z <= hi)%Z.

Lemma in_range_between lo hi z : between lo hi z -> in_range lo hi z = true.
Proof. unfold between, in_range. intros. apply andb_true_iff. split; lia. Qed.

Lemma in_range_mono lo hi lo' hi' z :
  (lo' <= lo)%Z -> (hi <= hi')%Z -> between lo hi z -> in_range lo' hi' z = true.
Proof. unfold between. intros. apply in_range_between. split; lia. Qed.

Lemma uwrap_id w z : (0 <= w)%Z -> between 0 (2 ^ w - 1) z -> uwrap w z = z.
Proof. unfold between, uwrap. intros. apply Z.mod_small. lia. Qed.

Lemma swrap_id w z :
  (0 < w)%Z -> between (- 2 ^ (w - 1)) (2 ^ (w - 1) - 1) z -> swrap w z = z.
Proof.
  unfold between, swrap. intros Hw Hz.
  assert (2 ^ w = 2 * 2 ^ (w - 1))%Z by (rewrite <- Z.pow_succ_r by lia; f_equal; lia).
  rewrite Z.mod_small by lia. lia.
Qed.

Lemma read_number_ok test name conv z :
  test (JNumber z) = true -> conv z = z -> read_number test name conv (JNumber z) 0 = inr z.
Proof. unfold read_number. intros -> E. cbn [negb GetNumber]. by rewrite E. Qed.

Ltac number_roundtrip :=
  intros z Hz; apply read_number_ok;
  [ apply in_range_mono with (3 := Hz); lia
  | first [ done | by apply uwrap_id | by apply swrap_id ] ].

#[export] Instance uint8_roundtrip : Roundtrip uint8_codec (between 0 (2 ^ 8 - 1)).
Proof. number_roundtrip. Qed.
#[export] Instance short_roundtrip : Roundtrip short_codec (between (- 2 ^ 15) (2 ^ 15 - 1)).
Proof. number_roundtrip. Qed.
#[export] Instance ushort_roundtrip : Roundtrip ushort_codec (between 0 (2 ^ 16 - 1)).
Proof. number_roundtrip. Qed.
#[export] Instance int_roundtrip : Roundtrip int_codec (between (- 2 ^ 31) (2 ^ 31 - 1)).
Proof. number_roundtrip. Qed.
#[export] Instance unsigned_roundtrip : Roundtrip unsigned_codec (between 0 (2 ^ 32 - 1)).
Proof. number_roundtrip. Qed.
#[export] Instance long_roundtrip : Roundtrip long_codec (between (- 2 ^ 63) (2 ^ 63 - 1)).
Proof. number_roundtrip. Qed.
#[export] Instance ulong_roundtrip : Roundtrip ulong_codec (between 0 (2 ^ 64 - 1)).
Proof. number_roundtrip. Qed.
#[export] Instance bool_roundtrip : Roundtrip bool_codec (fun _ => True).
Proof. by intros []. Qed.
#[export] Instance string_roundtrip : Roundtrip string_codec (fun s => NUL ∉ s).
Proof. intros s Hs. simpl. by rewrite c_str_id. Qed.
#[export] Instance format_roundtrip : Roundtrip format_codec (fun _ => True).
Proof. by intros []. Qed.

#[export] Instance unsigned_not_null valid : NotNull unsigned_codec valid.
Proof. by intros ?. Qed.
#[export] Instance string_not_null valid : NotNull string_codec valid.
Proof. by intros ?. Qed.
#[export] Instance vector_not_null {T} (c : codec T) valid : NotNull (vector_codec c) valid.
Proof. by intros ?. Qed.
#[export] Instance lsRange_not_null valid : NotNull lsRange_codec valid.
Proof. by intros ?. Qed.

Definition opt_valid {T} (valid : T -> Prop) (o : option T) : Prop :=
  match o with Some x => valid x | None => True end.

#[export] Instance optional_roundtrip {T} (c : codec T) valid :
  Roundtrip c valid -> NotNull c valid -> Roundtrip (optional_codec c) (opt_valid valid).
Proof.
  intros Hr Hn [x|] Hv; [|done]. simpl. rewrite (Hn _ Hv). by rewrite (Hr _ Hv).
Qed.

#[export] Instance nullable_roundtrip {T} (c : codec T) valid :
  Roundtrip c valid -> NotNull c valid -> Roundtrip (nullable_codec c) (opt_valid valid).
Proof.
  intros Hr Hn [x|] Hv; [|done]. simpl. rewrite (Hn _ Hv). by rewrite (Hr _ Hv).
Qed.

#[export] Instance vector_roundtrip {T} (c : codec T) valid :
  Roundtrip c valid -> Roundtrip (vector_codec c) (Forall valid).
Proof.
  intros Hr values Hv. simpl.
  assert (Hgen : forall acc, iter_elems (fun e values => match rread c e (rinit c) with
      | inl x => inl x | inr x => inr (values ++ [x]) end) (map (rwrite c) values) acc
      = inr (acc ++ values)).
  { induction Hv as [|x values Hx _ IH]; intros acc; simpl; [by rewrite app_nil_r|].
    rewrite (Hr _ Hx), IH. by rewrite <- app_assoc. }
  by rewrite Hgen.
Qed.

Lemma FindMember_elem n ms v : FindMember n ms = Some v -> (n, v) ∈ ms.
Proof.
  induction ms as [|[k w] ms IH]; [done|]. cbn. case_bool_decide; intros [= <-] || intros H'; subst; set_solver.
Qed.

Lemma FindMember_hd name v ms : FindMember name ((name, v) :: ms) = Some v.
Proof. simpl. by rewrite bool_decide_eq_true_2. Qed.

Definition position_valid (p : lsPosition) : Prop := (line p < 2 ^ 32 /\ character p < 2 ^ 32)%N.
Definition range_valid (r : lsRange) : Prop :=
  position_valid (range_start r) /\ position_valid (range_end r).

#[export] Instance lsPosition_roundtrip : Roundtrip lsPosition_codec position_valid.
Proof.
  intros [l c] [Hl Hc]. cbn [line character] in *.
  assert (Hu : forall n, (n < 2 ^ 32)%N ->
            rread unsigned_codec (rwrite unsigned_codec (Z.of_N n)) 0%Z = inr (Z.of_N n))
    by (intros n Hn; apply unsigned_roundtrip; unfold between; lia).
  pose proof (Hu l Hl) as El. pose proof (Hu c Hc) as Ec.
  cbn [rread rwrite rinit lsPosition_codec unsigned_codec] in *. unfold DoMember, WriteMember.
  cbn [app]. rewrite FindMember_hd. cbn [line character rread rwrite unsigned_codec Z.of_N].
  rewrite El. cbn [bind_exn FindMember]. rewrite bool_decide_eq_false_2 by done.
  rewrite bool_decide_eq_true_2 by done. rewrite Ec. cbn [bind_exn]. by rewrite !N2Z.id.
Qed.

#[export] Instance lsRange_roundtrip : Roundtrip lsRange_codec range_valid.
Proof.
  intros [s e] [Hs He]. cbn [range_start range_end] in *.
  pose proof (lsPosition_roundtrip s Hs) as Es.
  pose proof (lsPosition_roundtrip e He) as Ee.
  unfold lsRange_codec. cbn [rread rwrite rinit range_start range_end]. unfold DoMember, WriteMember.
  cbn [app]. rewrite FindMember_hd. change (mkPosition 0 0) with (rinit lsPosition_codec).
  rewrite Es. cbn [bind_exn FindMember]. rewrite bool_decide_eq_false_2 by done.
  rewrite bool_decide_eq_true_2 by done. rewrite Ee. done.
Qed.

(** * Theorems *)

(** Serialisation round trip of composed types: for every type whose
    reader recovers what its writer spells and never spells null, a vector of
    optionals of it (absent elements included) is read back exactly. *)
Theorem reflect_vector_optional {T} (c : codec T) (valid : T -> Prop)
    (values : list (option T)) :
  Roundtrip c valid -> NotNull c valid -> Forall (opt_valid valid) values ->
  let vc := vector_codec (optional_codec c) in
  rread vc (rwrite vc values) (rinit vc) = inr values.
Proof. intros Hr Hn Hv. by apply (vector_roundtrip _ (opt_valid valid) _). Qed.

Lemma reflect_vector_optional_witness :
  let vc := vector_codec (optional_codec lsRange_codec) in
  rread vc (rwrite vc [None; Some (mkRange (mkPosition 1 2) (mkPosition 4294967295 0))]) []
  = inr [None; Some (mkRange (mkPosition 1 2) (mkPosition 4294967295 0))].
Proof.
  apply (reflect_vector_optional lsRange_codec range_valid).
  - apply lsRange_roundtrip.
  - apply lsRange_not_null.
  - repeat constructor.
Defined.

(** The reader of a pair of alternatives retries the first alternative at
    the node where the failed attempt at the second one stopped, because
    [IterArray] does not restore the visitor when an element throws: the
    array [[7]] is accepted as the number 7 of
    [pair<optional<int>, optional<vector<string>>>]. *)
Theorem pair_reader_keeps_position :
  rread (pair_codec int_codec (vector_codec string_codec)) (JArray [JNumber 7]) (None, None)
  = inr (Some 7%Z, None) /\
  rread int_codec (JArray [JNumber 7]) 0%Z = throw (lit "int") (JArray [JNumber 7]).
Proof. done. Qed.
