(* ===== verification/WindowsProcess.v ===== *)
(** * Child processes on Windows

    The Windows branch of src/jsonrpc/Process.cpp: the pipe streams over
    [ReadFile] and [WriteFile], and the life of a child process over a model
    of handles and processes.  The command line is in Process.v. *)
From S2P Require Import Prelude CppString Json Stream Process.
From stdpp Require Import gmap.

Module WinPipe.

(** ** [pipe_istream]

    One event per return of [ReadFile].  When there is nothing left and the
    child has closed its end, [ReadFile] on an anonymous pipe fails
    (ERROR_BROKEN_PIPE); a write of no bytes by the child makes it return
    successfully without bytes. *)
Inductive read_event :=
| ReadOk (chunk : bytes)       (** bytes in the pipe: as many as fit are read *)
| ReadFailed.

Record win_istream := mkIn {
  handle_ : Z;                 (** 0 is [nullptr] *)
  interrupted_ : bool;
  eof_ : bool;
  bad_ : bool;
  what_ : bytes;
  revents : list read_event    (** [[]]: the other end is closed *)
}.

Definition read_failure : bytes := lit "Failed to read from process stdout.".

(** [static_cast<DWORD>(count)] *)
Definition DWORD (count : nat) : nat := Z.to_nat (uwrap 32 (Z.of_nat count)).

Definition win_read_some (count : nat) (s : win_istream) : bytes * win_istream :=
  if (count =? 0) || interrupted_ s || (handle_ s =? 0)%Z then ([], s)
  else match revents s with
       | [] => ([], mkIn (handle_ s) (interrupted_ s) (eof_ s) true read_failure [])
       | ReadFailed :: rest => ([], mkIn (handle_ s) (interrupted_ s) (eof_ s) true read_failure rest)
       | ReadOk chunk :: rest =>
           let rest := match drop (DWORD count) chunk with [] => rest | more => ReadOk more :: rest end in
           match take (DWORD count) chunk with
           | [] => ([], mkIn (handle_ s) (interrupted_ s) true (bad_ s) (what_ s) rest)
           | got => (got, mkIn (handle_ s) (interrupted_ s) (eof_ s) (bad_ s) (what_ s) rest)
           end
       end.

Definition win_get (s : win_istream) : option byte * win_istream :=
  match win_read_some 1 s with
  | ([c], s') => (Some c, s')
  | (_, s') => (None, s')
  end.

(** The loop of [read]; every round but the last stores a byte, so that
    [count] rounds are enough. *)
Fixpoint win_read_loop (fuel count : nat) (s : win_istream) : bytes * win_istream :=
  match fuel with
  | 0 => ([], s)
  | S fuel' =>
      if count =? 0 then ([], s)
      else match win_read_some count s with
           | ([], s') => ([], s')
           | (chunk, s') =>
               let '(more, s'') := win_read_loop fuel' (count - length chunk) s' in
               (chunk ++ more, s'')
           end
  end.
Definition win_read (count : nat) (s : win_istream) : bytes * win_istream := win_read_loop count count s.

Definition win_clear (s : win_istream) : win_istream := mkIn (handle_ s) false false false [] (revents s).
Definition win_what (s : win_istream) : bytes :=
  if interrupted_ s then lit "Process input stream interrupted." else what_ s.
(** [close], without the effect of [CloseHandle] on the system *)
Definition win_close (s : win_istream) : win_istream :=
  mkIn 0 (interrupted_ s) (eof_ s) (bad_ s) (what_ s) (revents s).
Definition win_interrupt (s : win_istream) : win_istream :=
  win_close (mkIn (handle_ s) true (eof_ s) (bad_ s) (what_ s) (revents s)).

#[export] Instance win_Istream : Istream win_istream := {
  bad := bad_;
  fail := interrupted_;
  eof s := eof_ s || interrupted_ s;
  what := win_what;
  need_to_clear_the_state _ := false;
  clear := win_clear;
  get := win_get;
  read := win_read;
  read_some := win_read_some
}.

(** ** [pipe_ostream] *)
Inductive write_result := Written (n : nat) | WriteFailed.

Record win_ostream := mkWOut {
  ohandle : Z;
  obad : bool;
  owhat : bytes;
  taken : bytes;                 (** what went into the pipe *)
  wresults : list write_result   (** [[]]: everything is taken *)
}.

Definition max_chunk : nat := Z.to_nat 2147483647.

(** The pipe takes at most [chunk] bytes per call. *)
Fixpoint win_write_loop (data : bytes) (s : win_ostream) (rs : list write_result) : win_ostream :=
  match data, rs with
  | [], _ => mkWOut (ohandle s) (obad s) (owhat s) (taken s) rs
  | _, [] => mkWOut (ohandle s) (obad s) (owhat s) (taken s ++ data) []
  | _, WriteFailed :: rest =>
      mkWOut (ohandle s) true (lit "Failed to write to process stdin.") (taken s) rest
  | _, Written n :: rest =>
      let n := Nat.min n max_chunk in
      win_write_loop (drop n data)
        (mkWOut (ohandle s) (obad s) (owhat s) (taken s ++ take n data) (wresults s)) rest
  end.

Definition win_write (value : bytes) (s : win_ostream) : win_ostream :=
  if (ohandle s =? 0)%Z then mkWOut 0 true (owhat s) (taken s) (wresults s)
  else win_write_loop value s (wresults s).
Definition win_write_number (value : Z) (s : win_ostream) : win_ostream := win_write (to_string value) s.
Definition wout_clear (s : win_ostream) : win_ostream := mkWOut (ohandle s) false [] (taken s) (wresults s).
Definition wout_close (s : win_ostream) : win_ostream := mkWOut 0 (obad s) (owhat s) (taken s) (wresults s).

(** ** Lemmas *)

Lemma DWORD_small count : (Z.of_nat count < 2 ^ 32)%Z -> DWORD count = count.
Proof. intros H. unfold DWORD, uwrap. rewrite Z.mod_small by lia. lia. Qed.

Definition event_bytes (e : read_event) : bytes := match e with ReadOk chunk => chunk | ReadFailed => [] end.
Definition win_pending (s : win_istream) : bytes := concat (map event_bytes (revents s)).
Definition carries (e : read_event) : bool := match e with ReadOk (_ :: _) => true | _ => false end.

(** The stream is usable and no failure is coming before the end. *)
Definition win_alive (s : win_istream) : Prop :=
  handle_ s <> 0%Z /\ interrupted_ s = false /\ eof_ s = false /\ bad_ s = false /\
  forallb carries (revents s) = true.

Lemma win_read_some_law count s :
  win_alive s -> (0 < Z.of_nat count < 2 ^ 32)%Z -> win_pending s <> [] ->
  exists k s', 0 < k <= count /\ win_read_some count s = (take k (win_pending s), s') /\
    take k (win_pending s) <> [] /\ win_alive s' /\ win_pending s' = drop k (win_pending s).
Proof.
  intros (Hh & Hi & He & Hb & Hev) Hc Hne. unfold win_read_some.
  rewrite (proj2 (Nat.eqb_neq count 0)), Hi, (proj2 (Z.eqb_neq _ _) Hh) by lia. cbn [orb].
  rewrite DWORD_small by lia. unfold win_pending, win_alive in *.
  destruct (revents s) as [|[chunk|] rest]; [done| |done]. cbn [map concat event_bytes forallb carries] in *.
  destruct chunk as [|c chunk]; [done|]. cbn [andb] in Hev.
  destruct (Stream.take_take_drop count (c :: chunk) (concat (map event_bytes rest))) as (k & Hk1 & Hk2 & Hk3 & Hk4); [done|].
  exists k. assert (Hg : take count (c :: chunk) <> []) by (apply Stream.take_nonempty; [lia|done]).
  destruct (take count (c :: chunk)) as [|g got] eqn:Eg; [done|]. eexists.
  split; [split; [apply Hk2|]; lia|]. split; [by rewrite <- Hk3|].
  split; [by rewrite <- Hk3|]. cbn [handle_ interrupted_ eof_ bad_ revents]. rewrite <- Hk4.
  by destruct (drop count (c :: chunk)).
Qed.

Lemma win_read_loop_law fuel count s :
  count <= fuel -> (Z.of_nat count < 2 ^ 32)%Z -> win_alive s -> count <= length (win_pending s) ->
  exists s', win_read_loop fuel count s = (take count (win_pending s), s') /\
    win_alive s' /\ win_pending s' = drop count (win_pending s).
Proof.
  revert count s. induction fuel as [|fuel IH]; intros count s Hf Hd Ha Hc.
  - replace count with 0 by lia. exists s. by rewrite take_0, drop_0.
  - cbn [win_read_loop]. destruct (Nat.eqb_spec count 0) as [->|E0]; [exists s; by rewrite take_0, drop_0|].
    destruct (win_read_some_law count s) as (k & s1 & Hk & H1 & Hne & Ha1 & Hp1);
      [done|lia|by intros Hn; rewrite Hn in Hc; simpl in Hc; lia|].
    assert (Hlen : length (take k (win_pending s)) = k) by (rewrite length_take; lia).
    rewrite H1. destruct (take k (win_pending s)) as [|c l] eqn:Ech; [done|].
    destruct (IH (count - length (c :: l)) s1) as (s2 & H2 & Ha2 & Hp2);
      [lia|lia|done|rewrite Hp1, length_drop; lia|].
    rewrite H2. exists s2. rewrite Hp2, Hp1, Hlen, drop_drop. split; [|split; [done|f_equal; lia]].
    f_equal. rewrite <- Ech. rewrite <- (take_drop k (take count (win_pending s))) at 1.
    rewrite take_take, Nat.min_l by lia. by rewrite skipn_firstn_comm.
Qed.

(** * Theorems *)

(** Reading from a Windows pipe: bytes come in order and unchanged, whatever
    the sizes of the chunks, for counts below 2^32. *)
Theorem win_read_exact (count : nat) (s : win_istream) :
  win_alive s -> (Z.of_nat count < 2 ^ 32)%Z -> count <= length (win_pending s) ->
  exists s', read count s = (take count (win_pending s), s') /\ win_alive s' /\
    win_pending s' = drop count (win_pending s).
Proof. intros. by apply win_read_loop_law. Qed.

(** The regular end of the child's output is reported as an error, not as the
    end of the file: at the end of an anonymous pipe [ReadFile] fails. *)
Theorem win_end_is_bad (s : win_istream) :
  win_alive s -> win_pending s = [] ->
  let s' := (get s).2 in (get s).1 = None /\ bad s' = true /\ eof s' = false /\ what s' = read_failure.
Proof.
  intros (Hh & Hi & He & Hb & Hev) Hp. unfold win_pending in Hp. cbn. unfold win_get, win_read_some.
  rewrite Hi, (proj2 (Z.eqb_neq _ _) Hh). cbn [Nat.eqb orb].
  destruct (revents s) as [|[[|c chunk]|] rest]; try done. cbn. by rewrite He.
Qed.

(** A write of no bytes by the child is taken for the end of its output. *)
Theorem win_empty_write_is_end (h : Z) (rest : list read_event) :
  h <> 0%Z ->
  let s := mkIn h false false false [] (ReadOk [] :: rest) in
  (get s).1 = None /\ eof (get s).2 = true /\ bad (get s).2 = false.
Proof.
  intros Hh. cbn. unfold win_get, win_read_some. cbn [handle_ interrupted_].
  rewrite (proj2 (Z.eqb_neq _ _) Hh). cbn [Nat.eqb orb revents]. by rewrite take_nil.
Qed.

(** A read of a multiple of 2^32 bytes asks the system for none. *)
Theorem win_read_4gib (count : nat) (h : Z) (c : byte) (chunk : bytes) :
  Z.of_nat count = (2 ^ 32)%Z -> h <> 0%Z ->
  let s := mkIn h false false false [] [ReadOk (c :: chunk)] in
  (read_some count s).1 = [] /\ eof (read_some count s).2 = true.
Proof.
  intros Hn Hh. cbn [read_some eof win_Istream]. unfold win_read_some. cbn [handle_ interrupted_ revents].
  rewrite (proj2 (Z.eqb_neq _ _) Hh), (proj2 (Nat.eqb_neq _ _)) by lia. cbn [orb].
  unfold DWORD. rewrite Hn. by cbn.
Qed.

End WinPipe.

Module WinProcess.

(** ** The system

    The handles of this process, each with its object and whether children
    inherit it, and the processes that were created.  A handle is a number
    that is not 0; which free number a new handle gets is not specified. *)
Inductive object := OtherObject (n : Z) | PipeRead (p : nat) | PipeWrite (p : nat) | ProcessOf (pid : Z) | ThreadOf (pid : Z).

Record process := mkProcess {
  inherited : gmap Z object;     (** the handles the program starts with *)
  std_input : Z;
  std_output : Z;
  exit_code : option Z           (** [None] while it runs *)
}.

Record system := mkSystem {
  handles : gmap Z (object * bool);
  processes : gmap Z process;
  next_pipe : nat;
  stray : bool                   (** a close of a handle that is not open *)
}.

Section System.
Variable new_handle : gmap Z (object * bool) -> Z.
Variable MultiByteToWideChar : bytes -> list Z.   (** with the terminating 0; empty on failure *)

Definition set_handles (s : system) (h : gmap Z (object * bool)) : system :=
  mkSystem h (processes s) (next_pipe s) (stray s).
Definition set_processes (s : system) (p : gmap Z process) : system :=
  mkSystem (handles s) p (next_pipe s) (stray s).

(** Both ends are inherited ([bInheritHandle = TRUE]). *)
Definition CreatePipe (s : system) : Z * Z * system :=
  let r := new_handle (handles s) in
  let h := <[r := (PipeRead (next_pipe s), true)]> (handles s) in
  let w := new_handle h in
  (r, w, mkSystem (<[w := (PipeWrite (next_pipe s), true)]> h) (processes s) (S (next_pipe s)) (stray s)).

(** [SetHandleInformation(handle, HANDLE_FLAG_INHERIT, 0)] *)
Definition not_inherited (handle : Z) (s : system) : system :=
  set_handles s (alter (fun e => (e.1, false)) handle (handles s)).

Definition CloseHandle (handle : Z) (s : system) : system :=
  match handles s !! handle with
  | Some _ => set_handles s (delete handle (handles s))
  | None => mkSystem (handles s) (processes s) (next_pipe s) true
  end.
Definition close_all (l : list Z) (s : system) : system := foldl (fun s h => CloseHandle h s) s l.

Definition inherit (h : gmap Z (object * bool)) : gmap Z object :=
  omap (fun e : object * bool => if e.2 then Some e.1 else None) h.

(** A new process with its two handles, [hProcess] and [hThread] *)
Definition CreateProcessW (pid hin hout : Z) (s : system) : Z * Z * system :=
  let p := mkProcess (inherit (handles s)) hin hout None in
  let hp := new_handle (handles s) in
  let h := <[hp := (ProcessOf pid, false)]> (handles s) in
  let ht := new_handle h in
  (hp, ht, mkSystem (<[ht := (ThreadOf pid, false)]> h) (<[pid := p]> (processes s)) (next_pipe s) (stray s)).

Definition STILL_ACTIVE : Z := 259.

Definition process_of (handle : Z) (s : system) : option Z :=
  match handles s !! handle with Some (ProcessOf pid, _) => Some pid | _ => None end.

Definition GetExitCodeProcess (handle : Z) (s : system) : option Z :=
  pid ← process_of handle s; p ← processes s !! pid; Some (default STILL_ACTIVE (exit_code p)).

(** The process ends, unless it has ended already. *)
Definition end_process (code : Z) (p : process) : process :=
  mkProcess (inherited p) (std_input p) (std_output p) (Some (default code (exit_code p))).
Definition TerminateProcess (handle code : Z) (s : system) : system :=
  match process_of handle s with
  | Some pid => set_processes s (alter (end_process code) pid (processes s))
  | None => s
  end.
(** [WaitForSingleObject] returns when the process has ended; [code] is the
    exit code it then chooses *)
Definition WaitForSingleObject (handle code : Z) (s : system) : system := TerminateProcess handle code s.

(** ** [Process::Impl] *)
Record Impl := mkImpl {
  hProcess : Z;
  process_id : Z;
  input_handle : Z;              (** [handle_] of [input_stream], 0 when closed *)
  output_handle : Z              (** [handle_] of [output_stream] *)
}.

Definition toWide (value : bytes) : bytes + list Z :=
  match value with
  | [] => inr []
  | _ => match MultiByteToWideChar (c_str value) with
         | [] => inl (lit "Failed to convert process command line.")
         | wide => inr (if (List.last wide 0 =? 0)%Z then removelast wide else wide)
         end
  end.

(** The command line, in the order of the conversions *)
Fixpoint wide_arguments (args : list bytes) : bytes + list (list Z) :=
  match args with
  | [] => inr []
  | a :: args =>
      match toWide a with
      | inl e => inl e
      | inr w => match wide_arguments args with inl e => inl e | inr ws => inr (w :: ws) end
      end
  end.
Definition command (executable : bytes) (args : list bytes) : bytes + list Z :=
  match toWide executable with
  | inl e => inl e
  | inr w => match wide_arguments args with inl e => inl e | inr ws => inr (Windows.command_line w ws) end
  end.

(** What the system calls of the constructor return *)
Record outcomes := mkOutcomes {
  pipe_in : bool; configure_in : bool; pipe_out : bool; configure_out : bool;
  created : option Z              (** the process id *)
}.

Definition Impl_start (executable : bytes) (args : list bytes) (o : outcomes) (s : system)
    : (bytes + Impl) * system :=
  match command executable args with
  | inl e => (inl e, s)
  | inr _ =>
  if negb (pipe_in o) then (inl (lit "Failed to create stdin pipe."), s) else
  let '(stdin_read, stdin_write, s) := CreatePipe s in
  if negb (configure_in o)
  then (inl (lit "Failed to configure stdin pipe."), close_all [stdin_read; stdin_write] s) else
  let s := not_inherited stdin_write s in
  if negb (pipe_out o)
  then (inl (lit "Failed to create stdout pipe."), close_all [stdin_read; stdin_write] s) else
  let '(stdout_read, stdout_write, s) := CreatePipe s in
  let all := [stdin_read; stdin_write; stdout_read; stdout_write] in
  if negb (configure_out o)
  then (inl (lit "Failed to configure stdout pipe."), close_all all s) else
  let s := not_inherited stdout_read s in
  match created o with
  | None => (inl (lit "Failed to start process."), close_all all s)
  | Some pid =>
      let '(hp, ht, s) := CreateProcessW pid stdin_read stdout_write s in
      (inr (mkImpl hp pid stdout_read stdin_write), close_all [stdin_read; stdout_write; ht] s)
  end
  end.

(** [close] of a stream *)
Definition close_stream (handle : Z) (s : system) : system :=
  if (handle =? 0)%Z then s else CloseHandle handle s.
Definition close_streams (i : Impl) (s : system) : Impl * system :=
  (mkImpl (hProcess i) (process_id i) 0 0, close_stream (output_handle i) (close_stream (input_handle i) s)).

(** [CloseHandle(process_info.hProcess)] and the resets after it *)
Definition forget (i : Impl) (s : system) : Impl * system :=
  (mkImpl 0 (-1) (input_handle i) (output_handle i), CloseHandle (hProcess i) s).

Definition checkRunning (i : Impl) (s : system) : bool * Impl * system :=
  if (hProcess i =? 0)%Z then (false, i, s)
  else match GetExitCodeProcess (hProcess i) s with
       | Some code =>
           if (code =? STILL_ACTIVE)%Z then (true, i, s)
           else let '(i, s) := forget i s in let '(i, s) := close_streams i s in (false, i, s)
       | None => (true, i, s)
       end.

Definition wait (code : Z) (i : Impl) (s : system) : Impl * system :=
  let '(running, i, s) := checkRunning i s in
  if running then
    let '(i, s) := close_streams i s in forget i (WaitForSingleObject (hProcess i) code s)
  else (i, s).

Definition terminate (i : Impl) (s : system) : Impl * system :=
  let '(running, i, s) := checkRunning i s in
  if running then
    let '(i, s) := close_streams i s in
    forget i (WaitForSingleObject (hProcess i) 0 (TerminateProcess (hProcess i) 0 s))
  else (i, s).

(** [Process::~Process] *)
Definition destroy (i : Impl) (s : system) : Impl * system :=
  let '(running, i, s) := checkRunning i s in
  if running then terminate i s else (i, s).

(** *** The class [Process]: [impl_] is null in an object that was moved from *)
Definition Process_isRunning (impl_ : option Impl) (s : system) : bool * option Impl * system :=
  match impl_ with
  | Some i => let '(r, i, s) := checkRunning i s in (r, Some i, s)
  | None => (false, None, s)
  end.
Definition Process_wait (code : Z) (impl_ : option Impl) (s : system) : option Impl * system :=
  match impl_ with Some i => let '(i, s) := wait code i s in (Some i, s) | None => (None, s) end.
Definition Process_terminate (impl_ : option Impl) (s : system) : option Impl * system :=
  match impl_ with Some i => let '(i, s) := terminate i s in (Some i, s) | None => (None, s) end.
Definition Process_id (impl_ : option Impl) : Z := match impl_ with Some i => process_id i | None => -1 end.
(** [input()] and [output()]: the streams, by their handles *)
Definition Process_input (impl_ : option Impl) : option Z := input_handle <$> impl_.
Definition Process_output (impl_ : option Impl) : option Z := output_handle <$> impl_.
Definition Process_destroy (impl_ : option Impl) (s : system) : system :=
  match impl_ with Some i => (destroy i s).2 | None => s end.
(** Move construction and move assignment; the second component is what is
    left in [other] *)
Definition Process_move (other : option Impl) : option Impl * option Impl := (other, None).
Definition Process_assign (impl_ other : option Impl) (s : system) : option Impl * option Impl * system :=
  (Process_move other, Process_destroy impl_ s).

(** [input()->interrupt()] *)
Definition interrupt_input (i : Impl) (s : system) : Impl * system :=
  (mkImpl (hProcess i) (process_id i) 0 (output_handle i), close_stream (input_handle i) s).

(** [Process::exists]; [opened] says whether [OpenProcess] succeeds, and its
    handle is closed again *)
Definition exists_process (opened : bool) (id : Z) (s : system) : bool * system :=
  if opened then
    let h := new_handle (handles s) in
    (true, CloseHandle h (set_handles s (<[h := (ProcessOf id, false)]> (handles s))))
  else (false, s).

(** ** Ownership *)

Hypothesis handle_free : forall h, h !! new_handle h = None.
Hypothesis handle_not_null : forall h, new_handle h <> 0%Z.

(** The handles [l] are open, and without them the handles are [H]. *)
Definition owns (l : list Z) (s : system) (H : gmap Z (object * bool)) : Prop :=
  NoDup l /\ (forall h, h ∈ l -> is_Some (handles s !! h) /\ H !! h = None) /\
  (forall h, h ∉ l -> handles s !! h = H !! h).

#[local] Instance owns_perm : Proper ((≡ₚ) ==> eq ==> eq ==> iff) owns.
Proof. intros l l' Hl s _ <- H _ <-. unfold owns. by setoid_rewrite Hl. Qed.

Lemma owns_permute l l' s H : owns l s H -> l ≡ₚ l' -> owns l' s H.
Proof. intros Ho Hl. by rewrite <- Hl. Qed.

Lemma owns_nil s H : owns [] s H <-> handles s = H.
Proof.
  split.
  - intros (_ & _ & E). apply map_eq. intros h. apply E. by apply not_elem_of_nil.
  - intros <-. split; [constructor|]. split; [by intros h ?%not_elem_of_nil|done].
Qed.

Lemma owns_close h l s H :
  owns (h :: l) s H ->
  owns l (CloseHandle h s) H /\ handles (CloseHandle h s) = delete h (handles s) /\
  processes (CloseHandle h s) = processes s /\ next_pipe (CloseHandle h s) = next_pipe s /\
  stray (CloseHandle h s) = stray s.
Proof.
  intros ([Hh Hn]%NoDup_cons & Ho & E). destruct (Ho h) as [[e He] Hf]; [by left|].
  unfold CloseHandle. rewrite He. cbn. split; [|done]. split; [done|]. cbn. split.
  - intros x Hx. destruct (Ho x) as [Hs Hx']; [by right|]. by rewrite lookup_delete_ne by set_solver.
  - intros x Hx. destruct (decide (x = h)) as [->|Hne]; [by rewrite lookup_delete_eq|].
    rewrite lookup_delete_ne by done. apply E. set_solver.
Qed.

Lemma owns_close_all l l' s H :
  owns (l ++ l') s H ->
  owns l' (close_all l s) H /\ processes (close_all l s) = processes s /\ stray (close_all l s) = stray s.
Proof.
  revert s. induction l as [|h l IH]; intros s Ho; [done|].
  apply owns_close in Ho as (Ho & _ & Hp & _ & Hs). destruct (IH _ Ho) as (H1 & H2 & H3).
  cbn. rewrite <- Hp, <- Hs. done.
Qed.

Lemma owns_insert l s H e ps n b :
  owns l s H ->
  owns (new_handle (handles s) :: l) (mkSystem (<[new_handle (handles s) := e]> (handles s)) ps n b) H.
Proof.
  intros (Hn & Ho & E). pose proof (handle_free (handles s)) as Hf.
  assert (Hl : new_handle (handles s) ∉ l) by (intros Hin; destruct (Ho _ Hin) as [[x Hx] _]; congruence).
  split; [by constructor|]. cbn. split.
  - intros h [->|Hh]%elem_of_cons; [rewrite lookup_insert_eq, <- (E _ Hl); by eauto|].
    rewrite lookup_insert_ne by set_solver. by apply Ho.
  - intros h Hh. rewrite lookup_insert_ne by set_solver. apply E. set_solver.
Qed.

Lemma owns_pipe l s H r w s' :
  owns l s H -> CreatePipe s = (r, w, s') ->
  owns (w :: r :: l) s' H /\ r <> 0%Z /\ w <> 0%Z /\ r <> w /\ processes s' = processes s /\ stray s' = stray s /\
  handles s' = <[w := (PipeWrite (next_pipe s), true)]> (<[r := (PipeRead (next_pipe s), true)]> (handles s)) /\
  handles s !! r = None /\ handles s !! w = None /\ next_pipe s' = S (next_pipe s).
Proof.
  intros Ho [= <- <- <-]. cbn [processes stray handles].
  pose proof (handle_free (handles s)) as F1.
  pose proof (handle_free (<[new_handle (handles s) := (PipeRead (next_pipe s), true)]> (handles s))) as F2.
  apply lookup_insert_None in F2 as [F2 Fne].
  split; [|by rewrite F2; auto 12].
  exact (owns_insert _ _ H _ _ _ _ (owns_insert l s H (PipeRead (next_pipe s), true) (processes s) 0 false Ho)).
Qed.

Lemma owns_not_inherited l s H h : h ∈ l -> owns l s H -> owns l (not_inherited h s) H.
Proof.
  intros Hin (Hn & Ho & E). split; [done|]. cbn. split.
  - intros x Hx. split; [|by apply Ho]. rewrite lookup_alter_is_Some. by apply Ho.
  - intros x Hx. rewrite lookup_alter_ne by set_solver. by apply E.
Qed.

(** ** The life of a process object *)

Definition nz (l : list Z) : list Z := filter (fun h => h <> 0%Z) l.
Definition owned (i : Impl) : list Z := nz [hProcess i; input_handle i; output_handle i].

(** The object holds its handles; [pid] is its child, which has ended once the
    object has forgotten it; the other processes are [P]. *)
Record holds (pid : Z) (i : Impl) (s : system) (H : gmap Z (object * bool)) (P : gmap Z process) : Prop := {
  holds_owns : owns (owned i) s H;
  holds_child : exists p, processes s !! pid = Some p /\ (hProcess i = 0%Z -> is_Some (exit_code p));
  holds_others : forall q, q <> pid -> processes s !! q = P !! q;
  holds_handle : hProcess i <> 0%Z -> process_of (hProcess i) s = Some pid;
  holds_nothing : hProcess i = 0%Z -> input_handle i = 0%Z /\ output_handle i = 0%Z
}.

Lemma nz_cons h l : nz (h :: l) = if decide (h = 0%Z) then nz l else h :: nz l.
Proof.
  unfold nz. destruct (decide (h = 0%Z)) as [->|Hh]; [by rewrite filter_cons_False by tauto|].
  by rewrite filter_cons_True.
Qed.

(** Closing a stream does not disturb the other handles. *)
Lemma close_stream_spec h l s H :
  owns (nz (h :: l)) s H ->
  owns (nz l) (close_stream h s) H /\ processes (close_stream h s) = processes s /\
  stray (close_stream h s) = stray s /\
  (forall x, x ∈ nz l -> process_of x (close_stream h s) = process_of x s).
Proof.
  rewrite nz_cons. unfold close_stream. destruct (decide (h = 0%Z)) as [->|Hh]; [done|].
  rewrite (proj2 (Z.eqb_neq _ _) Hh). intros Ho. pose proof Ho as ([Hn _]%NoDup_cons & _).
  apply owns_close in Ho as (Ho & Hd & Hp & _ & Hs). split; [done|]. split; [done|]. split; [done|].
  intros x Hx. unfold process_of. rewrite Hd, lookup_delete_ne by set_solver. done.
Qed.

Lemma windows_close_streams_spec i s H i' s' :
  owns (owned i) s H -> close_streams i s = (i', s') ->
  i' = mkImpl (hProcess i) (process_id i) 0 0 /\ owns (owned i') s' H /\ processes s' = processes s /\
  stray s' = stray s /\ (hProcess i <> 0%Z -> process_of (hProcess i) s' = process_of (hProcess i) s).
Proof.
  intros Ho [= <- <-]. split; [done|]. unfold owned in *. cbn [hProcess input_handle output_handle].
  assert (Ho' : owns (nz [input_handle i; output_handle i; hProcess i]) s H).
  { eapply owns_permute; [exact Ho|]. unfold nz. apply filter_Permutation. solve_Permutation. }
  apply close_stream_spec in Ho' as (Ho1 & Hp1 & Hs1 & Hx1).
  apply close_stream_spec in Ho1 as (Ho2 & Hp2 & Hs2 & Hx2).
  rewrite Hs2, Hs1, Hp2, Hp1. split; [|split; [done|split; [done|]]].
  - revert Ho2. rewrite !nz_cons. by destruct (decide (hProcess i = 0%Z)).
  - intros Hh. rewrite Hx2, Hx1; [done| |]; rewrite !nz_cons, (decide_False (P := hProcess i = 0%Z)) by done;
      repeat case_decide; set_solver.
Qed.

(** Forgetting an ended child when the streams are closed already or not *)
Lemma forget_spec i s H :
  owns (owned i) s H -> hProcess i <> 0%Z ->
  owns (owned (forget i s).1) (forget i s).2 H /\ processes (forget i s).2 = processes s /\
  stray (forget i s).2 = stray s.
Proof.
  intros Ho Hh. unfold owned in *. cbn [forget fst snd hProcess input_handle output_handle].
  rewrite nz_cons, decide_False in Ho by done. apply owns_close in Ho as (Ho & _ & Hp & _ & Hs).
  rewrite (nz_cons 0), decide_True by done. done.
Qed.

Lemma windows_checkRunning_spec pid i s H P r i' s' :
  holds pid i s H P -> checkRunning i s = (r, i', s') ->
  holds pid i' s' H P /\ stray s' = stray s /\
  if r then i' = i /\ s' = s /\ hProcess i <> 0%Z else hProcess i' = 0%Z.
Proof.
  intros Hh. unfold checkRunning. destruct (Z.eqb_spec (hProcess i) 0) as [E|E]; [by intros [= <- <- <-]|].
  destruct Hh as [Ho (p & Hp & _) Hq Hof _]. specialize (Hof E).
  unfold GetExitCodeProcess. rewrite Hof. cbn [mbind option_bind]. rewrite Hp. cbn [mbind option_bind].
  destruct (Z.eqb_spec (default STILL_ACTIVE (exit_code p)) STILL_ACTIVE) as [Ec|Ec].
  { intros [= <- <- <-]. split; [|done]. split; [done| |done|done|done]. exists p. split; [done|]. by intros ?. }
  assert (Hx : is_Some (exit_code p)) by (destruct (exit_code p); [by eexists|done]).
  destruct (forget_spec i s H Ho E) as (Ho1 & Hp1 & Hs1). destruct (forget i s) as [i1 s1] eqn:Ef.
  assert (E1 : hProcess i1 = 0%Z) by (by injection Ef as <- <-). cbn [fst snd] in *.
  destruct (close_streams i1 s1) as [i2 s2] eqn:Es.
  destruct (windows_close_streams_spec i1 s1 H i2 s2 Ho1 Es) as (-> & Ho2 & Hp2 & Hs2 & _).
  intros [= <- <- <-]. cbn [hProcess]. rewrite E1. split; [|split; [congruence|done]].
  split; rewrite ?Hp2, ?Hp1; cbn [hProcess input_handle output_handle]; try done; [by rewrite E1 in Ho2|by exists p].
Qed.

Lemma end_process_ended code p : is_Some (exit_code (end_process code p)).
Proof. by eexists. Qed.

(** The end of [wait] and [terminate]: [f] ends the child *)
Lemma finish_spec pid i s H P i1 s1 (f : process -> process) :
  holds pid i s H P -> hProcess i <> 0%Z -> close_streams i s = (i1, s1) -> (forall p, is_Some (exit_code (f p))) ->
  let s2 := set_processes s1 (alter f pid (processes s1)) in
  process_of (hProcess i1) s1 = Some pid /\
  holds pid (forget i1 s2).1 (forget i1 s2).2 H P /\ stray (forget i1 s2).2 = stray s /\
  hProcess (forget i1 s2).1 = 0%Z.
Proof.
  intros [Ho (p & Hp & _) Hq Hof _] E Es Hf s2.
  destruct (windows_close_streams_spec i s H i1 s1 Ho Es) as (-> & Ho1 & Hp1 & Hs1 & Hof1). cbn [hProcess].
  split; [by rewrite Hof1, Hof|].
  assert (Ho2 : owns (owned (mkImpl (hProcess i) (process_id i) 0 0)) s2 H) by done.
  destruct (forget_spec _ s2 H Ho2 E) as (Ho3 & Hp3 & Hs3). rewrite Hs3. cbn [stray s2 set_processes].
  split; [|by split]. split; [done| | |done|done].
  - exists (f p). rewrite Hp3. cbn [processes s2 set_processes]. by rewrite lookup_alter_eq, Hp1, Hp.
  - intros q Hne. rewrite Hp3. cbn [processes s2 set_processes]. rewrite lookup_alter_ne by done. rewrite Hp1. by apply Hq.
Qed.

Lemma alter_twice {A} (f : A -> A) (k : Z) (m : gmap Z A) :
  alter f k (alter f k m) = alter (fun x => f (f x)) k m.
Proof.
  apply map_eq. intros x. destruct (decide (x = k)) as [->|Hx].
  - rewrite !lookup_alter_eq. by destruct (m !! k).
  - by rewrite !lookup_alter_ne by done.
Qed.

Lemma windows_wait_spec code pid i s H P :
  holds pid i s H P ->
  holds pid (wait code i s).1 (wait code i s).2 H P /\ stray (wait code i s).2 = stray s.
Proof.
  intros Hh. unfold wait. destruct (checkRunning i s) as [[r i1] s1] eqn:Er.
  destruct (windows_checkRunning_spec _ _ _ _ _ _ _ _ Hh Er) as (H1 & Hs1 & Hr). destruct r; [|done].
  destruct Hr as (-> & -> & E). destruct (close_streams i s) as [i2 s2] eqn:Es.
  destruct (finish_spec pid i s H P i2 s2 (end_process code) Hh E Es (end_process_ended code)) as (Hof & H2 & Hs2 & _).
  unfold WaitForSingleObject, TerminateProcess. rewrite Hof. done.
Qed.

Lemma windows_terminate_spec pid i s H P :
  holds pid i s H P ->
  holds pid (terminate i s).1 (terminate i s).2 H P /\ stray (terminate i s).2 = stray s /\
  hProcess (terminate i s).1 = 0%Z.
Proof.
  intros Hh. unfold terminate. destruct (checkRunning i s) as [[r i1] s1] eqn:Er.
  destruct (windows_checkRunning_spec _ _ _ _ _ _ _ _ Hh Er) as (H1 & Hs1 & Hr). destruct r; [|done].
  destruct Hr as (-> & -> & E). destruct (close_streams i s) as [i2 s2] eqn:Es.
  destruct (finish_spec pid i s H P i2 s2 (fun p => end_process 0 (end_process 0 p)) Hh E Es
    ltac:(intros p; apply end_process_ended)) as (Hof & H2 & Hs2 & Hz).
  unfold WaitForSingleObject, TerminateProcess at 1 2. rewrite Hof.
  assert (Hof' : process_of (hProcess i2) (set_processes s2 (alter (end_process 0) pid (processes s2))) = Some pid) by done.
  unfold TerminateProcess. rewrite Hof, Hof'. cbn [processes set_processes].
  by rewrite alter_twice.
Qed.

Lemma windows_destroy_spec pid i s H P :
  holds pid i s H P ->
  holds pid (destroy i s).1 (destroy i s).2 H P /\ stray (destroy i s).2 = stray s /\
  hProcess (destroy i s).1 = 0%Z.
Proof.
  intros Hh. unfold destroy. destruct (checkRunning i s) as [[r i1] s1] eqn:Er.
  destruct (windows_checkRunning_spec _ _ _ _ _ _ _ _ Hh Er) as (H1 & Hs1 & Hr). destruct r; [|done].
  destruct Hr as (-> & -> & E). by apply windows_terminate_spec.
Qed.

Lemma interrupt_spec pid i s H P :
  holds pid i s H P ->
  holds pid (interrupt_input i s).1 (interrupt_input i s).2 H P /\ stray (interrupt_input i s).2 = stray s.
Proof.
  intros [Ho Hc Hq Hof Hn]. cbn [interrupt_input fst snd].
  assert (Ho' : owns (nz [input_handle i; hProcess i; output_handle i]) s H).
  { eapply owns_permute; [exact Ho|]. unfold owned, nz. apply filter_Permutation. solve_Permutation. }
  apply close_stream_spec in Ho' as (Ho1 & Hp1 & Hs1 & Hx1). split; [|done].
  split; cbn [hProcess input_handle output_handle]; rewrite ?Hp1; try done.
  - intros E. rewrite Hx1; [by apply Hof|]. rewrite nz_cons, decide_False by done. by left.
  - intros E. by destruct (Hn E).
Qed.

Lemma close_all_everything l s H :
  owns l s H ->
  handles (close_all l s) = H /\ processes (close_all l s) = processes s /\ stray (close_all l s) = stray s.
Proof. rewrite <- (app_nil_r l) at 1. intros (Hn%owns_nil & H1 & H2)%owns_close_all. done. Qed.

Lemma close_all_lookup l s h : h ∉ l -> handles (close_all l s) !! h = handles s !! h.
Proof.
  revert s. induction l as [|x l IH]; intros s Hh; [done|]. cbn. fold (close_all l (CloseHandle x s)).
  rewrite IH by set_solver. unfold CloseHandle. destruct (handles s !! x) eqn:E; [|done]. cbn.
  rewrite lookup_delete_ne by set_solver. done.
Qed.

(** The last part of the constructor *)
Lemma created_spec pid r1 w1 r2 w2 s H hp ht s' :
  owns [r1; w1; r2; w2] s H -> w1 <> 0%Z -> r2 <> 0%Z -> CreateProcessW pid r1 w2 s = (hp, ht, s') ->
  holds pid (mkImpl hp pid r2 w1) (close_all [r1; w2; ht] s') H (processes s) /\
  stray (close_all [r1; w2; ht] s') = stray s.
Proof.
  intros Ho Hw Hr [= Ehp Eht Es']. pose proof (handle_not_null (handles s)) as Hz. rewrite Ehp in Hz.
  assert (Ho' : owns (ht :: hp :: [r1; w1; r2; w2]) s' H).
  { clear Hz. subst hp ht s'.
    exact (owns_insert _ _ H _ _ _ _ (owns_insert _ s H (ProcessOf pid, false) (processes s) 0 false Ho)). }
  assert (Hne : hp ∉ [r1; w2; ht]) by (destruct Ho' as (Hn & _); apply NoDup_cons in Hn as [? Hn];
    apply NoDup_cons in Hn as [? _]; set_solver).
  assert (Ho2 : owns ([r1; w2; ht] ++ [hp; r2; w1]) s' H)
    by (eapply owns_permute; [exact Ho'|solve_Permutation]).
  destruct (owns_close_all _ _ _ _ Ho2) as (Ho3 & Hp3 & Hs3). rewrite Hs3. split; [|by rewrite <- Es'].
  split; cbn [hProcess input_handle output_handle]; rewrite ?Hp3; try done.
  - unfold owned. cbn [hProcess input_handle output_handle]. by rewrite !nz_cons, !decide_False by done.
  - rewrite <- Es'. cbn. rewrite lookup_insert_eq. by eexists.
  - intros q Hq. rewrite <- Es'. cbn. by rewrite lookup_insert_ne by done.
  - intros _. unfold process_of. rewrite close_all_lookup by done. rewrite <- Es'. cbn [handles]. rewrite Eht, Ehp.
    rewrite lookup_insert_ne, lookup_insert_eq by set_solver. done.
Qed.

(** A start that fails takes nothing; one that succeeds holds the process and
    the two streams. *)
Lemma windows_start_spec executable args o s :
  match Impl_start executable args o s with
  | (inl _, s') => handles s' = handles s /\ processes s' = processes s /\ stray s' = stray s
  | (inr i, s') => exists pid, created o = Some pid /\ process_id i = pid /\
      holds pid i s' (handles s) (processes s) /\ stray s' = stray s
  end.
Proof.
  unfold Impl_start. destruct (command executable args); [done|].
  assert (Ho : owns [] s (handles s)) by (by apply owns_nil).
  destruct (pipe_in o); [cbn [negb]|done].
  destruct (CreatePipe s) as [[r1 w1] s1] eqn:E1.
  destruct (owns_pipe _ _ _ _ _ _ Ho E1) as (Ho1 & _ & Hw1 & _ & Hp1 & Hs1 & _).
  apply (owns_permute _ [r1; w1]) in Ho1; [|solve_Permutation].
  rewrite <- Hp1, <- Hs1. destruct (configure_in o); cbn [negb]; [|by apply close_all_everything].
  apply (owns_not_inherited _ _ _ w1) in Ho1; [|set_solver].
  destruct (pipe_out o); cbn [negb]; [|by apply (close_all_everything _ (not_inherited w1 s1))].
  destruct (CreatePipe (not_inherited w1 s1)) as [[r2 w2] s2] eqn:E2.
  destruct (owns_pipe _ _ _ _ _ _ Ho1 E2) as (Ho2 & Hr2 & _ & _ & Hp2 & Hs2 & _).
  cbn [processes stray not_inherited set_handles] in Hp2, Hs2. rewrite <- Hp2, <- Hs2.
  assert (Ho3 : owns [r1; w1; r2; w2] s2 (handles s)) by (eapply owns_permute; [exact Ho2|solve_Permutation]).
  destruct (configure_out o); cbn [negb]; [|by apply close_all_everything].
  apply (owns_not_inherited _ _ _ r2) in Ho3; [|set_solver].
  destruct (created o) as [pid|]; [|by apply (close_all_everything _ (not_inherited r2 s2))].
  destruct (CreateProcessW pid r1 w2 (not_inherited r2 s2)) as [[hp ht] s3] eqn:E3.
  exists pid. do 2 (split; [done|]).
  by apply (created_spec pid r1 w1 r2 w2 (not_inherited r2 s2) (handles s) hp ht s3).
Qed.

(** *** The rest of the program

    Between the operations the rest of the program may open and close handles
    that the object does not hold and start other processes; the child may end
    at any time, with any exit code. *)
Inductive event :=
| OpIsRunning | OpWait (code : Z) | OpTerminate | OpInterrupt
| ChildEnds (code : Z)
| EnvHandle (h : Z) (e : option (object * bool))
| EnvProcess (q : Z) (p : option process).

Definition run_event (pid : Z) (e : event) (st : Impl * system) : option (Impl * system) :=
  let '(i, s) := st in
  match e with
  | OpIsRunning => let '(_, i, s) := checkRunning i s in Some (i, s)
  | OpWait code => Some (wait code i s)
  | OpTerminate => Some (terminate i s)
  | OpInterrupt => Some (interrupt_input i s)
  | ChildEnds code => Some (i, set_processes s (alter (end_process code) pid (processes s)))
  | EnvHandle h e =>
      if bool_decide (h ∈ owned i) then None
      else Some (i, set_handles s (partial_alter (fun _ => e) h (handles s)))
  | EnvProcess q p =>
      if bool_decide (q = pid) then None
      else Some (i, set_processes s (partial_alter (fun _ => p) q (processes s)))
  end.

Fixpoint run_events (pid : Z) (evs : list event) (st : Impl * system) : option (Impl * system) :=
  match evs with [] => Some st | e :: evs => run_event pid e st ≫= run_events pid evs end.

(** What the rest of the program alone would have made of the handles *)
Definition env_handles (evs : list event) (H : gmap Z (object * bool)) : gmap Z (object * bool) :=
  foldl (fun H e => match e with EnvHandle h e => partial_alter (fun _ => e) h H | _ => H end) H evs.
Definition env_processes (evs : list event) (P : gmap Z process) : gmap Z process :=
  foldl (fun P e => match e with EnvProcess q p => partial_alter (fun _ => p) q P | _ => P end) P evs.

Lemma process_of_other h x e s :
  x <> h -> process_of x (set_handles s (partial_alter (fun _ => e) h (handles s))) = process_of x s.
Proof. intros Hx. unfold process_of. cbn. by rewrite lookup_partial_alter_ne by done. Qed.

Lemma windows_run_event_spec pid e i s H P i' s' :
  holds pid i s H P -> run_event pid e (i, s) = Some (i', s') ->
  holds pid i' s' (env_handles [e] H) (env_processes [e] P) /\ stray s' = stray s.
Proof.
  intros Hh. destruct e as [|code| | |code|h e|q p]; cbn [run_event env_handles env_processes foldl].
  - destruct (checkRunning i s) as [[r i1] s1] eqn:Er. intros [= <- <-].
    by destruct (windows_checkRunning_spec _ _ _ _ _ _ _ _ Hh Er) as (? & ? & _).
  - intros [= E]. pose proof (windows_wait_spec code pid i s H P Hh) as Hw. by rewrite E in Hw.
  - intros [= E]. destruct (windows_terminate_spec pid i s H P Hh) as (H1 & H2 & _). by rewrite E in H1, H2.
  - intros [= <- <-]. by apply interrupt_spec.
  - intros [= <- <-]. split; [|done]. destruct Hh as [Ho (p & Hp & Hx) Hq Hof Hn]. split; try done; cbn [processes set_processes].
    + exists (end_process code p). rewrite lookup_alter_eq, Hp. split; [done|]. intros _. apply end_process_ended.
    + intros q Hne. rewrite lookup_alter_ne by done. by apply Hq.
  - case_bool_decide as Hown; [done|]. intros [= <- <-]. split; [|done].
    destruct Hh as [(Hn & Ho & E) Hc Hq Hof Hz]. split; try done.
    + split; [done|]. cbn [handles set_handles]. split.
      * intros x Hx. rewrite !lookup_partial_alter_ne by congruence. by apply Ho.
      * intros x Hx. destruct (decide (x = h)) as [->|Hne]; [by rewrite !lookup_partial_alter_eq|].
        rewrite !lookup_partial_alter_ne by done. by apply E.
    + intros Hne. rewrite process_of_other; [by apply Hof|]. intros Ex. apply Hown. unfold owned.
      rewrite nz_cons, decide_False, Ex by done. by left.
  - case_bool_decide as Hown; [done|]. intros [= <- <-]. split; [|done].
    destruct Hh as [Ho (p' & Hp & Hx) Hq Hof Hn]. split; try done; cbn [processes set_processes].
    + exists p'. by rewrite lookup_partial_alter_ne by done.
    + intros x Hne. destruct (decide (x = q)) as [->|Hxq]; [by rewrite !lookup_partial_alter_eq|].
      rewrite !lookup_partial_alter_ne by done. by apply Hq.
Qed.

Lemma windows_run_events_spec pid evs i s H P i' s' :
  holds pid i s H P -> run_events pid evs (i, s) = Some (i', s') ->
  holds pid i' s' (env_handles evs H) (env_processes evs P) /\ stray s' = stray s.
Proof.
  revert i s H P. induction evs as [|e evs IH]; intros i s H P Hh Hr; [by injection Hr as <- <-|].
  cbn [run_events] in Hr. apply bind_Some in Hr as ([i1 s1] & E & Hr).
  destruct (windows_run_event_spec pid e i s H P i1 s1 Hh E) as [H1 Hs1].
  destruct (IH i1 s1 _ _ H1 Hr) as [H2 Hs2]. split; [exact H2|congruence].
Qed.

(** * Theorems *)

(** On Windows, too, a process object leaves no trace: whatever is done with
    it and whatever the rest of the program does meanwhile, after its
    destructor every handle it opened is closed, no other handle was closed,
    and its child has ended.  A start that fails leaves everything as it was. *)
Theorem windows_process_leaves_no_trace (executable : bytes) (args : list bytes) (o : outcomes) (s : system) :
  match Impl_start executable args o s with
  | (inl _, s') => handles s' = handles s /\ processes s' = processes s /\ stray s' = stray s
  | (inr i, s1) => exists pid, created o = Some pid /\
      forall evs i2 s2, run_events pid evs (i, s1) = Some (i2, s2) ->
      let s3 := (destroy i2 s2).2 in
      handles s3 = env_handles evs (handles s) /\ stray s3 = stray s /\
      (exists p, processes s3 !! pid = Some p /\ is_Some (exit_code p)) /\
      (forall q, q <> pid -> processes s3 !! q = env_processes evs (processes s) !! q)
  end.
Proof.
  pose proof (windows_start_spec executable args o s) as Hs.
  destruct (Impl_start executable args o s) as [[e|i] s1]; [done|].
  destruct Hs as (pid & Hc & _ & Hh & Hs). exists pid. split; [done|]. intros evs i2 s2 Hr s3.
  destruct (windows_run_events_spec pid evs i s1 _ _ i2 s2 Hh Hr) as [H2 Hs2].
  destruct (windows_destroy_spec pid i2 s2 _ _ H2) as ([Ho (p & Hp & Hx) Hq _ Hn] & Hs3 & Hz). subst s3.
  destruct (Hn Hz) as [Hi Hout]. unfold owned in Ho. rewrite Hz, Hi, Hout, !nz_cons in Ho. cbn in Ho.
  split; [by apply owns_nil|]. split; [congruence|]. split; [|done]. exists p. auto.
Qed.

(** The handles when the child is created *)
Lemma pipes_inherited (h : gmap Z (object * bool)) r1 w1 r2 w2 n :
  r1 <> w1 -> r2 <> w2 -> h !! r1 = None -> h !! w1 = None ->
  let h1 := alter (fun e => (e.1, false)) w1 (<[w1 := (PipeWrite n, true)]> (<[r1 := (PipeRead n, true)]> h)) in
  h1 !! r2 = None -> h1 !! w2 = None ->
  let h2 := alter (fun e => (e.1, false)) r2 (<[w2 := (PipeWrite (S n), true)]> (<[r2 := (PipeRead (S n), true)]> h1)) in
  inherit h2 = <[r1 := PipeRead n]> (<[w2 := PipeWrite (S n)]> (inherit h)) /\
  h2 !! w1 = Some (PipeWrite n, false) /\ h2 !! r2 = Some (PipeRead (S n), false).
Proof.
  intros H1 H2 F1 F2 h1 F3 F4 h2.
  assert (E1 : h1 = <[w1 := (PipeWrite n, false)]> (<[r1 := (PipeRead n, true)]> h))
    by (unfold h1; by rewrite alter_insert_eq).
  assert (E2 : h2 = <[w2 := (PipeWrite (S n), true)]> (<[r2 := (PipeRead (S n), false)]> h1)).
  { unfold h2. rewrite alter_insert_ne by done. by rewrite alter_insert_eq. }
  rewrite E1 in F3, F4. apply lookup_insert_None in F3 as [F3 N3]. apply lookup_insert_None in F3 as [F3 N3'].
  apply lookup_insert_None in F4 as [F4 N4]. apply lookup_insert_None in F4 as [F4 N4'].
  rewrite E2, E1. split; [|by simplify_map_eq].
  unfold inherit. apply map_eq. intros x. rewrite lookup_omap.
  destruct (decide (x = w2)) as [->|]; [by simplify_map_eq|].
  destruct (decide (x = r2)) as [->|]; [by simplify_map_eq; rewrite ?lookup_omap, ?F3|].
  destruct (decide (x = w1)) as [->|]; [by simplify_map_eq; rewrite ?lookup_omap, ?F2|].
  destruct (decide (x = r1)) as [->|]; [by simplify_map_eq|].
  by simplify_map_eq; rewrite ?lookup_omap.
Qed.

Lemma created_lookup pid r1 w2 s hp ht s' x e :
  CreateProcessW pid r1 w2 s = (hp, ht, s') -> handles s !! x = Some e -> x <> r1 -> x <> w2 ->
  handles (close_all [r1; w2; ht] s') !! x = Some e.
Proof.
  intros [= <- <- <-] Hx H1 H2. pose proof (handle_free (handles s)) as F1.
  pose proof (handle_free (<[new_handle (handles s) := (ProcessOf pid, false)]> (handles s))) as F2.
  apply lookup_insert_None in F2 as [F2 N2].
  assert (N : x <> new_handle (handles s)) by congruence.
  assert (N' : x <> new_handle (<[new_handle (handles s) := (ProcessOf pid, false)]> (handles s))) by congruence.
  rewrite close_all_lookup by set_solver. cbn [handles]. by rewrite !lookup_insert_ne by done.
Qed.

Lemma close_all_processes l s : processes (close_all l s) = processes s.
Proof.
  revert s. induction l as [|h l IH]; intros s; [done|]. cbn. fold (close_all l (CloseHandle h s)). rewrite IH.
  unfold CloseHandle. by destruct (handles s !! h).
Qed.

(** The child starts with the two pipes as its standard input and output,
    inherits besides only what other parts of the program let it inherit, and
    the program keeps the other ends, which no later child inherits. *)
Theorem windows_child_gets_its_pipes (executable : bytes) (args : list bytes) (o : outcomes) (s s' : system) (i : Impl) :
  Impl_start executable args o s = (inr i, s') ->
  exists pid p, created o = Some pid /\ processes s' !! pid = Some p /\ exit_code p = None /\
    inherited p = <[std_input p := PipeRead (next_pipe s)]>
                    (<[std_output p := PipeWrite (S (next_pipe s))]> (inherit (handles s))) /\
    handles s' !! output_handle i = Some (PipeWrite (next_pipe s), false) /\
    handles s' !! input_handle i = Some (PipeRead (S (next_pipe s)), false).
Proof.
  unfold Impl_start. destruct (command executable args); [done|].
  assert (Ho : owns [] s (handles s)) by (by apply owns_nil).
  destruct (pipe_in o); [cbn [negb]|done].
  destruct (CreatePipe s) as [[r1 w1] s1] eqn:E1.
  destruct (owns_pipe _ _ _ _ _ _ Ho E1) as (Ho1 & _ & _ & N1 & _ & _ & Hh1 & F1 & F1' & Hn1).
  destruct (configure_in o); [cbn [negb]|done]. destruct (pipe_out o); [cbn [negb]|done].
  apply (owns_not_inherited _ _ _ w1) in Ho1; [|set_solver].
  destruct (CreatePipe (not_inherited w1 s1)) as [[r2 w2] s2] eqn:E2.
  destruct (owns_pipe _ _ _ _ _ _ Ho1 E2) as (Ho2 & _ & _ & N2 & _ & _ & Hh2 & F2 & F2' & _).
  destruct (configure_out o); [cbn [negb]|done]. destruct (created o) as [pid|]; [|done].
  apply (owns_not_inherited _ _ _ r2) in Ho2; [|set_solver].
  cbn [handles not_inherited set_handles] in Hh2, F2, F2'. rewrite Hh1 in Hh2, F2, F2'.
  cbn [next_pipe not_inherited set_handles] in Hh2. rewrite Hn1 in Hh2.
  destruct (pipes_inherited (handles s) r1 w1 r2 w2 (next_pipe s) N1 N2 F1 F1' F2 F2') as (Hinh & Hw & Hr).
  rewrite <- Hh2 in Hinh, Hw, Hr.
  destruct (CreateProcessW pid r1 w2 (not_inherited r2 s2)) as [[hp ht] s3] eqn:E3. intros [= <- <-].
  assert (Hd : NoDup [w2; r2; w1; r1]) by apply Ho2. rewrite !NoDup_cons in Hd. destruct Hd as (D1 & D2 & D3 & _).
  exists pid, (mkProcess (inherit (handles (not_inherited r2 s2))) r1 w2 None).
  change (CloseHandle ht (CloseHandle w2 (CloseHandle r1 s3))) with (close_all [r1; w2; ht] s3).
  rewrite close_all_processes. cbn [input_handle output_handle].
  pose proof E3 as E3'. injection E3 as _ _ Es3. rewrite <- Es3 at 1. cbn [processes]. rewrite lookup_insert_eq. do 3 (split; [done|]). split; [exact Hinh|].
  split; (eapply created_lookup; [exact E3'|done|set_solver..]).
Qed.

(** A move assignment closes every handle of the old process and ends it; the
    object that was moved from is inert: its operations and its destructor
    change nothing. *)
Theorem windows_move_assignment (pid : Z) (i : Impl) (other : option Impl) (s : system)
    (H : gmap Z (object * bool)) (P : gmap Z process) :
  holds pid i s H P ->
  let '(p, q, s') := Process_assign (Some i) other s in
  p = other /\ handles s' = H /\ (exists c, processes s' !! pid = Some c /\ is_Some (exit_code c)) /\
  Process_isRunning q s' = (false, q, s') /\ Process_id q = (-1)%Z /\
  forall code, Process_wait code q s' = (q, s') /\ Process_terminate q s' = (q, s') /\ Process_destroy q s' = s'.
Proof.
  intros Hh. cbn. split; [done|].
  destruct (windows_destroy_spec pid i s H P Hh) as ([Ho (c & Hc & Hx) _ _ Hn] & _ & Hz).
  destruct (Hn Hz) as [Hi Hout]. unfold owned in Ho. rewrite Hz, Hi, Hout, !nz_cons in Ho. cbn in Ho.
  split; [by apply owns_nil|]. split; [|done]. exists c. auto.
Qed.

(** A child that ends with the exit code 259 is taken for running, because
    this is the value of STILL_ACTIVE. *)
Theorem windows_exit_259 (pid : Z) (i : Impl) (s : system) (H : gmap Z (object * bool)) (P : gmap Z process) (p : process) :
  holds pid i s H P -> hProcess i <> 0%Z -> processes s !! pid = Some p -> exit_code p = Some 259%Z ->
  checkRunning i s = (true, i, s).
Proof.
  intros Hh E Hp Hx. unfold checkRunning. rewrite (proj2 (Z.eqb_neq _ _) E). unfold GetExitCodeProcess.
  rewrite (holds_handle _ _ _ _ _ Hh E). cbn [mbind option_bind]. rewrite Hp. cbn [mbind option_bind]. by rewrite Hx.
Qed.
End System.

(** ** An instance: the next number above all handles in use *)

Definition next_handle (h : gmap Z (object * bool)) : Z := (1 + foldr Z.max 0 (elements (dom h)))%Z.

Lemma foldr_max_above (l : list Z) x : x ∈ l -> (x <= foldr Z.max 0 l)%Z.
Proof.
  induction l as [|y l IH]; [by intros ?%not_elem_of_nil|]. intros [->|Hx]%elem_of_cons; cbn; [lia|].
  specialize (IH Hx). lia.
Qed.

Lemma next_handle_free h : h !! next_handle h = None.
Proof.
  destruct (h !! next_handle h) eqn:E; [|done]. exfalso.
  assert (Hin : next_handle h ∈ elements (dom h)) by (apply elem_of_elements, elem_of_dom; by eexists).
  apply foldr_max_above in Hin. unfold next_handle in Hin. lia.
Qed.

Lemma next_handle_not_null h : next_handle h <> 0%Z.
Proof.
  unfold next_handle. assert (H : (0 <= foldr Z.max 0 (elements (dom h)))%Z)
    by (induction (elements (dom h)); cbn; lia). lia.
Qed.

Definition console : system := mkSystem (<[8%Z := (OtherObject 1, true)]> ∅) ∅ 0 false.
Definition ascii (s : bytes) : list Z := map bval s ++ [0%Z].

(** A child that is interrupted, ends and is forgotten *)
Lemma windows_process_leaves_no_trace_witness :
  exists i s1 i2 s2,
    Impl_start next_handle ascii (lit "clangd") [] (mkOutcomes true true true true (Some 100%Z)) console = (inr i, s1) /\
    run_events 100 [OpInterrupt; EnvHandle 50 (Some (OtherObject 2, false)); ChildEnds 3; OpIsRunning] (i, s1) =
      Some (i2, s2) /\
    handles (destroy i2 s2).2 = <[50%Z := (OtherObject 2, false)]> (handles console).
Proof.
  pose proof (windows_process_leaves_no_trace next_handle ascii next_handle_free next_handle_not_null (lit "clangd") []
    (mkOutcomes true true true true (Some 100%Z)) console) as H.
  destruct (Impl_start next_handle ascii (lit "clangd") [] _ console) as [[e|i] s1] eqn:E;
    [vm_compute in E; discriminate|].
  destruct H as (pid & Hc & H). injection Hc as <-.
  destruct (run_events 100 [OpInterrupt; EnvHandle 50 (Some (OtherObject 2, false)); ChildEnds 3; OpIsRunning] (i, s1))
    as [[i2 s2]|] eqn:Er.
  - exists i, s1, i2, s2. split; [done|]. split; [done|]. destruct (H _ _ _ Er) as (-> & _). reflexivity.
  - exfalso. vm_compute in E. injection E as <- <-. vm_compute in Er. discriminate.
Defined.
End WinProcess.
