(* ===== verification/Reflect.v ===== *)
(** * Reflection of structs

    The macros [MAKE_REFLECT_STRUCT], [REFLECT_MEMBER] and
    [MAKE_REFLECT_TYPE_PROXY] of include/LibLsp/JsonRpc/serializer.h as
    combinators on codecs, with one law for all structs built from them, and
    structs of the protocol (include/LibLsp/lsp).

    A struct is a tuple of members to the combinators; a [Record] with the
    names of the C++ members and the two conversions make it readable. *)
From stdpp Require Import sorting.
From S2P Require Import Prelude CppString Position Utils Uri Json.

(** ** Members *)

(** The members of a struct: [f_read] and [f_write] are the calls of
    [ReflectMember] in order *)
Record fields (T : Type) := mkFields {
  f_names : list bytes;
  f_read : json -> T -> exn + T;
  f_write : T -> list (bytes * json);
  f_init : T                     (** the default member initialisers *)
}.
Arguments mkFields {T} _ _ _ _.
Arguments f_names {T} _.
Arguments f_read {T} _ _ _.
Arguments f_write {T} _ _.
Arguments f_init {T} _.

(** [REFLECT_MEMBER(name)] for a plain member, with its initial value *)
Definition field_init {T} (name : bytes) (c : codec T) (init : T) : fields T :=
  mkFields [name] (DoMember name (rread c)) (WriteMember c name) init.
Definition field {T} (name : bytes) (c : codec T) : fields T := field_init name c (rinit c).

(** and for an [optional] member: an absent value is not written *)
Definition opt_field_init {T} (name : bytes) (c : codec T) (init : option T) : fields (option T) :=
  mkFields [name] (DoMember name (rread (optional_codec c))) (WriteOptional c name) init.
Definition opt_field {T} (name : bytes) (c : codec T) : fields (option T) := opt_field_init name c None.

Definition field_pair {A B} (f : fields A) (g : fields B) : fields (A * B) :=
  mkFields (f_names f ++ f_names g)
    (fun j '(a, b) => bind_exn (f_read f j a) (fun a' => bind_exn (f_read g j b) (fun b' => inr (a', b'))))
    (fun '(a, b) => f_write f a ++ f_write g b)
    (f_init f, f_init g).

Declare Scope fields_scope.
Delimit Scope fields_scope with fields.
Bind Scope fields_scope with fields.
Infix "⊗" := field_pair (at level 55, right associativity) : fields_scope.
Open Scope fields_scope.

(** [MAKE_REFLECT_STRUCT(type, members)] *)
Definition struct_codec {T R} (f : fields T) (to : T -> R) (from : R -> T) : codec R :=
  mkCodec
    (fun j r => bind_exn (f_read f j (from r)) (fun t => inr (to t)))
    (fun r => JObject (f_write f (from r)))
    (to (f_init f)).

(** [MAKE_REFLECT_TYPE_PROXY]: an enumeration as its underlying integer *)
Definition proxy_codec {E} (c : codec Z) (to : Z -> E) (from : E -> Z) (init : E) : codec E :=
  mkCodec (fun j _ => bind_exn (rread c j 0%Z) (fun z => inr (to z))) (fun e => rwrite c (from e)) init.

(** ** Laws *)

(** Whatever else the document holds, members found as they were written are
    read back; nothing but the names is written. *)
Class FieldsRoundtrip {T} (f : fields T) (valid : T -> Prop) := {
  fields_read_back : forall v ms, valid v ->
    (forall n, n ∈ f_names f -> FindMember n ms = FindMember n (f_write f v)) ->
    f_read f (JObject ms) (f_init f) = inr v;
  fields_only_names : forall v n, n ∉ f_names f -> FindMember n (f_write f v) = None
}.

Lemma FindMember_app n l1 l2 :
  FindMember n (l1 ++ l2) = match FindMember n l1 with Some v => Some v | None => FindMember n l2 end.
Proof. induction l1 as [|[k v] l1 IH]; [done|]. cbn. by case_bool_decide. Qed.

Lemma FindMember_one n k v : FindMember n [(k, v)] = if bool_decide (k = n) then Some v else None.
Proof. done. Qed.

(** The reader of most types does not look at the old value. *)
Class FreshRead {T} (c : codec T) := fresh_read : forall j a b, rread c j a = rread c j b.

#[export] Instance field_roundtrip {T} name (c : codec T) valid :
  Roundtrip c valid -> FieldsRoundtrip (field name c) valid.
Proof.
  intros Hr. split.
  - intros v ms Hv Hn. cbn. rewrite (Hn name) by (cbn; set_solver). cbn [field field_init f_write].
    unfold WriteMember. rewrite FindMember_hd. by apply Hr.
  - intros v n Hn. cbn. rewrite bool_decide_eq_false_2; [done|]. cbn in Hn. set_solver.
Qed.

Lemma field_init_roundtrip {T} name (c : codec T) valid init :
  Roundtrip c valid -> FreshRead c -> FieldsRoundtrip (field_init name c init) valid.
Proof.
  intros Hr Hf. split.
  - intros v ms Hv Hn. cbn. rewrite (Hn name) by (cbn; set_solver). cbn [field_init f_write].
    unfold WriteMember. rewrite FindMember_hd. rewrite (Hf _ init (rinit c)). by apply Hr.
  - intros v n Hn. cbn. rewrite bool_decide_eq_false_2; [done|]. cbn in Hn. set_solver.
Qed.

#[export] Instance opt_field_roundtrip {T} name (c : codec T) valid :
  Roundtrip c valid -> NotNull c valid -> FieldsRoundtrip (opt_field name c) (opt_valid valid).
Proof.
  intros Hr Hn. split.
  - intros v ms Hv Hm. cbn. rewrite (Hm name) by (cbn; set_solver). cbn [opt_field opt_field_init f_write].
    destruct v as [x|]; [|done]. cbn [WriteOptional]. rewrite FindMember_hd.
    rewrite (Hn _ Hv). by rewrite (Hr _ Hv).
  - intros v n Hv. cbn. destruct v as [x|]; [|done]. cbn.
    rewrite bool_decide_eq_false_2; [done|]. cbn in Hv. set_solver.
Qed.

(** With a default, an absent value comes back as the default. *)
Definition opt_init_valid {T} (valid : T -> Prop) (init v : option T) : Prop :=
  opt_valid valid v /\ (v = None -> init = None).

Lemma opt_field_init_roundtrip {T} name (c : codec T) valid init :
  Roundtrip c valid -> NotNull c valid ->
  FieldsRoundtrip (opt_field_init name c init) (opt_init_valid valid init).
Proof.
  intros Hr Hn. split.
  - intros v ms [Hv Hi] Hm. cbn. rewrite (Hm name) by (cbn; set_solver). cbn [opt_field_init f_write].
    destruct v as [x|]; [|cbn; by rewrite Hi]. cbn [WriteOptional]. rewrite FindMember_hd.
    rewrite (Hn _ Hv). by rewrite (Hr _ Hv).
  - intros v n Hv. cbn. destruct v as [x|]; [|done]. cbn.
    rewrite bool_decide_eq_false_2; [done|]. cbn in Hv. set_solver.
Qed.

Definition pair_valid {A B} (P : A -> Prop) (Q : B -> Prop) (v : A * B) : Prop := P v.1 /\ Q v.2.

(** Member names must differ. *)
Definition names_disjoint {A B} (f : fields A) (g : fields B) : bool :=
  forallb (fun n => negb (bool_decide (n ∈ f_names g))) (f_names f).

(** Two groups of members: where they share a name they must write the same. *)
Lemma pair_roundtrip_agree {A B} (f : fields A) (g : fields B) P Q (valid : A * B -> Prop) :
  (forall a b, valid (a, b) -> P a /\ Q b) ->
  (forall a b n, valid (a, b) -> n ∈ f_names f -> n ∈ f_names g ->
     FindMember n (f_write f a) = FindMember n (f_write g b)) ->
  FieldsRoundtrip f P -> FieldsRoundtrip g Q -> FieldsRoundtrip (f ⊗ g) valid.
Proof.
  intros HPQ Hagree Hf Hg. split.
  - intros [a b] ms Hab Hm. destruct (HPQ a b Hab) as [Ha Hb]. cbn [f_read f_init field_pair].
    cbn [f_write field_pair f_names] in Hm. rewrite (fields_read_back a ms Ha).
    + cbn [bind_exn]. rewrite (fields_read_back b ms Hb); [done|].
      intros n Hn. rewrite Hm by set_solver. rewrite FindMember_app.
      destruct (decide (n ∈ f_names f)) as [Hnf|Hnf].
      * rewrite (Hagree a b n Hab Hnf Hn). by destruct (FindMember n (f_write g b)).
      * by rewrite (fields_only_names a n Hnf).
    + intros n Hn. rewrite Hm by set_solver. rewrite FindMember_app.
      destruct (decide (n ∈ f_names g)) as [Hng|Hng].
      * rewrite (Hagree a b n Hab Hn Hng). by destruct (FindMember n (f_write g b)).
      * rewrite (fields_only_names b n Hng). by destruct (FindMember n (f_write f a)).
  - intros [a b] n Hn. cbn [f_write field_pair f_names] in *. rewrite FindMember_app.
    by rewrite !fields_only_names by set_solver.
Qed.

Lemma pair_roundtrip {A B} (f : fields A) (g : fields B) P Q :
  names_disjoint f g = true -> FieldsRoundtrip f P -> FieldsRoundtrip g Q ->
  FieldsRoundtrip (f ⊗ g) (pair_valid P Q).
Proof.
  intros Hd Hf Hg. unfold names_disjoint in Hd. rewrite forallb_forall in Hd.
  apply (pair_roundtrip_agree f g P Q); [done| |done|done].
  intros a b n _ Hn Hn'. apply list_elem_of_In in Hn. apply Hd, negb_true_iff, bool_decide_eq_false in Hn. done.
Qed.

(** A member among others, for a name that is reflected twice *)
Lemma FindMember_skip {A B} (f : fields A) (g : fields B) P n v :
  FieldsRoundtrip f P -> n ∉ f_names f -> FindMember n (f_write (f ⊗ g) v) = FindMember n (f_write g v.2).
Proof. intros Hf Hn. destruct v. cbn. rewrite FindMember_app. by rewrite (fields_only_names _ n Hn). Qed.
Lemma FindMember_first {A B} (f : fields A) (g : fields B) Q n v :
  FieldsRoundtrip g Q -> n ∉ f_names g -> FindMember n (f_write (f ⊗ g) v) = FindMember n (f_write f v.1).
Proof.
  intros Hg Hn. destruct v. cbn. rewrite FindMember_app, (fields_only_names _ n Hn).
  by destruct (FindMember n (f_write f _)).
Qed.

(** A name that is reflected again among the members that follow: the later
    member, which [second] selects, is written with the same value. *)
Lemma repeated_roundtrip {A B} (f : fields A) (g : fields B) P Q (second : B -> A) :
  FieldsRoundtrip f P -> FieldsRoundtrip g Q ->
  (forall b n, n ∈ f_names f -> FindMember n (f_write g b) = FindMember n (f_write f (second b))) ->
  FieldsRoundtrip (f ⊗ g) (fun v => pair_valid P Q v /\ second v.2 = v.1).
Proof.
  intros Hf Hg Hs. apply (pair_roundtrip_agree f g P Q); [by intros a b [[??] _]| |done|done].
  intros a b n [_ Hab] Hn _. cbn in Hab. by rewrite Hs, Hab.
Qed.

(** [to] and [from] need to agree on the values that are written only: a
    member that is not reflected gets its default. *)
Lemma struct_roundtrip_valid {T R} (f : fields T) (to : T -> R) (from : R -> T) valid (P : R -> Prop) :
  (forall r, P r -> to (from r) = r) -> from (to (f_init f)) = f_init f -> FieldsRoundtrip f valid ->
  (forall r, P r -> valid (from r)) -> Roundtrip (struct_codec f to from) P.
Proof.
  intros H1 H2 Hf HP r Hr. cbn. rewrite H2. rewrite (fields_read_back (from r)); [|by apply HP|done].
  cbn. by rewrite H1.
Qed.

Lemma struct_roundtrip {T R} (f : fields T) (to : T -> R) (from : R -> T) valid :
  (forall r, to (from r) = r) -> from (to (f_init f)) = f_init f -> FieldsRoundtrip f valid ->
  Roundtrip (struct_codec f to from) (fun r => valid (from r)).
Proof. intros H1 H2 Hf. by apply (struct_roundtrip_valid f to from valid). Qed.

Lemma struct_not_null {T R} (f : fields T) (to : T -> R) (from : R -> T) valid :
  NotNull (struct_codec f to from) valid.
Proof. by intros ?. Qed.

Lemma proxy_roundtrip {E} (c : codec Z) (to : Z -> E) from init valid :
  (forall e, to (from e) = e) -> FreshRead c -> rinit c = 0%Z -> Roundtrip c valid ->
  Roundtrip (proxy_codec c to from init) (fun e => valid (from e)).
Proof.
  intros Hto Hfr Hi Hr e He. cbn. pose proof (Hr _ He) as H. rewrite Hi in H. rewrite H. cbn. by rewrite Hto.
Qed.

#[export] Instance int_not_null valid : NotNull int_codec valid.
Proof. by intros ?. Qed.
#[export] Instance bool_not_null valid : NotNull bool_codec valid.
Proof. by intros ?. Qed.
#[export] Instance int_fresh : FreshRead int_codec.
Proof. by intros ???. Qed.
#[export] Instance bool_fresh : FreshRead bool_codec.
Proof. by intros ???. Qed.
#[export] Instance string_fresh : FreshRead string_codec.
Proof. by intros ???. Qed.

(** Additional members of a document change nothing: a reader of a struct
    accepts documents of later versions of the protocol. *)
Theorem struct_reader_extensible {T R} (f : fields T) (to : T -> R) (from : R -> T) (valid : T -> Prop)
    (r : R) (before after : list (bytes * json)) :
  (forall r, to (from r) = r) -> (forall t, from (to t) = t) -> FieldsRoundtrip f valid ->
  valid (from r) ->
  (forall n, n ∈ f_names f -> FindMember n before = None /\ FindMember n after = None) ->
  rread (struct_codec f to from) (JObject (before ++ f_write f (from r) ++ after))
    (rinit (struct_codec f to from)) = inr r.
Proof.
  intros H1 H2 Hf Hv Hex. cbn. rewrite H2.
  rewrite (fields_read_back (from r)); [cbn; by rewrite H1|done|].
  intros n Hn. destruct (Hex n Hn) as [Hb Ha]. rewrite !FindMember_app, Hb, Ha.
  by destruct (FindMember n (f_write f (from r))).
Qed.

(** ** Structs of the protocol *)

(** [lsDocumentUri] is written as its text *)
Definition lsDocumentUri_codec : codec lsDocumentUri :=
  mkCodec (fun j v => bind_exn (rread string_codec j (raw_uri_ v)) (fun s => inr (mkDocumentUri s)))
    (fun v => rwrite string_codec (raw_uri_ v)) (mkDocumentUri []).

Definition uri_valid (u : lsDocumentUri) : Prop := NUL ∉ raw_uri_ u.
Definition text_valid (s : bytes) : Prop := NUL ∉ s.

#[export] Instance uri_roundtrip : Roundtrip lsDocumentUri_codec uri_valid.
Proof. intros [s] Hs. cbn. by rewrite c_str_id. Qed.
#[export] Instance uri_not_null valid : NotNull lsDocumentUri_codec valid.
Proof. by intros ?. Qed.

Definition int_valid : Z -> Prop := Json.between (- 2 ^ 31) (2 ^ 31 - 1).
Definition unsigned_valid : Z -> Prop := Json.between 0 (2 ^ 32 - 1).
Definition any_valid {T} (_ : T) : Prop := True.

(** The members one after the other: distinct names, then each member *)
Ltac members :=
  repeat first
    [ apply pair_roundtrip; [vm_compute; reflexivity| |]
    | apply field_roundtrip
    | apply opt_field_roundtrip
    | apply field_init_roundtrip
    | apply opt_field_init_roundtrip ]; try typeclasses eauto.
Ltac struct_law :=
  eapply struct_roundtrip_valid;
  [ by intros []
  | reflexivity
  | members
  | let r := fresh in let H := fresh in intros r H; exact H ].

(** location_type.h *)
Record lsLocation := mkLocation { uri : lsDocumentUri; range : lsRange }.
Definition lsLocation_codec : codec lsLocation :=
  struct_codec (field (lit "uri") lsDocumentUri_codec ⊗ field (lit "range") lsRange_codec)
    (fun '(u, r) => mkLocation u r) (fun l => (uri l, range l)).

Record LocationLink := mkLink {
  originSelectionRange : option lsRange;
  targetUri : lsDocumentUri;
  targetRange : lsRange;
  targetSelectionRange : lsRange
}.
Definition LocationLink_codec : codec LocationLink :=
  struct_codec (opt_field (lit "originSelectionRange") lsRange_codec ⊗
                field (lit "targetUri") lsDocumentUri_codec ⊗
                field (lit "targetRange") lsRange_codec ⊗
                field (lit "targetSelectionRange") lsRange_codec)
    (fun '(o, (u, (r, s))) => mkLink o u r s)
    (fun l => (originSelectionRange l, (targetUri l, (targetRange l, targetSelectionRange l)))).

Definition location_valid (l : lsLocation) : Prop := uri_valid (uri l) /\ range_valid (range l).
Definition link_valid (l : LocationLink) : Prop :=
  opt_valid range_valid (originSelectionRange l) /\ uri_valid (targetUri l) /\
  range_valid (targetRange l) /\ range_valid (targetSelectionRange l).

#[export] Instance location_roundtrip : Roundtrip lsLocation_codec location_valid.
Proof. struct_law. Qed.
#[export] Instance link_roundtrip : Roundtrip LocationLink_codec link_valid.
Proof. struct_law. Qed.

(** lsTextEdit.h *)
Record lsTextEdit := mkTextEdit { edit_range : lsRange; newText : bytes; annotationId : option bytes }.
Definition lsTextEdit_codec : codec lsTextEdit :=
  struct_codec (field (lit "range") lsRange_codec ⊗ field (lit "newText") string_codec ⊗
                opt_field (lit "annotationId") string_codec)
    (fun '(r, (t, a)) => mkTextEdit r t a) (fun e => (edit_range e, (newText e, annotationId e))).
Definition edit_valid (e : lsTextEdit) : Prop :=
  range_valid (edit_range e) /\ text_valid (newText e) /\ opt_valid text_valid (annotationId e).
#[export] Instance edit_roundtrip : Roundtrip lsTextEdit_codec edit_valid.
Proof. struct_law. Qed.

Record lsChangeAnnotation := mkAnnotation {
  label : bytes; needsConfirmation : option bool; description : option bytes }.
Definition lsChangeAnnotation_codec : codec lsChangeAnnotation :=
  struct_codec (field (lit "label") string_codec ⊗ opt_field (lit "needsConfirmation") bool_codec ⊗
                opt_field (lit "description") string_codec)
    (fun '(l, (n, d)) => mkAnnotation l n d) (fun a => (label a, (needsConfirmation a, description a))).
Definition annotation_valid (a : lsChangeAnnotation) : Prop :=
  text_valid (label a) /\ opt_valid any_valid (needsConfirmation a) /\ opt_valid text_valid (description a).
#[export] Instance annotation_roundtrip : Roundtrip lsChangeAnnotation_codec annotation_valid.
Proof. struct_law. Qed.

(** The identifiers and the item of a text document *)
Record lsTextDocumentIdentifier := mkDocId { doc_uri : lsDocumentUri }.
Definition lsTextDocumentIdentifier_codec : codec lsTextDocumentIdentifier :=
  struct_codec (field (lit "uri") lsDocumentUri_codec) mkDocId doc_uri.
#[export] Instance docid_roundtrip : Roundtrip lsTextDocumentIdentifier_codec (fun d => uri_valid (doc_uri d)).
Proof. struct_law. Qed.

Record lsVersionedTextDocumentIdentifier := mkVersionedId { ver_uri : lsDocumentUri; ver_version : option Z }.
Definition lsVersionedTextDocumentIdentifier_codec : codec lsVersionedTextDocumentIdentifier :=
  struct_codec (field (lit "uri") lsDocumentUri_codec ⊗ opt_field (lit "version") int_codec)
    (fun '(u, v) => mkVersionedId u v) (fun d => (ver_uri d, ver_version d)).
Definition versioned_valid (d : lsVersionedTextDocumentIdentifier) : Prop :=
  uri_valid (ver_uri d) /\ opt_valid int_valid (ver_version d).
#[export] Instance versioned_roundtrip : Roundtrip lsVersionedTextDocumentIdentifier_codec versioned_valid.
Proof. struct_law. Qed.
#[export] Instance versioned_not_null valid : NotNull lsVersionedTextDocumentIdentifier_codec valid.
Proof. apply struct_not_null. Qed.

Definition AsTextDocumentIdentifier (d : lsVersionedTextDocumentIdentifier) : lsTextDocumentIdentifier :=
  mkDocId (ver_uri d).

Record lsTextDocumentItem := mkDocItem {
  item_uri : lsDocumentUri; languageId : bytes; item_version : Z; item_text : bytes }.
Definition lsTextDocumentItem_codec : codec lsTextDocumentItem :=
  struct_codec (field (lit "uri") lsDocumentUri_codec ⊗ field (lit "languageId") string_codec ⊗
                field (lit "version") int_codec ⊗ field (lit "text") string_codec)
    (fun '(u, (l, (v, t))) => mkDocItem u l v t)
    (fun d => (item_uri d, (languageId d, (item_version d, item_text d)))).
Definition item_valid (d : lsTextDocumentItem) : Prop :=
  uri_valid (item_uri d) /\ text_valid (languageId d) /\ int_valid (item_version d) /\ text_valid (item_text d).
#[export] Instance item_roundtrip : Roundtrip lsTextDocumentItem_codec item_valid.
Proof. struct_law. Qed.

(** lsTextDocumentEdit.h *)
Record lsTextDocumentEdit := mkDocEdit {
  edit_document : lsVersionedTextDocumentIdentifier; edits : list lsTextEdit }.
Definition lsTextDocumentEdit_codec : codec lsTextDocumentEdit :=
  struct_codec (field (lit "textDocument") lsVersionedTextDocumentIdentifier_codec ⊗
                field (lit "edits") (vector_codec lsTextEdit_codec))
    (fun '(d, e) => mkDocEdit d e) (fun x => (edit_document x, edits x)).
Definition docedit_valid (x : lsTextDocumentEdit) : Prop :=
  versioned_valid (edit_document x) /\ Forall edit_valid (edits x).
#[export] Instance docedit_roundtrip : Roundtrip lsTextDocumentEdit_codec docedit_valid.
Proof. struct_law. Qed.

(** lsMarkedString.h *)
Record MarkupContent := mkMarkup { markup_kind : bytes; markup_value : bytes }.
Definition MarkupContent_codec : codec MarkupContent :=
  struct_codec (field (lit "kind") string_codec ⊗ field (lit "value") string_codec)
    (fun '(k, v) => mkMarkup k v) (fun m => (markup_kind m, markup_value m)).
Definition markup_valid (m : MarkupContent) : Prop := text_valid (markup_kind m) /\ text_valid (markup_value m).
#[export] Instance markup_roundtrip : Roundtrip MarkupContent_codec markup_valid.
Proof. struct_law. Qed.

(** SemanticTokens.h *)
Record SemanticTokens := mkSemanticTokens { data : list Z; resultId : option bytes }.
Definition SemanticTokens_codec : codec SemanticTokens :=
  struct_codec (field (lit "data") (vector_codec int_codec) ⊗ opt_field (lit "resultId") string_codec)
    (fun '(d, r) => mkSemanticTokens d r) (fun t => (data t, resultId t)).
Definition tokens_valid (t : SemanticTokens) : Prop :=
  Forall int_valid (data t) /\ opt_valid text_valid (resultId t).
#[export] Instance tokens_roundtrip : Roundtrip SemanticTokens_codec tokens_valid.
Proof. struct_law. Qed.

Record SemanticTokensEdit := mkTokensEdit { startToken : Z; deleteTokens : Z; tokens : list Z }.
Definition SemanticTokensEdit_codec : codec SemanticTokensEdit :=
  struct_codec (field (lit "startToken") unsigned_codec ⊗ field (lit "deleteTokens") unsigned_codec ⊗
                field (lit "tokens") (vector_codec int_codec))
    (fun '(s, (d, t)) => mkTokensEdit s d t) (fun e => (startToken e, (deleteTokens e, tokens e))).
Definition tokensedit_valid (e : SemanticTokensEdit) : Prop :=
  unsigned_valid (startToken e) /\ unsigned_valid (deleteTokens e) /\ Forall int_valid (tokens e).
#[export] Instance tokensedit_roundtrip : Roundtrip SemanticTokensEdit_codec tokensedit_valid.
Proof. struct_law. Qed.

Record SemanticTokensOrDelta := mkOrDelta {
  od_resultId : option bytes; od_edits : option (list SemanticTokensEdit); od_tokens : option (list Z) }.
Definition SemanticTokensOrDelta_codec : codec SemanticTokensOrDelta :=
  struct_codec (opt_field (lit "resultId") string_codec ⊗
                opt_field (lit "edits") (vector_codec SemanticTokensEdit_codec) ⊗
                opt_field (lit "tokens") (vector_codec int_codec))
    (fun '(r, (e, t)) => mkOrDelta r e t) (fun x => (od_resultId x, (od_edits x, od_tokens x))).
Definition ordelta_valid (x : SemanticTokensOrDelta) : Prop :=
  opt_valid text_valid (od_resultId x) /\ opt_valid (Forall tokensedit_valid) (od_edits x) /\
  opt_valid (Forall int_valid) (od_tokens x).
#[export] Instance ordelta_roundtrip : Roundtrip SemanticTokensOrDelta_codec ordelta_valid.
Proof. struct_law. Qed.

Record SemanticTokensLegend := mkLegend { tokenTypes : list bytes; tokenModifiers : list bytes }.
Definition SemanticTokensLegend_codec : codec SemanticTokensLegend :=
  struct_codec (field (lit "tokenTypes") (vector_codec string_codec) ⊗
                field (lit "tokenModifiers") (vector_codec string_codec))
    (fun '(t, m) => mkLegend t m) (fun l => (tokenTypes l, tokenModifiers l)).
Definition legend_valid (l : SemanticTokensLegend) : Prop :=
  Forall text_valid (tokenTypes l) /\ Forall text_valid (tokenModifiers l).
#[export] Instance legend_roundtrip : Roundtrip SemanticTokensLegend_codec legend_valid.
Proof. struct_law. Qed.

(** ** More laws

    What the structs of the protocol need besides: which kind of value a codec
    writes, alternatives, defaults, maps. *)

(** A struct is written as an object *)
Class WritesObject {T} (c : codec T) := writes_object : forall v, exists ms, rwrite c v = JObject ms.

(** [test] tells what [c] writes *)
Class Tagged (test : json -> bool) {T} (c : codec T) (valid : T -> Prop) (b : bool) :=
  tagged : forall v, valid v -> test (rwrite c v) = b.

#[export] Instance object_not_null {T} (c : codec T) valid : WritesObject c -> NotNull c valid | 5.
Proof. intros H v _. by destruct (H v) as [ms ->]. Qed.
#[export] Instance object_not_bool {T} (c : codec T) valid : WritesObject c -> Tagged IsBool c valid false.
Proof. intros H v _. by destruct (H v) as [ms ->]. Qed.
#[export] Instance object_not_string {T} (c : codec T) valid : WritesObject c -> Tagged IsString c valid false.
Proof. intros H v _. by destruct (H v) as [ms ->]. Qed.
#[export] Instance bool_is_bool valid : Tagged IsBool bool_codec valid true.
Proof. by intros v. Qed.
#[export] Instance string_is_string valid : Tagged IsString string_codec valid true.
Proof. by intros v. Qed.
#[export] Instance bool_not_string valid : Tagged IsString bool_codec valid false.
Proof. by intros v. Qed.
#[export] Instance int_not_string valid : Tagged IsString int_codec valid false.
Proof. by intros v. Qed.

(** Exactly one of two alternatives *)
Definition one_of {A B} (P : A -> Prop) (Q : B -> Prop) (x : option A * option B) : Prop :=
  match x with
  | (Some a, None) => P a
  | (None, Some b) => Q b
  | _ => False
  end.

#[export] Instance tagged_pair_roundtrip {A B} test (c1 : codec A) (c2 : codec B) P Q :
  Roundtrip c1 P -> Roundtrip c2 Q -> NotNull c1 P -> NotNull c2 Q ->
  Tagged test c1 P true -> Tagged test c2 Q false ->
  Roundtrip (tagged_pair_codec test c1 c2) (one_of P Q).
Proof.
  intros R1 R2 N1 N2 T1 T2 [[a|] [b|]] H; cbn in H; try done; cbn.
  - rewrite (T1 a H), (N1 a H). by rewrite (R1 a H).
  - rewrite (T2 b H), (N2 b H). by rewrite (R2 b H).
Qed.

#[export] Instance tagged_pair_not_null {A B} test (c1 : codec A) (c2 : codec B) P Q :
  NotNull c1 P -> NotNull c2 Q -> NotNull (tagged_pair_codec test c1 c2) (one_of P Q).
Proof. intros N1 N2 [[a|] [b|]] H; cbn in H; try done; cbn; [apply (N1 a H)|apply (N2 b H)]. Qed.

(** Enumerations: a number of the underlying type *)
Definition enum_codec (c : codec Z) (init : Z) : codec Z := proxy_codec c id id init.

#[export] Instance enum_roundtrip c init valid :
  Roundtrip c valid -> rinit c = 0%Z -> Roundtrip (enum_codec c init) valid.
Proof. intros Hr Hi v Hv. cbn. rewrite <- Hi. unfold id. by rewrite (Hr v Hv). Qed.
#[export] Instance enum_fresh c init : FreshRead (enum_codec c init).
Proof. by intros ???. Qed.
#[export] Instance enum_not_null c init valid : NotNull c valid -> NotNull (enum_codec c init) valid.
Proof. intros H v Hv. exact (H v Hv). Qed.
Definition uint8_valid : Z -> Prop := Json.between 0 (2 ^ 8 - 1).
#[export] Instance uint8_not_null valid : NotNull uint8_codec valid.
Proof. by intros ?. Qed.

(** ** [std::map<std::string, T>]

    Entries in the order of the keys.  [value[name] = ...] replaces the entry
    of an equal key; [GetObject()] requires an object. *)
Fixpoint map_set {T} (k : bytes) (v : T) (l : list (bytes * T)) : list (bytes * T) :=
  match l with
  | [] => [(k, v)]
  | (k', v') :: rest =>
      if bool_decide (k = k') then (k, v) :: rest
      else if string_lt k k' then (k, v) :: l
      else (k', v') :: map_set k v rest
  end.

Definition IterMap {T} (fn : bytes -> json -> T -> exn + T) (j : json) (v : T) : exn + T :=
  match j with
  | JObject ms =>
      foldl (fun acc '(k, e) => bind_exn acc (fun v => fn (c_str k) e v)) (inr v) ms
  | _ => throw (lit "IsObject()") j
  end.

Definition map_codec {T} (c : codec T) : codec (list (bytes * T)) :=
  mkCodec
    (IterMap (fun name e v => bind_exn (rread c e (rinit c)) (fun x => inr (map_set name x v))))
    (fun m => JObject (map (fun '(k, v) => (c_str k, rwrite c v)) m)) [].

Definition keys_sorted {T} (m : list (bytes * T)) : Prop :=
  StronglySorted (fun a b => string_lt a b = true) (map fst m).
Definition map_valid {T} (valid : T -> Prop) (m : list (bytes * T)) : Prop :=
  keys_sorted m /\ Forall (fun e => text_valid e.1 /\ valid e.2) m.

Lemma map_set_last {T} k (v : T) l :
  Forall (fun e => string_lt e.1 k = true) l -> map_set k v l = l ++ [(k, v)].
Proof.
  induction 1 as [|[k' v'] l Hk _ IH]; [done|]. cbn [map_set fst] in *.
  rewrite bool_decide_eq_false_2 by (intros ->; by rewrite string_lt_irrefl in Hk).
  destruct (string_lt k k') eqn:E; [|by rewrite IH].
  pose proof (string_lt_trans _ _ _ Hk E) as Hx. by rewrite string_lt_irrefl in Hx.
Qed.

Lemma map_read_entries {T} (c : codec T) valid m acc :
  Roundtrip c valid -> keys_sorted (acc ++ m) -> Forall (fun e => text_valid e.1 /\ valid e.2) m ->
  foldl (fun a '(k, e) => bind_exn a (fun v =>
           bind_exn (rread c e (rinit c)) (fun x => inr (map_set (c_str k) x v)))) (inr acc)
    (map (fun '(k, v) => (c_str k, rwrite c v)) m) = inr (acc ++ m).
Proof.
  intros Hr. revert acc. induction m as [|[k v] m IH]; intros acc Hs Hf; [by rewrite app_nil_r|].
  apply Forall_cons in Hf as [[Hk Hv] Hf]. cbn [fst snd] in *. cbn [map foldl bind_exn].
  rewrite !(c_str_id k Hk). rewrite (Hr v Hv). cbn [bind_exn].
  rewrite map_set_last.
  - rewrite IH; [by rewrite <- app_assoc|by rewrite <- app_assoc|done].
  - unfold keys_sorted in Hs. rewrite map_app in Hs. clear -Hs. induction acc as [|e acc IH]; constructor.
    + cbn in Hs. apply StronglySorted_inv in Hs as [_ Hs]. rewrite Forall_app in Hs.
      destruct Hs as [_ Hs]. by apply Forall_inv in Hs.
    + apply IH. cbn in Hs. by apply StronglySorted_inv in Hs as [Hs _].
Qed.

#[export] Instance map_roundtrip {T} (c : codec T) valid :
  Roundtrip c valid -> Roundtrip (map_codec c) (map_valid valid).
Proof. intros Hr m [Hs Hf]. apply (map_read_entries c valid m [] Hr Hs Hf). Qed.
#[export] Instance map_writes_object {T} (c : codec T) : WritesObject (map_codec c).
Proof. intros m. by eexists. Qed.

#[export] Instance lsRange_object : WritesObject lsRange_codec.
Proof. intros v. by eexists. Qed.
#[export] Instance lsPosition_object : WritesObject lsPosition_codec.
Proof. intros v. by eexists. Qed.
#[export] Instance lsLocation_object : WritesObject lsLocation_codec.
Proof. intros v. by eexists. Qed.
#[export] Instance LocationLink_object : WritesObject LocationLink_codec.
Proof. intros v. by eexists. Qed.
#[export] Instance lsTextEdit_object : WritesObject lsTextEdit_codec.
Proof. intros v. by eexists. Qed.
#[export] Instance lsChangeAnnotation_object : WritesObject lsChangeAnnotation_codec.
Proof. intros v. by eexists. Qed.
#[export] Instance lsTextDocumentIdentifier_object : WritesObject lsTextDocumentIdentifier_codec.
Proof. intros v. by eexists. Qed.
#[export] Instance lsVersionedTextDocumentIdentifier_object : WritesObject lsVersionedTextDocumentIdentifier_codec.
Proof. intros v. by eexists. Qed.
#[export] Instance lsTextDocumentItem_object : WritesObject lsTextDocumentItem_codec.
Proof. intros v. by eexists. Qed.
#[export] Instance lsTextDocumentEdit_object : WritesObject lsTextDocumentEdit_codec.
Proof. intros v. by eexists. Qed.
#[export] Instance MarkupContent_object : WritesObject MarkupContent_codec.
Proof. intros v. by eexists. Qed.
#[export] Instance SemanticTokensLegend_object : WritesObject SemanticTokensLegend_codec.
Proof. intros v. by eexists. Qed.
#[export] Instance SemanticTokens_object : WritesObject SemanticTokens_codec.
Proof. intros v. by eexists. Qed.
#[export] Instance SemanticTokensEdit_object : WritesObject SemanticTokensEdit_codec.
Proof. intros v. by eexists. Qed.
#[export] Instance SemanticTokensOrDelta_object : WritesObject SemanticTokensOrDelta_codec.
Proof. intros v. by eexists. Qed.
