(* ===== verification/LspTypes.v ===== *)
(** * Protocol types with readers of their own

    What src/lsp/lsp.cpp, textDocument.cpp, initialize.cpp and
    lsp_diagnostic.cpp define by hand: readers that choose between
    alternatives, enumerations spelled as strings, [lsp::Any], resource
    operations, semantic tokens, completion items, identifiers. *)
From S2P Require Import Prelude CppString Position Utils Uri Json StringRef Reflect.

(** ** Readers of alternatives

    [std::pair<optional<A>, optional<B>>]: the alternative that was read is
    set, the other one keeps its old value. *)
Definition Either (A B : Type) := (option A * option B)%type.

Definition read_first {A B} (c : codec A) (j : json) (v : Either A B) : exn + Either A B :=
  bind_exn (rread (optional_codec c) j v.1) (fun a => inr (a, v.2)).
Definition read_second {A B} (c : codec B) (j : json) (v : Either A B) : exn + Either A B :=
  bind_exn (rread (optional_codec c) j v.2) (fun b => inr (v.1, b)).

(** [LocationListEither::Either].  [data[0].HasMember] is rapidjson's: it
    asserts that the element is an object, [None] here. *)
Definition read_locations (j : json) (v : Either (list lsLocation) (list LocationLink))
    : option (exn + Either (list lsLocation) (list LocationLink)) :=
  match j with
  | JArray (JObject ms :: _) =>
      Some (match FindMember (lit "originSelectionRange") ms with
            | Some _ => read_second (vector_codec LocationLink_codec) j v
            | None => read_first (vector_codec lsLocation_codec) j v
            end)
  | JArray [] => Some (read_first (vector_codec lsLocation_codec) j v)
  | JArray _ => None
  | _ => Some (bind_exn (rread lsLocation_codec j (rinit lsLocation_codec)) (fun l => inr (Some [l], None)))
  end.

Definition write_locations (v : Either (list lsLocation) (list LocationLink)) : option json :=
  match v with
  | (Some l, _) => Some (rwrite (vector_codec lsLocation_codec) l)
  | (None, Some l) => Some (rwrite (vector_codec LocationLink_codec) l)
  | (None, None) => None            (** nothing is written *)
  end.

(** [TextDocumentCodeAction::Either], [lsWorkspaceEdit::Either],
    [TextDocumentComplete::Either], [TextDocumentDocumentSymbol::Either],
    [TextDocumentPrepareRenameResult], the kind or the options of the
    synchronisation *)
Section Choices.
Context {A B : Type} (c1 : codec A) (c2 : codec B).

Definition read_code_action (j : json) (v : Either A B) : exn + Either A B :=
  if HasMember j (lit "command")
  then if default false (IsString <$> member j (lit "command")) then read_first c1 j v else read_second c2 j v
  else read_second c2 j v.

Definition read_document_change (j : json) (v : Either A B) : exn + Either A B :=
  if HasMember j (lit "textDocument") then read_first c1 j v else read_second c2 j v.

Definition read_completions (j : json) (v : Either A B) : exn + Either A B :=
  if IsArray j then read_first c1 j v else read_second c2 j v.

Definition read_document_symbol (j : json) (v : Either A B) : exn + Either A B :=
  if HasMember j (lit "location") then read_first c1 j v else read_second c2 j v.

Definition read_prepare_rename (j : json) (v : Either A B) : exn + Either A B :=
  if HasMember j (lit "placeholder") then read_second c2 j v else read_first c1 j v.

Definition read_sync (j : json) (v : Either A B) : exn + Either A B :=
  match j with JObject _ => read_second c2 j v | _ => read_first c1 j v end.

(** The generic writer of a pair writes the first alternative if it is set. *)
Definition write_either (v : Either A B) : json := rwrite (pair_codec c1 c2) v.

End Choices.

(** [lsMarkedString]: an object with a language, or a plain string *)
Record lsMarkedString := mkMarked { language : option bytes; marked_value : bytes }.

Definition marked_fields : fields (option bytes * bytes) :=
  opt_field (lit "language") string_codec ⊗ field (lit "value") string_codec.

Definition lsMarkedString_codec : codec lsMarkedString :=
  let s := struct_codec marked_fields (fun '(l, v) => mkMarked l v) (fun m => (language m, marked_value m)) in
  mkCodec (rread s)
    (fun m => match language m with Some _ => rwrite s m | None => rwrite string_codec (marked_value m) end)
    (rinit s).

(** [pair<optional<string>, optional<lsMarkedString>>] and the one of
    [MarkupContent] *)
Definition string_or_codec {B} (c : codec B) : codec (Either bytes B) :=
  mkCodec (fun j v => if negb (IsString j) then read_second c j v else read_first string_codec j v)
    (rwrite (pair_codec string_codec c)) (None, None).

(** [TextDocumentHover::Either] *)
Definition read_hover (j : json) (v : Either (list (Either bytes lsMarkedString)) MarkupContent)
    : exn + Either (list (Either bytes lsMarkedString)) MarkupContent :=
  match j with
  | JArray _ => read_first (vector_codec (string_or_codec lsMarkedString_codec)) j v
  | JString _ => bind_exn (rread string_codec j []) (fun s => inr (Some [(Some s, None)], v.2))
  | JObject _ => read_second MarkupContent_codec j v
  | _ => inr v
  end.

(** ** Enumerations spelled as strings *)

Inductive lsTrace := Off | Messages | Verbose.
Definition lsTrace_text (t : lsTrace) : bytes :=
  match t with Off => lit "off" | Messages => lit "messages" | Verbose => lit "verbose" end.

(** An unknown string leaves the old value. *)
Definition lsTrace_codec : codec lsTrace :=
  mkCodec
    (fun j old =>
       if negb (IsString j) then inr Off
       else let v := GetString j in
            inr (if bool_decide (v = lit "off") then Off
                 else if bool_decide (v = lit "messages") then Messages
                 else if bool_decide (v = lit "verbose") then Verbose else old))
    (fun t => JString (lsTrace_text t)) Off.

Inductive TypeHierarchyDirection := Children | Parents | Both.

Definition TypeHierarchyDirection_codec : codec TypeHierarchyDirection :=
  mkCodec
    (fun j old =>
       if negb (IsString j) then inr Both
       else let v := GetString j in
            inr (if bool_decide (v = lit "Children") then Both
                 else if bool_decide (v = lit "Parents") then Parents
                 else if bool_decide (v = lit "Both") then Both else old))
    (fun d => JString (match d with Children => lit "Children" | Parents => lit "Parents" | Both => lit "Both" end))
    Children.

(** [lsFormattingOptions::KeyData] *)
Record KeyData := mkKey { _boolean : option bool; _integer : option Z; _string : option bytes }.

Definition read_key (j : json) (k : KeyData) : exn + KeyData :=
  if IsBool j then bind_exn (rread (optional_codec bool_codec) j (_boolean k)) (fun b => inr (mkKey b (_integer k) (_string k)))
  else if IsInt j || IsInt64 j || IsUint64 j
  then bind_exn (rread (optional_codec int_codec) j (_integer k)) (fun i => inr (mkKey (_boolean k) i (_string k)))
  else if IsString j
  then bind_exn (rread (optional_codec string_codec) j (_string k)) (fun s => inr (mkKey (_boolean k) (_integer k) s))
  else inr k.

(** [None]: nothing is written after the key *)
Definition write_key (k : KeyData) : option json :=
  match _boolean k, _integer k, _string k with
  | Some b, _, _ => Some (JBool b)
  | None, Some i, _ => Some (JNumber i)
  | None, None, Some s => Some (JString s)
  | None, None, None => None
  end.

(** ** [lsp::Any]

    A value kept as its JSON text with a guess or a memo of its type.  The
    parser and the printer are rapidjson's. *)
Inductive any_type := kUnKnown | kNullType | kFalseType | kTrueType | kObjectType | kArrayType | kStringType | kNumberType.
#[export] Instance any_type_eq_dec : EqDecision any_type.
Proof. solve_decision. Defined.

Record Any := mkAny { any_data : bytes; jsonType : any_type }.

(** [rapidjson::Value::GetType] *)
Definition type_of (j : json) : any_type :=
  match j with
  | JNull => kNullType
  | JBool false => kFalseType
  | JBool true => kTrueType
  | JNumber _ | JDouble _ => kNumberType
  | JString _ => kStringType
  | JArray _ => kArrayType
  | JObject _ => kObjectType
  end.

Definition quote_char : byte := Byte.x22.

(** The type that [GuessType] returns and stores *)
Definition GuessType (a : Any) : any_type :=
  match any_data a with
  | [] => if bool_decide (jsonType a <> kUnKnown) then jsonType a else kNullType
  | c :: rest =>
      if bool_decide (any_data a = lit "null") then kNullType
      else if bool_decide (any_data a = lit "true") then kTrueType
      else if bool_decide (any_data a = lit "false") then kFalseType
      else if ceq c "{" then kObjectType
      else if ceq c "[" then
        match rest with d :: _ => if ceq d "{" then kStringType else kArrayType | [] => kArrayType end
      else if ceq c quote_char then kStringType
      else kNumberType
  end.

Section AnyValue.
Variable Parse : bytes -> option json.   (** [Document::Parse]; [None]: a parse error *)
Variable Print : json -> bytes.          (** the text the writer makes *)

Definition GetType (a : Any) : any_type :=
  if bool_decide (jsonType a = kUnKnown) then
    match any_data a with
    | [] => kNullType
    | d => match Parse d with Some j => type_of j | None => kUnKnown end
    end
  else jsonType a.

(** [SetJsonString]: the type given is kept unless it is unknown *)
Definition SetJsonString (d : bytes) (t : any_type) : Any := mkAny d (GetType (mkAny d t)).

(** [Any::Set]: write, then guess *)
Definition Any_Set {T} (c : codec T) (v : T) (a : Any) : Any :=
  let d := c_str (Print (rwrite c v)) in mkAny d (GuessType (mkAny d (jsonType a))).

(** [Any::Get]: [None] is the null pointer that [GetReader] returns for a
    parse error and [Get] dereferences *)
Definition Any_Get {T} (c : codec T) (a : Any) (v : T) : option (exn + T) :=
  match Parse (any_data a) with
  | Some j => Some (rread c j v)
  | None => None
  end.

(** [copy.erase(find_last_not_of('"') + 1)], then [copy.erase(0, find_first_not_of('"'))] *)
Definition strip_quotes (s : bytes) : bytes :=
  let s := match find_last_not_of quote_char s with Some i => take (S i) s | None => [] end in
  match find_first_not_of quote_char s with Some i => drop i s | None => [] end.

(** [GetForMapHelper] for a member that is not a string: a quoted number or
    flag is read as such *)
Definition GetForMapHelper {T} (c : codec T) (a : Any) (v : T) : option (exn + T) :=
  if bool_decide (GetType a = kStringType)
  then Any_Get c (SetJsonString (strip_quotes (any_data a)) kUnKnown) v
  else Any_Get c a v.

(** [Reflect(Reader&, lsp::Any&)]: the text of the node with its type *)
Definition read_any (j : json) (_ : Any) : exn + Any := inr (SetJsonString (Print j) (type_of j)).

(** What is set is got back, when the text is one that the parser reads back. *)
Theorem any_set_get {T} (c : codec T) (valid : T -> Prop) (v : T) (a : Any) :
  Roundtrip c valid -> valid v ->
  Parse (c_str (Print (rwrite c v))) = Some (rwrite c v) ->
  Any_Get c (Any_Set c v a) (rinit c) = Some (inr v).
Proof.
  intros Hr Hv Hp. unfold Any_Get, Any_Set. cbn [any_data]. rewrite Hp. by rewrite (Hr v Hv).
Qed.

(** An [Any] whose text is not JSON makes [Get] dereference a null pointer. *)
Theorem any_get_invalid {T} (c : codec T) (a : Any) (v : T) :
  Parse (any_data a) = None -> Any_Get c a v = None.
Proof. unfold Any_Get. by intros ->. Qed.

(** [Reflect(Writer&, lsp::Any&)] puts the text into the document as it is
    ([RawValue]); in the tree that is the value the text spells.  A text that
    spells none breaks the document and is outside [any_text_valid]. *)
Definition write_any (a : Any) : json := default JNull (Parse (any_data a)).

Definition any_codec : codec Any := mkCodec read_any write_any (mkAny [] kUnKnown).

Definition any_text_valid (a : Any) : Prop :=
  exists j, Parse (any_data a) = Some j /\ Print j = any_data a /\ jsonType a = type_of j.
Definition any_value_valid (a : Any) : Prop := any_text_valid a /\ jsonType a <> kNullType.

Lemma type_of_known j : type_of j <> kUnKnown.
Proof. by destruct j as [|[]| | | | |]. Qed.

#[export] Instance any_roundtrip : Roundtrip any_codec any_text_valid.
Proof.
  intros [d t] (j & Hp & Hd & Ht). cbn in *. subst t. unfold write_any. cbn [any_data]. rewrite Hp. cbn.
  unfold read_any, SetJsonString, GetType. cbn. rewrite bool_decide_eq_false_2 by apply type_of_known.
  by rewrite Hd.
Qed.

#[export] Instance any_value_roundtrip : Roundtrip any_codec any_value_valid.
Proof. intros a [Ha _]. by apply any_roundtrip. Qed.

#[export] Instance any_value_not_null : NotNull any_codec any_value_valid.
Proof.
  intros [d t] [(j & Hp & _ & Ht) Hn]. cbn in *. unfold write_any. cbn [any_data]. rewrite Hp. cbn.
  by destruct j; subst t.
Qed.

End AnyValue.

(** ** Errors of a response *)

Record lsResponseError := mkError { code : Z; error_message : bytes; error_data : option Any }.

Definition error_name (c : Z) : option bytes :=
  if (c =? -32700)%Z then Some (lit "ParseError")
  else if (c =? -32600)%Z then Some (lit "InvalidRequest")
  else if (c =? -32601)%Z then Some (lit "MethodNotFound")
  else if (c =? -32602)%Z then Some (lit "InvalidParams")
  else if (c =? -32603)%Z then Some (lit "InternalError")
  else if (c =? -32099)%Z then Some (lit "serverErrorStart")
  else if (c =? -32000)%Z then Some (lit "serverErrorEnd")
  else if (c =? -32002)%Z then Some (lit "ServerNotInitialized")
  else if (c =? -32001)%Z then Some (lit "UnknownErrorCode")
  else if (c =? -32800)%Z then Some (lit "RequestCancelled")
  else None.

(** [lsResponseError::ToString] *)
Definition error_ToString (e : lsResponseError) : bytes :=
  lit "code:" ++
  (match error_name (code e) with
   | Some n => n
   | None => lit "unknown code:" ++ to_string (code e)
   end) ++ [LF] ++
  lit "message:" ++ error_message e ++ [LF] ++
  match error_data e with Some d => lit "data:" ++ any_data d ++ [LF] | None => [] end.

(** [lsErrorCodes] *)
Inductive lsErrorCodes :=
| ParseError | InvalidRequest | MethodNotFound | InvalidParams | InternalError
| jsonrpcReservedErrorRangeStart | serverErrorStart | jsonrpcReservedErrorRangeEnd | serverErrorEnd
| ServerNotInitialized | UnknownErrorCode
| lspReservedErrorRangeStart | ServerCancelled | ContentModified | RequestCancelled | lspReservedErrorRangeEnd.

Definition error_code (c : lsErrorCodes) : Z :=
  match c with
  | ParseError => -32700 | InvalidRequest => -32600 | MethodNotFound => -32601 | InvalidParams => -32602
  | InternalError => -32603
  | jsonrpcReservedErrorRangeStart | serverErrorStart => -32099
  | jsonrpcReservedErrorRangeEnd | serverErrorEnd => -32000
  | ServerNotInitialized => -32002 | UnknownErrorCode => -32001
  | lspReservedErrorRangeStart => -32899
  | ServerCancelled => -32802 | ContentModified => -32801
  | RequestCancelled | lspReservedErrorRangeEnd => -32800
  end%Z.

Definition in_reserved (first last : lsErrorCodes) (c : lsErrorCodes) : bool :=
  (error_code first <=? error_code c)%Z && (error_code c <=? error_code last)%Z.

(** Besides the bounds themselves only the two codes kept for compatibility
    lie in the range reserved by JSON-RPC, and the codes of the protocol since
    3.16 lie in the range reserved for it.  [ToString] names every code but
    [ServerCancelled], [ContentModified] and the start of that range. *)
Theorem error_codes_reserved (c : lsErrorCodes) :
  (in_reserved jsonrpcReservedErrorRangeStart jsonrpcReservedErrorRangeEnd c = true <->
     c ∈ [jsonrpcReservedErrorRangeStart; serverErrorStart; jsonrpcReservedErrorRangeEnd; serverErrorEnd;
          ServerNotInitialized; UnknownErrorCode]) /\
  (in_reserved lspReservedErrorRangeStart lspReservedErrorRangeEnd c = true <->
     c ∈ [lspReservedErrorRangeStart; ServerCancelled; ContentModified; RequestCancelled; lspReservedErrorRangeEnd]) /\
  (error_name (error_code c) = None <-> c ∈ [lspReservedErrorRangeStart; ServerCancelled; ContentModified]).
Proof. destruct c; cbn; split_and!; split; intros H; try done; set_solver. Qed.

(** [lsResponseError::Write]: the members it writes *)
Definition error_Write (e : lsResponseError) : json :=
  JObject (WriteMember int_codec (lit "code") (code e) ++
           WriteMember string_codec (lit "message") (error_message e)).

(** The shape of the texts that rapidjson's compact writer makes *)
Fixpoint spells (j : json) (s : bytes) : Prop :=
  match j with
  | JNull => s = lit "null"
  | JBool true => s = lit "true"
  | JBool false => s = lit "false"
  | JNumber _ | JDouble _ => exists c r, s = c :: r /\ (StringRef.between "0" "9" c || ceq c "-") = true
  | JString _ => exists r, s = quote_char :: r
  | JObject _ => exists r, s = "{"%byte :: r
  | JArray [] => s = lit "[]"
  | JArray (e :: _) => exists t r, s = "["%byte :: t ++ r /\ spells e t
  end.

Definition starts_with_object (j : json) : bool :=
  match j with JArray (JObject _ :: _) => true | _ => false end.

Lemma spells_head j s : spells j s ->
  exists c r, s = c :: r /\
    ceq c "{" = match j with JObject _ => true | _ => false end /\
    ceq c "[" = match j with JArray _ => true | _ => false end /\
    ceq c quote_char = match j with JString _ => true | _ => false end.
Proof.
  assert (Hnum : forall c, (StringRef.between "0" "9" c || ceq c "-") = true ->
    ceq c "{" = false /\ ceq c "[" = false /\ ceq c quote_char = false).
  { intros c Hc. assert (H : implb (StringRef.between "0" "9" c || ceq c "-")
      (negb (ceq c "{") && negb (ceq c "[") && negb (ceq c quote_char)) = true)
      by (revert c Hc; intros c _; revert c; apply byte_forall; vm_compute; reflexivity).
    rewrite Hc in H. cbn [implb] in H. repeat (apply andb_true_iff in H as [H ?]). by rewrite !negb_true_iff in *. }
  destruct j as [|[]|z|t|t|[|e l]|ms]; cbn [spells]; intros H; subst;
    try (do 2 eexists; split; [reflexivity|split_and!; reflexivity]).
  - destruct H as (c & r & -> & Hc). exists c, r. split; [done|]. by apply Hnum.
  - destruct H as (c & r & -> & Hc). exists c, r. split; [done|]. by apply Hnum.
  - destruct H as (r & ->). exists quote_char, r. split; [done|]. split_and!; reflexivity.
  - destruct H as (t & r & -> & _). exists "["%byte, (t ++ r). split; [done|]. split_and!; reflexivity.
  - destruct H as (r & ->). exists "{"%byte, r. split; [done|]. split_and!; reflexivity.
Qed.

Lemma spells_literal j s w b :
  spells j s -> w ∈ [lit "null"; lit "true"; lit "false"] -> bool_decide (s = w) = b ->
  b = match j with
      | JNull => bool_decide (w = lit "null")
      | JBool true => bool_decide (w = lit "true")
      | JBool false => bool_decide (w = lit "false")
      | _ => false
      end.
Proof.
  intros Hs Hw <-. assert (Hw' : w = lit "null" \/ w = lit "true" \/ w = lit "false") by (set_unfold in Hw; tauto).
  clear Hw. destruct j as [|[]|z|t|t|[|e l]|ms]; cbn [spells] in Hs;
    try (subst s; by apply bool_decide_ext; split; congruence);
    apply bool_decide_eq_false_2; intros Heq; subst w.
  - destruct Hs as (c & r & E & Hc). destruct Hw' as [H|[H|H]]; rewrite H in E; by injection E as <- _.
  - destruct Hs as (c & r & E & Hc). destruct Hw' as [H|[H|H]]; rewrite H in E; by injection E as <- _.
  - destruct Hs as (r & E). destruct Hw' as [H|[H|H]]; by rewrite H in E.
  - destruct Hw' as [H|[H|H]]; by rewrite H in Hs.
  - destruct Hs as (t & r & E & _). destruct Hw' as [H|[H|H]]; by rewrite H in E.
  - destruct Hs as (r & E). destruct Hw' as [H|[H|H]]; by rewrite H in E.
Qed.

(** The type that [GuessType] finds from the first characters of a text is
    the type of the value, except that an array whose first element is an
    object is taken for a string. *)
Theorem GuessType_spec (j : json) (s : bytes) (old : any_type) :
  spells j s ->
  GuessType (mkAny s old) = if starts_with_object j then kStringType else type_of j.
Proof.
  intros Hs. destruct (spells_head j s Hs) as (c & r & E & H1 & H2 & H3).
  unfold GuessType. cbn [any_data]. rewrite E. rewrite <- E.
  rewrite (spells_literal j s (lit "null") _ Hs ltac:(set_solver) eq_refl).
  rewrite (spells_literal j s (lit "true") _ Hs ltac:(set_solver) eq_refl).
  rewrite (spells_literal j s (lit "false") _ Hs ltac:(set_solver) eq_refl).
  rewrite H1, H2, H3. destruct j as [|[]|z|t|t|[|e l]|ms]; try done.
  - cbn [spells] in Hs. subst s. by injection E as _ <-.
  - cbn [spells] in Hs. destruct Hs as (t & r' & -> & He). injection E as _ <-.
    destruct (spells_head e t He) as (d & t' & -> & Hd & _). cbn [app]. rewrite Hd. by destruct e.
Qed.

Lemma GuessType_spec_witness :
  spells (JArray [JObject []]) (lit "[{}]") /\ GuessType (mkAny (lit "[{}]") kUnKnown) = kStringType.
Proof.
  assert (H : spells (JArray [JObject []]) (lit "[{}]")) by (exists (lit "{}"), (lit "]"); split; [done|by eexists]).
  split; [exact H|]. exact (GuessType_spec _ _ kUnKnown H).
Defined.

(** ** Resource operations *)

(** [CreateFileOptions] and [DeleteFileOptions] have defaults of [false]. *)
Record FileOptions := mkOptions { flag1 : option bool; flag2 : option bool }.
Definition options_codec (n1 n2 : bytes) : codec FileOptions :=
  struct_codec (opt_field_init n1 bool_codec (Some false) ⊗ opt_field_init n2 bool_codec (Some false))
    (fun '(a, b) => mkOptions a b) (fun o => (flag1 o, flag2 o)).
Definition CreateFileOptions_codec := options_codec (lit "overwrite") (lit "ignoreIfExists").
Definition DeleteFileOptions_codec := options_codec (lit "recursive") (lit "ignoreIfNotExists").

Record lsCreateFile := mkCreate {
  create_kind : bytes; create_uri : lsDocumentUri; create_options : option FileOptions;
  create_annotation : option bytes }.
Definition lsCreateFile_codec : codec lsCreateFile :=
  struct_codec (field_init (lit "kind") string_codec (lit "create") ⊗ field (lit "uri") lsDocumentUri_codec ⊗
                opt_field (lit "options") CreateFileOptions_codec ⊗ opt_field (lit "annotationId") string_codec)
    (fun '(k, (u, (o, a))) => mkCreate k u o a)
    (fun c => (create_kind c, (create_uri c, (create_options c, create_annotation c)))).

Record lsRenameFile := mkRename {
  rename_kind : bytes; oldUri : lsDocumentUri; newUri : lsDocumentUri; rename_options : option FileOptions;
  rename_annotation : option bytes }.
Definition lsRenameFile_codec : codec lsRenameFile :=
  struct_codec (field_init (lit "kind") string_codec (lit "rename") ⊗ field (lit "oldUri") lsDocumentUri_codec ⊗
                field (lit "newUri") lsDocumentUri_codec ⊗
                opt_field (lit "options") CreateFileOptions_codec ⊗ opt_field (lit "annotationId") string_codec)
    (fun '(k, (o, (n, (p, a)))) => mkRename k o n p a)
    (fun r => (rename_kind r, (oldUri r, (newUri r, (rename_options r, rename_annotation r))))).

Record lsDeleteFile := mkDelete {
  delete_kind : bytes; delete_uri : lsDocumentUri; delete_options : option FileOptions }.
Definition lsDeleteFile_codec : codec lsDeleteFile :=
  struct_codec (field_init (lit "kind") string_codec (lit "delete") ⊗ field (lit "uri") lsDocumentUri_codec ⊗
                opt_field (lit "options") DeleteFileOptions_codec)
    (fun '(k, (u, o)) => mkDelete k u o) (fun d => (delete_kind d, (delete_uri d, delete_options d))).

Inductive ResourceOperation :=
| CreateFile (c : lsCreateFile) | RenameFile (r : lsRenameFile) | DeleteFile (d : lsDeleteFile).

Definition op_kind (o : ResourceOperation) : bytes :=
  match o with CreateFile c => create_kind c | RenameFile r => rename_kind r | DeleteFile d => delete_kind d end.

(** The writer of a [ResourceOperation] pointer looks at [kind] to find the type of
    the object; [None]: the cast to another type is undefined, or nothing is
    written *)
Definition write_operation (o : ResourceOperation) : option json :=
  match o with
  | CreateFile c => if bool_decide (create_kind c = lit "create") then Some (rwrite lsCreateFile_codec c) else None
  | RenameFile r => if bool_decide (rename_kind r = lit "rename") then Some (rwrite lsRenameFile_codec r) else None
  | DeleteFile d => if bool_decide (delete_kind d = lit "delete") then Some (rwrite lsDeleteFile_codec d) else None
  end.

Definition read_or_null {T} (c : codec T) (k : T -> ResourceOperation) (j : json) : option ResourceOperation :=
  match rread c j (rinit c) with inr v => Some (k v) | inl _ => None end.

(** [GetResourceOperation] on a document that was parsed.  [None]:
    [FindMember] of a value that is no object, or the end iterator, which is
    dereferenced when there is no member [kind]. *)
Definition GetResourceOperation (j : json) : option (option ResourceOperation) :=
  match j with
  | JObject ms =>
      match FindMember (lit "kind") ms with
      | None => None
      | Some k =>
          let kind_is s := match k with JString t => bool_decide (t = s) | _ => false end in
          Some (if kind_is (lit "create") then read_or_null lsCreateFile_codec CreateFile j
                else if kind_is (lit "rename") then read_or_null lsRenameFile_codec RenameFile j
                else if kind_is (lit "delete") then read_or_null lsDeleteFile_codec DeleteFile j
                else None)
      end
  | _ => None
  end.

Definition options_valid (o : FileOptions) : Prop := is_Some (flag1 o) /\ is_Some (flag2 o).

Lemma options_roundtrip n1 n2 : bool_decide (n1 = n2) = false -> Roundtrip (options_codec n1 n2) options_valid.
Proof.
  intros Hn. eapply struct_roundtrip_valid; [by intros []|reflexivity| |].
  - apply pair_roundtrip; [|apply opt_field_init_roundtrip; typeclasses eauto..].
    unfold names_disjoint. cbn. rewrite (bool_decide_eq_false_2 (n1 ∈ [n2])); [done|].
    apply bool_decide_eq_false in Hn. set_solver.
  - intros [a b] [[x Ha] [y Hb]]. cbn in *. subst. by split; split.
Qed.

Lemma options_not_null n1 n2 valid : NotNull (options_codec n1 n2) valid.
Proof. apply struct_not_null. Qed.

Definition operation_valid (o : ResourceOperation) : Prop :=
  match o with
  | CreateFile c => create_kind c = lit "create" /\ uri_valid (create_uri c) /\
      opt_valid options_valid (create_options c) /\ opt_valid text_valid (create_annotation c)
  | RenameFile r => rename_kind r = lit "rename" /\ uri_valid (oldUri r) /\ uri_valid (newUri r) /\
      opt_valid options_valid (rename_options r) /\ opt_valid text_valid (rename_annotation r)
  | DeleteFile d => delete_kind d = lit "delete" /\ uri_valid (delete_uri d) /\
      opt_valid options_valid (delete_options d)
  end.

Lemma kind_field_roundtrip name init :
  FieldsRoundtrip (field_init name string_codec init) (fun k => NUL ∉ k).
Proof. apply field_init_roundtrip; typeclasses eauto. Qed.

Ltac operation_law :=
  eapply struct_roundtrip_valid;
  [ by intros []
  | reflexivity
  | repeat first
      [ apply pair_roundtrip; [vm_compute; reflexivity| |]
      | apply kind_field_roundtrip | apply field_roundtrip; typeclasses eauto
      | apply opt_field_roundtrip; [first [apply options_roundtrip; vm_compute; reflexivity|typeclasses eauto]
                                   |first [apply options_not_null|typeclasses eauto]] ]
  | let r := fresh in let H := fresh in intros r H; exact H ].

Lemma create_roundtrip : Roundtrip lsCreateFile_codec
  (fun c => NUL ∉ create_kind c /\ uri_valid (create_uri c) /\
     opt_valid options_valid (create_options c) /\ opt_valid text_valid (create_annotation c)).
Proof. operation_law. Qed.
Lemma rename_roundtrip : Roundtrip lsRenameFile_codec
  (fun r => NUL ∉ rename_kind r /\ uri_valid (oldUri r) /\ uri_valid (newUri r) /\
     opt_valid options_valid (rename_options r) /\ opt_valid text_valid (rename_annotation r)).
Proof. operation_law. Qed.
Lemma delete_roundtrip : Roundtrip lsDeleteFile_codec
  (fun d => NUL ∉ delete_kind d /\ uri_valid (delete_uri d) /\ opt_valid options_valid (delete_options d)).
Proof. operation_law. Qed.

Lemma get_operation_kind j k rest :
  j = JObject ((lit "kind", JString k) :: rest) ->
  GetResourceOperation j =
    Some (if bool_decide (k = lit "create") then read_or_null lsCreateFile_codec CreateFile j
          else if bool_decide (k = lit "rename") then read_or_null lsRenameFile_codec RenameFile j
          else if bool_decide (k = lit "delete") then read_or_null lsDeleteFile_codec DeleteFile j
          else None).
Proof. intros ->. unfold GetResourceOperation. by rewrite FindMember_hd. Qed.

Lemma kinds_no_nul s : s ∈ [lit "create"; lit "rename"; lit "delete"] -> NUL ∉ s.
Proof.
  intros Hs Hn. apply list_elem_of_In in Hs. apply (bool_decide_eq_true_2 _) in Hn.
  destruct Hs as [<-|[<-|[<-|[]]]]; by vm_compute in Hn.
Qed.

Lemma read_or_null_back {T} (c : codec T) k v (valid : T -> Prop) :
  Roundtrip c valid -> valid v -> read_or_null c k (rwrite c v) = Some (k v).
Proof. intros Hr Hv. unfold read_or_null. by rewrite (Hr v Hv). Qed.

(** An operation on a file is written and read back as the same operation. *)
Theorem resource_operation_roundtrip (o : ResourceOperation) :
  operation_valid o ->
  exists j, write_operation o = Some j /\ GetResourceOperation j = Some (Some o).
Proof.
  destruct o as [[k u op a]|[k u n op a]|[k u op]]; cbn [operation_valid]; intros (E & Hv); cbn in E; subst k.
  - exists (rwrite lsCreateFile_codec (mkCreate (lit "create") u op a)). split; [reflexivity|].
    erewrite get_operation_kind by reflexivity. rewrite bool_decide_eq_true_2 by done.
    f_equal. apply (read_or_null_back _ _ _ _ create_roundtrip). split; [apply kinds_no_nul; set_solver|done].
  - exists (rwrite lsRenameFile_codec (mkRename (lit "rename") u n op a)). split; [reflexivity|].
    erewrite get_operation_kind by reflexivity. rewrite bool_decide_eq_false_2, bool_decide_eq_true_2 by done.
    f_equal. apply (read_or_null_back _ _ _ _ rename_roundtrip). split; [apply kinds_no_nul; set_solver|done].
  - exists (rwrite lsDeleteFile_codec (mkDelete (lit "delete") u op)). split; [reflexivity|].
    erewrite get_operation_kind by reflexivity. rewrite !bool_decide_eq_false_2, bool_decide_eq_true_2 by done.
    f_equal. apply (read_or_null_back _ _ _ _ delete_roundtrip). split; [apply kinds_no_nul; set_solver|done].
Qed.

Lemma resource_operation_roundtrip_witness :
  let o := RenameFile (mkRename (lit "rename") (mkDocumentUri (lit "file:///a")) (mkDocumentUri (lit "file:///b"))
             (Some (mkOptions (Some true) (Some false))) None) in
  exists j, write_operation o = Some j /\ GetResourceOperation j = Some (Some o).
Proof.
  intros o. apply resource_operation_roundtrip.
  assert (Hn : forall s : bytes, bool_decide (NUL ∈ s) = false -> NUL ∉ s) by (intros s; by rewrite bool_decide_eq_false).
  split_and!; [reflexivity| | | |exact I]; try (apply Hn; vm_compute; reflexivity).
  split; by eexists.
Defined.

(** A change without a member [kind] makes [GetResourceOperation] read past
    the members. *)
Lemma resource_operation_without_kind : GetResourceOperation (JObject []) = None.
Proof. done. Qed.

(** ** Choosing an alternative *)

(** A list of locations is read back from what is written; a list of links
    only if the first link carries the optional [originSelectionRange], by
    which the reader recognises it. *)
Theorem locations_roundtrip (v : Either (list lsLocation) (list LocationLink)) :
  match v with
  | (Some l, None) => Forall location_valid l
  | (None, Some (x :: l)) => Forall link_valid (x :: l) /\ is_Some (originSelectionRange x)
  | _ => False
  end ->
  exists j, write_locations v = Some j /\ read_locations j (None, None) = Some (inr v).
Proof.
  destruct v as [[l|] [[|x l']|]]; try done; intros Hv; eexists; (split; [reflexivity|]).
  - destruct l as [|y l]; [done|].
    pose proof (vector_roundtrip lsLocation_codec location_valid location_roundtrip (y :: l) Hv) as H.
    unfold read_locations. cbn [rwrite vector_codec map] in *.
    cbn [rwrite lsLocation_codec struct_codec] in *. f_equal.
    replace (FindMember (lit "originSelectionRange") _) with (@None json) by reflexivity.
    unfold read_first. cbn [rread optional_codec IsNull]. by rewrite H.
  - destruct Hv as [Hv [r Hr]].
    pose proof (vector_roundtrip LocationLink_codec link_valid link_roundtrip (x :: l') Hv) as H.
    unfold read_locations. cbn [rwrite vector_codec map] in *.
    cbn [rwrite LocationLink_codec struct_codec] in *. rewrite Hr in *. f_equal.
    replace (FindMember (lit "originSelectionRange") _) with (Some (rwrite lsRange_codec r)) by reflexivity.
    unfold read_second. cbn [rread optional_codec IsNull]. by rewrite H.
Qed.

Lemma locations_roundtrip_witness :
  let r := mkRange (mkPosition 1 0) (mkPosition 1 5) in
  let v := (None, Some [mkLink (Some r) (mkDocumentUri (lit "file:///a")) r r]) in
  exists j, write_locations v = Some j /\ read_locations j (None, None) = Some (inr v).
Proof.
  intros r v. apply locations_roundtrip. split; [|by eexists].
  constructor; [|constructor]. unfold link_valid, uri_valid. cbn.
  assert (Hn : bool_decide (NUL ∈ lit "file:///a") = false) by (vm_compute; reflexivity).
  apply bool_decide_eq_false in Hn. unfold range_valid, position_valid. cbn. split_and!; done.
Defined.

(** A link without [originSelectionRange], which the protocol allows, is read
    as a location, without its target. *)
Theorem link_without_origin_lost (u : lsDocumentUri) (r s : lsRange) :
  exists j, write_locations (None, Some [mkLink None u r s]) = Some j /\
    read_locations j (None, None) = Some (inr (Some [rinit lsLocation_codec], None)).
Proof. eexists. split; reflexivity. Qed.

(** An array of anything but objects fails an assertion of rapidjson. *)
Lemma locations_of_numbers : read_locations (JArray [JNumber 1]) (None, None) = None.
Proof. done. Qed.

(** A marked string without a language is written as a string, but the
    reader expects an object: the text is lost. *)
Theorem marked_string_roundtrip (m : lsMarkedString) :
  text_valid (marked_value m) -> opt_valid text_valid (language m) ->
  rread lsMarkedString_codec (rwrite lsMarkedString_codec m) (rinit lsMarkedString_codec) =
    inr (match language m with Some _ => m | None => mkMarked None [] end).
Proof.
  intros Hv Hl. destruct m as [[l|] v]; [|done]. cbn in Hv, Hl.
  pose proof (struct_roundtrip marked_fields (fun '(l, v) => mkMarked l v)
    (fun m => (language m, marked_value m)) (pair_valid (opt_valid text_valid) text_valid)) as H.
  apply H; [by intros []|reflexivity|members|by split].
Qed.

Lemma marked_string_roundtrip_witness :
  rread lsMarkedString_codec (rwrite lsMarkedString_codec (mkMarked (Some (lit "c")) (lit "int")))
    (rinit lsMarkedString_codec) = inr (mkMarked (Some (lit "c")) (lit "int")).
Proof.
  assert (Hn : forall s : bytes, bool_decide (NUL ∈ s) = false -> NUL ∉ s)
    by (intros s; by rewrite bool_decide_eq_false).
  apply (marked_string_roundtrip (mkMarked (Some (lit "c")) (lit "int"))); apply Hn; vm_compute; reflexivity.
Defined.

#[export] Instance lsTrace_roundtrip : Roundtrip lsTrace_codec (fun _ => True).
Proof. by intros []. Qed.

(** The direction [Children] is read back as [Both]. *)
Theorem hierarchy_direction_lost :
  rread TypeHierarchyDirection_codec (rwrite TypeHierarchyDirection_codec Children) Children = inr Both /\
  (forall d, d <> Children ->
     rread TypeHierarchyDirection_codec (rwrite TypeHierarchyDirection_codec d) Children = inr d).
Proof. split; [done|]. by intros []. Qed.

(** A formatting key of any of its three types survives. *)
Lemma key_roundtrip (k : KeyData) j :
  write_key k = Some j ->
  match k with
  | mkKey (Some _) None None => True
  | mkKey None (Some i) None => int_valid i
  | mkKey None None (Some s) => text_valid s
  | _ => False
  end ->
  read_key j (mkKey None None None) = inr k.
Proof.
  destruct k as [[b|] [i|] [s|]]; try done; cbn; intros [= <-] Hv; try done.
  - unfold read_key. cbn [IsBool].
    cbn [IsInt]. rewrite (in_range_between (- 2 ^ 31) (2 ^ 31 - 1) i Hv). cbn [orb].
    pose proof (int_roundtrip i Hv) as H. cbn [rread rwrite optional_codec int_codec IsNull rinit] in *.
    by rewrite H.
  - unfold read_key. cbn. by rewrite c_str_id.
Qed.

(** ** Semantic tokens *)
Record SemanticToken := mkToken {
  deltaLine : Z; deltaStart : Z; token_length : Z; tokenType : Z; token_modifiers : Z }.

(** [encodeTokens]: the [unsigned] members become [int32_t] *)
Definition encodeTokens (l : list SemanticToken) : list Z :=
  flat_map (fun t => [to_int32 (deltaLine t); to_int32 (deltaStart t); to_int32 (token_length t);
                      to_int32 (tokenType t); to_int32 (token_modifiers t)]) l.

(** What a client does with the array *)
Fixpoint decode_tokens (l : list Z) : option (list SemanticToken) :=
  match l with
  | [] => Some []
  | a :: b :: c :: d :: e :: rest => cons (mkToken a b c d e) <$> decode_tokens rest
  | _ => None
  end.

Definition token_fits (t : SemanticToken) : Prop :=
  Forall (fun z => 0 <= z < 2 ^ 31)%Z
    [deltaLine t; deltaStart t; token_length t; tokenType t; token_modifiers t].

(** The array has five numbers per token and gives the tokens back, as long
    as no number exceeds the largest [int32_t]. *)
Theorem semantic_tokens_roundtrip (l : list SemanticToken) :
  Forall token_fits l ->
  length (encodeTokens l) = 5 * length l /\ decode_tokens (encodeTokens l) = Some l.
Proof.
  induction 1 as [|t l Ht _ [IH1 IH2]]; [done|]. unfold encodeTokens in *. cbn [flat_map app].
  split; [cbn [length] in *; rewrite IH1; lia|].
  unfold token_fits in Ht. rewrite !Forall_cons in Ht. destruct Ht as (? & ? & ? & ? & ? & _).
  rewrite !to_int32_id by lia. cbn [decode_tokens]. rewrite IH2. by destruct t.
Qed.

Lemma semantic_tokens_roundtrip_witness :
  decode_tokens (encodeTokens [mkToken 2 5 3 0 3; mkToken 0 5 4 1 0]) =
  Some [mkToken 2 5 3 0 3; mkToken 0 5 4 1 0].
Proof.
  apply (semantic_tokens_roundtrip [mkToken 2 5 3 0 3; mkToken 0 5 4 1 0]).
  repeat constructor; cbn; lia.
Defined.

(** [toSemanticTokenModifiers] (and [toSemanticTokenType]): a bit per modifier *)
Definition toSemanticTokenModifiers (modifiers : list Z) : Z :=
  fold_left (fun encoded bit => Z.lor encoded (Z.shiftl 1 bit)) modifiers 0%Z.

(** The number is below [2 ^ 10] for the ten modifiers, and its bits are
    exactly the modifiers of the list. *)
Theorem modifiers_bits (modifiers : list Z) (bit : Z) :
  Forall (fun b => 0 <= b < 10)%Z modifiers -> (0 <= bit)%Z ->
  (Z.testbit (toSemanticTokenModifiers modifiers) bit = true <-> bit ∈ modifiers) /\
  (0 <= toSemanticTokenModifiers modifiers < 2 ^ 10)%Z.
Proof.
  intros Hm Hb. unfold toSemanticTokenModifiers.
  assert (H : forall acc, (0 <= acc < 2 ^ 10)%Z ->
    let r := fold_left (fun encoded b => Z.lor encoded (Z.shiftl 1 b)) modifiers acc in
    (Z.testbit r bit = true <-> Z.testbit acc bit = true \/ bit ∈ modifiers) /\ (0 <= r < 2 ^ 10)%Z).
  { induction Hm as [|b l Hbl _ IH]; intros acc Hacc; cbn [fold_left].
    - split; [|done]. set_solver.
    - assert (Hs : (0 <= Z.shiftl 1 b < 2 ^ 10)%Z).
      { rewrite Z.shiftl_1_l. split; [apply Z.pow_nonneg; lia|]. apply Z.pow_lt_mono_r; lia. }
      assert (Hlor : (0 <= Z.lor acc (Z.shiftl 1 b) < 2 ^ 10)%Z).
      { split; [apply Z.lor_nonneg; lia|].
        destruct (decide (Z.lor acc (Z.shiftl 1 b) = 0)%Z) as [->|Hnz]; [lia|].
        apply Z.log2_lt_pow2; [pose proof (proj2 (Z.lor_nonneg acc (Z.shiftl 1 b))); lia|].
        rewrite Z.log2_lor by lia. apply Z.max_lub_lt.
        - destruct (decide (acc = 0)%Z) as [->|]; [done|]. apply Z.log2_lt_pow2; lia.
        - apply Z.log2_lt_pow2; [|lia]. rewrite Z.shiftl_1_l. apply Z.pow_pos_nonneg; lia. }
      destruct (IH _ Hlor) as [IH1 IH2]. split; [|done]. rewrite IH1, Z.lor_spec, orb_true_iff.
      rewrite Z.shiftl_1_l, Z.pow2_bits_eqb, Z.eqb_eq by lia. set_solver. }
  destruct (H 0%Z) as [H1 H2]; [lia|]. split; [|done]. rewrite H1, Z.bits_0. set_solver.
Qed.

Lemma modifiers_bits_witness :
  (Z.testbit (toSemanticTokenModifiers [0; 3]%Z) 3 = true <-> 3%Z ∈ [0; 3]%Z) /\
  toSemanticTokenModifiers [0; 3]%Z = 9%Z.
Proof.
  split; [|reflexivity]. apply (modifiers_bits [0; 3]%Z 3); [repeat constructor; lia|lia].
Defined.

(** ** Names *)
Inductive SemanticTokenType :=
| ls_namespace | ls_type | ls_class | ls_enum | ls_interface | ls_struct | ls_typeParameter
| ls_parameter | ls_variable | ls_property | ls_enumMember | ls_event | ls_function | ls_method
| ls_macro | ls_keyword | ls_modifier | ls_comment | ls_string | ls_number | ls_regexp | ls_operator.

Definition token_type_name (t : SemanticTokenType) : bytes :=
  match t with
  | ls_namespace => lit "namespace" | ls_type => lit "type" | ls_class => lit "class"
  | ls_enum => lit "enum" | ls_interface => lit "interface" | ls_struct => lit "struct"
  | ls_typeParameter => lit "typeParameter" | ls_parameter => lit "parameter"
  | ls_variable => lit "variable" | ls_property => lit "property" | ls_enumMember => lit "enumMember"
  | ls_event => lit "event" | ls_function => lit "function" | ls_method => lit "method"
  | ls_macro => lit "macro" | ls_keyword => lit "keyword" | ls_modifier => lit "modifier"
  | ls_comment => lit "comment" | ls_string => lit "string" | ls_number => lit "number"
  | ls_regexp => lit "regexp" | ls_operator => lit "operator"
  end.

Inductive SemanticTokenModifier :=
| ls_declaration | ls_definition | ls_readonly | ls_static | ls_deprecated | ls_abstract | ls_async
| ls_modification | ls_documentation | ls_defaultLibrary.

Definition modifier_name (m : SemanticTokenModifier) : bytes :=
  match m with
  | ls_declaration => lit "declaration" | ls_definition => lit "definition"
  | ls_readonly => lit "readonly" | ls_static => lit "static" | ls_deprecated => lit "deprecated"
  | ls_abstract => lit "abstract" | ls_async => lit "async" | ls_modification => lit "modification"
  | ls_documentation => lit "documentation" | ls_defaultLibrary => lit "defaultLibrary"
  end.

(** A legend can be used to find the type again: the names differ. *)
Lemma token_names_inj :
  (forall a b, token_type_name a = token_type_name b -> a = b) /\
  (forall a b, modifier_name a = modifier_name b -> a = b).
Proof. split; intros [] []; done. Qed.

(** [lsp::ToString(lsCompletionItemKind)]: the kinds are numbered from 1 for
    Text to 25 for TypeParameter *)
Definition completion_kind_name (k : Z) : bytes :=
  match k with
  | 1 => lit "Text" | 2 => lit "Method" | 3 => [] | 4 => lit "Function"
  | 5 => lit "Field" | 6 => [] | 7 => lit "Variable" | 8 => lit "Interface"
  | 9 => lit "Module" | 10 => lit "Property" | 11 => lit "Unit" | 12 => lit "Value"
  | 13 => lit "Enum" | 14 => lit "Keyword" | 15 => lit "Snippet" | 16 => lit "Color"
  | 17 => lit "File" | 18 => lit "Reference" | 19 => lit "Folder" | 20 => lit "EnumMember"
  | 21 => lit "Constant" | 22 => lit "Struct" | 23 => lit "Event" | 24 => lit "Operator"
  | 25 => lit "TypeParameter"
  | _ => lit "Unknown"
  end%Z.

(** Function (3) and Variable (6) have no name; Constructor (4) and Class (7)
    have theirs. *)
Lemma completion_kind_names_wrong :
  completion_kind_name 3 = [] /\ completion_kind_name 6 = [] /\
  completion_kind_name 4 = lit "Function" /\ completion_kind_name 7 = lit "Variable".
Proof. done. Qed.

(** [lsp::ToString(lsInsertTextFormat)] *)
Definition insert_format_name (k : Z) : bytes :=
  match k with 1%Z => lit "PlainText" | 2%Z => lit "Snippet" | _ => lit "Unknown" end.

(** [lsPosition::ToString], [lsRange::ToString], [lsTextEdit::ToString] *)
Definition position_ToString (p : lsPosition) : bytes :=
  to_string (Z.of_N (line p)) ++ lit ":" ++ to_string (Z.of_N (character p)).
Definition range_ToString (r : lsRange) : bytes :=
  lit "start:" ++ position_ToString (range_start r) ++ [LF] ++
  lit "end" ++ position_ToString (range_end r) ++ [LF].
Definition edit_ToString (e : lsTextEdit) : bytes :=
  lit "Range:" ++ range_ToString (edit_range e) ++ [LF] ++ lit "newText:" ++ newText e ++ [LF].

(** [lsTextEdit::operator==] does not compare [annotationId]; [lsDiagnostic]
    is compared by range and message *)
Definition edit_eqb (a b : lsTextEdit) : bool :=
  range_eqb (edit_range a) (edit_range b) && bool_decide (newText a = newText b).

(** [lsLocation::operator==] and [operator<] *)
Definition location_eqb (a b : lsLocation) : bool :=
  bool_decide (uri a = uri b) && range_eqb (range a) (range b).

(** ** Identifiers: [generate_uuid_v4]

    The two random 64-bit numbers are arguments. *)
Definition bytes_of_u64 (p : Z) : list Z :=
  map (fun i => (Z.shiftr p (8 * (7 - Z.of_nat i)) `mod` 256)%Z) (seq 0 8).

Definition uuid_bytes (part1 part2 : Z) : list Z :=
  let b := bytes_of_u64 part1 ++ bytes_of_u64 part2 in
  let b := alter (fun x => Z.lor (Z.land x 15) 64) 6 b in
  alter (fun x => Z.lor (Z.land x 63) 128) 8 b.

Definition hex_digit (n : Z) : byte := if (n <? 10)%Z then byte_of (48 + n) else byte_of (87 + n).

(** [std::hex << std::setw(2) << setfill('0')] of a byte *)
Definition hex2 (b : Z) : bytes := [hex_digit (b / 16); hex_digit (b mod 16)].

(** The groups of 4, 2, 2, 2 and 6 bytes with hyphens between them *)
Fixpoint uuid_groups (groups : list nat) (b : list Z) : bytes :=
  match groups with
  | [] => []
  | [n] => concat (map hex2 (take n b))
  | n :: rest => concat (map hex2 (take n b)) ++ lit "-" ++ uuid_groups rest (drop n b)
  end.

Definition generate_uuid_v4 (part1 part2 : Z) : bytes := uuid_groups [4; 2; 2; 2; 6] (uuid_bytes part1 part2).

Definition is_hex (c : byte) : bool := StringRef.between "0" "9" c || StringRef.between "a" "f" c.

(** Hyphens at 8, 13, 18, 23; the version 4 at 14; the variant at 19; hexadecimal digits elsewhere *)
Definition uuid_char_ok (i : nat) (c : byte) : bool :=
  if (i =? 8) || (i =? 13) || (i =? 18) || (i =? 23) then ceq c "-"
  else if i =? 14 then ceq c "4"
  else if i =? 19 then ceq c "8" || ceq c "9" || ceq c "a" || ceq c "b"
  else is_hex c.

Lemma hex_digit_ok n : (0 <= n < 16)%Z -> is_hex (hex_digit n) = true.
Proof.
  intros Hn. assert (H : forallb (fun k => is_hex (hex_digit (Z.of_nat k))) (seq 0 16) = true) by reflexivity.
  rewrite forallb_forall in H. specialize (H (Z.to_nat n)). rewrite Z2Nat.id in H by lia.
  apply H, in_seq. lia.
Qed.

Lemma byte_range_uuid i p : (0 <= (Z.shiftr p i `mod` 256) < 256)%Z.
Proof. apply Z.mod_pos_bound. lia. Qed.

Lemma hex2_ok b : (0 <= b < 256)%Z -> is_hex (hex_digit (b / 16)) = true /\ is_hex (hex_digit (b mod 16)) = true.
Proof.
  intros Hb. split; apply hex_digit_ok.
  - split; [apply Z.div_pos; lia|apply Z.div_lt_upper_bound; lia].
  - apply Z.mod_pos_bound. lia.
Qed.

(** A finite check over the bytes *)
Lemma byte_check (P : Z -> bool) b :
  forallb (fun k => P (Z.of_nat k)) (seq 0 256) = true -> (0 <= b < 256)%Z -> P b = true.
Proof.
  intros H Hb. rewrite forallb_forall in H. specialize (H (Z.to_nat b)). rewrite Z2Nat.id in H by lia.
  apply H, in_seq. lia.
Qed.

Lemma version_ok b : (0 <= b < 256)%Z ->
  let v := Z.lor (Z.land b 15) 64 in ceq (hex_digit (v / 16)) "4" && is_hex (hex_digit (v mod 16)) = true.
Proof.
  intros Hb v. subst v. apply (byte_check (fun b => let v := Z.lor (Z.land b 15) 64 in
    ceq (hex_digit (v / 16)) "4" && is_hex (hex_digit (v mod 16))) b); [|done]. vm_compute. reflexivity.
Qed.

Lemma variant_ok b : (0 <= b < 256)%Z ->
  let v := Z.lor (Z.land b 63) 128 in
  let c := hex_digit (v / 16) in
  (ceq c "8" || ceq c "9" || ceq c "a" || ceq c "b") && is_hex (hex_digit (v mod 16)) = true.
Proof.
  intros Hb v c. subst v c. apply (byte_check (fun b => let v := Z.lor (Z.land b 63) 128 in
    let c := hex_digit (v / 16) in
    (ceq c "8" || ceq c "9" || ceq c "a" || ceq c "b") && is_hex (hex_digit (v mod 16))) b); [|done].
  vm_compute. reflexivity.
Qed.

(** Whatever the random numbers, the result has the form of a version 4 UUID:
    36 characters, hyphens at the right places, the version and the variant. *)
Theorem uuid_format (part1 part2 : Z) :
  length (generate_uuid_v4 part1 part2) = 36 /\
  forall i c, generate_uuid_v4 part1 part2 !! i = Some c -> uuid_char_ok i c = true.
Proof.
  unfold generate_uuid_v4, uuid_bytes, bytes_of_u64. cbn [map seq app].
  repeat match goal with |- context [(Z.shiftr ?p ?k `mod` 256)%Z] =>
    let b := fresh "b" in pose proof (byte_range_uuid k p) as ?H;
    set (b := (Z.shiftr p k `mod` 256)%Z) in *; clearbody b end.
  cbn [alter list_alter uuid_groups take drop map concat hex2 app]. split; [reflexivity|].
  intros i c Hi.
  repeat match goal with H : (0 <= ?b < 256)%Z |- _ =>
    pose proof (hex2_ok b H) as [? ?];
    pose proof (proj1 (andb_true_iff _ _) (version_ok b H)) as [? ?];
    pose proof (proj1 (andb_true_iff _ _) (variant_ok b H)) as [? ?]; clear H end.
  do 36 (destruct i as [|i];
    [injection Hi as <-; cbn [uuid_char_ok Nat.eqb orb]; first [assumption | reflexivity]|]).
  destruct i; discriminate Hi.
Qed.
