(* ===== verification/AnyMap.v ===== *)
(** * Structs read from maps of values

    [Any::GetFromMap], [REFLECT_MAP_TO_STRUCT] and the overloads of
    [ReflectMember] for maps (include/LibLsp/lsp/lsAny.h), which read a struct
    from a document whose numbers and flags may be written as strings. *)
From S2P Require Import Prelude CppString Position Utils Uri Json StringRef Reflect LspTypes.

(** [std::map::find] *)
Fixpoint map_find {V} (k : bytes) (m : list (bytes * V)) : option V :=
  match m with
  | [] => None
  | (k', v) :: rest => if bool_decide (k' = k) then Some v else map_find k rest
  end.

(** [Any::swap] *)
Definition any_swap (a b : Any) : Any * Any := (mkAny (any_data b) (jsonType b), mkAny (any_data a) (jsonType a)).

(** [Any::Set(std::unique_ptr<LspMessage>)] with the text of the message;
    [None]: the assertion of a null pointer *)
Definition Any_Set_message (text : option bytes) (a : Any) : option Any :=
  (fun t => mkAny t kObjectType) <$> text.

Section AnyMap.
Variable Parse : bytes -> option json.
Variable Print : json -> bytes.

(** [GetForMapHelper] by the type of the member: the overloads for
    [std::string] and [optional<std::string>], and the template *)
Definition GetForMap {T} (is_text : bool) (c : codec T) (a : Any) (v : T) : option (exn + T) :=
  if is_text then Any_Get Parse c a v else GetForMapHelper Parse c a v.

(** The two maps that [ReflectMap] can visit *)
Inductive visitor := OfAny (m : list (bytes * Any)) | OfText (m : list (bytes * bytes)).

(** [ReflectMember(visitor, name, value)]; [None]: a null pointer is
    dereferenced *)
Definition ReflectMapMember {T} (name : bytes) (is_text : bool) (c : codec T) (m : visitor) (v : T)
    : option (exn + T) :=
  match m with
  | OfAny l => match map_find name l with Some a => GetForMap is_text c a v | None => Some (inr v) end
  | OfText l =>
      match map_find name l with
      | Some s => Any_Get Parse c (SetJsonString Parse s kUnKnown) v
      | None => Some (inr v)
      end
  end.

(** [REFLECT_MAP_TO_STRUCT]: the members in their order *)
Definition map_member (T : Type) := visitor -> T -> option (exn + T).
Definition map_pair {A B} (f : map_member A) (g : map_member B) : map_member (A * B) := fun m '(a, b) =>
  match f m a with
  | None => None
  | Some (inl e) => Some (inl e)
  | Some (inr a') =>
      match g m b with
      | None => None
      | Some (inl e) => Some (inl e)
      | Some (inr b') => Some (inr (a', b'))
      end
  end.

(** [Any::GetFromMap] *)
Definition GetFromMap {T} (ReflectMap : map_member T) (a : Any) (v : T) : option (exn + T) :=
  match Parse (any_data a) with
  | None => None
  | Some j =>
      match rread (map_codec (any_codec Parse Print)) j [] with
      | inl e => Some (inl e)
      | inr temp => ReflectMap (OfAny temp) v
      end
  end.

(** ** What the map holds *)

Lemma map_find_set {V} k k' (v : V) l :
  map_find k (map_set k' v l) = if bool_decide (k' = k) then Some v else map_find k l.
Proof.
  induction l as [|[n w] l IH]; cbn [map_set map_find]; [done|].
  destruct (bool_decide_reflect (k' = n)) as [->|Hn]; cbn [map_find].
  - by destruct (bool_decide (n = k)).
  - destruct (string_lt k' n); cbn [map_find]; [done|]. rewrite IH.
    destruct (bool_decide_reflect (n = k)), (bool_decide_reflect (k' = k)); congruence.
Qed.

(** The document can be printed member by member and parsed again *)
Definition printable (ms : list (bytes * json)) : Prop :=
  NoDup (map fst ms) /\ Forall (fun e => NUL ∉ e.1 /\ Parse (Print e.2) = Some e.2) ms.

Definition as_any (j : json) : Any := mkAny (Print j) (type_of j).

Lemma read_any_as_any j a : read_any Parse Print j a = inr (as_any j).
Proof.
  unfold read_any, SetJsonString, GetType, as_any. cbn [jsonType any_data].
  by rewrite bool_decide_eq_false_2 by apply type_of_known.
Qed.

Lemma read_map_entries ms acc :
  NoDup (map fst ms) -> Forall (fun e => NUL ∉ e.1) ms ->
  exists temp,
    foldl (fun a '(k, e) => bind_exn a (fun v =>
      bind_exn (rread (any_codec Parse Print) e (rinit (any_codec Parse Print)))
        (fun x => inr (map_set (c_str k) x v)))) (inr acc) ms = inr temp /\
    forall k, map_find k temp = match FindMember k ms with Some j => Some (as_any j) | None => map_find k acc end.
Proof.
  revert acc. induction ms as [|[n j] ms IH]; intros acc Hd Hn; [by exists acc|].
  apply NoDup_cons in Hd as [Hnin Hd]. apply Forall_cons in Hn as [Hn Hns]. cbn [map fst] in *.
  cbn [foldl bind_exn]. change (rread (any_codec Parse Print)) with (read_any Parse Print).
  rewrite read_any_as_any. cbn [bind_exn]. rewrite c_str_id by done.
  destruct (IH (map_set n (as_any j) acc) Hd Hns) as (temp & Ht & Hf). exists temp. split; [done|].
  intros k. rewrite Hf, map_find_set. cbn [FindMember].
  destruct (bool_decide_reflect (n = k)) as [->|]; [|done].
  destruct (FindMember k ms) as [j'|] eqn:E; [|done]. exfalso. apply Hnin. clear -E.
  induction ms as [|[n w] ms IH]; [done|]. cbn in E |- *. case_bool_decide; [subst; by left|right; by apply IH].
Qed.

(** A member of the map and the same member of the document read the same. *)
Definition agrees {T} (ms : list (bytes * json)) (f : fields T) (g : map_member T) : Prop :=
  forall temp, (forall k, map_find k temp = as_any <$> FindMember k ms) ->
  forall v, g (OfAny temp) v = Some (f_read f (JObject ms) v).

Lemma agrees_pair {A B} ms (f : fields A) (f' : fields B) g g' :
  agrees ms f g -> agrees ms f' g' -> agrees ms (f ⊗ f') (map_pair g g').
Proof.
  intros H H' temp Ht [a b]. unfold map_pair. rewrite (H temp Ht). cbn.
  destruct (f_read f (JObject ms) a) as [e|a']; [done|]. rewrite (H' temp Ht). cbn.
  by destruct (f_read f' (JObject ms) b).
Qed.

Lemma agrees_member {T} ms name is_text (c : codec T) init :
  printable ms ->
  (is_text = false -> forall s, FindMember name ms <> Some (JString s)) ->
  agrees ms (field_init name c init) (ReflectMapMember name is_text c).
Proof.
  intros [_ Hp] Hs temp Ht v. cbn [ReflectMapMember field_init f_read DoMember]. rewrite Ht.
  destruct (FindMember name ms) as [j|] eqn:E; [|done]. cbn [fmap option_fmap option_map].
  assert (Hj : Parse (Print j) = Some j).
  { pose proof (FindMember_elem _ _ _ E) as Hn. rewrite Forall_forall in Hp. by apply (Hp _ Hn). }
  assert (Hg : Any_Get Parse c (as_any j) v = Some (rread c j v)) by (unfold Any_Get, as_any; cbn; by rewrite Hj).
  unfold GetForMap. destruct is_text; [done|]. unfold GetForMapHelper, GetType, as_any. cbn [jsonType].
  rewrite (bool_decide_eq_false_2 (type_of j = kUnKnown)) by apply type_of_known.
  rewrite bool_decide_eq_false_2; [done|]. intros Ht'. destruct j as [|[]| | | | |]; try done.
  by apply (Hs eq_refl s).
Qed.

(** ** Quoted values *)

Lemma find_last_not_of_snoc ch l x : x <> ch -> find_last_not_of ch (l ++ [x; ch]) = Some (length l).
Proof.
  intros Hx. induction l as [|c l IH]; cbn [app find_last_not_of length].
  - rewrite ceq_refl. by destruct (ceq x ch) eqn:E; char_cases.
  - by rewrite IH.
Qed.

Lemma strip_quotes_quoted (t : bytes) :
  quote_char ∉ t -> t <> [] -> strip_quotes (quote_char :: t ++ [quote_char]) = t.
Proof.
  intros Hq Hne. destruct (exists_last Hne) as (t' & x & ->).
  rewrite elem_of_app, list_elem_of_singleton in Hq. unfold strip_quotes.
  rewrite <- (app_assoc t'). change (quote_char :: t' ++ [x] ++ [quote_char]) with ((quote_char :: t') ++ [x; quote_char]).
  rewrite find_last_not_of_snoc by naive_solver.
  change ((quote_char :: t') ++ [x; quote_char]) with ((quote_char :: t') ++ [x] ++ [quote_char]).
  rewrite app_assoc, take_app_le by (rewrite length_app; cbn; lia).
  rewrite take_ge by (rewrite length_app; cbn; lia). cbn [app].
  unfold find_first_not_of. cbn [find_pred]. rewrite ceq_refl. cbn [negb].
  assert (Hf : find_pred (fun c => negb (ceq c quote_char)) (t' ++ [x]) = Some 0).
  { destruct t' as [|y t']; cbn; [destruct (ceq x quote_char) eqn:E|destruct (ceq y quote_char) eqn:E];
      char_cases; try done; exfalso; set_solver. }
  by rewrite Hf.
Qed.

Lemma GetForMapHelper_quoted {T} (c : codec T) (text : bytes) (v : T) :
  quote_char ∉ text -> text <> [] ->
  GetForMapHelper Parse c (mkAny (quote_char :: text ++ [quote_char]) kStringType) v =
    (fun inner => rread c inner v) <$> Parse text.
Proof.
  intros Hq Hne. unfold GetForMapHelper, GetType. cbn [jsonType any_data].
  change (bool_decide (kStringType = kUnKnown)) with false.
  change (bool_decide (kStringType = kStringType)) with true. cbn match.
  rewrite strip_quotes_quoted by done. unfold Any_Get. cbn [any_data SetJsonString]. by destruct (Parse text).
Qed.

(** A number or a flag that the sender has put in quotes is read as if it had
    not: the quotes come off and the text inside is parsed. *)
Theorem quoted_value_read {T} (c : codec T) (text : bytes) (inner : json) (name : bytes) (v : T)
    (temp : list (bytes * Any)) :
  quote_char ∉ text -> text <> [] -> Parse text = Some inner ->
  map_find name temp = Some (mkAny (quote_char :: text ++ [quote_char]) kStringType) ->
  ReflectMapMember name false c (OfAny temp) v = Some (rread c inner v).
Proof.
  intros Hq Hne Hp Ht. cbn [ReflectMapMember]. rewrite Ht. unfold GetForMap.
  rewrite GetForMapHelper_quoted by done. by rewrite Hp.
Qed.

(** And what is not JSON inside the quotes, as in {"verbose":"yes"}, makes the
    program dereference a null pointer. *)
Theorem quoted_text_crashes {T} (c : codec T) (text : bytes) (name : bytes) (v : T) (temp : list (bytes * Any)) :
  quote_char ∉ text -> text <> [] -> Parse text = None ->
  map_find name temp = Some (mkAny (quote_char :: text ++ [quote_char]) kStringType) ->
  ReflectMapMember name false c (OfAny temp) v = None.
Proof.
  intros Hq Hne Hp Ht. cbn [ReflectMapMember]. rewrite Ht. unfold GetForMap.
  rewrite GetForMapHelper_quoted by done. by rewrite Hp.
Qed.

(** * Theorems *)

(** Reading a struct from a map of values is reading it from the document:
    for an object without repeated members whose values rapidjson prints and
    parses again, [GetFromMap] gives what the reflection of the struct gives,
    exceptions included, as long as each member of it agrees (see
    [agrees_member]: the strings of the document belong to string members). *)
Theorem GetFromMap_reads_document {T} (f : fields T) (g : map_member T) (a : Any) (ms : list (bytes * json)) (v : T) :
  Parse (any_data a) = Some (JObject ms) -> printable ms -> agrees ms f g ->
  GetFromMap g a v = Some (f_read f (JObject ms) v).
Proof.
  intros Hp [Hd Hf] Hg. unfold GetFromMap. rewrite Hp. cbn [rread map_codec IterMap].
  destruct (read_map_entries ms [] Hd) as (temp & Ht & Hk); [eapply Forall_impl; [exact Hf|]; by intros ? []|].
  setoid_rewrite Ht. apply Hg. intros k. rewrite Hk. by destruct (FindMember k ms).
Qed.
End AnyMap.

(** ** The example of the header *)

(** [struct A { std::string visitor; bool verbose; }] *)
Definition A_fields : fields (bytes * bool) := field (lit "visitor") string_codec ⊗ field (lit "verbose") bool_codec.
Definition A_map (Parse : bytes -> option json) : map_member (bytes * bool) :=
  map_pair (ReflectMapMember Parse (lit "visitor") true string_codec)
    (ReflectMapMember Parse (lit "verbose") false bool_codec).

Definition quoted (s : bytes) : bytes := quote_char :: s ++ [quote_char].

(** A parser and a printer for strings of letters and flags, and for one document *)
Definition small_Print (j : json) : bytes :=
  match j with JString s => quoted s | JBool true => lit "true" | JBool false => lit "false" | _ => lit "{}" end.
Definition small_Parse (doc : json) (s : bytes) : option json :=
  if bool_decide (s = lit "true") then Some (JBool true)
  else if bool_decide (s = lit "false") then Some (JBool false)
  else if bool_decide (s = lit "{}") then Some doc
  else match s with
       | c :: s' => if ceq c quote_char && back_is quote_char s' then Some (JString (pop_back s')) else None
       | [] => None
       end.

Definition header_example : json :=
  JObject [(lit "visitor", JString (lit "default")); (lit "verbose", JString (lit "true"))].

Example header_example_read :
  GetFromMap (small_Parse header_example) small_Print (A_map (small_Parse header_example))
    (SetJsonString (small_Parse header_example) (lit "{}") kUnKnown) ([], false) =
  Some (inr (lit "default", true)).
Proof. vm_compute. reflexivity. Qed.

Definition plain_members : list (bytes * json) :=
  [(lit "visitor", JString (lit "default")); (lit "verbose", JBool true)].

Lemma GetFromMap_reads_document_witness :
  let P := small_Parse (JObject plain_members) in
  GetFromMap P small_Print (A_map P) (mkAny (lit "{}") kObjectType) ([], false) =
  Some (inr (lit "default", true)).
Proof.
  intros P. apply (GetFromMap_reads_document P small_Print A_fields (A_map P) _ plain_members).
  - reflexivity.
  - assert (printable P small_Print plain_members) as H.
    { split; [apply (bool_decide_unpack _); vm_compute; exact I|].
      repeat constructor; try (by apply find_char_None); vm_compute; reflexivity. }
    exact H.
  - apply agrees_pair; apply agrees_member; try done;
      (split; [apply (bool_decide_unpack _); vm_compute; exact I|];
       repeat constructor; try (by apply find_char_None); vm_compute; reflexivity).
Defined.
