(* ===== verification/RequestId.v ===== *)
(** * Request identifiers

    [lsRequestId] (include/LibLsp/JsonRpc/lsRequestId.h) with its comparison
    operators and, from src/jsonrpc/message.cpp, its reader, writer and
    [ToString].  The maps of the endpoint are ordered by [operator<]; [id_key]
    is the class of equivalent ids that such a map tells apart. *)
From S2P Require Import Prelude CppString Json.

Inductive id_type := kNone | kInt | kString.

#[export] Instance id_type_eq_dec : EqDecision id_type.
Proof. solve_decision. Defined.

Record lsRequestId := mkId { type : id_type; value : Z; k_string : bytes }.

Definition id_none : lsRequestId := mkId kNone (-1) [].
Definition has_value (i : lsRequestId) : bool := bool_decide (type i <> kNone).
Definition set_int (v : Z) (i : lsRequestId) : lsRequestId := mkId kInt v (k_string i).
Definition set_string (v : bytes) (i : lsRequestId) : lsRequestId := mkId kString (-1) v.

Definition id_eqb (a b : lsRequestId) : bool :=
  if negb (bool_decide (type a = type b)) then false
  else if bool_decide (type a = kInt) then (value a =? value b)%Z
  else bool_decide (k_string a = k_string b).

Definition type_rank (t : id_type) : Z := match t with kNone => 0 | kInt => 1 | kString => 2 end.

Definition id_ltb (a b : lsRequestId) : bool :=
  if negb (bool_decide (type a = type b)) then (type_rank (type a) <? type_rank (type b))%Z
  else if bool_decide (type a = kInt) then (value a <? value b)%Z
  else string_lt (k_string a) (k_string b).

(** [Reflect(Reader&, lsRequestId&)]; the string member keeps its old text
    when another kind is read *)
Definition read_id (j : json) (i : lsRequestId) : lsRequestId :=
  if IsInt j then mkId kInt (GetNumber j) (k_string i)
  else if IsInt64 j then mkId kInt (GetNumber j) (k_string i)
  else if IsString j then mkId kString (-1) (GetString j)
  else mkId kNone (-1) (k_string i).

Definition write_id (i : lsRequestId) : json :=
  match type i with
  | kNone => JNull
  | kInt => JNumber (value i)
  | kString => JString (k_string i)
  end.

Definition ToString (i : lsRequestId) : bytes :=
  match type i with
  | kNone => []
  | kString => k_string i
  | kInt => to_string (value i)
  end.

(** ** Keys of an ordered map *)

Inductive id_key := KNone (s : bytes) | KInt (v : Z) | KString (s : bytes).

#[export] Instance id_key_eq_dec : EqDecision id_key.
Proof. solve_decision. Defined.

#[export] Instance id_key_countable : Countable id_key.
Proof.
  refine (inj_countable'
    (fun k => match k with KNone s => inl s | KInt v => inr (inl v) | KString s => inr (inr s) end)
    (fun x => match x with inl s => KNone s | inr (inl v) => KInt v | inr (inr s) => KString s end) _).
  by intros [].
Defined.

Definition key (i : lsRequestId) : id_key :=
  match type i with
  | kNone => KNone (k_string i)
  | kInt => KInt (value i)
  | kString => KString (k_string i)
  end.

Lemma id_eqb_key a b : id_eqb a b = true <-> key a = key b.
Proof.
  unfold id_eqb, key. destruct (type a) eqn:Ea, (type b) eqn:Eb; simpl;
    repeat (case_bool_decide; simpl); try done.
  all: split; try (intros ?; f_equal; lia); try (intros [= ?]; lia || done); congruence.
Qed.

(** * Theorems *)

(** [operator<] is a strict total order on the classes of [operator==]:
    irreflexive, transitive, and two ids of which neither is smaller are
    equal by [operator==], which holds exactly when their map keys agree. So
    [std::map<lsRequestId, _>] has one entry per id. *)
Theorem request_id_order (a b c : lsRequestId) :
  id_ltb a a = false /\
  (id_ltb a b && id_ltb b c = true -> id_ltb a c = true) /\
  (negb (id_ltb a b) && negb (id_ltb b a) = id_eqb a b) /\
  (id_eqb a b = true <-> key a = key b).
Proof.
  split; [|split; [|split; [|apply id_eqb_key]]].
  - unfold id_ltb. rewrite bool_decide_eq_true_2 by done. simpl.
    case_bool_decide; [apply Z.ltb_irrefl|apply string_lt_irrefl].
  - unfold id_ltb. destruct (type a), (type b), (type c); simpl; try done;
      intros [H1 H2]%andb_true_iff; try lia; by eapply string_lt_trans.
  - assert (Hs : forall x y, negb (string_lt x y) && negb (string_lt y x) = bool_decide (x = y)).
    { intros x y. case_bool_decide as E; [subst; by rewrite string_lt_irrefl|].
      destruct (string_lt x y) eqn:E1; [done|]. destruct (string_lt y x) eqn:E2; [done|].
      by destruct E; apply string_lt_total. }
    unfold id_ltb, id_eqb. destruct (type a), (type b); simpl; try done. lia.
Qed.

Lemma request_id_order_witness :
  id_ltb (mkId kInt 10 []) (mkId kString (-1) (lit "10")) = true.
Proof.
  apply (request_id_order (mkId kInt 10 []) (mkId kString (-1) (lit "1"))
           (mkId kString (-1) (lit "10"))).
  by vm_compute.
Defined.

(** An id survives the wire: what the writer spells is read back as an
    equal id, whatever id the reader's variable held before, for 64-bit
    numbers and strings without NUL. *)
Theorem request_id_roundtrip (i old : lsRequestId) :
  (- 2 ^ 63 <= value i < 2 ^ 63)%Z -> NUL ∉ k_string i -> type i <> kNone ->
  id_eqb (read_id (write_id i) old) i = true.
Proof.
  intros Hv Hs Ht. apply id_eqb_key. unfold write_id, read_id, key.
  destruct (type i); [done| |].
  - cbn [IsInt IsInt64 GetNumber]. destruct (in_range _ _ (value i)); [done|].
    by rewrite in_range_between by (unfold between; lia).
  - simpl. by rewrite c_str_id.
Qed.

Lemma request_id_roundtrip_witness :
  id_eqb (read_id (write_id (mkId kInt (2 ^ 40) [])) (mkId kString (-1) (lit "x")))
    (mkId kInt (2 ^ 40) []) = true.
Proof.
  apply request_id_roundtrip; [cbn [value]; lia|by apply find_char_None|done].
Defined.

(** A string id with an embedded NUL is cut there by the reader, so the
    response is written with an id that differs from the request's. *)
Theorem request_id_nul (a b : bytes) :
  write_id (read_id (JString (a ++ NUL :: b)) id_none) <> JString (a ++ NUL :: b).
Proof.
  unfold write_id, read_id. simpl. intros [= H].
  apply (f_equal length) in H. revert H.
  assert (Hc : length (c_str (a ++ NUL :: b)) <= length a).
  { induction a as [|x a IH]; simpl; [done|]. destruct (ceq x NUL); simpl; lia. }
  rewrite length_app. simpl. lia.
Qed.
