(* ===== verification/Cancellation.v ===== *)
(** * Request cancellation

    [Context] (include/LibLsp/JsonRpc/Context.h, src/jsonrpc/Context.cpp), the
    cancelable tasks of src/jsonrpc/RequestCancellation.cpp, and from
    src/jsonrpc/RemoteEndPoint.cpp the [RequestCancellationRegistry] with the
    operations of [Data] on it.

    The shared [std::atomic<int>] flags live in a store, [flags]; a canceler
    is the flag it sets.  The [std::map]s keyed by ids are [gmap]s keyed by
    [id_key].  Each operation holds the registry's mutex, so the operations
    are the atomic steps. *)
From S2P Require Import Prelude CppString Json RequestId.

(** ** Contexts and cancelable tasks *)

Definition RequestCancelled : Z := (-32800)%Z.

(** [CancelState]: the flag, the enclosing state, the request's id *)
#[warnings="-register-all"]
Inductive CancelState := mkCancelState (cancelled : nat) (parent : option CancelState) (id : lsRequestId).

(** A [Context] is a chain of keyed values: the cancel states, the session
    output, and the scope exits that clean up a request. *)
Inductive ctx_entry :=
| CancelEntry (st : CancelState)
| SessionEntry (session : nat)
| ScopeExitEntry (id : id_key) (cookie : N).

Definition Context := list ctx_entry.

Fixpoint get_cancel_state (ctx : Context) : option CancelState :=
  match ctx with
  | [] => None
  | CancelEntry st :: _ => Some st
  | _ :: parent => get_cancel_state parent
  end.

Fixpoint get_session (ctx : Context) : option nat :=
  match ctx with
  | [] => None
  | SessionEntry s :: _ => Some s
  | _ :: parent => get_session parent
  end.

(** [cancelableTask]: the derived context and the canceler's flag *)
Definition cancelableTask (id : lsRequestId) (ctx : Context) (flags : list Z)
    : Context * nat * list Z :=
  let f := length flags in
  (CancelEntry (mkCancelState f (get_cancel_state ctx) id) :: ctx, f, flags ++ [0%Z]).

Definition invoke_canceler (f : nat) (flags : list Z) : list Z := <[f := RequestCancelled]> flags.

Fixpoint find_state (id : lsRequestId) (st : CancelState) : option nat :=
  match st with
  | mkCancelState f parent id' =>
      if id_eqb id id' then Some f
      else match parent with Some p => find_state id p | None => None end
  end.

(** [getCancelledMonitor]: the flag the monitor reads *)
Definition getCancelledMonitor (id : lsRequestId) (ctx : Context) : option nat :=
  match get_cancel_state ctx with Some st => find_state id st | None => None end.

(** [cancellationReason] of the monitor of [RemoteEndPoint::getCancelMonitor],
    0 where there is no such request *)
Definition cancellationReason (m : option nat) (flags : list Z) : Z :=
  match m with Some f => default 0%Z (flags !! f) | None => 0%Z end.

Definition isCancellationRequested (m : option nat) (flags : list Z) : bool :=
  negb (cancellationReason m flags =? 0)%Z.

(** ** The registry *)

Record RequestCancellationRegistry := mkRegistry {
  requestCancelers : gmap id_key (nat * N);        (** canceler and cookie *)
  pendingCancelRequests : gmap id_key N;
  pendingCancelOrder : list (id_key * N);
  seenRequestIds : gmap id_key N;
  seenRequestOrder : list (id_key * N);
  retainedRequestCancelers : gmap (id_key * N) N
}.

Definition registry_empty : RequestCancellationRegistry := mkRegistry ∅ ∅ [] ∅ [] ∅.

(** The loop of [prunePendingCancels] and of [pruneSeenRequests]; each round
    takes the front of the order. *)
Fixpoint prune (limit : nat) (m : gmap id_key N) (order : list (id_key * N))
    : gmap id_key N * list (id_key * N) :=
  if size m <=? limit then (m, order)
  else match order with
       | [] => (m, [])
       | (id, s) :: order' =>
           prune limit (if bool_decide (m !! id = Some s) then delete id m else m) order'
       end.

(** [record...] of an id: [m[id] = sequence], append to the order, prune *)
Definition record_id (id : id_key) (sequence : N) (limit : nat) (m : gmap id_key N)
    (order : list (id_key * N)) : gmap id_key N * list (id_key * N) :=
  let m := <[id := sequence]> m in
  let order := order ++ [(id, sequence)] in
  if limit =? 0 then (m, order) else prune limit m order.

Definition recordPendingCancel (id : id_key) (sequence : N) (limit : nat)
    (r : RequestCancellationRegistry) : RequestCancellationRegistry :=
  let '(m, order) := record_id id sequence limit (pendingCancelRequests r) (pendingCancelOrder r) in
  mkRegistry (requestCancelers r) m order (seenRequestIds r) (seenRequestOrder r)
    (retainedRequestCancelers r).

Definition recordSeenRequest (id : id_key) (sequence : N) (limit : nat)
    (r : RequestCancellationRegistry) : RequestCancellationRegistry :=
  let '(m, order) := record_id id sequence limit (seenRequestIds r) (seenRequestOrder r) in
  mkRegistry (requestCancelers r) (pendingCancelRequests r) (pendingCancelOrder r) m order
    (retainedRequestCancelers r).

Definition set_cancelers (r : RequestCancellationRegistry) (m : gmap id_key (nat * N))
    : RequestCancellationRegistry :=
  mkRegistry m (pendingCancelRequests r) (pendingCancelOrder r) (seenRequestIds r)
    (seenRequestOrder r) (retainedRequestCancelers r).

Definition set_pending (r : RequestCancellationRegistry) (m : gmap id_key N)
    : RequestCancellationRegistry :=
  mkRegistry (requestCancelers r) m (pendingCancelOrder r) (seenRequestIds r)
    (seenRequestOrder r) (retainedRequestCancelers r).

Definition set_retained (r : RequestCancellationRegistry) (m : gmap (id_key * N) N)
    : RequestCancellationRegistry :=
  mkRegistry (requestCancelers r) (pendingCancelRequests r) (pendingCancelOrder r)
    (seenRequestIds r) (seenRequestOrder r) m.

(** ** The endpoint's operations on it *)

Record CancelData := mkCancelData {
  registry : RequestCancellationRegistry;
  next_request_cookie : N;         (** [std::atomic<unsigned>] *)
  flags : list Z;                  (** the cancelled flags of all tasks so far *)
  max_pending_cancel_requests : nat;
  max_seen_request_ids : nat
}.

Definition with_registry (d : CancelData) (r : RequestCancellationRegistry) : CancelData :=
  mkCancelData r (next_request_cookie d) (flags d) (max_pending_cancel_requests d) (max_seen_request_ids d).
Definition with_flags (d : CancelData) (fl : list Z) : CancelData :=
  mkCancelData (registry d) (next_request_cookie d) fl (max_pending_cancel_requests d)
    (max_seen_request_ids d).

Definition onCancel (id : lsRequestId) (sequence : N) (d : CancelData) : CancelData :=
  let r := registry d in
  match requestCancelers r !! key id with
  | Some (f, _) => with_flags d (invoke_canceler f (flags d))
  | None =>
      if match pendingCancelRequests r !! key id with
         | None => true
         | Some s => (s <? sequence)%N
         end
      then with_registry d (recordPendingCancel (key id) sequence (max_pending_cancel_requests d) r)
      else d
  end.

(** The context of the request and its cookie. *)
Definition cancelableRequestContext (id : lsRequestId) (sequence : N) (ctx : Context) (d : CancelData)
    : Context * N * CancelData :=
  let '(task_ctx, f, fl) := cancelableTask id ctx (flags d) in
  let cookie := next_request_cookie d in
  let k := key id in
  let r := set_cancelers (registry d) (<[k := (f, cookie)]> (requestCancelers (registry d))) in
  let '(should_cancel, r) :=
    match pendingCancelRequests r !! k with
    | Some s => (negb (bool_decide (is_Some (seenRequestIds r !! k))) || (sequence <? s)%N,
                 set_pending r (delete k (pendingCancelRequests r)))
    | None => (false, r)
    end in
  let r := recordSeenRequest k sequence (max_seen_request_ids d) r in
  let fl := if should_cancel then invoke_canceler f fl else fl in
  (ScopeExitEntry k cookie :: task_ctx, cookie,
   mkCancelData r (uadd32 cookie 1) fl (max_pending_cancel_requests d) (max_seen_request_ids d)).

Definition erase_canceler (k : id_key) (cookie : N) (r : RequestCancellationRegistry)
    : RequestCancellationRegistry :=
  match requestCancelers r !! k with
  | Some (_, c) => if (c =? cookie)%N then set_cancelers r (delete k (requestCancelers r)) else r
  | None => r
  end.

(** The scope exit of a request's context. *)
Definition request_scope_exit (k : id_key) (cookie : N) (d : CancelData) : CancelData :=
  let r := registry d in
  match retainedRequestCancelers r !! (k, cookie) with
  | Some _ => d
  | None => with_registry d (erase_canceler k cookie r)
  end.

(** [retainRequestCancellation]: the token, [None] for the empty pointer *)
Definition retainRequestCancellation (id : lsRequestId) (d : CancelData)
    : option (id_key * N) * CancelData :=
  let r := registry d in
  match requestCancelers r !! key id with
  | None => (None, d)
  | Some (_, cookie) =>
      let k := (key id, cookie) in
      let n := default 0%N (retainedRequestCancelers r !! k) in
      (Some k, with_registry d (set_retained r (<[k := (n + 1)%N]> (retainedRequestCancelers r))))
  end.

(** The deleter of the token. *)
Definition release_token (k : id_key * N) (d : CancelData) : CancelData :=
  let r := registry d in
  match retainedRequestCancelers r !! k with
  | Some n =>
      if negb (n - 1 =? 0)%N then
        with_registry d (set_retained r (<[k := (n - 1)%N]> (retainedRequestCancelers r)))
      else with_registry d (erase_canceler k.1 k.2
             (set_retained r (delete k (retainedRequestCancelers r))))
  | None => with_registry d (erase_canceler k.1 k.2 r)
  end.

(** The registry's part of [Data::clear]: every canceler runs. *)
Definition clear_registry (d : CancelData) : CancelData :=
  let cancelers := map (fun e : id_key * (nat * N) => e.2.1)
                     (map_to_list (requestCancelers (registry d))) in
  mkCancelData registry_empty (next_request_cookie d)
    (fold_left (fun fl f => invoke_canceler f fl) cancelers (flags d))
    (max_pending_cancel_requests d) (max_seen_request_ids d).

(** ** Lemmas *)

(** Every entry of the table is in the order deque. *)
Definition covered (m : gmap id_key N) (order : list (id_key * N)) : Prop :=
  forall id s, m !! id = Some s -> (id, s) ∈ order.

Lemma covered_delete m order id : covered m order -> covered (delete id m) order.
Proof. intros H id' s'. rewrite lookup_delete_Some. intros [_ E]. by apply H. Qed.

Lemma prune_spec limit m order :
  covered m order ->
  covered (prune limit m order).1 (prune limit m order).2 /\ size (prune limit m order).1 <= limit.
Proof.
  revert m. induction order as [|[id s] order IH]; intros m Hc; simpl;
    destruct (Nat.leb_spec (size m) limit) as [Hl|Hl]; [done| |done|].
  - assert (m = ∅) as ->; [|by rewrite map_size_empty in Hl; lia].
    apply map_empty. intros id. destruct (m !! id) as [s|] eqn:E; [|done].
    exfalso. by eapply elem_of_nil, Hc.
  - apply IH. case_bool_decide as E.
    + intros id' s'. rewrite lookup_delete_Some. intros [Hne Hm].
      apply Hc, elem_of_cons in Hm as [[= -> ->]|?]; done.
    + intros id' s' Hm. pose proof (Hc _ _ Hm) as [[= -> ->]|?]%elem_of_cons; done.
Qed.

Lemma record_id_spec id s limit m order :
  covered m order -> (limit <> 0 -> size m <= limit) ->
  let r := record_id id s limit m order in
  covered r.1 r.2 /\ (limit <> 0 -> size r.1 <= limit).
Proof.
  intros Hc Hl. unfold record_id.
  assert (Hc' : covered (<[id := s]> m) (order ++ [(id, s)])).
  { intros id' s'. rewrite lookup_insert_Some, elem_of_app, list_elem_of_singleton.
    intros [[-> ->]|[_ Hm]]; [by right|left; by apply Hc]. }
  destruct (Nat.eqb_spec limit 0) as [->|Hne]; cbn zeta; [by split|].
  destruct (prune_spec limit _ _ Hc'). by split.
Qed.

Definition cnt (k : id_key * N) (l : list (id_key * N)) : N :=
  N.of_nat (length (filter (fun x => x = k) l)).

Lemma cnt_cons k x l : cnt k (x :: l) = (if decide (x = k) then 1 + cnt k l else cnt k l)%N.
Proof. unfold cnt. rewrite filter_cons. destruct (decide (x = k)); simpl; lia. Qed.

Lemma cnt_Permutation k l l' : Permutation l l' -> cnt k l = cnt k l'.
Proof. intros H. unfold cnt. by rewrite H. Qed.

Lemma cnt_elem k l : (0 < cnt k l)%N -> k ∈ l.
Proof.
  unfold cnt. intros H. destruct (filter _ l) as [|x r] eqn:E; [simpl in H; lia|].
  assert (Hx : x ∈ filter (fun x => x = k) l) by (rewrite E; left).
  apply list_elem_of_filter in Hx as [-> ?]. done.
Qed.

(** ** The steps of the endpoint on the registry

    [live] are the scope exits still to run, [tokens] the retain tokens not
    yet released. *)
Record cstate := mkC { cdata : CancelData; live : list (id_key * N); tokens : list (id_key * N) }.

Inductive cstep : cstate -> cstate -> Prop :=
| step_start id sequence ctx ctx' cookie d d' lv tk :
    cancelableRequestContext id sequence ctx d = (ctx', cookie, d') ->
    cstep (mkC d lv tk) (mkC d' ((key id, cookie) :: lv) tk)
| step_exit k cookie d lv lv' tk :
    Permutation lv ((k, cookie) :: lv') ->
    cstep (mkC d lv tk) (mkC (request_scope_exit k cookie d) lv' tk)
| step_retain id d d' t lv tk :
    retainRequestCancellation id d = (t, d') ->
    cstep (mkC d lv tk) (mkC d' lv (match t with Some k => k :: tk | None => tk end))
| step_release k d lv tk tk' :
    Permutation tk (k :: tk') -> cstep (mkC d lv tk) (mkC (release_token k d) lv tk')
| step_cancel id sequence d lv tk :
    cstep (mkC d lv tk) (mkC (onCancel id sequence d) lv tk)
| step_clear d lv tk : cstep (mkC d lv tk) (mkC (clear_registry d) lv tk).

Definition cancel_init (max_cancel max_seen : nat) : cstate :=
  mkC (mkCancelData registry_empty 0 [] max_cancel max_seen) [] [].

(** Tables covered and bounded. *)
Definition tables_ok (d : CancelData) : Prop :=
  let r := registry d in
  covered (pendingCancelRequests r) (pendingCancelOrder r) /\
  covered (seenRequestIds r) (seenRequestOrder r) /\
  (max_pending_cancel_requests d <> 0 ->
   size (pendingCancelRequests r) <= max_pending_cancel_requests d) /\
  (max_seen_request_ids d <> 0 -> size (seenRequestIds r) <= max_seen_request_ids d).

(** A canceler is registered only while its request's scope or a token of
    its cookie is alive. *)
Definition holders_ok (d : CancelData) (lv tk : list (id_key * N)) : Prop :=
  let r := registry d in
  (forall k n, retainedRequestCancelers r !! k = Some n -> (0 < n <= cnt k tk)%N) /\
  (forall k f c, requestCancelers r !! k = Some (f, c) -> (k, c) ∈ lv \/ (k, c) ∈ tk) /\
  (forall k f c, requestCancelers r !! k = Some (f, c) -> f < length (flags d)).

Definition cancel_inv (st : cstate) : Prop :=
  tables_ok (cdata st) /\ holders_ok (cdata st) (live st) (tokens st).

Lemma erase_canceler_fields k c r :
  let r' := erase_canceler k c r in
  pendingCancelRequests r' = pendingCancelRequests r /\ pendingCancelOrder r' = pendingCancelOrder r /\
  seenRequestIds r' = seenRequestIds r /\ seenRequestOrder r' = seenRequestOrder r /\
  retainedRequestCancelers r' = retainedRequestCancelers r.
Proof. unfold erase_canceler. repeat destr_goal; done. Qed.

Lemma erase_canceler_lookup k c r k' f' c' :
  requestCancelers (erase_canceler k c r) !! k' = Some (f', c') ->
  requestCancelers r !! k' = Some (f', c') /\ (k', c') <> (k, c).
Proof.
  unfold erase_canceler. destruct (requestCancelers r !! k) as [[f0 c0]|] eqn:E.
  - destruct (N.eqb_spec c0 c) as [->|Hne]; simpl.
    + rewrite lookup_delete_Some. intros [? ?]. split; [done|]. congruence.
    + intros H. split; [done|]. intros [= -> ->]. congruence.
  - intros H. split; [done|]. intros [= -> ->]. congruence.
Qed.

Lemma tables_ok_erase d k c :
  tables_ok d -> tables_ok (with_registry d (erase_canceler k c (registry d))).
Proof.
  unfold tables_ok. simpl.
  destruct (erase_canceler_fields k c (registry d)) as (-> & -> & -> & -> & _). done.
Qed.

Lemma invoke_canceler_length f fl : length (invoke_canceler f fl) = length fl.
Proof. apply length_insert. Qed.

Lemma tables_ok_step st st' : cstep st st' -> tables_ok (cdata st) -> tables_ok (cdata st').
Proof.
  intros Hs Ht. destruct Hs as [id s ctx ctx' c d d' lv tk E|k c d lv lv' tk Hp|id d d' t lv tk E
    |k d lv tk tk' Hp|id s d lv tk|d lv tk]; simpl in *.
  - destruct Ht as (H1 & H2 & H3 & H4). revert E. unfold cancelableRequestContext.
    cbn [cancelableTask]. destruct (pendingCancelRequests _ !! key id) as [s0|] eqn:Ep.
    all: cbn [set_cancelers set_pending recordSeenRequest pendingCancelRequests pendingCancelOrder
      seenRequestIds seenRequestOrder requestCancelers retainedRequestCancelers] in *.
    all: intros [= _ _ <-]; unfold tables_ok; cbn [registry max_pending_cancel_requests max_seen_request_ids];
      unfold recordSeenRequest;
      cbn [set_cancelers set_pending pendingCancelRequests pendingCancelOrder seenRequestIds seenRequestOrder];
      pose proof (record_id_spec (key id) s (max_seen_request_ids d) _ _ H2 H4) as [H5 H6];
      destruct (record_id _ _ _ (seenRequestIds _) _) as [m o]; simpl in *.
    + split; [by apply covered_delete|]. split; [done|]. split; [|done].
      intros Hl. specialize (H3 Hl). rewrite map_size_delete, Ep. lia.
    + done.
  - unfold request_scope_exit. destruct (retainedRequestCancelers _ !! _); [done|].
    by apply tables_ok_erase.
  - revert E. unfold retainRequestCancellation.
    destruct (requestCancelers _ !! _) as [[f c]|]; intros [= <- <-]; exact Ht.
  - unfold release_token. destruct (retainedRequestCancelers _ !! k) as [n|].
    + destruct (negb _); [exact Ht|].
      apply (tables_ok_erase (with_registry d (set_retained (registry d) _))). exact Ht.
    + by apply tables_ok_erase.
  - destruct Ht as (H1 & H2 & H3 & H4). unfold onCancel.
    destruct (requestCancelers _ !! _) as [[f c]|]; [done|].
    destruct (match _ with None => true | _ => _ end); [|done].
    unfold tables_ok, recordPendingCancel. cbn [with_registry registry].
    pose proof (record_id_spec (key id) s (max_pending_cancel_requests d) _ _ H1 H3) as [H5 H6].
    destruct (record_id _ _ _ (pendingCancelRequests _) _) as [m o]. done.
  - unfold tables_ok. simpl. split; [by intros ? ?|]. split; [by intros ? ?|].
    by rewrite !map_size_empty; split; intros; lia.
Qed.

Lemma holders_ok_erase d lv tk k c :
  (forall k' n, retainedRequestCancelers (registry d) !! k' = Some n -> (0 < n <= cnt k' tk)%N) ->
  (forall k' f c', requestCancelers (registry d) !! k' = Some (f, c') -> f < length (flags d)) ->
  (forall k' f c', requestCancelers (registry d) !! k' = Some (f, c') -> (k', c') <> (k, c) ->
     (k', c') ∈ lv \/ (k', c') ∈ tk) ->
  holders_ok (with_registry d (erase_canceler k c (registry d))) lv tk.
Proof.
  intros H1 H2 H3. unfold holders_ok. simpl.
  destruct (erase_canceler_fields k c (registry d)) as (_ & _ & _ & _ & ->).
  split; [done|]. split; intros k' f c' [E Hne]%erase_canceler_lookup; eauto.
Qed.

Lemma holders_ok_request id s ctx ctx' c d d' lv tk :
  cancelableRequestContext id s ctx d = (ctx', c, d') -> holders_ok d lv tk ->
  holders_ok d' ((key id, c) :: lv) tk.
Proof.
  intros E (H1 & H2 & H3).
  revert E. unfold cancelableRequestContext. cbn [cancelableTask].
  set (sc := match pendingCancelRequests _ !! key id with Some s0 => _ | None => _ end).
  assert (Hsc : requestCancelers sc.2 = <[key id := (length (flags d), next_request_cookie d)]>
                  (requestCancelers (registry d)) /\
                retainedRequestCancelers sc.2 = retainedRequestCancelers (registry d))
    by (subst sc; destr_goal; done).
  destruct sc as [should r]. destruct Hsc as [Hc Hr]. cbn [snd] in Hc, Hr.
  intros [= _ <- <-]. unfold holders_ok. cbn [registry flags].
  unfold recordSeenRequest. destruct (record_id _ _ _ _ _) as [m o].
  cbn [requestCancelers retainedRequestCancelers]. rewrite Hc, Hr.
  split; [done|]. split; intros k' f c' [[<- [= <- <-]]|[Hne E]]%lookup_insert_Some.
  - left. by left.
  - apply H2 in E as [?|?]; [left; by right|by right].
  - destruct should; rewrite ?invoke_canceler_length, length_app; simpl; lia.
  - apply H3 in E. destruct should; rewrite ?invoke_canceler_length, length_app; simpl; lia.
Qed.

Lemma holders_ok_exit k c d lv lv' tk :
  lv ≡ₚ (k, c) :: lv' -> holders_ok d lv tk -> holders_ok (request_scope_exit k c d) lv' tk.
Proof.
  intros Hp (H1 & H2 & H3).
  unfold request_scope_exit. destruct (retainedRequestCancelers _ !! (k, c)) as [n|] eqn:Er.
  - split; [done|]. split; [|done]. intros k' f c' E.
    destruct (decide ((k', c') = (k, c))) as [[= -> ->]|Hne].
    + right. apply cnt_elem. pose proof (H1 _ _ Er). lia.
    + apply H2 in E as [Hin|?]; [|by right]. left. rewrite Hp, elem_of_cons in Hin. by destruct Hin.
  - apply holders_ok_erase; [done|done|]. intros k' f c' E Hne.
    apply H2 in E as [Hin|?]; [|by right]. left. rewrite Hp, elem_of_cons in Hin. by destruct Hin.
Qed.

Lemma holders_ok_release k d lv tk tk' :
  tk ≡ₚ k :: tk' -> holders_ok d lv tk -> holders_ok (release_token k d) lv tk'.
Proof.
  intros Hp (H1 & H2 & H3).
  assert (Hcnt : forall k', cnt k' tk = cnt k' (k :: tk')) by (intros; by apply cnt_Permutation).
  assert (Hin : forall k' f c', requestCancelers (registry d) !! k' = Some (f, c') ->
            (k', c') <> k -> (k', c') ∈ lv \/ (k', c') ∈ tk').
  { intros k' f c' E Hne. apply H2 in E as [?|Hin]; [by left|]. right.
    rewrite Hp, elem_of_cons in Hin. by destruct Hin. }
  unfold release_token. destruct (retainedRequestCancelers _ !! k) as [n|] eqn:Er.
  - pose proof (H1 _ _ Er) as Hn. rewrite Hcnt, cnt_cons, decide_True in Hn by done.
    assert (Hother : forall k' n', k' <> k -> retainedRequestCancelers (registry d) !! k' = Some n' ->
              (0 < n' <= cnt k' tk')%N).
    { intros k' n' Hne E. apply H1 in E. by rewrite Hcnt, cnt_cons, decide_False in E. }
    destruct (N.eqb_spec (n - 1) 0) as [En|En]; cbn [negb].
    + apply (holders_ok_erase (with_registry d (set_retained (registry d) _))); simpl.
      * intros k' n' [Hne E]%lookup_delete_Some. by apply Hother.
      * done.
      * intros k' f c' E Hne. rewrite <- surjective_pairing in Hne. eauto.
    + unfold holders_ok. simpl. split; [|split; [|done]].
      * intros k' n' [[<- <-]|[Hne E]]%lookup_insert_Some; [lia|by apply Hother].
      * intros k' f c' E. destruct (decide ((k', c') = k)) as [->|Hne]; [|eauto].
         right. apply cnt_elem. lia.
  - apply holders_ok_erase; [|done|].
    + intros k' n' E. pose proof (H1 _ _ E) as Hn. rewrite Hcnt, cnt_cons in Hn.
      by rewrite decide_False in Hn by congruence.
    + intros k' f c' E Hne. rewrite <- surjective_pairing in Hne. eauto.
Qed.

Lemma holders_ok_step st st' :
  cstep st st' -> holders_ok (cdata st) (live st) (tokens st) ->
  holders_ok (cdata st') (live st') (tokens st').
Proof.
  intros Hs Hh. destruct Hs as [id s ctx ctx' c d d' lv tk E|k c d lv lv' tk Hp|id d d' t lv tk E
    |k d lv tk tk' Hp|id s d lv tk|d lv tk]; simpl in *.
  - by eapply holders_ok_request.
  - by eapply holders_ok_exit.
  - destruct Hh as (H1 & H2 & H3). revert E. unfold retainRequestCancellation.
    destruct (requestCancelers _ !! _) as [[f0 c0]|]; intros [= <- <-]; [|done].
    unfold holders_ok. cbn [with_registry registry set_retained requestCancelers retainedRequestCancelers flags].
    split; [|split; [|done]].
    + intros k n [[<- <-]|[Hne E]]%lookup_insert_Some; rewrite cnt_cons.
      * rewrite decide_True by done. destruct (_ !! _) as [n0|] eqn:E0; simpl; [|lia].
        pose proof (H1 _ _ E0). lia.
      * rewrite decide_False by done. by apply H1.
    + intros k f c E. apply H2 in E as [?|?]; [by left|right; by right].
  - by eapply holders_ok_release.
  - destruct Hh as (H1 & H2 & H3). unfold onCancel. destruct (requestCancelers _ !! key id) as [[f c]|] eqn:E.
    + split; [done|]. split; [done|]. intros k' f' c' E'. simpl. rewrite invoke_canceler_length. eauto.
    + destruct (match _ with None => true | _ => _ end); [|done].
      unfold recordPendingCancel, holders_ok. destruct (record_id _ _ _ _ _). done.
  - unfold holders_ok. simpl. split; [|split]; intros ? ?; [|intros ?..]; by rewrite lookup_empty.
Qed.

Lemma cancel_inv_reach max_cancel max_seen st :
  rtc cstep (cancel_init max_cancel max_seen) st -> cancel_inv st.
Proof.
  intros H. eapply (rtc_ind_r cancel_inv); [..|exact H].
  - split.
    + unfold tables_ok. simpl. split; [by intros ? ?|]. split; [by intros ? ?|].
      by rewrite map_size_empty; split; intros; lia.
    + split; [|split]; simpl; intros ? ?; [|intros ?..]; by rewrite lookup_empty.
  - intros x y _ Hs [Ht Hh]. split; [by eapply tables_ok_step|by eapply holders_ok_step].
Qed.

Lemma step_limits st st' :
  cstep st st' ->
  max_pending_cancel_requests (cdata st') = max_pending_cancel_requests (cdata st) /\
  max_seen_request_ids (cdata st') = max_seen_request_ids (cdata st).
Proof.
  destruct 1 as [id s ctx ctx' c d d' lv tk E| |id d d' t lv tk E| | | ]; simpl.
  - revert E. unfold cancelableRequestContext. cbn [cancelableTask].
    destruct (match pendingCancelRequests _ !! key id with Some s0 => _ | None => _ end) as [sh r].
    by intros [= _ _ <-].
  - unfold request_scope_exit. by destr_goal.
  - revert E. unfold retainRequestCancellation. by destr_goal; [destruct p|]; intros [= _ <-].
  - unfold release_token. by repeat destr_goal.
  - unfold onCancel. by repeat destr_goal.
  - done.
Qed.

Lemma reach_limits max_cancel max_seen st :
  rtc cstep (cancel_init max_cancel max_seen) st ->
  max_pending_cancel_requests (cdata st) = max_cancel /\ max_seen_request_ids (cdata st) = max_seen.
Proof.
  intros H. eapply (rtc_ind_r (fun st => max_pending_cancel_requests (cdata st) = max_cancel /\
    max_seen_request_ids (cdata st) = max_seen)); [..|exact H]; [done|].
  intros x y _ Hs [Hx1 Hx2]. destruct (step_limits _ _ Hs) as [-> ->]. done.
Qed.

(** The registry after a request's start. *)
Lemma start_registered id sequence ctx d ctx' cookie d' :
  cancelableRequestContext id sequence ctx d = (ctx', cookie, d') ->
  requestCancelers (registry d') !! key id = Some (length (flags d), cookie) /\
  getCancelledMonitor id ctx' = Some (length (flags d)) /\
  length (flags d') = S (length (flags d)) /\
  next_request_cookie d' = uadd32 cookie 1 /\ cookie = next_request_cookie d /\
  retainedRequestCancelers (registry d') = retainedRequestCancelers (registry d) /\
  cancellationReason (Some (length (flags d))) (flags d') =
    match pendingCancelRequests (registry d) !! key id with
    | Some s => if negb (bool_decide (is_Some (seenRequestIds (registry d) !! key id))) || (sequence <? s)%N
                then RequestCancelled else 0%Z
    | None => 0%Z
    end.
Proof.
  unfold cancelableRequestContext. cbn [cancelableTask].
  assert (Hm : getCancelledMonitor id (ScopeExitEntry (key id) (next_request_cookie d) ::
     CancelEntry (mkCancelState (length (flags d)) (get_cancel_state ctx) id) :: ctx)
     = Some (length (flags d))).
  { unfold getCancelledMonitor. cbn [get_cancel_state find_state].
    by rewrite (proj2 (id_eqb_key id id) eq_refl). }
  cbn [set_cancelers pendingCancelRequests seenRequestIds].
  destruct (pendingCancelRequests (registry d) !! key id) as [s|]; cbn beta iota zeta;
    unfold recordSeenRequest; cbn [set_pending seenRequestIds seenRequestOrder];
    destruct (record_id _ _ _ _ _) as [m o]; intros [= <- <- <-]; cbn [registry requestCancelers flags].
  - rewrite lookup_insert_eq. split; [done|]. split; [done|].
    destruct (_ || _); rewrite ?invoke_canceler_length, length_app; simpl;
      (split; [lia|]); do 3 (split; [done|]).
    + unfold invoke_canceler. rewrite list_lookup_insert_eq by (rewrite length_app; simpl; lia). done.
    + by rewrite lookup_app_r, Nat.sub_diag by lia.
  - rewrite lookup_insert_eq. split; [done|]. split; [done|]. rewrite length_app. simpl.
    split; [lia|]. do 3 (split; [done|]). by rewrite lookup_app_r, Nat.sub_diag by lia.
Qed.

Lemma reason_invoke_same f fl : f < length fl -> cancellationReason (Some f) (invoke_canceler f fl) = RequestCancelled.
Proof. intros H. unfold cancellationReason, invoke_canceler. by rewrite list_lookup_insert_eq. Qed.

Lemma reason_invoke_other f g fl :
  f <> g -> cancellationReason (Some g) (invoke_canceler f fl) = cancellationReason (Some g) fl.
Proof. intros H. unfold cancellationReason, invoke_canceler. by rewrite list_lookup_insert_ne. Qed.

(** * Theorems *)

(** C12. In every state the endpoint can reach by starting, finishing,
    retaining, releasing and cancelling requests and by clearing, the tables
    of pending cancels and of seen ids respect their configured limits, and
    once every request scope has ended and every retain token is released, no
    canceler and no retain count is left. *)
Theorem registry_bounded_no_leak (max_cancel max_seen : nat) (st : cstate) :
  rtc cstep (cancel_init max_cancel max_seen) st ->
  (max_cancel <> 0 -> size (pendingCancelRequests (registry (cdata st))) <= max_cancel) /\
  (max_seen <> 0 -> size (seenRequestIds (registry (cdata st))) <= max_seen) /\
  (live st = [] /\ tokens st = [] ->
   requestCancelers (registry (cdata st)) = ∅ /\ retainedRequestCancelers (registry (cdata st)) = ∅).
Proof.
  intros H. destruct (cancel_inv_reach _ _ _ H) as [(_ & _ & H3 & H4) (H5 & H6 & _)].
  destruct (reach_limits _ _ _ H) as [E1 E2]. rewrite E1 in H3. rewrite E2 in H4.
  split; [done|]. split; [done|]. intros [Hl Ht]. rewrite Hl, Ht in *. split; apply map_empty.
  - intros k. destruct (requestCancelers _ !! k) as [[f c]|] eqn:E; [|done].
    apply H6 in E as [Hin|Hin]; by apply not_elem_of_nil in Hin.
  - intros k. destruct (retainedRequestCancelers _ !! k) as [n|] eqn:E; [|done].
    apply H5 in E. unfold cnt in E. simpl in E. lia.
Qed.

Lemma registry_bounded_no_leak_witness :
  let d1 := onCancel (mkId kInt 7 []) 3 (cdata (cancel_init 1 1)) in
  let d2 := onCancel (mkId kInt 8 []) 4 d1 in
  size (pendingCancelRequests (registry d2)) <= 1.
Proof.
  intros d1 d2. apply (registry_bounded_no_leak 1 1 (mkC d2 [] [])); [|done].
  eapply rtc_l; [apply (step_cancel (mkId kInt 7 []) 3)|].
  eapply rtc_l; [apply (step_cancel (mkId kInt 8 []) 4)|]. apply rtc_refl.
Defined.

(** A cancel notification reaches exactly the running request of its id:
    after a request started, [onCancel] with its id makes its monitor report
    [RequestCancelled], and [onCancel] with any other id leaves the monitor
    as it was (the other request being another registered task or none). *)
Theorem cancel_running_request (id other : lsRequestId) (s s' : N) ctx d ctx' cookie d' :
  (forall k f c, requestCancelers (registry d) !! k = Some (f, c) -> f < length (flags d)) ->
  key other <> key id ->
  cancelableRequestContext id s ctx d = (ctx', cookie, d') ->
  let m := getCancelledMonitor id ctx' in
  cancellationReason m (flags (onCancel id s' d')) = RequestCancelled /\
  cancellationReason m (flags (onCancel other s' d')) = cancellationReason m (flags d').
Proof.
  intros Hd Hne E. destruct (start_registered _ _ _ _ _ _ _ E) as (Hreg & Hm & Hlen & _).
  cbn zeta. rewrite Hm. split.
  - unfold onCancel. rewrite Hreg. apply reason_invoke_same. lia.
  - unfold onCancel. destruct (requestCancelers (registry d') !! key other) as [[f c]|] eqn:Eo.
    + apply reason_invoke_other. intros ->.
      assert (Hold : requestCancelers (registry d) !! key other = Some (length (flags d), c)).
      { revert E Eo. unfold cancelableRequestContext. cbn [cancelableTask].
        set (sc := match pendingCancelRequests _ !! key id with Some s0 => _ | None => _ end).
        assert (Hsc : requestCancelers sc.2 = <[key id := (length (flags d), next_request_cookie d)]>
                        (requestCancelers (registry d))) by (subst sc; destr_goal; done).
        destruct sc as [sh r]. cbn [snd] in Hsc. intros [= _ _ <-]. unfold recordSeenRequest.
        cbn [registry]. destruct (record_id _ _ _ _ _). cbn [requestCancelers]. rewrite Hsc.
        by rewrite lookup_insert_ne by congruence. }
      apply Hd in Hold. lia.
    + destruct (match _ with None => true | _ => _ end); done.
Qed.

Lemma cancel_running_request_witness :
  let '(ctx', cookie, d') :=
    cancelableRequestContext (mkId kInt 1 []) 0 [] (cdata (cancel_init 0 0)) in
  cancellationReason (getCancelledMonitor (mkId kInt 1 []) ctx')
    (flags (onCancel (mkId kInt 1 []) 1 d')) = RequestCancelled.
Proof.
  apply (cancel_running_request (mkId kInt 1 []) (mkId kInt 2 []) 0 1 []
    (cdata (cancel_init 0 0)) _ 0%N _); [|done|reflexivity].
  intros k f c. cbn [cdata cancel_init registry registry_empty requestCancelers].
  by rewrite lookup_empty.
Defined.

(** A cancel that overtakes its request is kept and applied once: when
    no request of the id runs and none is pending, a cancel with sequence
    [sc] followed by the start of the request with sequence [sr] starts it
    cancelled exactly if the id is new or the cancel was sent after the
    request ([sr < sc]); the cancel is consumed, so that the next request
    that reuses the id starts uncancelled. *)
Theorem cancel_before_request (id : lsRequestId) (sc sr sr2 : N) ctx ctx2 d ctx' cookie d' ctx2' cookie2 d'' :
  max_pending_cancel_requests d = 0 ->
  requestCancelers (registry d) !! key id = None ->
  pendingCancelRequests (registry d) !! key id = None ->
  cancelableRequestContext id sr ctx (onCancel id sc d) = (ctx', cookie, d') ->
  cancelableRequestContext id sr2 ctx2 d' = (ctx2', cookie2, d'') ->
  isCancellationRequested (getCancelledMonitor id ctx') (flags d') =
    (negb (bool_decide (is_Some (seenRequestIds (registry d) !! key id))) || (sr <? sc)%N) /\
  isCancellationRequested (getCancelledMonitor id ctx2') (flags d'') = false.
Proof.
  intros Hl Hc Hp E1 E2.
  assert (Hcancel : pendingCancelRequests (registry (onCancel id sc d)) !! key id = Some sc /\
    seenRequestIds (registry (onCancel id sc d)) = seenRequestIds (registry d)).
  { unfold onCancel. rewrite Hc, Hp. unfold recordPendingCancel, record_id. rewrite Hl. simpl.
    by rewrite lookup_insert_eq. }
  destruct Hcancel as [Hpend Hseen].
  assert (Hconsumed : pendingCancelRequests (registry d') !! key id = None).
  { revert E1. unfold cancelableRequestContext. cbn [cancelableTask set_cancelers pendingCancelRequests].
    rewrite Hpend. cbn beta iota zeta. unfold recordSeenRequest. cbn [registry].
    destruct (record_id _ _ _ _ _). intros [= _ _ <-]. simpl. apply lookup_delete_eq. }
  destruct (start_registered _ _ _ _ _ _ _ E1) as (_ & Hm1 & _ & _ & _ & _ & Hr1).
  destruct (start_registered _ _ _ _ _ _ _ E2) as (_ & Hm2 & _ & _ & _ & _ & Hr2).
  unfold isCancellationRequested. rewrite Hm1, Hm2, Hr1, Hr2, Hpend, Hseen, Hconsumed.
  split; [|done]. by destruct (_ || _).
Qed.

Lemma cancel_before_request_witness :
  let d := cdata (cancel_init 0 0) in
  let '(ctx', _, d') := cancelableRequestContext (mkId kInt 5 []) 7 [] (onCancel (mkId kInt 5 []) 3 d) in
  isCancellationRequested (getCancelledMonitor (mkId kInt 5 []) ctx') (flags d') = true.
Proof.
  eapply (cancel_before_request (mkId kInt 5 []) 3 7 8 [] [] (cdata (cancel_init 0 0)));
    reflexivity.
Defined.

(** When a client reuses the id of a request that is still running, the
    end of the first request leaves the second one cancelable: a cancel then
    sets the flag of the second request and not that of the first. *)
Theorem reused_id_keeps_canceler (id : lsRequestId) (s1 s2 s3 : N) ctx1 ctx2 d ctx1' c1 d1 ctx2' c2 d2 :
  retainedRequestCancelers (registry d) = ∅ ->
  cancelableRequestContext id s1 ctx1 d = (ctx1', c1, d1) ->
  cancelableRequestContext id s2 ctx2 d1 = (ctx2', c2, d2) ->
  let d3 := request_scope_exit (key id) c1 d2 in
  let d4 := onCancel id s3 d3 in
  (next_request_cookie d < 2 ^ 32)%N ->
  cancellationReason (getCancelledMonitor id ctx2') (flags d4) = RequestCancelled /\
  cancellationReason (getCancelledMonitor id ctx1') (flags d4) =
    cancellationReason (getCancelledMonitor id ctx1') (flags d2) /\
  requestCancelers (registry (request_scope_exit (key id) c2 d4)) !! key id = None.
Proof.
  intros Hret E1 E2 d3 d4 Hcookie.
  destruct (start_registered _ _ _ _ _ _ _ E1) as (_ & Hm1 & Hl1 & Hn1 & Hc1 & Hret1 & _).
  destruct (start_registered _ _ _ _ _ _ _ E2) as (Hreg & Hm2 & Hl2 & Hn2 & Hc2 & Hret2 & _).
  assert (Hne : c2 <> c1).
  { subst c1 c2. rewrite Hn1. unfold uadd32. intros E.
    destruct (decide (next_request_cookie d + 1 < 2 ^ 32)%N) as [Hlt|Hge].
    - rewrite N.mod_small in E by done. lia.
    - replace (next_request_cookie d + 1)%N with (2 ^ 32)%N in E by lia.
      rewrite N.Div0.mod_same in E. lia. }
  assert (Hd3 : d3 = d2).
  { subst d3. unfold request_scope_exit. rewrite Hret2, Hret1, Hret, lookup_empty.
    unfold erase_canceler. rewrite Hreg. rewrite (proj2 (N.eqb_neq _ _) Hne). by destruct d2. }
  subst d4. rewrite Hd3. unfold onCancel. rewrite Hreg, Hm1, Hm2. split; [|split].
  - apply reason_invoke_same. lia.
  - apply reason_invoke_other. lia.
  - unfold request_scope_exit. simpl. rewrite Hret2, Hret1, Hret, lookup_empty. simpl.
    unfold erase_canceler. rewrite Hreg, N.eqb_refl. simpl. apply lookup_delete_eq.
Qed.

Lemma reused_id_keeps_canceler_witness :
  let d := cdata (cancel_init 0 0) in
  let id := mkId kString (-1) (lit "a") in
  let '(ctx1, c1, d1) := cancelableRequestContext id 0 [] d in
  let '(ctx2, c2, d2) := cancelableRequestContext id 1 [] d1 in
  cancellationReason (getCancelledMonitor id ctx2)
    (flags (onCancel id 2 (request_scope_exit (key id) c1 d2))) = RequestCancelled.
Proof.
  eapply (reused_id_keeps_canceler (mkId kString (-1) (lit "a")) 0 1 2 [] []
    (cdata (cancel_init 0 0))); reflexivity.
Defined.

Fixpoint cancel_start_rounds (n : nat) (id : lsRequestId) (d : CancelData) : CancelData :=
  match n with
  | 0 => d
  | S n' =>
      let d := onCancel id (N.of_nat (2 * n)) d in
      let '(_, cookie, d) := cancelableRequestContext id (N.of_nat (2 * n + 1)) [] d in
      cancel_start_rounds n' id (request_scope_exit (key id) cookie d)
  end.

(** The limit bounds the table of pending cancels but not the deque of
    its order: after 50 rounds of a cancel that precedes its request, with a
    limit of 1, the table is empty and the deque has 50 entries. *)
Theorem pending_cancel_order_grows :
  let d := cancel_start_rounds 50 (mkId kInt 1 []) (cdata (cancel_init 1 1)) in
  size (pendingCancelRequests (registry d)) = 0 /\
  length (pendingCancelOrder (registry d)) = 50 /\ length (seenRequestOrder (registry d)) = 50.
Proof. by vm_compute. Qed.
