(* ===== verification/Future.v ===== *)
(** * Promises and futures

    include/LibLsp/JsonRpc/future.h: the state that promises and futures
    share, seen twice.  The other files use the value alone ([promise_state],
    an optional value).  Here it is also modelled with its mutex and condition
    variable: the threads blocked on it, the calls of [set_value], and wake-ups
    in any order. *)
From S2P Require Import Prelude.
From stdpp Require Import relations.

Inductive future_status := ready | timeout.

(** ** The value *)

(** [detail::promise_state]: [None] is [hasVal = false] *)
Definition promise_state (T : Type) := option T.

(** [promise::set_value]: a second call replaces the value *)
Definition set_value {T} (v : T) (_ : promise_state T) : promise_state T := Some v.

(** [future::wait_for] when its time is over: ready or not *)
Definition wait_for {T} (s : promise_state T) : future_status :=
  match s with Some _ => ready | None => timeout end.

(** [future::get] and [future::wait]: [None] means that the caller blocks *)
Definition future_get {T} (s : promise_state T) : option T := s.

(** ** Handles

    A [promise] or a [future] is a [shared_ptr] to its state: an index into
    the states, [None] once it is moved from. *)
Module Handles.
Section Handles.
Context {T : Type}.

Abbreviation states := (list (promise_state T)).
Definition handle := option nat.

(** The default constructors of [promise] and of [future]: both make a state *)
Definition make_shared (s : states) : handle * states := (Some (length s), s ++ [None]).
(** [promise(promise const&)] and [get_future]: the same state *)
Definition copy_promise (p : handle) : handle := p.
Definition get_future (p : handle) : handle := p.
(** The move constructors: the new handle, the old one *)
Definition move_handle (p : handle) : handle * handle := (p, None).
Definition valid (f : handle) : bool := match f with Some _ => true | None => false end.

(** A call through a handle; [None]: a null pointer is dereferenced *)
Definition promise_set_value (v : T) (p : handle) (s : states) : option states :=
  match p with Some i => Some (alter (set_value v) i s) | None => None end.
Definition future_wait_for (f : handle) (s : states) : option future_status :=
  match f with Some i => wait_for <$> s !! i | None => None end.

(** A value set through any copy of a promise makes every future of it ready;
    the states of other promises are left alone. *)
Theorem copies_share (s : states) (i : nat) (v : T) :
  i < length s ->
  let p := Some i in
  exists s', promise_set_value v (copy_promise p) s = Some s' /\
    future_wait_for (get_future p) s' = Some ready /\
    (forall f, f <> p -> future_wait_for f s' = future_wait_for f s).
Proof.
  intros Hi p. exists (alter (set_value v) i s). split; [done|]. unfold future_wait_for, get_future, p. split.
  - rewrite list_lookup_alter_eq. by destruct (lookup_lt_is_Some_2 s i Hi) as [x ->].
  - intros [j|] Hj; [|done]. by rewrite list_lookup_alter_ne by congruence.
Qed.

(** A [future] that is made by its default constructor is valid, and nobody
    can make it ready; [std::future] is not valid then. *)
Theorem default_future_valid (s : states) :
  let '(f, s') := make_shared s in valid f = true /\ future_wait_for f s' = Some timeout.
Proof. cbn. by rewrite lookup_app_r, Nat.sub_diag by lia. Qed.
End Handles.
End Handles.

(** ** The threads *)
Module Threads.
Section Threads.
Context {T : Type}.
(** What [std::move] leaves of a value *)
Variable moved : T -> T.

Inductive call := Get | Wait | WaitFor.
Inductive returned := GotValue (v : T) | Ready | TimedOut.

(** [blocked]: threads that the condition variable holds; [woken]: threads
    that are to lock the mutex and test [hasVal] again *)
Record State := mkState {
  val : T;
  hasVal : bool;
  blocked : list (nat * call);
  woken : list (nat * call);
  results : list (nat * returned)
}.
Definition state_init (v : T) : State := mkState v false [] [] [].

(** The call returns, with [hasVal]: [get] moves the value out *)
Definition finish (c : nat * call) (s : State) : State :=
  match c.2 with
  | Get => mkState (moved (val s)) (hasVal s) (blocked s) (woken s) (results s ++ [(c.1, GotValue (val s))])
  | _ => mkState (val s) (hasVal s) (blocked s) (woken s) (results s ++ [(c.1, Ready)])
  end.

(** The test of the predicate under the lock, and the wait that releases it *)
Definition test (c : nat * call) (s : State) : State :=
  if hasVal s then finish c s
  else mkState (val s) (hasVal s) (blocked s ++ [c]) (woken s) (results s).

(** [set_value], which notifies with the lock held *)
Definition set_and_notify (v : T) (s : State) : State :=
  mkState v true [] (woken s ++ blocked s) (results s).

(** The time of a [wait_for] or [wait_until] is over: the predicate decides *)
Definition expire (t : nat) (s : State) : State :=
  if hasVal s then finish (t, WaitFor) s
  else mkState (val s) (hasVal s) (blocked s) (woken s) (results s ++ [(t, TimedOut)]).

Definition set_blocked (l : list (nat * call)) (s : State) := mkState (val s) (hasVal s) l (woken s) (results s).
Definition set_woken (l : list (nat * call)) (s : State) := mkState (val s) (hasVal s) (blocked s) l (results s).

(** The steps, each under the mutex, with the values that were set *)
Inductive fstep : list T * State -> list T * State -> Prop :=
| f_call c vs s : fstep (vs, s) (vs, test c s)
| f_set v vs s : fstep (vs, s) (vs ++ [v], set_and_notify v s)
| f_spurious c l1 l2 vs s :
    blocked s = l1 ++ c :: l2 -> fstep (vs, s) (vs, set_woken (woken s ++ [c]) (set_blocked (l1 ++ l2) s))
| f_wake c l1 l2 vs s : woken s = l1 ++ c :: l2 -> fstep (vs, s) (vs, test c (set_woken (l1 ++ l2) s))
| f_expire_blocked t l1 l2 vs s :
    blocked s = l1 ++ (t, WaitFor) :: l2 -> fstep (vs, s) (vs, expire t (set_blocked (l1 ++ l2) s))
| f_expire_woken t l1 l2 vs s :
    woken s = l1 ++ (t, WaitFor) :: l2 -> fstep (vs, s) (vs, expire t (set_woken (l1 ++ l2) s)).

Definition got (r : nat * returned) : option T := match r.2 with GotValue v => Some v | _ => None end.
Definition finished (r : nat * returned) : bool := match r.2 with TimedOut => false | _ => true end.

(** The values that [n] calls of [get] return when [v] was set *)
Definition gets (v : T) (n : nat) : list T := map (fun k => Nat.iter k moved v) (seq 0 n).

Record future_inv (vs : list T) (s : State) : Prop := {
  inv_set : hasVal s = true <-> vs <> [];
  inv_blocked : hasVal s = true -> blocked s = [];
  inv_unset : hasVal s = false -> Forall (fun r => finished r = false) (results s);
  inv_gets : forall v, vs = [v] -> exists n, val s = Nat.iter n moved v /\ omap got (results s) = gets v n
}.

Lemma gets_S v n : gets v (S n) = gets v n ++ [Nat.iter n moved v].
Proof. unfold gets. by rewrite seq_S, map_app. Qed.

Lemma finish_inv c vs s : hasVal s = true -> future_inv vs s -> future_inv vs (finish c s).
Proof.
  intros Hv [H1 H2 H3 H4]. unfold finish.
  destruct c.2; constructor; cbn; try done; try congruence; intros v Hvs;
    destruct (H4 v Hvs) as (n & E1 & E2); rewrite omap_app, E2; cbn.
  - exists (S n). rewrite gets_S, E1. done.
  - exists n. by rewrite app_nil_r.
  - exists n. by rewrite app_nil_r.
Qed.

Lemma inv_lists vs s b w :
  future_inv vs s -> (hasVal s = true -> b = []) -> future_inv vs (mkState (val s) (hasVal s) b w (results s)).
Proof. intros [H1 H2 H3 H4] Hb. by constructor. Qed.

Lemma test_inv c vs s : future_inv vs s -> future_inv vs (test c s).
Proof.
  intros H. unfold test. destruct (hasVal s) eqn:E; [by apply finish_inv|].
  rewrite <- E. apply inv_lists; [done|congruence].
Qed.

Lemma expire_inv t vs s : future_inv vs s -> future_inv vs (expire t s).
Proof.
  intros H. unfold expire. destruct (hasVal s) eqn:E; [by apply finish_inv|].
  destruct H as [H1 H2 H3 H4]. constructor; cbn; rewrite ?E in *; try done.
  - intros _. apply Forall_app. split; [by apply H3|by repeat constructor].
  - intros v Hvs. exfalso. assert (false = true) by (apply H1; by rewrite Hvs). done.
Qed.

Lemma blocked_split vs s l1 c l2 :
  future_inv vs s -> blocked s = l1 ++ c :: l2 -> hasVal s = true -> l1 ++ l2 = [].
Proof. intros H Hb Hv. rewrite (inv_blocked _ _ H Hv) in Hb. by destruct l1. Qed.

Lemma fstep_inv vs s vs' s' : fstep (vs, s) (vs', s') -> future_inv vs s -> future_inv vs' s'.
Proof.
  intros Hs H. inversion Hs; subst.
  - by apply test_inv.
  - destruct H as [H1 H2 H3 H4]. constructor; cbn; try done.
    + split; [|done]. by destruct vs.
    + intros w Hw. destruct vs as [|? [|]]; try done. injection Hw as ->. exists 0. split; [done|]. cbn.
      destruct (hasVal s) eqn:E; [by destruct (proj1 H1 eq_refl)|]. specialize (H3 eq_refl). clear -H3.
      induction H3 as [|[t r] l Hr _ IH]; [done|]. cbn. rewrite IH. by destruct r.
  - apply (inv_lists vs' s); [done|]. intros Hv. by eapply blocked_split.
  - apply test_inv, (inv_lists vs' s); [done|]. by apply inv_blocked with vs'.
  - apply expire_inv, (inv_lists vs' s); [done|]. intros Hv. by eapply blocked_split.
  - apply expire_inv, (inv_lists vs' s); [done|]. by apply inv_blocked with vs'.
Qed.

Lemma future_reach v0 vs s : rtc fstep ([], state_init v0) (vs, s) -> future_inv vs s.
Proof.
  assert (H0 : future_inv [] (state_init v0)) by by repeat constructor.
  revert H0. generalize (@nil T), (state_init v0). intros vs0 s0 H0 Hr.
  remember (vs0, s0) as x eqn:Ex. remember (vs, s) as y eqn:Ey. revert vs0 s0 Ex H0.
  induction Hr as [|x [vs1 s1] y Hs _ IH]; intros vs0 s0 -> H0.
  - by injection Ey as <- <-.
  - eapply IH; [done..|]. by eapply fstep_inv.
Qed.

(** Once a value is there, waking the threads one by one ends all calls. *)
Lemma wake_all vs s :
  hasVal s = true -> exists s', rtc fstep (vs, s) (vs, s') /\ woken s' = [] /\ blocked s' = blocked s /\
    map fst (results s') = map fst (results s) ++ map fst (woken s).
Proof.
  remember (length (woken s)) as n eqn:En. revert s En. induction n as [|n IH]; intros s En Hv.
  - destruct s as [? ? ? [|]]; [|done]. eexists. split; [apply rtc_refl|]. split_and!; try done.
    cbn. by rewrite app_nil_r.
  - destruct (woken s) as [|c l] eqn:El; [done|].
    assert (Ht : test c (set_woken l s) = finish c (set_woken l s)) by (unfold test; cbn; by rewrite Hv).
    destruct (IH (finish c (set_woken l s))) as (s' & Hr & H1 & H2 & H3).
    + unfold finish. destruct c.2; cbn in *; lia.
    + unfold finish. by destruct c.2.
    + exists s'. split; [|split; [done|]].
      * eapply rtc_l; [apply (f_wake c [] l); exact El|]. cbn [app]. by rewrite Ht.
      * rewrite H2, H3. unfold finish. destruct c.2; cbn; rewrite map_app, <- app_assoc; done.
Qed.

(** * Theorems *)

(** C36. A value that is set is never missed and never invented: in every
    interleaving of calls, [set_value], spurious wake-ups and time-outs, no
    thread stays blocked on a state that has its value, every call that has
    been woken returns by the steps of its own thread, and before the value is
    set calls end by their time-out only.  When [set_value] is called once,
    the first [get] returns that value, each later one what [std::move] left. *)
Theorem future_no_lost_wakeup (v0 : T) (vs : list T) (s : State) :
  rtc fstep ([], state_init v0) (vs, s) ->
  (vs <> [] -> blocked s = [] /\
     exists s', rtc fstep (vs, s) (vs, s') /\ woken s' = [] /\ blocked s' = [] /\
       map fst (results s') = map fst (results s) ++ map fst (woken s)) /\
  (vs = [] -> forall t r, (t, r) ∈ results s -> r = TimedOut) /\
  (forall v, vs = [v] -> exists n, omap got (results s) = gets v n).
Proof.
  intros [H1 H2 H3 H4]%future_reach. split_and!.
  - intros Hv%H1. split; [by apply H2|]. destruct (wake_all vs s Hv) as (s' & Hr & Hw & Hb & Hm).
    exists s'. rewrite Hb, H2 by done. done.
  - intros -> t r Hr. destruct (hasVal s); [by destruct (proj1 H1 eq_refl)|].
    specialize (H3 eq_refl). rewrite Forall_forall in H3. specialize (H3 _ Hr). by destruct r.
  - intros v Hv. destruct (H4 v Hv) as (n & _ & E). by exists n.
Qed.
End Threads.

(** Two threads in [get] and one in [wait_for], which gives up; then the value *)
Lemma future_no_lost_wakeup_witness :
  let start := foldl (fun s c => test (T := nat) (fun _ => 0) c s) (state_init 0) [(1, Get); (2, Get); (3, WaitFor)] in
  let s := set_and_notify 42 (expire (fun _ => 0) 3 (set_blocked [(1, Get); (2, Get)] start)) in
  let s1 := test (fun _ => 0) (1, Get) (set_woken [(2, Get)] s) in
  let s2 := test (fun _ => 0) (2, Get) (set_woken [] s1) in
  results s2 = [(3, TimedOut); (1, GotValue 42); (2, GotValue 0)] /\ blocked s2 = [] /\
  exists n, omap got (results s2) = gets (fun _ => 0) 42 n.
Proof.
  intros start s s1 s2. split; [reflexivity|].
  assert (Hr : rtc (fstep (fun _ => 0)) ([], state_init 0) ([42], s2)).
  { do 3 (eapply rtc_l; [apply f_call|]).
    eapply rtc_l; [apply (f_expire_blocked _ 3 [(1, Get); (2, Get)] []); reflexivity|].
    eapply rtc_l; [apply f_set|].
    eapply rtc_l; [apply (f_wake _ (1, Get) [] [(2, Get)]); reflexivity|].
    eapply rtc_l; [apply (f_wake _ (2, Get) [] []); reflexivity|]. apply rtc_refl. }
  destruct (future_no_lost_wakeup (fun _ => 0) 0 [42] s2 Hr) as (H1 & _ & H3).
  split; [by apply H1|by apply H3].
Defined.
End Threads.
