(* ===== verification/Message.v ===== *)
(** * Messages, parsers and classification

    [LspMessage] (include/LibLsp/JsonRpc/message.h), the registered JSON
    parsers (MessageJsonHandler.cpp), the local endpoint (Endpoint.cpp) and
    [RemoteEndPoint::parseAndClassify] (RemoteEndPoint.cpp).

    rapidjson's [Document::Parse] is a parameter; the registered parsers and
    handlers belong to the application and are entries of the tables. *)
From S2P Require Import Prelude CppString Json RequestId Framing.
From stdpp Require Import sorting.

(** Rewrite a table entry under [run_parser] or [run_handler], where the type
    of the entries is unfolded. *)
Ltac use_entry H :=
  match type of H with
  | _ = Some ?v => match goal with |- context [?m !! ?k] => replace (m !! k) with (Some v) by (symmetry; exact H) end
  end.

Inductive Kind := REQUEST_MESSAGE | RESPONCE_MESSAGE | NOTIFICATION_MESSAGE.

#[export] Instance Kind_eq_dec : EqDecision Kind.
Proof. solve_decision. Defined.

(** What the endpoint reads of a message: [params_id] is [params.id] of a
    cancel notification, [error] the code and text of an [Rsp_Error]. *)
Record LspMessage := mkMessage {
  GetKid : Kind;
  GetMethodType : bytes;
  msg_id : lsRequestId;
  params_id : lsRequestId;
  error : option (Z * bytes);
  content : json
}.

Definition MethodNotFound : Z := (-32601)%Z.
Definition InvalidParams : Z := (-32602)%Z.
Definition InternalError : Z := (-32603)%Z.

Definition kCancelMethod : bytes := lit "$/cancelRequest".

(** An [Rsp_Error] *)
Definition makeErrorMessage (id : lsRequestId) (code : Z) (message : bytes) : LspMessage :=
  mkMessage RESPONCE_MESSAGE [] id id_none (Some (code, message)) JNull.

(** ** [MessageJsonHandler] *)

Definition parser := json -> exn + option LspMessage.

Record MessageJsonHandler := mkJsonHandler {
  method2request : gmap bytes parser;
  method2response : gmap bytes parser;
  method2notification : gmap bytes parser
}.

Definition run_parser (table : gmap bytes parser) (method : bytes) (r : json) : exn + option LspMessage :=
  match table !! method with Some p => p r | None => inr None end.

Definition parseRequstMessage (h : MessageJsonHandler) (method : bytes) (r : json) :=
  run_parser (method2request h) method r.
Definition parseResponseMessage (h : MessageJsonHandler) (method : bytes) (r : json) :=
  run_parser (method2response h) method r.
Definition parseNotificationMessage (h : MessageJsonHandler) (method : bytes) (r : json) :=
  run_parser (method2notification h) method r.

Definition SetRequestJsonHandler (method : bytes) (p : parser) (h : MessageJsonHandler) :=
  mkJsonHandler (<[method := p]> (method2request h)) (method2response h) (method2notification h).
Definition SetResponseJsonHandler (method : bytes) (p : parser) (h : MessageJsonHandler) :=
  mkJsonHandler (method2request h) (<[method := p]> (method2response h)) (method2notification h).
Definition SetNotificationJsonHandler (method : bytes) (p : parser) (h : MessageJsonHandler) :=
  mkJsonHandler (method2request h) (method2response h) (<[method := p]> (method2notification h)).

(** ** The parsers in the order of the map *)
(** [Get...JsonHandler]: the entry, or the null pointer *)
Definition GetRequestJsonHandler (method : bytes) (h : MessageJsonHandler) : option parser :=
  method2request h !! c_str method.
Definition GetResponseJsonHandler (method : bytes) (h : MessageJsonHandler) : option parser :=
  method2response h !! c_str method.
Definition GetNotificationJsonHandler (method : bytes) (h : MessageJsonHandler) : option parser :=
  method2notification h !! c_str method.

(** The iteration of a [std::map]: its entries by ascending key *)
Definition key_le {V} (a b : bytes * V) : Prop := string_lt b.1 a.1 = false.
#[export] Instance key_le_dec {V} : RelDecision (@key_le V).
Proof. intros a b. unfold key_le. apply _. Defined.
Definition map_entries {V} (m : gmap bytes V) : list (bytes * V) := merge_sort key_le (map_to_list m).

(** The loop of [resovleResponseMessage]: an exception moves on to the next
    entry, and what [result] held before stays when all of them throw *)
Fixpoint resolve_loop (entries : list (bytes * parser)) (r : json) : option (bytes * option LspMessage) :=
  match entries with
  | [] => None
  | (name, p) :: rest =>
      match p r with
      | inr msg => Some (name, msg)
      | inl _ => resolve_loop rest r
      end
  end.

Definition resovleResponseMessage (h : MessageJsonHandler) (r : json) (result : bytes * option LspMessage)
    : bool * (bytes * option LspMessage) :=
  match resolve_loop (map_entries (method2response h)) r with
  | Some found => (true, found)
  | None => (false, result)
  end.

#[export] Instance key_le_total {V} : Total (@key_le V).
Proof.
  intros a b. unfold key_le. destruct (string_lt b.1 a.1) eqn:E; [|by left]. right.
  destruct (string_lt a.1 b.1) eqn:E'; [|done].
  pose proof (string_lt_trans _ _ _ E E') as H. by rewrite string_lt_irrefl in H.
Qed.

#[export] Instance key_le_trans {V} : Transitive (@key_le V).
Proof.
  intros a b c Hab Hbc. unfold key_le in *. destruct (string_lt c.1 a.1) eqn:E; [|done].
  destruct (string_lt a.1 b.1) eqn:Eab.
  - by rewrite (string_lt_trans _ _ _ E Eab) in Hbc.
  - rewrite (string_lt_total _ _ Eab Hab) in E. congruence.
Qed.

Lemma elem_of_map_entries {V} (m : gmap bytes V) k v : (k, v) ∈ map_entries m <-> m !! k = Some v.
Proof. unfold map_entries. by rewrite merge_sort_Permutation, elem_of_map_to_list. Qed.

Lemma resolve_loop_spec entries r :
  StronglySorted key_le entries ->
  match resolve_loop entries r with
  | Some (k, msg) => exists p, (k, p) ∈ entries /\ p r = inr msg /\
      forall k' p', (k', p') ∈ entries -> string_lt k' k = true -> exists e, p' r = inl e
  | None => forall k p, (k, p) ∈ entries -> exists e, p r = inl e
  end.
Proof.
  induction 1 as [|[n p] l Hs IH Hf]; cbn [resolve_loop]; [by intros k p ?%elem_of_nil|].
  destruct (p r) as [e|msg] eqn:Ep.
  - destruct (resolve_loop l r) as [[k msg]|].
    + destruct IH as (q & Hq & Hr & Ht). exists q. split; [by right|]. split; [done|].
      intros k' p' [[= -> ->]|Hin]%elem_of_cons Hlt; eauto.
    + intros k q [[= -> ->]|Hin]%elem_of_cons; eauto.
  - exists p. split; [by left|]. split; [done|]. intros k' p' [[= -> ->]|Hin]%elem_of_cons Hlt.
    + by rewrite string_lt_irrefl in Hlt.
    + rewrite Forall_forall in Hf. apply Hf in Hin. unfold key_le in Hin. cbn in Hin. congruence.
Qed.

Lemma map_entries_sorted {V} (m : gmap bytes V) : StronglySorted key_le (map_entries m).
Proof. apply StronglySorted_merge_sort; apply _. Qed.

(** [resovleResponseMessage] takes the parser with the least method among
    those that do not throw, whichever order they were registered in; it
    fails, leaving [result] alone, exactly if every parser throws. *)
Theorem resolve_first_accepting (h : MessageJsonHandler) (r : json) (result : bytes * option LspMessage) :
  match resovleResponseMessage h r result with
  | (true, (method, msg)) =>
      exists p, method2response h !! method = Some p /\ p r = inr msg /\
        forall method' p', method2response h !! method' = Some p' -> string_lt method' method = true ->
          exists e, p' r = inl e
  | (false, result') =>
      result' = result /\ forall method p, method2response h !! method = Some p -> exists e, p r = inl e
  end.
Proof.
  unfold resovleResponseMessage.
  pose proof (resolve_loop_spec _ r (map_entries_sorted (method2response h))) as H.
  destruct (resolve_loop _ r) as [[k msg]|]; setoid_rewrite elem_of_map_entries in H; [done|]. by split.
Qed.

(** ** [GenericEndpoint]

    A handler acts on the application's state: the messages it sends, whether
    it retains the request's cancellation, and its result or the text of its
    exception. *)
Record handler_result (A : Type) := mkResult {
  new_app : A;
  sent_messages : list LspMessage;
  retains : bool;
  outcome : bytes + bool
}.
Arguments mkResult {A} _ _ _ _.
Arguments new_app {A} _.
Arguments sent_messages {A} _.
Arguments retains {A} _.
Arguments outcome {A} _.

(** The argument besides the message: the value of the cancel monitor. *)
Definition handler (A : Type) := LspMessage -> bool -> A -> handler_result A.

Record GenericEndpoint (A : Type) := mkEndpoint {
  requests : gmap bytes (handler A);
  responses : gmap bytes (handler A);
  notifications : gmap bytes (handler A)
}.
Arguments mkEndpoint {A} _ _ _.
Arguments requests {A} _.
Arguments responses {A} _.
Arguments notifications {A} _.

(** [notify], [onResponse] and [onRequest]: the table's handler, or [false]
    and a log entry (the message's text is printed by rapidjson and left out) *)
Definition run_handler {A} (what : bytes) (table : gmap bytes (handler A)) (method : bytes)
    (msg : LspMessage) (cancelled : bool) (app : A) : handler_result A * list (Level * bytes) :=
  match table !! method with
  | Some h => (h msg cancelled app, [])
  | None => (mkResult app [] false (inr false), [(SEVERE, lit "can't find " ++ what ++ lit ":" ++ [LF])])
  end.

Definition notify {A} (e : GenericEndpoint A) (msg : LspMessage) :=
  run_handler (lit "method2notification for notification") (notifications e) (GetMethodType msg) msg.
Definition onRequest {A} (e : GenericEndpoint A) (msg : LspMessage) :=
  run_handler (lit "method2request for request") (requests e) (GetMethodType msg) msg.
Definition onResponse {A} (e : GenericEndpoint A) (method : bytes) (msg : LspMessage) :=
  run_handler (lit "method2response for response") (responses e) method msg.

(** ** Classification *)

Definition member_is_string (j : json) (name : bytes) : bool :=
  match member j name with Some v => IsString v | None => false end.

Definition isResponseMessage (j : json) : bool :=
  if negb (HasMember j (lit "id")) then false
  else if negb (HasMember j (lit "result")) && negb (HasMember j (lit "error")) then false else true.

Definition isRequestMessage (j : json) : bool :=
  if negb (HasMember j (lit "method")) then false
  else if negb (member_is_string j (lit "method")) then false
  else if negb (HasMember j (lit "id")) then false else true.

Definition isNotificationMessage (j : json) : bool :=
  if negb (HasMember j (lit "method")) then false
  else if negb (member_is_string j (lit "method")) then false
  else if HasMember j (lit "id") then false else true.

Definition member_string (j : json) (name : bytes) : bytes :=
  match member j name with Some v => GetString v | None => [] end.

(** [ReflectMember(visitor, "id", id)] into a default-constructed id *)
Definition reflect_id (j : json) : lsRequestId :=
  match member j (lit "id") with Some v => read_id v id_none | None => id_none end.

(** [pending] is the shared pointer to the pending request, by its index. *)
Record ParsedMessage := mkParsed {
  ok : bool;
  outgoing : bool;
  kind : Kind;
  message : option LspMessage;
  pending : option nat
}.

Definition parsed_empty : ParsedMessage := mkParsed false false NOTIFICATION_MESSAGE None None.

Section Classify.
(** [Document::Parse]: the document, or the error's text and offset *)
Variable Parse : bytes -> (bytes * nat) + json.
Variable jsonHandler : MessageJsonHandler.
(** [getRequestInfo(id)]: the pending request and its method *)
Variable getRequestInfo : lsRequestId -> option (nat * bytes).

Definition log_entry := (Level * bytes)%type.

Definition jsonrpc_ok (j : json) : bool :=
  HasMember j (lit "jsonrpc") && member_is_string j (lit "jsonrpc") &&
  bool_decide (member_string j (lit "jsonrpc") = lit "2.0").

Definition exception_text (k : Kind) (what : bytes) : bytes :=
  lit "Exception  when process " ++
  match k with
  | REQUEST_MESSAGE => lit "request"
  | RESPONCE_MESSAGE => lit "response"
  | NOTIFICATION_MESSAGE => lit "notification"
  end ++ lit " message:" ++ [LF] ++ what.

Definition exception_log (k : Kind) (what text : bytes) : log_entry :=
  (SEVERE, lit "Reason:" ++ exception_text k what ++ [LF] ++ lit "content:" ++ [LF] ++ text).

Definition parse_failed : bytes := lit "Failed to parse response message.".

Definition classify_request (text : bytes) (j : json) : ParsedMessage * list log_entry :=
  let current_id := reflect_id j in
  let method := member_string j (lit "method") in
  match parseRequstMessage jsonHandler method j with
  | inr (Some msg) => (mkParsed true false REQUEST_MESSAGE (Some msg) None, [])
  | inr None =>
      (if has_value current_id then
         mkParsed true true RESPONCE_MESSAGE
           (Some (makeErrorMessage current_id MethodNotFound (lit "Method not found: " ++ method))) None
       else parsed_empty,
       [(WARNING, lit "Unknown support request message when consumer message:" ++ [LF] ++ text)])
  | inl e =>
      (if has_value current_id then
         mkParsed true true RESPONCE_MESSAGE
           (Some (makeErrorMessage current_id InvalidParams (what_text e))) None
       else parsed_empty,
       [exception_log REQUEST_MESSAGE (what_text e) text])
  end.

Definition classify_response (text : bytes) (j : json) : ParsedMessage * list log_entry :=
  let id := reflect_id j in
  match getRequestInfo id with
  | None =>
      (mkParsed true false RESPONCE_MESSAGE None None,
       [(INFO, lit "Unknown response message :" ++ [LF] ++ text)])
  | Some (info, method) =>
      match parseResponseMessage jsonHandler method j with
      | inr (Some msg) => (mkParsed true false RESPONCE_MESSAGE (Some msg) (Some info), [])
      | inr None =>
          (mkParsed true false RESPONCE_MESSAGE
             (Some (makeErrorMessage id InternalError parse_failed)) (Some info),
           [(SEVERE, lit "Unknown response message :" ++ [LF] ++ text)])
      | inl e =>
          (if has_value id then
             mkParsed true false RESPONCE_MESSAGE
               (Some (makeErrorMessage id InternalError parse_failed)) (Some info)
           else parsed_empty,
           [exception_log RESPONCE_MESSAGE (what_text e) text])
      end
  end.

Definition classify_notification (text : bytes) (j : json) : ParsedMessage * list log_entry :=
  match parseNotificationMessage jsonHandler (member_string j (lit "method")) j with
  | inr (Some msg) => (mkParsed true false NOTIFICATION_MESSAGE (Some msg) None, [])
  | inr None => (parsed_empty, [(SEVERE, lit "Unknown notification message :" ++ [LF] ++ text)])
  | inl e => (parsed_empty, [exception_log NOTIFICATION_MESSAGE (what_text e) text])
  end.

Definition parseAndClassify (text : bytes) : ParsedMessage * list log_entry :=
  match Parse text with
  | inl (msg, offset) =>
      (parsed_empty, [(SEVERE, lit "lsp msg format error:" ++ msg ++ [LF] ++
                               lit "ErrorContext offset:" ++ [LF] ++ drop offset text)])
  | inr j =>
      if negb (jsonrpc_ok j) then
        (parsed_empty, [(SEVERE, lit "Reason:Bad or missing jsonrpc version" ++ [LF] ++
                                 lit "content:" ++ [LF] ++ text)])
      else if isRequestMessage j then classify_request text j
      else if isResponseMessage j then classify_response text j
      else if isNotificationMessage j then classify_notification text j
      else (parsed_empty, [(WARNING, lit "Unknown lsp message when consumer message:" ++ [LF] ++ text)])
  end.
End Classify.

(** * Theorems *)

(** C14. No request goes unanswered by the classifier: a well-formed request
    with an id is either passed on for dispatch as the message its registered
    parser built, or answered with an error response that carries the
    request's id: [MethodNotFound] when no parser accepts the method,
    [InvalidParams] with the exception's text when the parser throws. *)
Theorem classify_request_total (Parse : bytes -> (bytes * nat) + json) (h : MessageJsonHandler)
    (lookup : lsRequestId -> option (nat * bytes)) (text : bytes) (j : json) :
  Parse text = inr j -> jsonrpc_ok j = true -> isRequestMessage j = true ->
  has_value (reflect_id j) = true ->
  let r := (parseAndClassify Parse h lookup text).1 in
  ok r = true /\ pending r = None /\
  ((outgoing r = false /\ kind r = REQUEST_MESSAGE /\
    exists m, message r = Some m /\ parseRequstMessage h (member_string j (lit "method")) j = inr (Some m)) \/
   (outgoing r = true /\ kind r = RESPONCE_MESSAGE /\
    exists m code what, message r = Some m /\ msg_id m = reflect_id j /\ error m = Some (code, what) /\
      ((code = MethodNotFound /\ parseRequstMessage h (member_string j (lit "method")) j = inr None) \/
       (code = InvalidParams /\ exists e, what_text e = what /\
          parseRequstMessage h (member_string j (lit "method")) j = inl e)))).
Proof.
  intros Hp Hv Hr Hid. unfold parseAndClassify. rewrite Hp, Hv, Hr. cbn [negb].
  unfold classify_request. rewrite Hid.
  destruct (parseRequstMessage h _ j) as [e|[m|]]; cbn; (split; [done|]); (split; [done|]).
  - right. split; [done|]. split; [done|]. do 3 eexists. split; [done|]. split; [done|].
    split; [done|]. right. split; [done|]. by exists e.
  - left. split; [done|]. split; [done|]. by exists m.
  - right. split; [done|]. split; [done|]. do 3 eexists. split; [done|]. split; [done|].
    split; [done|]. by left.
Qed.

Definition demo_request : json :=
  JObject [(lit "jsonrpc", JString (lit "2.0")); (lit "id", JNumber 9);
           (lit "method", JString (lit "nope"))].

Lemma classify_request_total_witness :
  let r := (parseAndClassify (fun _ => inr demo_request) (mkJsonHandler ∅ ∅ ∅) (fun _ => None) []).1 in
  ok r = true /\ pending r = None.
Proof.
  split;
    apply (classify_request_total (fun _ => inr demo_request) (mkJsonHandler ∅ ∅ ∅) (fun _ => None) []
             demo_request); reflexivity.
Defined.
