(* ===== verification/Envelope.v ===== *)
(** * Requests, responses and notifications as documents

    The structs that [DEFINE_REQUEST_RESPONSE_TYPE] and
    [DEFINE_NOTIFICATION_TYPE] make (include/LibLsp/JsonRpc/RequestInMessage.h,
    lsResponseMessage.h, NotificationInMessage.h), [Rsp_Error]
    (include/LibLsp/lsp/lsp_diagnostic.h) and their [ReflectReader].

    The member [params] or [result] is given by its [fields], because an
    [optional] one is left out when it is empty. *)
From S2P Require Import Prelude CppString Position Utils Uri Json Reflect RequestId Framing Message LspTypes.

(** ** [lsRequestId] as a member *)

Definition id_codec : codec lsRequestId := mkCodec (fun j v => inr (read_id j v)) write_id id_none.

(** What the constructors and [set] make: the unused part has its default *)
Definition id_valid (i : lsRequestId) : Prop :=
  match type i with
  | kNone => i = id_none
  | kInt => between (- 2 ^ 63) (2 ^ 63 - 1) (value i) /\ k_string i = []
  | kString => value i = (-1)%Z /\ NUL ∉ k_string i
  end.

#[export] Instance id_roundtrip : Roundtrip id_codec id_valid.
Proof.
  intros [[] v s] Hv; unfold id_valid in Hv; cbn [type value k_string] in Hv; cbn.
  - by rewrite Hv.
  - destruct Hv as [Hv ->]. unfold read_id. cbn [IsInt IsInt64 IsString GetNumber k_string id_none].
    rewrite (in_range_between _ _ v Hv). by destruct (in_range _ _ v).
  - destruct Hv as [-> Hs]. unfold read_id. cbn. by rewrite c_str_id.
Qed.

(** ** The structs *)

Record lsRequest (P : Type) := mkRequest { req_jsonrpc : bytes; req_id : lsRequestId; req_method : bytes; req_params : P }.
Record ResponseMessage (R : Type) := mkResponse { rsp_jsonrpc : bytes; rsp_id : lsRequestId; rsp_result : R }.
Record lsNotification (P : Type) := mkNotify { ntf_jsonrpc : bytes; ntf_method : bytes; ntf_params : P }.
Record Rsp_Error := mkRspError { err_jsonrpc : bytes; err_id : lsRequestId; err_error : lsResponseError }.
Arguments mkRequest {P} _ _ _ _.
Arguments req_jsonrpc {P} _.
Arguments req_id {P} _.
Arguments req_method {P} _.
Arguments req_params {P} _.
Arguments mkResponse {R} _ _ _.
Arguments rsp_jsonrpc {R} _.
Arguments rsp_id {R} _.
Arguments rsp_result {R} _.
Arguments mkNotify {P} _ _ _.
Arguments ntf_jsonrpc {P} _.
Arguments ntf_method {P} _.
Arguments ntf_params {P} _.

(** [LspMessage::jsonrpc] *)
Definition version : bytes := lit "2.0".
Definition jsonrpc_field : fields bytes := field_init (lit "jsonrpc") string_codec version.

Definition request_fields {P} (kMethodInfo : bytes) (params : fields P) :=
  jsonrpc_field ⊗ field (lit "id") id_codec ⊗ field_init (lit "method") string_codec kMethodInfo ⊗ params.
Definition request_codec {P} (kMethodInfo : bytes) (params : fields P) : codec (lsRequest P) :=
  struct_codec (request_fields kMethodInfo params)
    (fun '(v, (i, (m, p))) => mkRequest v i m p)
    (fun r => (req_jsonrpc r, (req_id r, (req_method r, req_params r)))).

Definition response_codec {R} (result : fields R) : codec (ResponseMessage R) :=
  struct_codec (jsonrpc_field ⊗ field (lit "id") id_codec ⊗ result)
    (fun '(v, (i, r)) => mkResponse v i r) (fun r => (rsp_jsonrpc r, (rsp_id r, rsp_result r))).

Definition notify_codec {P} (kMethodInfo : bytes) (params : fields P) : codec (lsNotification P) :=
  struct_codec (jsonrpc_field ⊗ field_init (lit "method") string_codec kMethodInfo ⊗ params)
    (fun '(v, (m, p)) => mkNotify v m p) (fun r => (ntf_jsonrpc r, (ntf_method r, ntf_params r))).

(** [lsErrorCodes] is read and written as an [int] *)
Definition error_codec (any : codec Any) : codec lsResponseError :=
  struct_codec (field_init (lit "code") int_codec (-32001)%Z ⊗ field (lit "message") string_codec
                ⊗ opt_field (lit "data") any)
    (fun '(c, (m, d)) => mkError c m d) (fun e => (code e, (error_message e, error_data e))).

Definition Rsp_Error_codec (any : codec Any) : codec Rsp_Error :=
  struct_codec (jsonrpc_field ⊗ field (lit "id") id_codec ⊗ field (lit "error") (error_codec any))
    (fun '(v, (i, e)) => mkRspError v i e) (fun r => (err_jsonrpc r, (err_id r, err_error r))).

(** ** [ReflectReader]

    The message object as the endpoint sees it; [content] is what it would
    write. *)
Definition reflect_reader {T} (c : codec T) (view : T -> json -> LspMessage) : parser := fun j =>
  bind_exn (rread c j (rinit c)) (fun v => inr (Some (view v (rwrite c v)))).

Definition request_view {P} (r : lsRequest P) (j : json) : LspMessage :=
  mkMessage REQUEST_MESSAGE (c_str (req_method r)) (req_id r) id_none None j.
Definition response_view {R} (r : ResponseMessage R) (j : json) : LspMessage :=
  mkMessage RESPONCE_MESSAGE [] (rsp_id r) id_none None j.
Definition notify_view {P} (r : lsNotification P) (j : json) : LspMessage :=
  mkMessage NOTIFICATION_MESSAGE (c_str (ntf_method r)) id_none id_none None j.
Definition error_view (r : Rsp_Error) (j : json) : LspMessage :=
  mkMessage RESPONCE_MESSAGE [] (err_id r) id_none
    (Some (code (err_error r), error_message (err_error r))) j.

Definition request_reader {P} (kMethodInfo : bytes) (params : fields P) : parser :=
  reflect_reader (request_codec kMethodInfo params) request_view.
Definition response_reader {R} (result : fields R) : parser :=
  reflect_reader (response_codec result) response_view.
Definition notify_reader {P} (kMethodInfo : bytes) (params : fields P) : parser :=
  reflect_reader (notify_codec kMethodInfo params) notify_view.
Definition error_reader (any : codec Any) : parser := reflect_reader (Rsp_Error_codec any) error_view.

(** The parser of a response: a document with a member [error] is an
    [Rsp_Error] *)
Definition response_parser (error_reader result_reader : parser) : parser := fun j =>
  if HasMember j (lit "error") then error_reader j else result_reader j.

(** ** Laws *)

Lemma jsonrpc_roundtrip : FieldsRoundtrip jsonrpc_field text_valid.
Proof. apply field_init_roundtrip; apply _. Qed.

#[export] Instance error_roundtrip (any : codec Any) (valid : Any -> Prop) :
  Roundtrip any valid -> NotNull any valid ->
  Roundtrip (error_codec any)
    (fun e => int_valid (code e) /\ text_valid (error_message e) /\ opt_valid valid (error_data e)).
Proof.
  intros Hr Hn. eapply struct_roundtrip_valid; [by intros []|reflexivity| |].
  - apply pair_roundtrip; [reflexivity|apply field_init_roundtrip; apply _|].
    apply pair_roundtrip; [reflexivity|apply field_roundtrip; apply _|by apply opt_field_roundtrip].
  - by intros e H.
Qed.

Lemma Rsp_Error_roundtrip (any : codec Any) (valid : Any -> Prop) :
  Roundtrip any valid -> NotNull any valid ->
  Roundtrip (Rsp_Error_codec any)
    (fun r => text_valid (err_jsonrpc r) /\ id_valid (err_id r) /\
              int_valid (code (err_error r)) /\ text_valid (error_message (err_error r)) /\
              opt_valid valid (error_data (err_error r))).
Proof.
  intros Hr Hn. eapply struct_roundtrip_valid; [by intros []|reflexivity| |].
  - apply pair_roundtrip; [reflexivity|apply jsonrpc_roundtrip|].
    apply pair_roundtrip; [reflexivity|apply field_roundtrip; apply _|apply field_roundtrip; by apply error_roundtrip].
  - by intros e H.
Qed.

(** The members of a message in front of the last one, whose name is given *)
Ltac envelope Hname last :=
  eapply struct_roundtrip_valid;
  [ by intros []
  | reflexivity
  | repeat (apply pair_roundtrip;
      [ unfold names_disjoint; cbn [f_names field_pair field field_init]; rewrite ?Hname; reflexivity
      | first [ apply jsonrpc_roundtrip | apply field_roundtrip; apply _
              | apply field_init_roundtrip; apply _ ] | ]); exact last
  | let r := fresh in let H := fresh in intros r H; exact H ].

Section Structs.
Context {T : Type} (m : fields T) (valid : T -> Prop) (name : bytes).
Hypothesis Hname : f_names m = [name].
Hypothesis Hm : FieldsRoundtrip m valid.
Variable kMethodInfo : bytes.

Lemma request_roundtrip :
  name = lit "params" ->
  Roundtrip (request_codec kMethodInfo m)
    (fun r => text_valid (req_jsonrpc r) /\ id_valid (req_id r) /\ text_valid (req_method r) /\ valid (req_params r)).
Proof using Hname Hm. intros ->. envelope Hname Hm. Qed.

Lemma response_roundtrip :
  name = lit "result" ->
  Roundtrip (response_codec m)
    (fun r => text_valid (rsp_jsonrpc r) /\ id_valid (rsp_id r) /\ valid (rsp_result r)).
Proof using Hname Hm. intros ->. envelope Hname Hm. Qed.

Lemma notify_roundtrip :
  name = lit "params" ->
  Roundtrip (notify_codec kMethodInfo m)
    (fun r => text_valid (ntf_jsonrpc r) /\ text_valid (ntf_method r) /\ valid (ntf_params r)).
Proof using Hname Hm. intros ->. envelope Hname Hm. Qed.

(** A member of another name is not written by the last one *)
Lemma only_name n v : n <> name -> FindMember n (f_write m v) = None.
Proof using Hname Hm. intros Hn. apply fields_only_names. rewrite Hname. set_solver. Qed.

End Structs.

(** * Theorems *)

Lemma read_written_id i : id_valid i -> read_id (write_id i) id_none = i.
Proof. intros Hi. by injection (id_roundtrip i Hi). Qed.

Lemma version_valid : text_valid version.
Proof. by apply find_char_None. Qed.

(** The members in front are found whatever follows. *)
Lemma written_request {P} k (m : fields P) r :
  rwrite (request_codec k m) r =
  JObject ([(lit "jsonrpc", JString (req_jsonrpc r)); (lit "id", write_id (req_id r));
            (lit "method", JString (req_method r))] ++ f_write m (req_params r)).
Proof. done. Qed.
Lemma written_response {R} (m : fields R) r :
  rwrite (response_codec m) r =
  JObject ([(lit "jsonrpc", JString (rsp_jsonrpc r)); (lit "id", write_id (rsp_id r))]
           ++ f_write m (rsp_result r)).
Proof. done. Qed.
Lemma written_notify {P} k (m : fields P) r :
  rwrite (notify_codec k m) r =
  JObject ([(lit "jsonrpc", JString (ntf_jsonrpc r)); (lit "method", JString (ntf_method r))]
           ++ f_write m (ntf_params r)).
Proof. done. Qed.

Section Wire.
Variable Parse : bytes -> (bytes * nat) + json.
Variable h : MessageJsonHandler.
Variable lookup : lsRequestId -> option (nat * bytes).

(** A request that one endpoint writes is dispatched by the other as the same
    request, when its parser is registered: same id, same method, same
    parameters. *)
Lemma request_survives_wire {P} (params : fields P) (valid : P -> Prop) (method text : bytes)
    (id : lsRequestId) (p : P) (parse : parser) :
  f_names params = [lit "params"] -> FieldsRoundtrip params valid -> valid p ->
  id_valid id -> text_valid method ->
  method2request h !! method = Some parse ->
  let r := mkRequest version id method p in
  let j := rwrite (request_codec method params) r in
  parse j = request_reader method params j ->
  Parse text = inr j ->
  rread (request_codec method params) j (rinit (request_codec method params)) = inr r /\
  parseAndClassify Parse h lookup text =
    (mkParsed true false REQUEST_MESSAGE (Some (mkMessage REQUEST_MESSAGE method id id_none None j)) None, []).
Proof.
  intros Hn Hf Hp Hi Hm Ht r j Hparse Htext.
  assert (Hread : rread (request_codec method params) j (rinit (request_codec method params)) = inr r).
  { apply (request_roundtrip params valid _ Hn Hf method eq_refl). repeat split; auto using version_valid. }
  unfold request_reader, reflect_reader in Hparse. rewrite Hread in Hparse. cbn [bind_exn] in Hparse.
  split; [done|]. unfold parseAndClassify. rewrite Htext. unfold request_view in Hparse.
  unfold j in *. rewrite written_request in *. set (ms := f_write params _) in *. cbn [req_jsonrpc req_id req_method r].
  replace (jsonrpc_ok _) with true by reflexivity. replace (isRequestMessage _) with true by reflexivity.
  cbn [negb]. unfold classify_request, parseRequstMessage, run_parser. cbv zeta.
  change (member_string _ _) with (c_str method). rewrite (c_str_id method Hm).
  use_entry Ht. cbn [app req_jsonrpc req_id req_method r] in *. rewrite Hparse. by rewrite c_str_id.
Qed.

(** A notification likewise. *)
Lemma notification_survives_wire {P} (params : fields P) (valid : P -> Prop) (method text : bytes) (p : P) :
  f_names params = [lit "params"] -> FieldsRoundtrip params valid -> valid p -> text_valid method ->
  method2notification h !! method = Some (notify_reader method params) ->
  let r := mkNotify version method p in
  let j := rwrite (notify_codec method params) r in
  Parse text = inr j ->
  rread (notify_codec method params) j (rinit (notify_codec method params)) = inr r /\
  parseAndClassify Parse h lookup text =
    (mkParsed true false NOTIFICATION_MESSAGE
       (Some (mkMessage NOTIFICATION_MESSAGE method id_none id_none None j)) None, []).
Proof.
  intros Hn Hf Hp Hm Ht r j Htext.
  assert (Hread : rread (notify_codec method params) j (rinit (notify_codec method params)) = inr r).
  { apply (notify_roundtrip params valid _ Hn Hf method eq_refl). repeat split; auto using version_valid. }
  split; [done|]. unfold parseAndClassify. rewrite Htext.
  assert (Hid : FindMember (lit "id") (f_write params p) = None)
    by (apply (only_name params valid _ Hn Hf); discriminate).
  unfold j in *. rewrite written_notify in *. cbn [app ntf_jsonrpc ntf_method ntf_params r] in *.
  set (ms := f_write params p) in *.
  assert (Hhas : HasMember (JObject ((lit "jsonrpc", JString version) :: (lit "method", JString method) :: ms))
                   (lit "id") = false).
  { unfold HasMember, member. change (FindMember _ _) with (FindMember (lit "id") ms). by rewrite Hid. }
  replace (jsonrpc_ok _) with true by reflexivity. cbn [negb].
  unfold isRequestMessage, isResponseMessage, isNotificationMessage. rewrite Hhas.
  replace (HasMember _ (lit "method")) with true by reflexivity.
  replace (member_is_string _ _) with true by reflexivity. cbn [negb].
  unfold classify_notification, parseNotificationMessage, run_parser.
  change (member_string _ _) with (c_str method). rewrite (c_str_id method Hm). use_entry Ht.
  unfold notify_reader, reflect_reader. rewrite Hread. cbn [bind_exn]. unfold notify_view.
  rewrite written_notify. cbn [app ntf_jsonrpc ntf_method ntf_params r]. by rewrite c_str_id.
Qed.

(** A response to a pending request reaches it with its result, provided that
    the result is written.  A response whose optional result is empty is
    written without a member [result]: it is not recognised as a response, and
    the request stays pending. *)
Lemma response_survives_wire {R} (result : fields R) (valid : R -> Prop) (err : parser) (method text : bytes)
    (id : lsRequestId) (v : R) (info : nat) :
  f_names result = [lit "result"] -> FieldsRoundtrip result valid -> valid v -> id_valid id ->
  lookup id = Some (info, method) ->
  method2response h !! method = Some (response_parser err (response_reader result)) ->
  let r := mkResponse version id v in
  let j := rwrite (response_codec result) r in
  Parse text = inr j ->
  rread (response_codec result) j (rinit (response_codec result)) = inr r /\
  parseAndClassify Parse h lookup text =
    match FindMember (lit "result") (f_write result v) with
    | Some _ => (mkParsed true false RESPONCE_MESSAGE
                   (Some (mkMessage RESPONCE_MESSAGE [] id id_none None j)) (Some info), [])
    | None => (parsed_empty, [(WARNING, lit "Unknown lsp message when consumer message:" ++ [LF] ++ text)])
    end.
Proof.
  intros Hn Hf Hv Hi Hl Ht r j Htext.
  assert (Hread : rread (response_codec result) j (rinit (response_codec result)) = inr r).
  { apply (response_roundtrip result valid _ Hn Hf eq_refl). repeat split; auto using version_valid. }
  split; [done|]. unfold parseAndClassify. rewrite Htext.
  assert (Ho : forall n, n <> lit "result" -> FindMember n (f_write result v) = None)
    by (intros n; apply (only_name result valid _ Hn Hf)).
  unfold j in *. rewrite written_response in *. cbn [app rsp_jsonrpc rsp_id rsp_result r] in *.
  set (ms := f_write result v) in *.
  set (doc := JObject _) in *.
  assert (Hhas : forall n, n <> lit "jsonrpc" -> n <> lit "id" ->
            HasMember doc n = match FindMember n ms with Some _ => true | None => false end).
  { intros n H1 H2. unfold HasMember, member, doc. cbn [FindMember].
    by rewrite !bool_decide_eq_false_2 by congruence. }
  replace (jsonrpc_ok doc) with true by reflexivity. cbn [negb].
  unfold isRequestMessage, isResponseMessage, isNotificationMessage.
  rewrite (Hhas (lit "method")), (Hhas (lit "result")), (Hhas (lit "error")),
    (Ho (lit "method")), (Ho (lit "error")) by discriminate.
  replace (HasMember doc (lit "id")) with true by reflexivity. cbn [negb].
  destruct (FindMember (lit "result") ms); cbn [negb andb]; [|done].
  unfold classify_response.
  replace (reflect_id doc) with id by (symmetry; exact (read_written_id id Hi)).
  rewrite Hl. unfold parseResponseMessage, run_parser. use_entry Ht. unfold response_parser.
  rewrite Hhas, (Ho (lit "error")) by discriminate. unfold response_reader, reflect_reader.
  rewrite Hread. cbn [bind_exn]. unfold response_view. by rewrite written_response.
Qed.

(** An error response to a pending request reaches it with its code, its
    message and its data. *)
Lemma error_survives_wire (any : codec Any) (valid : Any -> Prop) (result : parser) (method text : bytes)
    (id : lsRequestId) (e : lsResponseError) (info : nat) :
  Roundtrip any valid -> NotNull any valid ->
  int_valid (code e) -> text_valid (error_message e) -> opt_valid valid (error_data e) -> id_valid id ->
  lookup id = Some (info, method) ->
  method2response h !! method = Some (response_parser (error_reader any) result) ->
  let r := mkRspError version id e in
  let j := rwrite (Rsp_Error_codec any) r in
  Parse text = inr j ->
  rread (Rsp_Error_codec any) j (rinit (Rsp_Error_codec any)) = inr r /\
  parseAndClassify Parse h lookup text =
    (mkParsed true false RESPONCE_MESSAGE
       (Some (mkMessage RESPONCE_MESSAGE [] id id_none (Some (code e, error_message e)) j)) (Some info), []).
Proof.
  intros Hr Hn Hc Hm Hd Hi Hl Ht r j Htext.
  assert (Hread : rread (Rsp_Error_codec any) j (rinit (Rsp_Error_codec any)) = inr r).
  { apply (Rsp_Error_roundtrip any valid Hr Hn). exact (conj version_valid (conj Hi (conj Hc (conj Hm Hd)))). }
  split; [done|]. unfold parseAndClassify. rewrite Htext. set (doc := j) in *.
  replace (jsonrpc_ok doc) with true by reflexivity. replace (isRequestMessage doc) with false by reflexivity.
  replace (isResponseMessage doc) with true by reflexivity. cbn [negb].
  unfold classify_response.
  replace (reflect_id doc) with id by (symmetry; exact (read_written_id id Hi)).
  rewrite Hl. unfold parseResponseMessage, run_parser. use_entry Ht. unfold response_parser.
  replace (HasMember doc (lit "error")) with true by reflexivity.
  unfold error_reader, reflect_reader. rewrite Hread. reflexivity.
Qed.

End Wire.
