(* ===== verification/Reorder.v ===== *)
(** * The reorder buffer

    The part of [RemoteEndPoint::Data] (src/jsonrpc/RemoteEndPoint.cpp) guarded
    by [route_mutex]: parse tasks finish in any order, [submitParsedMessage]
    routes their results in the order of the wire.  Sequence numbers are
    [uint64_t] counters that start at 0 and are kept unbounded here. *)
From S2P Require Import Prelude.

Section Router.
Context {P : Type}.

Record Router := mkRouter {
  reorder_buffer : gmap N P;
  next_route_sequence : N
}.

Definition resetMessageRouting (next_message_sequence : N) (r : Router) : Router :=
  mkRouter ∅ next_message_sequence.

Definition clearMessageRouting (r : Router) : Router := mkRouter ∅ (next_route_sequence r).

(** The loop that empties the buffer from [next] on; each round removes an
    entry, so [size buf] rounds are enough. *)
Fixpoint drain_loop (fuel : nat) (buf : gmap N P) (next : N) : list (N * P) * Router :=
  match fuel with
  | 0 => ([], mkRouter buf next)
  | S fuel' =>
      match buf !! next with
      | None => ([], mkRouter buf next)
      | Some p =>
          let '(ready, r) := drain_loop fuel' (delete next buf) (next + 1)%N in
          ((next, p) :: ready, r)
      end
  end.

Definition drain (buf : gmap N P) (next : N) : list (N * P) * Router := drain_loop (size buf) buf next.

Inductive submit_result :=
| Ready (ready : list (N * P))     (** to be routed, in this order *)
| Overloaded                        (** the policy stops the session *)
| Quitting.

(** [std::map::emplace] keeps an existing entry. *)
Definition emplace (k : N) (p : P) (m : gmap N P) : gmap N P :=
  match m !! k with Some _ => m | None => <[k := p]> m end.

(** The critical section of [submitParsedMessage]; [drop_newest] is the
    overload policy, [empty] a default-constructed [ParsedMessage]. *)
Definition submitParsedMessage (empty : P) (max_reorder_buffer_size : nat) (drop_newest quit : bool)
    (sequence : N) (parsed : P) (bypass_reorder_limit : bool) (r : Router)
    : submit_result * Router :=
  if quit then (Quitting, r)
  else if (sequence =? next_route_sequence r)%N then
    let '(ready, r') := drain (reorder_buffer r) (next_route_sequence r + 1)%N in
    (Ready ((next_route_sequence r, parsed) :: ready), r')
  else
    let over := negb bypass_reorder_limit && negb (max_reorder_buffer_size =? 0)
                && (max_reorder_buffer_size <=? size (reorder_buffer r)) in
    if over && negb drop_newest then (Overloaded, r)
    else
      let parsed := if over then empty else parsed in
      let '(ready, r') := drain (emplace sequence parsed (reorder_buffer r)) (next_route_sequence r) in
      (Ready ready, r').

(** ** Lemmas *)

(** What was submitted so far and not routed yet. *)
Definition router_inv (sub : gmap N P) (r : Router) : Prop :=
  (forall i, reorder_buffer r !! i = if decide (next_route_sequence r <= i)%N then sub !! i else None) /\
  sub !! next_route_sequence r = None.

(** [n] consecutive entries of [sub] from [lo] on. *)
Definition routed_segment (sub : gmap N P) (lo : N) (l : list (N * P)) : Prop :=
  forall j : nat, j < length l -> exists p, l !! j = Some ((lo + N.of_nat j)%N, p) /\
    sub !! (lo + N.of_nat j)%N = Some p.

Lemma routed_segment_nil sub lo : routed_segment sub lo [].
Proof. intros j Hj. simpl in Hj. lia. Qed.

Lemma routed_segment_cons sub lo p l :
  sub !! lo = Some p -> routed_segment sub (lo + 1) l -> routed_segment sub lo ((lo, p) :: l).
Proof.
  intros Hp Hl [|j] Hj.
  - exists p. rewrite N.add_0_r. done.
  - cbn [length] in Hj. destruct (Hl j) as (q & H1 & H2); [lia|]. exists q.
    replace (lo + N.of_nat (S j))%N with (lo + 1 + N.of_nat j)%N by lia. done.
Qed.

Lemma routed_segment_app sub lo l1 l2 :
  routed_segment sub lo l1 -> routed_segment sub (lo + N.of_nat (length l1)) l2 ->
  routed_segment sub lo (l1 ++ l2).
Proof.
  intros H1 H2 j Hj. rewrite length_app in Hj. destruct (decide (j < length l1)) as [Hl|Hl].
  - destruct (H1 j Hl) as (p & E1 & E2). exists p. split; [|done]. by apply lookup_app_l_Some.
  - destruct (H2 (j - length l1)) as (p & E1 & E2); [lia|]. exists p.
    rewrite lookup_app_r by lia.
    replace (lo + N.of_nat j)%N with (lo + N.of_nat (length l1) + N.of_nat (j - length l1))%N by lia.
    done.
Qed.

Lemma drain_loop_spec fuel buf next sub :
  size buf <= fuel ->
  (forall i, buf !! i = if decide (next <= i)%N then sub !! i else None) ->
  exists ready, drain_loop fuel buf next = (ready, (drain_loop fuel buf next).2) /\
    next_route_sequence (drain_loop fuel buf next).2 = (next + N.of_nat (length ready))%N /\
    routed_segment sub next ready /\ router_inv sub (drain_loop fuel buf next).2.
Proof.
  revert buf next. induction fuel as [|fuel IH]; intros buf next Hsz Hbuf; cbn [drain_loop].
  - exists []. split; [done|]. split; [simpl; lia|]. split; [apply routed_segment_nil|].
    split; [done|]. cbn [next_route_sequence snd]. specialize (Hbuf next).
    rewrite decide_True in Hbuf by lia. rewrite <- Hbuf.
    replace buf with (∅ : gmap N P); [apply lookup_empty|].
    symmetry. apply map_size_empty_inv. lia.
  - pose proof (Hbuf next) as Hn. rewrite decide_True in Hn by lia.
    destruct (buf !! next) as [p|] eqn:E.
    + destruct (IH (delete next buf) (next + 1)%N) as (ready & E1 & E2 & E3 & E4).
      * rewrite map_size_delete, E. lia.
      * intros i. destruct (decide (i = next)) as [->|Hne].
        -- rewrite lookup_delete_eq, decide_False by lia. done.
        -- rewrite lookup_delete_ne, Hbuf by congruence.
           destruct (decide (next <= i)%N), (decide (next + 1 <= i)%N); done || lia.
      * destruct (drain_loop fuel (delete next buf) (next + 1)) as [l r'] eqn:Ed.
        cbn [snd] in *. injection E1 as ->. exists ((next, p) :: ready). split; [done|].
        split; [rewrite E2; simpl; lia|]. split; [|done]. by apply routed_segment_cons.
    + exists []. split; [done|]. split; [simpl; lia|]. split; [apply routed_segment_nil|].
      split; [done|]. cbn [next_route_sequence snd]. by rewrite <- Hn.
Qed.

Lemma drain_spec buf next sub :
  (forall i, buf !! i = if decide (next <= i)%N then sub !! i else None) ->
  let '(ready, r) := drain buf next in
  next_route_sequence r = (next + N.of_nat (length ready))%N /\
  routed_segment sub next ready /\ router_inv sub r.
Proof.
  intros H. destruct (drain_loop_spec (size buf) buf next sub) as (ready & E1 & E2 & E3 & E4); [done..|].
  unfold drain. destruct (drain_loop (size buf) buf next) as [l r]. cbn [snd] in *.
  injection E1 as ->. done.
Qed.
End Router.
Arguments Router P : clear implicits.
Arguments submit_result P : clear implicits.

Section Run.
Context {P : Type} (empty : P) (max_reorder_buffer_size : nat) (drop_newest : bool).

(** The results of the parse tasks in the order in which they finish; all
    that is routed, or [None] when the session is stopped by an overload. *)
Fixpoint submit_all (subs : list (N * P)) (r : Router P) : option (list (N * P) * Router P) :=
  match subs with
  | [] => Some ([], r)
  | (s, p) :: subs' =>
      match submitParsedMessage empty max_reorder_buffer_size drop_newest false s p false r with
      | (Ready ready, r') =>
          match submit_all subs' r' with
          | Some (out, r'') => Some (ready ++ out, r'')
          | None => None
          end
      | _ => None
      end
  end.

Definition inv_from (lo : N) (sub : gmap N P) (r : Router P) : Prop :=
  router_inv sub r /\ (lo <= next_route_sequence r)%N /\
  (forall i, (lo <= i < next_route_sequence r)%N -> is_Some (sub !! i)).

Lemma segment_is_Some sub lo (l : list (N * P)) i :
  routed_segment sub lo l -> (lo <= i < lo + N.of_nat (length l))%N -> is_Some (sub !! i).
Proof.
  intros Hs Hi. destruct (Hs (N.to_nat (i - lo))) as (p & _ & E); [lia|].
  replace (lo + N.of_nat (N.to_nat (i - lo)))%N with i in E by lia. by exists p.
Qed.

(** The invariant after the messages [ready] from [nxt] on have been routed *)
Lemma inv_from_routed lo sub nxt s p' ready r' :
  (lo <= nxt)%N -> (forall i, (lo <= i < nxt)%N -> is_Some (sub !! i)) -> router_inv (<[s := p']> sub) r' ->
  routed_segment (<[s := p']> sub) nxt ready -> next_route_sequence r' = (nxt + N.of_nat (length ready))%N ->
  inv_from lo (<[s := p']> sub) r'.
Proof.
  intros Hlo Hall Hr Hseg Hn. split; [done|]. split; [lia|]. intros i Hi.
  destruct (decide (i < nxt)%N).
  - destruct (Hall i) as [q Hq]; [lia|]. apply lookup_insert_is_Some. destruct (decide (s = i)); [by left|]. right. by eauto.
  - eapply segment_is_Some; [exact Hseg|]. lia.
Qed.

(** A result that was not submitted before is routed now or kept, and what
    is routed continues the sequence; unless the buffer is full, when the
    policy drops the result or ends the session. *)
Lemma submit_cases lo sub r s p bypass :
  inv_from lo sub r -> (lo <= s)%N -> sub !! s = None ->
  (exists ready r' p',
    submitParsedMessage empty max_reorder_buffer_size drop_newest false s p bypass r = (Ready ready, r') /\
    (p' = p \/ p' = empty /\ max_reorder_buffer_size <> 0 /\ drop_newest = true /\
       s <> next_route_sequence r /\ bypass = false /\ max_reorder_buffer_size <= size (reorder_buffer r)) /\
    inv_from lo (<[s := p']> sub) r' /\
    routed_segment (<[s := p']> sub) (next_route_sequence r) ready /\
    next_route_sequence r' = (next_route_sequence r + N.of_nat (length ready))%N) \/
  submitParsedMessage empty max_reorder_buffer_size drop_newest false s p bypass r = (Overloaded, r) /\
    drop_newest = false /\ max_reorder_buffer_size <> 0 /\ bypass = false.
Proof.
  intros ([Hbuf Hnext] & Hlo & Hall) Hs Hsub. unfold submitParsedMessage.
  destruct (N.eqb_spec s (next_route_sequence r)) as [->|Hne].
  - set (nxt := next_route_sequence r) in *.
    pose proof (drain_spec (reorder_buffer r) (nxt + 1)%N (<[nxt := p]> sub)) as Hd.
    destruct (drain (reorder_buffer r) (nxt + 1)) as [ready r']. destruct Hd as (Hd1 & Hd2 & Hd3).
    { intros i. rewrite Hbuf. destruct (decide (i = nxt)) as [->|Hi].
      - rewrite decide_True, decide_False by lia. done.
      - rewrite lookup_insert_ne by congruence.
        destruct (decide (nxt <= i)%N), (decide (nxt + 1 <= i)%N); done || lia. }
    assert (Hseg : routed_segment (<[nxt := p]> sub) nxt ((nxt, p) :: ready)).
    { apply routed_segment_cons; [apply lookup_insert_eq|done]. }
    left. exists ((nxt, p) :: ready), r', p. split; [done|]. split; [by left|].
    assert (Hlen : next_route_sequence r' = (nxt + N.of_nat (length ((nxt, p) :: ready)))%N)
      by (rewrite Hd1; cbn [length]; lia).
    split; [|done]. by eapply (inv_from_routed lo sub nxt).
  - set (over := negb bypass && _ && _).
    assert (Hov : over = true -> max_reorder_buffer_size <> 0 /\ bypass = false /\
              max_reorder_buffer_size <= size (reorder_buffer r)).
    { subst over. intros [[?%negb_true_iff ?%negb_true_iff%Nat.eqb_neq]%andb_prop ?%Nat.leb_le]%andb_prop. done. }
    destruct (over && negb drop_newest) eqn:Hover.
    { apply andb_prop in Hover as [Ho ?%negb_true_iff]. right. destruct (Hov Ho) as (? & ? & ?). done. }
    left. set (p' := if over then empty else p).
    assert (Hsn : (next_route_sequence r < s)%N).
    { destruct (decide (s < next_route_sequence r)%N) as [Hlt|]; [|lia].
      destruct (Hall s) as [q Hq]; [lia|]. congruence. }
    assert (Hem : emplace s p' (reorder_buffer r) = <[s := p']> (reorder_buffer r)).
    { unfold emplace. rewrite Hbuf, decide_True, Hsub by lia. done. }
    rewrite Hem. pose proof (drain_spec (<[s := p']> (reorder_buffer r)) (next_route_sequence r)
      (<[s := p']> sub)) as Hd.
    destruct (drain (<[s := p']> (reorder_buffer r)) (next_route_sequence r)) as [ready r'].
    destruct Hd as (Hd1 & Hd2 & Hd3).
    { intros i. destruct (decide (i = s)) as [->|Hi].
      - rewrite !lookup_insert_eq, decide_True by lia. done.
      - rewrite !lookup_insert_ne by congruence. apply Hbuf. }
    exists ready, r', p'. split; [done|]. split.
    { subst p'. destruct over; [right|by left]. destruct (Hov eq_refl) as (? & ? & ?).
      destruct drop_newest; [|done]. done. }
    split; [|done]. by eapply (inv_from_routed lo sub (next_route_sequence r)).
Qed.

Lemma submit_step lo sub r s p bypass :
  drop_newest = true \/ max_reorder_buffer_size = 0 \/ bypass = true ->
  inv_from lo sub r -> (lo <= s)%N -> sub !! s = None ->
  exists ready r' p',
    submitParsedMessage empty max_reorder_buffer_size drop_newest false s p bypass r = (Ready ready, r') /\
    (p' = p \/ p' = empty /\ max_reorder_buffer_size <> 0) /\
    inv_from lo (<[s := p']> sub) r' /\
    routed_segment (<[s := p']> sub) (next_route_sequence r) ready /\
    next_route_sequence r' = (next_route_sequence r + N.of_nat (length ready))%N.
Proof.
  intros Hpol Hinv Hs Hsub.
  destruct (submit_cases lo sub r s p bypass) as [(ready & r' & p' & ? & ? & ?)|(_ & ? & ? & ?)]; [done..| |].
  - exists ready, r', p'. split; [done|]. split; [naive_solver|done].
  - naive_solver congruence.
Qed.

Lemma routed_segment_mono sub s p' lo (l : list (N * P)) :
  routed_segment sub lo l -> sub !! s = None -> routed_segment (<[s := p']> sub) lo l.
Proof.
  intros H Hs j Hj. destruct (H j Hj) as (q & E1 & E2). exists q. split; [done|].
  rewrite lookup_insert_ne; [done|]. congruence.
Qed.

Lemma submit_all_spec lo subs sub r :
  drop_newest = true \/ max_reorder_buffer_size = 0 ->
  inv_from lo sub r -> NoDup (map fst subs) ->
  (forall s p, (s, p) ∈ subs -> (lo <= s)%N /\ sub !! s = None) ->
  exists out r' sub',
    submit_all subs r = Some (out, r') /\ inv_from lo sub' r' /\
    routed_segment sub' (next_route_sequence r) out /\
    next_route_sequence r' = (next_route_sequence r + N.of_nat (length out))%N /\
    (forall s p, sub' !! s = Some p -> sub !! s = Some p \/
       (s ∈ map fst subs /\ ((s, p) ∈ subs \/ p = empty /\ max_reorder_buffer_size <> 0))) /\
    (forall s p, (s, p) ∈ subs -> is_Some (sub' !! s)) /\
    (forall s p, sub !! s = Some p -> sub' !! s = Some p).
Proof.
  intros Hpol. revert sub r. induction subs as [|[s p] subs IH]; intros sub r Hinv Hnd Hsubs.
  - exists [], r, sub. split; [done|]. split; [done|]. split; [apply routed_segment_nil|].
    split; [simpl; lia|]. split; [by left|]. split; [|done]. intros ? ? H. by apply not_elem_of_nil in H.
  - cbn [map] in Hnd. apply NoDup_cons in Hnd as [Hnin Hnd].
    destruct (Hsubs s p) as [Hlo Hs]; [by left|].
    destruct (submit_step lo sub r s p false) as (ready & r1 & p' & E1 & Hp' & Hinv1 & Hseg1 & Hnext1);
      [tauto|done..|].
    destruct (IH (<[s := p']> sub) r1) as (out & r2 & sub2 & E2 & Hinv2 & Hseg2 & Hnext2 & Hfrom & Hto & Hkeep);
      [done|done| |].
    { intros s' q' Hin. destruct (Hsubs s' q') as [? ?]; [by right|]. split; [done|].
      rewrite lookup_insert_ne; [done|]. intros ->. apply Hnin.
      apply list_elem_of_fmap. by exists (s', q'). }
    exists (ready ++ out), r2, sub2. cbn [submit_all]. rewrite E1, E2. split; [done|]. split; [done|].
    split.
    { apply routed_segment_app; [|by rewrite <- Hnext1].
      intros j Hj. destruct (Hseg1 j Hj) as (q & ? & ?). exists q. auto. }
    split; [rewrite Hnext2, Hnext1, length_app; lia|]. split; [|split].
    + intros s' q' H. apply Hfrom in H as [H|(Hin & Hq)].
      * apply lookup_insert_Some in H as [[<- <-]|[Hne H]]; [|by left].
        right. split; [by left|]. destruct Hp' as [-> |?]; [left; by left|by right].
      * right. split; [by right|]. destruct Hq as [?|?]; [left; by right|by right].
    + intros s' q' [[= -> ->]|Hin]%elem_of_cons; [|by eapply Hto].
      exists p'. apply Hkeep, lookup_insert_eq.
    + intros s' q' H. apply Hkeep. rewrite lookup_insert_ne; [done|]. congruence.
Qed.
End Run.

Definition seqN (lo : N) (n : nat) : list N := (fun i => (lo + N.of_nat i)%N) <$> seq 0 n.

Lemma elem_of_seqN lo n i : i ∈ seqN lo n <-> (lo <= i < lo + N.of_nat n)%N.
Proof.
  unfold seqN. rewrite list_elem_of_fmap. split.
  - intros (j & -> & Hj%elem_of_seq). lia.
  - intros H. exists (N.to_nat (i - lo)). split; [lia|]. apply elem_of_seq. lia.
Qed.

Lemma NoDup_seqN lo n : NoDup (seqN lo n).
Proof. apply NoDup_fmap_2; [intros i j; lia|apply NoDup_seq]. Qed.

Lemma segment_fst {P} (sub : gmap N P) lo l : routed_segment sub lo l -> map fst l = seqN lo (length l).
Proof.
  intros H. apply list_eq. intros j. unfold seqN. change (map fst l) with (fst <$> l).
  rewrite !list_lookup_fmap. destruct (decide (j < length l)) as [Hj|Hj].
  - destruct (H j Hj) as (p & -> & _). rewrite lookup_seq_lt by done. done.
  - rewrite lookup_ge_None_2, lookup_seq_ge by lia. done.
Qed.

Lemma keys_unique {P} (l : list (N * P)) s p q :
  NoDup (map fst l) -> (s, p) ∈ l -> (s, q) ∈ l -> p = q.
Proof.
  intros Hnd Hp Hq. apply list_elem_of_lookup in Hp as [i Hi]. apply list_elem_of_lookup in Hq as [j Hj].
  assert (i = j) as ->; [|congruence].
  apply (NoDup_lookup (map fst l) i j s Hnd); change (map fst l) with (fst <$> l);
    rewrite list_lookup_fmap; [by rewrite Hi|by rewrite Hj].
Qed.

(** When all of [lo, ..., lo+n-1] and nothing else was submitted, the router
    has routed exactly these. *)
Lemma routed_all {P} (subs : list (N * P)) (sub' : gmap N P) lo n r' :
  inv_from lo sub' r' ->
  (forall s, s ∈ map fst subs <-> (lo <= s < lo + N.of_nat n)%N) ->
  (forall s p, sub' !! s = Some p -> s ∈ map fst subs) ->
  (forall s p, (s, p) ∈ subs -> is_Some (sub' !! s)) ->
  r' = mkRouter ∅ (lo + N.of_nat n)%N.
Proof.
  intros ([Hbuf Hnone] & Hge & Hall) Hrange Hfrom Hto.
  assert (Hnl : ~ (next_route_sequence r' < lo + N.of_nat n)%N).
  { intros Hlt. assert (Hin : next_route_sequence r' ∈ map fst subs) by (apply Hrange; lia).
    apply list_elem_of_fmap in Hin as ([s p] & Hs & Hin). cbn [fst] in Hs. rewrite Hs in Hnone.
    destruct (Hto _ _ Hin). congruence. }
  assert (Hng : ~ (lo + N.of_nat n < next_route_sequence r')%N).
  { intros Hgt. destruct (Hall (lo + N.of_nat n)%N) as [q Hq]; [lia|].
    apply Hfrom, Hrange in Hq. lia. }
  destruct r' as [buf nxt]. cbn [reorder_buffer next_route_sequence] in *. f_equal; [|lia].
  apply map_empty. intros i. rewrite Hbuf. destruct (decide _) as [Hle|]; [|done].
  destruct (sub' !! i) as [q|] eqn:Ei; [|done]. apply Hfrom, Hrange in Ei. lia.
Qed.

Lemma same_keys_Permutation {P} (out subs : list (N * P)) :
  NoDup (map fst subs) -> Permutation (map fst out) (map fst subs) ->
  (forall x, x ∈ out -> x ∈ subs) -> Permutation out subs.
Proof.
  intros Hnd Hperm Hout. apply NoDup_Permutation.
  - apply (NoDup_fmap_1 fst). change (fst <$> out) with (map fst out). by rewrite Hperm.
  - by apply (NoDup_fmap_1 fst).
  - intros [s p]. split; [apply Hout|]. intros Hin. assert (Hs : s ∈ map fst out).
    { rewrite Hperm. apply list_elem_of_fmap. by exists (s, p). }
    apply list_elem_of_fmap in Hs as ([s' q] & Heq & Hin'). cbn [fst] in Heq. subst s'.
    by rewrite (keys_unique subs s p q Hnd Hin (Hout _ Hin')).
Qed.

(** * Theorems *)

(** C7. Whatever order the parse tasks finish in, their results are routed
    exactly once each and in wire order: for the [n] messages from sequence
    number [lo] on, submitted in any permutation, the routed sequence numbers
    are [lo, ..., lo+n-1] in this order and nothing stays in the buffer;
    without a buffer limit the routed results are the submitted ones, and
    under the policy [DropNewest] a routed result is the submitted one or the
    empty placeholder. *)
Theorem reorder_restores_wire_order {P : Type} (empty : P) (max_reorder_buffer_size : nat)
    (drop_newest : bool) (lo : N) (n : nat) (subs : list (N * P)) (r : Router P) :
  drop_newest = true \/ max_reorder_buffer_size = 0 ->
  Permutation (map fst subs) (seqN lo n) ->
  exists out r',
    submit_all empty max_reorder_buffer_size drop_newest subs (resetMessageRouting lo r) = Some (out, r') /\
    map fst out = seqN lo n /\ r' = mkRouter ∅ (lo + N.of_nat n)%N /\
    (max_reorder_buffer_size = 0 -> Permutation out subs) /\
    (forall s p, (s, p) ∈ out -> (s, p) ∈ subs \/ p = empty).
Proof.
  intros Hpol Hperm.
  assert (Hnd : NoDup (map fst subs)) by (rewrite Hperm; apply NoDup_seqN).
  assert (Hrange : forall s, s ∈ map fst subs <-> (lo <= s < lo + N.of_nat n)%N)
    by (intros s; rewrite Hperm; apply elem_of_seqN).
  destruct (submit_all_spec empty max_reorder_buffer_size drop_newest lo subs ∅ (resetMessageRouting lo r))
    as (out & r' & sub' & E & Hinv & Hseg & Hnext & Hfrom & Hto & _); [done| |done| |].
  { split; [split|split]; cbn [resetMessageRouting reorder_buffer next_route_sequence].
    - intros i. rewrite lookup_empty. by destruct (decide _).
    - apply lookup_empty.
    - lia.
    - intros i Hi. lia. }
  { intros s p Hin. split; [|apply lookup_empty]. apply (Hrange s), list_elem_of_fmap. by exists (s, p). }
  cbn [resetMessageRouting next_route_sequence] in *.
  assert (Hfrom' : forall s p, sub' !! s = Some p ->
    s ∈ map fst subs /\ ((s, p) ∈ subs \/ p = empty /\ max_reorder_buffer_size <> 0))
    by (intros s p Hs; apply Hfrom in Hs as [Hs|?]; [by rewrite lookup_empty in Hs|done]).
  assert (Hr' : r' = mkRouter ∅ (lo + N.of_nat n)%N)
    by (apply (routed_all subs sub' lo n); [done|done| |done]; intros s p Hs; by apply Hfrom' in Hs as [? _]).
  assert (Hlen : length out = n) by (rewrite Hr' in Hnext; cbn [next_route_sequence] in Hnext; lia).
  assert (Hfst : map fst out = seqN lo n) by (rewrite <- Hlen; by eapply segment_fst).
  assert (Hout : forall s p, (s, p) ∈ out -> (s, p) ∈ subs \/ p = empty /\ max_reorder_buffer_size <> 0).
  { intros s p [j Hj]%list_elem_of_lookup. destruct (Hseg j) as (q & Hq & Hs); [by eapply lookup_lt_Some|].
    rewrite Hj in Hq. injection Hq as -> ->. by apply Hfrom' in Hs as [_ ?]. }
  exists out, r'. split; [done|]. split; [done|]. split; [done|]. split.
  - intros Hmax. apply same_keys_Permutation; [done|by rewrite Hfst|].
    intros [s p] Hin. by apply Hout in Hin as [?|[_ ?]].
  - intros s p Hin. apply Hout in Hin as [?|[? _]]; [by left|by right].
Qed.

Lemma reorder_restores_wire_order_witness :
  exists out r',
    submit_all 0 0 false [(7%N, 17); (5%N, 15); (8%N, 18); (6%N, 16)] (mkRouter ∅ 5%N) = Some (out, r') /\
    map fst out = [5%N; 6%N; 7%N; 8%N] /\ r' = mkRouter ∅ 9%N /\
    (0 = 0 -> Permutation out [(7%N, 17); (5%N, 15); (8%N, 18); (6%N, 16)]) /\
    (forall s p, (s, p) ∈ out -> (s, p) ∈ [(7%N, 17); (5%N, 15); (8%N, 18); (6%N, 16)] \/ p = 0).
Proof.
  apply (reorder_restores_wire_order 0 0 false 5 4 [(7%N, 17); (5%N, 15); (8%N, 18); (6%N, 16)]
           (mkRouter ∅ 5%N)); [by right|].
  unfold seqN. simpl. solve_Permutation.
Defined.
