(* ===== verification/Ordered.v ===== *)
(** * The ordered dispatcher

    The part of [RemoteEndPoint::Data] (src/jsonrpc/RemoteEndPoint.cpp) guarded
    by [ordered_mutex]: notifications run one after the other on the
    notification thread, requests run on the worker pool, but a request that
    arrives while an earlier notification is not completed is parked.

    [M] is the message with its response state.  The checks of [quit] that
    precede the lock belong to RemoteEndPoint.v. *)
From Stdlib Require Import Sorting.Sorted.
From S2P Require Import Prelude.

Section Dispatcher.
Context {M : Type}.

Record ParkedRequest := mkParked { gate : N; psequence : N; pmessage : M }.

Record Ordered := mkOrdered {
  notification_queue : list (N * M);
  parked_requests : list ParkedRequest;
  notification_stop : bool;
  has_last_ordered_notification : bool;
  last_ordered_notification_seq : N;
  has_completed_notification : bool;
  completed_notification_seq : N
}.

Definition startOrderedDispatcher (o : Ordered) : Ordered := mkOrdered [] [] false false 0 false 0.

Definition stopOrderedDispatcher (o : Ordered) : Ordered :=
  mkOrdered [] [] true (has_last_ordered_notification o) (last_ordered_notification_seq o)
    (has_completed_notification o) (completed_notification_seq o).

Definition notificationGateSatisfied (g : N) (o : Ordered) : bool :=
  has_completed_notification o && (g <=? completed_notification_seq o)%N.

Definition over_limit (limit n : nat) : bool := negb (limit =? 0) && (limit <=? n).

Inductive enqueue_result := Enqueued | QueueOverload | DispatcherStopped.

Definition enqueueNotification (max_notification_queue_size : nat) (sequence : N) (msg : M) (o : Ordered)
    : enqueue_result * Ordered :=
  if notification_stop o then (DispatcherStopped, o)
  else if over_limit max_notification_queue_size (length (notification_queue o)) then (QueueOverload, o)
  else (Enqueued, mkOrdered (notification_queue o ++ [(sequence, msg)]) (parked_requests o)
                    (notification_stop o) true sequence (has_completed_notification o)
                    (completed_notification_seq o)).

Inductive request_result := PostNow | Parked | ParkOverload.

Definition enqueueRequest (max_parked_request_queue_size : nat) (sequence : N) (msg : M) (o : Ordered)
    : request_result * Ordered :=
  if negb (notification_stop o) && has_last_ordered_notification o &&
     negb (notificationGateSatisfied (last_ordered_notification_seq o) o)
  then
    if over_limit max_parked_request_queue_size (length (parked_requests o)) then (ParkOverload, o)
    else (Parked, mkOrdered (notification_queue o)
            (parked_requests o ++ [mkParked (last_ordered_notification_seq o) sequence msg])
            (notification_stop o) (has_last_ordered_notification o) (last_ordered_notification_seq o)
            (has_completed_notification o) (completed_notification_seq o))
  else (PostNow, o).

(** [notificationLoop], when its wait is over: the item taken, or [None]
    when the thread returns or keeps waiting. *)
Definition pop_notification (o : Ordered) : option (N * M * Ordered) :=
  match notification_queue o with
  | [] => None
  | item :: queue =>
      Some (item, mkOrdered queue (parked_requests o) (notification_stop o)
              (has_last_ordered_notification o) (last_ordered_notification_seq o)
              (has_completed_notification o) (completed_notification_seq o))
  end.

(** [releaseParkedRequestsLocked]: the loop over the deque *)
Fixpoint release_loop (o : Ordered) (parked : list ParkedRequest)
    : list ParkedRequest * list ParkedRequest :=
  match parked with
  | [] => ([], [])
  | p :: parked' =>
      let '(ready, kept) := release_loop o parked' in
      if notificationGateSatisfied (gate p) o then (p :: ready, kept) else (ready, p :: kept)
  end.

Definition releaseParkedRequestsLocked (o : Ordered) : list ParkedRequest * Ordered :=
  let '(ready, kept) := release_loop o (parked_requests o) in
  (ready, mkOrdered (notification_queue o) kept (notification_stop o)
            (has_last_ordered_notification o) (last_ordered_notification_seq o)
            (has_completed_notification o) (completed_notification_seq o)).

(** [notificationLoop], after the handler returned: the requests to post *)
Definition complete_notification (sequence : N) (o : Ordered) : list ParkedRequest * Ordered :=
  releaseParkedRequestsLocked
    (mkOrdered (notification_queue o) (parked_requests o) (notification_stop o)
       (has_last_ordered_notification o) (last_ordered_notification_seq o) true sequence).

(** ** A session of the dispatcher

    [running] is what the notification thread executes; the history records
    the accepted notifications [enq], the completed ones [finished], the
    requests accepted [reqs] and those handed to the worker pool [posted];
    [top] bounds the sequence numbers routed so far. *)
Record session := mkSession {
  od : Ordered;
  running : option (N * M);
  enq : list N;
  finished : list N;
  reqs : list (N * M);
  posted : list (N * M);
  top : N
}.

Variables max_notification_queue_size max_parked_request_queue_size : nat.

Definition parked_item (p : ParkedRequest) : N * M := (psequence p, pmessage p).

(** Messages are routed with increasing sequence numbers (Reorder.v); the
    notification thread works concurrently. *)
Inductive dstep : session -> session -> Prop :=
| d_notify s m o o' res run e f rq ps tp :
    (tp <= s)%N -> enqueueNotification max_notification_queue_size s m o = (res, o') ->
    dstep (mkSession o run e f rq ps tp)
      (mkSession o' run (match res with Enqueued => e ++ [s] | _ => e end) f rq ps (s + 1))
| d_request s m o o' res run e f rq ps tp :
    (tp <= s)%N -> enqueueRequest max_parked_request_queue_size s m o = (res, o') ->
    dstep (mkSession o run e f rq ps tp)
      (mkSession o' run e f
         (match res with ParkOverload => rq | _ => rq ++ [(s, m)] end)
         (match res with PostNow => ps ++ [(s, m)] | _ => ps end) (s + 1))
| d_pop o o' item e f rq ps tp :
    pop_notification o = Some (item, o') ->
    dstep (mkSession o None e f rq ps tp) (mkSession o' (Some item) e f rq ps tp)
| d_complete s m o o' ready e f rq ps tp :
    complete_notification s o = (ready, o') ->
    dstep (mkSession o (Some (s, m)) e f rq ps tp)
      (mkSession o' None e (f ++ [s]) rq (ps ++ map parked_item ready) tp).

Definition session_init (o : Ordered) (first : N) : session :=
  mkSession (startOrderedDispatcher o) None [] [] [] [] first.

(** ** The invariant *)

Definition in_flight (st : session) : list N :=
  match running st with Some (s, _) => [s] | None => [] end ++ map fst (notification_queue (od st)).

Definition increasing (l : list N) : Prop := StronglySorted N.lt l.

Record session_inv (st : session) : Prop := {
  inv_fifo : enq st = finished st ++ in_flight st;
  inv_sorted : increasing (enq st);
  inv_top : forall n, n ∈ enq st -> (n < top st)%N;
  inv_run : notification_stop (od st) = false;
  inv_last : last (enq st) = if has_last_ordered_notification (od st)
                             then Some (last_ordered_notification_seq (od st)) else None;
  inv_completed : last (finished st) = if has_completed_notification (od st)
                                       then Some (completed_notification_seq (od st)) else None;
  inv_parked : forall p, p ∈ parked_requests (od st) ->
    gate p ∈ in_flight st /\ (psequence p < top st)%N /\
    (forall n, n ∈ enq st -> (n < psequence p)%N -> (n <= gate p)%N);
  inv_posted : forall s m, (s, m) ∈ posted st ->
    (s < top st)%N /\ (forall n, n ∈ enq st -> (n < s)%N -> n ∈ finished st);
  inv_once : Permutation (reqs st) (posted st ++ map parked_item (parked_requests (od st)))
}.

Lemma increasing_app l1 l2 :
  increasing (l1 ++ l2) <->
  increasing l1 /\ increasing l2 /\ (forall a b, a ∈ l1 -> b ∈ l2 -> (a < b)%N).
Proof.
  unfold increasing. induction l1 as [|x l1 IH]; simpl.
  - split; [|tauto]. intros H. split; [constructor|]. split; [done|]. intros a b Ha. by apply not_elem_of_nil in Ha.
  - split.
    + intros [H1 H2]%StronglySorted_inv. apply IH in H1 as (H3 & H4 & H5).
      apply Forall_app in H2 as [H6 H7]. split; [by constructor|]. split; [done|].
      intros a b [->|Ha]%elem_of_cons Hb; [|by apply H5]. rewrite Forall_forall in H7. by apply H7.
    + intros (H1 & H2 & H3). apply StronglySorted_inv in H1 as [H4 H5]. constructor.
      * apply IH. split; [done|]. split; [done|]. intros a b Ha Hb. apply H3; [by right|done].
      * apply Forall_app. split; [done|]. apply Forall_forall. intros b Hb. apply H3; [by left|done].
Qed.

Lemma increasing_last l n x : increasing l -> last l = Some x -> n ∈ l -> (n <= x)%N.
Proof.
  intros Hs [l' ->]%last_Some Hn. apply increasing_app in Hs as (_ & _ & H).
  apply elem_of_app in Hn as [Hn|Hn%list_elem_of_singleton]; [|lia].
  specialize (H n x Hn). rewrite list_elem_of_singleton in H. specialize (H eq_refl). lia.
Qed.

(** The gate of an accepted notification is open exactly when that
    notification is finished. *)
Lemma gate_satisfied_finished st n :
  session_inv st -> n ∈ enq st ->
  notificationGateSatisfied n (od st) = true <-> n ∈ finished st.
Proof.
  intros [Hf Hs _ _ _ Hc _ _ _] Hn. unfold notificationGateSatisfied.
  pose proof Hs as Hs'. rewrite Hf in Hs'. apply increasing_app in Hs' as (Hs1 & _ & Hs2).
  destruct (has_completed_notification (od st)); cbn [andb].
  - rewrite N.leb_le. split.
    + intros Hle. rewrite Hf in Hn. apply elem_of_app in Hn as [?|Hn]; [done|].
      apply last_Some_elem_of in Hc. specialize (Hs2 _ _ Hc Hn). lia.
    + intros Hin. by eapply increasing_last.
  - apply last_None in Hc. rewrite Hc. split; [done|]. intros H. by apply not_elem_of_nil in H.
Qed.

Lemma release_loop_spec o parked :
  let '(ready, kept) := release_loop o parked in
  Permutation parked (ready ++ kept) /\
  (forall p, p ∈ ready -> notificationGateSatisfied (gate p) o = true) /\
  (forall p, p ∈ kept -> notificationGateSatisfied (gate p) o = false).
Proof.
  induction parked as [|p parked IH]; simpl.
  - split; [done|]. split; intros p H; by apply not_elem_of_nil in H.
  - destruct (release_loop o parked) as [ready kept]. destruct IH as (H1 & H2 & H3).
    destruct (notificationGateSatisfied (gate p) o) eqn:E.
    + split; [simpl; by rewrite H1|]. split; [|done].
      intros q [->|Hq]%elem_of_cons; [done|by apply H2].
    + split; [rewrite H1; apply Permutation_middle|]. split; [done|].
      intros q [->|Hq]%elem_of_cons; [done|by apply H3].
Qed.
Lemma inv_notify s m o o' res run e f rq ps tp :
  (tp <= s)%N -> enqueueNotification max_notification_queue_size s m o = (res, o') ->
  session_inv (mkSession o run e f rq ps tp) ->
  session_inv (mkSession o' run (match res with Enqueued => e ++ [s] | _ => e end) f rq ps (s + 1)).
Proof.
  intros Hle E [Hf Hs Ht Hr Hl Hc Hp Hpo Ho]. unfold in_flight in *. cbn in *.
  unfold enqueueNotification in E. rewrite Hr in E.
  destruct (over_limit _ _); injection E as <- <-; split; unfold in_flight; cbn; try done.
  - intros n Hn. specialize (Ht n Hn). lia.
  - intros p Hin. destruct (Hp p Hin) as (? & ? & ?). split; [done|]. split; [lia|done].
  - intros s' m' Hin. destruct (Hpo s' m' Hin). split; [lia|done].
  - rewrite Hf, map_app. cbn. by rewrite <- !app_assoc.
  - apply increasing_app. split; [done|]. split; [repeat constructor|].
    intros a b Ha ->%list_elem_of_singleton. specialize (Ht a Ha). lia.
  - intros n [Hn|Hn%list_elem_of_singleton]%elem_of_app; [specialize (Ht n Hn)|]; lia.
  - apply last_snoc.
  - intros p Hin. destruct (Hp p Hin) as (H1 & H2 & H3). split; [|split; [lia|]].
    + rewrite map_app, app_assoc. apply elem_of_app. by left.
    + intros n [Hn|Hn%list_elem_of_singleton]%elem_of_app Hlt; [by apply H3|]. lia.
  - intros s' m' Hin. destruct (Hpo s' m' Hin) as [H1 H2]. split; [lia|].
    intros n [Hn|Hn%list_elem_of_singleton]%elem_of_app Hlt; [by apply H2|]. lia.
Qed.

Lemma inv_request s m o o' res run e f rq ps tp :
  (tp <= s)%N -> enqueueRequest max_parked_request_queue_size s m o = (res, o') ->
  session_inv (mkSession o run e f rq ps tp) ->
  session_inv (mkSession o' run e f
     (match res with ParkOverload => rq | _ => rq ++ [(s, m)] end)
     (match res with PostNow => ps ++ [(s, m)] | _ => ps end) (s + 1)).
Proof.
  intros Hle E Hinv. pose proof (gate_satisfied_finished _ (last_ordered_notification_seq o) Hinv) as Hg.
  destruct Hinv as [Hf Hs Ht Hr Hl Hc Hp Hpo Ho]. unfold in_flight in *. cbn in *.
  assert (Ht' : forall n, n ∈ e -> (n < s + 1)%N) by (intros n Hn; specialize (Ht n Hn); lia).
  assert (Hp' : forall p, p ∈ parked_requests o -> gate p ∈
     match run with Some (s0, _) => [s0] | None => [] end ++ map fst (notification_queue o) /\
     (psequence p < s + 1)%N /\ (forall n, n ∈ e -> (n < psequence p)%N -> (n <= gate p)%N)).
  { intros p Hin. destruct (Hp p Hin) as (? & ? & ?). split; [done|]. split; [lia|done]. }
  assert (Hpo' : forall s' m', (s', m') ∈ ps -> (s' < s + 1)%N /\
     (forall n, n ∈ e -> (n < s')%N -> n ∈ f)).
  { intros s' m' Hin. destruct (Hpo s' m' Hin). split; [lia|done]. }
  unfold enqueueRequest in E. rewrite Hr in E. cbn [negb andb] in E.
  destruct (has_last_ordered_notification o) eqn:Ehas.
  - assert (Hlast : last_ordered_notification_seq o ∈ e) by by apply last_Some_elem_of in Hl.
    specialize (Hg Hlast).
    destruct (notificationGateSatisfied (last_ordered_notification_seq o) o) eqn:Eg; cbn [negb andb] in E.
    + injection E as <- <-. split; unfold in_flight; cbn; rewrite ?Ehas; try done.
      * intros s' m' [Hin|[= -> ->]%list_elem_of_singleton]%elem_of_app; [by eapply Hpo'|].
        split; [lia|]. intros n Hn _. destruct Hg as [Hg _]. specialize (Hg eq_refl).
        pose proof (increasing_last _ _ _ Hs Hl Hn) as Hle'.
        rewrite Hf in Hs, Hn. apply increasing_app in Hs as (_ & _ & Hs).
        apply elem_of_app in Hn as [?|Hn]; [done|]. specialize (Hs _ _ Hg Hn). lia.
      * rewrite Ho, <- !app_assoc. by rewrite (Permutation_app_comm (map parked_item _)).
    + destruct (over_limit _ _); injection E as <- <-; split; unfold in_flight; cbn; rewrite ?Ehas; try done.
      * intros p [Hin|Hin%list_elem_of_singleton]%elem_of_app; [by apply Hp'|]. subst p. cbn.
        split; [|split; [lia|]].
        -- rewrite Hf in Hlast. apply elem_of_app in Hlast as [Hin|?]; [|done].
           destruct Hg as [_ Hg]. by specialize (Hg Hin).
        -- intros n Hn _. by eapply increasing_last.
      * rewrite Ho, map_app. cbn. by rewrite <- app_assoc.
  - cbn [andb] in E. injection E as <- <-. pose proof Hl as Hnil. apply last_None in Hnil.
    split; unfold in_flight; cbn; rewrite ?Ehas; try done.
    + intros s' m' [Hin|[= -> ->]%list_elem_of_singleton]%elem_of_app; [by eapply Hpo'|].
      split; [lia|]. intros n Hn. rewrite Hnil in Hn. by apply not_elem_of_nil in Hn.
    + rewrite Ho, <- !app_assoc. by rewrite (Permutation_app_comm (map parked_item _)).
Qed.

Lemma inv_pop o o' item e f rq ps tp :
  pop_notification o = Some (item, o') ->
  session_inv (mkSession o None e f rq ps tp) -> session_inv (mkSession o' (Some item) e f rq ps tp).
Proof.
  unfold pop_notification. destruct (notification_queue o) as [|it q] eqn:Eq; [done|].
  intros [= -> <-] [Hf Hs Ht Hr Hl Hc Hp Hpo Ho]. destruct item as [s m].
  split; unfold in_flight in *; cbn in *; rewrite ?Eq in *; done.
Qed.

Lemma inv_complete s m o o' ready e f rq ps tp :
  complete_notification s o = (ready, o') ->
  session_inv (mkSession o (Some (s, m)) e f rq ps tp) ->
  session_inv (mkSession o' None e (f ++ [s]) rq (ps ++ map parked_item ready) tp).
Proof.
  intros E [Hf Hs Ht Hr Hl Hc Hp Hpo Ho]. unfold in_flight in *. cbn in *.
  unfold complete_notification, releaseParkedRequestsLocked in E.
  match type of E with context [release_loop ?oo (parked_requests _)] =>
    pose proof (release_loop_spec oo (parked_requests o)) as Hrel;
    assert (Hgate : forall n, notificationGateSatisfied n oo = (n <=? s)%N) by done end.
  cbn [parked_requests] in E. destruct (release_loop _ (parked_requests o)) as [rd kept].
  injection E as <- <-. destruct Hrel as (Hperm & Hready & Hkept).
  assert (Hlate : forall n, n ∈ map fst (notification_queue o) -> (s < n)%N).
  { intros n Hn. rewrite Hf in Hs. apply increasing_app in Hs as (_ & Hs & _).
    apply StronglySorted_inv in Hs as [_ Hs]. rewrite Forall_forall in Hs. by apply Hs. }
  assert (Hin : forall p, p ∈ rd ++ kept -> p ∈ parked_requests o) by (intros p; by rewrite Hperm).
  split; unfold in_flight; cbn; try done.
  - by rewrite Hf, <- app_assoc.
  - apply last_snoc.
  - intros p Hp1. destruct (Hp p) as (H1 & H2 & H3); [apply Hin, elem_of_app; by right|].
    split; [|done]. specialize (Hkept p Hp1). rewrite Hgate in Hkept.
    apply elem_of_cons in H1 as [H1|?]; [|done]. rewrite H1, N.leb_refl in Hkept. done.
  - intros s' m' [Hin'|Hin']%elem_of_app.
    + destruct (Hpo _ _ Hin') as [H1 H2]. split; [done|]. intros n Hn Hlt.
      apply elem_of_app. left. by apply H2.
    + apply list_elem_of_fmap in Hin' as (p & [= -> ->] & Hp1).
      destruct (Hp p) as (H1 & H2 & H3); [apply Hin, elem_of_app; by left|].
      split; [done|]. intros n Hn Hlt. specialize (H3 n Hn Hlt).
      specialize (Hready p Hp1). rewrite Hgate in Hready. apply N.leb_le in Hready.
      rewrite Hf in Hn. apply elem_of_app in Hn as [Hn|[Hn|Hn]%elem_of_cons].
      * apply elem_of_app. by left.
      * apply elem_of_app. right. by apply list_elem_of_singleton.
      * specialize (Hlate n Hn). lia.
  - rewrite Ho, Hperm, map_app. by rewrite app_assoc.
Qed.

Lemma session_inv_init o first : session_inv (session_init o first).
Proof.
  split; unfold in_flight; cbn; try done; try (intros ? Hx; by apply not_elem_of_nil in Hx).
  - constructor.
  - intros ? ? Hx. by apply not_elem_of_nil in Hx.
Qed.

Lemma session_inv_step st st' : dstep st st' -> session_inv st -> session_inv st'.
Proof. destruct 1; eauto using inv_notify, inv_request, inv_pop, inv_complete. Qed.

Lemma session_inv_reach o first st : rtc dstep (session_init o first) st -> session_inv st.
Proof.
  intros H. eapply (rtc_ind_r session_inv); [apply session_inv_init| |exact H].
  intros x y _ Hs. by apply session_inv_step.
Qed.
End Dispatcher.
Arguments Ordered M : clear implicits.
Arguments session M : clear implicits.
Arguments ParkedRequest M : clear implicits.

Section Drain.
Context {M : Type} (max_notification_queue_size max_parked_request_queue_size : nat).
Local Abbreviation step := (@dstep M max_notification_queue_size max_parked_request_queue_size).

Definition queue_bounded (st : session M) : Prop :=
  (max_notification_queue_size <> 0 ->
   length (notification_queue (od st)) <= max_notification_queue_size) /\
  (max_parked_request_queue_size <> 0 ->
   length (parked_requests (od st)) <= max_parked_request_queue_size).

Lemma over_limit_false limit n : over_limit limit n = false -> limit <> 0 -> S n <= limit.
Proof.
  unfold over_limit. intros H Hne. apply andb_false_iff in H as [H|H].
  - by apply negb_false_iff, Nat.eqb_eq in H.
  - apply Nat.leb_gt in H. lia.
Qed.

Lemma queue_bounded_step st st' : step st st' -> queue_bounded st -> queue_bounded st'.
Proof.
  intros Hs [H1 H2]. destruct Hs as [s m o o' res run e f rq ps tp _ E|s m o o' res run e f rq ps tp _ E
    |o o' item e f rq ps tp E|s m o o' ready e f rq ps tp E]; unfold queue_bounded in *; cbn in *.
  - unfold enqueueNotification in E. destruct (notification_stop o); [by injection E as <- <-|].
    destruct (over_limit _ _) eqn:Eo; injection E as <- <-; [done|]. cbn. split; [|done].
    intros Hne. rewrite length_app. pose proof (over_limit_false _ _ Eo Hne). simpl. lia.
  - unfold enqueueRequest in E. destruct (_ && _); [|by injection E as <- <-].
    destruct (over_limit _ _) eqn:Eo; injection E as <- <-; [done|]. cbn. split; [done|].
    intros Hne. rewrite length_app. pose proof (over_limit_false _ _ Eo Hne). simpl. lia.
  - unfold pop_notification in E. destruct (notification_queue o) as [|it q]; [done|].
    injection E as <- <-. cbn in *. split; [|done]. intros Hne. specialize (H1 Hne). lia.
  - unfold complete_notification, releaseParkedRequestsLocked in E. cbn [parked_requests] in E.
    match type of E with context [release_loop ?oo _] =>
      pose proof (release_loop_spec oo (parked_requests o)) as Hrel end.
    destruct (release_loop _ (parked_requests o)) as [rd kept]. injection E as <- <-. cbn.
    destruct Hrel as (Hperm & _). apply Permutation_length in Hperm. rewrite length_app in Hperm.
    split; [done|]. intros Hne. specialize (H2 Hne). lia.
Qed.

(** The notification thread alone: it takes the next notification, or finishes
    the one it is at; [None] when it has nothing to do *)
Definition thread_step (st : session M) : option (session M) :=
  let 'mkSession o run e f rq ps tp := st in
  match run with
  | Some (s, _) =>
      let '(ready, o') := complete_notification s o in
      Some (mkSession o' None e (f ++ [s]) rq (ps ++ map parked_item ready) tp)
  | None =>
      match pop_notification o with
      | Some (item, o') => Some (mkSession o' (Some item) e f rq ps tp)
      | None => None
      end
  end.
Fixpoint run_thread (n : nat) (st : session M) : session M :=
  match n with
  | 0 => st
  | S n' => match thread_step st with Some st' => run_thread n' st' | None => st end
  end.

(** The steps it has left *)
Definition thread_work (st : session M) : nat :=
  2 * length (notification_queue (od st)) + match running st with Some _ => 1 | None => 0 end.

Lemma thread_step_step (st st' : session M) :
  thread_step st = Some st' ->
  step st st' /\ thread_work st = S (thread_work st') /\ enq st' = enq st /\ reqs st' = reqs st.
Proof.
  destruct st as [o [[s m]|] e f rq ps tp]; cbn [thread_step].
  - destruct (complete_notification s o) as [ready o'] eqn:E. intros [= <-].
    split; [by eapply d_complete|]. unfold complete_notification, releaseParkedRequestsLocked in E.
    destruct (release_loop _ _). injection E as _ <-. unfold thread_work. cbn. split; [lia|done].
  - destruct (pop_notification o) as [[item o']|] eqn:E; [|done]. intros [= <-].
    split; [by eapply d_pop|]. unfold pop_notification in E. destruct (notification_queue o) as [|x q] eqn:Eq; [done|].
    injection E as <- <-. unfold thread_work. cbn. rewrite Eq. cbn. split; [lia|done].
Qed.

Lemma thread_idle (st : session M) : thread_work st = 0 -> in_flight st = [].
Proof.
  unfold thread_work, in_flight. destruct (notification_queue (od st)), (running st) as [[]|]; cbn; lia || done.
Qed.

Lemma run_thread_idle (st : session M) :
  session_inv st ->
  let st' := run_thread (thread_work st) st in
  session_inv st' /\ in_flight st' = [] /\ enq st' = enq st /\ reqs st' = reqs st.
Proof.
  remember (thread_work st) as n eqn:Hn. revert st Hn. induction n as [|n IH]; intros st Hn Hinv.
  - cbn. split; [done|]. split; [by apply thread_idle|done].
  - cbn [run_thread]. destruct (thread_step st) as [st1|] eqn:E.
    + destruct (thread_step_step _ _ E) as (Hs & Hw & <- & <-). apply IH; [lia|by eapply session_inv_step].
    + destruct st as [o [[s m]|] e f rq ps tp]; cbn [thread_step] in E; [by destruct (complete_notification s o)|].
      unfold thread_work, pop_notification in *. cbn in *. by destruct (notification_queue o).
Qed.

Lemma idle_no_parked (st : session M) : session_inv st -> in_flight st = [] -> parked_requests (od st) = [].
Proof.
  intros Hinv Hi. destruct (parked_requests (od st)) as [|p l] eqn:E; [done|].
  destruct (inv_parked _ Hinv p) as (H & _); [rewrite E; by left|].
  rewrite Hi in H. by apply not_elem_of_nil in H.
Qed.
End Drain.

(** * Theorems *)


Definition demo_ordered : Ordered nat := mkOrdered [] [] true false 0 false 0.

(** A notification 3, a request 4 that is parked behind it, then the
    notification thread takes and finishes the notification. *)
Lemma demo_run :
  exists st, rtc (dstep 2 2) (session_init demo_ordered 3) st /\
    posted st = [(4%N, 40)] /\ enq st = [3%N] /\ finished st = [3%N].
Proof.
  eexists. split.
  - eapply rtc_l; [apply (d_notify 2 2 3 30); [done|reflexivity]|].
    eapply rtc_l; [apply (d_request 2 2 4 40); [done|reflexivity]|].
    eapply rtc_l; [apply d_pop; reflexivity|].
    eapply rtc_l; [apply d_complete; reflexivity|]. apply rtc_refl.
  - done.
Qed.





