(* ===== verification/Pending.v ===== *)
(** * Outgoing requests

    The part of [RemoteEndPoint::Data] (src/jsonrpc/RemoteEndPoint.cpp) guarded
    by [m_requestInfo]: [_client_request_futures] and its operations, and
    [PendingRequestInfo] with its completion flag.  The [PendingRequestInfo]
    objects are shared between the table, the parsed messages and the worker
    tasks: they live in the store [infos] and are named by their index. *)
From S2P Require Import Prelude CppString Json RequestId Message.

(** [calls]: the messages the request's handler was called with *)
Record PendingRequestInfo := mkInfo {
  method : bytes;
  deferred_callback : bool;
  completed : bool;
  calls : list LspMessage
}.

Record PendingTable := mkTable {
  futures : gmap id_key (lsRequestId * nat);
  infos : list PendingRequestInfo;
  m_id : Z                          (** [std::atomic<int>] *)
}.

Definition table_init : PendingTable := mkTable ∅ [] 0.

Definition getNextRequestId (t : PendingTable) : Z * PendingTable :=
  (m_id t, mkTable (futures t) (infos t) (to_int32 (m_id t + 1))).

(** The pending request, with the id that the request was given; [None]: the
    empty pointer. *)
Definition pendingRequest (max_pending_outgoing_requests : nat) (id : lsRequestId) (md : bytes)
    (deferred : bool) (t : PendingTable) : option (nat * lsRequestId) * PendingTable :=
  if negb (max_pending_outgoing_requests =? 0) && (max_pending_outgoing_requests <=? size (futures t))
  then (None, t)
  else
    let add id t :=
      (Some (length (infos t), id),
       mkTable (<[key id := (id, length (infos t))]> (futures t))
         (infos t ++ [mkInfo md deferred false []]) (m_id t)) in
    if negb (has_value id) then
      let '(v, t) := getNextRequestId t in add (set_int v id) t
    else if bool_decide (is_Some (futures t !! key id)) then (None, t)
    else add id t.

Definition getRequestInfo (id : lsRequestId) (t : PendingTable) : option nat :=
  snd <$> futures t !! key id.

Definition set_futures (t : PendingTable) (m : gmap id_key (lsRequestId * nat)) : PendingTable :=
  mkTable m (infos t) (m_id t).

Definition removeRequestInfo (id : lsRequestId) (t : PendingTable) : PendingTable :=
  set_futures t (delete (key id) (futures t)).

(** [removeRequestInfo(id, expected)] *)
Definition removeRequestInfo_expected (id : lsRequestId) (expected : nat) (t : PendingTable)
    : bool * PendingTable :=
  match futures t !! key id with
  | Some (_, i) => if i =? expected then (true, set_futures t (delete (key id) (futures t))) else (false, t)
  | None => (false, t)
  end.

(** [PendingRequestInfo::complete] *)
Definition complete_info (msg : LspMessage) (p : PendingRequestInfo) : PendingRequestInfo :=
  if completed p then p else mkInfo (method p) (deferred_callback p) true (calls p ++ [msg]).

Definition complete (i : nat) (msg : LspMessage) (t : PendingTable) : PendingTable :=
  mkTable (futures t) (alter (complete_info msg) i (infos t)) (m_id t).

Definition stopped_error (id : lsRequestId) : LspMessage :=
  makeErrorMessage id InternalError (lit "Remote endpoint stopped.").

Definition failPendingRequests (t : PendingTable) : PendingTable :=
  fold_left (fun t (e : id_key * (lsRequestId * nat)) => complete e.2.2 (stopped_error e.2.1) t)
    (map_to_list (futures t)) (set_futures t ∅).

(** ** The steps of the endpoint on the table *)

Inductive pstep (limit : nat) : PendingTable -> PendingTable -> Prop :=
| p_request id md df t : pstep limit t (pendingRequest limit id md df t).2
| p_next_id t : pstep limit t (getNextRequestId t).2
| p_remove id t : pstep limit t (removeRequestInfo id t)
| p_take id i t : pstep limit t (removeRequestInfo_expected id i t).2
| p_complete i msg t :
    (forall k id, futures t !! k <> Some (id, i)) -> pstep limit t (complete i msg t)
| p_fail t : pstep limit t (failPendingRequests t).

Record table_inv (limit : nat) (t : PendingTable) : Prop := {
  inv_entry : forall k id i, futures t !! k = Some (id, i) ->
    key id = k /\ exists p, infos t !! i = Some p /\ completed p = false;
  inv_inj : forall k k' id id' i, futures t !! k = Some (id, i) -> futures t !! k' = Some (id', i) -> k = k';
  inv_calls : forall i p, infos t !! i = Some p -> length (calls p) = if completed p then 1 else 0;
  inv_size : limit <> 0 -> size (futures t) <= limit
}.

Lemma inv_add limit id md df t :
  (limit <> 0 -> size (futures t) < limit) -> table_inv limit t ->
  table_inv limit (mkTable (<[key id := (id, length (infos t))]> (futures t))
                     (infos t ++ [mkInfo md df false []]) (m_id t)).
Proof.
  intros Hsz [He Hi Hc Hs]. split; cbn.
  - intros k id' i [[<- [= <- <-]]|[Hne H]]%lookup_insert_Some.
    + split; [done|]. eexists. rewrite lookup_app_r, Nat.sub_diag by lia. done.
    + destruct (He _ _ _ H) as (? & p & Hp & ?). split; [done|]. exists p. split; [|done].
      by apply lookup_app_l_Some.
  - assert (Hfresh : forall k id', futures t !! k <> Some (id', length (infos t))).
    { intros k id' H. destruct (He _ _ _ H) as (_ & p & Hp & _). apply lookup_lt_Some in Hp. lia. }
    intros k k' id1 id2 i [[<- E1]|[Hne H]]%lookup_insert_Some
      [[<- E2]|[Hne' H']]%lookup_insert_Some; try done.
    + injection E1 as _ <-. by destruct (Hfresh _ _ H').
    + injection E2 as _ <-. by destruct (Hfresh _ _ H).
    + eauto.
  - intros i p [Hp|[Hl Hp]]%lookup_app_Some; [by apply (Hc i)|].
    destruct (i - length (infos t)); simpl in Hp; [|done]. by injection Hp as <-.
  - intros Hne. rewrite map_size_insert. specialize (Hsz Hne).
    destruct (_ !! _); cbn; lia.
Qed.

Lemma inv_submap limit t m' :
  (forall k x, m' !! k = Some x -> futures t !! k = Some x) -> size m' <= size (futures t) ->
  table_inv limit t -> table_inv limit (set_futures t m').
Proof.
  intros Hsub Hsz [He Hi Hc Hs]. split; cbn; try done.
  - intros k id i H. apply Hsub in H. by apply He.
  - intros k k' id id' i H H'. apply Hsub in H, H'. eauto.
  - intros Hne. specialize (Hs Hne). lia.
Qed.

Lemma inv_delete limit t k : table_inv limit t -> table_inv limit (set_futures t (delete k (futures t))).
Proof.
  apply inv_submap.
  - intros k' x. rewrite lookup_delete_Some. by intros [_ ?].
  - rewrite map_size_delete. destruct (_ !! _); cbn; lia.
Qed.

Lemma table_inv_complete limit i msg t :
  (forall k id, futures t !! k <> Some (id, i)) -> table_inv limit t -> table_inv limit (complete i msg t).
Proof.
  intros Hno [He Hi Hc Hs]. split; cbn; try done.
  - intros k id j H. destruct (He _ _ _ H) as (? & p & Hp & ?). split; [done|]. exists p.
    split; [|done]. rewrite list_lookup_alter_ne; [done|]. intros ->. by eapply Hno.
  - intros j p. destruct (decide (i = j)) as [->|Hne].
    + rewrite list_lookup_alter_eq. intros (q & Hq & ->)%fmap_Some. unfold complete_info.
      specialize (Hc _ _ Hq). destruct (completed q) eqn:E; [by rewrite E|]. cbn.
      rewrite length_app. simpl. lia.
    + rewrite list_lookup_alter_ne by done. apply Hc.
Qed.

(** Completing the entries of a cleared table. *)
Lemma complete_all limit (l : list (id_key * (lsRequestId * nat))) t :
  futures t = ∅ -> table_inv limit t -> NoDup (map (fun e => e.2.2) l) ->
  (forall e, e ∈ l -> exists p, infos t !! e.2.2 = Some p /\ completed p = false) ->
  let t' := fold_left (fun t e => complete e.2.2 (stopped_error e.2.1) t) l t in
  table_inv limit t' /\ futures t' = ∅ /\
  (forall e, e ∈ l -> exists p, infos t' !! e.2.2 = Some p /\ completed p = true /\
     calls p = [stopped_error e.2.1]) /\
  (forall i, i ∉ map (fun e => e.2.2) l -> infos t' !! i = infos t !! i).
Proof.
  revert t. induction l as [|[k [id i]] l IH]; intros t Hf Hinv Hnd Hl; cbn [fold_left].
  - split; [done|]. split; [done|]. split; [|done]. intros e H. by apply not_elem_of_nil in H.
  - cbn [map] in Hnd. apply NoDup_cons in Hnd as [Hni Hnd].
    assert (Hother : forall j, j <> i -> infos (complete i (stopped_error id) t) !! j = infos t !! j)
      by (intros j Hj; cbn; by rewrite list_lookup_alter_ne by congruence).
    destruct (IH (complete i (stopped_error id) t)) as (H1 & H2 & H3 & H4).
    + done.
    + apply table_inv_complete; [|done]. intros k' id'. by rewrite Hf, lookup_empty.
    + done.
    + intros e He. rewrite Hother; [by apply Hl; right|]. intros <-. apply Hni.
      apply list_elem_of_fmap. by exists e.
    + split; [done|]. split; [done|]. split.
      * intros e [->|He]%elem_of_cons; [|by apply H3]. rewrite H4 by done. cbn [fst snd].
        destruct (Hl (k, (id, i))) as (p & Hp & Hc); [by left|]. cbn [fst snd] in Hp.
        exists (complete_info (stopped_error id) p). cbn. rewrite list_lookup_alter_eq, Hp.
        split; [done|]. unfold complete_info. rewrite Hc. cbn. split; [done|].
        pose proof (inv_calls _ _ Hinv _ _ Hp) as Hcl. rewrite Hc in Hcl. by apply nil_length_inv in Hcl as ->.
      * intros j [Hj1 Hj2]%not_elem_of_cons. rewrite H4 by done. by apply Hother.
Qed.

Lemma futures_indices limit t :
  table_inv limit t -> NoDup (map (fun e : id_key * (lsRequestId * nat) => e.2.2) (map_to_list (futures t))).
Proof.
  intros [He Hi _ _]. apply NoDup_fmap_2_strong; [|apply NoDup_map_to_list].
  intros [k [id i]] [k' [id' i']] H H' Heq. cbn in Heq. subst i'.
  apply elem_of_map_to_list in H, H'. pose proof (Hi _ _ _ _ _ H H') as ->. congruence.
Qed.

Lemma inv_fail_spec limit t :
  table_inv limit t ->
  table_inv limit (failPendingRequests t) /\ futures (failPendingRequests t) = ∅ /\
  (forall k id i, futures t !! k = Some (id, i) -> exists p,
     infos (failPendingRequests t) !! i = Some p /\ completed p = true /\ calls p = [stopped_error id]).
Proof.
  intros Hinv. unfold failPendingRequests.
  destruct (complete_all limit (map_to_list (futures t)) (set_futures t ∅)) as (H1 & H2 & H3 & _).
  - done.
  - apply inv_submap; [|rewrite map_size_empty; lia|done]. intros k x. by rewrite lookup_empty.
  - by eapply futures_indices.
  - intros [k [id i]] H%elem_of_map_to_list. cbn. by destruct (inv_entry _ _ Hinv _ _ _ H) as (_ & ?).
  - split; [done|]. split; [done|]. intros k id i H. apply (H3 (k, (id, i))). by apply elem_of_map_to_list.
Qed.

Lemma table_inv_step limit t t' : pstep limit t t' -> table_inv limit t -> table_inv limit t'.
Proof.
  destruct 1 as [id md df t|t|id t|id i t|i msg t Hno|t]; intros Hinv.
  - unfold pendingRequest. destruct (_ && _) eqn:El; [done|].
    assert (Hsz : limit <> 0 -> size (futures t) < limit).
    { intros Hne. apply andb_false_iff in El as [El|El].
      - by apply negb_false_iff, Nat.eqb_eq in El.
      - by apply Nat.leb_gt in El. }
    destruct (negb (has_value id)).
    + apply (inv_add limit (set_int (m_id t) id) md df (getNextRequestId t).2); [done|].
      by destruct Hinv; split.
    + case_bool_decide; [done|]. by apply inv_add.
  - by destruct Hinv; split.
  - by apply inv_delete.
  - unfold removeRequestInfo_expected. destruct (futures t !! key id) as [[id' j]|]; [|done].
    destruct (_ =? _); [|done]. by apply inv_delete.
  - by apply table_inv_complete.
  - by apply inv_fail_spec.
Qed.

Lemma table_inv_reach limit t : rtc (pstep limit) table_init t -> table_inv limit t.
Proof.
  intros H. eapply (rtc_ind_r (table_inv limit)); [..|exact H].
  - split; cbn; try (intros *; by rewrite lookup_empty).
    + intros i p. by rewrite lookup_nil.
    + intros _. rewrite map_size_empty. lia.
  - intros x y _ Hs. by apply table_inv_step.
Qed.

(** * Theorems *)

(** C11. In every reachable state of the table of outgoing requests, the
    number of pending requests respects its limit and no request's handler
    was called more than once; when the endpoint stops, every request still
    pending gets exactly one call, with the error that carries its own id,
    and the table is empty. *)
Theorem pending_completed_once (limit : nat) (t : PendingTable) :
  rtc (pstep limit) table_init t ->
  (limit <> 0 -> size (futures t) <= limit) /\
  (forall i p, infos t !! i = Some p -> length (calls p) <= 1) /\
  futures (failPendingRequests t) = ∅ /\
  (forall k id i, futures t !! k = Some (id, i) -> key id = k /\ exists p,
     infos (failPendingRequests t) !! i = Some p /\ calls p = [stopped_error id]).
Proof.
  intros H. apply table_inv_reach in H as Hinv. destruct (inv_fail_spec _ _ Hinv) as (_ & H2 & H3).
  split; [apply Hinv|]. split; [|split; [done|]].
  - intros i p Hp. rewrite (inv_calls _ _ Hinv _ _ Hp). destruct (completed p); lia.
  - intros k id i Hk. split; [by apply (inv_entry _ _ Hinv _ _ _ Hk)|].
    destruct (H3 _ _ _ Hk) as (p & ? & _ & ?). by exists p.
Qed.

Lemma pending_completed_once_witness :
  let t := (pendingRequest 1 id_none (lit "m") true table_init).2 in
  futures (failPendingRequests t) = ∅.
Proof.
  intros t. apply (pending_completed_once 1 t).
  eapply rtc_l; [apply (p_request 1 id_none (lit "m") true)|]. apply rtc_refl.
Defined.

(** An automatic id is not checked against the pending ones: when the
    application has an explicit request with the id the counter reaches next,
    the automatic request takes over its entry, and the first request's
    handler is not called even when the endpoint stops. *)
Theorem auto_id_overwrites_pending :
  let t1 := (pendingRequest 0 (mkId kInt 0 []) (lit "a") true table_init).2 in
  let t2 := (pendingRequest 0 id_none (lit "b") true t1).2 in
  futures t1 !! KInt 0 = Some (mkId kInt 0 [], 0) /\
  futures t2 !! KInt 0 = Some (mkId kInt 0 [], 1) /\
  (calls <$> infos (failPendingRequests t2)) = [[]; [stopped_error (mkId kInt 0 [])]].
Proof. by vm_compute. Qed.
