(* ===== verification/RemoteEndPoint.v ===== *)
(** * The remote endpoint

    [RemoteEndPoint] and [RemoteEndPoint::Data] (src/jsonrpc/RemoteEndPoint.cpp)
    on top of the components: Reorder.v ([route_mutex]), Ordered.v
    ([ordered_mutex]), Pending.v ([m_requestInfo]), Cancellation.v (the
    registry), Message.v (classification).

    Each operation is a function on [Data].  [dispatch_locked] is the state of
    [route_dispatch_mutex], which a thread holds while it routes: an operation
    that locks it again returns [None], because the mutex is not recursive and
    the thread waits for itself.  Every operation here is run by one thread, and
    none keeps the mutex when it returns.

    The worker pools (asio) are lists of posted tasks; a step takes any of
    them, so every interleaving of the workers is a sequence of steps.  What a
    handler does to the application and which messages it sends is given by
    the registered handler (Message.v).  A handler does not run in one step: it
    starts, sends its messages one by one and returns, and other threads, also
    one that calls [stop], act in between ([flight]). *)
From S2P Require Import Prelude CppString Json RequestId Framing Message Cancellation Reorder Ordered Pending.

Inductive RemoteEndPointOverloadPolicy := StopProcessing | DropNewest.

#[export] Instance policy_eq_dec : EqDecision RemoteEndPointOverloadPolicy.
Proof. solve_decision. Defined.

(** The limits of the cancellation tables are in [CancelData], that of frames
    in the producer (Framing.v). *)
Record RemoteEndPointLimits := mkLimits {
  max_parse_queue_size : nat;
  max_reorder_buffer_size : nat;
  max_notification_queue_size : nat;
  max_parked_request_queue_size : nat;
  max_pending_outgoing_requests : nat;
  overload_policy : RemoteEndPointOverloadPolicy
}.

(** [SessionOutputState]; [sent] is what was written to its stream. *)
Record SessionOutputState := mkSessionOutput {
  active : bool;
  has_output : bool;
  out_bad : bool;
  sent : list LspMessage
}.

(** A message with the session it answers to. *)
Abbreviation payload := (LspMessage * nat)%type.

Inductive worker_task :=
| RunMain (msg : LspMessage) (sequence : N) (response_state : nat) (pending : option nat)
| RunCompletion (info : nat) (msg : LspMessage).

(** [parse_pool] and [handler_pool] with the tasks posted and not yet run. *)
Record Pools := mkPools {
  pools_exist : bool;
  pools_stopped : bool;
  parse_tasks : list (bytes * N);
  handler_tasks : list worker_task;
  parse_queue_size : nat
}.

Section Endpoint.
Context {A : Type}.
Variable Parse : bytes -> (bytes * nat) + json.
Variable jsonHandler : MessageJsonHandler.
Variable local_endpoint : GenericEndpoint A.

(** A call of a handler that has started: the session it was dispatched with,
    the messages it is still going to send, and what is left to do when it
    returns: the cancellation it retains, the scope of its cancellation
    context, the log of its exception. *)
Record flight := mkFlight {
  fl_session : nat;
  fl_sends : list LspMessage;
  fl_retains : option lsRequestId;
  fl_scope : option (id_key * N);
  fl_logs : list log_entry
}.

(** A thread in [notificationLoop]: waiting, or with the notification it has
    taken and, once started, the call of the handler. *)
Abbreviation notifier := (option (N * payload * option flight)).

(** [current] is the notification thread of the session, [detached] are
    threads of earlier sessions that were detached because [stop] was called
    by their handler.  [handled] and [dropped] are histories: the
    notifications that were finished, and the messages that the policy
    [DropNewest] dropped. *)
Record Data := mkData {
  limits : RemoteEndPointLimits;
  quit : bool;
  working : bool;
  keep_running : bool;
  pools : Pools;
  router : Router ParsedMessage;
  dispatch_locked : bool;
  concurrent_notifications : gset bytes;
  ordered : Ordered payload;
  current : notifier;
  detached : list notifier;
  flights : list flight;
  handled : list N;
  dropped : list N;
  table : PendingTable;
  cancel : CancelData;
  sessions : list SessionOutputState;
  session_id : nat;
  next_message_sequence : N;
  app : A;
  logs : list log_entry
}.

Definition set_pools (d : Data) x : Data :=
  mkData (limits d) (quit d) (working d) (keep_running d) x (router d) (dispatch_locked d)
    (concurrent_notifications d) (ordered d) (current d) (detached d) (flights d) (handled d)
    (dropped d) (table d) (cancel d) (sessions d) (session_id d) (next_message_sequence d) (app d)
    (logs d).
Definition set_router (d : Data) x : Data :=
  mkData (limits d) (quit d) (working d) (keep_running d) (pools d) x (dispatch_locked d)
    (concurrent_notifications d) (ordered d) (current d) (detached d) (flights d) (handled d)
    (dropped d) (table d) (cancel d) (sessions d) (session_id d) (next_message_sequence d) (app d)
    (logs d).
Definition set_dispatch (d : Data) x : Data :=
  mkData (limits d) (quit d) (working d) (keep_running d) (pools d) (router d) x
    (concurrent_notifications d) (ordered d) (current d) (detached d) (flights d) (handled d)
    (dropped d) (table d) (cancel d) (sessions d) (session_id d) (next_message_sequence d) (app d)
    (logs d).
Definition set_ordered (d : Data) x : Data :=
  mkData (limits d) (quit d) (working d) (keep_running d) (pools d) (router d) (dispatch_locked d)
    (concurrent_notifications d) x (current d) (detached d) (flights d) (handled d) (dropped d)
    (table d) (cancel d) (sessions d) (session_id d) (next_message_sequence d) (app d) (logs d).
Definition set_current (d : Data) x : Data :=
  mkData (limits d) (quit d) (working d) (keep_running d) (pools d) (router d) (dispatch_locked d)
    (concurrent_notifications d) (ordered d) x (detached d) (flights d) (handled d) (dropped d)
    (table d) (cancel d) (sessions d) (session_id d) (next_message_sequence d) (app d) (logs d).
Definition set_detached (d : Data) x : Data :=
  mkData (limits d) (quit d) (working d) (keep_running d) (pools d) (router d) (dispatch_locked d)
    (concurrent_notifications d) (ordered d) (current d) x (flights d) (handled d) (dropped d)
    (table d) (cancel d) (sessions d) (session_id d) (next_message_sequence d) (app d) (logs d).
Definition set_flights (d : Data) x : Data :=
  mkData (limits d) (quit d) (working d) (keep_running d) (pools d) (router d) (dispatch_locked d)
    (concurrent_notifications d) (ordered d) (current d) (detached d) x (handled d) (dropped d)
    (table d) (cancel d) (sessions d) (session_id d) (next_message_sequence d) (app d) (logs d).
Definition add_handled (d : Data) n : Data :=
  mkData (limits d) (quit d) (working d) (keep_running d) (pools d) (router d) (dispatch_locked d)
    (concurrent_notifications d) (ordered d) (current d) (detached d) (flights d) (handled d ++ [n])
    (dropped d) (table d) (cancel d) (sessions d) (session_id d) (next_message_sequence d) (app d)
    (logs d).
Definition add_dropped (d : Data) n : Data :=
  mkData (limits d) (quit d) (working d) (keep_running d) (pools d) (router d) (dispatch_locked d)
    (concurrent_notifications d) (ordered d) (current d) (detached d) (flights d) (handled d)
    (dropped d ++ [n]) (table d) (cancel d) (sessions d) (session_id d) (next_message_sequence d)
    (app d) (logs d).
Definition set_table (d : Data) x : Data :=
  mkData (limits d) (quit d) (working d) (keep_running d) (pools d) (router d) (dispatch_locked d)
    (concurrent_notifications d) (ordered d) (current d) (detached d) (flights d) (handled d)
    (dropped d) x (cancel d) (sessions d) (session_id d) (next_message_sequence d) (app d) (logs d).
Definition set_cancel (d : Data) x : Data :=
  mkData (limits d) (quit d) (working d) (keep_running d) (pools d) (router d) (dispatch_locked d)
    (concurrent_notifications d) (ordered d) (current d) (detached d) (flights d) (handled d)
    (dropped d) (table d) x (sessions d) (session_id d) (next_message_sequence d) (app d) (logs d).
Definition set_sessions (d : Data) x : Data :=
  mkData (limits d) (quit d) (working d) (keep_running d) (pools d) (router d) (dispatch_locked d)
    (concurrent_notifications d) (ordered d) (current d) (detached d) (flights d) (handled d)
    (dropped d) (table d) (cancel d) x (session_id d) (next_message_sequence d) (app d) (logs d).
Definition set_sequence (d : Data) x : Data :=
  mkData (limits d) (quit d) (working d) (keep_running d) (pools d) (router d) (dispatch_locked d)
    (concurrent_notifications d) (ordered d) (current d) (detached d) (flights d) (handled d)
    (dropped d) (table d) (cancel d) (sessions d) (session_id d) x (app d) (logs d).
Definition set_app (d : Data) x : Data :=
  mkData (limits d) (quit d) (working d) (keep_running d) (pools d) (router d) (dispatch_locked d)
    (concurrent_notifications d) (ordered d) (current d) (detached d) (flights d) (handled d)
    (dropped d) (table d) (cancel d) (sessions d) (session_id d) (next_message_sequence d) x
    (logs d).
Definition add_logs (d : Data) l : Data :=
  mkData (limits d) (quit d) (working d) (keep_running d) (pools d) (router d) (dispatch_locked d)
    (concurrent_notifications d) (ordered d) (current d) (detached d) (flights d) (handled d)
    (dropped d) (table d) (cancel d) (sessions d) (session_id d) (next_message_sequence d) (app d)
    (logs d ++ l).
Definition set_working (d : Data) w : Data :=
  mkData (limits d) (quit d) w (keep_running d) (pools d) (router d) (dispatch_locked d)
    (concurrent_notifications d) (ordered d) (current d) (detached d) (flights d) (handled d)
    (dropped d) (table d) (cancel d) (sessions d) (session_id d) (next_message_sequence d) (app d)
    (logs d).
Definition set_quit (d : Data) q k : Data :=
  mkData (limits d) q (working d) k (pools d) (router d) (dispatch_locked d)
    (concurrent_notifications d) (ordered d) (current d) (detached d) (flights d) (handled d)
    (dropped d) (table d) (cancel d) (sessions d) (session_id d) (next_message_sequence d) (app d)
    (logs d).
Definition set_concurrent (d : Data) x : Data :=
  mkData (limits d) (quit d) (working d) (keep_running d) (pools d) (router d) (dispatch_locked d) x
    (ordered d) (current d) (detached d) (flights d) (handled d) (dropped d) (table d) (cancel d)
    (sessions d) (session_id d) (next_message_sequence d) (app d) (logs d).

(** ** Output *)

Definition write_to (msg : LspMessage) (s : SessionOutputState) : SessionOutputState :=
  if negb (active s) then s
  else if negb (has_output s) || out_bad s then s
  else mkSessionOutput (active s) (has_output s) (out_bad s) (sent s ++ [msg]).

Definition sendSessionMessage (state : nat) (msg : LspMessage) (d : Data) : Data :=
  set_sessions d (alter (write_to msg) state (sessions d)).

(** [getSessionOutputState]: the context's session, else the current one *)
Definition getSessionOutputState (ctx : Context) (d : Data) : nat :=
  default (session_id d) (get_session ctx).

Definition sendMsg (ctx : Context) (msg : LspMessage) (d : Data) : Data :=
  sendSessionMessage (getSessionOutputState ctx d) msg d.

(** ** Shutdown *)

Definition stop_output (s : SessionOutputState) : SessionOutputState :=
  mkSessionOutput false false (out_bad s) (sent s).

(** [route_dispatch_mutex]; [None]: the thread waits for itself *)
Definition lock_dispatch (d : Data) : option Data :=
  if dispatch_locked d then None else Some (set_dispatch d true).
Definition unlock_dispatch (d : Data) : Data := set_dispatch d false.

(** [Data::clear] *)
Definition clear (d : Data) : option Data :=
  let d := set_quit d true (keep_running d) in
  match lock_dispatch d with
  | None => None
  | Some d =>
      let d := unlock_dispatch (set_router d (clearMessageRouting (router d))) in
      let d := set_quit d true false in
      let d := set_sessions d (alter stop_output (session_id d) (sessions d)) in
      let d := set_cancel d (clear_registry (cancel d)) in
      let d := set_table d (failPendingRequests (table d)) in
      let d := set_ordered d (stopOrderedDispatcher (ordered d)) in
      let p := pools d in
      Some (set_pools d (mkPools (pools_exist p) (pools_exist p) (parse_tasks p) (handler_tasks p)
                           (parse_queue_size p)))
  end.

(** [working] also stands for [message_producer_thread_ != nullptr]: both
    are set by [startProcessingMessages] and reset here. *)
Definition stop (d : Data) : option Data :=
  if negb (working d) then Some d
  else match clear d with
       | None => None
       | Some d => Some (set_working d false)
       end.

Definition handleOverload (msg : bytes) (d : Data) : option (bool * Data) :=
  let d := add_logs d [(WARNING, lit "RemoteEndPoint overload: " ++ msg)] in
  if bool_decide (overload_policy (limits d) = DropNewest) then Some (true, d)
  else match stop d with Some d => Some (false, d) | None => None end.

(** The message with this number is lost to the overload, if the session goes
    on. *)
Definition overload_drop (sequence : N) (msg : bytes) (d : Data) : option Data :=
  match handleOverload msg d with
  | Some (true, d) => Some (add_dropped d sequence)
  | Some (false, d) => Some d
  | None => None
  end.

Definition overload_msg (what : bytes) (limit : nat) : bytes :=
  what ++ lit " size would exceed configured maximum " ++ to_string (Z.of_nat limit) ++ lit ".".

(** ** Workers *)

Definition post_task (t : worker_task) (d : Data) : Data :=
  let p := pools d in
  set_pools d (mkPools (pools_exist p) (pools_stopped p) (parse_tasks p) (handler_tasks p ++ [t])
                 (parse_queue_size p)).

Definition postToWorker (msg : LspMessage) (sequence : N) (state : nat) (pd : option nat) (d : Data) : Data :=
  if quit d || negb (pools_exist (pools d)) then d else post_task (RunMain msg sequence state pd) d.

Definition completePendingResponse (msg : LspMessage) (info : nat) (d : Data) : Data :=
  let '(removed, t) := removeRequestInfo_expected (msg_id msg) info (table d) in
  if negb removed then d
  else
    let d := set_table d t in
    if negb (default true (deferred_callback <$> infos t !! info)) then set_table d (complete info msg t)
    else if quit d || negb (pools_exist (pools d)) then d
    else post_task (RunCompletion info msg) d.

Definition postReadyParkedRequests (ready : list (ParkedRequest payload)) (d : Data) : Data :=
  fold_left (fun d p => postToWorker (pmessage p).1 (psequence p) (pmessage p).2 None d) ready d.

(** ** Routing, with [route_dispatch_mutex] held *)

Definition allowsConcurrentNotification (m : bytes) (d : Data) : bool :=
  bool_decide (m ∈ concurrent_notifications d).

Definition enqueue_notification (msg : LspMessage) (sequence : N) (state : nat) (d : Data) : option Data :=
  if quit d then Some d
  else
    let limit := max_notification_queue_size (limits d) in
    match enqueueNotification limit sequence (msg, state) (ordered d) with
    | (QueueOverload, _) => overload_drop sequence (overload_msg (lit "notification queue") limit) d
    | (_, o) => Some (set_ordered d o)
    end.

Definition enqueue_request (msg : LspMessage) (sequence : N) (state : nat) (d : Data) : option Data :=
  if quit d then Some d
  else
    let limit := max_parked_request_queue_size (limits d) in
    match enqueueRequest limit sequence (msg, state) (ordered d) with
    | (ParkOverload, _) => overload_drop sequence (overload_msg (lit "parked request queue") limit) d
    | (Parked, o) => Some (set_ordered d o)
    | (PostNow, o) => Some (postToWorker msg sequence state None (set_ordered d o))
    end.

Definition on_cancel (msg : LspMessage) (sequence : N) (d : Data) : Data :=
  set_cancel d (onCancel (params_id msg) sequence (cancel d)).

Definition routeParsedIncoming (parsed : ParsedMessage) (sequence : N) (d : Data) : option Data :=
  if negb (ok parsed) || quit d then Some d
  else match message parsed with
  | None => Some d
  | Some msg =>
      let state := session_id d in
      if outgoing parsed then Some (sendSessionMessage state msg d)
      else match kind parsed, pending parsed with
      | NOTIFICATION_MESSAGE, _ =>
          if bool_decide (GetMethodType msg = kCancelMethod) then Some (on_cancel msg sequence d)
          else if allowsConcurrentNotification (GetMethodType msg) d then
            Some (postToWorker msg sequence state None d)
          else enqueue_notification msg sequence state d
      | REQUEST_MESSAGE, _ => enqueue_request msg sequence state d
      | RESPONCE_MESSAGE, Some info => Some (completePendingResponse msg info d)
      | RESPONCE_MESSAGE, None => Some (postToWorker msg sequence state None d)
      end
  end.

Fixpoint route_all (ready : list (N * ParsedMessage)) (d : Data) : option Data :=
  match ready with
  | [] => Some d
  | (s, p) :: ready' =>
      match routeParsedIncoming p s d with Some d => route_all ready' d | None => None end
  end.

(** The reorder buffer is full: [DropNewest] replaces the message by an empty
    one. *)
Definition reorder_drops (sequence : N) (bypass : bool) (d : Data) : bool :=
  bool_decide (overload_policy (limits d) = DropNewest) && negb (quit d) &&
  negb (sequence =? next_route_sequence (router d))%N && negb bypass &&
  over_limit (max_reorder_buffer_size (limits d)) (size (reorder_buffer (router d))).

Definition submit (sequence : N) (parsed : ParsedMessage) (bypass : bool) (d : Data) : option Data :=
  match lock_dispatch d with
  | None => None
  | Some d =>
      let limit := max_reorder_buffer_size (limits d) in
      let d0 := if reorder_drops sequence bypass d then add_dropped d sequence else d in
      match submitParsedMessage parsed_empty limit (bool_decide (overload_policy (limits d) = DropNewest))
              (quit d) sequence parsed bypass (router d) with
      | (Ready ready, r) => unlock_dispatch <$> route_all ready (set_router d0 r)
      | (Overloaded, _) => snd <$> handleOverload (overload_msg (lit "reorder buffer") limit) (unlock_dispatch d)
      | (Quitting, _) => Some (unlock_dispatch d)
      end
  end.

(** ** The producer thread *)

Definition acquireParseQueueSlot (sequence : N) (d : Data) : option (bool * Data) :=
  let limit := max_parse_queue_size (limits d) in
  let p := pools d in
  if over_limit limit (parse_queue_size p) then
    match handleOverload (overload_msg (lit "parse queue") limit) d with
    | None => None
    | Some (true, d) =>
        match submit sequence parsed_empty true (add_dropped d sequence) with Some d => Some (false, d) | None => None end
    | Some (false, d) => Some (false, d)
    end
  else Some (true, set_pools d (mkPools (pools_exist p) (pools_stopped p) (parse_tasks p)
                                  (handler_tasks p) (S (parse_queue_size p)))).

Definition postParseTask (text : bytes) (sequence : N) (d : Data) : option Data :=
  if quit d || negb (pools_exist (pools d)) then Some d
  else match acquireParseQueueSlot sequence d with
       | None => None
       | Some (false, d) => Some d
       | Some (true, d) =>
           let p := pools d in
           Some (set_pools d (mkPools (pools_exist p) (pools_stopped p) (parse_tasks p ++ [(text, sequence)])
                                (handler_tasks p) (parse_queue_size p)))
       end.

(** The consumer of the message producer. *)
Definition on_message (text : bytes) (d : Data) : option Data :=
  let sequence := next_message_sequence d in
  postParseTask text sequence (set_sequence d (sequence + 1)%N).

(** ** A parse task, once taken from the pool *)

Definition lookup_info (d : Data) (id : lsRequestId) : option (nat * bytes) :=
  match getRequestInfo id (table d) with
  | Some i => Some (i, default [] (method <$> infos (table d) !! i))
  | None => None
  end.

Definition release_slot (d : Data) : Data :=
  let p := pools d in
  set_pools d (mkPools (pools_exist p) (pools_stopped p) (parse_tasks p) (handler_tasks p)
                 (pred (parse_queue_size p))).

Definition run_parse_task (text : bytes) (sequence : N) (d : Data) : option Data :=
  let '(parsed, l) := parseAndClassify Parse jsonHandler (lookup_info d) text in
  release_slot <$> submit sequence parsed false (add_logs d l).
(** ** [mainLoop], on a worker or on the notification thread *)

Definition send_all (state : nat) (msgs : list LspMessage) (d : Data) : Data :=
  fold_left (fun d m => sendSessionMessage state m d) msgs d.

(** The text of an exception that leaves [mainLoop], if any. *)
Definition main_request (msg : LspMessage) (sequence : N) (state : nat) (d : Data) : option bytes * Data :=
  let id := msg_id msg in
  let '(ctx, cookie, c) := cancelableRequestContext id sequence [SessionEntry state] (cancel d) in
  let d := set_cancel d c in
  let cancelled := isCancellationRequested (getCancelledMonitor id ctx) (flags c) in
  let '(res, l) := onRequest local_endpoint msg cancelled (app d) in
  let d := send_all state (sent_messages res) (add_logs (set_app d (new_app res)) l) in
  let d := if retains res then set_cancel d (retainRequestCancellation id (cancel d)).2 else d in
  let d := match outcome res with
           | inr false =>
               sendMsg ctx (makeErrorMessage id MethodNotFound
                              (lit "Method not found: " ++ GetMethodType msg)) d
           | _ => d
           end in
  (match outcome res with inl e => Some e | inr _ => None end,
   set_cancel d (request_scope_exit (key id) cookie (cancel d))).

Definition run_local (r : handler_result A * list log_entry) (state : nat) (d : Data) : option bytes * Data :=
  let '(res, l) := r in
  (match outcome res with inl e => Some e | inr _ => None end,
   send_all state (sent_messages res) (add_logs (set_app d (new_app res)) l)).

Definition mainLoop (msg : LspMessage) (sequence : N) (state : nat) (pd : option nat) (d : Data)
    : option bytes * Data :=
  if quit d then (None, d)
  else match GetKid msg with
  | REQUEST_MESSAGE => main_request msg sequence state d
  | RESPONCE_MESSAGE =>
      match (match pd with Some i => Some i | None => getRequestInfo (msg_id msg) (table d) end) with
      | None => run_local (onResponse local_endpoint (GetMethodType msg) msg false (app d)) state d
      | Some info => (None, completePendingResponse msg info d)
      end
  | NOTIFICATION_MESSAGE =>
      if bool_decide (GetMethodType msg = kCancelMethod) then (None, on_cancel msg sequence d)
      else run_local (notify local_endpoint msg false (app d)) state d
  end.

Definition mainLoopCatching (msg : LspMessage) (sequence : N) (state : nat) (pd : option nat) (d : Data)
    : Data :=
  match mainLoop msg sequence state pd d with
  | (Some e, d) => add_logs d [(SEVERE, lit "Reason:" ++ exception_text (GetKid msg) e ++ [LF])]
  | (None, d) => d
  end.

Definition run_worker_task (t : worker_task) (d : Data) : Data :=
  match t with
  | RunMain msg sequence state pd => mainLoopCatching msg sequence state pd d
  | RunCompletion info msg => set_table d (complete info msg (table d))
  end.

(** The same, with the sends as steps of their own: [mainLoopCatching] up to
    the first message the handler sends, one send, and the return. *)
Definition begin_main (msg : LspMessage) (sequence : N) (state : nat) (pd : option nat) (d : Data)
    : flight * Data :=
  let started (res : handler_result A) l more retained scope d :=
    (mkFlight state (sent_messages res ++ more) retained scope
       match outcome res with
       | inl e => [(SEVERE, lit "Reason:" ++ exception_text (GetKid msg) e ++ [LF])]
       | inr _ => []
       end, add_logs (set_app d (new_app res)) l) in
  let nothing d := (mkFlight state [] None None [], d) in
  if quit d then nothing d
  else match GetKid msg with
  | REQUEST_MESSAGE =>
      let id := msg_id msg in
      let '(ctx, cookie, c) := cancelableRequestContext id sequence [SessionEntry state] (cancel d) in
      let cancelled := isCancellationRequested (getCancelledMonitor id ctx) (flags c) in
      let '(res, l) := onRequest local_endpoint msg cancelled (app d) in
      started res l
        match outcome res with
        | inr false => [makeErrorMessage id MethodNotFound (lit "Method not found: " ++ GetMethodType msg)]
        | _ => []
        end (if retains res then Some id else None) (Some (key id, cookie)) (set_cancel d c)
  | RESPONCE_MESSAGE =>
      match (match pd with Some i => Some i | None => getRequestInfo (msg_id msg) (table d) end) with
      | None =>
          let '(res, l) := onResponse local_endpoint (GetMethodType msg) msg false (app d) in
          started res l [] None None d
      | Some info => nothing (completePendingResponse msg info d)
      end
  | NOTIFICATION_MESSAGE =>
      if bool_decide (GetMethodType msg = kCancelMethod) then nothing (on_cancel msg sequence d)
      else
        let '(res, l) := notify local_endpoint msg false (app d) in
        started res l [] None None d
  end.

Definition send_next (f : flight) (msg : LspMessage) (rest : list LspMessage) (d : Data) : flight * Data :=
  (mkFlight (fl_session f) rest (fl_retains f) (fl_scope f) (fl_logs f),
   sendSessionMessage (fl_session f) msg d).

Definition end_main (f : flight) (d : Data) : Data :=
  let d := match fl_retains f with
           | Some id => set_cancel d (retainRequestCancellation id (cancel d)).2
           | None => d
           end in
  let d := match fl_scope f with
           | Some (k, cookie) => set_cancel d (request_scope_exit k cookie (cancel d))
           | None => d
           end in
  add_logs d (fl_logs f).

(** A task of the handler pool starts. *)
Definition begin_task (t : worker_task) (d : Data) : Data :=
  match t with
  | RunMain msg sequence state pd =>
      let '(f, d) := begin_main msg sequence state pd d in set_flights d (flights d ++ [f])
  | RunCompletion info msg => set_table d (complete info msg (table d))
  end.

(** A thread in [notificationLoop] goes on: it takes a notification, starts
    the handler, sends a message of it, or completes the round.  [None]: it
    waits. *)
Definition notifier_step (n : notifier) (d : Data) : option (notifier * Data) :=
  match n with
  | None =>
      match pop_notification (ordered d) with
      | Some (item, o) => Some (Some (item, None), set_ordered d o)
      | None => None
      end
  | Some (s, m, None) =>
      let '(f, d) := begin_main m.1 s m.2 None d in Some (Some (s, m, Some f), d)
  | Some (s, m, Some f) =>
      match fl_sends f with
      | msg :: rest => let '(f, d) := send_next f msg rest d in Some (Some (s, m, Some f), d)
      | [] =>
          let d := end_main f d in
          let '(ready, o) := complete_notification s (ordered d) in
          Some (None, postReadyParkedRequests ready (add_handled (set_ordered d o) s))
      end
  end.

(** ** The application's calls *)

Definition session_good (d : Data) : bool :=
  match sessions d !! session_id d with
  | Some s => active s && has_output s && negb (out_bad s)
  | None => false
  end.

(** [internalSendRequestWithPolicy]: whether the request was sent *)
Definition internalSendRequest (req : LspMessage) (deferred : bool) (d : Data) : bool * Data :=
  if negb (session_good d) then
    (false, add_logs d [(WARNING, lit "Output isn't good any more:" ++ [LF])])
  else match pendingRequest (max_pending_outgoing_requests (limits d)) (msg_id req)
               (GetMethodType req) deferred (table d) with
  | (None, t) => (false, add_logs (set_table d t) [(WARNING, lit "Duplicate id  which of request:")])
  | (Some (_, id), t) =>
      (true, sendSessionMessage (session_id d)
               (mkMessage REQUEST_MESSAGE (GetMethodType req) id (params_id req) None (content req))
               (set_table d t))
  end.

Definition cancel_message (id : lsRequestId) : LspMessage :=
  mkMessage NOTIFICATION_MESSAGE kCancelMethod id_none id None JNull.

Definition cancelRequest (ctx : Context) (id : lsRequestId) (d : Data) : bool * Data :=
  if negb (working d) then (false, d)
  else match getRequestInfo id (table d) with
       | Some _ => (true, sendMsg ctx (cancel_message id) d)
       | None => (false, d)
       end.

Definition remove_request (id : lsRequestId) (d : Data) : Data :=
  set_table d (removeRequestInfo id (table d)).

Definition allowConcurrentNotification (m : bytes) (d : Data) : bool * Data :=
  if working d then
    (false, add_logs d [(WARNING, lit "allowConcurrentNotification" ++
                          lit " must be called before startProcessingMessages().")])
  else (true, set_concurrent d ({[m]} ∪ concurrent_notifications d)).

(** [startProcessingMessages] with an output stream that is [out_bad] or
    not; the pools are new and there is a new notification thread.  One that
    was detached goes on beside it, and so do the handlers that run. *)
Definition startProcessingMessages (bad_output : bool) (d : Data) : Data :=
  if working d then
    add_logs d [(WARNING, lit "RemoteEndPoint is already processing messages.")]
  else
    mkData (limits d) false true true (mkPools true false [] [] (parse_queue_size (pools d)))
      (resetMessageRouting (next_message_sequence d) (router d)) (dispatch_locked d)
      (concurrent_notifications d) (startOrderedDispatcher (ordered d)) None
      (detached d ++ match current d with Some n => [Some n] | None => [] end) (flights d) [] []
      (table d) (cancel d) (sessions d ++ [mkSessionOutput true true bad_output []]) (length (sessions d))
      (next_message_sequence d) (app d) (logs d).

(** A constructed endpoint: its first session state has no output. *)
Definition endpoint_init (l : RemoteEndPointLimits) (max_cancel max_seen : nat) (a : A) : Data :=
  mkData l false false false (mkPools false false [] [] 0) (mkRouter ∅ 0) false ∅
    (mkOrdered [] [] false false 0 false 0) None [] [] [] [] table_init
    (mkCancelData registry_empty 0 [] max_cancel max_seen)
    [mkSessionOutput true false false []] 0 0 a [].

(** ** Steps of a session

    The second component is the wire: the texts the producer has passed on
    so far. *)
Inductive rstep : Data * list bytes -> Data * list bytes -> Prop :=
| r_arrive text d d' w :
    keep_running d = true -> on_message text d = Some d' -> rstep (d, w) (d', w ++ [text])
| r_parse text sequence tasks d d' w :
    Permutation (parse_tasks (pools d)) ((text, sequence) :: tasks) -> pools_stopped (pools d) = false ->
    run_parse_task text sequence
      (set_pools d (mkPools (pools_exist (pools d)) false tasks (handler_tasks (pools d))
                      (parse_queue_size (pools d)))) = Some d' ->
    rstep (d, w) (d', w)
| r_begin t tasks d w :
    Permutation (handler_tasks (pools d)) (t :: tasks) -> pools_stopped (pools d) = false ->
    rstep (d, w)
      (begin_task t (set_pools d (mkPools (pools_exist (pools d)) false (parse_tasks (pools d)) tasks
                                    (parse_queue_size (pools d)))), w)
| r_flight_send i f msg rest d w :
    flights d !! i = Some f -> fl_sends f = msg :: rest ->
    rstep (d, w)
      (set_flights (send_next f msg rest d).2 (<[i := (send_next f msg rest d).1]> (flights d)), w)
| r_flight_end i f d w :
    flights d !! i = Some f -> fl_sends f = [] ->
    rstep (d, w) (end_main f (set_flights d (delete i (flights d))), w)
| r_notifier n d d' w :
    notifier_step (current d) d = Some (n, d') -> rstep (d, w) (set_current d' n, w)
| r_detached i n n' d d' w :
    detached d !! i = Some n -> notifier_step n d = Some (n', d') ->
    rstep (d, w) (set_detached d' (<[i := n']> (detached d)), w)
| r_send req deferred d w : rstep (d, w) ((internalSendRequest req deferred d).2, w)
| r_cancel id d w : rstep (d, w) ((cancelRequest [] id d).2, w)
| r_remove id d w : rstep (d, w) (remove_request id d, w)
| r_message msg d w : rstep (d, w) (sendMsg [] msg d, w).

(** The steps of a session, [stop] by any thread that does not route, and
    [startProcessingMessages]. *)
Inductive lstep : Data * list bytes -> Data * list bytes -> Prop :=
| l_session st st' : rstep st st' -> lstep st st'
| l_stop d d' w : stop d = Some d' -> lstep (d, w) (d', w)
| l_start bad_output d w : lstep (d, w) (startProcessingMessages bad_output d, []).

(** ** A handler that runs undisturbed *)

(** The steps of a handler without any other step in between are
    [mainLoopCatching]. *)
Lemma mainLoopCatching_flight msg s state pd d :
  let '(f, d1) := begin_main msg s state pd d in
  mainLoopCatching msg s state pd d = end_main f (send_all (fl_session f) (fl_sends f) d1).
Proof.
  assert (Hlog : forall d, add_logs d [] = d) by (intros []; unfold add_logs; cbn; by rewrite app_nil_r).
  unfold begin_main, mainLoopCatching, mainLoop. destruct (quit d); [symmetry; apply Hlog|].
  destruct (GetKid msg).
  - unfold main_request.
    assert (Hc : forall ctx cookie c, cancelableRequestContext (msg_id msg) s [SessionEntry state] (cancel d) =
              (ctx, cookie, c) -> get_session ctx = Some state).
    { intros ctx cookie c. unfold cancelableRequestContext. cbn [cancelableTask].
      destruct (match pendingCancelRequests _ !! _ with Some _ => _ | None => _ end). by intros [= <- _ _]. }
    destruct (cancelableRequestContext _ _ _ _) as [[ctx cookie] c] eqn:Ec. specialize (Hc _ _ _ eq_refl).
    destruct (onRequest _ _ _ _) as [res l]. unfold sendMsg, getSessionOutputState. rewrite Hc. cbn [default].
    unfold end_main. cbn [fl_session fl_sends fl_retains fl_scope fl_logs fst snd].
    assert (Happ : forall l1 l2 d0, send_all state (l1 ++ l2) d0 = send_all state l2 (send_all state l1 d0))
      by (intros; apply fold_left_app).
    rewrite Happ. set (d1 := send_all state (sent_messages res) _). destruct (outcome res) as [e|[]]; cbn [fold_left]; destruct (retains res);
      cbn [fst snd]; rewrite ?Hlog; done.
  - destruct (match pd with Some _ => _ | None => _ end); [symmetry; apply Hlog|].
    destruct (onResponse _ _ _ _ _) as [res l]. unfold end_main. cbn. rewrite app_nil_r.
    destruct (outcome res); cbn; by rewrite ?Hlog.
  - case_bool_decide; [symmetry; apply Hlog|]. destruct (notify _ _ _ _) as [res l]. unfold end_main. cbn.
    rewrite app_nil_r. destruct (outcome res); cbn; by rewrite ?Hlog.
Qed.

(** ** Lemmas: what does not touch routing *)

Definition is_request_task (t : worker_task) : Prop :=
  match t with RunMain m _ _ _ => GetKid m = REQUEST_MESSAGE | RunCompletion _ _ => False end.

(** The fields that routing depends on are unchanged, and the only tasks
    added are no requests. *)
Record quiet (d d' : Data) : Prop := {
  q_limits : limits d' = limits d;
  q_quit : quit d' = quit d;
  q_working : working d' = working d;
  q_keep : keep_running d' = keep_running d;
  q_router : router d' = router d;
  q_locked : dispatch_locked d' = dispatch_locked d;
  q_conc : concurrent_notifications d' = concurrent_notifications d;
  q_ordered : ordered d' = ordered d;
  q_current : current d' = current d;
  q_detached : detached d' = detached d;
  q_handled : handled d' = handled d;
  q_dropped : dropped d' = dropped d;
  q_seq : next_message_sequence d' = next_message_sequence d;
  q_exist : pools_exist (pools d') = pools_exist (pools d);
  q_stopped : pools_stopped (pools d') = pools_stopped (pools d);
  q_parse : parse_tasks (pools d') = parse_tasks (pools d);
  q_tasks : forall t, t ∈ handler_tasks (pools d') -> t ∈ handler_tasks (pools d) \/ ~ is_request_task t
}.

#[local] Instance quiet_preorder : PreOrder quiet.
Proof.
  split.
  - intros d. split; auto.
  - intros d1 d2 d3 [] []. split; try congruence. intros t Ht.
    apply q_tasks1 in Ht as [Ht|]; [by apply q_tasks0|by right].
Qed.

Lemma quiet_send state msg d : quiet d (sendSessionMessage state msg d).
Proof. split; auto. Qed.
Lemma quiet_add_logs d l : quiet d (add_logs d l).
Proof. split; auto. Qed.
Lemma quiet_set_app d a : quiet d (set_app d a).
Proof. split; auto. Qed.
Lemma quiet_set_cancel d c : quiet d (set_cancel d c).
Proof. split; auto. Qed.
Lemma quiet_set_table d t : quiet d (set_table d t).
Proof. split; auto. Qed.
Lemma quiet_set_flights d f : quiet d (set_flights d f).
Proof. split; auto. Qed.

Lemma quiet_post d t : ~ is_request_task t -> quiet d (post_task t d).
Proof.
  intros Ht. split; try done. intros t' [?|E%list_elem_of_singleton]%elem_of_app;
    [by left|subst; by right].
Qed.

Lemma quiet_postToWorker msg s state pd d :
  GetKid msg <> REQUEST_MESSAGE -> quiet d (postToWorker msg s state pd d).
Proof. intros Hk. unfold postToWorker. destruct (_ || _); [done|]. by apply quiet_post. Qed.

Lemma quiet_completePending msg info d : quiet d (completePendingResponse msg info d).
Proof.
  unfold completePendingResponse. destruct (removeRequestInfo_expected _ _ _) as [[] t]; cbn [negb]; [|done].
  destruct (negb _); [etrans; apply quiet_set_table|].
  destruct (_ || _); [apply quiet_set_table|].
  etrans; [apply quiet_set_table|]. apply quiet_post. by intros [].
Qed.

Create HintDb quietdb.
Hint Resolve quiet_send quiet_add_logs quiet_set_app quiet_set_cancel quiet_set_table quiet_set_flights
  quiet_completePending : quietdb.

Lemma quiet_begin_main msg s state pd d : quiet d (begin_main msg s state pd d).2.
Proof.
  assert (Hst : forall d0 a l, quiet d d0 -> quiet d (add_logs (set_app d0 a) l)).
  { intros d0 a l H. etrans; [exact H|]. etrans; [apply quiet_set_app|apply quiet_add_logs]. }
  unfold begin_main. destruct (quit d); [done|]. destruct (GetKid msg).
  - destruct (cancelableRequestContext _ _ _ _) as [[ctx cookie] c]. destruct (onRequest _ _ _ _) as [res l].
    apply Hst, quiet_set_cancel.
  - destruct (match pd with Some _ => _ | None => _ end); [apply quiet_completePending|].
    destruct (onResponse _ _ _ _ _) as [res l]. by apply Hst.
  - case_bool_decide; [apply quiet_set_cancel|]. destruct (notify _ _ _ _) as [res l]. by apply Hst.
Qed.

Lemma quiet_end_main f d : quiet d (end_main f d).
Proof.
  unfold end_main. etrans; [|apply quiet_add_logs].
  set (d1 := match fl_retains f with Some _ => _ | None => d end).
  assert (H1 : quiet d d1) by (subst d1; destruct (fl_retains f); done || auto with quietdb).
  etrans; [exact H1|]. destruct (fl_scope f) as [[k c]|]; done || auto with quietdb.
Qed.

Lemma quiet_begin_task t d : quiet d (begin_task t d).
Proof.
  destruct t as [msg s st pd|info msg]; cbn [begin_task]; [|apply quiet_set_table].
  pose proof (quiet_begin_main msg s st pd d) as H. destruct (begin_main _ _ _ _ _) as [f d1].
  etrans; [exact H|apply quiet_set_flights].
Qed.

Lemma quiet_internalSend req df d : quiet d (internalSendRequest req df d).2.
Proof.
  unfold internalSendRequest. destruct (negb _); [apply quiet_add_logs|].
  destruct (pendingRequest _ _ _ _ _) as [[[i id]|] t]; cbn [snd].
  - etrans; [apply quiet_set_table|apply quiet_send].
  - etrans; [apply quiet_set_table|apply quiet_add_logs].
Qed.

Lemma quiet_cancelRequest id d : quiet d (cancelRequest [] id d).2.
Proof.
  unfold cancelRequest. destruct (negb _); [done|]. destruct (getRequestInfo _ _); [apply quiet_send|done].
Qed.

(** ** Routing in order *)

Definition unlimited (l : RemoteEndPointLimits) : Prop :=
  max_parse_queue_size l = 0 /\ max_reorder_buffer_size l = 0 /\
  max_notification_queue_size l = 0 /\ max_parked_request_queue_size l = 0.

(** Messages are dropped by the policy [DropNewest] only, and only if some
    queue has a limit. *)
Definition drops_allowed (l : RemoteEndPointLimits) : Prop :=
  overload_policy l = DropNewest /\ ~ unlimited l.

Definition is_ordered (conc : gset bytes) (p : ParsedMessage) : bool :=
  ok p && negb (outgoing p) && bool_decide (kind p = NOTIFICATION_MESSAGE) &&
  match message p with
  | Some m => negb (bool_decide (GetMethodType m = kCancelMethod)) && negb (bool_decide (GetMethodType m ∈ conc))
  | None => false
  end.

Definition parsed_ok (p : ParsedMessage) : Prop :=
  forall m, message p = Some m -> outgoing p = false -> GetKid m = kind p.

Definition running_item (n : notifier) : option (N * payload) := fst <$> n.

Record route_inv (first : N) (sub : gmap N ParsedMessage) (d : Data) (e : list N)
    (rq ps : list (N * payload)) (k : N) : Prop := {
  ri_session : session_inv (mkSession (ordered d) (running_item (current d)) e (handled d) rq ps k);
  ri_enq : forall n p, (first <= n < k)%N -> sub !! n = Some p ->
    is_ordered (concurrent_notifications d) p = true -> n ∈ e \/ n ∈ dropped d;
  ri_tasks : forall m s st pd, RunMain m s st pd ∈ handler_tasks (pools d) ->
    GetKid m = REQUEST_MESSAGE -> (s, (m, st)) ∈ ps;
  ri_quit : quit d = false;
  ri_working : working d = true;
  ri_detached : detached d = [];
  ri_dropped : dropped d <> [] -> drops_allowed (limits d);
  ri_pools : pools_exist (pools d) = true
}.

Lemma session_inv_top {M} (o : Ordered M) run e f rq ps k k' :
  (k <= k')%N -> session_inv (mkSession o run e f rq ps k) -> session_inv (mkSession o run e f rq ps k').
Proof.
  intros Hk [Hf Hs Ht Hr Hl Hc Hp Hpo Ho]. split; unfold in_flight in *; cbn in *; try done.
  - intros n Hn. specialize (Ht n Hn). lia.
  - intros p Hin. destruct (Hp p Hin) as (? & ? & ?). split; [done|]. split; [lia|done].
  - intros s m Hin. destruct (Hpo s m Hin). split; [lia|done].
Qed.

(** A step that leaves routing alone, and at which nothing ordered is due. *)
Lemma route_inv_quiet first sub d d' e rq ps k k' :
  quiet d d' -> (k <= k')%N ->
  (forall n p, (k <= n < k')%N -> sub !! n = Some p -> is_ordered (concurrent_notifications d) p = true ->
     n ∈ dropped d) ->
  route_inv first sub d e rq ps k -> route_inv first sub d' e rq ps k'.
Proof.
  intros [] Hk Hno [].
  split; rewrite ?q_quit0, ?q_limits0, ?q_exist0, ?q_conc0, ?q_working0, ?q_detached0, ?q_dropped0; try done.
  - rewrite q_ordered0, q_current0, q_handled0. by eapply session_inv_top.
  - intros n p Hn Hp Ho. destruct (decide (n < k)%N) as [Hlt|Hge].
    + apply (ri_enq0 n p); [lia|done..].
    + right. apply (Hno n p); [lia|done..].
  - intros m s st pd Ht Hr. apply q_tasks0 in Ht as [Ht|Ht]; [by eapply ri_tasks0|]. by destruct Ht.
Qed.

Lemma route_inv_drop first sub d e rq ps k n :
  drops_allowed (limits d) -> route_inv first sub d e rq ps k -> route_inv first sub (add_dropped d n) e rq ps k.
Proof.
  intros Hd []. split; try done. intros n' p Hn Hp Ho. cbn.
  destruct (ri_enq0 n' p Hn Hp Ho); [by left|right; set_solver].
Qed.

(** What routing leaves alone. *)
Record routed_same (d d' : Data) : Prop := {
  s_router : router d' = router d;
  s_locked : dispatch_locked d' = dispatch_locked d;
  s_conc : concurrent_notifications d' = concurrent_notifications d;
  s_seq : next_message_sequence d' = next_message_sequence d;
  s_parse : parse_tasks (pools d') = parse_tasks (pools d);
  s_dropped : dropped d ⊆ dropped d'
}.

Lemma quiet_same d d' : quiet d d' -> routed_same d d'.
Proof. intros []. split; try done. by rewrite q_dropped0. Qed.

Lemma not_ordered_next first sub d e rq ps k p d' :
  quiet d d' -> sub !! k = Some p -> is_ordered (concurrent_notifications d) p = false ->
  route_inv first sub d e rq ps k -> route_inv first sub d' e rq ps (k + 1).
Proof.
  intros Hq Hp Hno Hinv. apply (route_inv_quiet _ _ d d' _ _ _ k); [done|lia| |done].
  intros n q Hn Hs. replace n with k in Hs by lia. congruence.
Qed.

(** The thread that routes holds the mutex that [stop] wants. *)
Lemma stop_locked d : working d = true -> dispatch_locked d = true -> stop d = None.
Proof. intros Hw Hd. unfold stop, clear, lock_dispatch. rewrite Hw. cbn. by rewrite Hd. Qed.

Lemma over_limit_not_unlimited limit n l :
  over_limit limit n = true -> overload_policy l = DropNewest ->
  limit = max_parse_queue_size l \/ limit = max_reorder_buffer_size l \/
  limit = max_notification_queue_size l \/ limit = max_parked_request_queue_size l ->
  drops_allowed l.
Proof.
  unfold over_limit. intros [Hl%negb_true_iff%Nat.eqb_neq _]%andb_prop Hp H. split; [done|].
  intros (? & ? & ? & ?). lia.
Qed.

(** An overload while routing: the message is dropped, or there is no next
    state. *)
Lemma overload_drop_inv first sub d e rq ps k text d' :
  route_inv first sub d e rq ps k -> dispatch_locked d = true ->
  (overload_policy (limits d) = DropNewest -> drops_allowed (limits d)) ->
  overload_drop k text d = Some d' ->
  route_inv first sub d' e rq ps (k + 1) /\ routed_same d d'.
Proof.
  intros Hinv Hlock Hdrop. unfold overload_drop, handleOverload. cbn [limits add_logs].
  case_bool_decide as Hp.
  - intros [= <-]. split; [|split; cbn; set_solver].
    apply (route_inv_quiet _ _ (add_dropped d k) _ _ _ _ k); [by split; auto|lia| |].
    + intros n p Hn _ _. cbn. replace n with k by lia. set_solver.
    + apply route_inv_drop; [by apply Hdrop|done].
  - rewrite stop_locked; [done|apply Hinv|done].
Qed.

Lemma enqueue_notification_inv first sub d e rq ps k msg st d' :
  route_inv first sub d e rq ps k -> dispatch_locked d = true -> enqueue_notification msg k st d = Some d' ->
  exists e', route_inv first sub d' e' rq ps (k + 1) /\ routed_same d d'.
Proof.
  intros Hinv Hlock. pose proof Hinv as [Hs He Ht Hq Hw Hd Hdr Hp]. unfold enqueue_notification. rewrite Hq.
  destruct (enqueueNotification _ k (msg, st) (ordered d)) as [res o'] eqn:E.
  pose proof (inv_notify _ k (msg, st) _ _ _ _ _ _ _ _ _ ltac:(done) E Hs) as Hs'.
  pose proof (inv_run _ Hs) as Hrun. cbn in Hrun.
  unfold enqueueNotification in E. rewrite Hrun in E.
  destruct (over_limit _ _) eqn:Eo; injection E as <- <-.
  - intros Ho. exists e. eapply overload_drop_inv; [done..| |exact Ho].
    intros Hpol. eapply over_limit_not_unlimited; [exact Eo|done|]. tauto.
  - intros [= <-]. exists (e ++ [k]). split; [|by split]. split; cbn; try done.
    intros n p Hn Hsub Ho. destruct (decide (n = k)) as [->|Hne]; [left; set_solver|].
    destruct (He n p) as [?|?]; [lia|done..|left; set_solver|by right].
Qed.

Lemma enqueue_request_inv first sub d e rq ps k p msg st d' :
  sub !! k = Some p -> is_ordered (concurrent_notifications d) p = false ->
  route_inv first sub d e rq ps k -> dispatch_locked d = true -> enqueue_request msg k st d = Some d' ->
  exists rq' ps', route_inv first sub d' e rq' ps' (k + 1) /\ routed_same d d'.
Proof.
  intros Hsub Hno Hinv Hlock. pose proof Hinv as [Hs He Ht Hq Hw Hd Hdr Hp]. unfold enqueue_request. rewrite Hq.
  destruct (enqueueRequest _ k (msg, st) (ordered d)) as [res o'] eqn:E.
  pose proof (inv_request _ k (msg, st) _ _ _ _ _ _ _ _ _ ltac:(done) E Hs) as Hs'.
  assert (He' : forall n q, (first <= n < k + 1)%N -> sub !! n = Some q ->
            is_ordered (concurrent_notifications d) q = true -> n ∈ e \/ n ∈ dropped d).
  { intros n q Hn Hq' Ho. destruct (decide (n = k)) as [->|Hne]; [congruence|].
    apply (He n q); [lia|done..]. }
  destruct res; intros Hsome.
  - injection Hsome as <-. eexists _, _. unfold postToWorker. cbn [quit pools set_ordered]. rewrite Hq, Hp.
    cbn [orb negb]. split; [|by split]. split; cbn in *; try done.
    intros m s st' pd [Hin|E'%list_elem_of_singleton]%elem_of_app Hk; apply elem_of_app.
    + left. by eapply Ht.
    + right. injection E' as -> -> -> ->. by apply list_elem_of_singleton.
  - injection Hsome as <-. eexists _, _. split; [|by split]. by split.
  - exists rq, ps. eapply overload_drop_inv; [done..| |exact Hsome].
    intros Hpol. unfold enqueueRequest in E.
    destruct (negb (notification_stop (ordered d)) && _ && _); [|done].
    destruct (over_limit _ _) eqn:Eo; [|done]. eapply over_limit_not_unlimited; [exact Eo|done|]. tauto.
Qed.

Lemma route_one first sub d e rq ps k p d' :
  route_inv first sub d e rq ps k -> dispatch_locked d = true -> sub !! k = Some p -> parsed_ok p ->
  routeParsedIncoming p k d = Some d' ->
  exists e' rq' ps', route_inv first sub d' e' rq' ps' (k + 1) /\ routed_same d d'.
Proof.
  intros Hinv Hlock Hsub Hpok.
  assert (Hquiet : forall d1, quiet d d1 -> is_ordered (concurrent_notifications d) p = false -> Some d1 = Some d' ->
            exists e' rq' ps', route_inv first sub d' e' rq' ps' (k + 1) /\ routed_same d d').
  { intros d1 Hq Hno [= <-]. exists e, rq, ps. split; [|by apply quiet_same]. by eapply not_ordered_next. }
  unfold routeParsedIncoming, is_ordered in *. rewrite (ri_quit _ _ _ _ _ _ _ Hinv), orb_false_r.
  destruct (ok p); cbn [negb andb] in *; [|by apply Hquiet].
  destruct (message p) as [msg|] eqn:Em.
  2: { apply Hquiet; [done|]. by rewrite andb_false_r. }
  destruct (outgoing p) eqn:Eo; cbn [negb andb] in *; [apply Hquiet; [apply quiet_send|done]|].
  specialize (Hpok msg Em Eo). destruct (kind p) eqn:Ek.
  - intros Hr. destruct (enqueue_request_inv first sub d e rq ps k p msg (session_id d) d')
      as (rq' & ps' & H2 & H3); [done| |done..|].
    { unfold is_ordered. by rewrite Ek, andb_false_r. }
    by exists e, rq', ps'.
  - destruct (pending p) as [info|]; (apply Hquiet; [|done]).
    + apply quiet_completePending.
    + apply quiet_postToWorker. congruence.
  - destruct (bool_decide (GetMethodType msg = kCancelMethod)) eqn:Ec.
    { apply Hquiet; [apply quiet_set_cancel|done]. }
    unfold allowsConcurrentNotification.
    destruct (bool_decide (GetMethodType msg ∈ concurrent_notifications d)) eqn:En.
    { apply Hquiet; [apply quiet_postToWorker; congruence|done]. }
    intros Hr. destruct (enqueue_notification_inv first sub d e rq ps k msg (session_id d) d') as (e' & H2 & H3);
      [done..|]. by exists e', rq, ps.
Qed.

Lemma route_all_inv first sub (ready : list (N * ParsedMessage)) d e rq ps k d' :
  route_inv first sub d e rq ps k -> dispatch_locked d = true -> routed_segment sub k ready ->
  (forall n p, sub !! n = Some p -> parsed_ok p) -> route_all ready d = Some d' ->
  exists e' rq' ps', route_inv first sub d' e' rq' ps' (k + N.of_nat (length ready)) /\ routed_same d d'.
Proof.
  intros Hinv Hlock Hseg Hok. revert d e rq ps k Hinv Hlock Hseg.
  induction ready as [|[s p] ready IH]; intros d e rq ps k Hinv Hlock Hseg.
  - intros [= <-]. exists e, rq, ps. cbn [length]. rewrite N.add_0_r. by split.
  - destruct (Hseg 0) as (q & E1 & E2); [simpl; lia|]. rewrite N.add_0_r in E1, E2.
    injection E1 as -> ->. cbn [route_all]. destruct (routeParsedIncoming q k d) as [d1|] eqn:Er; [|done].
    destruct (route_one first sub d e rq ps k q d1 Hinv Hlock E2 (Hok _ _ E2) Er) as (e1 & rq1 & ps1 & H2 & H3).
    intros Hrest. destruct (IH d1 e1 rq1 ps1 (k + 1)%N H2) as (e2 & rq2 & ps2 & H5 & H6); [| |done|].
    { by rewrite (s_locked _ _ H3). }
    { intros j Hj. destruct (Hseg (S j)) as (q' & E1 & E3); [simpl; lia|]. exists q'.
      replace (k + 1 + N.of_nat j)%N with (k + N.of_nat (S j))%N by lia. done. }
    exists e2, rq2, ps2.
    replace (k + N.of_nat (length ((k, q) :: ready)))%N
      with (k + 1 + N.of_nat (length ready))%N by (cbn [length]; lia).
    split; [done|]. destruct H3, H6. split; try congruence. by etrans.
Qed.

(** ** The session as a whole *)

(** The registered parsers build messages of their own kind. *)
Definition parsers_ok : Prop :=
  (forall md j m, parseRequstMessage jsonHandler md j = inr (Some m) -> GetKid m = REQUEST_MESSAGE) /\
  (forall md j m, parseResponseMessage jsonHandler md j = inr (Some m) -> GetKid m = RESPONCE_MESSAGE) /\
  (forall md j m, parseNotificationMessage jsonHandler md j = inr (Some m) -> GetKid m = NOTIFICATION_MESSAGE).

Lemma classify_parsed_ok lookup text :
  parsers_ok -> parsed_ok (parseAndClassify Parse jsonHandler lookup text).1.
Proof.
  intros (H1 & H2 & H3) m. unfold parseAndClassify.
  destruct (Parse text) as [[]|j]; [done|]. destruct (negb _); [done|].
  destruct (isRequestMessage j); [|destruct (isResponseMessage j); [|destruct (isNotificationMessage j); [|done]]].
  - unfold classify_request. destruct (parseRequstMessage _ _ _) as [e|[m'|]] eqn:E; cbn.
    + destruct (has_value _); done.
    + intros [= <-] _. by eapply H1.
    + destruct (has_value _); done.
  - unfold classify_response. destruct (lookup _) as [[i md]|]; [|done].
    destruct (parseResponseMessage _ _ _) as [e|[m'|]] eqn:E; cbn.
    + destruct (has_value _); [|done]. by intros [= <-].
    + intros [= <-] _. by eapply H2.
    + by intros [= <-].
  - unfold classify_notification. destruct (parseNotificationMessage _ _ _) as [e|[m'|]] eqn:E; cbn; try done.
    intros [= <-] _. by eapply H3.
Qed.

(** [text] is the message [n] of the wire, classified, or the message was
    dropped and an empty one took its place. *)
Definition from_wire (first : N) (w : list bytes) (gone : list N) (n : N) (p : ParsedMessage) : Prop :=
  (first <= n)%N /\ exists text lookup, w !! N.to_nat (n - first) = Some text /\
    (p = (parseAndClassify Parse jsonHandler lookup text).1 \/ p = parsed_empty /\ n ∈ gone).

Record full_inv (first : N) (st : Data * list bytes) (sub : gmap N ParsedMessage) (e : list N)
    (rq ps : list (N * payload)) : Prop := {
  fi_route : route_inv first sub st.1 e rq ps (next_route_sequence (router st.1));
  fi_locked : dispatch_locked st.1 = false;
  fi_buffer : inv_from first sub (router st.1);
  fi_seq : next_message_sequence st.1 = (first + N.of_nat (length st.2))%N;
  fi_wire : forall n p, sub !! n = Some p -> from_wire first st.2 (dropped st.1) n p;
  fi_parse : forall text n, (text, n) ∈ parse_tasks (pools st.1) ->
    (first <= n)%N /\ st.2 !! N.to_nat (n - first) = Some text /\ sub !! n = None;
  fi_once : NoDup (map snd (parse_tasks (pools st.1)))
}.

Lemma is_ordered_lookup conc lookup lookup' text :
  is_ordered conc (parseAndClassify Parse jsonHandler lookup text).1 =
  is_ordered conc (parseAndClassify Parse jsonHandler lookup' text).1.
Proof.
  unfold parseAndClassify. destruct (Parse text) as [[]|j]; [done|]. destruct (negb _); [done|].
  destruct (isRequestMessage j); [done|]. destruct (isResponseMessage j); [|done].
  assert (H : forall lk, is_ordered conc (classify_response jsonHandler lk text j).1 = false).
  { intros lk. unfold classify_response. destruct (lk _) as [[k md]|]; [|done].
    destruct (parseResponseMessage _ _ _) as [e|[m|]]; cbn; [|done|done]. by destruct (has_value _). }
  by rewrite !H.
Qed.

(** The text is a notification that the notification thread must handle. *)
Definition ordered_notification (conc : gset bytes) (text : bytes) : bool :=
  is_ordered conc (parseAndClassify Parse jsonHandler (fun _ => None) text).1.

(** Every request in the pool has the notifications before it done with. *)
Definition settled (first : N) (st : Data * list bytes) : Prop :=
  forall m s st' pd n text,
    RunMain m s st' pd ∈ handler_tasks (pools st.1) -> GetKid m = REQUEST_MESSAGE ->
    (first <= n < s)%N -> st.2 !! N.to_nat (n - first) = Some text ->
    ordered_notification (concurrent_notifications st.1) text = true ->
    n ∈ handled st.1 \/ n ∈ dropped st.1.

Lemma full_inv_settled first st sub e rq ps : full_inv first st sub e rq ps -> settled first st.
Proof.
  intros [H1 _ H2 H3 H4 H5 H6] m s st' pd n text Hin Hk Hn Ht Ho. destruct st as [d w]. cbn [fst snd] in *.
  destruct H1 as [Hs He Htk _ _ _ _ _]. destruct (inv_posted _ Hs _ _ (Htk _ _ _ _ Hin Hk)) as [Hlt Hpost].
  cbn in Hlt, Hpost. destruct H2 as (_ & _ & Hall). destruct (Hall n) as [p Hp]; [lia|].
  destruct (H4 _ _ Hp) as (_ & t & lk & Ht' & [->|[_ ?]]); [|by right].
  rewrite Ht in Ht'. injection Ht' as <-.
  assert (Hc : is_ordered (concurrent_notifications d) (parseAndClassify Parse jsonHandler lk text).1 = true)
    by (rewrite <- Ho; apply is_ordered_lookup).
  destruct (He n _ ltac:(lia) Hp Hc) as [Hin'|?]; [left; apply Hpost; [done|lia]|by right].
Qed.

(** After an overload has stopped the session, no request is posted any
    more. *)
Record stopped_inv (first : N) (st : Data * list bytes) : Prop := {
  si_quit : quit st.1 = true;
  si_keep : keep_running st.1 = false;
  si_pools : pools_stopped (pools st.1) = true;
  si_detached : detached st.1 = [];
  si_dropped : dropped st.1 <> [] -> drops_allowed (limits st.1);
  si_settled : settled first st
}.

Definition session_ok (first : N) (st : Data * list bytes) : Prop :=
  (exists sub e rq ps, full_inv first st sub e rq ps) \/ stopped_inv first st.

Lemma full_inv_quiet first d d' w sub e rq ps :
  quiet d d' -> full_inv first (d, w) sub e rq ps -> full_inv first (d', w) sub e rq ps.
Proof.
  intros Hq [H1 H0 H2 H3 H4 H5 H6]. cbn [fst snd] in *.
  pose proof Hq as [].
  split; cbn [fst snd]; rewrite ?q_router0, ?q_seq0, ?q_parse0, ?q_locked0, ?q_dropped0; try done.
  eapply route_inv_quiet; [done|done| |done]. intros n p Hn. lia.
Qed.

Lemma settled_mono first d d' w :
  (forall m s st pd, RunMain m s st pd ∈ handler_tasks (pools d') -> GetKid m = REQUEST_MESSAGE ->
     RunMain m s st pd ∈ handler_tasks (pools d)) ->
  concurrent_notifications d' = concurrent_notifications d -> handled d ⊆ handled d' -> dropped d ⊆ dropped d' ->
  settled first (d, w) -> settled first (d', w).
Proof.
  intros Ht Hc Hh Hd Hs m s st pd n text Hin Hk Hn Hw Ho. cbn [fst snd] in *. rewrite Hc in Ho.
  destruct (Hs m s st pd n text); cbn [fst snd]; [by apply Ht|done..|left; set_solver|right; set_solver].
Qed.

Lemma quiet_requests d d' m s st pd :
  quiet d d' -> RunMain m s st pd ∈ handler_tasks (pools d') -> GetKid m = REQUEST_MESSAGE ->
  RunMain m s st pd ∈ handler_tasks (pools d).
Proof. intros Hq Hin Hk. by apply (q_tasks _ _ Hq) in Hin as [?|[]]. Qed.

Lemma stopped_inv_quiet first d d' w : quiet d d' -> stopped_inv first (d, w) -> stopped_inv first (d', w).
Proof.
  intros Hq []. pose proof Hq as []. cbn [fst snd] in *.
  split; cbn [fst snd]; rewrite ?q_quit0, ?q_keep0, ?q_stopped0, ?q_detached0, ?q_dropped0, ?q_limits0; try done.
  eapply settled_mono; [|done|by rewrite q_handled0|by rewrite q_dropped0|exact si_settled0].
  intros *. by apply quiet_requests.
Qed.

Lemma session_ok_quiet first d d' w : quiet d d' -> session_ok first (d, w) -> session_ok first (d', w).
Proof.
  intros Hq [(sub & e & rq & ps & Hinv)|Hst]; [left|right].
  - exists sub, e, rq, ps. by eapply full_inv_quiet.
  - by eapply stopped_inv_quiet.
Qed.

(** [stop], when the calling thread does not route *)
Lemma stop_session first d d' w :
  settled first (d, w) -> working d = true -> pools_exist (pools d) = true -> detached d = [] ->
  (dropped d <> [] -> drops_allowed (limits d)) -> dispatch_locked d = false -> stop d = Some d' ->
  stopped_inv first (d', w).
Proof.
  intros Hs Hw Hp Hdt Hdr Hl. unfold stop, clear, lock_dispatch. rewrite Hw. cbn. rewrite Hl. intros [= <-].
  split; cbn; done.
Qed.

Lemma overload_session first d d' b w text :
  settled first (d, w) -> working d = true -> pools_exist (pools d) = true -> detached d = [] ->
  (dropped d <> [] -> drops_allowed (limits d)) -> dispatch_locked d = false ->
  overload_policy (limits d) <> DropNewest ->
  handleOverload text d = Some (b, d') -> b = false /\ stopped_inv first (d', w).
Proof.
  intros Hs Hw Hp Hdt Hdr Hl Hpol. unfold handleOverload. cbn [limits add_logs].
  rewrite bool_decide_eq_false_2 by done. destruct (stop _) as [d1|] eqn:E; [|done]. intros [= <- <-].
  split; [done|]. by eapply stop_session; [..|exact E].
Qed.

Lemma from_wire_mono first w gone gone' n p :
  gone ⊆ gone' -> from_wire first w gone n p -> from_wire first w gone' n p.
Proof.
  intros Hsub (? & t & lk & ? & Hc). split; [done|]. exists t, lk. split; [done|].
  destruct Hc as [?|[? ?]]; [by left|right]. split; [done|]. by apply Hsub.
Qed.

(** What [submit] keeps of a message is the message, or nothing if it is
    counted as dropped. *)
Lemma reorder_drops_spec sequence bypass (parsed p' : ParsedMessage) d :
  let d0 := if reorder_drops sequence bypass d then add_dropped d sequence else d in
  quit d = false ->
  p' = parsed \/ p' = parsed_empty /\ max_reorder_buffer_size (limits d) <> 0 /\
    bool_decide (overload_policy (limits d) = DropNewest) = true /\
    sequence <> next_route_sequence (router d) /\ bypass = false /\
    max_reorder_buffer_size (limits d) <= size (reorder_buffer (router d)) ->
  (d0 = d \/ drops_allowed (limits d) /\ d0 = add_dropped d sequence) /\
  (p' = parsed \/ p' = parsed_empty /\ sequence ∈ dropped d0).
Proof.
  intros d0 Hq Hp'. split.
  - subst d0. destruct (reorder_drops _ _ _) eqn:Er; [right|by left]. split; [|done].
    unfold reorder_drops in Er. apply andb_prop in Er as [[[[Hb _]%andb_prop _]%andb_prop _]%andb_prop Ho].
    apply bool_decide_eq_true_1 in Hb. eapply over_limit_not_unlimited; [exact Ho|done|]. tauto.
  - destruct Hp' as [->|(-> & Hl & Hpol & Hne & -> & Hle)]; [by left|right]. split; [done|]. subst d0.
    unfold reorder_drops. rewrite Hpol, Hq, (proj2 (N.eqb_neq _ _)) by done. unfold over_limit.
    rewrite (proj2 (Nat.eqb_neq _ _)), (proj2 (Nat.leb_le _ _)) by done. cbn. set_solver.
Qed.

(** A submitted message keeps the messages those of the wire. *)
Lemma from_wire_submit first w gone gone' (sub : gmap N ParsedMessage) sequence parsed p' text :
  (first <= sequence)%N -> w !! N.to_nat (sequence - first) = Some text -> gone ⊆ gone' ->
  (exists lookup, parsed = (parseAndClassify Parse jsonHandler lookup text).1) \/
    parsed = parsed_empty /\ sequence ∈ gone ->
  p' = parsed \/ p' = parsed_empty /\ sequence ∈ gone' ->
  (forall n p, sub !! n = Some p -> from_wire first w gone n p) ->
  forall n p, <[sequence := p']> sub !! n = Some p -> from_wire first w gone' n p.
Proof.
  intros Hge Htext Hgone Hparsed Hdrop Hsub n p [[<- <-]|[_ Hn]]%lookup_insert_Some.
  - split; [done|]. destruct Hparsed as [[lk ->]|[-> Hd]].
    + exists text, lk. split; [done|]. destruct Hdrop as [->|?]; [by left|by right].
    + exists text, (fun _ => None). split; [done|]. right. destruct Hdrop as [->|?]; [|done].
      split; [done|]. by apply Hgone.
  - eapply from_wire_mono; [exact Hgone|by apply Hsub].
Qed.

(** A parse result is submitted. *)
Lemma submit_session first d d' w sub e rq ps sequence parsed bypass text :
  parsers_ok -> full_inv first (d, w) sub e rq ps ->
  (first <= sequence)%N -> w !! N.to_nat (sequence - first) = Some text -> sub !! sequence = None ->
  sequence ∉ map snd (parse_tasks (pools d)) ->
  (exists lookup, parsed = (parseAndClassify Parse jsonHandler lookup text).1) \/
    parsed = parsed_empty /\ sequence ∈ dropped d ->
  submit sequence parsed bypass d = Some d' ->
  (exists sub' e' rq' ps', full_inv first (d', w) sub' e' rq' ps' /\
     parse_tasks (pools d') = parse_tasks (pools d)) \/ stopped_inv first (d', w).
Proof.
  intros Hpar Hinv Hge Htext Hnone Hnot Hparsed. pose proof (full_inv_settled _ _ _ _ _ _ Hinv) as Hset.
  destruct Hinv as [H1 H0 H2 H3 H4 H5 H6]. cbn [fst snd] in *.
  unfold submit, lock_dispatch. rewrite H0. cbn [limits quit router set_dispatch].
  rewrite (ri_quit _ _ _ _ _ _ _ H1).
  destruct (submit_cases parsed_empty (max_reorder_buffer_size (limits d))
    (bool_decide (overload_policy (limits d) = DropNewest)) first sub (router d) sequence parsed bypass)
    as [(ready & r' & p' & E & Hp' & Hinv' & Hseg & Hnext)|(E & Hpol & _ & _)]; [done..| |].
  2: { rewrite E. intros ([b d1] & Ho & ->)%fmap_Some. right. cbn [snd].
       eapply (overload_session first (unlock_dispatch (set_dispatch d true))); [..|exact Ho]; try apply H1; try done.
       by apply bool_decide_eq_false_1 in Hpol. }
  rewrite E. intros (d2 & E2 & ->)%fmap_Some.
  set (sub' := <[sequence := p']> sub) in *. set (d0 := if reorder_drops _ _ _ then _ else _) in E2.
  destruct (reorder_drops_spec sequence bypass parsed p' (set_dispatch d true)) as [Hd0 Hdrop];
    [by apply (ri_quit _ _ _ _ _ _ _ H1)|exact Hp'|]. fold d0 in Hd0, Hdrop.
  assert (Hdr0 : dropped d ⊆ dropped d0) by (destruct Hd0 as [->|[_ ->]]; cbn; set_solver).
  pose proof (from_wire_submit _ _ _ _ _ _ _ _ _ Hge Htext Hdr0 Hparsed Hdrop H4) as Hfw.
  assert (Hpok : forall n p, sub' !! n = Some p -> parsed_ok p).
  { intros n p Hn. apply Hfw in Hn as (_ & t & lk & _ & [->|[-> _]]); [by apply classify_parsed_ok|].
    by intros m. }
  set (d1 := set_router d0 r') in E2.
  assert (Hri : route_inv first sub' d1 e rq ps (next_route_sequence (router d))).
  { assert (Hr1 : route_inv first sub d0 e rq ps (next_route_sequence (router d))).
    { destruct Hd0 as [->|[Hal ->]]; [|apply route_inv_drop; [done|]]; destruct H1; by split. }
    destruct Hr1. split; try done. intros n p Hn Hn' Ho.
    apply lookup_insert_Some in Hn' as [[<- <-]|[_ Hn']]; [|by eapply ri_enq0].
    destruct H2 as (_ & _ & Hall). destruct (Hall sequence) as [q Hq']; [lia|]. congruence. }
  assert (Hl1 : dispatch_locked d1 = true) by (subst d1; by destruct Hd0 as [->|[_ ->]]).
  assert (Hc1 : concurrent_notifications d1 = concurrent_notifications d /\
    next_message_sequence d1 = next_message_sequence d /\ parse_tasks (pools d1) = parse_tasks (pools d))
    by (subst d1; by destruct Hd0 as [->|[_ ->]]).
  destruct Hc1 as (Hc1 & Hs1 & Hp1).
  destruct (route_all_inv first sub' ready d1 e rq ps _ d2 Hri Hl1 Hseg Hpok E2)
    as (e2 & rq2 & ps2 & Hri2 & [Hr2 Hk2 Hc2 Hs2 Hp2 Hd2]).
  left. exists sub', e2, rq2, ps2. split; [|cbn; congruence].
  split; cbn [fst snd unlock_dispatch set_dispatch router next_message_sequence pools dispatch_locked dropped].
  - rewrite Hr2. cbn [router set_router d1]. rewrite Hnext. destruct Hri2. by split.
  - done.
  - by rewrite Hr2.
  - congruence.
  - intros n p Hn. eapply from_wire_mono; [exact Hd2|by apply Hfw].
  - rewrite Hp2, Hp1. intros t n Hin. destruct (H5 t n Hin) as (? & ? & ?). split; [done|]. split; [done|].
    subst sub'. rewrite lookup_insert_ne; [done|]. intros ->. apply Hnot. apply list_elem_of_fmap. by exists (t, n).
  - by rewrite Hp2, Hp1.
Qed.

Lemma step_parse first text sequence tasks d d' w :
  parsers_ok -> Permutation (parse_tasks (pools d)) ((text, sequence) :: tasks) ->
  pools_stopped (pools d) = false ->
  run_parse_task text sequence
    (set_pools d (mkPools (pools_exist (pools d)) false tasks (handler_tasks (pools d))
                    (parse_queue_size (pools d)))) = Some d' ->
  session_ok first (d, w) -> session_ok first (d', w).
Proof.
  intros Hpar Hperm Hrunning Hrun [(sub & e & rq & ps & Hinv)|Hst].
  2: { pose proof (si_pools _ _ Hst) as H. cbn in H. congruence. }
  destruct (fi_parse _ _ _ _ _ _ Hinv text sequence) as (Hge & Htext & Hnone); [cbn; rewrite Hperm; by left|].
  pose proof (fi_once _ _ _ _ _ _ Hinv) as Hnd. cbn [fst snd] in *. rewrite Hperm in Hnd. cbn in Hnd.
  apply NoDup_cons in Hnd as [Hnot Hnd].
  unfold run_parse_task in Hrun. destruct (parseAndClassify _ _ _ text) as [parsed l] eqn:Ec.
  set (d1 := add_logs _ l) in Hrun.
  assert (Hinv1 : full_inv first (d1, w) sub e rq ps).
  { destruct Hinv as [H1 H0 H2 H3 H4 H5 H6]. cbn [fst snd] in *. split; cbn; try done.
    - destruct H1. by split.
    - intros t n Hin. apply H5. rewrite Hperm. by right. }
  apply fmap_Some in Hrun as (d2 & Hsub & ->).
  destruct (submit_session first d1 d2 w sub e rq ps sequence parsed false text Hpar Hinv1)
    as [(sub' & e' & rq' & ps' & Hf & _)|Hst]; [done..|left; eexists; by rewrite Ec|done|left|right].
  - exists sub', e', rq', ps'. destruct Hf as [H1 H0 H2 H3 H4 H5 H6]. split; try done. destruct H1. by split.
  - destruct Hst. by split.
Qed.

Lemma elem_of_task_numbers t n (l : list (bytes * N)) : (t, n) ∈ l -> n ∈ map snd l.
Proof. intros H. apply list_elem_of_fmap. by exists (t, n). Qed.

(** A new text on the wire, before anything is done with it *)
Lemma full_inv_arrive first text d w sub e rq ps :
  full_inv first (d, w) sub e rq ps ->
  full_inv first (set_sequence d (next_message_sequence d + 1), w ++ [text]) sub e rq ps /\
  w !! N.to_nat (next_message_sequence d - first) = None /\
  (w ++ [text]) !! N.to_nat (next_message_sequence d - first) = Some text /\
  sub !! next_message_sequence d = None /\
  next_message_sequence d ∉ map snd (parse_tasks (pools d)) /\ (first <= next_message_sequence d)%N.
Proof.
  intros [H1 H0 H2 H3 H4 H5 H6]. cbn [fst snd] in *. rewrite H3.
  assert (Hold : forall i t, w !! i = Some t -> (w ++ [text]) !! i = Some t)
    by (intros; by apply lookup_app_l_Some).
  split_and!.
  - split; cbn; try done.
    + destruct H1. by split.
    + rewrite length_app. cbn. lia.
    + intros n p Hn. apply H4 in Hn as (Hge & t & lk & Ht & ?). split; [done|]. exists t, lk. auto.
    + intros t n Hin. destruct (H5 t n Hin) as (? & ? & ?). auto.
  - apply lookup_ge_None_2. lia.
  - rewrite lookup_app_r by lia.
    by replace (N.to_nat (first + N.of_nat (length w) - first) - length w) with 0 by lia.
  - destruct (sub !! (first + N.of_nat (length w))%N) as [p|] eqn:E; [|done].
    apply H4 in E as (_ & t & lk & Ht & _). apply lookup_lt_Some in Ht. lia.
  - intros ([t n] & Hn & Hin)%list_elem_of_fmap.
    cbn in Hn. destruct (H5 t n Hin) as (? & Ht & _). apply lookup_lt_Some in Ht. lia.
  - lia.
Qed.

Lemma full_inv_drop first d w sub e rq ps n :
  drops_allowed (limits d) -> full_inv first (d, w) sub e rq ps ->
  full_inv first (add_dropped d n, w) sub e rq ps.
Proof.
  intros Hd [H1 H0 H2 H3 H4 H5 H6]. cbn [fst snd] in *. split; cbn; try done.
  - by apply route_inv_drop.
  - intros n' p Hn. apply H4 in Hn as (? & t & lk & ? & Hc). split; [done|]. exists t, lk. split; [done|].
    destruct Hc as [?|[? ?]]; [by left|right; set_solver].
Qed.

Lemma step_arrive first text d d' w :
  parsers_ok -> keep_running d = true -> on_message text d = Some d' ->
  session_ok first (d, w) -> session_ok first (d', w ++ [text]).
Proof.
  intros Hpar Hkeep Harr [(sub & e & rq & ps & Hinv)|Hst].
  2: { pose proof (si_keep _ _ Hst) as H. cbn in H. congruence. }
  destruct (full_inv_arrive first text d w sub e rq ps Hinv) as (Hinv1 & _ & Htext & Hnone & Hnot & Hge).
  unfold on_message in Harr. set (n := next_message_sequence d) in *. set (d1 := set_sequence d (n + 1)) in *.
  pose proof (fi_route _ _ _ _ _ _ Hinv1) as H1. cbn [fst] in H1.
  unfold postParseTask in Harr. rewrite (ri_quit _ _ _ _ _ _ _ H1), (ri_pools _ _ _ _ _ _ _ H1) in Harr.
  cbn [orb negb] in Harr. unfold acquireParseQueueSlot in Harr.
  destruct (over_limit _ _) eqn:Eo.
  - destruct (handleOverload _ d1) as [[b d2]|] eqn:Eh; [|done].
    destruct (decide (overload_policy (limits d1) = DropNewest)) as [Hpol|Hpol].
    + unfold handleOverload in Eh. cbn [limits add_logs] in Eh. rewrite bool_decide_eq_true_2 in Eh by done.
      injection Eh as <- <-. destruct (submit _ _ _ _) as [d3|] eqn:Es; [|done]. injection Harr as <-.
      assert (Hal : drops_allowed (limits d1)) by (eapply over_limit_not_unlimited; [exact Eo|done|]; tauto).
      destruct (submit_session first (add_dropped (add_logs d1
        [(WARNING, lit "RemoteEndPoint overload: " ++
           overload_msg (lit "parse queue") (max_parse_queue_size (limits d1)))]) n) d3 (w ++ [text])
        sub e rq ps n parsed_empty true text)
        as [(sub' & e' & rq' & ps' & Hf & _)|Hst]; try done.
      * apply full_inv_drop; [done|]. eapply full_inv_quiet; [apply quiet_add_logs|done].
      * right. split; [done|]. cbn. set_solver.
      * left. by exists sub', e', rq', ps'.
      * by right.
    + destruct (overload_session first d1 d2 b (w ++ [text])
        (overload_msg (lit "parse queue") (max_parse_queue_size (limits d1)))) as [-> Hst]; try apply H1; try done.
      * by eapply full_inv_settled.
      * apply (fi_locked _ _ _ _ _ _ Hinv1).
      * injection Harr as <-. by right.
  - injection Harr as <-. left. exists sub, e, rq, ps. destruct Hinv1 as [_ H0 H2 H3 H4 H5 H6].
    cbn [fst snd] in *. split; cbn; try done.
    + destruct H1. by split.
    + intros t n' [Hin|[= -> ->]%list_elem_of_singleton]%elem_of_app; [by apply H5|done].
    + rewrite map_app. cbn. apply NoDup_app. split; [done|]. split; [|apply NoDup_singleton].
      intros n' Hin ->%list_elem_of_singleton. done.
Qed.

Lemma post_ready_quit ready d : quit d = true -> postReadyParkedRequests ready d = d.
Proof.
  revert d. induction ready as [|p ready IH]; intros d Hq; cbn; [done|].
  assert (postToWorker (pmessage p).1 (psequence p) (pmessage p).2 None d = d) as ->; [|by apply IH].
  unfold postToWorker. by rewrite Hq.
Qed.

(** What the posts of released requests change *)
Lemma post_ready_tasks ready d :
  quit d = false -> pools_exist (pools d) = true ->
  exists tasks, postReadyParkedRequests ready d =
    set_pools d (mkPools true (pools_stopped (pools d)) (parse_tasks (pools d)) tasks (parse_queue_size (pools d))) /\
  (forall t, t ∈ tasks -> t ∈ handler_tasks (pools d) \/
     exists p, p ∈ ready /\ t = RunMain (pmessage p).1 (psequence p) (pmessage p).2 None).
Proof.
  revert d. induction ready as [|p ready IH]; intros d Hq Hp.
  - exists (handler_tasks (pools d)). split; [|by left]. rewrite <- Hp. destruct d as [? ? ? ? []]. done.
  - change (postReadyParkedRequests (p :: ready) d) with (postReadyParkedRequests ready
      (postToWorker (pmessage p).1 (psequence p) (pmessage p).2 None d)).
    assert (Hd1 : postToWorker (pmessage p).1 (psequence p) (pmessage p).2 None d =
      post_task (RunMain (pmessage p).1 (psequence p) (pmessage p).2 None) d)
      by (unfold postToWorker; by rewrite Hq, Hp).
    rewrite Hd1. destruct (IH (post_task (RunMain (pmessage p).1 (psequence p) (pmessage p).2 None) d))
      as (tasks & E & Ht); [done..|].
    exists tasks. split; [by rewrite E|]. intros t Hin. apply Ht in Hin as [Hin|(p' & Hp' & ->)].
    + cbn in Hin. apply elem_of_app in Hin as [?|Hin%list_elem_of_singleton]; [by left|].
      right. exists p. split; [by left|done].
    + right. exists p'. split; [by right|done].
Qed.

(** The end of a round of the notification thread, while the session runs *)
Lemma round_end first s m d w sub e rq ps ready o :
  running_item (current d) = Some (s, m) -> complete_notification s (ordered d) = (ready, o) ->
  full_inv first (d, w) sub e rq ps ->
  full_inv first (set_current (postReadyParkedRequests ready (add_handled (set_ordered d o) s)) None, w)
    sub e rq (ps ++ map parked_item ready).
Proof.
  intros Hcur E [H1 H0 H2 H3 H4 H5 H6]. cbn [fst snd] in *. destruct H1 as [Hs He Ht Hqt Hw Hdt Hdr Hp].
  rewrite Hcur in Hs. pose proof (inv_complete s m _ _ _ _ _ _ _ _ E Hs) as Hs'.
  destruct (post_ready_tasks ready (add_handled (set_ordered d o) s) Hqt Hp) as (tasks & -> & Htk).
  split; cbn; try done. split; cbn; try done.
  intros m' s' st pd Hin Hk. apply elem_of_app. apply Htk in Hin as [Hin|(p & Hin & E')].
  - left. by eapply Ht.
  - right. injection E' as -> -> -> ->. apply list_elem_of_fmap. exists p. split; [|done].
    unfold parked_item. by destruct (pmessage p).
Qed.

(** The notification thread changes what it does, not what it has. *)
Lemma set_current_ok first d d' w n :
  quiet d d' -> running_item n = running_item (current d) -> session_ok first (d, w) ->
  session_ok first (set_current d' n, w).
Proof.
  intros Hq Hn Hok. apply (session_ok_quiet _ _ _ _ Hq) in Hok. rewrite <- (q_current _ _ Hq) in Hn.
  destruct Hok as [(sub & e & rq & ps & [H1 H0 H2 H3 H4 H5 H6])|Hst].
  - left. exists sub, e, rq, ps. split; try done. destruct H1. split; try done.
    cbn [current set_current ordered handled fst router]. by rewrite Hn.
  - right. destruct Hst. by split.
Qed.

Lemma step_notifier first n d d' w :
  notifier_step (current d) d = Some (n, d') -> session_ok first (d, w) -> session_ok first (set_current d' n, w).
Proof.
  intros E Hok. unfold notifier_step in E. destruct (current d) as [[[s m] [f|]]|] eqn:Ec.
  - destruct (fl_sends f) as [|msg rest].
    + pose proof (quiet_end_main f d) as Hq. pose proof (q_current _ _ Hq) as Hc. rewrite Ec in Hc.
      apply (session_ok_quiet _ _ _ _ Hq) in Hok. clear Hq. set (d1 := end_main f d) in *. clearbody d1.
      destruct (complete_notification s (ordered d1)) as [ready o] eqn:Er. injection E as <- <-.
      destruct Hok as [(sub & e & rq & ps & Hinv)|Hst].
      * left. exists sub, e, rq, (ps ++ map parked_item ready). eapply round_end; [|done..].
        rewrite Hc. done.
      * right. destruct Hst as [Hq Hk Hp Hdt Hdr Hs]. cbn [fst snd] in *. rewrite post_ready_quit by done.
        split; cbn; try done. eapply settled_mono; [..|exact Hs]; cbn; done || set_solver.
    + injection E as <- <-. eapply set_current_ok; [apply quiet_send| |done]. by rewrite Ec.
  - destruct (begin_main m.1 s m.2 None d) as [f d1] eqn:Eb. injection E as <- <-.
    eapply set_current_ok; [|by rewrite Ec|done].
    pose proof (quiet_begin_main m.1 s m.2 None d) as Hq. by rewrite Eb in Hq.
  - destruct (pop_notification (ordered d)) as [[item o]|] eqn:Ep; [|done]. injection E as <- <-.
    destruct Hok as [(sub & e & rq & ps & [H1 H0 H2 H3 H4 H5 H6])|Hst].
    + left. exists sub, e, rq, ps. split; cbn; try done. destruct H1 as [Hs ? ? ? ? ? ? ?].
      split; cbn; try done. cbn [fst] in Hs. rewrite Ec in Hs. by apply (inv_pop (ordered d)).
    + right. destruct Hst. by split.
Qed.

Lemma session_ok_step first st st' : parsers_ok -> rstep st st' -> session_ok first st -> session_ok first st'.
Proof.
  intros Hpar Hstep Hst.
  destruct Hstep as [text d d' w Hk E|text sequence tasks d d' w Hp Hr E|t tasks d w Hp Hr
    |i f msg rest d w Hf Hs|i f d w Hf Hs|n d d' w E|i n n' d d' w Hd E|req df d w|id d w|id d w|msg d w].
  - by eapply step_arrive.
  - by eapply step_parse.
  - eapply session_ok_quiet; [apply quiet_begin_task|]. eapply (session_ok_quiet first d); [|done].
    split; try done. cbn. intros t' Hin. left. rewrite Hp. by right.
  - eapply (session_ok_quiet first d); [|done]. etrans; [apply quiet_send|apply quiet_set_flights].
  - eapply (session_ok_quiet first d); [|done]. etrans; [apply quiet_set_flights|apply quiet_end_main].
  - by eapply step_notifier.
  - assert (Hnil : detached d = []) by (destruct Hst as [(? & ? & ? & ? & [[] ])|[]]; done).
    rewrite Hnil in Hd. done.
  - eapply session_ok_quiet; [apply quiet_internalSend|done].
  - eapply session_ok_quiet; [apply quiet_cancelRequest|done].
  - eapply session_ok_quiet; [apply quiet_set_table|done].
  - eapply session_ok_quiet; [apply quiet_send|done].
Qed.

(** The endpoint does not process messages, and no thread of an earlier
    session is left in [notificationLoop]. *)
Definition idle (d : Data) : Prop :=
  working d = false /\ dispatch_locked d = false /\ current d = None /\ detached d = [].

Lemma session_ok_start bad_output d :
  idle d -> session_ok (next_message_sequence d) (startProcessingMessages bad_output d, []).
Proof.
  intros (Hw & Hl & Hc & Hd). unfold startProcessingMessages. rewrite Hw, Hc, Hd. left. exists ∅, [], [], [].
  split; cbn [fst snd router resetMessageRouting next_route_sequence next_message_sequence pools parse_tasks length map
    dispatch_locked]; [|done|..].
  - split; cbn [ordered current handled pools handler_tasks concurrent_notifications quit limits pools_exist]; try done.
    + apply (session_inv_init (ordered d)).
    + intros m s st pd Hin. by apply not_elem_of_nil in Hin.
  - split; [split|split]; cbn [reorder_buffer next_route_sequence].
    + intros i. rewrite lookup_empty. by destruct (decide _).
    + apply lookup_empty.
    + simpl. lia.
    + intros i Hi. simpl in Hi. lia.
  - lia.
  - intros n p. by rewrite lookup_empty.
  - intros t n Hin. by apply not_elem_of_nil in Hin.
  - constructor.
Qed.

Lemma session_ok_settled first st : session_ok first st -> settled first st.
Proof. intros [(? & ? & ? & ? & H)|[]]; [by eapply full_inv_settled|done]. Qed.

Lemma session_ok_dropped first st : session_ok first st -> dropped st.1 <> [] -> drops_allowed (limits st.1).
Proof. by intros [(? & ? & ? & ? & [[]])|[]]. Qed.

(** ** Sessions that have been stopped *)

Record grow (d d' : Data) : Prop := {
  g_kept : forall i s, sessions d !! i = Some s -> active s = false ->
    exists s', sessions d' !! i = Some s' /\ active s' = false /\ sent s' = sent s
}.

#[local] Instance grow_preorder : PreOrder grow.
Proof.
  split.
  - intros d. split. intros i s H1 H2. by exists s.
  - intros d1 d2 d3 [H1] [H2]. split. intros i s Hs Ha. destruct (H1 _ _ Hs Ha) as (s' & Hs' & Ha' & E).
    destruct (H2 _ _ Hs' Ha') as (s2 & ? & ? & ?). exists s2. split; [done|]. split; [done|]. congruence.
Qed.

Lemma grow_eq d d' : sessions d' = sessions d -> grow d d'.
Proof. intros E. split. intros i s H1 H2. exists s. by rewrite E. Qed.

Lemma grow_send state msg d : grow d (sendSessionMessage state msg d).
Proof.
  split. intros i s Hs Ha. cbn. destruct (decide (state = i)) as [->|Hne].
  - rewrite list_lookup_alter_eq, Hs. exists s. split; [|done]. cbn. unfold write_to. by rewrite Ha.
  - rewrite list_lookup_alter_ne by done. by exists s.
Qed.

Lemma grow_completePending msg info d : grow d (completePendingResponse msg info d).
Proof.
  unfold completePendingResponse. destruct (removeRequestInfo_expected _ _ _) as [[] t]; cbn [negb]; [|done].
  destruct (negb _); [by apply grow_eq|]. by destruct (_ || _); apply grow_eq.
Qed.

Lemma grow_post msg s state pd d : grow d (postToWorker msg s state pd d).
Proof. unfold postToWorker. destruct (_ || _); [done|by apply grow_eq]. Qed.

Lemma grow_begin_main msg s state pd d : grow d (begin_main msg s state pd d).2.
Proof.
  unfold begin_main. destruct (quit d); [done|]. destruct (GetKid msg).
  - destruct (cancelableRequestContext _ _ _ _) as [[ctx cookie] c]. destruct (onRequest _ _ _ _) as [res l].
    by apply grow_eq.
  - destruct (match pd with Some _ => _ | None => _ end); [apply grow_completePending|].
    destruct (onResponse _ _ _ _ _) as [res l]. by apply grow_eq.
  - case_bool_decide; [by apply grow_eq|]. destruct (notify _ _ _ _) as [res l]. by apply grow_eq.
Qed.

Lemma grow_end_main f d : grow d (end_main f d).
Proof. apply grow_eq. unfold end_main. by destruct (fl_retains f), (fl_scope f) as [[]|]. Qed.

Lemma grow_stop d d' : stop d = Some d' -> grow d d'.
Proof.
  unfold stop, clear, lock_dispatch. destruct (working d); cbn; [|by intros [= <-]].
  destruct (dispatch_locked d); [done|]. intros [= <-]. split. intros i s Hs Ha. cbn.
  destruct (decide (session_id d = i)) as [->|Hne].
  - rewrite list_lookup_alter_eq, Hs. by exists (stop_output s).
  - rewrite list_lookup_alter_ne by done. by exists s.
Qed.

Lemma grow_overload m d b d' : handleOverload m d = Some (b, d') -> grow d d'.
Proof.
  unfold handleOverload. case_bool_decide; [intros [= _ <-]; by apply grow_eq|].
  destruct (stop _) as [d1|] eqn:E; [|done]. intros [= _ <-]. apply grow_stop in E.
  etrans; [|exact E]. by apply grow_eq.
Qed.

Lemma grow_overload_drop n m d d' : overload_drop n m d = Some d' -> grow d d'.
Proof.
  unfold overload_drop. destruct (handleOverload _ _) as [[[] d1]|] eqn:E; [| |done]; intros [= <-];
    apply grow_overload in E; [|done]. etrans; [exact E|by apply grow_eq].
Qed.

Lemma grow_route p s d d' : routeParsedIncoming p s d = Some d' -> grow d d'.
Proof.
  unfold routeParsedIncoming. destruct (_ || _); [by intros [= <-]|].
  destruct (message p) as [msg|]; [|by intros [= <-]].
  destruct (outgoing p); [intros [= <-]; apply grow_send|].
  destruct (kind p).
  - unfold enqueue_request. destruct (quit d); [by intros [= <-]|].
    destruct (enqueueRequest _ _ _ _) as [[] o].
    + intros [= <-]. etrans; [|apply grow_post]. by apply grow_eq.
    + intros [= <-]. by apply grow_eq.
    + apply grow_overload_drop.
  - destruct (pending p); intros [= <-]; [apply grow_completePending|apply grow_post].
  - case_bool_decide; [intros [= <-]; by apply grow_eq|].
    destruct (allowsConcurrentNotification _ _); [intros [= <-]; apply grow_post|].
    unfold enqueue_notification. destruct (quit d); [by intros [= <-]|].
    destruct (enqueueNotification _ _ _ _) as [[] o];
      [intros [= <-]; by apply grow_eq|apply grow_overload_drop|intros [= <-]; by apply grow_eq].
Qed.

Lemma grow_route_all ready d d' : route_all ready d = Some d' -> grow d d'.
Proof.
  revert d. induction ready as [|[s p] ready IH]; intros d; cbn; [by intros [= <-]|].
  destruct (routeParsedIncoming p s d) as [d1|] eqn:E; [|done]. intros Hd.
  etrans; [by eapply grow_route|by apply IH].
Qed.

Lemma grow_submit s p b d d' : submit s p b d = Some d' -> grow d d'.
Proof.
  unfold submit, lock_dispatch. destruct (dispatch_locked d); [done|].
  destruct (submitParsedMessage _ _ _ _ _ _ _ _) as [[ready| |] r].
  - intros (d1 & E & ->)%fmap_Some. apply grow_route_all in E. etrans; [|etrans; [exact E|by apply grow_eq]].
    apply grow_eq. by destruct (reorder_drops _ _ _).
  - intros ([b' d1] & E & ->)%fmap_Some. apply grow_overload in E. etrans; [|exact E]. by apply grow_eq.
  - intros [= <-]. by apply grow_eq.
Qed.

Lemma grow_post_ready ready d : grow d (postReadyParkedRequests ready d).
Proof.
  revert d. induction ready as [|p ready IH]; intros d; cbn; [done|]. etrans; [apply grow_post|apply IH].
Qed.

Lemma grow_notifier n d n' d' : notifier_step n d = Some (n', d') -> grow d d'.
Proof.
  unfold notifier_step. destruct n as [[[s m] [f|]]|].
  - destruct (fl_sends f) as [|msg rest]; [|intros [= _ <-]; apply grow_send].
    destruct (complete_notification _ _) as [ready o]. intros [= _ <-].
    etrans; [apply (grow_end_main f)|]. etrans; [|apply grow_post_ready]. by apply grow_eq.
  - pose proof (grow_begin_main m.1 s m.2 None d) as H. destruct (begin_main _ _ _ _ _) as [f d1].
    by intros [= _ <-].
  - destruct (pop_notification _) as [[item o]|]; [|done]. intros [= _ <-]. by apply grow_eq.
Qed.

Lemma grow_begin_task t d : grow d (begin_task t d).
Proof.
  destruct t as [msg s st pd|info msg]; cbn [begin_task]; [|by apply grow_eq].
  pose proof (grow_begin_main msg s st pd d) as H. destruct (begin_main _ _ _ _ _) as [f d1].
  etrans; [exact H|by apply grow_eq].
Qed.

Lemma grow_on_message text d d' : on_message text d = Some d' -> grow d d'.
Proof.
  unfold on_message, postParseTask. destruct (_ || _); [intros [= <-]; by apply grow_eq|].
  unfold acquireParseQueueSlot. destruct (over_limit _ _).
  - destruct (handleOverload _ _) as [[[] d1]|] eqn:Eo; [|intros [= <-]|done].
    + apply grow_overload in Eo. destruct (submit _ _ _ _) as [d2|] eqn:Es; [|done].
      intros [= <-]. apply grow_submit in Es.
      etrans; [|etrans; [exact Eo|etrans; [|exact Es]]]; by apply grow_eq.
    + apply grow_overload in Eo. etrans; [|exact Eo]. by apply grow_eq.
  - intros [= <-]. by apply grow_eq.
Qed.

Lemma grow_step st st' : lstep st st' -> grow st.1 st'.1.
Proof.
  destruct 1 as [st st' Hr|d d' w Hs|b d w]; cbn [fst].
  - destruct Hr as [text d d' w Hk E|text sequence tasks d d' w Hp Hr E|t tasks d w Hp Hr
      |i f msg rest d w Hf Hs|i f d w Hf Hs|n d d' w E|i n n' d d' w Hd E|req df d w|id d w|id d w|msg d w];
      cbn [fst].
    + by eapply grow_on_message.
    + unfold run_parse_task in E. destruct (parseAndClassify _ _ _ _) as [p l].
      apply fmap_Some in E as (d1 & E & ->). apply grow_submit in E.
      etrans; [|etrans; [exact E|by apply grow_eq]]. by apply grow_eq.
    + etrans; [|apply grow_begin_task]. by apply grow_eq.
    + etrans; [apply (grow_send (fl_session f) msg)|by apply grow_eq].
    + etrans; [|apply grow_end_main]. by apply grow_eq.
    + apply grow_notifier in E. etrans; [exact E|by apply grow_eq].
    + apply grow_notifier in E. etrans; [exact E|by apply grow_eq].
    + unfold internalSendRequest. destruct (negb _); [by apply grow_eq|].
      destruct (pendingRequest _ _ _ _ _) as [[[i id]|] t]; cbn [snd]; [|by apply grow_eq].
      etrans; [|apply grow_send]. by apply grow_eq.
    + unfold cancelRequest. destruct (negb _); [done|]. destruct (getRequestInfo _ _); [apply grow_send|done].
    + by apply grow_eq.
    + apply grow_send.
  - by eapply grow_stop.
  - unfold startProcessingMessages. destruct (working d); [by apply grow_eq|].
    split. intros i s Hs Ha. exists s. cbn. split; [|done]. by apply lookup_app_l_Some.
Qed.

Lemma grow_steps st st' : rtc lstep st st' -> grow st.1 st'.1.
Proof.
  intros H. eapply (rtc_ind_r (fun st' => grow st.1 st'.1)); [done| |exact H].
  intros x y _ Hs Hx. etrans; [exact Hx|by apply grow_step].
Qed.

(** ** Overload *)

Lemma stop_working (d : Data) :
  working d = true -> dispatch_locked d = false ->
  exists d', stop d = Some d' /\ working d' = false /\ dispatch_locked d' = false.
Proof.
  intros Hw Hl. unfold stop, clear, lock_dispatch. rewrite Hw. cbn. rewrite Hl. eexists. split; [reflexivity|done].
Qed.

Lemma overload_stops (m : bytes) (d : Data) :
  working d = true -> dispatch_locked d = false -> overload_policy (limits d) = StopProcessing ->
  exists d', handleOverload m d = Some (false, d') /\ working d' = false /\ dispatch_locked d' = false.
Proof.
  intros Hw Hl Hp. unfold handleOverload. cbn [limits add_logs]. rewrite Hp, bool_decide_eq_false_2 by done.
  destruct (stop_working (add_logs d [(WARNING, lit "RemoteEndPoint overload: " ++ m)])) as (d' & -> & Hd');
    [done..|]. by exists d'.
Qed.

Lemma arrival_over_limit_stops (text : bytes) (d : Data) :
  working d = true -> dispatch_locked d = false -> quit d = false -> pools_exist (pools d) = true ->
  overload_policy (limits d) = StopProcessing ->
  over_limit (max_parse_queue_size (limits d)) (parse_queue_size (pools d)) = true ->
  exists d', on_message text d = Some d' /\ working d' = false /\ dispatch_locked d' = false.
Proof.
  intros Hw Hl Hq Hp Hpol Ho. unfold on_message, postParseTask. cbn [quit pools set_sequence].
  rewrite Hq, Hp. cbn [orb negb]. unfold acquireParseQueueSlot. cbn [limits pools set_sequence]. rewrite Ho.
  destruct (overload_stops (overload_msg (lit "parse queue") (max_parse_queue_size (limits d)))
    (set_sequence d (next_message_sequence d + 1))) as (d' & -> & Hd'); [done..|]. by exists d'.
Qed.

Lemma submit_reorder_overload s parsed (d : Data) :
  dispatch_locked d = false -> working d = true -> quit d = false ->
  overload_policy (limits d) = StopProcessing -> s <> next_route_sequence (router d) ->
  over_limit (max_reorder_buffer_size (limits d)) (size (reorder_buffer (router d))) = true ->
  exists d', submit s parsed false d = Some d' /\ working d' = false /\ dispatch_locked d' = false.
Proof.
  intros Hl Hw Hq Hp Hne Hov. unfold submit, lock_dispatch. rewrite Hl. cbn [limits quit router set_dispatch].
  unfold submitParsedMessage. rewrite Hq, (proj2 (N.eqb_neq _ _)) by done. unfold over_limit in Hov.
  cbn [negb andb]. rewrite Hov, Hp, bool_decide_eq_false_2 by done. cbn [andb negb].
  destruct (overload_stops (overload_msg (lit "reorder buffer") (max_reorder_buffer_size (limits d)))
    (unlock_dispatch (set_dispatch d true))) as (d' & -> & Hd'); [done..|]. by exists d'.
Qed.

Lemma submit_overload_blocks parsed msg bypass (d : Data) :
  dispatch_locked d = false -> working d = true -> quit d = false ->
  overload_policy (limits d) = StopProcessing ->
  ok parsed = true -> message parsed = Some msg -> outgoing parsed = false ->
  is_ordered (concurrent_notifications d) parsed = true /\
    (enqueueNotification (max_notification_queue_size (limits d)) (next_route_sequence (router d))
       (msg, session_id d) (ordered d)).1 = QueueOverload \/
  kind parsed = REQUEST_MESSAGE /\
    (enqueueRequest (max_parked_request_queue_size (limits d)) (next_route_sequence (router d))
       (msg, session_id d) (ordered d)).1 = ParkOverload ->
  submit (next_route_sequence (router d)) parsed bypass d = None.
Proof.
  intros Hl Hw Hq Hp Hok Hm Ho Hfull.
  assert (Hdead : forall n text r, overload_drop n text (set_router (set_dispatch d true) r) = None).
  { intros n text r. unfold overload_drop, handleOverload. cbn [limits add_logs set_router set_dispatch].
    rewrite Hp, bool_decide_eq_false_2 by done. by rewrite stop_locked. }
  unfold submit, lock_dispatch. rewrite Hl. cbn [limits quit router set_dispatch].
  assert (Hnd : reorder_drops (next_route_sequence (router d)) bypass (set_dispatch d true) = false).
  { unfold reorder_drops. cbn [limits quit router set_dispatch]. by rewrite Hp. }
  rewrite Hnd. unfold submitParsedMessage. rewrite Hq, N.eqb_refl.
  destruct (drain _ _) as [ready r]. cbn [route_all].
  unfold routeParsedIncoming. cbn [quit set_router set_dispatch]. rewrite Hok, Hq, Hm, Ho.
  cbn [negb orb session_id set_router set_dispatch]. unfold is_ordered in Hfull. rewrite Hok, Hm, Ho in Hfull.
  cbn [negb andb] in Hfull. destruct Hfull as [[Hord Hf]|[Hk Hf]].
  - apply andb_prop in Hord as [Hk [Hc%negb_true_iff Hn%negb_true_iff]%andb_prop].
    apply bool_decide_eq_true_1 in Hk. rewrite Hk, Hc. unfold allowsConcurrentNotification.
    cbn [concurrent_notifications set_router set_dispatch]. rewrite Hn. unfold enqueue_notification.
    cbn [quit limits ordered set_router set_dispatch]. rewrite Hq.
    destruct (enqueueNotification _ _ _ _) as [[] o]; [done| |done]. by rewrite Hdead.
  - rewrite Hk. unfold enqueue_request. cbn [quit limits ordered set_router set_dispatch]. rewrite Hq.
    destruct (enqueueRequest _ _ _ _) as [[] o]; [done|done|]. by rewrite Hdead.
Qed.
End Endpoint.

(** * Theorems *)


Definition demo_json (m : bytes) (id : option Z) : json :=
  JObject ([(lit "jsonrpc", JString (lit "2.0")); (lit "method", JString m)] ++
           match id with Some z => [(lit "id", JNumber z)] | None => [] end).

Definition demo_Parse (text : bytes) : (bytes * nat) + json :=
  if bool_decide (text = lit "n") then inr (demo_json (lit "n") None)
  else if bool_decide (text = lit "r") then inr (demo_json (lit "r") (Some 1%Z))
  else inl (lit "Invalid value.", 0).

Definition demo_message (k : Kind) (md : bytes) (j : json) : LspMessage :=
  mkMessage k md (reflect_id j) id_none None j.

Definition demo_handler : MessageJsonHandler :=
  mkJsonHandler {[lit "r" := fun j => inr (Some (demo_message REQUEST_MESSAGE (lit "r") j))]} ∅
    {[lit "n" := fun j => inr (Some (demo_message NOTIFICATION_MESSAGE (lit "n") j))]}.

(** The handler of requests sends two messages. *)
Definition demo_endpoint : GenericEndpoint unit :=
  mkEndpoint {[lit "r" := fun msg _ a => mkResult a [msg; msg] false (inr true)]} ∅
    {[lit "n" := fun _ _ a => mkResult a [] false (inr true)]}.

Lemma demo_handler_ok : parsers_ok demo_handler.
Proof.
  unfold parsers_ok, parseRequstMessage, parseResponseMessage, parseNotificationMessage, run_parser.
  cbn [method2request method2response method2notification demo_handler].
  split; [|split]; intros md j m.
  - destruct (decide (md = lit "r")) as [->|Hne]; [rewrite lookup_singleton_eq; by intros [= <-]|].
    by rewrite lookup_singleton_ne.
  - by rewrite lookup_empty.
  - destruct (decide (md = lit "n")) as [->|Hne]; [rewrite lookup_singleton_eq; by intros [= <-]|].
    by rewrite lookup_singleton_ne.
Qed.

Definition demo_init (l : RemoteEndPointLimits) : @Data unit := endpoint_init l 0 0 tt.
Definition demo_start (l : RemoteEndPointLimits) : @Data unit := startProcessingMessages false (demo_init l).

(** A session by a list of moves: a text arrives, the [i]-th parse task runs,
    the [i]-th handler task starts, the [i]-th handler sends, the notification
    thread or the [i]-th detached one goes on. *)
Inductive move := Arrive (text : bytes) | ParseTask (i : nat) | Begin (i : nat) | Send (i : nat)
  | Notifier | Detached (i : nat).

Definition demo_move (mv : move) (st : @Data unit * list bytes) : option (@Data unit * list bytes) :=
  let '(d, w) := st in
  let p := pools d in
  match mv with
  | Arrive t => if keep_running d then (fun d' => (d', w ++ [t])) <$> on_message t d else None
  | ParseTask i =>
      match parse_tasks p !! i with
      | Some (t, s) =>
          if pools_stopped p then None
          else (fun d' => (d', w)) <$> run_parse_task demo_Parse demo_handler t s
            (set_pools d (mkPools (pools_exist p) false (delete i (parse_tasks p)) (handler_tasks p)
                            (parse_queue_size p)))
      | None => None
      end
  | Begin i =>
      match handler_tasks p !! i with
      | Some t =>
          if pools_stopped p then None
          else Some (begin_task demo_endpoint t
            (set_pools d (mkPools (pools_exist p) false (parse_tasks p) (delete i (handler_tasks p))
                            (parse_queue_size p))), w)
      | None => None
      end
  | Send i =>
      match flights d !! i with
      | Some f =>
          match fl_sends f with
          | msg :: rest => Some (set_flights (send_next f msg rest d).2
                                   (<[i := (send_next f msg rest d).1]> (flights d)), w)
          | [] => None
          end
      | None => None
      end
  | Notifier =>
      (fun r => (set_current r.2 r.1, w)) <$> notifier_step demo_endpoint (current d) d
  | Detached i =>
      match detached d !! i with
      | Some n => (fun r => (set_detached r.2 (<[i := r.1]> (detached d)), w)) <$> notifier_step demo_endpoint n d
      | None => None
      end
  end.

Definition demo_rstep := rstep demo_Parse demo_handler demo_endpoint.
Definition demo_lstep := lstep demo_Parse demo_handler demo_endpoint.

Definition demo_run (mvs : list move) (st : @Data unit * list bytes) : option (@Data unit * list bytes) :=
  foldl (fun o mv => o ≫= demo_move mv) (Some st) mvs.

Lemma demo_move_rstep mv st st' : demo_move mv st = Some st' -> demo_rstep st st'.
Proof.
  destruct st as [d w]. destruct mv as [t|i|i|i| |i]; cbn [demo_move].
  - destruct (keep_running d) eqn:Ek; [|done]. intros (d' & E & ->)%fmap_Some. by apply r_arrive.
  - destruct (parse_tasks (pools d) !! i) as [[t s]|] eqn:Ei; [|done].
    destruct (pools_stopped (pools d)) eqn:Es; [done|]. intros (d' & E & ->)%fmap_Some.
    eapply r_parse; [by apply delete_Permutation|done|exact E].
  - destruct (handler_tasks (pools d) !! i) as [t|] eqn:Ei; [|done].
    destruct (pools_stopped (pools d)) eqn:Es; [done|]. intros [= <-].
    apply r_begin; [by apply delete_Permutation|done].
  - destruct (flights d !! i) as [f|] eqn:Ei; [|done]. destruct (fl_sends f) as [|msg rest] eqn:Es; [done|].
    intros [= <-]. by apply r_flight_send.
  - intros ([n d'] & E & ->)%fmap_Some. by apply r_notifier.
  - destruct (detached d !! i) as [n|] eqn:Ei; [|done]. intros ([n' d'] & E & ->)%fmap_Some.
    by eapply r_detached.
Qed.

Lemma demo_run_rtc mvs st st' : demo_run mvs st = Some st' -> rtc demo_rstep st st'.
Proof.
  unfold demo_run. revert st. induction mvs as [|mv mvs IH]; intros st; cbn; [intros [= <-]; apply rtc_refl|].
  destruct (demo_move mv st) as [st1|] eqn:E.
  - intros H. eapply rtc_l; [by eapply demo_move_rstep|by apply IH].
  - clear. induction mvs as [|mv' mvs IH]; [done|exact IH].
Qed.

Lemma demo_run_lrtc mvs st st' : demo_run mvs st = Some st' -> rtc demo_lstep st st'.
Proof. intros H%demo_run_rtc. induction H; [apply rtc_refl|]. eapply rtc_l; [by apply l_session|done]. Qed.

(** Two sessions: the first one is stopped while its handlers run. *)
Definition stopped_run (l : RemoteEndPointLimits) (mvs : list move) : option (@Data unit) :=
  demo_run mvs (demo_start l, []) ≫= fun st => stop st.1.

Definition no_limits : RemoteEndPointLimits := mkLimits 0 0 0 0 0 StopProcessing.

Definition restarted (first second : list move) : option (@Data unit * list bytes) :=
  stopped_run no_limits first ≫= fun d => demo_run second (startProcessingMessages false d, []).

Lemma restarted_lrtc first second st :
  restarted first second = Some st -> rtc demo_lstep (demo_init no_limits, []) st.
Proof.
  unfold restarted, stopped_run. intros (d & (st1 & E1 & E2)%bind_Some & E3)%bind_Some.
  destruct st1 as [d1 w1]. eapply rtc_l; [apply (l_start _ _ _ false)|].
  etrans; [by apply (demo_run_lrtc _ _ _ E1)|].
  eapply rtc_l; [by apply l_stop|]. eapply rtc_l; [apply (l_start _ _ _ false)|]. by eapply demo_run_lrtc.
Qed.

(** The request is parsed before the notification that precedes it, and is
    parked until the notification is finished. *)
Definition demo_script : list move :=
  [Arrive (lit "n"); Arrive (lit "r"); ParseTask 1; ParseTask 0; Notifier; Notifier; Notifier].

Definition demo_request : LspMessage := demo_message REQUEST_MESSAGE (lit "r") (demo_json (lit "r") (Some 1%Z)).

(** With a queue for one notification and [DropNewest], the second of three
    messages is dropped and the request behind it waits for the first one. *)
Definition one_notification : RemoteEndPointLimits := mkLimits 0 0 1 0 0 DropNewest.
Definition demo_dropping : list move :=
  [Arrive (lit "n"); Arrive (lit "n"); Arrive (lit "r"); ParseTask 0; ParseTask 0; ParseTask 0;
   Notifier; Notifier; Notifier].


(** A handler on the notification thread may call [stop], which detaches the
    thread, and the endpoint may be started again before the handler returns.
    The detached thread then goes back to [notificationLoop] and takes
    notifications of the new session beside the new thread.  When it finishes
    a later one first, requests are released although an earlier notification
    is still being handled. *)
Theorem detached_thread_breaks_order :
  exists d w, rtc demo_lstep (demo_init no_limits, []) (d, w) /\
    w = [lit "n"; lit "n"; lit "r"] /\ RunMain demo_request 3 2 None ∈ handler_tasks (pools d) /\
    ordered_notification demo_Parse demo_handler (concurrent_notifications d) (lit "n") = true /\
    1%N ∉ handled d /\ dropped d = [].
Proof.
  set (first := [Arrive (lit "n"); ParseTask 0; Notifier; Notifier]).
  set (second := [Arrive (lit "n"); Arrive (lit "n"); Arrive (lit "r"); ParseTask 0; ParseTask 0; ParseTask 0;
    Notifier; Notifier; Detached 0; Detached 0; Detached 0; Detached 0]).
  assert (Hobs : (fun st => (handler_tasks (pools st.1), handled st.1, dropped st.1, st.2,
      concurrent_notifications st.1)) <$> restarted first second =
    Some ([RunMain demo_request 3 2 None], [0%N; 2%N], [], [lit "n"; lit "n"; lit "r"], ∅))
    by (vm_compute; reflexivity).
  apply fmap_Some in Hobs as ([d w] & E & Hobs). cbn [fst snd] in Hobs. injection Hobs as Ht Hh Hd Hw Hc.
  exists d, w. split; [by eapply restarted_lrtc|]. clear E. split; [done|]. split; [rewrite <- Ht; by left|].
  split; [rewrite <- Hc; reflexivity|]. rewrite <- Hh. split; [|done].
  apply (bool_decide_unpack _). vm_compute. exact I.
Qed.

(** C13. Once a session is stopped, nothing is ever written to its output
    again, although handlers that were started before [stop] go on, on
    workers and on the notification thread, and send what they have to send
    with the session they captured: after [stop], whatever the endpoint does
    next (these handlers, further sends, a restart on a new stream), the
    messages sent in the stopped session remain those sent before. *)
Theorem stopped_session_silent {A : Type} (Parse : bytes -> (bytes * nat) + json)
    (jsonHandler : MessageJsonHandler) (local_endpoint : GenericEndpoint A)
    (d d1 d2 : @Data A) (w w2 : list bytes) (s : SessionOutputState) :
  working d = true -> sessions d !! session_id d = Some s -> stop d = Some d1 ->
  rtc (lstep Parse jsonHandler local_endpoint) (d1, w) (d2, w2) ->
  exists s2, sessions d2 !! session_id d = Some s2 /\ active s2 = false /\ sent s2 = sent s.
Proof.
  intros Hw Hs Hstop Hrun.
  assert (H1 : exists s1, sessions d1 !! session_id d = Some s1 /\ active s1 = false /\ sent s1 = sent s).
  { unfold stop, clear, lock_dispatch in Hstop. rewrite Hw in Hstop. cbn in Hstop.
    destruct (dispatch_locked d); [done|]. injection Hstop as <-.
    exists (stop_output s). cbn. by rewrite list_lookup_alter_eq, Hs. }
  destruct H1 as (s1 & Hs1 & Ha1 & E1).
  destruct (g_kept _ _ (grow_steps _ _ _ _ _ Hrun) _ _ Hs1 Ha1) as (s2 & ? & ? & ?).
  exists s2. split; [done|]. split; [done|]. congruence.
Qed.

(** The handler of a request has sent one of its two messages when [stop] is
    called; the endpoint is started again, and the handler sends the second
    one, in the session it captured. *)
Lemma stopped_session_silent_witness :
  exists d d1 d2 w s2,
    demo_run [Arrive (lit "r"); ParseTask 0; Begin 0; Send 0] (demo_start no_limits, []) = Some (d, w) /\
    stop d = Some d1 /\ demo_run [Send 0] (startProcessingMessages false d1, []) = Some (d2, []) /\
    map fl_sends (flights d1) = [[demo_request]] /\ map fl_sends (flights d2) = [[]] /\
    sessions d2 !! 1 = Some s2 /\ sent s2 = [demo_request].
Proof.
  set (mvs := [Arrive (lit "r"); ParseTask 0; Begin 0; Send 0]).
  assert (Hobs : (demo_run mvs (demo_start no_limits, []) ≫= fun st => stop st.1 ≫= fun d1 =>
      demo_run [Send 0] (startProcessingMessages false d1, []) ≫= fun st2 =>
      Some (working st.1, session_id st.1, sessions st.1 !! 1, map fl_sends (flights d1),
            map fl_sends (flights st2.1), st2.2)) =
    Some (true, 1, Some (mkSessionOutput true true false [demo_request]), [[demo_request]], [[]], []))
    by (vm_compute; reflexivity).
  apply bind_Some in Hobs as ([d w] & E & Hobs). apply bind_Some in Hobs as (d1 & E1 & Hobs).
  apply bind_Some in Hobs as ([d2 w2] & E2 & Hobs). cbn [fst snd] in *. injection Hobs as Hw Hi Hs Hf1 Hf2 Hw2.
  destruct (stopped_session_silent demo_Parse demo_handler demo_endpoint d d1 d2 w w2
    (mkSessionOutput true true false [demo_request])) as (s2 & H1 & H2 & H3).
  - exact Hw.
  - rewrite Hi. exact Hs.
  - exact E1.
  - eapply rtc_l; [apply (l_start _ _ _ false)|]. by apply (demo_run_lrtc _ _ _ E2).
  - rewrite Hi in H1. rewrite Hw2 in E2. exists d, d1, d2, w, s2. repeat split; assumption.
Defined.

(** C26. [submitParsedMessage] keeps [route_dispatch_mutex] locked while it
    routes.  With the policy [StopProcessing], an ordered notification that
    finds the notification queue full, or a request that finds the queue of
    parked requests full, calls [stop] there, which locks the mutex again: the
    worker waits for itself, and [submit] has no result.  An overflow of the
    reorder buffer or of the parse queue stops the endpoint and returns, with
    the mutex free: these paths call [stop] without the mutex. *)
Theorem overload_while_routing_deadlocks {A : Type} (d : @Data A) (parsed : ParsedMessage) (msg : LspMessage)
    (s : N) (bypass : bool) (text : bytes) :
  dispatch_locked d = false -> working d = true -> quit d = false -> pools_exist (pools d) = true ->
  overload_policy (limits d) = StopProcessing ->
  (ok parsed = true -> message parsed = Some msg -> outgoing parsed = false ->
   (is_ordered (concurrent_notifications d) parsed = true /\
    (enqueueNotification (max_notification_queue_size (limits d)) (next_route_sequence (router d))
       (msg, session_id d) (ordered d)).1 = QueueOverload \/
    kind parsed = REQUEST_MESSAGE /\
    (enqueueRequest (max_parked_request_queue_size (limits d)) (next_route_sequence (router d))
       (msg, session_id d) (ordered d)).1 = ParkOverload) ->
   submit (next_route_sequence (router d)) parsed bypass d = None) /\
  (s <> next_route_sequence (router d) ->
   over_limit (max_reorder_buffer_size (limits d)) (size (reorder_buffer (router d))) = true ->
   exists d', submit s parsed false d = Some d' /\ working d' = false /\ dispatch_locked d' = false) /\
  (over_limit (max_parse_queue_size (limits d)) (parse_queue_size (pools d)) = true ->
   exists d', on_message text d = Some d' /\ working d' = false /\ dispatch_locked d' = false).
Proof.
  intros Hl Hw Hq He Hp. split; [|split].
  - intros Hok Hm Ho Hfull. by eapply submit_overload_blocks.
  - intros Hne Hov. by eapply submit_reorder_overload.
  - intros Ho. by apply arrival_over_limit_stops.
Qed.

Lemma overload_while_routing_deadlocks_witness :
  exists d w, demo_run [Arrive (lit "n"); ParseTask 0; Arrive (lit "n")]
      (demo_start (mkLimits 0 0 1 0 0 StopProcessing), []) = Some (d, w) /\
    submit (next_route_sequence (router d))
      (parseAndClassify demo_Parse demo_handler (fun _ => None) (lit "n")).1 false d = None.
Proof.
  assert (Hobs : (fun st => (dispatch_locked st.1, working st.1, quit st.1, pools_exist (pools st.1),
      overload_policy (limits st.1), concurrent_notifications st.1,
      (enqueueNotification (max_notification_queue_size (limits st.1)) (next_route_sequence (router st.1))
        (demo_message NOTIFICATION_MESSAGE (lit "n") (demo_json (lit "n") None), session_id st.1) (ordered st.1)).1))
      <$> demo_run [Arrive (lit "n"); ParseTask 0; Arrive (lit "n")]
            (demo_start (mkLimits 0 0 1 0 0 StopProcessing), []) =
    Some (false, true, false, true, StopProcessing, ∅, QueueOverload)) by (vm_compute; reflexivity).
  apply fmap_Some in Hobs as ([d w] & E & Hobs). cbn [fst snd] in Hobs. injection Hobs as Hl Hw Hq Hp Hpol Hc Hfull.
  exists d, w. split; [exact E|]. clear E.
  apply (overload_while_routing_deadlocks d (parseAndClassify demo_Parse demo_handler (fun _ => None) (lit "n")).1
    (demo_message NOTIFICATION_MESSAGE (lit "n") (demo_json (lit "n") None)) 0 false []);
    [done|done|done|done|done|reflexivity..|].
  left. rewrite <- Hc. split; [reflexivity|]. by rewrite <- Hfull.
Defined.

(** Slots of the parse queue are lost when a session stops: the counter
    of posted parse tasks survives [stop] and the next
    [startProcessingMessages], although the tasks it counts were abandoned
    with the old pool; with the configured maximum reached, the new session
    accepts no message at all. *)
Theorem parse_slots_lost_on_restart {A : Type} (d d1 : @Data A) (bad_output : bool) :
  working d = true -> dispatch_locked d = false -> stop d = Some d1 ->
  let d2 := startProcessingMessages bad_output d1 in
  parse_tasks (pools d2) = [] /\ parse_queue_size (pools d2) = parse_queue_size (pools d) /\
  (over_limit (max_parse_queue_size (limits d)) (parse_queue_size (pools d)) = true ->
   overload_policy (limits d) = StopProcessing ->
   forall text, exists d3, on_message text d2 = Some d3 /\ working d3 = false).
Proof.
  intros Hw Hl Hs d2. unfold stop, clear, lock_dispatch in Hs. rewrite Hw in Hs. cbn in Hs. rewrite Hl in Hs.
  injection Hs as <-. split; [done|]. split; [done|]. intros Ho Hp text.
  destruct (arrival_over_limit_stops text d2) as (d3 & ? & ? & _); [done..|]. by exists d3.
Qed.

Lemma parse_slots_lost_on_restart_witness :
  exists d w d1, demo_run [Arrive (lit "n")] (demo_start (mkLimits 1 0 0 0 0 StopProcessing), []) = Some (d, w) /\
    stop d = Some d1 /\
    exists d3, on_message (lit "n") (startProcessingMessages false d1) = Some d3 /\ working d3 = false.
Proof.
  destruct (demo_run [Arrive (lit "n")] (demo_start (mkLimits 1 0 0 0 0 StopProcessing), []))
    as [[d w]|] eqn:E; [|by vm_compute in E].
  destruct (stop d) as [d1|] eqn:E1; [|vm_compute in E; injection E as <- <-; by vm_compute in E1].
  exists d, w, d1. split; [done|]. split; [done|].
  apply (parse_slots_lost_on_restart d d1 false); [| |done| |];
    vm_compute in E; injection E as <- <-; reflexivity.
Defined.
