(* ===== verification/Traits.v ===== *)
(** * Types of handlers

    The template predicates of include/LibLsp/JsonRpc/traits.h and the
    conditions under which the compiler picks one of the overloads of
    [RemoteEndPoint::registerHandler] (RemoteEndPoint.h).  C++ types are
    described by the parts the predicates look at; [None] stands for a program
    that does not compile. *)
From S2P Require Import Prelude CppString.

(** ** Types *)

Inductive ctype :=
| Fundamental (name : bytes)
| Class (name : bytes)
| Future (T : ctype)              (** [lsp::future<T>] *)
| ResponseOrErrorOf (T : ctype)   (** [lsp::ResponseOrError<T>] *)
| Const (T : ctype)
| LRef (T : ctype)
| RRef (T : ctype).

#[export] Instance ctype_eq_dec : EqDecision ctype.
Proof. solve_decision. Defined.

Fixpoint remove_cv (t : ctype) : ctype := match t with Const t' => remove_cv t' | _ => t end.
(** [std::decay], for a type that is neither an array nor a function; a
    reference to a reference collapses, [const] of a reference is the
    reference *)
Fixpoint decay (t : ctype) : ctype := match t with Const t' | LRef t' | RRef t' => decay t' | _ => t end.

Lemma decay_idemp t : decay (decay t) = decay t.
Proof. by induction t. Qed.

(** The classes of the program with their direct bases, the last declared
    first: a base is declared before the class that derives from it. *)
Definition hierarchy := list (bytes * list bytes).

Fixpoint derives (h : hierarchy) (base c : bytes) : bool :=
  match h with
  | [] => false
  | (n, bases) :: earlier =>
      if bool_decide (n = c)
      then existsb (fun b => bool_decide (b = base) || derives earlier base b) bases
      else derives earlier base c
  end.

(** [std::is_base_of]: a class is a base of itself, an [int] is not *)
Definition is_base_of (h : hierarchy) (base t : ctype) : bool :=
  match remove_cv base, remove_cv t with
  | Class b, Class c => bool_decide (b = c) || derives h b c
  | Future a, Future b | ResponseOrErrorOf a, ResponseOrErrorOf b => bool_decide (a = b)
  | _, _ => false
  end.

(** ** Signatures *)

Record Signature := mkSignature { ret : ctype; parameters : list ctype }.
#[export] Instance Signature_eq_dec : EqDecision Signature.
Proof. solve_decision. Defined.

Definition parameter (n : nat) (s : Signature) : option ctype := parameters s !! n.
Definition parameter_count (s : Signature) : nat := length (parameters s).

(** [Functor call] is a class whose [operator()] is [call]; [NoCall] has none,
    or more than one *)
Inductive function_like :=
| FunctionPointer (R : ctype) (ARGS : list ctype)
| Method (R : ctype) (C : bytes) (ARGS : list ctype)
| ConstMethod (R : ctype) (C : bytes) (ARGS : list ctype)
| Functor (call : function_like)
| NoCall.

Fixpoint SignatureOf (F : function_like) : option Signature :=
  match F with
  | FunctionPointer R ARGS | Method R _ ARGS | ConstMethod R _ ARGS =>
      Some (mkSignature (decay R) (map decay ARGS))
  | Functor call => SignatureOf call
  | NoCall => None
  end.

Definition ParameterType (F : function_like) (n : nat) : option ctype := SignatureOf F ≫= parameter n.

(** [std::function<R(ARGS...)>] *)
Definition std_function (R : ctype) (ARGS : list ctype) : function_like :=
  Functor (ConstMethod R (lit "std::function") ARGS).

Definition HasSignature (F S : function_like) : option bool :=
  f ← SignatureOf F; s ← SignatureOf S; Some (bool_decide (f = s)).

(** ** Compatibility *)
Section Compatible.
Variable h : hierarchy.

Definition IsTypeOrDerived (BASE T : ctype) : bool :=
  is_base_of h BASE (decay T) || bool_decide (BASE = decay T).

Fixpoint EachIsTypeOrDerived (N : nat) (BASES TYPES : list ctype) : option bool :=
  match N with
  | 0 => Some true
  | S n =>
      base ← BASES !! n;
      type ← TYPES !! n;
      match n with
      | 0 => Some (IsTypeOrDerived base type)
      | _ => others_match ← EachIsTypeOrDerived n BASES TYPES; Some (IsTypeOrDerived base type && others_match)
      end
  end.

Definition CompatibleWith (F S : function_like) : option bool :=
  f ← SignatureOf F;
  s ← SignatureOf S;
  each ← EachIsTypeOrDerived (Nat.min (parameter_count s) (parameter_count f)) (parameters s) (parameters f);
  Some (bool_decide (parameter_count s = parameter_count f) && each).

(** What [EachIsTypeOrDerived] computes from the last element to the first *)
Lemma EachIsTypeOrDerived_spec (N : nat) (BASES TYPES : list ctype) :
  N <= length BASES -> N <= length TYPES ->
  EachIsTypeOrDerived N BASES TYPES =
    Some (forallb (fun p => IsTypeOrDerived p.1 p.2) (zip (take N BASES) (take N TYPES))).
Proof.
  induction N as [|n IH]; intros Hb Ht; [done|]. cbn [EachIsTypeOrDerived].
  destruct (lookup_lt_is_Some_2 BASES n) as [b Eb]; [lia|].
  destruct (lookup_lt_is_Some_2 TYPES n) as [t Et]; [lia|].
  rewrite Eb, Et. cbn [mbind option_bind].
  rewrite (take_S_r _ _ _ Eb), (take_S_r _ _ _ Et), zip_with_app by (rewrite !length_take; lia).
  rewrite forallb_app. cbn [zip_with forallb fst snd]. rewrite andb_true_r.
  destruct n as [|n]; [done|]. rewrite IH by lia. cbn [mbind option_bind]. by rewrite andb_comm.
Qed.

Lemma forallb_zip {A B} (P : A -> B -> bool) (l : list A) (k : list B) :
  length l = length k -> forallb (fun p => P p.1 p.2) (zip l k) = true <-> Forall2 (fun a b => P a b = true) l k.
Proof.
  revert k. induction l as [|a l IH]; intros [|b k] E; try done.
  injection E as E. rewrite Forall2_cons, <- IH by done. cbn. by rewrite andb_true_iff.
Qed.

(** [CompatibleWith] is decided by the signatures alone: equally many
    parameters, and each of [F]'s is, or derives from, the one of [S]. *)
Lemma CompatibleWith_spec (F S : function_like) f s :
  SignatureOf F = Some f -> SignatureOf S = Some s ->
  CompatibleWith F S = Some true <->
  Forall2 (fun base t => IsTypeOrDerived base t = true) (parameters s) (parameters f).
Proof.
  intros Hf Hs. unfold CompatibleWith, parameter_count. rewrite Hf, Hs. cbn [mbind option_bind].
  rewrite EachIsTypeOrDerived_spec by lia. cbn [mbind option_bind].
  destruct (decide (length (parameters s) = length (parameters f))) as [E|E].
  - rewrite bool_decide_eq_true_2, andb_true_l by done. rewrite <- E, Nat.min_id, firstn_all, E, firstn_all.
    rewrite <- (forallb_zip _ _ _ E). split; [by intros [= ->]|by intros ->].
  - rewrite bool_decide_eq_false_2 by done. split; [done|]. intros H%Forall2_length. done.
Qed.
End Compatible.

(** ** The overloads of [registerHandler] *)

Definition is_lsp_future (t : ctype) : bool := match t with Future _ => true | _ => false end.
Definition is_valid_async_request_return (t ResponseType : ctype) : bool :=
  match t with
  | Future ValueType =>
      bool_decide (ValueType = ResponseType) || bool_decide (ValueType = ResponseOrErrorOf ResponseType)
  | _ => false
  end.
Definition async_future_value (t : ctype) : option ctype := match t with Future V => Some V | _ => None end.

Definition handler_return_t (F : function_like) : option ctype := ret <$> SignatureOf F.
Definition async_handler_value_t (F : function_like) : option ctype := handler_return_t F ≫= async_future_value.

Definition RequestInMessage : ctype := Class (lit "RequestInMessage").
Definition NotificationInMessage : ctype := Class (lit "NotificationInMessage").
(** [using CancelMonitor = std::function<int()>] *)
Definition CancelMonitor : ctype := Class (lit "std::function<int()>").

Inductive overload :=
| SyncRequestHandler
| SyncRequestHandlerWithMonitor
| AsyncRequestHandler
| AsyncRequestHandlerWithMonitor
| NotificationHandler.
#[export] Instance overload_eq_dec : EqDecision overload.
Proof. solve_decision. Defined.
Definition overloads : list overload :=
  [SyncRequestHandler; SyncRequestHandlerWithMonitor; AsyncRequestHandler; AsyncRequestHandlerWithMonitor;
   NotificationHandler].

Section Overloads.
Variable h : hierarchy.
(** The member type [Response] of a class, if it has one *)
Variable Response : ctype -> option ctype.

Definition compatible (F S : function_like) : bool := default false (CompatibleWith h F S).

Definition EnableIfSyncRequestHandler (F : function_like) (r RequestType ResponseType : ctype) : bool :=
  negb (is_lsp_future r) &&
  compatible F (std_function (ResponseOrErrorOf ResponseType) [LRef (Const RequestType)]).
Definition EnableIfSyncRequestHandlerWithMonitor (F : function_like) (r RequestType ResponseType : ctype) : bool :=
  negb (is_lsp_future r) &&
  compatible F (std_function (ResponseOrErrorOf ResponseType) [LRef (Const RequestType); LRef (Const CancelMonitor)]).
Definition EnableIfAsyncRequestHandler (F : function_like) (r RequestType ResponseType : ctype) : bool :=
  is_valid_async_request_return r ResponseType &&
  compatible F (std_function (Future ResponseType) [LRef (Const RequestType)]).
Definition EnableIfAsyncRequestHandlerWithMonitor (F : function_like) (r RequestType ResponseType : ctype) : bool :=
  is_valid_async_request_return r ResponseType &&
  compatible F (std_function (Future ResponseType) [LRef (Const RequestType); LRef (Const CancelMonitor)]).

(** The overload takes part in the resolution for a handler of type [F] *)
Definition viable (F : function_like) (o : overload) : bool :=
  match handler_return_t F, ParameterType F 0 with
  | Some r, Some RequestType =>
      match o, Response RequestType with
      | NotificationHandler, _ => IsTypeOrDerived h NotificationInMessage RequestType
      | _, None => false
      | SyncRequestHandler, Some rsp => EnableIfSyncRequestHandler F r RequestType rsp
      | SyncRequestHandlerWithMonitor, Some rsp => EnableIfSyncRequestHandlerWithMonitor F r RequestType rsp
      | AsyncRequestHandler, Some rsp => EnableIfAsyncRequestHandler F r RequestType rsp
      | AsyncRequestHandlerWithMonitor, Some rsp => EnableIfAsyncRequestHandlerWithMonitor F r RequestType rsp
      end
  | _, _ => false
  end.

(** The call [registerHandler(handler)] compiles if one overload is left. *)
Definition registerHandler_overload (F : function_like) : option overload :=
  match filter (fun o => viable F o = true) overloads with [o] => Some o | _ => None end.

Lemma IsTypeOrDerived_refl t : IsTypeOrDerived h (decay t) (decay t) = true.
Proof. unfold IsTypeOrDerived. rewrite decay_idemp. by rewrite orb_true_iff, bool_decide_eq_true; right. Qed.

Lemma SignatureOf_decayed F s : SignatureOf F = Some s -> Forall (fun t => decay t = t) (parameters s).
Proof.
  induction F; cbn; intros Hs; try done; try (injection Hs as <-; cbn; apply Forall_fmap, Forall_true;
    intros t; apply decay_idemp). by apply IHF.
Qed.

Lemma compatible_spec (F : function_like) s R ARGS :
  SignatureOf F = Some s ->
  compatible F (std_function R ARGS) = true <->
  Forall2 (fun base t => IsTypeOrDerived h base t = true) (map decay ARGS) (parameters s).
Proof.
  intros Hs. rewrite <- (CompatibleWith_spec h F (std_function R ARGS) _ _ Hs eq_refl). unfold compatible.
  destruct (CompatibleWith h F (std_function R ARGS)) as [[]|]; naive_solver.
Qed.

(** One parameter, the request, or two, the request and the monitor *)
Lemma compatible_request (F : function_like) r P rest R :
  SignatureOf F = Some (mkSignature r (P :: rest)) ->
  (compatible F (std_function R [LRef (Const P)]) = true <-> rest = []) /\
  (compatible F (std_function R [LRef (Const P); LRef (Const CancelMonitor)]) = true <->
     exists m, rest = [m] /\ IsTypeOrDerived h CancelMonitor m = true).
Proof.
  intros Hs. pose proof (SignatureOf_decayed _ _ Hs) as Hd. cbn in Hd. apply Forall_cons in Hd as [Hp _].
  pose proof (IsTypeOrDerived_refl P) as Hr. rewrite Hp in Hr.
  split; rewrite (compatible_spec _ _ _ _ Hs); cbn [map decay parameters]; rewrite Hp, Forall2_cons.
  - split; [by intros [_ ->%Forall2_nil_inv_l]|by intros ->].
  - split.
    + intros [_ (m & k & Hm & ->%Forall2_nil_inv_l & ->)%Forall2_cons_inv_l]. by exists m.
    + intros (m & -> & Hm). split; [done|]. by repeat constructor.
Qed.

(** What a handler's type has to look like for each overload *)
Definition accepts (o : overload) (r P : ctype) (rest : list ctype) : Prop :=
  let monitor := exists m, rest = [m] /\ IsTypeOrDerived h CancelMonitor m = true in
  match o with
  | NotificationHandler => IsTypeOrDerived h NotificationInMessage P = true
  | SyncRequestHandler => is_Some (Response P) /\ is_lsp_future r = false /\ rest = []
  | SyncRequestHandlerWithMonitor => is_Some (Response P) /\ is_lsp_future r = false /\ monitor
  | AsyncRequestHandler =>
      exists rsp, Response P = Some rsp /\ (r = Future rsp \/ r = Future (ResponseOrErrorOf rsp)) /\ rest = []
  | AsyncRequestHandlerWithMonitor =>
      exists rsp, Response P = Some rsp /\ (r = Future rsp \/ r = Future (ResponseOrErrorOf rsp)) /\ monitor
  end.

Lemma async_return_spec t rsp :
  is_valid_async_request_return t rsp = true <-> t = Future rsp \/ t = Future (ResponseOrErrorOf rsp).
Proof.
  destruct t; cbn; try naive_solver. rewrite orb_true_iff, !bool_decide_eq_true. naive_solver.
Qed.

Lemma viable_spec (F : function_like) r P rest o :
  SignatureOf F = Some (mkSignature r (P :: rest)) -> viable F o = true <-> accepts o r P rest.
Proof.
  intros Hs. unfold viable, handler_return_t, ParameterType. rewrite Hs. cbn [fmap option_fmap option_map ret mbind
    option_bind parameter parameters lookup list_lookup].
  assert (Hc : forall R, (compatible F (std_function R [LRef (Const P)]) = true <-> rest = []) /\
    (compatible F (std_function R [LRef (Const P); LRef (Const CancelMonitor)]) = true <->
     exists m, rest = [m] /\ IsTypeOrDerived h CancelMonitor m = true))
    by (intros R; by apply compatible_request with r).
  unfold EnableIfSyncRequestHandler, EnableIfSyncRequestHandlerWithMonitor, EnableIfAsyncRequestHandler,
    EnableIfAsyncRequestHandlerWithMonitor.
  destruct o; [..|done]; cbn [accepts]; destruct (Response P) as [rsp|];
    try (split; [done|intros H; destruct H as [[? [=]] _] || destruct H as (? & [=] & _)]);
    rewrite andb_true_iff, ?negb_true_iff, ?async_return_spec;
    first [rewrite (proj1 (Hc _))|rewrite (proj2 (Hc _))]; naive_solver.
Qed.

Lemma viable_unique (F : function_like) (o1 o2 : overload) :
  (forall T, is_Some (Response T) -> IsTypeOrDerived h NotificationInMessage T = false) ->
  viable F o1 = true -> viable F o2 = true -> o1 = o2.
Proof.
  intros Hdis H1 H2.
  assert (Hs : exists r P rest, SignatureOf F = Some (mkSignature r (P :: rest))).
  { unfold viable, handler_return_t, ParameterType in H1. destruct (SignatureOf F) as [[r [|P rest]]|]; try done. eauto. }
  destruct Hs as (r & P & rest & Hs). rewrite (viable_spec _ _ _ _ _ Hs) in H1; rewrite (viable_spec _ _ _ _ _ Hs) in H2.
  specialize (Hdis P). rewrite <- not_true_iff_false in Hdis.
  destruct o1, o2; cbn [accepts] in *; destruct_and?; naive_solver.
Qed.

(** * Theorems *)

(** C38. Overload resolution for [registerHandler] is never ambiguous: whatever the
    type of a handler, at most one of the five overloads takes part, provided
    that no class is both a request (it has a [Response]) and a notification.
    So whether the handler gets a monitor, and whether its result is awaited,
    is a function of its type. *)
Theorem registerHandler_unambiguous (F : function_like) (o1 o2 : overload) :
  (forall T, is_Some (Response T) -> IsTypeOrDerived h NotificationInMessage T = false) ->
  viable F o1 = true -> viable F o2 = true -> o1 = o2.
Proof. apply viable_unique. Qed.

(** Which overload it is: *)
Theorem registerHandler_overload_spec (F : function_like) r P rest (o : overload) :
  (forall T, is_Some (Response T) -> IsTypeOrDerived h NotificationInMessage T = false) ->
  SignatureOf F = Some (mkSignature r (P :: rest)) ->
  registerHandler_overload F = Some o <-> accepts o r P rest.
Proof.
  intros Hdis Hs. rewrite <- (viable_spec _ _ _ _ _ Hs). unfold registerHandler_overload.
  assert (Hin : forall o, o ∈ filter (fun o => viable F o = true) overloads <-> viable F o = true).
  { intros o'. rewrite list_elem_of_filter. split; [by intros []|]. split; [done|].
    destruct o'; unfold overloads; set_solver. }
  assert (Hnd : NoDup (filter (fun o => viable F o = true) overloads)).
  { apply NoDup_filter. apply (bool_decide_unpack _). vm_compute. exact I. }
  rewrite <- Hin. destruct (filter _ overloads) as [|o1 [|o2 l]] eqn:E.
  - set_solver.
  - rewrite list_elem_of_singleton. naive_solver.
  - exfalso. assert (o1 = o2) by (apply (viable_unique F); [done|apply Hin; set_solver..]).
    subst. apply NoDup_cons in Hnd as [Hn _]. set_solver.
Qed.
End Overloads.

(** ** The classes of the library

    [lsRequest] and [lsNotificationInMessage] stand for their instances with
    the parameters of the two messages. *)

Definition library_classes : hierarchy :=
  [ (lit "Notify_Exit::notify", [lit "lsNotificationInMessage"]);
    (lit "td_hover::request", [lit "lsRequest"]);
    (lit "lsNotificationInMessage", [lit "NotificationInMessage"]);
    (lit "lsRequest", [lit "RequestInMessage"]);
    (lit "NotificationInMessage", [lit "LspMessage"]);
    (lit "RequestInMessage", [lit "LspMessage"]);
    (lit "LspMessage", []) ].
Definition hover_request : ctype := Class (lit "td_hover::request").
Definition hover_response : ctype := Class (lit "td_hover::response").
Definition library_Response (T : ctype) : option ctype :=
  if bool_decide (T = hover_request) then Some hover_response else None.

Lemma library_disjoint T :
  is_Some (library_Response T) -> IsTypeOrDerived library_classes NotificationInMessage T = false.
Proof. unfold library_Response. intros [? Ht]. case_bool_decide; [by subst|done]. Qed.

(** A lambda with the given parameters *)
Definition lambda (R : ctype) (ARGS : list ctype) : function_like := Functor (ConstMethod R (lit "lambda") ARGS).

Lemma registerHandler_unambiguous_witness :
  let handler := lambda (Future hover_response) [LRef (Const hover_request); LRef (Const CancelMonitor)] in
  viable library_classes library_Response handler AsyncRequestHandlerWithMonitor = true /\
  forall o, viable library_classes library_Response handler o = true -> o = AsyncRequestHandlerWithMonitor.
Proof.
  intros handler. split; [vm_compute; reflexivity|]. intros o Ho.
  apply (registerHandler_unambiguous library_classes library_Response handler);
    [apply library_disjoint|exact Ho|vm_compute; reflexivity].
Defined.

Example overloads_of_the_library :
  let select R ARGS := registerHandler_overload library_classes library_Response (lambda R ARGS) in
  select (ResponseOrErrorOf hover_response) [LRef (Const hover_request)] = Some SyncRequestHandler /\
  select hover_response [LRef (Const hover_request); LRef (Const CancelMonitor)] = Some SyncRequestHandlerWithMonitor /\
  select (Future (ResponseOrErrorOf hover_response)) [LRef (Const hover_request)] = Some AsyncRequestHandler /\
  select (Fundamental (lit "void")) [LRef (Class (lit "Notify_Exit::notify"))] = Some NotificationHandler /\
  select (Future (Class (lit "td_rename::response"))) [LRef (Const hover_request)] = None.
Proof. vm_compute. done. Qed.

(** [CompatibleWith<F, S>] is documented as "[F] can be called with the
    argument types of [S]" but asks for the converse relation of the
    parameters: a function that takes a [RequestInMessage] can be called with
    a [td_hover::request] and is rejected, one that takes a
    [td_hover::request] cannot be called with a [RequestInMessage] and is
    accepted. *)
Theorem CompatibleWith_reversed :
  let takes T := lambda (Fundamental (lit "void")) [LRef (Const T)] in
  CompatibleWith library_classes (takes RequestInMessage) (takes hover_request) = Some false /\
  CompatibleWith library_classes (takes hover_request) (takes RequestInMessage) = Some true.
Proof. vm_compute. done. Qed.
