(* ===== verification/Handlers.v ===== *)
(** * Typed handlers, futures and the completion of asynchronous requests

    The templates of include/LibLsp/JsonRpc/RemoteEndPoint.h that wrap an
    application's handlers and its outgoing requests, with the promises of
    Future.v, the [Condition] of Condition.h, and
    [asyncCompletionLoop] of src/jsonrpc/RemoteEndPoint.cpp.  The C++ types of
    requests and responses are application code: a response is a message
    whose content the application fills in. *)
From S2P Require Import Prelude CppString Json RequestId Framing Future Message Envelope Cancellation Reorder Ordered Pending RemoteEndPoint.
From stdpp Require Import relations.

(** ** Results of handlers *)

(** [ResponseOrError]: either part is a message without its id *)
Record ResponseOrError := mkResponseOrError {
  response : LspMessage;
  rsp_error : LspMessage;
  is_error : bool
}.

(** Its constructors.  [T()] and [Rsp_Error()] are given, the latter because
    the constructor leaves the error code indeterminate. *)
Section ResponseOrError.
Variable new_response new_error : LspMessage.

Definition of_nothing : ResponseOrError := mkResponseOrError new_response new_error false.
Definition of_response (resp : LspMessage) : ResponseOrError := mkResponseOrError resp new_error false.
Definition of_error (err : LspMessage) : ResponseOrError := mkResponseOrError new_response err true.
Definition copy_of (other : ResponseOrError) : ResponseOrError :=
  mkResponseOrError (response other) (rsp_error other) (is_error other).
(** The move constructor: the new object, and what is left of the other one;
    [moved] is what [std::move] leaves of a message *)
Definition move_of (moved : LspMessage -> LspMessage) (other : ResponseOrError) : ResponseOrError * ResponseOrError :=
  (mkResponseOrError (response other) (rsp_error other) (is_error other),
   mkResponseOrError (moved (response other)) (moved (rsp_error other)) (is_error other)).
(** The assignments *)
Definition assign (self other : ResponseOrError) : ResponseOrError :=
  mkResponseOrError (response other) (rsp_error other) (is_error other).

(** What a handler returns, by its type *)
Inductive returned_value :=
| RetResponseOrError (r : ResponseOrError)
| RetResponse (m : LspMessage)
| RetError (e : LspMessage).

Definition normalizeHandlerResult (v : returned_value) : ResponseOrError :=
  match v with
  | RetResponseOrError r => r
  | RetResponse m => of_response m
  | RetError e => of_error e
  end.
End ResponseOrError.

(** How a call of an application's handler ends *)
Inductive handler_outcome :=
| Value (r : ResponseOrError)
| ThrewRequestError (code : Z) (message : bytes)
| ThrewException (what : bytes)
| ThrewOther.

(** A response message with its [id] set *)
Definition with_id (id : lsRequestId) (m : LspMessage) : LspMessage :=
  mkMessage RESPONCE_MESSAGE (GetMethodType m) id (params_id m) (error m) (content m).

(** [lsp::toRspError] *)
Definition toRspError (id : lsRequestId) (code : Z) (message : bytes) : LspMessage :=
  makeErrorMessage id code message.

(** The message that [sendHandlerResult] (and [sendAsyncHandlerResult]) sends *)
Definition handler_result_message (id : lsRequestId) (res : ResponseOrError) : LspMessage :=
  if is_error res then with_id id (rsp_error res) else with_id id (response res).

(** Whatever a handler returns, it is the message it returned that is sent. *)
Lemma handler_result_normalized new_response new_error id v :
  handler_result_message id (normalizeHandlerResult new_response new_error v) =
  with_id id (match v with
              | RetResponseOrError r => if is_error r then rsp_error r else response r
              | RetResponse m => m
              | RetError e => e
              end).
Proof. destruct v as [r| |]; try done. cbn. unfold handler_result_message. by destruct (is_error r). Qed.

(** The message of [sendInternalError] *)
Definition internal_error (id : lsRequestId) (message : bytes) : LspMessage :=
  makeErrorMessage id InternalError message.

(** The [try] and [catch] of the wrappers *)
Definition reply (id : lsRequestId) (o : handler_outcome) : LspMessage :=
  match o with
  | Value r => handler_result_message id r
  | ThrewRequestError code message => toRspError id code message
  | ThrewException what => internal_error id (c_str what)
  | ThrewOther => internal_error id (lit "Unhandled exception.")
  end.

Lemma reply_id id o : msg_id (reply id o) = id /\ GetKid (reply id o) = RESPONCE_MESSAGE.
Proof. destruct o as [r| | |]; try done. unfold reply, handler_result_message. by destruct (is_error r). Qed.

(** ** Registration *)
Section Registration.
Context {A : Type}.

(** An application's handler: the new state, the messages it sends itself,
    how it ends *)
Definition sync_handler := LspMessage -> A -> A * list LspMessage * handler_outcome.
Definition sync_handler_monitor := LspMessage -> bool -> A -> A * list LspMessage * handler_outcome.

(** The lambda that [registerSyncRequestHandlerWithMonitor] registers *)
Definition wrap_sync_monitor (f : sync_handler_monitor) : handler A := fun msg cancelled app =>
  let '(app', own, o) := f msg cancelled app in
  mkResult app' (own ++ [reply (msg_id msg) o]) false (inr true).

(** and that of [registerSyncRequestHandler] *)
Definition wrap_sync (f : sync_handler) : handler A := wrap_sync_monitor (fun msg _ app => f msg app).

(** The lambda of [registerHandler] for a notification; an exception leaves it *)
Definition wrap_notify (f : LspMessage -> A -> A * list LspMessage * option bytes) : handler A :=
  fun msg _ app =>
    let '(app', own, thrown) := f msg app in
    mkResult app' own false (match thrown with Some e => inl e | None => inr true end).

(** What the endpoint holds of registrations *)
Record Registry := mkRegistry { json_handler : MessageJsonHandler; local : GenericEndpoint A }.

(** [registerRequestJsonHandlerIfMissing] *)
Definition registerRequestJsonHandlerIfMissing (method : bytes) (p : parser) (h : MessageJsonHandler) :=
  match method2request h !! method with
  | Some _ => h
  | None => SetRequestJsonHandler method p h
  end.

(** [registerHandler] for a request; [started] is the state that
    [canRegisterBeforeStart] tests *)
Definition register_request (started : bool) (method : bytes) (p : parser) (h : handler A) (r : Registry)
    : bool * Registry :=
  if started then (false, r)
  else (true, mkRegistry (registerRequestJsonHandlerIfMissing method p (json_handler r))
                (mkEndpoint (<[method := h]> (requests (local r))) (responses (local r))
                   (notifications (local r)))).

(** [registerHandler] for a notification *)
Definition register_notification (started : bool) (method : bytes) (p : parser) (h : handler A)
    (r : Registry) : bool * Registry :=
  if started then (false, r)
  else (true, mkRegistry
                (match method2notification (json_handler r) !! method with
                 | Some _ => json_handler r
                 | None => SetNotificationJsonHandler method p (json_handler r)
                 end)
                (mkEndpoint (requests (local r)) (responses (local r))
                   (<[method := h]> (notifications (local r))))).

(** [overrideRequestParser] and [overrideResponseParser] *)
Definition overrideRequestParser (started : bool) (method : bytes) (p : parser) (r : Registry) : bool * Registry :=
  if started then (false, r) else (true, mkRegistry (SetRequestJsonHandler method p (json_handler r)) (local r)).
Definition overrideResponseParser (started : bool) (method : bytes) (p : parser) (r : Registry) : bool * Registry :=
  if started then (false, r) else (true, mkRegistry (SetResponseJsonHandler method p (json_handler r)) (local r)).

Definition registerResponseJsonHandler (method : bytes) (p : parser) (h : MessageJsonHandler) :=
  match method2response h !! method with
  | Some _ => h
  | None => SetResponseJsonHandler method p h
  end.

Definition ensureResponseJsonHandler (started : bool) (method : bytes) (p : parser) (r : Registry)
    : bool * Registry :=
  match method2response (json_handler r) !! method with
  | Some _ => (true, r)
  | None =>
      if started then (false, r)
      else (true, mkRegistry (registerResponseJsonHandler method p (json_handler r)) (local r))
  end.

(** A handler registered before the start is the one a request of its method
    reaches, with the parser that was registered first; after the start
    nothing changes. *)
Lemma register_request_spec method p h r msg cancelled app j :
  GetMethodType msg = method ->
  let r' := (register_request false method p h r).2 in
  (register_request true method p h r).2 = r /\
  onRequest (local r') msg cancelled app = (h msg cancelled app, []) /\
  parseRequstMessage (json_handler r') method j =
    match method2request (json_handler r) !! method with Some q => q j | None => p j end.
Proof.
  intros Hm r'. subst r' method. split; [done|]. unfold register_request. cbn [snd local json_handler]. split.
  - unfold onRequest, run_handler. cbn [requests]. by rewrite lookup_insert_eq.
  - unfold registerRequestJsonHandlerIfMissing.
    destruct (method2request (json_handler r) !! GetMethodType msg) as [q|] eqn:E.
    + unfold parseRequstMessage, run_parser.
      by use_entry E.
    + unfold SetRequestJsonHandler, parseRequstMessage, run_parser. cbn [method2request].
      by rewrite lookup_insert_eq.
Qed.

End Registration.
Arguments Registry A : clear implicits.

(** ** A synchronous request is answered once *)
Section Answer.
Context {A : Type}.

Abbreviation write_all := (fold_left (fun s m => write_to m s)).

Lemma list_alter_id {B} (l : list B) i : alter (fun x => x) i l = l.
Proof. revert i. induction l as [|x l IH]; intros [|i]; cbn; [done..|]. f_equal. apply IH. Qed.

Lemma list_alter_alter {B} (f g : B -> B) (l : list B) i :
  alter f i (alter g i l) = alter (fun x => f (g x)) i l.
Proof. revert i. induction l as [|x l IH]; intros [|i]; cbn; [done..|]. f_equal. apply IH. Qed.

Lemma send_all_sessions state msgs (d : Data (A := A)) :
  sessions (send_all state msgs d) = alter (write_all msgs) state (sessions d).
Proof.
  revert d. induction msgs as [|m msgs IH]; intros d; cbn [fold_left].
  - by rewrite list_alter_id.
  - unfold send_all in *. cbn [fold_left]. rewrite IH. unfold sendSessionMessage. cbn [set_sessions sessions].
    by rewrite list_alter_alter.
Qed.

Lemma send_all_app state msgs (d : Data (A := A)) : RemoteEndPoint.app (send_all state msgs d) = RemoteEndPoint.app d.
Proof. unfold send_all. revert d. induction msgs as [|m msgs IH]; intros d; [done|]. cbn [fold_left]. by rewrite IH. Qed.

Lemma write_all_sent msgs s :
  active s = true -> has_output s = true -> out_bad s = false ->
  write_all msgs s = mkSessionOutput true true false (RemoteEndPoint.sent s ++ msgs).
Proof.
  revert s. induction msgs as [|m msgs IH]; intros [a o b l]; cbn; intros -> -> ->.
  - by rewrite app_nil_r.
  - rewrite IH by done. cbn. by rewrite <- app_assoc.
Qed.

(** The value of the request's cancel monitor when its handler starts *)
Definition cancelled_at_start (msg : LspMessage) (sequence : N) (state : nat) (d : Data (A := A)) : bool :=
  let '(ctx, _, c) := cancelableRequestContext (msg_id msg) sequence [SessionEntry state] (RemoteEndPoint.cancel d) in
  isCancellationRequested (getCancelledMonitor (msg_id msg) ctx) (flags c).

(** What a registered synchronous handler does in [mainLoop]: its own messages
    and its reply go to the session of the request. *)
Lemma sync_answer (e : GenericEndpoint A) (f : sync_handler_monitor (A := A))
    (msg : LspMessage) (sequence : N) (state : nat) (pd : option nat) (d : Data (A := A))
    (s : SessionOutputState) :
  quit d = false -> GetKid msg = REQUEST_MESSAGE ->
  requests e !! GetMethodType msg = Some (wrap_sync_monitor f) ->
  sessions d !! state = Some s -> active s = true -> has_output s = true -> out_bad s = false ->
  let '(app', own, o) := f msg (cancelled_at_start msg sequence state d) (RemoteEndPoint.app d) in
  exists d', mainLoop e msg sequence state pd d = (None, d') /\ RemoteEndPoint.app d' = app' /\
    sessions d' = <[state := mkSessionOutput true true false
      (RemoteEndPoint.sent s ++ own ++ [reply (msg_id msg) o])]> (sessions d).
Proof.
  intros Hq Hk He Hs Ha Ho Hb. unfold mainLoop, cancelled_at_start. rewrite Hq, Hk. unfold main_request.
  destruct (cancelableRequestContext _ _ _ _) as [[ctx cookie] c].
  unfold onRequest, run_handler. use_entry He. unfold wrap_sync_monitor.
  set (cancelled := isCancellationRequested _ _).
  change (RemoteEndPoint.app (set_cancel d c)) with (RemoteEndPoint.app d).
  destruct (f msg cancelled (RemoteEndPoint.app d)) as [[app' own] o]. cbn [sent_messages new_app retains outcome fst snd].
  eexists. split; [done|]. split; [cbn [set_cancel RemoteEndPoint.app]; by rewrite send_all_app|].
  cbn [set_cancel sessions]. rewrite send_all_sessions. cbn [add_logs set_app set_cancel sessions].
  apply list_eq. intros j. destruct (decide (j = state)) as [->|Hj].
  - rewrite list_lookup_alter_eq, Hs. cbn. rewrite write_all_sent by done.
    rewrite list_lookup_insert_eq; [done|]. by eapply lookup_lt_Some.
  - by rewrite list_lookup_alter_ne, list_lookup_insert_ne by done.
Qed.

(** C27. A request for which a synchronous handler is registered, run on a worker
    of a live session: the session gets the messages that the handler sends
    itself, in their order, and after them one message more and nothing else,
    the response with the request's id: the response or the error that the
    handler returned, the error it threw, or an internal error with the text
    of any other exception.  The application has the handler's new state,
    nothing is written to another session and no exception leaves the wrapper. *)
Theorem sync_request_answered_once (e : GenericEndpoint A) (f : sync_handler_monitor (A := A))
    (msg : LspMessage) (sequence : N) (state : nat) (pd : option nat) (d : Data (A := A))
    (s : SessionOutputState) :
  quit d = false -> GetKid msg = REQUEST_MESSAGE ->
  requests e !! GetMethodType msg = Some (wrap_sync_monitor f) ->
  sessions d !! state = Some s -> active s = true -> has_output s = true -> out_bad s = false ->
  let '(app', own, o) := f msg (cancelled_at_start msg sequence state d) (RemoteEndPoint.app d) in
  exists r d', mainLoop e msg sequence state pd d = (None, d') /\ RemoteEndPoint.app d' = app' /\
    sessions d' = <[state := mkSessionOutput true true false (RemoteEndPoint.sent s ++ own ++ [r])]> (sessions d) /\
    msg_id r = msg_id msg /\ GetKid r = RESPONCE_MESSAGE /\
    match o with
    | Value v => let m := if is_error v then rsp_error v else response v in
                 content r = content m /\ error r = error m
    | ThrewRequestError code text => r = makeErrorMessage (msg_id msg) code text
    | ThrewException what => r = makeErrorMessage (msg_id msg) InternalError (c_str what)
    | ThrewOther => r = makeErrorMessage (msg_id msg) InternalError (lit "Unhandled exception.")
    end.
Proof.
  intros Hq Hk He Hs Ha Ho Hb.
  pose proof (sync_answer e f msg sequence state pd d s Hq Hk He Hs Ha Ho Hb) as H.
  destruct (f _ _ _) as [[app' own] o]. destruct H as (d' & H1 & H2 & H3).
  destruct (reply_id (msg_id msg) o) as [Hi Hr]. exists (reply (msg_id msg) o), d'. split_and!; try done.
  destruct o as [v| | |]; try done. unfold reply, handler_result_message. by destruct (is_error v).
Qed.

End Answer.

(** ** Asynchronous handlers *)

(** What [completeAsyncHandler] captures: the request's id, the future (an
    index into the promises), the session of the request *)
Record completion := mkCompletion { c_id : lsRequestId; c_future : nat; c_session : nat }.

(** The closure that [completeAsyncHandler] posts: [None] while the future
    has no value (the closure returns [false]) *)
Definition run_completion (promises : list (promise_state handler_outcome)) (c : completion)
    : option (nat * LspMessage) :=
  match promises !! c_future c ≫= future_get with
  | None => None
  | Some o => Some (c_session c, reply (c_id c) o)
  end.

(** The state of the loop: [running] is the completion the thread has taken
    from the deque; [answers] what it has passed to [sendSessionMessage] *)
Record AsyncLoop := mkLoop {
  async_completions : list completion;
  async_completion_stop : bool;
  loop_running : option completion;
  pending_streak : nat;
  back_offs : nat;               (** how often the thread has waited 10 ms *)
  promises : list (promise_state handler_outcome);
  answers : list (nat * LspMessage)
}.

Definition loop_init : AsyncLoop := mkLoop [] false None 0 0 [] [].

(** [postAsyncCompletion]; [quitting] is the endpoint's flag *)
Definition postAsyncCompletion (quitting : bool) (c : completion) (s : AsyncLoop) : AsyncLoop :=
  if async_completion_stop s || quitting then s
  else mkLoop (async_completions s ++ [c]) (async_completion_stop s) (loop_running s) (pending_streak s)
         (back_offs s) (promises s) (answers s).

(** [completeAsyncHandler] with a new promise, whose owner will set it *)
Definition completeAsyncHandler (quitting : bool) (id : lsRequestId) (session : nat) (s : AsyncLoop)
    : AsyncLoop :=
  let f := length (promises s) in
  postAsyncCompletion quitting (mkCompletion id f session)
    (mkLoop (async_completions s) (async_completion_stop s) (loop_running s) (pending_streak s)
       (back_offs s) (promises s ++ [None]) (answers s)).

(** The application fulfils a promise *)
Definition fulfil (f : nat) (o : handler_outcome) (s : AsyncLoop) : AsyncLoop :=
  mkLoop (async_completions s) (async_completion_stop s) (loop_running s) (pending_streak s)
    (back_offs s) (alter (set_value o) f (promises s)) (answers s).

(** First half of a round: wait, back off after a pass without progress, take
    the front; [None]: the thread sleeps or has returned *)
Definition loop_take (s : AsyncLoop) : option AsyncLoop :=
  if async_completion_stop s then None
  else match loop_running s, async_completions s with
       | None, c :: rest =>
           let wait := length (async_completions s) <=? pending_streak s in
           Some (mkLoop rest false (Some c) (if wait then 0 else pending_streak s)
                   (if wait then S (back_offs s) else back_offs s) (promises s) (answers s))
       | _, _ => None
       end.

(** Second half: run it; if it is not complete, put it back *)
Definition loop_finish (s : AsyncLoop) : option AsyncLoop :=
  match loop_running s with
  | None => None
  | Some c =>
      match run_completion (promises s) c with
      | Some a => Some (mkLoop (async_completions s) (async_completion_stop s) None 0 (back_offs s)
                          (promises s) (answers s ++ [a]))
      | None =>
          if async_completion_stop s
          then Some (mkLoop (async_completions s) true None (pending_streak s) (back_offs s)
                       (promises s) (answers s))
          else Some (mkLoop (async_completions s ++ [c]) false None (S (pending_streak s)) (back_offs s)
                       (promises s) (answers s))
      end
  end.

(** [stopAsyncCompletionLoop] (the thread is then joined) *)
Definition stopAsyncCompletionLoop (s : AsyncLoop) : AsyncLoop :=
  mkLoop [] true (loop_running s) (pending_streak s) (back_offs s) (promises s) (answers s).

(** [startAsyncCompletionLoop] *)
Definition startAsyncCompletionLoop (s : AsyncLoop) : AsyncLoop :=
  mkLoop (async_completions s) false (loop_running s) 0 (back_offs s) (promises s) (answers s).

(** The steps; the first component is the history of the asynchronous
    requests accepted *)
Inductive astep : list completion * AsyncLoop -> list completion * AsyncLoop -> Prop :=
| a_post q id ses h s :
    astep (h, s)
      (if async_completion_stop s || q then h else h ++ [mkCompletion id (length (promises s)) ses],
       completeAsyncHandler q id ses s)
| a_fulfil f o h s : promises s !! f = Some None -> astep (h, s) (h, fulfil f o s)
| a_take h s s' : loop_take s = Some s' -> astep (h, s) (h, s')
| a_finish h s s' : loop_finish s = Some s' -> astep (h, s) (h, s')
| a_stop h s : astep (h, s) (h, stopAsyncCompletionLoop s).

(** The answer to a completion, for the outcome its future has *)
Definition answered (ps : list (promise_state handler_outcome)) (c : completion) (a : nat * LspMessage) : Prop :=
  run_completion ps c = Some a.

(** [done] completions were answered in this order; with the others they are
    the requests accepted, or a part of them after a stop. *)
Definition async_inv (h : list completion) (s : AsyncLoop) (done : list completion) : Prop :=
  Forall2 (answered (promises s)) done (answers s) /\
  done ++ option_list (loop_running s) ++ async_completions s ⊆+ h /\
  (async_completion_stop s = false -> done ++ option_list (loop_running s) ++ async_completions s ≡ₚ h).

Lemma answered_fulfil f o ps c a :
  ps !! f = Some None -> answered ps c a -> answered (alter (set_value o) f ps) c a.
Proof.
  unfold answered, run_completion. intros Hf.
  destruct (decide (c_future c = f)) as [Hc|Hne].
  - subst f. use_entry Hf. done.
  - intros H. rewrite <- H. f_equal. by rewrite list_lookup_alter_ne by congruence.
Qed.

Lemma answered_new ps c a : answered ps c a -> answered (ps ++ [None]) c a.
Proof.
  unfold answered, run_completion. destruct (ps !! c_future c) eqn:E; [|done].
  by rewrite (lookup_app_l_Some _ _ _ _ E).
Qed.

Lemma async_step_inv h s h' s' done :
  astep (h, s) (h', s') -> async_inv h s done -> exists done', async_inv h' s' done'.
Proof.
  intros Hst (Hf & Hs & Hp).
  inversion Hst as [q id ses ? ?|f o ? ? Hnone|? ? ? Ht|? ? ? Ht|? ?]; subst; clear Hst.
  - exists done. unfold completeAsyncHandler, postAsyncCompletion. cbn [async_completion_stop].
    destruct (async_completion_stop s || q) eqn:E; unfold async_inv; cbn.
    + split; [|done]. eapply Forall2_impl; [exact Hf|]. intros; by apply answered_new.
    + apply orb_false_iff in E as [E _]. specialize (Hp E).
      split; [eapply Forall2_impl; [exact Hf|]; intros; by apply answered_new|].
      assert (Hpp : done ++ option_list (loop_running s) ++ async_completions s ++
        [mkCompletion id (length (promises s)) ses] ≡ₚ h ++ [mkCompletion id (length (promises s)) ses])
        by (by rewrite <- Hp, <- !app_assoc). split; [by rewrite Hpp|done].
  - exists done. unfold async_inv. cbn. split; [|done].
    eapply Forall2_impl; [exact Hf|]. intros; by apply answered_fulfil.
  - exists done. unfold loop_take in Ht. destruct (async_completion_stop s) eqn:E; [done|].
    destruct (loop_running s), (async_completions s); try done. injection Ht as <-.
    unfold async_inv. cbn in *. by split_and!; auto.
  - unfold loop_finish in Ht. destruct (loop_running s) as [c|] eqn:Er; [|done].
    destruct (run_completion (promises s) c) as [a|] eqn:Ea.
    + injection Ht as <-. exists (done ++ [c]). unfold async_inv. cbn in *. rewrite <- app_assoc.
      split; [|done]. apply Forall2_app; [done|]. by constructor.
    + exists done. destruct (async_completion_stop s); injection Ht as <-; unfold async_inv; cbn in *.
      * split; [done|]. split; [|done]. etrans; [|exact Hs]. apply submseteq_app; [done|].
        by apply submseteq_cons.
      * specialize (Hp eq_refl).
        assert (Hpp : done ++ async_completions s ++ [c] ≡ₚ h')
          by (rewrite <- Hp; f_equiv; by rewrite Permutation_app_comm). split; [done|].
        split; [by rewrite Hpp|done].
  - exists done. unfold async_inv. cbn in *. split; [done|]. split; [|done].
    etrans; [|exact Hs]. apply submseteq_app; [done|]. rewrite app_nil_r.
    by apply submseteq_inserts_r.
Qed.

Lemma async_reach h s : rtc astep ([], loop_init) (h, s) -> exists done, async_inv h s done.
Proof.
  remember ([], loop_init) as x eqn:Hx. remember (h, s) as y eqn:Hy. intros Hr. revert h s Hy.
  assert (H0 : exists done, async_inv x.1 x.2 done).
  { subst x. exists []. unfold async_inv. cbn. split_and!; done || constructor. }
  clear Hx. induction Hr as [[h1 s1]|[h1 s1] [h2 s2] z Hs _ IH]; intros h s Hz.
  - by injection Hz as <- <-.
  - apply IH; [|done]. destruct H0 as [done H0]. by eapply async_step_inv.
Qed.

(** C28. In every interleaving of workers that post completions, of promises being
    set and of the completion thread, each accepted request is answered at
    most once, with its own id, in its own session and with the outcome of its
    own future; while the loop is not stopped none is lost: the requests are
    those answered, the one in hand and those in the deque. *)
Theorem async_answered_once (h : list completion) (s : AsyncLoop) :
  rtc astep ([], loop_init) (h, s) ->
  exists done, Forall2 (answered (promises s)) done (answers s) /\
    Forall2 (fun c a => a.1 = c_session c /\ msg_id a.2 = c_id c) done (answers s) /\
    done ⊆+ h /\
    (async_completion_stop s = false ->
       done ++ option_list (loop_running s) ++ async_completions s ≡ₚ h).
Proof.
  intros Hr. destruct (async_reach h s Hr) as (done & Hf & Hs & Hp). exists done.
  split; [done|]. split; [|split; [|done]].
  - eapply Forall2_impl; [exact Hf|]. unfold answered, run_completion. intros c a Ha.
    destruct (promises s !! c_future c ≫= future_get); [|done]. injection Ha as <-. cbn.
    split; [done|]. apply reply_id.
  - etrans; [|exact Hs]. by apply submseteq_inserts_r.
Qed.

(** A round of the loop that nobody interrupts *)
Definition loop_round (s : AsyncLoop) : option AsyncLoop := loop_take s ≫= loop_finish.
Fixpoint rounds (n : nat) (s : AsyncLoop) : option AsyncLoop :=
  match n with 0 => Some s | S n' => loop_round s ≫= rounds n' end.

Definition is_ready (ps : list (promise_state handler_outcome)) (c : completion) : bool :=
  match run_completion ps c with Some _ => true | None => false end.

Lemma round_spec c q streak back ps ans :
  exists streak' back',
    loop_round (mkLoop (c :: q) false None streak back ps ans) =
    Some (match run_completion ps c with
          | Some a => mkLoop q false None streak' back' ps (ans ++ [a])
          | None => mkLoop (q ++ [c]) false None streak' back' ps ans
          end).
Proof.
  unfold loop_round, loop_take, loop_finish. cbn. by destruct (run_completion ps c); eauto.
Qed.

Lemma rounds_spec n todo rest streak back ps ans :
  length todo = n ->
  exists streak' back',
    rounds n (mkLoop (todo ++ rest) false None streak back ps ans) =
    Some (mkLoop (rest ++ filter (fun c => is_ready ps c = false) todo) false None streak' back' ps
            (ans ++ omap (run_completion ps) todo)).
Proof.
  revert todo rest streak back ans. induction n as [|n IH]; intros [|c todo] rest streak back ans Hn;
    try done.
  - exists streak, back. cbn. by rewrite !app_nil_r.
  - injection Hn as Hn. cbn [rounds app].
    destruct (round_spec c (todo ++ rest) streak back ps ans) as (s1 & b1 & ->).
    cbn [mbind option_bind omap list_omap]. destruct (run_completion ps c) as [a|] eqn:Ea.
    + destruct (IH todo rest s1 b1 (ans ++ [a]) Hn) as (s' & b' & ->). exists s', b'.
      rewrite <- app_assoc, filter_cons_False; [done|]. unfold is_ready. by rewrite Ea.
    + rewrite <- app_assoc. destruct (IH todo (rest ++ [c]) s1 b1 ans Hn) as (s' & b' & ->).
      exists s', b'. rewrite filter_cons_True by (unfold is_ready; by rewrite Ea).
      by rewrite <- app_assoc.
Qed.

(** C37. No request starves: one pass over the deque answers every request whose
    future has a value, in the order of the deque, and keeps the others in
    their order. *)
Theorem async_pass_answers_ready (s : AsyncLoop) :
  async_completion_stop s = false -> loop_running s = None ->
  exists s', rounds (length (async_completions s)) s = Some s' /\
    answers s' = answers s ++ omap (run_completion (promises s)) (async_completions s) /\
    async_completions s' = filter (fun c => is_ready (promises s) c = false) (async_completions s).
Proof.
  intros Hstop Hrun. destruct s as [q st run streak back ps ans]. cbn in *. subst st run.
  destruct (rounds_spec (length q) q [] streak back ps ans eq_refl) as (s' & b' & H).
  rewrite app_nil_r in H. rewrite H. eexists. split; [done|]. done.
Qed.

Lemma async_pass_answers_ready_witness :
  let c0 := mkCompletion (mkId kInt 1 []) 0 0 in let c1 := mkCompletion (mkId kInt 2 []) 1 0 in
  let s := mkLoop [c0; c1] false None 0 0 [None; Some ThrewOther] [] in
  exists s', rounds 2 s = Some s' /\
    answers s' = [(0, reply (mkId kInt 2 []) ThrewOther)] /\ async_completions s' = [c0].
Proof.
  intros c0 c1 s. destruct (async_pass_answers_ready s eq_refl eq_refl) as (s' & H1 & H2 & H3).
  exists s'. split; [exact H1|]. split; [exact H2|exact H3].
Defined.

Lemma async_answered_once_witness :
  exists h s, rtc astep ([], loop_init) (h, s) /\ length h = 1 /\
    exists done, Forall2 (fun c a => a.1 = c_session c /\ msg_id a.2 = c_id c) done (answers s) /\
      done ⊆+ h /\ answers s <> [].
Proof.
  assert (Hr : exists s, rtc astep ([], loop_init) ([mkCompletion (mkId kInt 7 []) 0 3], s) /\ answers s <> []).
  { eexists. split.
    - eapply rtc_l; [apply (a_post false (mkId kInt 7 []) 3)|].
      eapply rtc_l; [apply (a_fulfil 0 ThrewOther); reflexivity|].
      eapply rtc_l; [by apply a_take|]. eapply rtc_l; [by apply a_finish|]. apply rtc_refl.
    - done. }
  destruct Hr as (s & Hr & Hne). exists [mkCompletion (mkId kInt 7 []) 0 3], s.
  split; [exact Hr|]. split; [reflexivity|].
  destruct (async_answered_once _ _ Hr) as (done & _ & H2 & H3 & _). by exists done.
Defined.

(** ** [Condition] (Condition.h) *)

(** [any]; [notify] swaps the data in, so that an unread value is lost *)
Definition Condition (T : Type) := option T.
Definition condition_notify {T} (data : option T) (_ : Condition T) : Condition T := data.

(** what [wait] returns: still waiting, the empty pointer, or the data *)
Inductive wait_result (T : Type) := Blocked | Nothing | Got (v : T).
Arguments Blocked {T}.
Arguments Nothing {T}.
Arguments Got {T} v.

(** [wait]; [expired]: a timeout was given and is over *)
Definition condition_wait {T} (expired : bool) (any : Condition T) : wait_result T * Condition T :=
  match any with
  | Some v => (Got v, None)
  | None => (if expired then Nothing else Blocked, None)
  end.

(** ** Outgoing requests *)
Section Outgoing.
Context {A : Type}.
Abbreviation Data := (RemoteEndPoint.Data (A := A)).

(** A request that was refused, with the error given to the application, or
    one that is pending, by the index of its [PendingRequestInfo] *)
Definition issued := (LspMessage + nat)%type.

(** The first half of [send]; [has_parser] is the result of
    [ensureResponseJsonHandler], [deferred] the completion policy *)
Definition issue (has_parser deferred : bool) (req : LspMessage) (d : Data) : issued * Data :=
  if negb has_parser
  then (inl (internal_error (msg_id req)
               (lit "Response parser must be registered before startProcessingMessages().")), d)
  else match internalSendRequest req deferred d with
       | (true, d') => (inr (length (infos (table d))), d')
       | (false, d') => (inl (internal_error (msg_id req) (lit "Failed to send request.")), d')
       end.

Definition IsErrorType (m : LspMessage) : bool := match error m with Some _ => true | None => false end.

(** The calls of [handler] and [onError] of [send(request, handler, onError)] *)
Inductive callback := OnResponse (m : LspMessage) | OnError (m : LspMessage).
Definition callback_of (m : LspMessage) : callback := if IsErrorType m then OnError m else OnResponse m.

Definition calls_of (i : nat) (t : PendingTable) : list LspMessage :=
  default [] (calls <$> infos t !! i).

Definition callbacks_made (r : issued) (t : PendingTable) : list callback :=
  match r with inl e => [OnError e] | inr i => map callback_of (calls_of i t) end.

(** The value of the future of [send(request)]: its promise is set at once on
    failure, else by the callback *)
Definition future_of (r : issued) (t : PendingTable) : promise_state ResponseOrError :=
  let roe m := mkResponseOrError m m (IsErrorType m) in
  match r with
  | inl e => set_value (roe e) None
  | inr i => foldl (fun s m => set_value (roe m) s) None (calls_of i t)
  end.

(** [waitResponse] once its wait is over, or the timeout: [Some] response, or
    nothing and the request is forgotten *)
Definition waitResponse (expired : bool) (r : issued) (id : lsRequestId) (d : Data)
    : option (option ResponseOrError) * Data :=
  match wait_for (future_of r (table d)) with
  | ready => (Some (future_get (future_of r (table d))), d)
  | timeout => if expired then (Some None, remove_request id d) else (None, d)
  end.

(** [internalWaitResponse]: the callback notifies a [Condition] *)
Definition internalWaitResponse (expired : bool) (r : issued) (id : lsRequestId) (d : Data)
    : wait_result LspMessage * Data :=
  match r with
  | inl _ => (Nothing, d)
  | inr i =>
      let any := foldl (fun c m => condition_notify (Some m) c) None (calls_of i (table d)) in
      match condition_wait expired any with
      | (Nothing, _) => (Nothing, remove_request id d)
      | (w, _) => (w, d)
      end
  end.

(** A response that comes after the request has been given up is dropped. *)
Lemma late_response_ignored (d : Data) (id : lsRequestId) (i : nat) (msg : LspMessage) :
  key (msg_id msg) = key id ->
  completePendingResponse msg i (remove_request id d) = remove_request id d.
Proof.
  intros Hk. unfold completePendingResponse, removeRequestInfo_expected, remove_request.
  cbn [set_table table removeRequestInfo set_futures futures]. rewrite Hk, lookup_delete_eq. done.
Qed.

End Outgoing.

(** A started endpoint without limits, a request and its response *)
Definition sample_endpoint : Data (A := unit) :=
  startProcessingMessages false (endpoint_init (mkLimits 0 0 0 0 0 StopProcessing) 0 0 tt).
Definition sample_request : LspMessage :=
  mkMessage REQUEST_MESSAGE (lit "m") id_none id_none None JNull.
Definition sample_response : LspMessage :=
  mkMessage RESPONCE_MESSAGE [] (mkId kInt 0 []) id_none None JNull.

(** A response that has arrived while its callback waits for a worker is lost
    when the endpoint stops: the request is no longer in the table, so the
    stop does not report an error either, and the posted task never runs, not
    even after a restart. *)
Theorem deferred_callback_lost_on_stop :
  let '(r, d1) := issue true true sample_request sample_endpoint in
  let d2 := completePendingResponse sample_response 0 d1 in
  let d3 := default d2 (stop d2) in
  let d4 := startProcessingMessages false d3 in
  r = inr 0 /\ length (handler_tasks (pools d2)) = 1 /\
  working d3 = false /\ callbacks_made r (table d3) = [] /\ futures (table d3) = ∅ /\
  pools_stopped (pools d3) = true /\
  handler_tasks (pools d4) = [] /\ callbacks_made r (table d4) = [].
Proof.
  destruct (issue true true sample_request sample_endpoint) as [r d1] eqn:E.
  assert (Hr : r = inr 0) by (change r with (r, d1).1; rewrite <- E; vm_compute; reflexivity).
  assert (Hd : d1 = (issue true true sample_request sample_endpoint).2) by by rewrite E.
  subst r d1. clear E. split; [done|]. split_and!; vm_compute; reflexivity.
Qed.

Lemma sync_request_answered_once_witness :
  let log := mkMessage NOTIFICATION_MESSAGE (lit "log") id_none id_none None JNull in
  let e := mkEndpoint {[lit "m" := wrap_sync_monitor (fun _ _ n => (S n, [log], ThrewOther))]} ∅ ∅ in
  let d := startProcessingMessages false (endpoint_init (mkLimits 0 0 0 0 0 StopProcessing) 0 0 7) in
  let req := mkMessage REQUEST_MESSAGE (lit "m") (mkId kInt 5 []) id_none None JNull in
  exists d', mainLoop e req 0 1 None d = (None, d') /\ RemoteEndPoint.app d' = 8 /\
    sessions d' !! 1 = Some (mkSessionOutput true true false
      [log; makeErrorMessage (mkId kInt 5 []) InternalError (lit "Unhandled exception.")]).
Proof.
  intros log e d req.
  destruct (sync_request_answered_once e (fun _ _ n => (S n, [log], ThrewOther)) req 0 1 None d
    (mkSessionOutput true true false [])) as (r & d' & H1 & H2 & H3 & _ & _ & H4); try reflexivity.
  exists d'. split; [exact H1|]. split; [exact H2|]. by rewrite H3, H4.
Defined.
