(* ===== verification/Outgoing.v ===== *)
(** * Outgoing requests, end to end

    Pending.v has the table of outgoing requests, RemoteEndPoint.v the threads
    that work on it.  Here the steps of the endpoint are shown to act on the
    table and on the queued callbacks ([RunCompletion]) by the moves [ostep],
    and the callbacks of a request are followed from [send] to the end. *)
From S2P Require Import Prelude CppString Json RequestId Framing Message Cancellation Reorder Ordered Pending.
From S2P Require Import RemoteEndPoint Handlers.

(** The callbacks that wait for a worker *)
Definition completion_of (t : worker_task) : option (nat * LspMessage) :=
  match t with RunCompletion i m => Some (i, m) | RunMain _ _ _ _ => None end.

Abbreviation outgoing_state := (PendingTable * list (nat * LspMessage))%type.

Inductive ostep (limit : nat) : outgoing_state -> outgoing_state -> Prop :=
| o_request id md df t cs : ostep limit (t, cs) ((pendingRequest limit id md df t).2, cs)
| o_remove id t cs : ostep limit (t, cs) (removeRequestInfo id t, cs)
| o_taken msg i t t' cs cs' :
    removeRequestInfo_expected (msg_id msg) i t = (true, t') -> cs' = cs \/ cs' = cs ++ [(i, msg)] ->
    ostep limit (t, cs) (t', cs')
| o_direct msg i t t' cs :
    removeRequestInfo_expected (msg_id msg) i t = (true, t') -> ostep limit (t, cs) (complete i msg t', cs)
| o_run msg i t cs cs' : Permutation cs ((i, msg) :: cs') -> ostep limit (t, cs) (complete i msg t, cs')
| o_other t cs cs' : cs' ⊆ cs -> ostep limit (t, cs) (t, cs')
| o_fail t cs : ostep limit (t, cs) (failPendingRequests t, cs).

(** [ids]: the id of every request that was ever put into the table.  A
    request in the table has its own id and was not called; a queued callback
    belongs to a request that has left the table, and its message carries the
    request's id; so does every message a callback was called with. *)
Record oinv (limit : nat) (ids : list lsRequestId) (s : outgoing_state) : Prop := {
  oi_table : table_inv limit s.1;
  oi_ids : length ids = length (infos s.1);
  oi_entry : forall k id i, futures s.1 !! k = Some (id, i) -> ids !! i = Some id;
  oi_queued : forall i m, (i, m) ∈ s.2 -> (forall k id, futures s.1 !! k <> Some (id, i)) /\
    exists id, ids !! i = Some id /\ key (msg_id m) = key id;
  oi_called : forall i p m, infos s.1 !! i = Some p -> m ∈ calls p ->
    exists id, ids !! i = Some id /\ key (msg_id m) = key id
}.

Lemma removed_spec limit msg i t t' :
  table_inv limit t -> removeRequestInfo_expected (msg_id msg) i t = (true, t') ->
  t' = set_futures t (delete (key (msg_id msg)) (futures t)) /\
  (exists id, futures t !! key (msg_id msg) = Some (id, i)) /\
  (forall k id, futures t' !! k <> Some (id, i)).
Proof.
  intros Hinv. unfold removeRequestInfo_expected.
  destruct (futures t !! key (msg_id msg)) as [[id j]|] eqn:E; [|done].
  destruct (Nat.eqb_spec j i) as [->|]; [|done]. intros [= <-]. split; [done|]. split; [by exists id|].
  intros k id'. cbn. intros [Hne H]%lookup_delete_Some. apply Hne. by eapply (inv_inj _ _ Hinv).
Qed.

(** A callback is called for a request that has left the table. *)
Lemma oinv_complete limit ids t cs i msg id :
  oinv limit ids (t, cs) -> (forall k id, futures t !! k <> Some (id, i)) ->
  ids !! i = Some id -> key (msg_id msg) = key id -> oinv limit ids (complete i msg t, cs).
Proof.
  intros [H1 H2 H3 H4 H5] Hno Hid Hk. cbn [fst snd] in *. split; cbn; try done.
  - by apply table_inv_complete.
  - by rewrite length_alter.
  - intros j p m Hp Hm. destruct (decide (j = i)) as [->|Hne].
    + rewrite list_lookup_alter_eq in Hp. apply fmap_Some in Hp as (q & Hq & ->).
      unfold complete_info in Hm. destruct (completed q); [by eapply H5|]. cbn in Hm.
      apply elem_of_app in Hm as [Hm| ->%list_elem_of_singleton]; [by eapply H5|by exists id].
    + rewrite list_lookup_alter_ne in Hp by done. by eapply H5.
Qed.

Lemma oinv_taken limit ids t cs msg i t' :
  oinv limit ids (t, cs) -> removeRequestInfo_expected (msg_id msg) i t = (true, t') ->
  oinv limit ids (t', cs) /\ (forall k id, futures t' !! k <> Some (id, i)) /\
  exists id, ids !! i = Some id /\ key (msg_id msg) = key id.
Proof.
  intros [H1 H2 H3 H4 H5] Hr. cbn [fst snd] in *.
  destruct (removed_spec limit msg i t t' H1 Hr) as (-> & (id & Hid) & Hno).
  split; [split; cbn; try done|split; [done|]].
  - by apply inv_delete.
  - intros k id' j [_ H]%lookup_delete_Some. by eapply H3.
  - intros j m Hin. destruct (H4 j m Hin) as [Hf Hm]. split; [|done].
    intros k id' [_ H]%lookup_delete_Some. by eapply Hf.
  - exists id. split; [by eapply H3|]. symmetry. by apply (inv_entry _ _ H1 _ _ _ Hid).
Qed.

(** Stopping completes what is in the table. *)
Lemma complete_fold limit ids (l : list (id_key * (lsRequestId * nat))) t cs :
  futures t = ∅ -> oinv limit ids (t, cs) -> (forall k id i, (k, (id, i)) ∈ l -> ids !! i = Some id) ->
  oinv limit ids (fold_left (fun t (e : id_key * (lsRequestId * nat)) =>
    complete e.2.2 (stopped_error e.2.1) t) l t, cs).
Proof.
  revert t. induction l as [|[k [id i]] l IH]; intros t Hf Hinv Hl; [done|]. cbn [fold_left fst snd].
  apply IH; [done| |intros; eapply Hl; by right].
  eapply oinv_complete; [done|intros k' id'; by rewrite Hf, lookup_empty|eapply Hl; by left|done].
Qed.

Lemma oinv_fail limit ids t cs : oinv limit ids (t, cs) -> oinv limit ids (failPendingRequests t, cs).
Proof.
  intros [H1 H2 H3 H4 H5]. cbn [fst snd] in *. unfold failPendingRequests. apply complete_fold; [done| |].
  - split; cbn; try done.
    + apply inv_submap; [|rewrite map_size_empty; lia|done]. intros k x. by rewrite lookup_empty.
    + intros i m Hin. split; [|by apply H4]. intros k id. by rewrite lookup_empty.
  - intros k id i H%elem_of_map_to_list. by eapply H3.
Qed.

(** A request that is accepted gets the next index. *)
Lemma pendingRequest_spec limit id md df t r t' :
  pendingRequest limit id md df t = (r, t') ->
  match r with
  | None => t' = t
  | Some (i, id') =>
      i = length (infos t) /\ (has_value id = true -> id' = id) /\
      futures t' = <[key id' := (id', i)]> (futures t) /\ infos t' = infos t ++ [mkInfo md df false []]
  end.
Proof.
  unfold pendingRequest. destruct (_ && _); [by intros [= <- <-]|].
  destruct (has_value id) eqn:Eh; cbn [negb].
  - case_bool_decide; intros [= <- <-]; done.
  - cbn. by intros [= <- <-].
Qed.

Lemma oinv_request limit ids t cs id md df r t' :
  pendingRequest limit id md df t = (r, t') -> oinv limit ids (t, cs) ->
  oinv limit (match r with Some (_, id') => ids ++ [id'] | None => ids end) (t', cs).
Proof.
  intros E [H1 H2 H3 H4 H5]. cbn [fst snd] in *.
  assert (Ht : table_inv limit t').
  { pose proof (p_request limit id md df t) as Hp. rewrite E in Hp. by eapply table_inv_step. }
  pose proof (pendingRequest_spec _ _ _ _ _ _ _ E) as Hs.
  destruct r as [[i id']|]; [|subst t'; by split]. destruct Hs as (-> & _ & Hf & Hi).
  assert (Hold : forall j x, ids !! j = Some x -> (ids ++ [id']) !! j = Some x)
    by (intros; by apply lookup_app_l_Some).
  split; cbn [fst snd]; rewrite ?Hf, ?Hi; try done.
  - rewrite !length_app, H2. done.
  - intros k id0 j [[<- [= <- <-]]|[_ H]]%lookup_insert_Some; [|by eauto].
    rewrite lookup_app_r, H2, Nat.sub_diag by lia. done.
  - intros j m Hin. destruct (H4 j m Hin) as (Hno & id0 & Hid & Hk). split; [|by eauto].
    intros k id1 [[_ [= _ <-]]|[_ H]]%lookup_insert_Some; [|by eapply Hno].
    apply lookup_lt_Some in Hid. lia.
  - intros j p m [Hp|[Hl Hp]]%lookup_app_Some Hm.
    + destruct (H5 j p m Hp Hm) as (id0 & ? & ?). by eauto.
    + destruct (j - length (infos t)); simpl in Hp; [|done]. injection Hp as <-. by apply not_elem_of_nil in Hm.
Qed.

Lemma oinv_step limit s s' ids :
  ostep limit s s' -> oinv limit ids s -> exists more, oinv limit (ids ++ more) s'.
Proof.
  destruct 1 as [id md df t cs|id t cs|msg i t t' cs cs' Hr Hc|msg i t t' cs Hr|msg i t cs cs' Hp|t cs cs' Hc|t cs];
    intros Hinv.
  - destruct (pendingRequest limit id md df t) as [r t'] eqn:E.
    pose proof (oinv_request _ _ _ _ _ _ _ _ _ E Hinv) as H.
    destruct r as [[i id']|]; [by exists [id']|]. exists []. by rewrite app_nil_r.
  - exists []. rewrite app_nil_r. destruct Hinv as [H1 H2 H3 H4 H5]. cbn [fst snd] in *. split; cbn; try done.
    + by apply inv_delete.
    + intros k id' j [_ H]%lookup_delete_Some. by eapply H3.
    + intros j m Hin. destruct (H4 j m Hin) as [Hf Hm]. split; [|done].
      intros k id' [_ H]%lookup_delete_Some. by eapply Hf.
  - exists []. rewrite app_nil_r. destruct (oinv_taken _ _ _ _ _ _ _ Hinv Hr) as ([H1 H2 H3 H4 H5] & Hno & Hid).
    cbn [fst snd] in *. destruct Hc as [-> | ->]; [by split|]. split; cbn; try done.
    intros j m [Hin|[= -> ->]%list_elem_of_singleton]%elem_of_app; [by apply H4|done].
  - exists []. rewrite app_nil_r. destruct (oinv_taken _ _ _ _ _ _ _ Hinv Hr) as (Hinv' & Hno & id & Hid & Hk).
    by eapply oinv_complete.
  - exists []. rewrite app_nil_r. destruct (oi_queued _ _ _ Hinv i msg) as (Hno & id & Hid & Hk);
      [cbn; rewrite Hp; by left|].
    eapply oinv_complete; [|done..]. destruct Hinv as [H1 H2 H3 H4 H5]. split; try done.
    intros j m Hin. apply H4. cbn. rewrite Hp. by right.
  - exists []. rewrite app_nil_r. destruct Hinv as [H1 H2 H3 H4 H5]. split; try done.
    intros j m Hin. by apply H4, Hc.
  - exists []. rewrite app_nil_r. by apply oinv_fail.
Qed.

Lemma oinv_steps limit s s' ids :
  rtc (ostep limit) s s' -> oinv limit ids s -> exists more, oinv limit (ids ++ more) s'.
Proof.
  intros H. revert ids. induction H as [s|s1 s2 s3 Hs _ IH]; intros ids Hi.
  - exists []. by rewrite app_nil_r.
  - destruct (oinv_step _ _ _ _ Hs Hi) as [m1 H1]. destruct (IH _ H1) as [m2 H2].
    exists (m1 ++ m2). by rewrite app_assoc.
Qed.

(** ** The endpoint makes these moves *)
Section Moves.
Context {A : Type}.
Variable Parse : bytes -> (bytes * nat) + json.
Variable jsonHandler : MessageJsonHandler.
Variable local_endpoint : GenericEndpoint A.
Abbreviation Data := (RemoteEndPoint.Data (A := A)).

Definition out (d : Data) : outgoing_state := (table d, omap completion_of (handler_tasks (pools d))).

Record moves (d d' : Data) : Prop := {
  mv_limits : limits d' = limits d;
  mv_steps : rtc (ostep (max_pending_outgoing_requests (limits d))) (out d) (out d')
}.

#[local] Instance moves_preorder : PreOrder moves.
Proof.
  split.
  - intros d. by split.
  - intros d1 d2 d3 [E1 H1] [E2 H2]. split; [congruence|]. rewrite E1 in H2. by etrans.
Qed.

Lemma moves_eq d d' :
  limits d' = limits d -> table d' = table d -> handler_tasks (pools d') = handler_tasks (pools d) -> moves d d'.
Proof. intros El Et Eh. split; [done|]. unfold out. by rewrite Et, Eh. Qed.

Lemma moves_once d d' :
  limits d' = limits d -> ostep (max_pending_outgoing_requests (limits d)) (out d) (out d') -> moves d d'.
Proof. intros El Hs. split; [done|]. by apply rtc_once. Qed.

Lemma moves_post msg s state pd d : moves d (postToWorker msg s state pd d).
Proof.
  unfold postToWorker. destruct (_ || _); [done|]. split; [done|]. unfold out. cbn.
  rewrite omap_app. cbn. by rewrite app_nil_r.
Qed.

Lemma moves_completePending msg info d : moves d (completePendingResponse msg info d).
Proof.
  unfold completePendingResponse. destruct (removeRequestInfo_expected _ _ _) as [[] t] eqn:E; cbn [negb]; [|done].
  destruct (negb _).
  - apply moves_once; [done|]. by apply (o_direct _ msg info).
  - destruct (_ || _); apply moves_once; try done; unfold out; cbn.
    + eapply o_taken; [exact E|by left].
    + rewrite omap_app. eapply o_taken; [exact E|by right].
Qed.

Lemma moves_begin_main msg s state pd d : moves d (begin_main local_endpoint msg s state pd d).2.
Proof.
  unfold begin_main. destruct (quit d); [done|]. destruct (GetKid msg).
  - destruct (cancelableRequestContext _ _ _ _) as [[ctx cookie] c]. destruct (onRequest _ _ _ _) as [res l].
    by apply moves_eq.
  - destruct (match pd with Some _ => _ | None => _ end); [apply moves_completePending|].
    destruct (onResponse _ _ _ _ _) as [res l]. by apply moves_eq.
  - case_bool_decide; [by apply moves_eq|]. destruct (notify _ _ _ _) as [res l]. by apply moves_eq.
Qed.

Lemma moves_end_main f d : moves d (end_main f d).
Proof. unfold end_main. by destruct (fl_retains f), (fl_scope f) as [[]|]; apply moves_eq. Qed.

Lemma moves_stop d d' : stop d = Some d' -> moves d d'.
Proof.
  unfold stop, clear, lock_dispatch. destruct (working d); cbn; [|by intros [= <-]].
  destruct (dispatch_locked d); [done|]. intros [= <-]. apply moves_once; [done|]. apply o_fail.
Qed.

Lemma moves_overload m d b d' : handleOverload m d = Some (b, d') -> moves d d'.
Proof.
  unfold handleOverload. case_bool_decide; [intros [= _ <-]; by apply moves_eq|].
  destruct (stop _) as [d1|] eqn:E; [|done]. intros [= _ <-]. apply moves_stop in E.
  etrans; [|exact E]. by apply moves_eq.
Qed.

Lemma moves_overload_drop n m d d' : overload_drop n m d = Some d' -> moves d d'.
Proof.
  unfold overload_drop. destruct (handleOverload _ _) as [[[] d1]|] eqn:E; [| |done]; intros [= <-];
    apply moves_overload in E; [|done]. etrans; [exact E|by apply moves_eq].
Qed.

Lemma moves_route p s d d' : routeParsedIncoming p s d = Some d' -> moves d d'.
Proof.
  unfold routeParsedIncoming. destruct (_ || _); [by intros [= <-]|].
  destruct (message p) as [msg|]; [|by intros [= <-]].
  destruct (outgoing p); [intros [= <-]; by apply moves_eq|].
  destruct (kind p).
  - unfold enqueue_request. destruct (quit d); [by intros [= <-]|].
    destruct (enqueueRequest _ _ _ _) as [[] o].
    + intros [= <-]. etrans; [|apply moves_post]. by apply moves_eq.
    + intros [= <-]. by apply moves_eq.
    + apply moves_overload_drop.
  - destruct (pending p); intros [= <-]; [apply moves_completePending|apply moves_post].
  - case_bool_decide; [intros [= <-]; by apply moves_eq|].
    destruct (allowsConcurrentNotification _ _); [intros [= <-]; apply moves_post|].
    unfold enqueue_notification. destruct (quit d); [by intros [= <-]|].
    destruct (enqueueNotification _ _ _ _) as [[] o];
      [intros [= <-]; by apply moves_eq|apply moves_overload_drop|intros [= <-]; by apply moves_eq].
Qed.

Lemma moves_submit s p b d d' : submit s p b d = Some d' -> moves d d'.
Proof.
  assert (Hall : forall ready d d', route_all ready d = Some d' -> moves d d').
  { induction ready as [|[s' p'] ready IH]; intros d1 d2; cbn; [by intros [= <-]|].
    destruct (routeParsedIncoming p' s' d1) as [d3|] eqn:E; [|done]. intros Hd.
    etrans; [by eapply moves_route|by apply IH]. }
  unfold submit, lock_dispatch. destruct (dispatch_locked d); [done|].
  destruct (submitParsedMessage _ _ _ _ _ _ _ _) as [[ready| |] r].
  - intros (d1 & E & ->)%fmap_Some. apply Hall in E. etrans; [|etrans; [exact E|by apply moves_eq]].
    by destruct (reorder_drops _ _ _); apply moves_eq.
  - intros ([b' d1] & E & ->)%fmap_Some. apply moves_overload in E. etrans; [|exact E]. by apply moves_eq.
  - intros [= <-]. by apply moves_eq.
Qed.

Lemma moves_post_ready ready d : moves d (postReadyParkedRequests ready d).
Proof.
  revert d. induction ready as [|p ready IH]; intros d; cbn; [done|]. etrans; [apply moves_post|apply IH].
Qed.

Lemma moves_notifier n d n' d' : notifier_step local_endpoint n d = Some (n', d') -> moves d d'.
Proof.
  unfold notifier_step. destruct n as [[[s m] [f|]]|].
  - destruct (fl_sends f) as [|msg rest]; [|intros [= _ <-]; by apply moves_eq].
    destruct (complete_notification _ _) as [ready o]. intros [= _ <-].
    etrans; [apply (moves_end_main f)|]. etrans; [|apply moves_post_ready]. by apply moves_eq.
  - pose proof (moves_begin_main m.1 s m.2 None d) as H. destruct (begin_main _ _ _ _ _ _) as [f d1].
    by intros [= _ <-].
  - destruct (pop_notification _) as [[item o]|]; [|done]. intros [= _ <-]. by apply moves_eq.
Qed.

Lemma moves_on_message text d d' : on_message text d = Some d' -> moves d d'.
Proof.
  unfold on_message, postParseTask. destruct (_ || _); [intros [= <-]; by apply moves_eq|].
  unfold acquireParseQueueSlot. destruct (over_limit _ _).
  - destruct (handleOverload _ _) as [[[] d1]|] eqn:Eo; [|intros [= <-]|done].
    + apply moves_overload in Eo. destruct (submit _ _ _ _) as [d2|] eqn:Es; [|done].
      intros [= <-]. apply moves_submit in Es.
      etrans; [|etrans; [exact Eo|etrans; [|exact Es]]]; by apply moves_eq.
    + apply moves_overload in Eo. etrans; [|exact Eo]. by apply moves_eq.
  - intros [= <-]. by apply moves_eq.
Qed.

(** A task is taken from the pool and starts. *)
Lemma moves_begin_task t tasks d :
  Permutation (handler_tasks (pools d)) (t :: tasks) ->
  moves d (begin_task local_endpoint t (set_pools d (mkPools (pools_exist (pools d)) false
             (parse_tasks (pools d)) tasks (parse_queue_size (pools d))))).
Proof.
  intros Hp. assert (Hc : omap completion_of (handler_tasks (pools d)) ≡ₚ omap completion_of (t :: tasks))
    by (by rewrite Hp). set (d1 := set_pools d _).
  destruct t as [msg s st pd|info msg]; cbn [begin_task].
  - assert (H1 : moves d d1).
    { apply moves_once; [done|]. unfold out. cbn in *. apply o_other. intros x Hx. by rewrite Hc. }
    pose proof (moves_begin_main msg s st pd d1) as H. destruct (begin_main _ _ _ _ _ _) as [f d2].
    etrans; [exact H1|]. etrans; [exact H|by apply moves_eq].
  - apply moves_once; [done|]. unfold out. cbn in *. by apply o_run.
Qed.

Lemma moves_step st st' : lstep Parse jsonHandler local_endpoint st st' -> moves st.1 st'.1.
Proof.
  destruct 1 as [st st' Hr|d d' w Hs|b d w]; cbn [fst].
  - destruct Hr as [text d d' w Hk E|text sequence tasks d d' w Hp Hr E|t tasks d w Hp Hr
      |i f msg rest d w Hf Hs|i f d w Hf Hs|n d d' w E|i n n' d d' w Hd E|req df d w|id d w|id d w|msg d w];
      cbn [fst].
    + by eapply moves_on_message.
    + unfold run_parse_task in E. destruct (parseAndClassify _ _ _ _) as [p l].
      apply fmap_Some in E as (d1 & E & ->). apply moves_submit in E.
      etrans; [|etrans; [exact E|by apply moves_eq]]. by apply moves_eq.
    + by apply moves_begin_task.
    + by apply moves_eq.
    + etrans; [|apply moves_end_main]. by apply moves_eq.
    + apply moves_notifier in E. etrans; [exact E|by apply moves_eq].
    + apply moves_notifier in E. etrans; [exact E|by apply moves_eq].
    + unfold internalSendRequest. destruct (negb _); [by apply moves_eq|].
      pose proof (o_request (max_pending_outgoing_requests (limits d)) (msg_id req) (GetMethodType req) df (table d)
        (omap completion_of (handler_tasks (pools d)))) as Ho.
      destruct (pendingRequest _ _ _ _ _) as [[[i id]|] t]; by apply moves_once.
    + unfold cancelRequest. destruct (negb _); [done|]. destruct (getRequestInfo _ _); by apply moves_eq.
    + apply moves_once; [done|]. apply o_remove.
    + by apply moves_eq.
  - by apply moves_stop.
  - unfold startProcessingMessages. destruct (working d); [by apply moves_eq|].
    apply moves_once; [done|]. unfold out. cbn. apply o_other. intros x Hx. by apply not_elem_of_nil in Hx.
Qed.

Lemma moves_steps st st' : rtc (lstep Parse jsonHandler local_endpoint) st st' -> moves st.1 st'.1.
Proof.
  intros H. eapply (rtc_ind_r (fun st' => moves st.1 st'.1)); [done| |exact H].
  intros x y _ Hs Hx. etrans; [exact Hx|by apply moves_step].
Qed.

(** * Theorems *)

(** C29. Requests that the endpoint sends get their own response, once.  In
    every run of the endpoint, with all its threads, stops and restarts, a
    request that [send] has accepted was written with an id, its own if it has
    one; from then on its callback is called at most once, and only with a
    message that carries this id.  While the request is in the table it was
    not called, and a stop of the endpoint then calls [onError] with this id. *)
Theorem outgoing_resolved_once (l : RemoteEndPointLimits) (max_cancel max_seen : nat) (a : A)
    (has_parser deferred : bool) (req : LspMessage) (d d1 d2 : Data) (w w2 : list bytes) (i : nat) :
  rtc (lstep Parse jsonHandler local_endpoint) (endpoint_init l max_cancel max_seen a, []) (d, w) ->
  issue has_parser deferred req d = (inr i, d1) ->
  rtc (lstep Parse jsonHandler local_endpoint) (d1, w) (d2, w2) ->
  exists id,
    (has_value (msg_id req) = true -> id = msg_id req) /\
    sessions d1 = alter (write_to (mkMessage REQUEST_MESSAGE (GetMethodType req) id (params_id req) None
                                     (content req))) (session_id d) (sessions d) /\
    length (callbacks_made (inr i) (table d2)) <= 1 /\
    (forall m, m ∈ calls_of i (table d2) -> key (msg_id m) = key id) /\
    (forall k id', futures (table d2) !! k = Some (id', i) ->
       id' = id /\ callbacks_made (inr i) (table d2) = [] /\
       forall d3, working d2 = true -> stop d2 = Some d3 ->
         callbacks_made (inr i) (table d3) = [OnError (stopped_error id)]).
Proof.
  intros H0 Hi Hrun. apply moves_steps in H0 as [El0 H0]. cbn [fst] in *.
  set (limit := max_pending_outgoing_requests (limits (endpoint_init l max_cancel max_seen a))) in *.
  destruct (oinv_steps limit _ _ [] H0) as [ids Hinv].
  { split; cbn; try done; try (intros *; by rewrite lookup_empty).
    - apply table_inv_reach, rtc_refl.
    - intros j m Hin. by apply not_elem_of_nil in Hin. }
  rewrite app_nil_l in Hinv. unfold issue in Hi. destruct has_parser; [cbn [negb] in Hi|done].
  unfold internalSendRequest in Hi. destruct (session_good d); cbn [negb] in Hi; [|done]. rewrite El0 in Hi.
  fold limit in Hi. destruct (pendingRequest limit _ _ _ _) as [[[j id]|] t] eqn:Ep; [|done].
  injection Hi as Ei <-. pose proof (oinv_request _ _ _ _ _ _ _ _ _ Ep Hinv) as Hinv1.
  pose proof (pendingRequest_spec _ _ _ _ _ _ _ Ep) as (Hj & Hid & _).
  apply moves_steps in Hrun as [El H2]. cbn [fst] in *.
  change (max_pending_outgoing_requests _) with (max_pending_outgoing_requests (limits d)) in H2.
  rewrite El0 in H2. fold limit in H2. destruct (oinv_steps limit _ _ (ids ++ [id]) H2 Hinv1) as [more [H3 H4 H5 H6 H7]].
  cbn [fst snd out] in *.
  assert (Hget : ((ids ++ [id]) ++ more) !! i = Some id).
  { rewrite <- Ei, <- app_assoc. rewrite lookup_app_r; rewrite (oi_ids _ _ _ Hinv); cbn; [|lia].
    by rewrite Nat.sub_diag. }
  assert (Hlen : length (calls_of i (table d2)) <= 1).
  { unfold calls_of. destruct (infos (table d2) !! i) as [p|] eqn:E; cbn; [|lia].
    rewrite (inv_calls _ _ H3 i p E). destruct (completed p); lia. }
  exists id. split; [done|]. split; [done|]. split; [cbn; by rewrite length_map|]. split.
  - intros m Hm. unfold calls_of in Hm. destruct (infos (table d2) !! i) as [p|] eqn:E; [|by apply not_elem_of_nil in Hm].
    destruct (H7 i p m E Hm) as (id' & Hid' & Hk). rewrite Hget in Hid'. by injection Hid' as <-.
  - intros k id' Hf. pose proof (H5 _ _ _ Hf) as Hid'. rewrite Hget in Hid'. injection Hid' as <-.
    destruct (inv_entry _ _ H3 _ _ _ Hf) as (_ & p & Hp & Hc). split; [done|]. split.
    + cbn. unfold calls_of. rewrite Hp. cbn. pose proof (inv_calls _ _ H3 _ _ Hp) as Hcl. rewrite Hc in Hcl.
      by apply nil_length_inv in Hcl as ->.
    + intros d3 Hw Hs. unfold stop, clear, lock_dispatch in Hs. rewrite Hw in Hs. cbn in Hs.
      destruct (dispatch_locked d2); [done|]. injection Hs as <-. cbn. unfold calls_of.
      destruct (inv_fail_spec limit _ H3) as (_ & _ & Hfail). destruct (Hfail _ _ _ Hf) as (q & Hq & _ & Hqc).
      rewrite Hq. cbn. by rewrite Hqc.
Qed.
End Moves.

(** A request without an id is given 0, and is pending when the endpoint is
    stopped. *)
Lemma outgoing_resolved_once_witness :
  exists d1 d3, issue true true sample_request sample_endpoint = (inr 0, d1) /\ stop d1 = Some d3 /\
    callbacks_made (inr 0) (table d3) = [OnError (stopped_error (mkId kInt 0 []))].
Proof.
  assert (Hobs : exists d1 d3, issue true true sample_request sample_endpoint = (inr 0, d1) /\ stop d1 = Some d3 /\
    working d1 = true /\ futures (table d1) !! KInt 0 = Some (mkId kInt 0 [], 0)).
  { eexists _, _. repeat split; vm_compute; reflexivity. }
  destruct Hobs as (d1 & d3 & Hi & Hs & Hw & Hf). exists d1, d3. split; [exact Hi|]. split; [exact Hs|].
  destruct (outgoing_resolved_once (fun _ => inl ([], 0)) (mkJsonHandler ∅ ∅ ∅) (mkEndpoint ∅ ∅ ∅)
    (mkLimits 0 0 0 0 0 StopProcessing) 0 0 tt true true sample_request sample_endpoint d1 d1 [] [] 0)
    as (id & _ & _ & _ & _ & H).
  - apply rtc_once. apply (l_start _ _ _ false).
  - exact Hi.
  - apply rtc_refl.
  - destruct (H _ _ Hf) as (E & _ & H3). subst id. exact (H3 d3 Hw Hs).
Defined.
