(* ===== verification/LruCache.v ===== *)
(** * The LRU cache

    [LruCache] of include/LibLsp/lsp/lru_cache.h: a vector of entries searched
    linearly, each with the score of its last use; a full cache evicts the
    entry with the lowest score.  Scores are [uint32_t]; when the counter wraps
    around, the entries are sorted and numbered again.

    The theorems show that the cache is a list of entries in the order of
    their last use, up to the first wrap-around, and what goes wrong there.
    [Insert] does not look for its key, so a key inserted twice is there twice
    and the older value hides the newer one; the specification asks the caller
    to insert only keys that are not there, as [Get] does. *)
From S2P Require Import Prelude.
From stdpp Require Import sorting.

Section Cache.
Context {TKey TValue : Type} `{EqDecision TKey}.

Record Entry := mkEntry { score : N; key : TKey; value : TValue }.

Record LruCache := mkCache {
  entries_ : list Entry;
  max_entries_ : Z;
  next_score_ : N
}.

Definition new_cache (max_entries : Z) : LruCache := mkCache [] max_entries 0.

(** [Entry::operator<] *)
Definition entry_ltb (e1 e2 : Entry) : bool := (score e1 <? score e2)%N.

(** [std::sort] on the entries.  The order it gives to entries of equal score
    is not specified; the theorems use it where the scores are distinct. *)
Definition not_after (e1 e2 : Entry) : Prop := (score e1 <= score e2)%N.
#[local] Instance not_after_dec e1 e2 : Decision (not_after e1 e2) :=
  decide_rel N.le _ _.
Definition sort_entries (es : list Entry) : list Entry := merge_sort not_after es.

Definition set_score (n : N) (e : Entry) : Entry := mkEntry n (key e) (value e).

(** [for (entry : entries_) entry.score = next_score_++] *)
Fixpoint renumber (es : list Entry) (next : N) : list Entry * N :=
  match es with
  | [] => ([], next)
  | e :: es' => let '(es'', n) := renumber es' (uadd32 next 1) in (set_score next e :: es'', n)
  end.

Definition IncrementScore (c : LruCache) : LruCache :=
  let next := uadd32 (next_score_ c) 1 in
  if (next =? 0)%N then
    let '(es, next) := renumber (sort_entries (entries_ c)) next in
    mkCache es (max_entries_ c) next
  else mkCache (entries_ c) (max_entries_ c) next.

(** The linear search: index and entry of the first match. *)
Fixpoint find_key (k : TKey) (es : list Entry) : option (nat * Entry) :=
  match es with
  | [] => None
  | e :: es' =>
      if bool_decide (key e = k) then Some (0, e)
      else match find_key k es' with Some (i, e') => Some (S i, e') | None => None end
  end.

Definition Has (k : TKey) (c : LruCache) : bool :=
  match find_key k (entries_ c) with Some _ => true | None => false end.

(** [std::min_element]: the first smallest entry. *)
Fixpoint min_element_loop (es : list Entry) (i best : nat) (smallest : Entry) : nat :=
  match es with
  | [] => best
  | e :: es' => if entry_ltb e smallest then min_element_loop es' (S i) i e
                else min_element_loop es' (S i) best smallest
  end.

Definition min_element (es : list Entry) : option nat :=
  match es with [] => None | e :: es' => Some (min_element_loop es' 1 0 e) end.

(** [None]: [erase] of the end iterator, when [max_entries_] is not positive. *)
Definition Insert (k : TKey) (v : TValue) (c : LruCache) : option LruCache :=
  let evicted :=
    if (max_entries_ c <=? Z.of_nat (length (entries_ c)))%Z then
      match min_element (entries_ c) with
      | Some i => Some (mkCache (delete i (entries_ c)) (max_entries_ c) (next_score_ c))
      | None => None
      end
    else Some c in
  match evicted with
  | None => None
  | Some c =>
      let score := next_score_ c in
      let c := IncrementScore c in
      Some (mkCache (entries_ c ++ [mkEntry score k v]) (max_entries_ c) (next_score_ c))
  end.

Definition Get (k : TKey) (allocator : unit -> TValue) (c : LruCache) : option (TValue * LruCache) :=
  match find_key k (entries_ c) with
  | Some (_, e) => Some (value e, c)
  | None =>
      let result := allocator tt in
      match Insert k result c with Some c' => Some (result, c') | None => None end
  end.

(** The result and [*dest].  [entry] is a reference into the vector: [*dest]
    is read from slot [i] after [IncrementScore]. *)
Definition TryGet (k : TKey) (c : LruCache) : option TValue * LruCache :=
  match find_key k (entries_ c) with
  | None => (None, c)
  | Some (i, e) =>
      let c := IncrementScore (mkCache (<[i := set_score (next_score_ c) e]> (entries_ c))
                                 (max_entries_ c) (next_score_ c)) in
      (value <$> entries_ c !! i, c)
  end.

Definition TryTake (k : TKey) (c : LruCache) : option TValue * LruCache :=
  match find_key k (entries_ c) with
  | None => (None, c)
  | Some (i, e) => (Some (value e), mkCache (delete i (entries_ c)) (max_entries_ c) (next_score_ c))
  end.

(** [func] gets a reference to the value: it threads a state, may change the
    value and says whether to go on. *)
Fixpoint iterate_values {S : Type} (func : S -> TValue -> S * TValue * bool) (s : S) (es : list Entry)
    : S * list Entry :=
  match es with
  | [] => (s, [])
  | e :: es' =>
      let '(s, v, go_on) := func s (value e) in
      let e := mkEntry (score e) (key e) v in
      if go_on : bool then let '(s, es') := iterate_values func s es' in (s, e :: es')
      else (s, e :: es')
  end.

Definition IterateValues {S : Type} (func : S -> TValue -> S * TValue * bool) (s : S) (c : LruCache)
    : S * LruCache :=
  let '(s, es) := iterate_values func s (entries_ c) in
  (s, mkCache es (max_entries_ c) (next_score_ c)).

Definition Clear (c : LruCache) : LruCache := mkCache [] (max_entries_ c) 0.

(** ** Specification: key and value in the order of use, oldest first *)

Definition lru := list (TKey * TValue).

Fixpoint spec_take (k : TKey) (l : lru) : option (TValue * lru) :=
  match l with
  | [] => None
  | (k', v) :: l' =>
      if bool_decide (k' = k) then Some (v, l')
      else match spec_take k l' with Some (v', r) => Some (v', (k', v) :: r) | None => None end
  end.

Definition spec_insert (max : nat) (k : TKey) (v : TValue) (l : lru) : lru :=
  (if max <=? length l then tail l else l) ++ [(k, v)].

Definition kv (e : Entry) : TKey * TValue := (key e, value e).

Definition younger (e1 e2 : Entry) : Prop := (score e1 < score e2)%N.

(** The cache holds [l]. *)
Definition holds (c : LruCache) (l : lru) : Prop :=
  exists es, entries_ c ≡ₚ es /\ StronglySorted younger es /\ l = kv <$> es
    /\ Forall (fun e => (score e < next_score_ c)%N) es
    /\ NoDup l.*1
    /\ (Z.of_nat (length l) <= max_entries_ c)%Z /\ (0 < max_entries_ c <= INT_MAX)%Z.

(** ** Searching *)

Lemma find_key_Some k es i e :
  find_key k es = Some (i, e) -> es !! i = Some e /\ key e = k.
Proof.
  revert i. induction es as [|e0 es IH]; intros i; simpl; [done|].
  case_bool_decide as He; [by intros [= <- <-]|].
  destruct (find_key k es) as [[j e']|]; [|done]. intros [= <- <-]. by apply IH.
Qed.

Lemma find_key_None k es : find_key k es = None <-> k ∉ (key <$> es).
Proof.
  induction es as [|e0 es IH]; simpl; [split; [set_solver|done]|].
  case_bool_decide as He; [split; [done|set_solver]|].
  destruct (find_key k es) as [[j e']|]; set_solver.
Qed.

Lemma spec_take_split k v (l1 l2 : lru) :
  k ∉ l1.*1 -> spec_take k (l1 ++ (k, v) :: l2) = Some (v, l1 ++ l2).
Proof.
  induction l1 as [|[k' v'] l1 IH]; simpl; intros Hk.
  - by rewrite bool_decide_true.
  - rewrite bool_decide_false by set_solver. by rewrite IH by set_solver.
Qed.

Lemma spec_take_None k (l : lru) : k ∉ l.*1 -> spec_take k l = None.
Proof.
  induction l as [|[k' v'] l IH]; simpl; intros Hk; [done|].
  rewrite bool_decide_false by set_solver. by rewrite IH by set_solver.
Qed.

Lemma kv_keys (es : list Entry) : (kv <$> es).*1 = key <$> es.
Proof. by rewrite <- list_fmap_compose. Qed.

(** Where the entry found in the vector is in the order of use. *)
Lemma find_key_order k es es0 i e :
  es ≡ₚ es0 -> NoDup (kv <$> es0).*1 -> find_key k es = Some (i, e) ->
  exists es1 es2, es0 = es1 ++ e :: es2 /\ delete i es ≡ₚ es1 ++ es2
    /\ spec_take k (kv <$> es0) = Some (value e, kv <$> (es1 ++ es2)).
Proof.
  intros Hp Hnd Hf. apply find_key_Some in Hf as [Hi <-].
  assert (e ∈ es0) as Hin by (rewrite <- Hp; by eapply list_elem_of_lookup_2).
  apply list_elem_of_split in Hin as (es1 & es2 & ->). exists es1, es2. split; [done|]. split.
  - apply (Permutation_cons_inv (a := e)). rewrite <- (delete_Permutation _ _ _ Hi), Hp.
    by rewrite Permutation_middle.
  - rewrite !fmap_app, fmap_cons. apply spec_take_split.
    rewrite fmap_app, fmap_cons, fmap_app, fmap_cons in Hnd. apply NoDup_app in Hnd as (_ & Hd & _).
    intros Hin. by apply (Hd _ Hin), list_elem_of_here.
Qed.

Lemma min_element_loop_spec es pre i best smallest :
  i = length pre -> pre !! best = Some smallest ->
  Forall (fun e => (score smallest <= score e)%N) pre ->
  exists e, (pre ++ es) !! min_element_loop es i best smallest = Some e
    /\ Forall (fun e' => (score e <= score e')%N) (pre ++ es).
Proof.
  revert pre i best smallest. induction es as [|e es IH]; intros pre i best sm Hi Hb Hall; simpl.
  - exists sm. by rewrite app_nil_r.
  - unfold entry_ltb. destruct (N.ltb_spec (score e) (score sm)).
    + destruct (IH (pre ++ [e]) (S i) i e) as (x & Hx); [len| |..].
      * subst i. by rewrite lookup_app_r, Nat.sub_diag by done.
      * apply Forall_app; split; [|by repeat constructor].
        eapply Forall_impl; [exact Hall|]. simpl. lia.
      * exists x. by rewrite <- app_assoc in Hx.
    + destruct (IH (pre ++ [e]) (S i) best sm) as (x & Hx); [len| |..].
      * by apply lookup_app_l_Some.
      * apply Forall_app; split; [done|by repeat constructor].
      * exists x. by rewrite <- app_assoc in Hx.
Qed.

(** The evicted entry is the one least recently used. *)
Lemma min_element_oldest es e0 es0 :
  es ≡ₚ e0 :: es0 -> StronglySorted younger (e0 :: es0) ->
  exists i, min_element es = Some i /\ delete i es ≡ₚ es0.
Proof.
  intros Hp Hs. destruct es as [|e es].
  { by apply Permutation_nil_l in Hp. }
  destruct (min_element_loop_spec es [e] 1 0 e) as (x & Hx & Hmin); [done|done|by repeat constructor|].
  exists (min_element_loop es 1 0 e). split; [done|].
  apply (Permutation_cons_inv (a := e0)). rewrite <- Hp.
  enough (x = e0) as <- by (symmetry; by apply delete_Permutation).
  assert (x ∈ e0 :: es0) as Hin by (rewrite <- Hp; by eapply list_elem_of_lookup_2).
  apply elem_of_cons in Hin as [|Hin]; [done|].
  rewrite Forall_forall in Hmin. specialize (Hmin e0). inversion Hs as [|? ? _ Hlt]; subst.
  rewrite Forall_forall in Hlt. apply Hlt in Hin. unfold younger in Hin.
  cut (score x <= score e0)%N; [lia|]. apply Hmin. cbn [app]. rewrite Hp. left.
Qed.

(** ** Scores *)

Lemma renumber_spec es n :
  (n + N.of_nat (length es) < 2 ^ 32)%N ->
  exists es', renumber es n = (es', n + N.of_nat (length es))%N /\ kv <$> es' = kv <$> es
    /\ StronglySorted younger es'
    /\ Forall (fun e => (n <= score e < n + N.of_nat (length es))%N) es'.
Proof.
  revert n. induction es as [|e es IH]; intros n Hn; simpl length in Hn.
  - exists []. split_and!; try done; [simpl; f_equal; lia|constructor].
  - destruct (IH (n + 1)%N) as (es' & Hr & Hkv & Hs & Hall); [lia|].
    exists (set_score n e :: es'). cbn [renumber length]. rewrite uadd32_id, Hr by lia. split_and!.
    + f_equal. lia.
    + by rewrite !fmap_cons, Hkv.
    + constructor; [done|]. eapply Forall_impl; [exact Hall|]. unfold younger. simpl. lia.
    + constructor; [simpl; lia|]. eapply Forall_impl; [exact Hall|]. simpl. lia.
Qed.

Lemma younger_not_after es : StronglySorted younger es -> StronglySorted not_after es.
Proof.
  induction 1 as [|e es _ IH Hall]; constructor; [done|].
  eapply Forall_impl; [exact Hall|]. unfold younger, not_after. lia.
Qed.

Lemma younger_inj es e1 e2 :
  StronglySorted younger es -> e1 ∈ es -> e2 ∈ es -> score e1 = score e2 -> e1 = e2.
Proof.
  induction 1 as [|e es _ IH Hall]; intros H1 H2 Heq; [by apply elem_of_nil in H1|].
  rewrite Forall_forall in Hall. unfold younger in Hall.
  apply elem_of_cons in H1 as [->|H1], H2 as [->|H2]; try done.
  - specialize (Hall _ H2). lia.
  - specialize (Hall _ H1). lia.
  - by apply IH.
Qed.

#[local] Instance not_after_trans : Transitive not_after.
Proof. intros x y z. unfold not_after. lia. Qed.
#[local] Instance not_after_total : Total not_after.
Proof. intros x y. unfold not_after. lia. Qed.

(** With distinct scores, sorting gives the order of use. *)
Lemma sort_entries_order es es0 :
  es ≡ₚ es0 -> StronglySorted younger es0 -> sort_entries es = es0.
Proof.
  intros Hp Hs. unfold sort_entries. apply (StronglySorted_unique_strong not_after).
  - intros x1 x2 H1 H2 L1 L2. rewrite merge_sort_Permutation, Hp in H1.
    apply (younger_inj es0); try done. unfold not_after in *. lia.
  - apply (StronglySorted_merge_sort not_after).
  - by apply younger_not_after.
  - by rewrite merge_sort_Permutation.
Qed.

Lemma IncrementScore_plain c :
  (next_score_ c + 1 < 2 ^ 32)%N ->
  IncrementScore c = mkCache (entries_ c) (max_entries_ c) (next_score_ c + 1).
Proof.
  intros Hn. unfold IncrementScore. rewrite uadd32_id by done.
  by destruct (N.eqb_spec (next_score_ c + 1) 0); [lia|].
Qed.

(** [IncrementScore] keeps the order of use, also when it wraps around. *)
Lemma IncrementScore_order c es :
  entries_ c ≡ₚ es -> StronglySorted younger es -> (next_score_ c < 2 ^ 32)%N ->
  Forall (fun e => (score e <= next_score_ c)%N) es -> (Z.of_nat (length es) <= INT_MAX)%Z ->
  exists es', entries_ (IncrementScore c) ≡ₚ es' /\ StronglySorted younger es'
    /\ kv <$> es' = kv <$> es
    /\ Forall (fun e => (score e < next_score_ (IncrementScore c))%N) es'
    /\ max_entries_ (IncrementScore c) = max_entries_ c.
Proof.
  intros Hp Hs Hn Hall Hlen. unfold INT_MAX in Hlen.
  destruct (decide (next_score_ c + 1 < 2 ^ 32)%N).
  - rewrite IncrementScore_plain by done. exists es. split_and!; try done.
    eapply Forall_impl; [exact Hall|]. simpl. lia.
  - assert (uadd32 (next_score_ c) 1 = 0%N) as E.
    { unfold uadd32. replace (next_score_ c + 1)%N with (2 ^ 32)%N by lia. by rewrite N.Div0.mod_same. }
    unfold IncrementScore. rewrite E, (sort_entries_order _ es) by done.
    destruct (renumber_spec es 0) as (es' & Hr & Hkv & Hs' & Hall'); [lia|].
    cbn [N.eqb]. rewrite Hr. exists es'. split_and!; try done.
    eapply Forall_impl; [exact Hall'|]. simpl. lia.
Qed.

Lemma younger_last es n e :
  StronglySorted younger es -> Forall (fun e => (score e < n)%N) es -> score e = n ->
  StronglySorted younger (es ++ [e]).
Proof.
  intros Hs Hall He. apply StronglySorted_app_2; [|done|by repeat constructor].
  intros x1 x2 H1 ->%list_elem_of_singleton. rewrite Forall_forall in Hall.
  unfold younger. rewrite He. by apply Hall.
Qed.

Lemma younger_delete es1 e es2 :
  StronglySorted younger (es1 ++ e :: es2) -> StronglySorted younger (es1 ++ es2).
Proof.
  intros H. apply StronglySorted_app in H as (H1 & H2 & H3). inversion H3; subst.
  apply StronglySorted_app_2; try done. intros x1 x2 E1 E2. apply H1; [done|by right].
Qed.

(** ** Each operation against the specification *)

Definition plain (c : LruCache) : Prop := (next_score_ c + 1 < 2 ^ 32)%N.

Lemma holds_find_None c l k : holds c l -> find_key k (entries_ c) = None <-> k ∉ l.*1.
Proof.
  intros (es & Hp & _ & -> & _). by rewrite find_key_None, kv_keys, Hp.
Qed.

Lemma NoDup_use_last (l1 : lru) kv l2 : NoDup (l1 ++ kv :: l2).*1 -> NoDup ((l1 ++ l2) ++ [kv]).*1.
Proof.
  intros H. assert ((l1 ++ l2) ++ [kv] ≡ₚ l1 ++ kv :: l2) as ->; [|done].
  by rewrite <- !Permutation_middle, app_nil_r.
Qed.

(** [TryGet] makes the entry the most recently used one, also when the counter
    wraps around; the value it gives is right when it does not. *)
Lemma TryGet_holds c l k v r :
  holds c l -> (next_score_ c < 2 ^ 32)%N -> spec_take k l = Some (v, r) ->
  holds (TryGet k c).2 (r ++ [(k, v)])
  /\ max_entries_ (TryGet k c).2 = max_entries_ c
  /\ (plain c -> (TryGet k c).1 = Some v /\ next_score_ (TryGet k c).2 = (next_score_ c + 1)%N).
Proof.
  intros Hh Hn Ht.
  destruct (find_key k (entries_ c)) as [[i e]|] eqn:Hf;
    [|apply (holds_find_None _ _ _ Hh) in Hf; by rewrite spec_take_None in Ht].
  destruct Hh as (es & Hp & Hs & -> & Hall & Hnd & Hlen & Hmax).
  destruct (find_key_order _ _ _ _ _ Hp Hnd Hf) as (es1 & es2 & -> & Hdel & Ht').
  rewrite Ht in Ht'. injection Ht' as -> ->.
  destruct (find_key_Some _ _ _ _ Hf) as [Hi <-].
  pose proof (lookup_lt_Some _ _ _ Hi) as Hilt.
  set (e' := set_score (next_score_ c) e).
  apply Forall_app in Hall as [Hall1 Hall2]. apply Forall_cons in Hall2 as [_ Hall2].
  set (c1 := mkCache (<[i := e']> (entries_ c)) (max_entries_ c) (next_score_ c)).
  destruct (IncrementScore_order c1 ((es1 ++ es2) ++ [e'])) as (es' & Hp' & Hs' & Hkv & Hall' & Hmax').
  - simpl. rewrite insert_take_drop by done. rewrite <- Permutation_middle, <- delete_take_drop, Hdel.
    by rewrite Permutation_cons_append.
  - apply (younger_last _ (next_score_ c)); [by eapply younger_delete|by apply Forall_app|done].
  - done.
  - apply Forall_app; split; [|by repeat constructor].
    apply Forall_app; split; (eapply Forall_impl; [eassumption|simpl; lia]).
  - rewrite length_fmap in Hlen. autorewrite with lsp in *. simpl in *. lia.
  - unfold TryGet. rewrite Hf. fold e' c1. cbn [fst snd]. split_and!.
    + exists es'. split_and!; try done.
      * by rewrite Hkv, (fmap_app kv (es1 ++ es2)).
      * rewrite fmap_app, fmap_cons in Hnd. apply NoDup_use_last in Hnd. by rewrite (fmap_app kv).
      * rewrite Hmax'. autorewrite with lsp in *. simpl in *. lia.
      * rewrite Hmax'. simpl. lia.
      * rewrite Hmax'. simpl. lia.
    + done.
    + intros Hpl. rewrite IncrementScore_plain by done. simpl.
      by rewrite list_lookup_insert_eq.
Qed.

Lemma TryTake_holds c l k v r :
  holds c l -> spec_take k l = Some (v, r) ->
  exists c', TryTake k c = (Some v, c') /\ holds c' r
    /\ max_entries_ c' = max_entries_ c /\ next_score_ c' = next_score_ c.
Proof.
  intros Hh Ht.
  destruct (find_key k (entries_ c)) as [[i e]|] eqn:Hf;
    [|apply (holds_find_None _ _ _ Hh) in Hf; by rewrite spec_take_None in Ht].
  destruct Hh as (es & Hp & Hs & -> & Hall & Hnd & Hlen & Hmax).
  destruct (find_key_order _ _ _ _ _ Hp Hnd Hf) as (es1 & es2 & -> & Hdel & Ht').
  rewrite Ht in Ht'. injection Ht' as -> ->.
  unfold TryTake. rewrite Hf. eexists. split; [done|]. split; [|done].
  exists (es1 ++ es2). split_and!; try done; simpl.
  - by eapply younger_delete.
  - apply Forall_app in Hall as [Hall1 Hall2]. apply Forall_cons in Hall2 as [_ Hall2]. by apply Forall_app.
  - rewrite fmap_app, fmap_cons in Hnd. apply NoDup_use_last in Hnd.
    rewrite fmap_app in Hnd. apply NoDup_app in Hnd as [Hnd _]. by rewrite (fmap_app kv).
  - autorewrite with lsp in *. simpl in *. lia.
  - lia.
  - lia.
Qed.

Lemma spec_insert_keys max k v (l : lru) :
  k ∉ l.*1 -> NoDup l.*1 -> NoDup (spec_insert max k v l).*1.
Proof.
  intros Hk Hnd. unfold spec_insert. rewrite fmap_app. simpl. apply NoDup_app.
  destruct (max <=? length l), l as [|[k0 v0] l]; simpl in *; try apply NoDup_cons in Hnd as [? ?];
    (split_and!; [by try constructor| |by apply NoDup_singleton]); set_solver.
Qed.

(** What the eviction leaves, in the order of use. *)
Lemma evict_order c es :
  entries_ c ≡ₚ es -> StronglySorted younger es -> (0 < max_entries_ c)%Z ->
  exists c' es',
    (if (max_entries_ c <=? Z.of_nat (length (entries_ c)))%Z then
      match min_element (entries_ c) with
      | Some i => Some (mkCache (delete i (entries_ c)) (max_entries_ c) (next_score_ c))
      | None => None
      end
    else Some c) = Some c'
    /\ max_entries_ c' = max_entries_ c /\ next_score_ c' = next_score_ c
    /\ entries_ c' ≡ₚ es' /\ es' = (if Z.to_nat (max_entries_ c) <=? length es then tail es else es).
Proof.
  intros Hp Hs Hmax. assert (Hlen : length (entries_ c) = length es) by (by rewrite Hp).
  rewrite Hlen.
  destruct (Z.leb_spec (max_entries_ c) (Z.of_nat (length es))) as [Hle|Hlt].
  - destruct es as [|e0 es]; [simpl in *; lia|].
    destruct (min_element_oldest _ _ _ Hp Hs) as (i & -> & Hd).
    eexists _, _. split_and!; [done..|exact Hd|].
    by destruct (Nat.leb_spec (Z.to_nat (max_entries_ c)) (length (e0 :: es))); [|lia].
  - exists c, es. split_and!; try done.
    by destruct (Nat.leb_spec (Z.to_nat (max_entries_ c)) (length es)); [lia|].
Qed.

Lemma Insert_holds c l k v :
  holds c l -> k ∉ l.*1 -> plain c ->
  exists c', Insert k v c = Some c' /\ holds c' (spec_insert (Z.to_nat (max_entries_ c)) k v l)
    /\ max_entries_ c' = max_entries_ c /\ next_score_ c' = (next_score_ c + 1)%N.
Proof.
  intros (es & Hp & Hs & -> & Hall & Hnd & Hlen & Hmax) Hk Hpl.
  destruct (evict_order _ _ Hp Hs) as (c1 & es1 & Hev & Hm1 & Hn1 & Hp1 & He1); [lia|].
  unfold Insert. rewrite Hev, IncrementScore_plain by (unfold plain in Hpl; by rewrite Hn1).
  eexists. split; [done|]. simpl. rewrite Hm1, Hn1. split; [|done].
  assert (StronglySorted younger es1 /\ Forall (fun e => (score e < next_score_ c)%N) es1) as [Hs1 Hall1].
  { rewrite He1. destruct (_ <=? _), es; simpl; try done. by inversion Hs; inversion Hall. }
  exists (es1 ++ [mkEntry (next_score_ c) k v]). cbn [entries_ max_entries_ next_score_]. split_and!; try lia.
  - by rewrite Hp1.
  - by apply (younger_last _ (next_score_ c)).
  - unfold spec_insert. rewrite length_fmap, fmap_app. f_equal.
    rewrite He1. by destruct (_ <=? _), es.
  - apply Forall_app; split; [|repeat constructor; simpl; lia].
    eapply Forall_impl; [exact Hall1|]. simpl. lia.
  - by apply spec_insert_keys.
  - unfold spec_insert. rewrite length_app. simpl. rewrite length_fmap in *.
    destruct (Nat.leb_spec (Z.to_nat (max_entries_ c)) (length es)).
    + destruct es; simpl in *; rewrite ?length_fmap; lia.
    + rewrite length_fmap. lia.
Qed.

(** ** Sequences of operations *)

Inductive cop :=
| CGet (k : TKey) (v : TValue)        (** the allocator returns [v] *)
| CHas (k : TKey)
| CTryGet (k : TKey)
| CTryTake (k : TKey)
| CInsert (k : TKey) (v : TValue)
| CClear.

Inductive cout := OValue (v : option TValue) | OBool (b : bool) | OUnit.

Definition exec_cop (op : cop) (c : LruCache) : option (cout * LruCache) :=
  match op with
  | CGet k v => match Get k (fun _ => v) c with Some (r, c') => Some (OValue (Some r), c') | None => None end
  | CHas k => Some (OBool (Has k c), c)
  | CTryGet k => let '(r, c') := TryGet k c in Some (OValue r, c')
  | CTryTake k => let '(r, c') := TryTake k c in Some (OValue r, c')
  | CInsert k v => match Insert k v c with Some c' => Some (OUnit, c') | None => None end
  | CClear => Some (OUnit, Clear c)
  end.

Definition spec_cop (max : nat) (op : cop) (l : lru) : cout * lru :=
  match op with
  | CGet k v =>
      match spec_take k l with
      | Some (v', _) => (OValue (Some v'), l)            (* not a use *)
      | None => (OValue (Some v), spec_insert max k v l)
      end
  | CHas k => (OBool (bool_decide (k ∈ l.*1)), l)
  | CTryGet k =>
      match spec_take k l with
      | Some (v, r) => (OValue (Some v), r ++ [(k, v)])
      | None => (OValue None, l)
      end
  | CTryTake k =>
      match spec_take k l with
      | Some (v, r) => (OValue (Some v), r)
      | None => (OValue None, l)
      end
  | CInsert k v => (OUnit, spec_insert max k v l)
  | CClear => (OUnit, [])
  end.

Fixpoint exec_cops (ops : list cop) (c : LruCache) : option (list cout * LruCache) :=
  match ops with
  | [] => Some ([], c)
  | op :: ops' =>
      match exec_cop op c with
      | None => None
      | Some (o, c1) =>
          match exec_cops ops' c1 with Some (os, c2) => Some (o :: os, c2) | None => None end
      end
  end.

(** The caller inserts a key only when it is not in the cache. *)
Definition fresh_insert (op : cop) (l : lru) : bool :=
  match op with CInsert k _ => bool_decide (k ∉ l.*1) | _ => true end.

Fixpoint spec_cops (max : nat) (ops : list cop) (l : lru) : list cout * lru * bool :=
  match ops with
  | [] => ([], l, true)
  | op :: ops' =>
      let '(o, l1) := spec_cop max op l in
      let '(os, l2, ok) := spec_cops max ops' l1 in
      (o :: os, l2, fresh_insert op l && ok)
  end.

Lemma Clear_holds c l : holds c l -> holds (Clear c) [].
Proof.
  intros (es & _ & _ & _ & _ & _ & _ & Hmax). exists [].
  split_and!; simpl; try done; try lia; constructor.
Qed.

(** The search finds what the specification finds. *)
Lemma holds_lookup c l k :
  holds c l ->
  match spec_take k l with
  | Some (v, _) => exists i e, find_key k (entries_ c) = Some (i, e) /\ value e = v /\ k ∈ l.*1
  | None => find_key k (entries_ c) = None /\ k ∉ l.*1
  end.
Proof.
  intros Hh. destruct (find_key k (entries_ c)) as [[i e]|] eqn:Hf.
  - assert (k ∈ l.*1) as Hin.
    { destruct (decide (k ∈ l.*1)) as [|Hn]; [done|]. apply (holds_find_None _ _ _ Hh) in Hn. congruence. }
    destruct Hh as (es & Hp & Hs & -> & Hall & Hnd & Hlen & Hmax).
    destruct (find_key_order _ _ _ _ _ Hp Hnd Hf) as (es1 & es2 & _ & _ & ->). by exists i, e.
  - pose proof Hf as Hn. apply (holds_find_None _ _ _ Hh) in Hn. by rewrite spec_take_None.
Qed.

Lemma exec_cop_refines op c l :
  holds c l -> plain c -> fresh_insert op l = true ->
  exists c', exec_cop op c = Some ((spec_cop (Z.to_nat (max_entries_ c)) op l).1, c')
    /\ holds c' (spec_cop (Z.to_nat (max_entries_ c)) op l).2
    /\ max_entries_ c' = max_entries_ c /\ (next_score_ c' <= next_score_ c + 1)%N.
Proof.
  intros Hh Hpl Hok. assert (next_score_ c < 2 ^ 32)%N as Hn by (unfold plain in Hpl; lia).
  destruct op as [k v|k|k|k|k v|]; simpl in *; try pose proof (holds_lookup _ _ k Hh) as Hl.
  - unfold Get. destruct (spec_take k l) as [[v' r]|].
    + destruct Hl as (i & e & -> & -> & _). exists c. split_and!; try done. lia.
    + destruct Hl as [-> Hk]. destruct (Insert_holds _ _ k v Hh Hk Hpl) as (c' & -> & H1 & H2 & H3).
      exists c'. split_and!; try done. lia.
  - unfold Has. exists c. destruct (spec_take k l) as [[v' r]|].
    + destruct Hl as (i & e & -> & _ & ?). rewrite bool_decide_true by done. split_and!; try done. lia.
    + destruct Hl as [-> Hk]. rewrite bool_decide_false by done. split_and!; try done. lia.
  - destruct (spec_take k l) as [[v' r]|] eqn:Ht.
    + destruct (TryGet_holds _ _ _ _ _ Hh Hn Ht) as (H1 & H2 & H3). destruct (H3 Hpl) as [E H4].
      destruct (TryGet k c) as [o c']. simpl in *. subst o. exists c'. split_and!; try done. lia.
    + unfold TryGet. destruct Hl as [-> _]. exists c. split_and!; try done. lia.
  - destruct (spec_take k l) as [[v' r]|] eqn:Ht.
    + destruct (TryTake_holds _ _ _ _ _ Hh Ht) as (c' & -> & H1 & H2 & H3).
      exists c'. split_and!; try done. lia.
    + unfold TryTake. destruct Hl as [-> _]. exists c. split_and!; try done. lia.
  - apply bool_decide_eq_true in Hok.
    destruct (Insert_holds _ _ k v Hh Hok Hpl) as (c' & -> & H1 & H2 & H3).
    exists c'. split_and!; try done. lia.
  - exists (Clear c). split_and!; simpl; try done; [by eapply Clear_holds|lia].
Qed.

Lemma exec_cops_refines ops c l :
  holds c l -> (next_score_ c + N.of_nat (length ops) < 2 ^ 32)%N ->
  forall os l' , spec_cops (Z.to_nat (max_entries_ c)) ops l = (os, l', true) ->
  exists c', exec_cops ops c = Some (os, c') /\ holds c' l' /\ max_entries_ c' = max_entries_ c.
Proof.
  revert c l. induction ops as [|op ops IH]; intros c l Hh Hn os l' Hsp; simpl in Hsp.
  - injection Hsp as <- <-. by exists c.
  - destruct (spec_cop _ op l) as [o l1] eqn:H1. destruct (spec_cops _ ops l1) as [[os' l2] ok] eqn:H2.
    injection Hsp as <- <- [Hf ->]%andb_true_iff. simpl length in Hn.
    destruct (exec_cop_refines op c l Hh) as (c1 & He & Hh1 & Hm & Hn1); [unfold plain; lia|done|].
    rewrite H1 in He, Hh1. rewrite <- Hm in H2.
    destruct (IH c1 l1 Hh1) with (os := os') (l' := l2) as (c' & He' & Hh' & Hm'); [lia|done|].
    exists c'. split_and!; [|done|congruence]. simpl in *. by rewrite He, He'.
Qed.

Lemma new_holds max : (0 < max <= INT_MAX)%Z -> holds (new_cache max) [].
Proof. intros Hm. exists []. split_and!; simpl; try done; try lia; constructor. Qed.

(** C23. Any sequence of fewer than 2^32 operations on a new cache, in which a key
    is inserted only when it is not there, behaves like the list of entries in
    the order of their last use: every result is the specified one, the entry
    evicted is always the one whose insertion or [TryGet] is longest ago, and
    the cache never exceeds its limit. *)
Theorem lru_refines (max : Z) (ops : list cop) (os : list cout) (l : lru) :
  (0 < max <= INT_MAX)%Z -> (N.of_nat (length ops) < 2 ^ 32)%N ->
  spec_cops (Z.to_nat max) ops [] = (os, l, true) ->
  exists c, exec_cops ops (new_cache max) = Some (os, c) /\ holds c l
    /\ (Z.of_nat (length (entries_ c)) <= max)%Z.
Proof.
  intros Hm Hn Hsp. destruct (exec_cops_refines ops (new_cache max) []) with (os := os) (l' := l)
    as (c & He & Hh & Hmax); [by apply new_holds|simpl; lia|done|].
  exists c. split_and!; [done..|]. destruct Hh as (es & Hp & _ & -> & _ & _ & Hlen & _).
  rewrite Hp, <- (length_fmap kv). by rewrite Hmax in Hlen.
Qed.

Definition cstep (c c' : LruCache) : Prop := exists op o, exec_cop op c = Some (o, c').

End Cache.
Arguments Entry TKey TValue : clear implicits.
Arguments LruCache TKey TValue : clear implicits.
Arguments cop TKey TValue : clear implicits.

Definition sample_cops : list (cop Z Z) :=
  [CInsert 1 10; CInsert 2 20; CTryGet 1; CGet 2 0; CInsert 3 30; CHas 2; CTryGet 1; CTryTake 3; CGet 4 40]%Z.

Lemma lru_refines_witness :
  exists c, exec_cops sample_cops (new_cache 2) =
      Some ([OUnit; OUnit; OValue (Some 10); OValue (Some 20); OUnit; OBool false;
             OValue (Some 10); OValue (Some 30); OValue (Some 40)]%Z, c)
    /\ holds c [(1, 10); (4, 40)]%Z /\ (Z.of_nat (length (entries_ c)) <= 2)%Z.
Proof. apply (lru_refines 2 sample_cops); [unfold INT_MAX; lia|reflexivity|reflexivity]. Defined.

(** ** Wrap-around of the scores

    Two entries, the second of which is used over and over. *)
Definition spun (m : N) : LruCache Z Z := mkCache [mkEntry 0 2 20; mkEntry (m - 1) 1 10]%Z 2 m.

Lemma spun_step (m : N) : (2 <= m)%N -> (m + 1 < 2 ^ 32)%N -> cstep (spun m) (spun (m + 1)).
Proof.
  intros H2 Hm. exists (CTryGet 1%Z), (OValue (Some 10%Z)). unfold exec_cop, TryGet.
  replace (find_key 1%Z (entries_ (spun m))) with (Some (1, mkEntry (m - 1) 1%Z 10%Z)) by reflexivity.
  rewrite IncrementScore_plain by done. unfold spun. simpl. by rewrite N.add_sub.
Qed.

Lemma spun_reachable (d : N) : (2 + d < 2 ^ 32)%N -> rtc cstep (new_cache 2) (spun (2 + d)).
Proof.
  induction d as [|d IH] using N.peano_ind; intros Hd.
  - eapply rtc_l; [by exists (CInsert 2%Z 20%Z), OUnit|].
    eapply rtc_l; [by exists (CInsert 1%Z 10%Z), OUnit|]. apply rtc_refl.
  - eapply rtc_r; [apply IH; lia|]. replace (2 + N.succ d)%N with (2 + d + 1)%N by lia.
    apply spun_step; lia.
Qed.

(** When the counter wraps around in [TryGet], the entries are sorted under the
    reference [entry]: there is a reachable cache in which [Get] gives 20 for
    the key 2 and [TryGet] gives 10, the value of another key. *)
Theorem TryGet_wrong_at_wraparound :
  exists c : LruCache Z Z, rtc cstep (new_cache 2) c
    /\ Get 2%Z (fun _ => 0%Z) c = Some (20%Z, c) /\ (TryGet 2%Z c).1 = Some 10%Z.
Proof.
  exists (spun (2 + (2 ^ 32 - 3))). split_and!; [apply spun_reachable; lia|vm_compute; reflexivity..].
Qed.

(** When it wraps around in [Insert], the new entry keeps the score
    0xFFFFFFFF while the counter starts again: the entry outlives entries that
    were used after it. *)
Theorem Insert_pinned_at_wraparound :
  exists c : LruCache Z Z, rtc cstep (new_cache 2) c
    /\ fst <$> exec_cops [CInsert 3 30; CInsert 4 40; CInsert 5 50; CHas 3; CHas 4]%Z c
       = Some [OUnit; OUnit; OUnit; OBool true; OBool false]
    /\ (spec_cops 2 [CInsert 3 30; CInsert 4 40; CInsert 5 50; CHas 3; CHas 4]%Z [(2, 20); (1, 10)]%Z).1.1
       = [OUnit; OUnit; OUnit; OBool false; OBool true].
Proof.
  exists (spun (2 + (2 ^ 32 - 3))). split_and!; [apply spun_reachable; lia|vm_compute; reflexivity..].
Qed.
