(* ===== verification/Protocol.v ===== *)
(** * The parsers of the protocol

    [ProtocolJsonHandler] (src/lsp/ProtocolJsonHandler.cpp): which message
    types have parsers for requests, responses and notifications, under which
    method names (the [DEFINE_..._TYPE] declarations of include/LibLsp), for
    every choice of options.

    The readers of the parameter and result types are arguments: what is shown
    holds for all of them. *)
From S2P Require Import Prelude CppString Json Reflect RequestId Framing Message Envelope Cancellation.
From S2P Require Import Reorder Ordered Pending RemoteEndPoint Handlers.

(** ** Message types and their methods *)

Inductive request_type :=
| td_initialize | td_shutdown | td_codeAction | td_codeLens | td_completion | td_definition | td_declaration
| td_willSaveWaitUntil | td_highlight | td_links | td_linkResolve | td_symbol | td_formatting | td_hover
| td_implementation | td_rangeFormatting | td_references | td_rename | td_signatureHelp | td_typeDefinition
| wp_executeCommand | wp_symbol | td_typeHierarchy | completionItem_resolve | codeLens_resolve
| td_colorPresentation | td_documentColor | td_foldingRange | td_prepareRename | typeHierarchy_resolve
| td_selectionRange | td_semanticTokens_full | td_semanticTokens_full_delta | td_inlayHint
| td_inlayHintResolve | td_diagnostic | workspace_diagnostic | td_inlineValue | td_inlineCompletion
| td_rangesFormatting | workspace_textDocumentContent | workspace_textDocumentContent_refresh
| workspace_foldingRange_refresh | workspace_inlineValue_refresh | codeAction_resolve
| workspaceSymbol_resolve | java_classFileContents | java_buildWorkspace | java_listOverridableMethods
| java_checkHashCodeEqualsStatus | java_addOverridableMethods | java_checkConstructorsStatus
| java_checkDelegateMethodsStatus | java_checkToStringStatus | java_generateAccessors
| java_generateConstructors | java_generateDelegateMethods | java_generateHashCodeEquals
| java_generateToString | java_getMoveDestinations | java_getRefactorEdit | java_move | java_organizeImports
| java_resolveUnimplementedAccessors | java_searchSymbols | td_didRenameFiles | td_willRenameFiles
| WorkspaceConfiguration | WorkspaceFolders | Req_ClientRegisterCapability | Req_ClientUnregisterCapability
| td_onTypeFormatting | WorkspaceApply | workspace_semanticTokens_refresh | workspace_inlayHint_refresh
| workspace_diagnostic_refresh.

#[export] Instance request_type_eq_dec : EqDecision request_type.
Proof. solve_decision. Defined.

(** [kMethodInfo] of the request *)
Definition request_method (t : request_type) : bytes :=
  match t with
  | td_initialize => lit "initialize"
  | td_shutdown => lit "shutdown"
  | td_codeAction => lit "textDocument/codeAction"
  | td_codeLens => lit "textDocument/codeLens"
  | td_completion => lit "textDocument/completion"
  | td_definition => lit "textDocument/definition"
  | td_declaration => lit "textDocument/declaration"
  | td_willSaveWaitUntil => lit "textDocument/willSaveWaitUntil"
  | td_highlight => lit "textDocument/documentHighlight"
  | td_links => lit "textDocument/documentLink"
  | td_linkResolve => lit "documentLink/resolve"
  | td_symbol => lit "textDocument/documentSymbol"
  | td_formatting => lit "textDocument/formatting"
  | td_hover => lit "textDocument/hover"
  | td_implementation => lit "textDocument/implementation"
  | td_rangeFormatting => lit "textDocument/rangeFormatting"
  | td_references => lit "textDocument/references"
  | td_rename => lit "textDocument/rename"
  | td_signatureHelp => lit "textDocument/signatureHelp"
  | td_typeDefinition => lit "textDocument/typeDefinition"
  | wp_executeCommand => lit "workspace/executeCommand"
  | wp_symbol => lit "workspace/symbol"
  | td_typeHierarchy => lit "textDocument/typeHierarchy"
  | completionItem_resolve => lit "completionItem/resolve"
  | codeLens_resolve => lit "codeLens/resolve"
  | td_colorPresentation => lit "textDocument/colorPresentation"
  | td_documentColor => lit "textDocument/documentColor"
  | td_foldingRange => lit "textDocument/foldingRange"
  | td_prepareRename => lit "textDocument/prepareRename"
  | typeHierarchy_resolve => lit "typeHierarchy/resolve"
  | td_selectionRange => lit "textDocument/selectionRange"
  | td_semanticTokens_full => lit "textDocument/semanticTokens/full"
  | td_semanticTokens_full_delta => lit "textDocument/semanticTokens/full/delta"
  | td_inlayHint => lit "textDocument/inlayHint"
  | td_inlayHintResolve => lit "inlayHint/resolve"
  | td_diagnostic => lit "textDocument/diagnostic"
  | workspace_diagnostic => lit "workspace/diagnostic"
  | td_inlineValue => lit "textDocument/inlineValue"
  | td_inlineCompletion => lit "textDocument/inlineCompletion"
  | td_rangesFormatting => lit "textDocument/rangesFormatting"
  | workspace_textDocumentContent => lit "workspace/textDocumentContent"
  | workspace_textDocumentContent_refresh => lit "workspace/textDocumentContent/refresh"
  | workspace_foldingRange_refresh => lit "workspace/foldingRange/refresh"
  | workspace_inlineValue_refresh => lit "workspace/inlineValue/refresh"
  | codeAction_resolve => lit "codeAction/resolve"
  | workspaceSymbol_resolve => lit "workspaceSymbol/resolve"
  | java_classFileContents => lit "java/classFileContents"
  | java_buildWorkspace => lit "java/buildWorkspace"
  | java_listOverridableMethods => lit "java/listOverridableMethods"
  | java_checkHashCodeEqualsStatus => lit "java/checkHashCodeEqualsStatus"
  | java_addOverridableMethods => lit "java/addOverridableMethods"
  | java_checkConstructorsStatus => lit "java/checkConstructorsStatus"
  | java_checkDelegateMethodsStatus => lit "java/checkDelegateMethodsStatus"
  | java_checkToStringStatus => lit "java/checkToStringStatus"
  | java_generateAccessors => lit "java/generateAccessors"
  | java_generateConstructors => lit "java/generateConstructors"
  | java_generateDelegateMethods => lit "java/generateDelegateMethods"
  | java_generateHashCodeEquals => lit "java/generateHashCodeEquals"
  | java_generateToString => lit "java/generateToString"
  | java_getMoveDestinations => lit "java/getMoveDestinations"
  | java_getRefactorEdit => lit "java/getRefactorEdit"
  | java_move => lit "java/move"
  | java_organizeImports => lit "java/organizeImports"
  | java_resolveUnimplementedAccessors => lit "java/resolveUnimplementedAccessors"
  | java_searchSymbols => lit "java/searchSymbols"
  | td_didRenameFiles => lit "java/didRenameFiles"
  | td_willRenameFiles => lit "java/willRenameFiles"
  | WorkspaceConfiguration => lit "workspace/configuration"
  | WorkspaceFolders => lit "workspace/workspaceFolders"
  | Req_ClientRegisterCapability => lit "client/registerCapability"
  | Req_ClientUnregisterCapability => lit "client/unregisterCapability"
  | td_onTypeFormatting => lit "textDocument/onTypeFormatting"
  | WorkspaceApply => lit "workspace/applyEdit"
  | workspace_semanticTokens_refresh => lit "workspace/semanticTokens/refresh"
  | workspace_inlayHint_refresh => lit "workspace/inlayHint/refresh"
  | workspace_diagnostic_refresh => lit "workspace/diagnostic/refresh"
  end.

Inductive notify_type :=
| java_projectConfigurationUpdate | Notify_Exit | Notify_InitializedNotification
| Notify_TextDocumentDidChange | Notify_TextDocumentDidClose | Notify_TextDocumentDidOpen
| Notify_TextDocumentDidSave | Notify_TextDocumentPublishDiagnostics | Notify_semanticHighlighting
| td_willSave | Notify_LogMessage | Notify_ShowMessage | Notify_Progress
| Notify_WorkspaceDidChangeWorkspaceFolders | Notify_WorkspaceDidChangeConfiguration
| Notify_WorkspaceDidChangeWatchedFiles | Notify_sendNotification | lang_status
| lang_actionableNotification | lang_progressReport | lang_eventNotification.

#[export] Instance notify_type_eq_dec : EqDecision notify_type.
Proof. solve_decision. Defined.

Definition notify_method (t : notify_type) : bytes :=
  match t with
  | java_projectConfigurationUpdate => lit "java/projectConfigurationUpdate"
  | Notify_Exit => lit "exit"
  | Notify_InitializedNotification => lit "initialized"
  | Notify_TextDocumentDidChange => lit "textDocument/didChange"
  | Notify_TextDocumentDidClose => lit "textDocument/didClose"
  | Notify_TextDocumentDidOpen => lit "textDocument/didOpen"
  | Notify_TextDocumentDidSave => lit "textDocument/didSave"
  | Notify_TextDocumentPublishDiagnostics => lit "textDocument/publishDiagnostics"
  | Notify_semanticHighlighting => lit "textDocument/semanticHighlighting"
  | td_willSave => lit "textDocument/willSave"
  | Notify_LogMessage => lit "window/logMessage"
  | Notify_ShowMessage => lit "window/showMessage"
  | Notify_Progress => lit "$/progress"
  | Notify_WorkspaceDidChangeWorkspaceFolders => lit "workspace/didChangeWorkspaceFolders"
  | Notify_WorkspaceDidChangeConfiguration => lit "workspace/didChangeConfiguration"
  | Notify_WorkspaceDidChangeWatchedFiles => lit "workspace/didChangeWatchedFiles"
  | Notify_sendNotification => lit "workspace/notify"
  | lang_status => lit "language/status"
  | lang_actionableNotification => lit "language/actionableNotification"
  | lang_progressReport => lit "language/progressReport"
  | lang_eventNotification => lit "language/eventNotification"
  end.

(** ** The registrations, in the order of the source *)

Definition standard_responses1 : list request_type :=
  [ td_initialize; td_shutdown; td_codeAction; td_codeLens; td_completion; td_definition; td_declaration;
   td_willSaveWaitUntil; td_highlight; td_links; td_linkResolve; td_symbol; td_formatting; td_hover;
   td_implementation; td_rangeFormatting].

Definition standard_responses2 : list request_type :=
  [ td_references; td_rename; td_signatureHelp; td_typeDefinition; wp_executeCommand; wp_symbol;
   td_typeHierarchy; completionItem_resolve; codeLens_resolve; td_colorPresentation; td_documentColor;
   td_foldingRange; td_prepareRename; typeHierarchy_resolve; td_selectionRange; td_semanticTokens_full].

Definition standard_responses3 : list request_type :=
  [ td_semanticTokens_full_delta; td_inlayHint; td_inlayHintResolve; td_diagnostic; workspace_diagnostic;
   td_inlineValue; td_inlineCompletion; td_rangesFormatting; workspace_textDocumentContent;
   workspace_textDocumentContent_refresh; workspace_foldingRange_refresh; workspace_inlineValue_refresh;
   codeAction_resolve; workspaceSymbol_resolve].

Definition standard_responses : list request_type :=
  standard_responses1 ++ standard_responses2 ++ standard_responses3.

Definition jdtls_responses1 : list request_type :=
  [ java_classFileContents; java_buildWorkspace; java_listOverridableMethods; java_listOverridableMethods;
   java_checkHashCodeEqualsStatus; java_addOverridableMethods; java_checkConstructorsStatus;
   java_checkDelegateMethodsStatus; java_checkToStringStatus; java_generateAccessors;
   java_generateConstructors; java_generateDelegateMethods].

Definition jdtls_responses2 : list request_type :=
  [ java_generateHashCodeEquals; java_generateToString; java_generateToString; java_getMoveDestinations;
   java_getRefactorEdit; java_move; java_organizeImports; java_resolveUnimplementedAccessors;
   java_searchSymbols; td_didRenameFiles; td_willRenameFiles].

Definition jdtls_responses : list request_type := jdtls_responses1 ++ jdtls_responses2.

Definition jdtls_requests : list request_type :=
  [ td_didRenameFiles; td_willRenameFiles].

Definition jdtls_notifications : list notify_type :=
  [ java_projectConfigurationUpdate].

Definition client_requests : list request_type :=
  [ WorkspaceConfiguration; WorkspaceFolders].

Definition capability_requests : list request_type :=
  [ Req_ClientRegisterCapability; Req_ClientUnregisterCapability].

Definition standard_notifications : list notify_type :=
  [ Notify_Exit; Notify_InitializedNotification; Notify_TextDocumentDidChange; Notify_TextDocumentDidClose;
   Notify_TextDocumentDidOpen; Notify_TextDocumentDidSave; Notify_TextDocumentPublishDiagnostics;
   Notify_semanticHighlighting; td_willSave; Notify_LogMessage; Notify_ShowMessage; Notify_Progress;
   Notify_WorkspaceDidChangeWorkspaceFolders; Notify_WorkspaceDidChangeConfiguration;
   Notify_WorkspaceDidChangeWatchedFiles; Notify_sendNotification; lang_status; lang_actionableNotification;
   lang_progressReport; lang_eventNotification].

Definition standard_requests : list request_type :=
  [ td_initialize; td_shutdown; td_codeAction; td_codeLens; td_completion; td_definition; td_declaration;
   td_references; td_rename; wp_symbol; td_willSaveWaitUntil; td_highlight; td_links; td_linkResolve;
   td_symbol; td_formatting; td_hover; td_signatureHelp; td_implementation; td_foldingRange;
   wp_executeCommand; td_semanticTokens_full; td_semanticTokens_full_delta; td_inlayHint; td_inlayHintResolve;
   td_diagnostic; workspace_diagnostic; td_inlineValue; td_inlineCompletion; td_rangesFormatting;
   workspace_textDocumentContent; workspace_textDocumentContent_refresh; workspace_foldingRange_refresh;
   workspace_inlineValue_refresh; codeAction_resolve; workspaceSymbol_resolve].

Definition experimental_requests : list request_type :=
  [ td_prepareRename; td_selectionRange; td_typeDefinition; td_rangeFormatting; td_onTypeFormatting;
   WorkspaceApply].

Definition experimental_responses : list request_type :=
  [ td_onTypeFormatting; WorkspaceApply].

Definition refresh_requests : list request_type :=
  [ workspace_semanticTokens_refresh; workspace_inlayHint_refresh; workspace_diagnostic_refresh].

Definition refresh_responses : list request_type :=
  [ workspace_semanticTokens_refresh; workspace_inlayHint_refresh; workspace_diagnostic_refresh].

(** ** The constructor *)

(** [ProtocolJsonHandlerOptions], all false by default *)
Record ProtocolJsonHandlerOptions := mkOptions {
  enableJdtlsExtensions : bool;
  enableExperimentalStandardRequests : bool;
  enableServerRefreshRequests : bool
}.
Definition default_options : ProtocolJsonHandlerOptions := mkOptions false false false.

Section Handler.
Variable request_parser : request_type -> parser.   (** [T::request::ReflectReader] *)
Variable result_parser : request_type -> parser.    (** [T::response::ReflectReader] *)
Variable notify_parser : notify_type -> parser.     (** [T::notify::ReflectReader] *)
Variable error_parser : parser.                     (** [Rsp_Error::ReflectReader] *)

(** The parser under [method2response] *)
Definition parser_of_response (t : request_type) : parser := response_parser error_parser (result_parser t).

(** The parser under [method2request]; the one of [willSaveWaitUntil] tests
    for a member [error] like a response *)
Definition parser_of_request (t : request_type) : parser :=
  match t with
  | td_willSaveWaitUntil => response_parser error_parser (request_parser t)
  | _ => request_parser t
  end.

Definition set_responses (l : list request_type) (h : MessageJsonHandler) : MessageJsonHandler :=
  foldl (fun h t => SetResponseJsonHandler (request_method t) (parser_of_response t) h) h l.
Definition set_requests (l : list request_type) (h : MessageJsonHandler) : MessageJsonHandler :=
  foldl (fun h t => SetRequestJsonHandler (request_method t) (parser_of_request t) h) h l.
Definition set_notifications (l : list notify_type) (h : MessageJsonHandler) : MessageJsonHandler :=
  foldl (fun h t => SetNotificationJsonHandler (notify_method t) (notify_parser t) h) h l.

Definition AddStadardResponseJsonRpcMethod := set_responses standard_responses.
Definition AddJdtlsExtensionJsonRpcMethod (h : MessageJsonHandler) :=
  set_notifications jdtls_notifications (set_requests jdtls_requests (set_responses jdtls_responses h)).
Definition AddClientRequestJsonRpcMethod := set_requests client_requests.
Definition AddNotifyJsonRpcMethod := set_notifications standard_notifications.
Definition AddRequstJsonRpcMethod := set_requests capability_requests.
Definition AddStandardRequestJsonRpcMethod := set_requests standard_requests.
Definition AddExperimentalStandardRequestJsonRpcMethod (h : MessageJsonHandler) :=
  set_responses experimental_responses (set_requests experimental_requests h).
Definition AddServerRefreshRequestJsonRpcMethod (h : MessageJsonHandler) :=
  set_responses refresh_responses (set_requests refresh_requests h).

Definition ProtocolJsonHandler (o : ProtocolJsonHandlerOptions) : MessageJsonHandler :=
  let h := mkJsonHandler ∅ ∅ ∅ in
  let h := AddStadardResponseJsonRpcMethod h in
  let h := AddNotifyJsonRpcMethod h in
  let h := AddStandardRequestJsonRpcMethod h in
  let h := AddRequstJsonRpcMethod h in
  let h := AddClientRequestJsonRpcMethod h in
  let h := if enableJdtlsExtensions o then AddJdtlsExtensionJsonRpcMethod h else h in
  let h := if enableExperimentalStandardRequests o then AddExperimentalStandardRequestJsonRpcMethod h else h in
  if enableServerRefreshRequests o then AddServerRefreshRequestJsonRpcMethod h else h.

End Handler.

(** ** What is registered, as lists *)

Definition when {A} (b : bool) (l : list A) : list A := if b then l else [].

Definition responses_of (o : ProtocolJsonHandlerOptions) : list request_type :=
  standard_responses ++ when (enableJdtlsExtensions o) jdtls_responses ++
  when (enableExperimentalStandardRequests o) experimental_responses ++
  when (enableServerRefreshRequests o) refresh_responses.
Definition requests_of (o : ProtocolJsonHandlerOptions) : list request_type :=
  standard_requests ++ capability_requests ++ client_requests ++ when (enableJdtlsExtensions o) jdtls_requests ++
  when (enableExperimentalStandardRequests o) experimental_requests ++
  when (enableServerRefreshRequests o) refresh_requests.
Definition notifications_of (o : ProtocolJsonHandlerOptions) : list notify_type :=
  standard_notifications ++ when (enableJdtlsExtensions o) jdtls_notifications.

(** ** Methods tell the types apart *)

Lemma fmap_inj_in {A B} (f : A -> B) (l : list A) x y :
  NoDup (f <$> l) -> x ∈ l -> y ∈ l -> f x = f y -> x = y.
Proof.
  induction l as [|a l IH]; [set_solver|]. cbn. rewrite NoDup_cons. intros [Ha Hl] Hx Hy E.
  apply elem_of_cons in Hx as [->|Hx]; apply elem_of_cons in Hy as [->|Hy]; [done| | |by apply IH].
  - destruct Ha. rewrite E. by apply list_elem_of_fmap_2.
  - destruct Ha. rewrite <- E. by apply list_elem_of_fmap_2.
Qed.

(** Every type once; the Java methods and the requests to the client included *)
Definition all_requests : list request_type :=
  standard_responses ++ remove_dups jdtls_responses ++ experimental_responses ++ refresh_responses ++
  client_requests ++ capability_requests.
Definition all_notifications : list notify_type := standard_notifications ++ jdtls_notifications.

#[export] Instance request_method_inj : Inj (=) (=) request_method.
Proof.
  intros x y. apply (fmap_inj_in _ all_requests).
  - apply (bool_decide_unpack _). vm_compute. reflexivity.
  - by destruct x; apply (bool_decide_unpack _); vm_compute.
  - by destruct y; apply (bool_decide_unpack _); vm_compute.
Qed.

#[export] Instance notify_method_inj : Inj (=) (=) notify_method.
Proof.
  intros x y. apply (fmap_inj_in _ all_notifications).
  - apply (bool_decide_unpack _). vm_compute. reflexivity.
  - by destruct x; apply (bool_decide_unpack _); vm_compute.
  - by destruct y; apply (bool_decide_unpack _); vm_compute.
Qed.

(** ** Tables filled one entry after the other *)
Section Table.
Context {T V : Type} `{EqDecision T} (key_of : T -> bytes) (value_of : T -> V) `{!Inj (=) (=) key_of}.

Definition fill (l : list T) (m : gmap bytes V) : gmap bytes V :=
  foldl (fun m t => <[key_of t := value_of t]> m) m l.

Lemma fill_app l1 l2 m : fill (l1 ++ l2) m = fill l2 (fill l1 m).
Proof. apply foldl_app. Qed.

Lemma fill_lookup l m t :
  fill l m !! key_of t = if bool_decide (t ∈ l) then Some (value_of t) else m !! key_of t.
Proof using Type*.
  revert m. induction l as [|a l IH]; intros m; [done|].
  change (fill (a :: l) m) with (fill l (<[key_of a := value_of a]> m)). rewrite IH.
  destruct (decide (t ∈ l)) as [Hl|Hl].
  - rewrite !bool_decide_eq_true_2 by set_solver. done.
  - rewrite (bool_decide_eq_false_2 (t ∈ l)) by done. destruct (decide (t = a)) as [->|Ha].
    + rewrite bool_decide_eq_true_2 by set_solver. apply lookup_insert_eq.
    + rewrite bool_decide_eq_false_2 by set_solver. apply lookup_insert_ne.
      intros E. by apply Ha, (inj key_of).
Qed.

Lemma fill_when (b : bool) l m : (if b then fill l m else m) = fill (when b l) m.
Proof. by destruct b. Qed.

Lemma fill_empty l t : fill l ∅ !! key_of t = if bool_decide (t ∈ l) then Some (value_of t) else None.
Proof using Type*. by rewrite fill_lookup, lookup_empty. Qed.

Lemma fill_other l m k : (forall t, key_of t <> k) -> fill l m !! k = m !! k.
Proof.
  intros Hk. revert m. induction l as [|a l IH]; intros m; [done|].
  change (fill (a :: l) m) with (fill l (<[key_of a := value_of a]> m)). rewrite IH.
  by apply lookup_insert_ne.
Qed.
End Table.

Section Tables.
Variable request_parser result_parser : request_type -> parser.
Variable notify_parser : notify_type -> parser.
Variable error_parser : parser.
Notation response_of := (parser_of_response result_parser error_parser).
Notation request_of := (parser_of_request request_parser error_parser).

Lemma set_responses_fill l r p n :
  set_responses result_parser error_parser l (mkJsonHandler r p n) =
  mkJsonHandler r (fill request_method response_of l p) n.
Proof. revert p. induction l as [|t l IH]; intros p; [done|exact (IH _)]. Qed.

Lemma set_requests_fill l r p n :
  set_requests request_parser error_parser l (mkJsonHandler r p n) =
  mkJsonHandler (fill request_method request_of l r) p n.
Proof. revert r. induction l as [|t l IH]; intros r; [done|exact (IH _)]. Qed.

Lemma set_notifications_fill l r p n :
  set_notifications notify_parser l (mkJsonHandler r p n) =
  mkJsonHandler r p (fill notify_method notify_parser l n).
Proof. revert n. induction l as [|t l IH]; intros n; [done|exact (IH _)]. Qed.

Opaque fill.

Notation handler_of := (ProtocolJsonHandler request_parser result_parser notify_parser error_parser).

Lemma if_handlers (b : bool) r1 p1 n1 r2 p2 n2 :
  (if b then mkJsonHandler r1 p1 n1 else mkJsonHandler r2 p2 n2) =
  mkJsonHandler (if b then r1 else r2) (if b then p1 else p2) (if b then n1 else n2).
Proof. by destruct b. Qed.

Lemma if_same {A} (b : bool) (x : A) : (if b then x else x) = x.
Proof. by destruct b. Qed.

(** The constructor fills each table with the types of its list. *)
Lemma protocol_fill o :
  handler_of o =
  mkJsonHandler (fill request_method request_of (requests_of o) ∅)
    (fill request_method response_of (responses_of o) ∅)
    (fill notify_method notify_parser (notifications_of o) ∅).
Proof.
  unfold ProtocolJsonHandler, AddStadardResponseJsonRpcMethod, AddNotifyJsonRpcMethod,
    AddStandardRequestJsonRpcMethod, AddRequstJsonRpcMethod, AddClientRequestJsonRpcMethod,
    AddJdtlsExtensionJsonRpcMethod, AddExperimentalStandardRequestJsonRpcMethod,
    AddServerRefreshRequestJsonRpcMethod, requests_of, responses_of, notifications_of.
  cbv zeta. rewrite !fill_app.
  repeat rewrite ?set_responses_fill, ?set_requests_fill, ?set_notifications_fill, ?if_handlers, ?fill_when, ?if_same.
  reflexivity.
Qed.

Lemma request_lookup o t :
  method2request (handler_of o) !! request_method t =
  if bool_decide (t ∈ requests_of o) then Some (request_of t) else None.
Proof. rewrite protocol_fill. apply (fill_empty _ _). Qed.

Lemma response_lookup o t :
  method2response (handler_of o) !! request_method t =
  if bool_decide (t ∈ responses_of o) then Some (response_of t) else None.
Proof. rewrite protocol_fill. apply (fill_empty _ _). Qed.

Lemma notification_lookup o n :
  method2notification (handler_of o) !! notify_method n =
  if bool_decide (n ∈ notifications_of o) then Some (notify_parser n) else None.
Proof. rewrite protocol_fill. apply (fill_empty _ _). Qed.

(** Under every choice of options, each table holds for each of its types
    exactly the parser of that type under the type's method, and nothing
    else: no registration replaces another, and no method reaches the parser
    of another type. *)
Theorem protocol_tables (o : ProtocolJsonHandlerOptions) (t : request_type) (n : notify_type) (m : bytes) :
  method2request (handler_of o) !! request_method t =
    (if bool_decide (t ∈ requests_of o) then Some (request_of t) else None) /\
  method2response (handler_of o) !! request_method t =
    (if bool_decide (t ∈ responses_of o) then Some (response_of t) else None) /\
  method2notification (handler_of o) !! notify_method n =
    (if bool_decide (n ∈ notifications_of o) then Some (notify_parser n) else None) /\
  ((forall t, request_method t <> m) ->
     method2request (handler_of o) !! m = None /\ method2response (handler_of o) !! m = None) /\
  ((forall n, notify_method n <> m) -> method2notification (handler_of o) !! m = None).
Proof.
  split; [apply request_lookup|]. split; [apply response_lookup|]. split; [apply notification_lookup|].
  rewrite protocol_fill. cbn [method2request method2response method2notification].
  split; [intros Hm; split|intros Hm]; (rewrite fill_other by done; apply lookup_empty).
Qed.
End Tables.

Lemma protocol_tables_witness :
  let p : parser := fun _ => inr None in
  let h := ProtocolJsonHandler (fun _ => p) (fun _ => p) (fun _ => p) p default_options in
  method2request h !! lit "textDocument/hover" = Some p /\ method2request h !! lit "java/move" = None /\
  method2request h !! lit "textDocument/nope" = None.
Proof.
  intros p h. split; [|split].
  - destruct (protocol_tables (fun _ => p) (fun _ => p) (fun _ => p) p default_options td_hover lang_status [])
      as (H & _). etransitivity; [exact H|by vm_compute].
  - destruct (protocol_tables (fun _ => p) (fun _ => p) (fun _ => p) p default_options java_move lang_status [])
      as (H & _). etransitivity; [exact H|by vm_compute].
  - destruct (protocol_tables (fun _ => p) (fun _ => p) (fun _ => p) p default_options td_hover lang_status
                (lit "textDocument/nope")) as (_ & _ & _ & H & _). apply H. by intros [].
Defined.

(** ** Requests to the client *)

(** Whoever can parse a request can also parse its response, except for the
    requests that a server sends to its client. *)
Lemma requests_without_responses o :
  filter (fun t => t ∉ responses_of o) (requests_of o) = capability_requests ++ client_requests.
Proof. destruct o as [[] [] []]; vm_compute; reflexivity. Qed.

(** For those [send] fails once the endpoint is started, whatever the options:
    the handler has no parser for the response and none can be added any
    more.  Before the start it is added on demand. *)
Theorem client_request_needs_parser {A} (request_parser result_parser : request_type -> parser)
    (notify_parser : notify_type -> parser) (error_parser : parser) (o : ProtocolJsonHandlerOptions)
    (t : request_type) (p : parser) (local : GenericEndpoint A) :
  t ∈ capability_requests ++ client_requests ->
  let h := ProtocolJsonHandler request_parser result_parser notify_parser error_parser o in
  let r := mkRegistry h local in
  is_Some (method2request h !! request_method t) /\
  ensureResponseJsonHandler true (request_method t) p r = (false, r) /\
  (ensureResponseJsonHandler false (request_method t) p r).1 = true.
Proof.
  intros Ht h r.
  assert (Hin : t ∈ requests_of o /\ t ∉ responses_of o).
  { rewrite <- (requests_without_responses o) in Ht. by apply list_elem_of_filter in Ht as [??]. }
  pose proof (request_lookup request_parser result_parser notify_parser error_parser o t) as Hq.
  pose proof (response_lookup request_parser result_parser notify_parser error_parser o t) as Hr.
  fold h in Hq, Hr.
  rewrite bool_decide_eq_true_2 in Hq by apply Hin. rewrite bool_decide_eq_false_2 in Hr by apply Hin.
  split; [by rewrite Hq|]. unfold ensureResponseJsonHandler. cbn [json_handler r]. by rewrite Hr.
Qed.

Lemma client_request_needs_parser_witness :
  let p : parser := fun _ => inr None in
  let r := mkRegistry (ProtocolJsonHandler (fun _ => p) (fun _ => p) (fun _ => p) p default_options)
             (mkEndpoint (A := unit) ∅ ∅ ∅) in
  request_method WorkspaceConfiguration = lit "workspace/configuration" /\
  ensureResponseJsonHandler true (lit "workspace/configuration") p r = (false, r).
Proof.
  intros p r. split; [done|].
  apply (client_request_needs_parser (fun _ => p) (fun _ => p) (fun _ => p) p default_options
           WorkspaceConfiguration p (mkEndpoint (A := unit) ∅ ∅ ∅)).
  apply (bool_decide_unpack _). vm_compute. reflexivity.
Defined.

(** A [willSaveWaitUntil] request with a member [error] is parsed as an error
    response: what reaches the main loop is not a request, and it is never
    answered. *)
Theorem will_save_with_error (request_parser result_parser : request_type -> parser)
    (notify_parser : notify_type -> parser) (any : codec LspTypes.Any) (o : ProtocolJsonHandlerOptions)
    (j : json) (m : LspMessage) :
  HasMember j (lit "error") = true ->
  parseRequstMessage (ProtocolJsonHandler request_parser result_parser notify_parser (error_reader any) o)
    (lit "textDocument/willSaveWaitUntil") j = inr (Some m) ->
  GetKid m = RESPONCE_MESSAGE.
Proof.
  intros Hj. unfold parseRequstMessage, run_parser.
  pose proof (request_lookup request_parser result_parser notify_parser (error_reader any) o
                td_willSaveWaitUntil) as Hq.
  rewrite bool_decide_eq_true_2 in Hq
    by (unfold requests_of; apply elem_of_app; left; apply (bool_decide_unpack _); by vm_compute).
  cbn [request_method] in Hq. use_entry Hq. cbn [parser_of_request]. unfold response_parser. rewrite Hj.
  unfold error_reader, reflect_reader. destruct (rread _ _ _) as [e|v]; [done|]. cbn [bind_exn].
  by intros [= <-].
Qed.

Lemma will_save_with_error_witness :
  let any := LspTypes.any_codec (fun _ => None) (fun _ => []) in
  let j := JObject [(lit "jsonrpc", JString (lit "2.0")); (lit "id", JNumber 1);
                    (lit "method", JString (lit "textDocument/willSaveWaitUntil")); (lit "error", JObject [])] in
  let m := error_view (mkRspError version (mkId kInt 1 []) (LspTypes.mkError (-32001) [] None))
             (rwrite (Rsp_Error_codec any) (mkRspError version (mkId kInt 1 []) (LspTypes.mkError (-32001) [] None))) in
  GetKid m = RESPONCE_MESSAGE.
Proof.
  intros any j m.
  apply (will_save_with_error (fun _ _ => inr None) (fun _ _ => inr None) (fun _ _ => inr None) any
           default_options j m); vm_compute; reflexivity.
Defined.
