(* ===== verification/Session.v ===== *)
(** * Sessions of an application

    What an application builds on the endpoint: [LanguageSession]
    (include/LibLsp/lsp/LanguageSession.h), [BindLspHandler] and its variants
    (BindLspHandler.h), the registration of asynchronous handlers
    (RemoteEndPoint.h), [Transport] (JsonRpc/Transport.h), the errors of
    JsonRpc/Error.h and JsonRpc/RequestError.h, and the constructor and
    destructor of [RemoteEndPoint]. *)
From S2P Require Import Prelude CppString Json RequestId Framing Future Message Envelope Cancellation Reorder Ordered Pending RemoteEndPoint.
From S2P Require Import Handlers Protocol.

(** ** Errors *)

Definition ContentModified : Z := (-32801)%Z.

Record RequestError := mkRequestError { error_code : Z; error_text : bytes }.

(** [what()] ends at the first NUL of the message *)
Definition RequestError_what (e : RequestError) : bytes := c_str (error_text e).

Definition error_response (id : lsRequestId) (e : RequestError) : LspMessage :=
  toRspError id (error_code e) (error_text e).

Definition makeRequestCancelledError (message : bytes) : RequestError := mkRequestError RequestCancelled message.
Definition makeContentModifiedError (message : bytes) : RequestError := mkRequestError ContentModified message.
Definition makeRequestCancelledResponse (id : lsRequestId) (message : bytes) : LspMessage :=
  error_response id (makeRequestCancelledError message).
Definition makeContentModifiedResponse (id : lsRequestId) (message : bytes) : LspMessage :=
  error_response id (makeContentModifiedError message).
Definition isRequestCancelledCode (code : Z) : bool := (code =? RequestCancelled)%Z.
Definition isContentModifiedCode (code : Z) : bool := (code =? ContentModified)%Z.

(** ** [BindLspHandler] *)

(** [detail::invokeBoundHandler]: any [std::exception] becomes a [RequestError],
    a [RequestError] and what is no exception object pass *)
Definition invokeBoundHandler (o : handler_outcome) : handler_outcome :=
  match o with
  | Value r => Value r
  | ThrewRequestError code message => ThrewRequestError code message
  | ThrewException what => ThrewRequestError InternalError (c_str what)
  | ThrewOther => ThrewOther
  end.

Section Binding.
Context {A : Type}.

Definition BindLspHandlerWithMonitor (f : sync_handler_monitor (A := A)) : sync_handler_monitor (A := A) :=
  fun msg cancelled app => let '(app', own, o) := f msg cancelled app in (app', own, invokeBoundHandler o).
Definition BindLspHandler (f : sync_handler (A := A)) : sync_handler (A := A) :=
  fun msg app => let '(app', own, o) := f msg app in (app', own, invokeBoundHandler o).
End Binding.

(** ** Asynchronous handlers *)

(** What can leave a handler before it has returned its future *)
Inductive thrown := Threw (e : RequestError) | ThrewStd (what : bytes) | ThrewAny.

Definition outcome_of (t : thrown) : handler_outcome :=
  match t with
  | Threw e => ThrewRequestError (error_code e) (error_text e)
  | ThrewStd what => ThrewException what
  | ThrewAny => ThrewOther
  end.

Definition bound_thrown (t : thrown) : thrown :=
  match t with
  | ThrewStd what => Threw (mkRequestError InternalError (c_str what))
  | _ => t
  end.

Section Async.
Context {B : Type}.

(** An asynchronous handler returns a future ([None]) or throws *)
Definition async_handler := LspMessage -> bool -> B -> B * list LspMessage * option thrown.

(** The lambda of [registerAsyncRequestHandlerWithMonitor]; the application's
    state is beside the loop of completions, [session] is the session of the
    request *)
Definition wrap_async_monitor (quitting : bool) (session : nat) (f : async_handler) : handler (B * AsyncLoop) :=
  fun msg cancelled '(b, loop) =>
    let '(b', own, r) := f msg cancelled b in
    match r with
    | None => mkResult (b', completeAsyncHandler quitting (msg_id msg) session loop) own true (inr true)
    | Some t => mkResult (b', loop) (own ++ [reply (msg_id msg) (outcome_of t)]) false (inr true)
    end.

(** and of [registerAsyncRequestHandler] *)
Definition wrap_async (quitting : bool) (session : nat)
    (f : LspMessage -> B -> B * list LspMessage * option thrown) : handler (B * AsyncLoop) :=
  wrap_async_monitor quitting session (fun msg _ b => f msg b).

Definition BindLspAsyncHandlerWithMonitor (f : async_handler) : async_handler :=
  fun msg cancelled b => let '(b', own, r) := f msg cancelled b in (b', own, bound_thrown <$> r).
Definition BindLspAsyncHandler (f : LspMessage -> B -> B * list LspMessage * option thrown) :=
  fun msg (b : B) => let '(b', own, r) := f msg b in (b', own, bound_thrown <$> r).
End Async.

(** [RemoteEndPoint::getCancelMonitor], as the value the monitor gives *)
Definition getCancelMonitor (ctx : Context) (id : lsRequestId) (flags : list Z) : Z :=
  match getCancelledMonitor id ctx with
  | Some f => cancellationReason (Some f) flags
  | None => 0%Z
  end.

(** ** The endpoint around its state *)

Inductive JSONStreamStyle := Standard | Delimited.

Section Point.
Context {A : Type}.
Abbreviation Data := (RemoteEndPoint.Data (A := A)).

(** The constructor: the parser of [$/cancelRequest] and an idle endpoint *)
Definition make_registry (cancel_parser : parser) (h : MessageJsonHandler) (e : GenericEndpoint A) : Registry A :=
  Handlers.mkRegistry (SetNotificationJsonHandler kCancelMethod cancel_parser h) e.

(** The destructor stops first. *)
Definition destroy (d : Data) : option Data := stop d.

Definition isWorking (d : Data) : bool := working d.

(** [handle] of the issues of the message producer *)
Definition handle_issue (i : MessageIssue) (d : Data) : Data := add_logs d [(code i, text i)].
Definition handle_issues (l : list MessageIssue) (d : Data) : Data :=
  fold_left (fun d i => handle_issue i d) l d.

(** [send] of a notification or response, [sendNotification], [sendResponse] *)
Definition send_message (ctx : Context) (msg : LspMessage) (d : Data) : Data := sendMsg ctx msg d.

(** [createRequest]: a request with an id of its own *)
Definition createRequest (method : bytes) (params : json) (d : Data) : LspMessage * Data :=
  let '(v, t) := getNextRequestId (table d) in
  (mkMessage REQUEST_MESSAGE method (set_int v id_none) id_none None params, set_table d t).

(** [registerResponseParser] *)
Definition registerResponseParser (method : bytes) (p : parser) (started : bool) (r : Registry A)
    : bool * Registry A :=
  if started then (false, r)
  else (true, Handlers.mkRegistry (registerResponseJsonHandler method p (json_handler r)) (local r)).

(** ** [LanguageSession] *)

Record LanguageSession := mkSession { registry : Registry A; remote_endpoint_ : Data }.

Record LanguageSessionOptions := mkSessionOptions {
  style : JSONStreamStyle; max_workers : N; protocol : ProtocolJsonHandlerOptions }.
Definition makeOptions (style : JSONStreamStyle) (max_workers : N) : LanguageSessionOptions :=
  mkSessionOptions style max_workers default_options.

(** Its members [on], [overrideRequestParser], [start] and [stop]; the result
    of the registration is dropped *)
Definition on (method : bytes) (p : parser) (h : handler A) (s : LanguageSession) : LanguageSession :=
  mkSession (register_request (working (remote_endpoint_ s)) method p h (registry s)).2 (remote_endpoint_ s).
Definition on_notify (method : bytes) (p : parser) (h : handler A) (s : LanguageSession) : LanguageSession :=
  mkSession (register_notification (working (remote_endpoint_ s)) method p h (registry s)).2 (remote_endpoint_ s).
Definition session_overrideRequestParser (method : bytes) (p : parser) (s : LanguageSession) : LanguageSession :=
  mkSession (overrideRequestParser (working (remote_endpoint_ s)) method p (registry s)).2 (remote_endpoint_ s).
Definition start (bad_output : bool) (s : LanguageSession) : LanguageSession :=
  mkSession (registry s) (startProcessingMessages bad_output (remote_endpoint_ s)).
Definition session_stop (s : LanguageSession) : option LanguageSession :=
  mkSession (registry s) <$> stop (remote_endpoint_ s).

Section Construct.
Variable request_parser result_parser : request_type -> parser.
Variable notify_parser : notify_type -> parser.
Variable error_parser cancel_parser : parser.

(** The constructor: the parsers of the protocol, an endpoint without handlers
    and without limits *)
Definition make_session (o : LanguageSessionOptions) (a : A) : LanguageSession :=
  mkSession
    (make_registry cancel_parser
       (ProtocolJsonHandler request_parser result_parser notify_parser error_parser (protocol o))
       (mkEndpoint ∅ ∅ ∅))
    (endpoint_init (mkLimits 0 0 0 0 0 StopProcessing) 0 0 a).
End Construct.

(** ** [Transport] *)
Definition transport_notify (msg : LspMessage) (d : Data) : Data := send_message [] msg d.
Definition transport_reply (msg : LspMessage) (d : Data) : Data := send_message [] msg d.
Definition transport_call (has_parser deferred : bool) (req : LspMessage) (d : Data) : issued * Data :=
  issue has_parser deferred req d.
Definition transport_run (bad_output : bool) (d : Data) : Data := startProcessingMessages bad_output d.
Definition transport_loop (bad_output : bool) (d : Data) : Data := transport_run bad_output d.
End Point.
Arguments LanguageSession A : clear implicits.

(** ** Lemmas *)

Lemma reply_bound id o : reply id (invokeBoundHandler o) = reply id o.
Proof. by destruct o. Qed.

Lemma reply_bound_thrown id t : reply id (outcome_of (bound_thrown t)) = reply id (outcome_of t).
Proof. by destruct t. Qed.

Section Registering.
Context {A : Type}.
Abbreviation registration := (bytes * parser * sync_handler_monitor (A := A))%type.

(** [session.on(handler)] for a list of handlers of requests *)
Definition on_all (regs : list registration) (s : LanguageSession A) : LanguageSession A :=
  foldl (fun s '(m, p, f) => on m p (wrap_sync_monitor f) s) s regs.

Lemma on_all_endpoint regs s : remote_endpoint_ (on_all regs s) = remote_endpoint_ s.
Proof. unfold on_all. revert s. induction regs as [|[[m p] f] regs IH]; intros s; [done|]. cbn [foldl]. by rewrite IH. Qed.

Lemma on_started m p (h : handler A) s : working (remote_endpoint_ s) = true -> on m p h s = s.
Proof. destruct s as [r d]. unfold on, register_request. cbn. by intros ->. Qed.

Lemma on_all_other regs s m :
  working (remote_endpoint_ s) = false -> Forall (fun e => e.1.1 <> m) regs ->
  requests (local (registry (on_all regs s))) !! m = requests (local (registry s)) !! m /\
  method2request (json_handler (registry (on_all regs s))) !! m = method2request (json_handler (registry s)) !! m.
Proof.
  intros Hw Hr. revert s Hw. induction Hr as [|[[m' p] f] regs Hm _ IH]; intros s Hw; [done|].
  unfold on_all in *. cbn [foldl fst] in *. destruct (IH (on m' p (wrap_sync_monitor f) s) Hw) as [-> ->].
  unfold on, register_request. rewrite Hw. cbn. split; [by rewrite lookup_insert_ne|].
  unfold registerRequestJsonHandlerIfMissing. destruct (method2request (json_handler (registry s)) !! m'); [done|].
  cbn. by rewrite lookup_insert_ne.
Qed.

Lemma on_here m p (h : handler A) s :
  working (remote_endpoint_ s) = false ->
  requests (local (registry (on m p h s))) !! m = Some h /\
  method2request (json_handler (registry (on m p h s))) !! m =
    Some (default p (method2request (json_handler (registry s)) !! m)).
Proof.
  intros Hw. unfold on, register_request. rewrite Hw. cbn. split; [by rewrite lookup_insert_eq|].
  unfold registerRequestJsonHandlerIfMissing. destruct (method2request (json_handler (registry s)) !! m) eqn:E; [done|].
  cbn. by rewrite lookup_insert_eq.
Qed.
End Registering.

(** Ids of [createRequest] *)
Fixpoint created (n : nat) (t : PendingTable) : list Z :=
  match n with 0 => [] | S n' => let '(v, t') := getNextRequestId t in v :: created n' t' end.

Lemma created_nth n t i :
  (- 2 ^ 31 <= m_id t < 2 ^ 31)%Z -> i < n -> created n t !! i = Some (to_int32 (m_id t + Z.of_nat i)).
Proof.
  revert t i. induction n as [|n IH]; intros t i Ht Hi; [lia|]. cbn [created getNextRequestId].
  destruct i as [|i]; cbn [lookup list_lookup]; [by rewrite Z.add_0_r, to_int32_id|].
  rewrite IH; [|apply to_int32_range|lia]. cbn [m_id]. rewrite to_int32_add. f_equal. f_equal. lia.
Qed.

Lemma to_int32_inj a b : (0 < b - a < 2 ^ 32)%Z -> to_int32 a <> to_int32 b.
Proof.
  unfold to_int32. intros H E.
  assert (Em : ((a + 2 ^ 31) `mod` 2 ^ 32 = (b + 2 ^ 31) `mod` 2 ^ 32)%Z) by lia.
  assert (Ed : ((b - a) `mod` 2 ^ 32 = 0)%Z).
  { replace (b - a)%Z with ((b + 2 ^ 31) - (a + 2 ^ 31))%Z by lia. rewrite Zminus_mod, Em, Z.sub_diag. done. }
  rewrite Z.mod_small in Ed by lia. lia.
Qed.

Lemma created_length n t : length (created n t) = n.
Proof. revert t. induction n as [|n IH]; intros t; [done|]. cbn [created getNextRequestId length]. by rewrite IH. Qed.

(** * Theorems *)

(** [BindLspHandler] and its variants change nothing that a client can see:
    whatever the handler returns or throws, of whatever kind, the request gets
    the same response, and the application the same state, as if the handler
    had been registered directly; for an asynchronous handler likewise, and
    the same completion is posted. *)
Theorem bound_handlers_reply_alike {A} (f : sync_handler_monitor (A := A)) (g : sync_handler (A := A))
    (h : async_handler (B := A)) (quitting : bool) (session : nat) (msg : LspMessage) (cancelled : bool) (a : A)
    (l : AsyncLoop) :
  wrap_sync_monitor (BindLspHandlerWithMonitor f) msg cancelled a = wrap_sync_monitor f msg cancelled a /\
  wrap_sync (BindLspHandler g) msg cancelled a = wrap_sync g msg cancelled a /\
  wrap_async_monitor quitting session (BindLspAsyncHandlerWithMonitor h) msg cancelled (a, l) =
    wrap_async_monitor quitting session h msg cancelled (a, l).
Proof.
  unfold wrap_sync, wrap_sync_monitor, BindLspHandlerWithMonitor, BindLspHandler, wrap_async_monitor,
    BindLspAsyncHandlerWithMonitor. split_and!.
  - destruct (f msg cancelled a) as [[a' own] o]. by rewrite reply_bound.
  - destruct (g msg a) as [[a' own] o]. by rewrite reply_bound.
  - destruct (h msg cancelled a) as [[a' own] [t|]]; [|done]. cbn. by rewrite reply_bound_thrown.
Qed.

(** C30. A [LanguageSession] serves what was registered before its start.  For
    any sequence of registrations on a new session, a request of a method is
    passed, after the start, to the handler registered last for it: the
    handler's messages and exactly its reply are written to the session, and
    the application gets the handler's new state.  The request is parsed by
    the protocol's parser where the protocol has one, otherwise by that of the
    first registration.  Registrations after the start change nothing. *)
Theorem session_serves {A} (request_parser result_parser : request_type -> parser)
    (notify_parser : notify_type -> parser) (error_parser cancel_parser : parser)
    (o : LanguageSessionOptions) (a : A) (before after : list (bytes * parser * sync_handler_monitor (A := A)))
    (p : parser) (f : sync_handler_monitor (A := A)) (msg : LspMessage) (sequence : N) (j : json) :
  GetKid msg = REQUEST_MESSAGE -> Forall (fun e => e.1.1 <> GetMethodType msg) after ->
  let s0 := make_session request_parser result_parser notify_parser error_parser cancel_parser o a in
  let s := start false (on_all (before ++ (GetMethodType msg, p, f) :: after) s0) in
  (forall m' p' h', on m' p' h' s = s) /\
  (exists cancelled d',
     mainLoop (local (registry s)) msg sequence 1 None (remote_endpoint_ s) = (None, d') /\
     RemoteEndPoint.app d' = (f msg cancelled a).1.1 /\
     sessions d' !! 1 = Some (mkSessionOutput true true false
       ((f msg cancelled a).1.2 ++ [reply (msg_id msg) (f msg cancelled a).2]))) /\
  (Forall (fun e => e.1.1 <> GetMethodType msg) before ->
   parseRequstMessage (json_handler (registry s)) (GetMethodType msg) j =
   default p (method2request (ProtocolJsonHandler request_parser result_parser notify_parser error_parser (protocol o))
                !! GetMethodType msg) j).
Proof.
  intros Hk Ha s0 s.
  assert (Hw0 : working (remote_endpoint_ s0) = false) by done.
  assert (He : remote_endpoint_ s = startProcessingMessages false (remote_endpoint_ s0)).
  { subst s. cbn [start remote_endpoint_]. by rewrite on_all_endpoint. }
  set (s1 := on_all before s0).
  assert (Hw1 : working (remote_endpoint_ s1) = false) by (subst s1; by rewrite on_all_endpoint).
  assert (Hs : registry s = registry (on_all after (on (GetMethodType msg) p (wrap_sync_monitor f) s1))).
  { subst s s1. cbn [start registry]. unfold on_all. by rewrite foldl_app. }
  destruct (on_all_other after (on (GetMethodType msg) p (wrap_sync_monitor f) s1) (GetMethodType msg) Hw1 Ha)
    as [Hreq Hpar].
  destruct (on_here (GetMethodType msg) p (wrap_sync_monitor f) s1 Hw1) as [Hreq1 Hpar1].
  rewrite Hreq1 in Hreq. rewrite Hpar1 in Hpar. rewrite <- Hs in Hreq, Hpar.
  split; [|split].
  - intros. apply on_started. by rewrite He.
  - exists (cancelled_at_start msg sequence 1 (remote_endpoint_ s)).
    assert (Happ : RemoteEndPoint.app (remote_endpoint_ s) = a) by by rewrite He.
    pose proof (sync_answer (local (registry s)) f msg sequence 1 None (remote_endpoint_ s)
      (mkSessionOutput true true false [])) as H. rewrite Happ in H.
    destruct (f msg _ a) as [[app' own] r].
    destruct H as (d' & H1 & H2 & H3); try done; try (by rewrite He).
    exists d'. split; [done|]. rewrite H2, H3, He. split; [done|]. done.
  - intros Hb. destruct (on_all_other before s0 (GetMethodType msg) Hw0 Hb) as [_ Hp0]. fold s1 in Hp0.
    unfold parseRequstMessage, run_parser. rewrite Hp0 in Hpar. by use_entry Hpar.
Qed.

Lemma session_serves_witness :
  let f : sync_handler_monitor (A := Z) := fun _ _ a => ((a + 1)%Z, [], ThrewException (lit "no")) in
  let msg := mkMessage REQUEST_MESSAGE (lit "x/y") (mkId kInt 3 []) id_none None JNull in
  let none : parser := fun _ => inr None in
  let s := start false (on_all [(lit "x/y", none, f)] (make_session (fun _ => none) (fun _ => none) (fun _ => none) none none
             (makeOptions Standard 2) 5%Z)) in
  exists d', mainLoop (local (registry s)) msg 0 1 None (remote_endpoint_ s) = (None, d') /\
    RemoteEndPoint.app d' = 6%Z /\
    sessions d' !! 1 = Some (mkSessionOutput true true false [internal_error (mkId kInt 3 []) (lit "no")]).
Proof.
  intros f msg none s.
  destruct (session_serves (fun _ => none) (fun _ => none) (fun _ => none) none none (makeOptions Standard 2) 5%Z
    [] [] none f msg 0 JNull) as (_ & (c & d' & H) & _); [done|constructor|]. exists d'. exact H.
Defined.

(** An asynchronous handler that has returned its future: once the promise
    is set, one pass of the completion thread over its deque sends the reply
    of that outcome, with the request's id, to the request's session, after
    the answers to the requests before it; a handler that throws instead is
    answered at once, and posts nothing. *)
Theorem async_handler_answered {B} (f : async_handler (B := B)) (session : nat) (msg : LspMessage)
    (cancelled : bool) (b : B) (l : AsyncLoop) (o : handler_outcome) :
  async_completion_stop l = false -> loop_running l = None ->
  let r := wrap_async_monitor false session f msg cancelled (b, l) in
  outcome r = inr true /\ (new_app r).1 = (f msg cancelled b).1.1 /\
  match (f msg cancelled b).2 with
  | Some t => (new_app r).2 = l /\
      sent_messages r = (f msg cancelled b).1.2 ++ [reply (msg_id msg) (outcome_of t)]
  | None => sent_messages r = (f msg cancelled b).1.2 /\
      let l1 := fulfil (length (promises l)) o (new_app r).2 in
      exists l2, rounds (length (async_completions l1)) l1 = Some l2 /\
        answers l2 = answers l ++ omap (run_completion (promises l1)) (async_completions l) ++
                     [(session, reply (msg_id msg) o)]
  end.
Proof.
  intros Hs Hr r. subst r. unfold wrap_async_monitor.
  destruct (f msg cancelled b) as [[b' own] [t|]]; cbn [fst snd]; [done|].
  split; [done|]. split; [done|]. split; [done|]. cbn zeta.
  destruct l as [q st run streak back ps ans]. cbn in Hs, Hr. subst st run.
  unfold completeAsyncHandler, postAsyncCompletion, fulfil. cbn [new_app snd async_completion_stop orb
    async_completions loop_running pending_streak back_offs promises answers].
  set (c := mkCompletion (msg_id msg) (length ps) session).
  set (ps1 := alter (set_value o) (length ps) (ps ++ [None])).
  assert (Hp : ps1 = ps ++ [Some o]).
  { subst ps1. by rewrite alter_app_r_alt, Nat.sub_diag by lia. }
  destruct (rounds_spec (length (q ++ [c])) (q ++ [c]) [] streak back ps1 ans eq_refl) as (s' & b1 & H).
  rewrite app_nil_r in H. eexists. split; [exact H|]. cbn [answers]. rewrite omap_app. f_equal. f_equal.
  cbn [omap list_omap]. unfold run_completion. cbn [c c_future c_session c_id]. rewrite Hp.
  rewrite lookup_app_r, Nat.sub_diag by lia. done.
Qed.

Lemma async_handler_answered_witness :
  let f : async_handler (B := unit) := fun _ _ b => (b, [], None) in
  let msg := mkMessage REQUEST_MESSAGE (lit "x/y") (mkId kInt 3 []) id_none None JNull in
  let l1 := fulfil 0 ThrewOther (new_app (wrap_async_monitor false 4 f msg false (tt, loop_init))).2 in
  exists l2, rounds 1 l1 = Some l2 /\ answers l2 = [(4, reply (mkId kInt 3 []) ThrewOther)].
Proof.
  intros f msg l1. destruct (async_handler_answered f 4 msg false tt loop_init ThrewOther eq_refl eq_refl)
    as (_ & _ & _ & H). exact H.
Defined.

(** C31. The ids that [createRequest] and [send] give to requests repeat only after
    2^32 of them: up to there all are different, wherever the counter stands,
    and the next one is the first again. *)
Theorem request_ids_distinct (n : nat) (t : PendingTable) :
  (- 2 ^ 31 <= m_id t < 2 ^ 31)%Z ->
  ((Z.of_nat n <= 2 ^ 32)%Z -> NoDup (created n t)) /\
  (forall i, (Z.of_nat i = 2 ^ 32)%Z -> i < n -> created n t !! i = created n t !! 0).
Proof.
  intros Ht. split.
  - intros Hn. apply NoDup_alt. intros i k x Hi Hk.
    assert (Hin : i < n) by (apply lookup_lt_Some in Hi; by rewrite created_length in Hi).
    assert (Hkn : k < n) by (apply lookup_lt_Some in Hk; by rewrite created_length in Hk).
    rewrite created_nth in Hi, Hk by done. injection Hi as Hi. injection Hk as Hk.
    destruct (decide (i = k)) as [|Hne]; [done|exfalso].
    destruct (decide (i < k)).
    + eapply (to_int32_inj (m_id t + Z.of_nat i) (m_id t + Z.of_nat k)); [lia|congruence].
    + eapply (to_int32_inj (m_id t + Z.of_nat k) (m_id t + Z.of_nat i)); [lia|congruence].
  - intros i Hi Hn. rewrite !created_nth by (done || lia). rewrite Hi. f_equal. unfold to_int32.
    replace (m_id t + 2 ^ 32 + 2 ^ 31)%Z with (m_id t + Z.of_nat 0 + 2 ^ 31 + 1 * 2 ^ 32)%Z by lia.
    by rewrite Z_mod_plus_full.
Qed.

Lemma request_ids_distinct_witness :
  created 3 (mkTable ∅ [] (2 ^ 31 - 2)) = [2147483646; 2147483647; -2147483648]%Z /\
  NoDup (created 3 (mkTable ∅ [] (2 ^ 31 - 2))).
Proof. split; [vm_compute; reflexivity|]. apply request_ids_distinct; cbn; lia. Defined.
