(* ===== verification/ProtocolData.v ===== *)
(** * Data of the protocol

    The structs of include/LibLsp/lsp for diagnostics, commands, completion,
    workspace edits, symbols and the parameters and results of requests, as
    [MAKE_REFLECT_STRUCT] reads and writes them.

    A record [X] has the members of the C++ struct [X], its bases included,
    as [X_member]; [X_codec] reflects them in the order of the macro;
    [X_valid] says which values survive (strings without NUL, numbers in the
    range of their type, alternatives of which exactly one is set).  A member
    that the macro leaves out is in the record, and [X_valid] requires its
    default.  An enumeration is a number of its underlying type, because the
    readers accept every number. *)
From S2P Require Import Prelude CppString Position Utils Uri Json Reflect RequestId LspTypes.

(** ** Tactics and pieces *)

(** Like [struct_law], for structs with members that are not reflected *)
Ltac struct_law_default :=
  eapply struct_roundtrip_valid;
  [ let H := fresh in intros [] H; destruct H as [H _]; cbn in H; decompose [and] H; by subst
  | reflexivity
  | members
  | let r := fresh in let H := fresh in intros r H; exact (proj2 H) ].

Definition docid_valid (d : lsTextDocumentIdentifier) : Prop := uri_valid (doc_uri d).

Lemma either_roundtrip {A B} (test : json -> bool) (c1 : codec A) (c2 : codec B) P Q
    (reader : json -> Either A B -> exn + Either A B) :
  (forall j v, reader j v = if test j then read_first c1 j v else read_second c2 j v) ->
  Roundtrip c1 P -> Roundtrip c2 Q -> NotNull c1 P -> NotNull c2 Q ->
  Tagged test c1 P true -> Tagged test c2 Q false ->
  Roundtrip (mkCodec reader (write_either c1 c2) (None, None)) (one_of P Q).
Proof.
  intros Hrd R1 R2 N1 N2 T1 T2 [[a|] [b|]] H; cbn in H; try done; cbn; rewrite Hrd.
  - rewrite (T1 a H). unfold read_first. cbn. by rewrite (N1 a H), (R1 a H).
  - rewrite (T2 b H). unfold read_second. cbn. by rewrite (N2 b H), (R2 b H).
Qed.

(** rapidjson's parser and printer, which [lsp::Any] keeps the text of *)
Class RapidJson := { Parse : bytes -> option json; Print : json -> bytes }.

Section Data.
Context {rapidjson : RapidJson}.
Abbreviation any := (any_codec Parse Print).
Abbreviation any_ok := (any_value_valid Parse Print).

(** *** Commands (lsCommand.h) *)
Record lsCommand (T : Type) := mk_lsCommand {
  lsCommand_title : bytes; lsCommand_command : bytes; lsCommand_arguments : option T;
  lsCommand_tooltip : option (option bytes * option MarkupContent) }.
Arguments mk_lsCommand {T} _ _ _ _.
Arguments lsCommand_title {T} _.
Arguments lsCommand_command {T} _.
Arguments lsCommand_arguments {T} _.
Arguments lsCommand_tooltip {T} _.

Definition lsCommand_codec {T} (c : codec T) : codec (lsCommand T) :=
  struct_codec
    (field (lit "title") string_codec
     ⊗ field (lit "command") string_codec
     ⊗ opt_field (lit "arguments") c
     ⊗ opt_field (lit "tooltip") (tagged_pair_codec IsString string_codec MarkupContent_codec))
    (fun '(x0, (x1, (x2, x3))) => mk_lsCommand x0 x1 x2 x3)
    (fun r => (lsCommand_title r, (lsCommand_command r, (lsCommand_arguments r, lsCommand_tooltip r)))).
Definition lsCommand_valid {T} (valid : T -> Prop) (r : lsCommand T) : Prop :=
  text_valid (lsCommand_title r) /\ text_valid (lsCommand_command r) /\
  opt_valid valid (lsCommand_arguments r) /\ opt_valid (one_of text_valid markup_valid) (lsCommand_tooltip r).
#[export] Instance lsCommand_roundtrip {T} (c : codec T) valid :
  Roundtrip c valid -> NotNull c valid -> Roundtrip (lsCommand_codec c) (lsCommand_valid valid).
Proof. intros Hr Hn. struct_law. Qed.
#[export] Instance lsCommand_object {T} (c : codec T) : WritesObject (lsCommand_codec c).
Proof. intros v. by eexists. Qed.

Definition lsCommandWithAny_codec : codec (lsCommand (list Any)) := lsCommand_codec (vector_codec any).
Definition lsCommandWithAny_valid : lsCommand (list Any) -> Prop := lsCommand_valid (Forall any_ok).
#[export] Instance lsCommandWithAny_roundtrip : Roundtrip lsCommandWithAny_codec lsCommandWithAny_valid.
Proof. apply lsCommand_roundtrip; apply _. Qed.
#[export] Instance lsCommandWithAny_object : WritesObject lsCommandWithAny_codec.
Proof. apply lsCommand_object. Qed.

(** *** Formatting keys *)
Definition key_codec : codec KeyData :=
  mkCodec read_key (fun k => default JNull (write_key k)) (mkKey None None None).
Definition key_valid (k : KeyData) : Prop :=
  match k with
  | mkKey (Some _) None None => True
  | mkKey None (Some i) None => int_valid i
  | mkKey None None (Some s) => text_valid s
  | _ => False
  end.
#[export] Instance key_codec_roundtrip : Roundtrip key_codec key_valid.
Proof.
  intros k Hk. cbn. destruct (write_key k) as [j|] eqn:E; [by apply (key_roundtrip k j)|].
  by destruct k as [[] [] []].
Qed.
#[export] Instance key_not_null : NotNull key_codec key_valid.
Proof. by intros [[] [] []] Hk. Qed.

(** *** A change of documents: an edit, or a resource operation kept as [Any] *)
Definition document_change_codec : codec (option lsTextDocumentEdit * option Any) :=
  mkCodec (read_document_change lsTextDocumentEdit_codec any) (write_either lsTextDocumentEdit_codec any) (None, None).
Definition operation_any (a : Any) : Prop := any_ok a /\ HasMember (write_any Parse a) (lit "textDocument") = false.
Definition document_change_valid : option lsTextDocumentEdit * option Any -> Prop := one_of docedit_valid operation_any.
#[export] Instance document_change_roundtrip : Roundtrip document_change_codec document_change_valid.
Proof.
  apply (either_roundtrip (fun j => HasMember j (lit "textDocument"))); [done|apply _| | | | |].
  - intros a [Ha _]. by apply any_value_roundtrip.
  - intros v _. by destruct v.
  - intros a [Ha _]. by apply any_value_not_null.
  - by intros v _.
  - intros a [_ Ha]. exact Ha.
Qed.

(** *** The contents of a hover: marked strings, or markup *)
Definition hover_codec : codec (Either (list (Either bytes lsMarkedString)) MarkupContent) :=
  mkCodec read_hover (write_either (vector_codec (string_or_codec lsMarkedString_codec)) MarkupContent_codec) (None, None).
(** A marked string with a language, or a plain one *)
Definition marked_valid (m : lsMarkedString) : Prop :=
  text_valid (marked_value m) /\ exists l, language m = Some l /\ text_valid l.
Definition hover_valid : Either (list (Either bytes lsMarkedString)) MarkupContent -> Prop :=
  one_of (Forall (one_of text_valid marked_valid)) markup_valid.

#[export] Instance marked_roundtrip : Roundtrip lsMarkedString_codec marked_valid.
Proof. intros m (Hv & l & Hl & Hx). rewrite marked_string_roundtrip by (rewrite ?Hl; done). by rewrite Hl. Qed.
#[export] Instance marked_not_null : NotNull lsMarkedString_codec marked_valid.
Proof. by intros [[] ?] (_ & ? & ? & _). Qed.
#[export] Instance marked_not_string : Tagged IsString lsMarkedString_codec marked_valid false.
Proof. by intros [[] ?] (_ & ? & ? & _). Qed.

#[export] Instance string_or_roundtrip {B} (c : codec B) Q :
  Roundtrip c Q -> NotNull c Q -> Tagged IsString c Q false ->
  Roundtrip (string_or_codec c) (one_of text_valid Q).
Proof.
  intros HR HN HT [[a|] [b|]] H; cbn in H; try done; cbn.
  - unfold read_first. cbn. by rewrite c_str_id.
  - rewrite (HT b H). cbn. unfold read_second. cbn. by rewrite (HN b H), (HR b H).
Qed.

#[export] Instance hover_roundtrip : Roundtrip hover_codec hover_valid.
Proof.
  intros [[a|] [b|]] H; cbn in H; try done.
  - pose proof (vector_roundtrip (string_or_codec lsMarkedString_codec) _ _ a H) as Hr.
    unfold hover_codec. cbn [rread rwrite rinit]. unfold write_either. cbn [pair_codec rwrite optional_codec].
    unfold read_hover, read_first. cbn [rwrite vector_codec] in *.
    cbn [rread optional_codec IsNull]. cbn [rinit vector_codec] in Hr. cbn [rinit vector_codec].
    by rewrite Hr.
  - pose proof (markup_roundtrip b H) as Hr. unfold hover_codec. cbn [rread rwrite rinit]. unfold write_either.
    cbn [pair_codec rwrite optional_codec]. destruct (MarkupContent_object b) as [ms Hms]. rewrite Hms in *.
    unfold read_hover, read_second. cbn [rread optional_codec IsNull]. by rewrite Hr.
Qed.
#[export] Instance hover_not_null : NotNull hover_codec hover_valid.
Proof. intros [[a|] [b|]] H; by cbn in H. Qed.

(** *** Directions of a hierarchy, without the one that the reader confuses *)
Definition direction_valid (d : TypeHierarchyDirection) : Prop := d <> Children.
#[export] Instance direction_roundtrip : Roundtrip TypeHierarchyDirection_codec direction_valid.
Proof. by intros [] H. Qed.
#[export] Instance direction_not_null valid : NotNull TypeHierarchyDirection_codec valid.
Proof. by intros []. Qed.

(** *** Diagnostics (lsp_diagnostic.h) *)

Inductive lsDiagnosticSeverity :=
| lsDiagnosticSeverity_Error | lsDiagnosticSeverity_Warning | lsDiagnosticSeverity_Information
| lsDiagnosticSeverity_Hint.
Definition lsDiagnosticSeverity_value (e : lsDiagnosticSeverity) : Z :=
  match e with
  | lsDiagnosticSeverity_Error => 1 | lsDiagnosticSeverity_Warning => 2 | lsDiagnosticSeverity_Information => 3
  | lsDiagnosticSeverity_Hint => 4
  end%Z.
Definition lsDiagnosticSeverity_codec : codec Z := enum_codec int_codec 0.
#[export] Instance lsDiagnosticSeverity_roundtrip : Roundtrip lsDiagnosticSeverity_codec int_valid.
Proof. by apply enum_roundtrip; [apply _|]. Qed.
#[export] Instance lsDiagnosticSeverity_not_null : NotNull lsDiagnosticSeverity_codec int_valid.
Proof. apply enum_not_null, _. Qed.
#[export] Instance lsDiagnosticSeverity_fresh : FreshRead lsDiagnosticSeverity_codec.
Proof. apply enum_fresh. Qed.

Inductive DiagnosticTag :=
| DiagnosticTag_Unnecessary | DiagnosticTag_Deprecated.
Definition DiagnosticTag_value (e : DiagnosticTag) : Z :=
  match e with
  | DiagnosticTag_Unnecessary => 1 | DiagnosticTag_Deprecated => 2
  end%Z.
Definition DiagnosticTag_codec : codec Z := enum_codec uint8_codec 0.
#[export] Instance DiagnosticTag_roundtrip : Roundtrip DiagnosticTag_codec uint8_valid.
Proof. by apply enum_roundtrip; [apply _|]. Qed.
#[export] Instance DiagnosticTag_not_null : NotNull DiagnosticTag_codec uint8_valid.
Proof. apply enum_not_null, _. Qed.
#[export] Instance DiagnosticTag_fresh : FreshRead DiagnosticTag_codec.
Proof. apply enum_fresh. Qed.

Record DiagnosticRelatedInformation := mk_DiagnosticRelatedInformation {
  DiagnosticRelatedInformation_location : lsLocation; DiagnosticRelatedInformation_message : bytes }.
Definition DiagnosticRelatedInformation_codec : codec DiagnosticRelatedInformation :=
  struct_codec
    (field (lit "location") lsLocation_codec
     ⊗ field (lit "message") string_codec)
    (fun '(x0, x1) => mk_DiagnosticRelatedInformation x0 x1)
    (fun r => (DiagnosticRelatedInformation_location r, DiagnosticRelatedInformation_message r)).
Definition DiagnosticRelatedInformation_valid (r : DiagnosticRelatedInformation) : Prop :=
  location_valid (DiagnosticRelatedInformation_location r) /\
  text_valid (DiagnosticRelatedInformation_message r).
#[export] Instance DiagnosticRelatedInformation_roundtrip : Roundtrip DiagnosticRelatedInformation_codec DiagnosticRelatedInformation_valid.
Proof. struct_law. Qed.
#[export] Instance DiagnosticRelatedInformation_object : WritesObject DiagnosticRelatedInformation_codec.
Proof. intros v. by eexists. Qed.

Record DiagnosticCodeDescription := mk_DiagnosticCodeDescription {
  DiagnosticCodeDescription_href : bytes }.
Definition DiagnosticCodeDescription_codec : codec DiagnosticCodeDescription :=
  struct_codec
    (field (lit "href") string_codec)
    (fun x0 => mk_DiagnosticCodeDescription x0)
    (fun r => DiagnosticCodeDescription_href r).
Definition DiagnosticCodeDescription_valid (r : DiagnosticCodeDescription) : Prop :=
  text_valid (DiagnosticCodeDescription_href r).
#[export] Instance DiagnosticCodeDescription_roundtrip : Roundtrip DiagnosticCodeDescription_codec DiagnosticCodeDescription_valid.
Proof. struct_law. Qed.
#[export] Instance DiagnosticCodeDescription_object : WritesObject DiagnosticCodeDescription_codec.
Proof. intros v. by eexists. Qed.

Record lsDiagnostic := mk_lsDiagnostic {
  lsDiagnostic_range : lsRange; lsDiagnostic_severity : option Z;
  lsDiagnostic_code : option (option bytes * option Z);
  lsDiagnostic_codeDescription : option DiagnosticCodeDescription; lsDiagnostic_source : option bytes;
  lsDiagnostic_message : bytes; lsDiagnostic_tags : option (list Z); lsDiagnostic_data : option Any;
  lsDiagnostic_fixits_ : list lsTextEdit;
  lsDiagnostic_relatedInformation : option (list DiagnosticRelatedInformation) }.
Definition lsDiagnostic_codec : codec lsDiagnostic :=
  struct_codec
    (field (lit "range") lsRange_codec
     ⊗ opt_field (lit "severity") lsDiagnosticSeverity_codec
     ⊗ opt_field (lit "code") (tagged_pair_codec IsString string_codec int_codec)
     ⊗ opt_field (lit "codeDescription") DiagnosticCodeDescription_codec
     ⊗ opt_field (lit "source") string_codec
     ⊗ field (lit "message") string_codec
     ⊗ opt_field (lit "tags") (vector_codec DiagnosticTag_codec)
     ⊗ opt_field (lit "data") any)
    (fun '(x0, (x1, (x2, (x3, (x4, (x5, (x6, x7))))))) => mk_lsDiagnostic x0 x1 x2 x3 x4 x5 x6 x7 [] None)
    (fun r => (lsDiagnostic_range r, (lsDiagnostic_severity r, (lsDiagnostic_code r,
     (lsDiagnostic_codeDescription r, (lsDiagnostic_source r, (lsDiagnostic_message r, (lsDiagnostic_tags r,
     lsDiagnostic_data r)))))))).
Definition lsDiagnostic_valid (r : lsDiagnostic) : Prop :=
  (lsDiagnostic_fixits_ r = [] /\ lsDiagnostic_relatedInformation r = None) /\
  (range_valid (lsDiagnostic_range r) /\
  opt_valid int_valid (lsDiagnostic_severity r) /\
  opt_valid (one_of text_valid int_valid) (lsDiagnostic_code r) /\
  opt_valid DiagnosticCodeDescription_valid (lsDiagnostic_codeDescription r) /\
  opt_valid text_valid (lsDiagnostic_source r) /\
  text_valid (lsDiagnostic_message r) /\
  opt_valid (Forall uint8_valid) (lsDiagnostic_tags r) /\
  opt_valid any_ok (lsDiagnostic_data r)).
#[export] Instance lsDiagnostic_roundtrip : Roundtrip lsDiagnostic_codec lsDiagnostic_valid.
Proof. struct_law_default. Qed.
#[export] Instance lsDiagnostic_object : WritesObject lsDiagnostic_codec.
Proof. intros v. by eexists. Qed.

(** *** Completion (lsp_completion.h, textDocument/completion.h) *)

Inductive lsCompletionItemKind :=
| lsCompletionItemKind_Text | lsCompletionItemKind_Method | lsCompletionItemKind_Function
| lsCompletionItemKind_Constructor | lsCompletionItemKind_Field | lsCompletionItemKind_Variable
| lsCompletionItemKind_Class | lsCompletionItemKind_Interface | lsCompletionItemKind_Module
| lsCompletionItemKind_Property | lsCompletionItemKind_Unit | lsCompletionItemKind_Value
| lsCompletionItemKind_Enum | lsCompletionItemKind_Keyword | lsCompletionItemKind_Snippet
| lsCompletionItemKind_Color | lsCompletionItemKind_File | lsCompletionItemKind_Reference
| lsCompletionItemKind_Folder | lsCompletionItemKind_EnumMember | lsCompletionItemKind_Constant
| lsCompletionItemKind_Struct | lsCompletionItemKind_Event | lsCompletionItemKind_Operator
| lsCompletionItemKind_TypeParameter.
Definition lsCompletionItemKind_value (e : lsCompletionItemKind) : Z :=
  match e with
  | lsCompletionItemKind_Text => 1 | lsCompletionItemKind_Method => 2 | lsCompletionItemKind_Function => 3
  | lsCompletionItemKind_Constructor => 4 | lsCompletionItemKind_Field => 5
  | lsCompletionItemKind_Variable => 6 | lsCompletionItemKind_Class => 7 | lsCompletionItemKind_Interface => 8
  | lsCompletionItemKind_Module => 9 | lsCompletionItemKind_Property => 10 | lsCompletionItemKind_Unit => 11
  | lsCompletionItemKind_Value => 12 | lsCompletionItemKind_Enum => 13 | lsCompletionItemKind_Keyword => 14
  | lsCompletionItemKind_Snippet => 15 | lsCompletionItemKind_Color => 16 | lsCompletionItemKind_File => 17
  | lsCompletionItemKind_Reference => 18 | lsCompletionItemKind_Folder => 19
  | lsCompletionItemKind_EnumMember => 20 | lsCompletionItemKind_Constant => 21
  | lsCompletionItemKind_Struct => 22 | lsCompletionItemKind_Event => 23 | lsCompletionItemKind_Operator => 24
  | lsCompletionItemKind_TypeParameter => 25
  end%Z.
Definition lsCompletionItemKind_codec : codec Z := enum_codec int_codec 0.
#[export] Instance lsCompletionItemKind_roundtrip : Roundtrip lsCompletionItemKind_codec int_valid.
Proof. by apply enum_roundtrip; [apply _|]. Qed.
#[export] Instance lsCompletionItemKind_not_null : NotNull lsCompletionItemKind_codec int_valid.
Proof. apply enum_not_null, _. Qed.
#[export] Instance lsCompletionItemKind_fresh : FreshRead lsCompletionItemKind_codec.
Proof. apply enum_fresh. Qed.

Inductive lsInsertTextFormat :=
| lsInsertTextFormat_PlainText | lsInsertTextFormat_Snippet.
Definition lsInsertTextFormat_value (e : lsInsertTextFormat) : Z :=
  match e with
  | lsInsertTextFormat_PlainText => 1 | lsInsertTextFormat_Snippet => 2
  end%Z.
Definition lsInsertTextFormat_codec : codec Z := enum_codec int_codec 0.
#[export] Instance lsInsertTextFormat_roundtrip : Roundtrip lsInsertTextFormat_codec int_valid.
Proof. by apply enum_roundtrip; [apply _|]. Qed.
#[export] Instance lsInsertTextFormat_not_null : NotNull lsInsertTextFormat_codec int_valid.
Proof. apply enum_not_null, _. Qed.
#[export] Instance lsInsertTextFormat_fresh : FreshRead lsInsertTextFormat_codec.
Proof. apply enum_fresh. Qed.

Record lsCompletionItem := mk_lsCompletionItem {
  lsCompletionItem_label : bytes; lsCompletionItem_kind : option Z; lsCompletionItem_detail : option bytes;
  lsCompletionItem_documentation : option (option bytes * option MarkupContent);
  lsCompletionItem_sortText : option bytes; lsCompletionItem_insertText : option bytes;
  lsCompletionItem_filterText : option bytes; lsCompletionItem_insertTextFormat : option Z;
  lsCompletionItem_textEdit : option lsTextEdit; lsCompletionItem_deprecated : option bool;
  lsCompletionItem_preselect : option bool; lsCompletionItem_additionalTextEdits : option (list lsTextEdit);
  lsCompletionItem_commitCharacters : option (list bytes);
  lsCompletionItem_command : option (lsCommand (list Any)); lsCompletionItem_data : option Any;
  lsCompletionItem_relevance : Z }.
Definition lsCompletionItem_codec : codec lsCompletionItem :=
  struct_codec
    (field (lit "label") string_codec
     ⊗ opt_field (lit "kind") lsCompletionItemKind_codec
     ⊗ opt_field (lit "detail") string_codec
     ⊗ opt_field (lit "documentation") (tagged_pair_codec IsString string_codec MarkupContent_codec)
     ⊗ opt_field (lit "sortText") string_codec
     ⊗ opt_field (lit "insertText") string_codec
     ⊗ opt_field (lit "filterText") string_codec
     ⊗ opt_field (lit "insertTextFormat") lsInsertTextFormat_codec
     ⊗ opt_field (lit "textEdit") lsTextEdit_codec
     ⊗ opt_field (lit "deprecated") bool_codec
     ⊗ opt_field (lit "preselect") bool_codec
     ⊗ opt_field (lit "additionalTextEdits") (vector_codec lsTextEdit_codec)
     ⊗ opt_field (lit "commitCharacters") (vector_codec string_codec)
     ⊗ opt_field (lit "command") lsCommandWithAny_codec
     ⊗ opt_field (lit "data") any)
    (fun '(x0, (x1, (x2, (x3, (x4, (x5, (x6, (x7, (x8, (x9, (x10, (x11, (x12, (x13, x14)))))))))))))) =>
     mk_lsCompletionItem x0 x1 x2 x3 x4 x5 x6 x7 x8 x9 x10 x11 x12 x13 x14 0%Z)
    (fun r => (lsCompletionItem_label r, (lsCompletionItem_kind r, (lsCompletionItem_detail r,
     (lsCompletionItem_documentation r, (lsCompletionItem_sortText r, (lsCompletionItem_insertText r,
     (lsCompletionItem_filterText r, (lsCompletionItem_insertTextFormat r, (lsCompletionItem_textEdit r,
     (lsCompletionItem_deprecated r, (lsCompletionItem_preselect r, (lsCompletionItem_additionalTextEdits r,
     (lsCompletionItem_commitCharacters r, (lsCompletionItem_command r,
     lsCompletionItem_data r))))))))))))))).
Definition lsCompletionItem_valid (r : lsCompletionItem) : Prop :=
  (lsCompletionItem_relevance r = 0%Z) /\
  (text_valid (lsCompletionItem_label r) /\
  opt_valid int_valid (lsCompletionItem_kind r) /\
  opt_valid text_valid (lsCompletionItem_detail r) /\
  opt_valid (one_of text_valid markup_valid) (lsCompletionItem_documentation r) /\
  opt_valid text_valid (lsCompletionItem_sortText r) /\
  opt_valid text_valid (lsCompletionItem_insertText r) /\
  opt_valid text_valid (lsCompletionItem_filterText r) /\
  opt_valid int_valid (lsCompletionItem_insertTextFormat r) /\
  opt_valid edit_valid (lsCompletionItem_textEdit r) /\
  opt_valid any_valid (lsCompletionItem_deprecated r) /\
  opt_valid any_valid (lsCompletionItem_preselect r) /\
  opt_valid (Forall edit_valid) (lsCompletionItem_additionalTextEdits r) /\
  opt_valid (Forall text_valid) (lsCompletionItem_commitCharacters r) /\
  opt_valid lsCommandWithAny_valid (lsCompletionItem_command r) /\
  opt_valid any_ok (lsCompletionItem_data r)).
#[export] Instance lsCompletionItem_roundtrip : Roundtrip lsCompletionItem_codec lsCompletionItem_valid.
Proof. struct_law_default. Qed.
#[export] Instance lsCompletionItem_object : WritesObject lsCompletionItem_codec.
Proof. intros v. by eexists. Qed.

Record CompletionList := mk_CompletionList {
  CompletionList_isIncomplete : bool; CompletionList_items : list lsCompletionItem;
  CompletionList_applyKind : option Z }.
Definition CompletionList_codec : codec CompletionList :=
  struct_codec
    (field_init (lit "isIncomplete") bool_codec false
     ⊗ field (lit "items") (vector_codec lsCompletionItem_codec)
     ⊗ opt_field (lit "applyKind") int_codec)
    (fun '(x0, (x1, x2)) => mk_CompletionList x0 x1 x2)
    (fun r => (CompletionList_isIncomplete r, (CompletionList_items r, CompletionList_applyKind r))).
Definition CompletionList_valid (r : CompletionList) : Prop :=
  any_valid (CompletionList_isIncomplete r) /\
  Forall lsCompletionItem_valid (CompletionList_items r) /\
  opt_valid int_valid (CompletionList_applyKind r).
#[export] Instance CompletionList_roundtrip : Roundtrip CompletionList_codec CompletionList_valid.
Proof. struct_law. Qed.
#[export] Instance CompletionList_object : WritesObject CompletionList_codec.
Proof. intros v. by eexists. Qed.

Record lsTextDocumentPositionParams := mk_lsTextDocumentPositionParams {
  lsTextDocumentPositionParams_textDocument : lsTextDocumentIdentifier;
  lsTextDocumentPositionParams_position : lsPosition; lsTextDocumentPositionParams_uri : option lsDocumentUri }.
Definition lsTextDocumentPositionParams_codec : codec lsTextDocumentPositionParams :=
  struct_codec
    (field (lit "textDocument") lsTextDocumentIdentifier_codec
     ⊗ field (lit "position") lsPosition_codec
     ⊗ opt_field (lit "uri") lsDocumentUri_codec)
    (fun '(x0, (x1, x2)) => mk_lsTextDocumentPositionParams x0 x1 x2)
    (fun r => (lsTextDocumentPositionParams_textDocument r, (lsTextDocumentPositionParams_position r,
     lsTextDocumentPositionParams_uri r))).
Definition lsTextDocumentPositionParams_valid (r : lsTextDocumentPositionParams) : Prop :=
  docid_valid (lsTextDocumentPositionParams_textDocument r) /\
  position_valid (lsTextDocumentPositionParams_position r) /\
  opt_valid uri_valid (lsTextDocumentPositionParams_uri r).
#[export] Instance lsTextDocumentPositionParams_roundtrip : Roundtrip lsTextDocumentPositionParams_codec lsTextDocumentPositionParams_valid.
Proof. struct_law. Qed.
#[export] Instance lsTextDocumentPositionParams_object : WritesObject lsTextDocumentPositionParams_codec.
Proof. intros v. by eexists. Qed.

Inductive lsCompletionTriggerKind :=
| lsCompletionTriggerKind_Invoked | lsCompletionTriggerKind_TriggerCharacter.
Definition lsCompletionTriggerKind_value (e : lsCompletionTriggerKind) : Z :=
  match e with
  | lsCompletionTriggerKind_Invoked => 1 | lsCompletionTriggerKind_TriggerCharacter => 2
  end%Z.
Definition lsCompletionTriggerKind_codec : codec Z := enum_codec int_codec 0.
#[export] Instance lsCompletionTriggerKind_roundtrip : Roundtrip lsCompletionTriggerKind_codec int_valid.
Proof. by apply enum_roundtrip; [apply _|]. Qed.
#[export] Instance lsCompletionTriggerKind_not_null : NotNull lsCompletionTriggerKind_codec int_valid.
Proof. apply enum_not_null, _. Qed.
#[export] Instance lsCompletionTriggerKind_fresh : FreshRead lsCompletionTriggerKind_codec.
Proof. apply enum_fresh. Qed.

Record lsCompletionContext := mk_lsCompletionContext {
  lsCompletionContext_triggerKind : Z; lsCompletionContext_triggerCharacter : option bytes }.
Definition lsCompletionContext_codec : codec lsCompletionContext :=
  struct_codec
    (field_init (lit "triggerKind") lsCompletionTriggerKind_codec 1%Z
     ⊗ opt_field (lit "triggerCharacter") string_codec)
    (fun '(x0, x1) => mk_lsCompletionContext x0 x1)
    (fun r => (lsCompletionContext_triggerKind r, lsCompletionContext_triggerCharacter r)).
Definition lsCompletionContext_valid (r : lsCompletionContext) : Prop :=
  int_valid (lsCompletionContext_triggerKind r) /\
  opt_valid text_valid (lsCompletionContext_triggerCharacter r).
#[export] Instance lsCompletionContext_roundtrip : Roundtrip lsCompletionContext_codec lsCompletionContext_valid.
Proof. struct_law. Qed.
#[export] Instance lsCompletionContext_object : WritesObject lsCompletionContext_codec.
Proof. intros v. by eexists. Qed.

Record lsCompletionParams := mk_lsCompletionParams {
  lsCompletionParams_textDocument : lsTextDocumentIdentifier; lsCompletionParams_position : lsPosition;
  lsCompletionParams_context : option lsCompletionContext }.
Definition lsCompletionParams_codec : codec lsCompletionParams :=
  struct_codec
    (field (lit "textDocument") lsTextDocumentIdentifier_codec
     ⊗ field (lit "position") lsPosition_codec
     ⊗ opt_field (lit "context") lsCompletionContext_codec)
    (fun '(x0, (x1, x2)) => mk_lsCompletionParams x0 x1 x2)
    (fun r => (lsCompletionParams_textDocument r, (lsCompletionParams_position r,
     lsCompletionParams_context r))).
Definition lsCompletionParams_valid (r : lsCompletionParams) : Prop :=
  docid_valid (lsCompletionParams_textDocument r) /\
  position_valid (lsCompletionParams_position r) /\
  opt_valid lsCompletionContext_valid (lsCompletionParams_context r).
#[export] Instance lsCompletionParams_roundtrip : Roundtrip lsCompletionParams_codec lsCompletionParams_valid.
Proof. struct_law. Qed.
#[export] Instance lsCompletionParams_object : WritesObject lsCompletionParams_codec.
Proof. intros v. by eexists. Qed.

(** *** Workspace edits and code actions (lsWorkspaceEdit.h, lsCodeAction.h, CodeActionParams.h) *)

Record lsChangeAnnotations := mk_lsChangeAnnotations {
  lsChangeAnnotations_id : lsChangeAnnotation }.
Definition lsChangeAnnotations_codec : codec lsChangeAnnotations :=
  struct_codec
    (field (lit "id") lsChangeAnnotation_codec)
    (fun x0 => mk_lsChangeAnnotations x0)
    (fun r => lsChangeAnnotations_id r).
Definition lsChangeAnnotations_valid (r : lsChangeAnnotations) : Prop :=
  annotation_valid (lsChangeAnnotations_id r).
#[export] Instance lsChangeAnnotations_roundtrip : Roundtrip lsChangeAnnotations_codec lsChangeAnnotations_valid.
Proof. struct_law. Qed.
#[export] Instance lsChangeAnnotations_object : WritesObject lsChangeAnnotations_codec.
Proof. intros v. by eexists. Qed.

Record lsWorkspaceEditMetadata := mk_lsWorkspaceEditMetadata {
  lsWorkspaceEditMetadata_isRefactoring : option bool }.
Definition lsWorkspaceEditMetadata_codec : codec lsWorkspaceEditMetadata :=
  struct_codec
    (opt_field (lit "isRefactoring") bool_codec)
    (fun x0 => mk_lsWorkspaceEditMetadata x0)
    (fun r => lsWorkspaceEditMetadata_isRefactoring r).
Definition lsWorkspaceEditMetadata_valid (r : lsWorkspaceEditMetadata) : Prop :=
  opt_valid any_valid (lsWorkspaceEditMetadata_isRefactoring r).
#[export] Instance lsWorkspaceEditMetadata_roundtrip : Roundtrip lsWorkspaceEditMetadata_codec lsWorkspaceEditMetadata_valid.
Proof. struct_law. Qed.
#[export] Instance lsWorkspaceEditMetadata_object : WritesObject lsWorkspaceEditMetadata_codec.
Proof. intros v. by eexists. Qed.

Record lsWorkspaceEdit := mk_lsWorkspaceEdit {
  lsWorkspaceEdit_changes : option (list (bytes * (list lsTextEdit)));
  lsWorkspaceEdit_documentChanges : option (list (option lsTextDocumentEdit * option Any));
  lsWorkspaceEdit_changeAnnotations : option lsChangeAnnotations;
  lsWorkspaceEdit_metadata : option lsWorkspaceEditMetadata }.
Definition lsWorkspaceEdit_codec : codec lsWorkspaceEdit :=
  struct_codec
    (opt_field (lit "changes") (map_codec (vector_codec lsTextEdit_codec))
     ⊗ opt_field (lit "documentChanges") (vector_codec document_change_codec)
     ⊗ opt_field (lit "changeAnnotations") lsChangeAnnotations_codec
     ⊗ opt_field (lit "metadata") lsWorkspaceEditMetadata_codec)
    (fun '(x0, (x1, (x2, x3))) => mk_lsWorkspaceEdit x0 x1 x2 x3)
    (fun r => (lsWorkspaceEdit_changes r, (lsWorkspaceEdit_documentChanges r,
     (lsWorkspaceEdit_changeAnnotations r, lsWorkspaceEdit_metadata r)))).
Definition lsWorkspaceEdit_valid (r : lsWorkspaceEdit) : Prop :=
  opt_valid (map_valid (Forall edit_valid)) (lsWorkspaceEdit_changes r) /\
  opt_valid (Forall document_change_valid) (lsWorkspaceEdit_documentChanges r) /\
  opt_valid lsChangeAnnotations_valid (lsWorkspaceEdit_changeAnnotations r) /\
  opt_valid lsWorkspaceEditMetadata_valid (lsWorkspaceEdit_metadata r).
#[export] Instance lsWorkspaceEdit_roundtrip : Roundtrip lsWorkspaceEdit_codec lsWorkspaceEdit_valid.
Proof. struct_law. Qed.
#[export] Instance lsWorkspaceEdit_object : WritesObject lsWorkspaceEdit_codec.
Proof. intros v. by eexists. Qed.

Record CodeAction := mk_CodeAction {
  CodeAction_title : bytes; CodeAction_kind : option bytes;
  CodeAction_diagnostics : option (list lsDiagnostic); CodeAction_edit : option lsWorkspaceEdit;
  CodeAction_command : option (lsCommand (list Any)) }.
Definition CodeAction_codec : codec CodeAction :=
  struct_codec
    (field (lit "title") string_codec
     ⊗ opt_field (lit "kind") string_codec
     ⊗ opt_field (lit "diagnostics") (vector_codec lsDiagnostic_codec)
     ⊗ opt_field (lit "edit") lsWorkspaceEdit_codec
     ⊗ opt_field (lit "command") lsCommandWithAny_codec)
    (fun '(x0, (x1, (x2, (x3, x4)))) => mk_CodeAction x0 x1 x2 x3 x4)
    (fun r => (CodeAction_title r, (CodeAction_kind r, (CodeAction_diagnostics r, (CodeAction_edit r,
     CodeAction_command r))))).
Definition CodeAction_valid (r : CodeAction) : Prop :=
  text_valid (CodeAction_title r) /\
  opt_valid text_valid (CodeAction_kind r) /\
  opt_valid (Forall lsDiagnostic_valid) (CodeAction_diagnostics r) /\
  opt_valid lsWorkspaceEdit_valid (CodeAction_edit r) /\
  opt_valid lsCommandWithAny_valid (CodeAction_command r).
#[export] Instance CodeAction_roundtrip : Roundtrip CodeAction_codec CodeAction_valid.
Proof. struct_law. Qed.
#[export] Instance CodeAction_object : WritesObject CodeAction_codec.
Proof. intros v. by eexists. Qed.

Record lsCodeActionContext := mk_lsCodeActionContext {
  lsCodeActionContext_diagnostics : list lsDiagnostic; lsCodeActionContext_only : option (list bytes) }.
Definition lsCodeActionContext_codec : codec lsCodeActionContext :=
  struct_codec
    (field (lit "diagnostics") (vector_codec lsDiagnostic_codec)
     ⊗ opt_field (lit "only") (vector_codec string_codec))
    (fun '(x0, x1) => mk_lsCodeActionContext x0 x1)
    (fun r => (lsCodeActionContext_diagnostics r, lsCodeActionContext_only r)).
Definition lsCodeActionContext_valid (r : lsCodeActionContext) : Prop :=
  Forall lsDiagnostic_valid (lsCodeActionContext_diagnostics r) /\
  opt_valid (Forall text_valid) (lsCodeActionContext_only r).
#[export] Instance lsCodeActionContext_roundtrip : Roundtrip lsCodeActionContext_codec lsCodeActionContext_valid.
Proof. struct_law. Qed.
#[export] Instance lsCodeActionContext_object : WritesObject lsCodeActionContext_codec.
Proof. intros v. by eexists. Qed.

Record lsCodeActionParams := mk_lsCodeActionParams {
  lsCodeActionParams_textDocument : lsTextDocumentIdentifier; lsCodeActionParams_range : lsRange;
  lsCodeActionParams_context : lsCodeActionContext }.
Definition lsCodeActionParams_codec : codec lsCodeActionParams :=
  struct_codec
    (field (lit "textDocument") lsTextDocumentIdentifier_codec
     ⊗ field (lit "range") lsRange_codec
     ⊗ field (lit "context") lsCodeActionContext_codec)
    (fun '(x0, (x1, x2)) => mk_lsCodeActionParams x0 x1 x2)
    (fun r => (lsCodeActionParams_textDocument r, (lsCodeActionParams_range r, lsCodeActionParams_context r))).
Definition lsCodeActionParams_valid (r : lsCodeActionParams) : Prop :=
  docid_valid (lsCodeActionParams_textDocument r) /\
  range_valid (lsCodeActionParams_range r) /\
  lsCodeActionContext_valid (lsCodeActionParams_context r).
#[export] Instance lsCodeActionParams_roundtrip : Roundtrip lsCodeActionParams_codec lsCodeActionParams_valid.
Proof. struct_law. Qed.
#[export] Instance lsCodeActionParams_object : WritesObject lsCodeActionParams_codec.
Proof. intros v. by eexists. Qed.

Record ExecuteCommandParams := mk_ExecuteCommandParams {
  ExecuteCommandParams_command : bytes; ExecuteCommandParams_arguments : option (list Any) }.
Definition ExecuteCommandParams_codec : codec ExecuteCommandParams :=
  struct_codec
    (field (lit "command") string_codec
     ⊗ opt_field (lit "arguments") (vector_codec any))
    (fun '(x0, x1) => mk_ExecuteCommandParams x0 x1)
    (fun r => (ExecuteCommandParams_command r, ExecuteCommandParams_arguments r)).
Definition ExecuteCommandParams_valid (r : ExecuteCommandParams) : Prop :=
  text_valid (ExecuteCommandParams_command r) /\
  opt_valid (Forall any_ok) (ExecuteCommandParams_arguments r).
#[export] Instance ExecuteCommandParams_roundtrip : Roundtrip ExecuteCommandParams_codec ExecuteCommandParams_valid.
Proof. struct_law. Qed.
#[export] Instance ExecuteCommandParams_object : WritesObject ExecuteCommandParams_codec.
Proof. intros v. by eexists. Qed.

Record lsFormattingOptions := mk_lsFormattingOptions {
  lsFormattingOptions_tabSize : Z; lsFormattingOptions_insertSpaces : bool;
  lsFormattingOptions_trimTrailingWhitespace : option bool;
  lsFormattingOptions_insertFinalNewline : option bool; lsFormattingOptions_trimFinalNewlines : option bool;
  lsFormattingOptions_key : option KeyData }.
Definition lsFormattingOptions_codec : codec lsFormattingOptions :=
  struct_codec
    (field_init (lit "tabSize") int_codec 4%Z
     ⊗ field_init (lit "insertSpaces") bool_codec true
     ⊗ opt_field (lit "trimTrailingWhitespace") bool_codec
     ⊗ opt_field (lit "insertFinalNewline") bool_codec
     ⊗ opt_field (lit "trimFinalNewlines") bool_codec
     ⊗ opt_field (lit "key") key_codec)
    (fun '(x0, (x1, (x2, (x3, (x4, x5))))) => mk_lsFormattingOptions x0 x1 x2 x3 x4 x5)
    (fun r => (lsFormattingOptions_tabSize r, (lsFormattingOptions_insertSpaces r,
     (lsFormattingOptions_trimTrailingWhitespace r, (lsFormattingOptions_insertFinalNewline r,
     (lsFormattingOptions_trimFinalNewlines r, lsFormattingOptions_key r)))))).
Definition lsFormattingOptions_valid (r : lsFormattingOptions) : Prop :=
  int_valid (lsFormattingOptions_tabSize r) /\
  any_valid (lsFormattingOptions_insertSpaces r) /\
  opt_valid any_valid (lsFormattingOptions_trimTrailingWhitespace r) /\
  opt_valid any_valid (lsFormattingOptions_insertFinalNewline r) /\
  opt_valid any_valid (lsFormattingOptions_trimFinalNewlines r) /\
  opt_valid key_valid (lsFormattingOptions_key r).
#[export] Instance lsFormattingOptions_roundtrip : Roundtrip lsFormattingOptions_codec lsFormattingOptions_valid.
Proof. struct_law. Qed.
#[export] Instance lsFormattingOptions_object : WritesObject lsFormattingOptions_codec.
Proof. intros v. by eexists. Qed.

Record LinkLocation := mk_LinkLocation {
  LinkLocation_uri : lsDocumentUri; LinkLocation_range : lsRange; LinkLocation_displayName : bytes;
  LinkLocation_kind : bytes }.
Definition LinkLocation_codec : codec LinkLocation :=
  struct_codec
    (field (lit "uri") lsDocumentUri_codec
     ⊗ field (lit "range") lsRange_codec
     ⊗ field (lit "displayName") string_codec
     ⊗ field (lit "kind") string_codec)
    (fun '(x0, (x1, (x2, x3))) => mk_LinkLocation x0 x1 x2 x3)
    (fun r => (LinkLocation_uri r, (LinkLocation_range r, (LinkLocation_displayName r, LinkLocation_kind r)))).
Definition LinkLocation_valid (r : LinkLocation) : Prop :=
  uri_valid (LinkLocation_uri r) /\
  range_valid (LinkLocation_range r) /\
  text_valid (LinkLocation_displayName r) /\
  text_valid (LinkLocation_kind r).
#[export] Instance LinkLocation_roundtrip : Roundtrip LinkLocation_codec LinkLocation_valid.
Proof. struct_law. Qed.
#[export] Instance LinkLocation_object : WritesObject LinkLocation_codec.
Proof. intros v. by eexists. Qed.

(** *** Symbols and hierarchies (symbol.h, textDocument/callHierarchy.h, typeHierarchy.h) *)

Inductive lsSymbolKind :=
| lsSymbolKind_Unknown | lsSymbolKind_File | lsSymbolKind_Module | lsSymbolKind_Namespace
| lsSymbolKind_Package | lsSymbolKind_Class | lsSymbolKind_Method | lsSymbolKind_Property | lsSymbolKind_Field
| lsSymbolKind_Constructor | lsSymbolKind_Enum | lsSymbolKind_Interface | lsSymbolKind_Function
| lsSymbolKind_Variable | lsSymbolKind_Constant | lsSymbolKind_String | lsSymbolKind_Number
| lsSymbolKind_Boolean | lsSymbolKind_Array | lsSymbolKind_Object | lsSymbolKind_Key | lsSymbolKind_Null
| lsSymbolKind_EnumMember | lsSymbolKind_Struct | lsSymbolKind_Event | lsSymbolKind_Operator
| lsSymbolKind_TypeParameter | lsSymbolKind_TypeAlias | lsSymbolKind_Parameter | lsSymbolKind_StaticMethod
| lsSymbolKind_Macro.
Definition lsSymbolKind_value (e : lsSymbolKind) : Z :=
  match e with
  | lsSymbolKind_Unknown => 0 | lsSymbolKind_File => 1 | lsSymbolKind_Module => 2 | lsSymbolKind_Namespace => 3
  | lsSymbolKind_Package => 4 | lsSymbolKind_Class => 5 | lsSymbolKind_Method => 6 | lsSymbolKind_Property => 7
  | lsSymbolKind_Field => 8 | lsSymbolKind_Constructor => 9 | lsSymbolKind_Enum => 10
  | lsSymbolKind_Interface => 11 | lsSymbolKind_Function => 12 | lsSymbolKind_Variable => 13
  | lsSymbolKind_Constant => 14 | lsSymbolKind_String => 15 | lsSymbolKind_Number => 16
  | lsSymbolKind_Boolean => 17 | lsSymbolKind_Array => 18 | lsSymbolKind_Object => 19 | lsSymbolKind_Key => 20
  | lsSymbolKind_Null => 21 | lsSymbolKind_EnumMember => 22 | lsSymbolKind_Struct => 23
  | lsSymbolKind_Event => 24 | lsSymbolKind_Operator => 25 | lsSymbolKind_TypeParameter => 26
  | lsSymbolKind_TypeAlias => 252 | lsSymbolKind_Parameter => 253 | lsSymbolKind_StaticMethod => 254
  | lsSymbolKind_Macro => 255
  end%Z.
Definition lsSymbolKind_codec : codec Z := enum_codec uint8_codec 0.
#[export] Instance lsSymbolKind_roundtrip : Roundtrip lsSymbolKind_codec uint8_valid.
Proof. by apply enum_roundtrip; [apply _|]. Qed.
#[export] Instance lsSymbolKind_not_null : NotNull lsSymbolKind_codec uint8_valid.
Proof. apply enum_not_null, _. Qed.
#[export] Instance lsSymbolKind_fresh : FreshRead lsSymbolKind_codec.
Proof. apply enum_fresh. Qed.

Inductive lsDocumentHighlightKind :=
| lsDocumentHighlightKind_Text | lsDocumentHighlightKind_Read | lsDocumentHighlightKind_Write.
Definition lsDocumentHighlightKind_value (e : lsDocumentHighlightKind) : Z :=
  match e with
  | lsDocumentHighlightKind_Text => 1 | lsDocumentHighlightKind_Read => 2 | lsDocumentHighlightKind_Write => 3
  end%Z.
Definition lsDocumentHighlightKind_codec : codec Z := enum_codec int_codec 0.
#[export] Instance lsDocumentHighlightKind_roundtrip : Roundtrip lsDocumentHighlightKind_codec int_valid.
Proof. by apply enum_roundtrip; [apply _|]. Qed.
#[export] Instance lsDocumentHighlightKind_not_null : NotNull lsDocumentHighlightKind_codec int_valid.
Proof. apply enum_not_null, _. Qed.
#[export] Instance lsDocumentHighlightKind_fresh : FreshRead lsDocumentHighlightKind_codec.
Proof. apply enum_fresh. Qed.

Record lsDocumentHighlight := mk_lsDocumentHighlight {
  lsDocumentHighlight_range : lsRange; lsDocumentHighlight_kind : option Z }.
Definition lsDocumentHighlight_codec : codec lsDocumentHighlight :=
  struct_codec
    (field (lit "range") lsRange_codec
     ⊗ opt_field (lit "kind") lsDocumentHighlightKind_codec)
    (fun '(x0, x1) => mk_lsDocumentHighlight x0 x1)
    (fun r => (lsDocumentHighlight_range r, lsDocumentHighlight_kind r)).
Definition lsDocumentHighlight_valid (r : lsDocumentHighlight) : Prop :=
  range_valid (lsDocumentHighlight_range r) /\
  opt_valid int_valid (lsDocumentHighlight_kind r).
#[export] Instance lsDocumentHighlight_roundtrip : Roundtrip lsDocumentHighlight_codec lsDocumentHighlight_valid.
Proof. struct_law. Qed.
#[export] Instance lsDocumentHighlight_object : WritesObject lsDocumentHighlight_codec.
Proof. intros v. by eexists. Qed.

Record lsSymbolInformation := mk_lsSymbolInformation {
  lsSymbolInformation_name : bytes; lsSymbolInformation_kind : Z; lsSymbolInformation_deprecated : option bool;
  lsSymbolInformation_location : lsLocation; lsSymbolInformation_containerName : option bytes }.
Definition lsSymbolInformation_codec : codec lsSymbolInformation :=
  struct_codec
    (field (lit "name") string_codec
     ⊗ field (lit "kind") lsSymbolKind_codec
     ⊗ opt_field (lit "deprecated") bool_codec
     ⊗ field (lit "location") lsLocation_codec
     ⊗ opt_field (lit "containerName") string_codec)
    (fun '(x0, (x1, (x2, (x3, x4)))) => mk_lsSymbolInformation x0 x1 x2 x3 x4)
    (fun r => (lsSymbolInformation_name r, (lsSymbolInformation_kind r, (lsSymbolInformation_deprecated r,
     (lsSymbolInformation_location r, lsSymbolInformation_containerName r))))).
Definition lsSymbolInformation_valid (r : lsSymbolInformation) : Prop :=
  text_valid (lsSymbolInformation_name r) /\
  uint8_valid (lsSymbolInformation_kind r) /\
  opt_valid any_valid (lsSymbolInformation_deprecated r) /\
  location_valid (lsSymbolInformation_location r) /\
  opt_valid text_valid (lsSymbolInformation_containerName r).
#[export] Instance lsSymbolInformation_roundtrip : Roundtrip lsSymbolInformation_codec lsSymbolInformation_valid.
Proof. struct_law. Qed.
#[export] Instance lsSymbolInformation_object : WritesObject lsSymbolInformation_codec.
Proof. intros v. by eexists. Qed.

Inductive SymbolTag :=
| SymbolTag_Deprecated.
Definition SymbolTag_value (e : SymbolTag) : Z :=
  match e with
  | SymbolTag_Deprecated => 1
  end%Z.
Definition SymbolTag_codec : codec Z := enum_codec int_codec 0.
#[export] Instance SymbolTag_roundtrip : Roundtrip SymbolTag_codec int_valid.
Proof. by apply enum_roundtrip; [apply _|]. Qed.
#[export] Instance SymbolTag_not_null : NotNull SymbolTag_codec int_valid.
Proof. apply enum_not_null, _. Qed.
#[export] Instance SymbolTag_fresh : FreshRead SymbolTag_codec.
Proof. apply enum_fresh. Qed.

Record CallHierarchyPrepareParams := mk_CallHierarchyPrepareParams {
  CallHierarchyPrepareParams_textDocument : lsTextDocumentIdentifier;
  CallHierarchyPrepareParams_position : lsPosition }.
Definition CallHierarchyPrepareParams_codec : codec CallHierarchyPrepareParams :=
  struct_codec
    (field (lit "textDocument") lsTextDocumentIdentifier_codec
     ⊗ field (lit "position") lsPosition_codec)
    (fun '(x0, x1) => mk_CallHierarchyPrepareParams x0 x1)
    (fun r => (CallHierarchyPrepareParams_textDocument r, CallHierarchyPrepareParams_position r)).
Definition CallHierarchyPrepareParams_valid (r : CallHierarchyPrepareParams) : Prop :=
  docid_valid (CallHierarchyPrepareParams_textDocument r) /\
  position_valid (CallHierarchyPrepareParams_position r).
#[export] Instance CallHierarchyPrepareParams_roundtrip : Roundtrip CallHierarchyPrepareParams_codec CallHierarchyPrepareParams_valid.
Proof. struct_law. Qed.
#[export] Instance CallHierarchyPrepareParams_object : WritesObject CallHierarchyPrepareParams_codec.
Proof. intros v. by eexists. Qed.

Record CallHierarchyItem := mk_CallHierarchyItem {
  CallHierarchyItem_name : bytes; CallHierarchyItem_kind : Z; CallHierarchyItem_tags : option (list Z);
  CallHierarchyItem_detail : option bytes; CallHierarchyItem_uri : lsDocumentUri;
  CallHierarchyItem_range : lsRange; CallHierarchyItem_selectionRange : lsRange;
  CallHierarchyItem_data : option Any }.
Definition CallHierarchyItem_codec : codec CallHierarchyItem :=
  struct_codec
    (field (lit "name") string_codec
     ⊗ field (lit "kind") lsSymbolKind_codec
     ⊗ opt_field (lit "tags") (vector_codec SymbolTag_codec)
     ⊗ opt_field (lit "detail") string_codec
     ⊗ field (lit "uri") lsDocumentUri_codec
     ⊗ field (lit "range") lsRange_codec
     ⊗ field (lit "selectionRange") lsRange_codec
     ⊗ opt_field (lit "data") any)
    (fun '(x0, (x1, (x2, (x3, (x4, (x5, (x6, x7))))))) => mk_CallHierarchyItem x0 x1 x2 x3 x4 x5 x6 x7)
    (fun r => (CallHierarchyItem_name r, (CallHierarchyItem_kind r, (CallHierarchyItem_tags r,
     (CallHierarchyItem_detail r, (CallHierarchyItem_uri r, (CallHierarchyItem_range r,
     (CallHierarchyItem_selectionRange r, CallHierarchyItem_data r)))))))).
Definition CallHierarchyItem_valid (r : CallHierarchyItem) : Prop :=
  text_valid (CallHierarchyItem_name r) /\
  uint8_valid (CallHierarchyItem_kind r) /\
  opt_valid (Forall int_valid) (CallHierarchyItem_tags r) /\
  opt_valid text_valid (CallHierarchyItem_detail r) /\
  uri_valid (CallHierarchyItem_uri r) /\
  range_valid (CallHierarchyItem_range r) /\
  range_valid (CallHierarchyItem_selectionRange r) /\
  opt_valid any_ok (CallHierarchyItem_data r).
#[export] Instance CallHierarchyItem_roundtrip : Roundtrip CallHierarchyItem_codec CallHierarchyItem_valid.
Proof. struct_law. Qed.
#[export] Instance CallHierarchyItem_object : WritesObject CallHierarchyItem_codec.
Proof. intros v. by eexists. Qed.

Record CallHierarchyIncomingCallsParams := mk_CallHierarchyIncomingCallsParams {
  CallHierarchyIncomingCallsParams_item : CallHierarchyItem }.
Definition CallHierarchyIncomingCallsParams_codec : codec CallHierarchyIncomingCallsParams :=
  struct_codec
    (field (lit "item") CallHierarchyItem_codec)
    (fun x0 => mk_CallHierarchyIncomingCallsParams x0)
    (fun r => CallHierarchyIncomingCallsParams_item r).
Definition CallHierarchyIncomingCallsParams_valid (r : CallHierarchyIncomingCallsParams) : Prop :=
  CallHierarchyItem_valid (CallHierarchyIncomingCallsParams_item r).
#[export] Instance CallHierarchyIncomingCallsParams_roundtrip : Roundtrip CallHierarchyIncomingCallsParams_codec CallHierarchyIncomingCallsParams_valid.
Proof. struct_law. Qed.
#[export] Instance CallHierarchyIncomingCallsParams_object : WritesObject CallHierarchyIncomingCallsParams_codec.
Proof. intros v. by eexists. Qed.

Record CallHierarchyIncomingCall := mk_CallHierarchyIncomingCall {
  CallHierarchyIncomingCall_from : CallHierarchyItem; CallHierarchyIncomingCall_fromRanges : list lsRange }.
Definition CallHierarchyIncomingCall_codec : codec CallHierarchyIncomingCall :=
  struct_codec
    (field (lit "from") CallHierarchyItem_codec
     ⊗ field (lit "fromRanges") (vector_codec lsRange_codec))
    (fun '(x0, x1) => mk_CallHierarchyIncomingCall x0 x1)
    (fun r => (CallHierarchyIncomingCall_from r, CallHierarchyIncomingCall_fromRanges r)).
Definition CallHierarchyIncomingCall_valid (r : CallHierarchyIncomingCall) : Prop :=
  CallHierarchyItem_valid (CallHierarchyIncomingCall_from r) /\
  Forall range_valid (CallHierarchyIncomingCall_fromRanges r).
#[export] Instance CallHierarchyIncomingCall_roundtrip : Roundtrip CallHierarchyIncomingCall_codec CallHierarchyIncomingCall_valid.
Proof. struct_law. Qed.
#[export] Instance CallHierarchyIncomingCall_object : WritesObject CallHierarchyIncomingCall_codec.
Proof. intros v. by eexists. Qed.

Record CallHierarchyOutgoingCallsParams := mk_CallHierarchyOutgoingCallsParams {
  CallHierarchyOutgoingCallsParams_item : CallHierarchyItem }.
Definition CallHierarchyOutgoingCallsParams_codec : codec CallHierarchyOutgoingCallsParams :=
  struct_codec
    (field (lit "item") CallHierarchyItem_codec)
    (fun x0 => mk_CallHierarchyOutgoingCallsParams x0)
    (fun r => CallHierarchyOutgoingCallsParams_item r).
Definition CallHierarchyOutgoingCallsParams_valid (r : CallHierarchyOutgoingCallsParams) : Prop :=
  CallHierarchyItem_valid (CallHierarchyOutgoingCallsParams_item r).
#[export] Instance CallHierarchyOutgoingCallsParams_roundtrip : Roundtrip CallHierarchyOutgoingCallsParams_codec CallHierarchyOutgoingCallsParams_valid.
Proof. struct_law. Qed.
#[export] Instance CallHierarchyOutgoingCallsParams_object : WritesObject CallHierarchyOutgoingCallsParams_codec.
Proof. intros v. by eexists. Qed.

Record CallHierarchyOutgoingCall := mk_CallHierarchyOutgoingCall {
  CallHierarchyOutgoingCall_to : CallHierarchyItem; CallHierarchyOutgoingCall_fromRanges : list lsRange }.
Definition CallHierarchyOutgoingCall_codec : codec CallHierarchyOutgoingCall :=
  struct_codec
    (field (lit "to") CallHierarchyItem_codec
     ⊗ field (lit "fromRanges") (vector_codec lsRange_codec))
    (fun '(x0, x1) => mk_CallHierarchyOutgoingCall x0 x1)
    (fun r => (CallHierarchyOutgoingCall_to r, CallHierarchyOutgoingCall_fromRanges r)).
Definition CallHierarchyOutgoingCall_valid (r : CallHierarchyOutgoingCall) : Prop :=
  CallHierarchyItem_valid (CallHierarchyOutgoingCall_to r) /\
  Forall range_valid (CallHierarchyOutgoingCall_fromRanges r).
#[export] Instance CallHierarchyOutgoingCall_roundtrip : Roundtrip CallHierarchyOutgoingCall_codec CallHierarchyOutgoingCall_valid.
Proof. struct_law. Qed.
#[export] Instance CallHierarchyOutgoingCall_object : WritesObject CallHierarchyOutgoingCall_codec.
Proof. intros v. by eexists. Qed.

Record TypeHierarchyParams := mk_TypeHierarchyParams {
  TypeHierarchyParams_textDocument : lsTextDocumentIdentifier; TypeHierarchyParams_position : lsPosition;
  TypeHierarchyParams_resolve : option Z; TypeHierarchyParams_direction : option TypeHierarchyDirection }.
Definition TypeHierarchyParams_codec : codec TypeHierarchyParams :=
  struct_codec
    (field (lit "textDocument") lsTextDocumentIdentifier_codec
     ⊗ field (lit "position") lsPosition_codec
     ⊗ opt_field (lit "resolve") int_codec
     ⊗ opt_field (lit "direction") TypeHierarchyDirection_codec)
    (fun '(x0, (x1, (x2, x3))) => mk_TypeHierarchyParams x0 x1 x2 x3)
    (fun r => (TypeHierarchyParams_textDocument r, (TypeHierarchyParams_position r,
     (TypeHierarchyParams_resolve r, TypeHierarchyParams_direction r)))).
Definition TypeHierarchyParams_valid (r : TypeHierarchyParams) : Prop :=
  docid_valid (TypeHierarchyParams_textDocument r) /\
  position_valid (TypeHierarchyParams_position r) /\
  opt_valid int_valid (TypeHierarchyParams_resolve r) /\
  opt_valid direction_valid (TypeHierarchyParams_direction r).
#[export] Instance TypeHierarchyParams_roundtrip : Roundtrip TypeHierarchyParams_codec TypeHierarchyParams_valid.
Proof. struct_law. Qed.
#[export] Instance TypeHierarchyParams_object : WritesObject TypeHierarchyParams_codec.
Proof. intros v. by eexists. Qed.

(** *** Text documents (textDocument/) *)

Record lsDocumentCodeLensParams := mk_lsDocumentCodeLensParams {
  lsDocumentCodeLensParams_textDocument : lsTextDocumentIdentifier }.
Definition lsDocumentCodeLensParams_codec : codec lsDocumentCodeLensParams :=
  struct_codec
    (field (lit "textDocument") lsTextDocumentIdentifier_codec)
    (fun x0 => mk_lsDocumentCodeLensParams x0)
    (fun r => lsDocumentCodeLensParams_textDocument r).
Definition lsDocumentCodeLensParams_valid (r : lsDocumentCodeLensParams) : Prop :=
  docid_valid (lsDocumentCodeLensParams_textDocument r).
#[export] Instance lsDocumentCodeLensParams_roundtrip : Roundtrip lsDocumentCodeLensParams_codec lsDocumentCodeLensParams_valid.
Proof. struct_law. Qed.
#[export] Instance lsDocumentCodeLensParams_object : WritesObject lsDocumentCodeLensParams_codec.
Proof. intros v. by eexists. Qed.

Record lsCodeLens := mk_lsCodeLens {
  lsCodeLens_range : lsRange; lsCodeLens_command : option (lsCommand (list Any)); lsCodeLens_data : option Any }.
Definition lsCodeLens_codec : codec lsCodeLens :=
  struct_codec
    (field (lit "range") lsRange_codec
     ⊗ opt_field (lit "command") lsCommandWithAny_codec
     ⊗ opt_field (lit "data") any)
    (fun '(x0, (x1, x2)) => mk_lsCodeLens x0 x1 x2)
    (fun r => (lsCodeLens_range r, (lsCodeLens_command r, lsCodeLens_data r))).
Definition lsCodeLens_valid (r : lsCodeLens) : Prop :=
  range_valid (lsCodeLens_range r) /\
  opt_valid lsCommandWithAny_valid (lsCodeLens_command r) /\
  opt_valid any_ok (lsCodeLens_data r).
#[export] Instance lsCodeLens_roundtrip : Roundtrip lsCodeLens_codec lsCodeLens_valid.
Proof. struct_law. Qed.
#[export] Instance lsCodeLens_object : WritesObject lsCodeLens_codec.
Proof. intros v. by eexists. Qed.

Record ColorPresentation := mk_ColorPresentation {
  ColorPresentation_label : bytes; ColorPresentation_textEdit : lsTextEdit;
  ColorPresentation_additionalTextEdits : list lsTextEdit }.
Definition ColorPresentation_codec : codec ColorPresentation :=
  struct_codec
    (field (lit "label") string_codec
     ⊗ field (lit "textEdit") lsTextEdit_codec
     ⊗ field (lit "additionalTextEdits") (vector_codec lsTextEdit_codec))
    (fun '(x0, (x1, x2)) => mk_ColorPresentation x0 x1 x2)
    (fun r => (ColorPresentation_label r, (ColorPresentation_textEdit r,
     ColorPresentation_additionalTextEdits r))).
Definition ColorPresentation_valid (r : ColorPresentation) : Prop :=
  text_valid (ColorPresentation_label r) /\
  edit_valid (ColorPresentation_textEdit r) /\
  Forall edit_valid (ColorPresentation_additionalTextEdits r).
#[export] Instance ColorPresentation_roundtrip : Roundtrip ColorPresentation_codec ColorPresentation_valid.
Proof. struct_law. Qed.
#[export] Instance ColorPresentation_object : WritesObject ColorPresentation_codec.
Proof. intros v. by eexists. Qed.

Record FileRenameEvent := mk_FileRenameEvent {
  FileRenameEvent_oldUri : bytes; FileRenameEvent_newUri : bytes }.
Definition FileRenameEvent_codec : codec FileRenameEvent :=
  struct_codec
    (field (lit "oldUri") string_codec
     ⊗ field (lit "newUri") string_codec)
    (fun '(x0, x1) => mk_FileRenameEvent x0 x1)
    (fun r => (FileRenameEvent_oldUri r, FileRenameEvent_newUri r)).
Definition FileRenameEvent_valid (r : FileRenameEvent) : Prop :=
  text_valid (FileRenameEvent_oldUri r) /\
  text_valid (FileRenameEvent_newUri r).
#[export] Instance FileRenameEvent_roundtrip : Roundtrip FileRenameEvent_codec FileRenameEvent_valid.
Proof. struct_law. Qed.
#[export] Instance FileRenameEvent_object : WritesObject FileRenameEvent_codec.
Proof. intros v. by eexists. Qed.

Record FileRenameParams := mk_FileRenameParams {
  FileRenameParams_files : list FileRenameEvent }.
Definition FileRenameParams_codec : codec FileRenameParams :=
  struct_codec
    (field (lit "files") (vector_codec FileRenameEvent_codec))
    (fun x0 => mk_FileRenameParams x0)
    (fun r => FileRenameParams_files r).
Definition FileRenameParams_valid (r : FileRenameParams) : Prop :=
  Forall FileRenameEvent_valid (FileRenameParams_files r).
#[export] Instance FileRenameParams_roundtrip : Roundtrip FileRenameParams_codec FileRenameParams_valid.
Proof. struct_law. Qed.
#[export] Instance FileRenameParams_object : WritesObject FileRenameParams_codec.
Proof. intros v. by eexists. Qed.

Record lsTextDocumentContentChangeEvent := mk_lsTextDocumentContentChangeEvent {
  lsTextDocumentContentChangeEvent_range : option lsRange;
  lsTextDocumentContentChangeEvent_rangeLength : option Z; lsTextDocumentContentChangeEvent_text : bytes }.
Definition lsTextDocumentContentChangeEvent_codec : codec lsTextDocumentContentChangeEvent :=
  struct_codec
    (opt_field (lit "range") lsRange_codec
     ⊗ opt_field (lit "rangeLength") int_codec
     ⊗ field (lit "text") string_codec)
    (fun '(x0, (x1, x2)) => mk_lsTextDocumentContentChangeEvent x0 x1 x2)
    (fun r => (lsTextDocumentContentChangeEvent_range r, (lsTextDocumentContentChangeEvent_rangeLength r,
     lsTextDocumentContentChangeEvent_text r))).
Definition lsTextDocumentContentChangeEvent_valid (r : lsTextDocumentContentChangeEvent) : Prop :=
  opt_valid range_valid (lsTextDocumentContentChangeEvent_range r) /\
  opt_valid int_valid (lsTextDocumentContentChangeEvent_rangeLength r) /\
  text_valid (lsTextDocumentContentChangeEvent_text r).
#[export] Instance lsTextDocumentContentChangeEvent_roundtrip : Roundtrip lsTextDocumentContentChangeEvent_codec lsTextDocumentContentChangeEvent_valid.
Proof. struct_law. Qed.
#[export] Instance lsTextDocumentContentChangeEvent_object : WritesObject lsTextDocumentContentChangeEvent_codec.
Proof. intros v. by eexists. Qed.

Record lsTextDocumentDidChangeParams := mk_lsTextDocumentDidChangeParams {
  lsTextDocumentDidChangeParams_textDocument : lsVersionedTextDocumentIdentifier;
  lsTextDocumentDidChangeParams_contentChanges : list lsTextDocumentContentChangeEvent;
  lsTextDocumentDidChangeParams_uri : option lsDocumentUri }.
Definition lsTextDocumentDidChangeParams_codec : codec lsTextDocumentDidChangeParams :=
  struct_codec
    (field (lit "textDocument") lsVersionedTextDocumentIdentifier_codec
     ⊗ field (lit "contentChanges") (vector_codec lsTextDocumentContentChangeEvent_codec)
     ⊗ opt_field (lit "uri") lsDocumentUri_codec)
    (fun '(x0, (x1, x2)) => mk_lsTextDocumentDidChangeParams x0 x1 x2)
    (fun r => (lsTextDocumentDidChangeParams_textDocument r,
     (lsTextDocumentDidChangeParams_contentChanges r, lsTextDocumentDidChangeParams_uri r))).
Definition lsTextDocumentDidChangeParams_valid (r : lsTextDocumentDidChangeParams) : Prop :=
  versioned_valid (lsTextDocumentDidChangeParams_textDocument r) /\
  Forall lsTextDocumentContentChangeEvent_valid (lsTextDocumentDidChangeParams_contentChanges r) /\
  opt_valid uri_valid (lsTextDocumentDidChangeParams_uri r).
#[export] Instance lsTextDocumentDidChangeParams_roundtrip : Roundtrip lsTextDocumentDidChangeParams_codec lsTextDocumentDidChangeParams_valid.
Proof. struct_law. Qed.
#[export] Instance lsTextDocumentDidChangeParams_object : WritesObject lsTextDocumentDidChangeParams_codec.
Proof. intros v. by eexists. Qed.

Record TextDocumentDidClose_Params := mk_TextDocumentDidClose_Params {
  TextDocumentDidClose_Params_textDocument : lsTextDocumentIdentifier }.
Definition TextDocumentDidClose_Params_codec : codec TextDocumentDidClose_Params :=
  struct_codec
    (field (lit "textDocument") lsTextDocumentIdentifier_codec)
    (fun x0 => mk_TextDocumentDidClose_Params x0)
    (fun r => TextDocumentDidClose_Params_textDocument r).
Definition TextDocumentDidClose_Params_valid (r : TextDocumentDidClose_Params) : Prop :=
  docid_valid (TextDocumentDidClose_Params_textDocument r).
#[export] Instance TextDocumentDidClose_Params_roundtrip : Roundtrip TextDocumentDidClose_Params_codec TextDocumentDidClose_Params_valid.
Proof. struct_law. Qed.
#[export] Instance TextDocumentDidClose_Params_object : WritesObject TextDocumentDidClose_Params_codec.
Proof. intros v. by eexists. Qed.

Record TextDocumentDidOpen_Params := mk_TextDocumentDidOpen_Params {
  TextDocumentDidOpen_Params_textDocument : lsTextDocumentItem; TextDocumentDidOpen_Params_text : option bytes }.
Definition TextDocumentDidOpen_Params_codec : codec TextDocumentDidOpen_Params :=
  struct_codec
    (field (lit "textDocument") lsTextDocumentItem_codec
     ⊗ opt_field (lit "text") string_codec)
    (fun '(x0, x1) => mk_TextDocumentDidOpen_Params x0 x1)
    (fun r => (TextDocumentDidOpen_Params_textDocument r, TextDocumentDidOpen_Params_text r)).
Definition TextDocumentDidOpen_Params_valid (r : TextDocumentDidOpen_Params) : Prop :=
  item_valid (TextDocumentDidOpen_Params_textDocument r) /\
  opt_valid text_valid (TextDocumentDidOpen_Params_text r).
#[export] Instance TextDocumentDidOpen_Params_roundtrip : Roundtrip TextDocumentDidOpen_Params_codec TextDocumentDidOpen_Params_valid.
Proof. struct_law. Qed.
#[export] Instance TextDocumentDidOpen_Params_object : WritesObject TextDocumentDidOpen_Params_codec.
Proof. intros v. by eexists. Qed.

Record TextDocumentDidSave_Params := mk_TextDocumentDidSave_Params {
  TextDocumentDidSave_Params_textDocument : lsTextDocumentIdentifier;
  TextDocumentDidSave_Params_text : option bytes }.
Definition TextDocumentDidSave_Params_codec : codec TextDocumentDidSave_Params :=
  struct_codec
    (field (lit "textDocument") lsTextDocumentIdentifier_codec
     ⊗ opt_field (lit "text") string_codec)
    (fun '(x0, x1) => mk_TextDocumentDidSave_Params x0 x1)
    (fun r => (TextDocumentDidSave_Params_textDocument r, TextDocumentDidSave_Params_text r)).
Definition TextDocumentDidSave_Params_valid (r : TextDocumentDidSave_Params) : Prop :=
  docid_valid (TextDocumentDidSave_Params_textDocument r) /\
  opt_valid text_valid (TextDocumentDidSave_Params_text r).
#[export] Instance TextDocumentDidSave_Params_roundtrip : Roundtrip TextDocumentDidSave_Params_codec TextDocumentDidSave_Params_valid.
Proof. struct_law. Qed.
#[export] Instance TextDocumentDidSave_Params_object : WritesObject TextDocumentDidSave_Params_codec.
Proof. intros v. by eexists. Qed.

Record DocumentColorParams := mk_DocumentColorParams {
  DocumentColorParams_textDocument : lsTextDocumentIdentifier }.
Definition DocumentColorParams_codec : codec DocumentColorParams :=
  struct_codec
    (field (lit "textDocument") lsTextDocumentIdentifier_codec)
    (fun x0 => mk_DocumentColorParams x0)
    (fun r => DocumentColorParams_textDocument r).
Definition DocumentColorParams_valid (r : DocumentColorParams) : Prop :=
  docid_valid (DocumentColorParams_textDocument r).
#[export] Instance DocumentColorParams_roundtrip : Roundtrip DocumentColorParams_codec DocumentColorParams_valid.
Proof. struct_law. Qed.
#[export] Instance DocumentColorParams_object : WritesObject DocumentColorParams_codec.
Proof. intros v. by eexists. Qed.

Record TextDocumentDocumentLink_Params := mk_TextDocumentDocumentLink_Params {
  TextDocumentDocumentLink_Params_textDocument : lsTextDocumentIdentifier }.
Definition TextDocumentDocumentLink_Params_codec : codec TextDocumentDocumentLink_Params :=
  struct_codec
    (field (lit "textDocument") lsTextDocumentIdentifier_codec)
    (fun x0 => mk_TextDocumentDocumentLink_Params x0)
    (fun r => TextDocumentDocumentLink_Params_textDocument r).
Definition TextDocumentDocumentLink_Params_valid (r : TextDocumentDocumentLink_Params) : Prop :=
  docid_valid (TextDocumentDocumentLink_Params_textDocument r).
#[export] Instance TextDocumentDocumentLink_Params_roundtrip : Roundtrip TextDocumentDocumentLink_Params_codec TextDocumentDocumentLink_Params_valid.
Proof. struct_law. Qed.
#[export] Instance TextDocumentDocumentLink_Params_object : WritesObject TextDocumentDocumentLink_Params_codec.
Proof. intros v. by eexists. Qed.

Record lsDocumentLink := mk_lsDocumentLink {
  lsDocumentLink_range : lsRange; lsDocumentLink_target : option lsDocumentUri;
  lsDocumentLink_data : option Any }.
Definition lsDocumentLink_codec : codec lsDocumentLink :=
  struct_codec
    (field (lit "range") lsRange_codec
     ⊗ opt_field (lit "target") lsDocumentUri_codec
     ⊗ opt_field (lit "data") any)
    (fun '(x0, (x1, x2)) => mk_lsDocumentLink x0 x1 x2)
    (fun r => (lsDocumentLink_range r, (lsDocumentLink_target r, lsDocumentLink_data r))).
Definition lsDocumentLink_valid (r : lsDocumentLink) : Prop :=
  range_valid (lsDocumentLink_range r) /\
  opt_valid uri_valid (lsDocumentLink_target r) /\
  opt_valid any_ok (lsDocumentLink_data r).
#[export] Instance lsDocumentLink_roundtrip : Roundtrip lsDocumentLink_codec lsDocumentLink_valid.
Proof. struct_law. Qed.
#[export] Instance lsDocumentLink_object : WritesObject lsDocumentLink_codec.
Proof. intros v. by eexists. Qed.

Record lsDocumentSymbolParams := mk_lsDocumentSymbolParams {
  lsDocumentSymbolParams_textDocument : lsTextDocumentIdentifier;
  lsDocumentSymbolParams_workDoneToken : option (option bytes * option Z);
  lsDocumentSymbolParams_partialResultToken : option (option bytes * option Z) }.
Definition lsDocumentSymbolParams_codec : codec lsDocumentSymbolParams :=
  struct_codec
    (field (lit "textDocument") lsTextDocumentIdentifier_codec
     ⊗ opt_field (lit "workDoneToken") (tagged_pair_codec IsString string_codec int_codec)
     ⊗ opt_field (lit "partialResultToken") (tagged_pair_codec IsString string_codec int_codec))
    (fun '(x0, (x1, x2)) => mk_lsDocumentSymbolParams x0 x1 x2)
    (fun r => (lsDocumentSymbolParams_textDocument r, (lsDocumentSymbolParams_workDoneToken r,
     lsDocumentSymbolParams_partialResultToken r))).
Definition lsDocumentSymbolParams_valid (r : lsDocumentSymbolParams) : Prop :=
  docid_valid (lsDocumentSymbolParams_textDocument r) /\
  opt_valid (one_of text_valid int_valid) (lsDocumentSymbolParams_workDoneToken r) /\
  opt_valid (one_of text_valid int_valid) (lsDocumentSymbolParams_partialResultToken r).
#[export] Instance lsDocumentSymbolParams_roundtrip : Roundtrip lsDocumentSymbolParams_codec lsDocumentSymbolParams_valid.
Proof. struct_law. Qed.
#[export] Instance lsDocumentSymbolParams_object : WritesObject lsDocumentSymbolParams_codec.
Proof. intros v. by eexists. Qed.

Record FoldingRangeRequestParams := mk_FoldingRangeRequestParams {
  FoldingRangeRequestParams_textDocument : lsTextDocumentIdentifier }.
Definition FoldingRangeRequestParams_codec : codec FoldingRangeRequestParams :=
  struct_codec
    (field (lit "textDocument") lsTextDocumentIdentifier_codec)
    (fun x0 => mk_FoldingRangeRequestParams x0)
    (fun r => FoldingRangeRequestParams_textDocument r).
Definition FoldingRangeRequestParams_valid (r : FoldingRangeRequestParams) : Prop :=
  docid_valid (FoldingRangeRequestParams_textDocument r).
#[export] Instance FoldingRangeRequestParams_roundtrip : Roundtrip FoldingRangeRequestParams_codec FoldingRangeRequestParams_valid.
Proof. struct_law. Qed.
#[export] Instance FoldingRangeRequestParams_object : WritesObject FoldingRangeRequestParams_codec.
Proof. intros v. by eexists. Qed.

Record FoldingRange := mk_FoldingRange {
  FoldingRange_startLine : Z; FoldingRange_endLine : Z; FoldingRange_startCharacter : Z;
  FoldingRange_endCharacter : Z; FoldingRange_kind : bytes }.
Definition FoldingRange_codec : codec FoldingRange :=
  struct_codec
    (field (lit "startLine") int_codec
     ⊗ field (lit "endLine") int_codec
     ⊗ field (lit "startCharacter") int_codec
     ⊗ field (lit "endCharacter") int_codec
     ⊗ field (lit "kind") string_codec)
    (fun '(x0, (x1, (x2, (x3, x4)))) => mk_FoldingRange x0 x1 x2 x3 x4)
    (fun r => (FoldingRange_startLine r, (FoldingRange_endLine r, (FoldingRange_startCharacter r,
     (FoldingRange_endCharacter r, FoldingRange_kind r))))).
Definition FoldingRange_valid (r : FoldingRange) : Prop :=
  int_valid (FoldingRange_startLine r) /\
  int_valid (FoldingRange_endLine r) /\
  int_valid (FoldingRange_startCharacter r) /\
  int_valid (FoldingRange_endCharacter r) /\
  text_valid (FoldingRange_kind r).
#[export] Instance FoldingRange_roundtrip : Roundtrip FoldingRange_codec FoldingRange_valid.
Proof. struct_law. Qed.
#[export] Instance FoldingRange_object : WritesObject FoldingRange_codec.
Proof. intros v. by eexists. Qed.

Record TextDocumentFormatting_Params := mk_TextDocumentFormatting_Params {
  TextDocumentFormatting_Params_textDocument : lsTextDocumentIdentifier;
  TextDocumentFormatting_Params_options : lsFormattingOptions }.
Definition TextDocumentFormatting_Params_codec : codec TextDocumentFormatting_Params :=
  struct_codec
    (field (lit "textDocument") lsTextDocumentIdentifier_codec
     ⊗ field (lit "options") lsFormattingOptions_codec)
    (fun '(x0, x1) => mk_TextDocumentFormatting_Params x0 x1)
    (fun r => (TextDocumentFormatting_Params_textDocument r, TextDocumentFormatting_Params_options r)).
Definition TextDocumentFormatting_Params_valid (r : TextDocumentFormatting_Params) : Prop :=
  docid_valid (TextDocumentFormatting_Params_textDocument r) /\
  lsFormattingOptions_valid (TextDocumentFormatting_Params_options r).
#[export] Instance TextDocumentFormatting_Params_roundtrip : Roundtrip TextDocumentFormatting_Params_codec TextDocumentFormatting_Params_valid.
Proof. struct_law. Qed.
#[export] Instance TextDocumentFormatting_Params_object : WritesObject TextDocumentFormatting_Params_codec.
Proof. intros v. by eexists. Qed.

Record TextDocumentHover_Result := mk_TextDocumentHover_Result {
  TextDocumentHover_Result_contents : Either (list (Either bytes lsMarkedString)) MarkupContent;
  TextDocumentHover_Result_range : option lsRange }.
Definition TextDocumentHover_Result_codec : codec TextDocumentHover_Result :=
  struct_codec
    (field (lit "contents") hover_codec
     ⊗ opt_field (lit "range") lsRange_codec)
    (fun '(x0, x1) => mk_TextDocumentHover_Result x0 x1)
    (fun r => (TextDocumentHover_Result_contents r, TextDocumentHover_Result_range r)).
Definition TextDocumentHover_Result_valid (r : TextDocumentHover_Result) : Prop :=
  hover_valid (TextDocumentHover_Result_contents r) /\
  opt_valid range_valid (TextDocumentHover_Result_range r).
#[export] Instance TextDocumentHover_Result_roundtrip : Roundtrip TextDocumentHover_Result_codec TextDocumentHover_Result_valid.
Proof. struct_law. Qed.
#[export] Instance TextDocumentHover_Result_object : WritesObject TextDocumentHover_Result_codec.
Proof. intros v. by eexists. Qed.

Record TextDocumentInlayHint_Params := mk_TextDocumentInlayHint_Params {
  TextDocumentInlayHint_Params_textDocument : lsTextDocumentIdentifier;
  TextDocumentInlayHint_Params_range : lsRange }.
Definition TextDocumentInlayHint_Params_codec : codec TextDocumentInlayHint_Params :=
  struct_codec
    (field (lit "textDocument") lsTextDocumentIdentifier_codec
     ⊗ field (lit "range") lsRange_codec)
    (fun '(x0, x1) => mk_TextDocumentInlayHint_Params x0 x1)
    (fun r => (TextDocumentInlayHint_Params_textDocument r, TextDocumentInlayHint_Params_range r)).
Definition TextDocumentInlayHint_Params_valid (r : TextDocumentInlayHint_Params) : Prop :=
  docid_valid (TextDocumentInlayHint_Params_textDocument r) /\
  range_valid (TextDocumentInlayHint_Params_range r).
#[export] Instance TextDocumentInlayHint_Params_roundtrip : Roundtrip TextDocumentInlayHint_Params_codec TextDocumentInlayHint_Params_valid.
Proof. struct_law. Qed.
#[export] Instance TextDocumentInlayHint_Params_object : WritesObject TextDocumentInlayHint_Params_codec.
Proof. intros v. by eexists. Qed.

Record lsInlayHintLabelPart := mk_lsInlayHintLabelPart {
  lsInlayHintLabelPart_value : bytes; lsInlayHintLabelPart_tooltip : option bytes;
  lsInlayHintLabelPart_location : option lsLocation; lsInlayHintLabelPart_command : option (lsCommand Any) }.
Definition lsInlayHintLabelPart_codec : codec lsInlayHintLabelPart :=
  struct_codec
    (field (lit "value") string_codec
     ⊗ opt_field (lit "tooltip") string_codec
     ⊗ opt_field (lit "location") lsLocation_codec
     ⊗ opt_field (lit "command") (lsCommand_codec any))
    (fun '(x0, (x1, (x2, x3))) => mk_lsInlayHintLabelPart x0 x1 x2 x3)
    (fun r => (lsInlayHintLabelPart_value r, (lsInlayHintLabelPart_tooltip r,
     (lsInlayHintLabelPart_location r, lsInlayHintLabelPart_command r)))).
Definition lsInlayHintLabelPart_valid (r : lsInlayHintLabelPart) : Prop :=
  text_valid (lsInlayHintLabelPart_value r) /\
  opt_valid text_valid (lsInlayHintLabelPart_tooltip r) /\
  opt_valid location_valid (lsInlayHintLabelPart_location r) /\
  opt_valid (lsCommand_valid any_ok) (lsInlayHintLabelPart_command r).
#[export] Instance lsInlayHintLabelPart_roundtrip : Roundtrip lsInlayHintLabelPart_codec lsInlayHintLabelPart_valid.
Proof. struct_law. Qed.
#[export] Instance lsInlayHintLabelPart_object : WritesObject lsInlayHintLabelPart_codec.
Proof. intros v. by eexists. Qed.

Inductive lsInlayHintKind :=
| lsInlayHintKind_Type | lsInlayHintKind_Parameter.
Definition lsInlayHintKind_value (e : lsInlayHintKind) : Z :=
  match e with
  | lsInlayHintKind_Type => 1 | lsInlayHintKind_Parameter => 2
  end%Z.
Definition lsInlayHintKind_codec : codec Z := enum_codec int_codec 0.
#[export] Instance lsInlayHintKind_roundtrip : Roundtrip lsInlayHintKind_codec int_valid.
Proof. by apply enum_roundtrip; [apply _|]. Qed.
#[export] Instance lsInlayHintKind_not_null : NotNull lsInlayHintKind_codec int_valid.
Proof. apply enum_not_null, _. Qed.
#[export] Instance lsInlayHintKind_fresh : FreshRead lsInlayHintKind_codec.
Proof. apply enum_fresh. Qed.

Record lsInlayHint := mk_lsInlayHint {
  lsInlayHint_position : lsPosition; lsInlayHint_label : bytes; lsInlayHint_kind : option Z;
  lsInlayHint_textEdits : option (list lsTextEdit); lsInlayHint_tooltip : option bytes;
  lsInlayHint_paddingLeft : option bool; lsInlayHint_paddingRight : option bool; lsInlayHint_data : option Any }.
Definition lsInlayHint_codec : codec lsInlayHint :=
  struct_codec
    (field (lit "position") lsPosition_codec
     ⊗ field (lit "label") string_codec
     ⊗ opt_field (lit "kind") lsInlayHintKind_codec
     ⊗ opt_field (lit "textEdits") (vector_codec lsTextEdit_codec)
     ⊗ opt_field (lit "tooltip") string_codec
     ⊗ opt_field (lit "paddingLeft") bool_codec
     ⊗ opt_field (lit "paddingRight") bool_codec
     ⊗ opt_field (lit "data") any)
    (fun '(x0, (x1, (x2, (x3, (x4, (x5, (x6, x7))))))) => mk_lsInlayHint x0 x1 x2 x3 x4 x5 x6 x7)
    (fun r => (lsInlayHint_position r, (lsInlayHint_label r, (lsInlayHint_kind r, (lsInlayHint_textEdits r,
     (lsInlayHint_tooltip r, (lsInlayHint_paddingLeft r, (lsInlayHint_paddingRight r,
     lsInlayHint_data r)))))))).
Definition lsInlayHint_valid (r : lsInlayHint) : Prop :=
  position_valid (lsInlayHint_position r) /\
  text_valid (lsInlayHint_label r) /\
  opt_valid int_valid (lsInlayHint_kind r) /\
  opt_valid (Forall edit_valid) (lsInlayHint_textEdits r) /\
  opt_valid text_valid (lsInlayHint_tooltip r) /\
  opt_valid any_valid (lsInlayHint_paddingLeft r) /\
  opt_valid any_valid (lsInlayHint_paddingRight r) /\
  opt_valid any_ok (lsInlayHint_data r).
#[export] Instance lsInlayHint_roundtrip : Roundtrip lsInlayHint_codec lsInlayHint_valid.
Proof. struct_law. Qed.
#[export] Instance lsInlayHint_object : WritesObject lsInlayHint_codec.
Proof. intros v. by eexists. Qed.

Record LinkedEditingRangeParams := mk_LinkedEditingRangeParams {
  LinkedEditingRangeParams_textDocument : lsTextDocumentIdentifier;
  LinkedEditingRangeParams_position : lsPosition }.
Definition LinkedEditingRangeParams_codec : codec LinkedEditingRangeParams :=
  struct_codec
    (field (lit "textDocument") lsTextDocumentIdentifier_codec
     ⊗ field (lit "position") lsPosition_codec)
    (fun '(x0, x1) => mk_LinkedEditingRangeParams x0 x1)
    (fun r => (LinkedEditingRangeParams_textDocument r, LinkedEditingRangeParams_position r)).
Definition LinkedEditingRangeParams_valid (r : LinkedEditingRangeParams) : Prop :=
  docid_valid (LinkedEditingRangeParams_textDocument r) /\
  position_valid (LinkedEditingRangeParams_position r).
#[export] Instance LinkedEditingRangeParams_roundtrip : Roundtrip LinkedEditingRangeParams_codec LinkedEditingRangeParams_valid.
Proof. struct_law. Qed.
#[export] Instance LinkedEditingRangeParams_object : WritesObject LinkedEditingRangeParams_codec.
Proof. intros v. by eexists. Qed.

Record LinkedEditingRanges := mk_LinkedEditingRanges {
  LinkedEditingRanges_ranges : list lsRange; LinkedEditingRanges_wordPattern : option bytes }.
Definition LinkedEditingRanges_codec : codec LinkedEditingRanges :=
  struct_codec
    (field (lit "ranges") (vector_codec lsRange_codec)
     ⊗ opt_field (lit "wordPattern") string_codec)
    (fun '(x0, x1) => mk_LinkedEditingRanges x0 x1)
    (fun r => (LinkedEditingRanges_ranges r, LinkedEditingRanges_wordPattern r)).
Definition LinkedEditingRanges_valid (r : LinkedEditingRanges) : Prop :=
  Forall range_valid (LinkedEditingRanges_ranges r) /\
  opt_valid text_valid (LinkedEditingRanges_wordPattern r).
#[export] Instance LinkedEditingRanges_roundtrip : Roundtrip LinkedEditingRanges_codec LinkedEditingRanges_valid.
Proof. struct_law. Qed.
#[export] Instance LinkedEditingRanges_object : WritesObject LinkedEditingRanges_codec.
Proof. intros v. by eexists. Qed.

Record lsDocumentOnTypeFormattingParams := mk_lsDocumentOnTypeFormattingParams {
  lsDocumentOnTypeFormattingParams_textDocument : lsTextDocumentIdentifier;
  lsDocumentOnTypeFormattingParams_position : lsPosition;
  lsDocumentOnTypeFormattingParams_options : lsFormattingOptions; lsDocumentOnTypeFormattingParams_ch : bytes }.
Definition lsDocumentOnTypeFormattingParams_codec : codec lsDocumentOnTypeFormattingParams :=
  struct_codec
    (field (lit "textDocument") lsTextDocumentIdentifier_codec
     ⊗ field (lit "position") lsPosition_codec
     ⊗ field (lit "options") lsFormattingOptions_codec
     ⊗ field (lit "ch") string_codec)
    (fun '(x0, (x1, (x2, x3))) => mk_lsDocumentOnTypeFormattingParams x0 x1 x2 x3)
    (fun r => (lsDocumentOnTypeFormattingParams_textDocument r,
     (lsDocumentOnTypeFormattingParams_position r, (lsDocumentOnTypeFormattingParams_options r,
     lsDocumentOnTypeFormattingParams_ch r)))).
Definition lsDocumentOnTypeFormattingParams_valid (r : lsDocumentOnTypeFormattingParams) : Prop :=
  docid_valid (lsDocumentOnTypeFormattingParams_textDocument r) /\
  position_valid (lsDocumentOnTypeFormattingParams_position r) /\
  lsFormattingOptions_valid (lsDocumentOnTypeFormattingParams_options r) /\
  text_valid (lsDocumentOnTypeFormattingParams_ch r).
#[export] Instance lsDocumentOnTypeFormattingParams_roundtrip : Roundtrip lsDocumentOnTypeFormattingParams_codec lsDocumentOnTypeFormattingParams_valid.
Proof. struct_law. Qed.
#[export] Instance lsDocumentOnTypeFormattingParams_object : WritesObject lsDocumentOnTypeFormattingParams_codec.
Proof. intros v. by eexists. Qed.

Record PrepareRenameResult := mk_PrepareRenameResult {
  PrepareRenameResult_range : lsRange; PrepareRenameResult_placeholder : bytes }.
Definition PrepareRenameResult_codec : codec PrepareRenameResult :=
  struct_codec
    (field (lit "range") lsRange_codec
     ⊗ field (lit "placeholder") string_codec)
    (fun '(x0, x1) => mk_PrepareRenameResult x0 x1)
    (fun r => (PrepareRenameResult_range r, PrepareRenameResult_placeholder r)).
Definition PrepareRenameResult_valid (r : PrepareRenameResult) : Prop :=
  range_valid (PrepareRenameResult_range r) /\
  text_valid (PrepareRenameResult_placeholder r).
#[export] Instance PrepareRenameResult_roundtrip : Roundtrip PrepareRenameResult_codec PrepareRenameResult_valid.
Proof. struct_law. Qed.
#[export] Instance PrepareRenameResult_object : WritesObject PrepareRenameResult_codec.
Proof. intros v. by eexists. Qed.

Record TextDocumentPublishDiagnostics_Params := mk_TextDocumentPublishDiagnostics_Params {
  TextDocumentPublishDiagnostics_Params_uri : lsDocumentUri;
  TextDocumentPublishDiagnostics_Params_diagnostics : list lsDiagnostic }.
Definition TextDocumentPublishDiagnostics_Params_codec : codec TextDocumentPublishDiagnostics_Params :=
  struct_codec
    (field (lit "uri") lsDocumentUri_codec
     ⊗ field (lit "diagnostics") (vector_codec lsDiagnostic_codec))
    (fun '(x0, x1) => mk_TextDocumentPublishDiagnostics_Params x0 x1)
    (fun r => (TextDocumentPublishDiagnostics_Params_uri r,
     TextDocumentPublishDiagnostics_Params_diagnostics r)).
Definition TextDocumentPublishDiagnostics_Params_valid (r : TextDocumentPublishDiagnostics_Params) : Prop :=
  uri_valid (TextDocumentPublishDiagnostics_Params_uri r) /\
  Forall lsDiagnostic_valid (TextDocumentPublishDiagnostics_Params_diagnostics r).
#[export] Instance TextDocumentPublishDiagnostics_Params_roundtrip : Roundtrip TextDocumentPublishDiagnostics_Params_codec TextDocumentPublishDiagnostics_Params_valid.
Proof. struct_law. Qed.
#[export] Instance TextDocumentPublishDiagnostics_Params_object : WritesObject TextDocumentPublishDiagnostics_Params_codec.
Proof. intros v. by eexists. Qed.

Record lsTextDocumentRangeFormattingParams := mk_lsTextDocumentRangeFormattingParams {
  lsTextDocumentRangeFormattingParams_textDocument : lsTextDocumentIdentifier;
  lsTextDocumentRangeFormattingParams_range : lsRange;
  lsTextDocumentRangeFormattingParams_options : lsFormattingOptions }.
Definition lsTextDocumentRangeFormattingParams_codec : codec lsTextDocumentRangeFormattingParams :=
  struct_codec
    (field (lit "textDocument") lsTextDocumentIdentifier_codec
     ⊗ field (lit "range") lsRange_codec
     ⊗ field (lit "options") lsFormattingOptions_codec)
    (fun '(x0, (x1, x2)) => mk_lsTextDocumentRangeFormattingParams x0 x1 x2)
    (fun r => (lsTextDocumentRangeFormattingParams_textDocument r,
     (lsTextDocumentRangeFormattingParams_range r, lsTextDocumentRangeFormattingParams_options r))).
Definition lsTextDocumentRangeFormattingParams_valid (r : lsTextDocumentRangeFormattingParams) : Prop :=
  docid_valid (lsTextDocumentRangeFormattingParams_textDocument r) /\
  range_valid (lsTextDocumentRangeFormattingParams_range r) /\
  lsFormattingOptions_valid (lsTextDocumentRangeFormattingParams_options r).
#[export] Instance lsTextDocumentRangeFormattingParams_roundtrip : Roundtrip lsTextDocumentRangeFormattingParams_codec lsTextDocumentRangeFormattingParams_valid.
Proof. struct_law. Qed.
#[export] Instance lsTextDocumentRangeFormattingParams_object : WritesObject lsTextDocumentRangeFormattingParams_codec.
Proof. intros v. by eexists. Qed.

Record TextDocumentReferences_lsReferenceContext := mk_TextDocumentReferences_lsReferenceContext {
  TextDocumentReferences_lsReferenceContext_includeDeclaration : option bool }.
Definition TextDocumentReferences_lsReferenceContext_codec : codec TextDocumentReferences_lsReferenceContext :=
  struct_codec
    (opt_field (lit "includeDeclaration") bool_codec)
    (fun x0 => mk_TextDocumentReferences_lsReferenceContext x0)
    (fun r => TextDocumentReferences_lsReferenceContext_includeDeclaration r).
Definition TextDocumentReferences_lsReferenceContext_valid (r : TextDocumentReferences_lsReferenceContext) : Prop :=
  opt_valid any_valid (TextDocumentReferences_lsReferenceContext_includeDeclaration r).
#[export] Instance TextDocumentReferences_lsReferenceContext_roundtrip : Roundtrip TextDocumentReferences_lsReferenceContext_codec TextDocumentReferences_lsReferenceContext_valid.
Proof. struct_law. Qed.
#[export] Instance TextDocumentReferences_lsReferenceContext_object : WritesObject TextDocumentReferences_lsReferenceContext_codec.
Proof. intros v. by eexists. Qed.

Record TextDocumentReferences_Params := mk_TextDocumentReferences_Params {
  TextDocumentReferences_Params_textDocument : lsTextDocumentIdentifier;
  TextDocumentReferences_Params_position : lsPosition;
  TextDocumentReferences_Params_context : TextDocumentReferences_lsReferenceContext }.
Definition TextDocumentReferences_Params_codec : codec TextDocumentReferences_Params :=
  struct_codec
    (field (lit "textDocument") lsTextDocumentIdentifier_codec
     ⊗ field (lit "position") lsPosition_codec
     ⊗ field (lit "context") TextDocumentReferences_lsReferenceContext_codec)
    (fun '(x0, (x1, x2)) => mk_TextDocumentReferences_Params x0 x1 x2)
    (fun r => (TextDocumentReferences_Params_textDocument r, (TextDocumentReferences_Params_position r,
     TextDocumentReferences_Params_context r))).
Definition TextDocumentReferences_Params_valid (r : TextDocumentReferences_Params) : Prop :=
  docid_valid (TextDocumentReferences_Params_textDocument r) /\
  position_valid (TextDocumentReferences_Params_position r) /\
  TextDocumentReferences_lsReferenceContext_valid (TextDocumentReferences_Params_context r).
#[export] Instance TextDocumentReferences_Params_roundtrip : Roundtrip TextDocumentReferences_Params_codec TextDocumentReferences_Params_valid.
Proof. struct_law. Qed.
#[export] Instance TextDocumentReferences_Params_object : WritesObject TextDocumentReferences_Params_codec.
Proof. intros v. by eexists. Qed.

Record TextDocumentRename_Params := mk_TextDocumentRename_Params {
  TextDocumentRename_Params_textDocument : lsTextDocumentIdentifier;
  TextDocumentRename_Params_position : lsPosition; TextDocumentRename_Params_newName : bytes }.
Definition TextDocumentRename_Params_codec : codec TextDocumentRename_Params :=
  struct_codec
    (field (lit "textDocument") lsTextDocumentIdentifier_codec
     ⊗ field (lit "position") lsPosition_codec
     ⊗ field (lit "newName") string_codec)
    (fun '(x0, (x1, x2)) => mk_TextDocumentRename_Params x0 x1 x2)
    (fun r => (TextDocumentRename_Params_textDocument r, (TextDocumentRename_Params_position r,
     TextDocumentRename_Params_newName r))).
Definition TextDocumentRename_Params_valid (r : TextDocumentRename_Params) : Prop :=
  docid_valid (TextDocumentRename_Params_textDocument r) /\
  position_valid (TextDocumentRename_Params_position r) /\
  text_valid (TextDocumentRename_Params_newName r).
#[export] Instance TextDocumentRename_Params_roundtrip : Roundtrip TextDocumentRename_Params_codec TextDocumentRename_Params_valid.
Proof. struct_law. Qed.
#[export] Instance TextDocumentRename_Params_object : WritesObject TextDocumentRename_Params_codec.
Proof. intros v. by eexists. Qed.

Record SelectionRangeParams := mk_SelectionRangeParams {
  SelectionRangeParams_textDocument : lsTextDocumentIdentifier;
  SelectionRangeParams_positions : list lsPosition }.
Definition SelectionRangeParams_codec : codec SelectionRangeParams :=
  struct_codec
    (field (lit "textDocument") lsTextDocumentIdentifier_codec
     ⊗ field (lit "positions") (vector_codec lsPosition_codec))
    (fun '(x0, x1) => mk_SelectionRangeParams x0 x1)
    (fun r => (SelectionRangeParams_textDocument r, SelectionRangeParams_positions r)).
Definition SelectionRangeParams_valid (r : SelectionRangeParams) : Prop :=
  docid_valid (SelectionRangeParams_textDocument r) /\
  Forall position_valid (SelectionRangeParams_positions r).
#[export] Instance SelectionRangeParams_roundtrip : Roundtrip SelectionRangeParams_codec SelectionRangeParams_valid.
Proof. struct_law. Qed.
#[export] Instance SelectionRangeParams_object : WritesObject SelectionRangeParams_codec.
Proof. intros v. by eexists. Qed.

Record SemanticHighlightingInformation := mk_SemanticHighlightingInformation {
  SemanticHighlightingInformation_line : Z; SemanticHighlightingInformation_tokens : bytes }.
Definition SemanticHighlightingInformation_codec : codec SemanticHighlightingInformation :=
  struct_codec
    (field_init (lit "line") int_codec 0%Z
     ⊗ field (lit "tokens") string_codec)
    (fun '(x0, x1) => mk_SemanticHighlightingInformation x0 x1)
    (fun r => (SemanticHighlightingInformation_line r, SemanticHighlightingInformation_tokens r)).
Definition SemanticHighlightingInformation_valid (r : SemanticHighlightingInformation) : Prop :=
  int_valid (SemanticHighlightingInformation_line r) /\
  text_valid (SemanticHighlightingInformation_tokens r).
#[export] Instance SemanticHighlightingInformation_roundtrip : Roundtrip SemanticHighlightingInformation_codec SemanticHighlightingInformation_valid.
Proof. struct_law. Qed.
#[export] Instance SemanticHighlightingInformation_object : WritesObject SemanticHighlightingInformation_codec.
Proof. intros v. by eexists. Qed.

Record SemanticHighlightingParams := mk_SemanticHighlightingParams {
  SemanticHighlightingParams_textDocument : lsVersionedTextDocumentIdentifier;
  SemanticHighlightingParams_lines : list SemanticHighlightingInformation }.
Definition SemanticHighlightingParams_codec : codec SemanticHighlightingParams :=
  struct_codec
    (field (lit "textDocument") lsVersionedTextDocumentIdentifier_codec
     ⊗ field (lit "lines") (vector_codec SemanticHighlightingInformation_codec))
    (fun '(x0, x1) => mk_SemanticHighlightingParams x0 x1)
    (fun r => (SemanticHighlightingParams_textDocument r, SemanticHighlightingParams_lines r)).
Definition SemanticHighlightingParams_valid (r : SemanticHighlightingParams) : Prop :=
  versioned_valid (SemanticHighlightingParams_textDocument r) /\
  Forall SemanticHighlightingInformation_valid (SemanticHighlightingParams_lines r).
#[export] Instance SemanticHighlightingParams_roundtrip : Roundtrip SemanticHighlightingParams_codec SemanticHighlightingParams_valid.
Proof. struct_law. Qed.
#[export] Instance SemanticHighlightingParams_object : WritesObject SemanticHighlightingParams_codec.
Proof. intros v. by eexists. Qed.

Record SemanticTokensParams := mk_SemanticTokensParams {
  SemanticTokensParams_textDocument : lsTextDocumentIdentifier }.
Definition SemanticTokensParams_codec : codec SemanticTokensParams :=
  struct_codec
    (field (lit "textDocument") lsTextDocumentIdentifier_codec)
    (fun x0 => mk_SemanticTokensParams x0)
    (fun r => SemanticTokensParams_textDocument r).
Definition SemanticTokensParams_valid (r : SemanticTokensParams) : Prop :=
  docid_valid (SemanticTokensParams_textDocument r).
#[export] Instance SemanticTokensParams_roundtrip : Roundtrip SemanticTokensParams_codec SemanticTokensParams_valid.
Proof. struct_law. Qed.
#[export] Instance SemanticTokensParams_object : WritesObject SemanticTokensParams_codec.
Proof. intros v. by eexists. Qed.

Record SemanticTokensDeltaParams := mk_SemanticTokensDeltaParams {
  SemanticTokensDeltaParams_textDocument : lsTextDocumentIdentifier;
  SemanticTokensDeltaParams_previousResultId : bytes }.
Definition SemanticTokensDeltaParams_codec : codec SemanticTokensDeltaParams :=
  struct_codec
    (field (lit "textDocument") lsTextDocumentIdentifier_codec
     ⊗ field (lit "previousResultId") string_codec)
    (fun '(x0, x1) => mk_SemanticTokensDeltaParams x0 x1)
    (fun r => (SemanticTokensDeltaParams_textDocument r, SemanticTokensDeltaParams_previousResultId r)).
Definition SemanticTokensDeltaParams_valid (r : SemanticTokensDeltaParams) : Prop :=
  docid_valid (SemanticTokensDeltaParams_textDocument r) /\
  text_valid (SemanticTokensDeltaParams_previousResultId r).
#[export] Instance SemanticTokensDeltaParams_roundtrip : Roundtrip SemanticTokensDeltaParams_codec SemanticTokensDeltaParams_valid.
Proof. struct_law. Qed.
#[export] Instance SemanticTokensDeltaParams_object : WritesObject SemanticTokensDeltaParams_codec.
Proof. intros v. by eexists. Qed.

Record lsParameterInformation := mk_lsParameterInformation {
  lsParameterInformation_label : bytes;
  lsParameterInformation_documentation : option (option bytes * option MarkupContent) }.
Definition lsParameterInformation_codec : codec lsParameterInformation :=
  struct_codec
    (field (lit "label") string_codec
     ⊗ opt_field (lit "documentation") (tagged_pair_codec IsString string_codec MarkupContent_codec))
    (fun '(x0, x1) => mk_lsParameterInformation x0 x1)
    (fun r => (lsParameterInformation_label r, lsParameterInformation_documentation r)).
Definition lsParameterInformation_valid (r : lsParameterInformation) : Prop :=
  text_valid (lsParameterInformation_label r) /\
  opt_valid (one_of text_valid markup_valid) (lsParameterInformation_documentation r).
#[export] Instance lsParameterInformation_roundtrip : Roundtrip lsParameterInformation_codec lsParameterInformation_valid.
Proof. struct_law. Qed.
#[export] Instance lsParameterInformation_object : WritesObject lsParameterInformation_codec.
Proof. intros v. by eexists. Qed.

Record lsSignatureInformation := mk_lsSignatureInformation {
  lsSignatureInformation_label : bytes;
  lsSignatureInformation_documentation : option (option bytes * option MarkupContent);
  lsSignatureInformation_parameters : list lsParameterInformation;
  lsSignatureInformation_activeParameter : option Z }.
Definition lsSignatureInformation_codec : codec lsSignatureInformation :=
  struct_codec
    (field (lit "label") string_codec
     ⊗ opt_field (lit "documentation") (tagged_pair_codec IsString string_codec MarkupContent_codec)
     ⊗ field (lit "parameters") (vector_codec lsParameterInformation_codec)
     ⊗ opt_field (lit "activeParameter") int_codec)
    (fun '(x0, (x1, (x2, x3))) => mk_lsSignatureInformation x0 x1 x2 x3)
    (fun r => (lsSignatureInformation_label r, (lsSignatureInformation_documentation r,
     (lsSignatureInformation_parameters r, lsSignatureInformation_activeParameter r)))).
Definition lsSignatureInformation_valid (r : lsSignatureInformation) : Prop :=
  text_valid (lsSignatureInformation_label r) /\
  opt_valid (one_of text_valid markup_valid) (lsSignatureInformation_documentation r) /\
  Forall lsParameterInformation_valid (lsSignatureInformation_parameters r) /\
  opt_valid int_valid (lsSignatureInformation_activeParameter r).
#[export] Instance lsSignatureInformation_roundtrip : Roundtrip lsSignatureInformation_codec lsSignatureInformation_valid.
Proof. struct_law. Qed.
#[export] Instance lsSignatureInformation_object : WritesObject lsSignatureInformation_codec.
Proof. intros v. by eexists. Qed.

Record lsSignatureHelp := mk_lsSignatureHelp {
  lsSignatureHelp_signatures : list lsSignatureInformation; lsSignatureHelp_activeSignature : option Z;
  lsSignatureHelp_activeParameter : option Z }.
Definition lsSignatureHelp_codec : codec lsSignatureHelp :=
  struct_codec
    (field (lit "signatures") (vector_codec lsSignatureInformation_codec)
     ⊗ opt_field (lit "activeSignature") int_codec
     ⊗ opt_field (lit "activeParameter") int_codec)
    (fun '(x0, (x1, x2)) => mk_lsSignatureHelp x0 x1 x2)
    (fun r => (lsSignatureHelp_signatures r, (lsSignatureHelp_activeSignature r,
     lsSignatureHelp_activeParameter r))).
Definition lsSignatureHelp_valid (r : lsSignatureHelp) : Prop :=
  Forall lsSignatureInformation_valid (lsSignatureHelp_signatures r) /\
  opt_valid int_valid (lsSignatureHelp_activeSignature r) /\
  opt_valid int_valid (lsSignatureHelp_activeParameter r).
#[export] Instance lsSignatureHelp_roundtrip : Roundtrip lsSignatureHelp_codec lsSignatureHelp_valid.
Proof. struct_law. Qed.
#[export] Instance lsSignatureHelp_object : WritesObject lsSignatureHelp_codec.
Proof. intros v. by eexists. Qed.

Inductive WillSaveTextDocumentParams_TextDocumentSaveReason :=
| WillSaveTextDocumentParams_TextDocumentSaveReason_Manual
| WillSaveTextDocumentParams_TextDocumentSaveReason_AfterDelay
| WillSaveTextDocumentParams_TextDocumentSaveReason_FocusOut.
Definition WillSaveTextDocumentParams_TextDocumentSaveReason_value (e : WillSaveTextDocumentParams_TextDocumentSaveReason) : Z :=
  match e with
  | WillSaveTextDocumentParams_TextDocumentSaveReason_Manual => 1
  | WillSaveTextDocumentParams_TextDocumentSaveReason_AfterDelay => 2
  | WillSaveTextDocumentParams_TextDocumentSaveReason_FocusOut => 3
  end%Z.
Definition WillSaveTextDocumentParams_TextDocumentSaveReason_codec : codec Z := enum_codec int_codec 0.
#[export] Instance WillSaveTextDocumentParams_TextDocumentSaveReason_roundtrip : Roundtrip WillSaveTextDocumentParams_TextDocumentSaveReason_codec int_valid.
Proof. by apply enum_roundtrip; [apply _|]. Qed.
#[export] Instance WillSaveTextDocumentParams_TextDocumentSaveReason_not_null : NotNull WillSaveTextDocumentParams_TextDocumentSaveReason_codec int_valid.
Proof. apply enum_not_null, _. Qed.
#[export] Instance WillSaveTextDocumentParams_TextDocumentSaveReason_fresh : FreshRead WillSaveTextDocumentParams_TextDocumentSaveReason_codec.
Proof. apply enum_fresh. Qed.

Record WillSaveTextDocumentParams_Params := mk_WillSaveTextDocumentParams_Params {
  WillSaveTextDocumentParams_Params_textDocument : lsTextDocumentIdentifier;
  WillSaveTextDocumentParams_Params_reason : option Z }.
Definition WillSaveTextDocumentParams_Params_codec : codec WillSaveTextDocumentParams_Params :=
  struct_codec
    (field (lit "textDocument") lsTextDocumentIdentifier_codec
     ⊗ opt_field (lit "reason") WillSaveTextDocumentParams_TextDocumentSaveReason_codec)
    (fun '(x0, x1) => mk_WillSaveTextDocumentParams_Params x0 x1)
    (fun r => (WillSaveTextDocumentParams_Params_textDocument r, WillSaveTextDocumentParams_Params_reason r)).
Definition WillSaveTextDocumentParams_Params_valid (r : WillSaveTextDocumentParams_Params) : Prop :=
  docid_valid (WillSaveTextDocumentParams_Params_textDocument r) /\
  opt_valid int_valid (WillSaveTextDocumentParams_Params_reason r).
#[export] Instance WillSaveTextDocumentParams_Params_roundtrip : Roundtrip WillSaveTextDocumentParams_Params_codec WillSaveTextDocumentParams_Params_valid.
Proof. struct_law. Qed.
#[export] Instance WillSaveTextDocumentParams_Params_object : WritesObject WillSaveTextDocumentParams_Params_codec.
Proof. intros v. by eexists. Qed.

(** *** Workspace, window and client (workspace/, windows/, client/, general/progress.h) *)

Record ApplyWorkspaceEditParams := mk_ApplyWorkspaceEditParams {
  ApplyWorkspaceEditParams_edit : lsWorkspaceEdit; ApplyWorkspaceEditParams_label : bytes;
  ApplyWorkspaceEditParams_metadata : option lsWorkspaceEditMetadata }.
Definition ApplyWorkspaceEditParams_codec : codec ApplyWorkspaceEditParams :=
  struct_codec
    (field (lit "edit") lsWorkspaceEdit_codec
     ⊗ field (lit "label") string_codec
     ⊗ opt_field (lit "metadata") lsWorkspaceEditMetadata_codec)
    (fun '(x0, (x1, x2)) => mk_ApplyWorkspaceEditParams x0 x1 x2)
    (fun r => (ApplyWorkspaceEditParams_edit r, (ApplyWorkspaceEditParams_label r,
     ApplyWorkspaceEditParams_metadata r))).
Definition ApplyWorkspaceEditParams_valid (r : ApplyWorkspaceEditParams) : Prop :=
  lsWorkspaceEdit_valid (ApplyWorkspaceEditParams_edit r) /\
  text_valid (ApplyWorkspaceEditParams_label r) /\
  opt_valid lsWorkspaceEditMetadata_valid (ApplyWorkspaceEditParams_metadata r).
#[export] Instance ApplyWorkspaceEditParams_roundtrip : Roundtrip ApplyWorkspaceEditParams_codec ApplyWorkspaceEditParams_valid.
Proof. struct_law. Qed.
#[export] Instance ApplyWorkspaceEditParams_object : WritesObject ApplyWorkspaceEditParams_codec.
Proof. intros v. by eexists. Qed.

Record ApplyWorkspaceEditResponse := mk_ApplyWorkspaceEditResponse {
  ApplyWorkspaceEditResponse_applied : bool; ApplyWorkspaceEditResponse_failureReason : option bytes }.
Definition ApplyWorkspaceEditResponse_codec : codec ApplyWorkspaceEditResponse :=
  struct_codec
    (field (lit "applied") bool_codec
     ⊗ opt_field (lit "failureReason") string_codec)
    (fun '(x0, x1) => mk_ApplyWorkspaceEditResponse x0 x1)
    (fun r => (ApplyWorkspaceEditResponse_applied r, ApplyWorkspaceEditResponse_failureReason r)).
Definition ApplyWorkspaceEditResponse_valid (r : ApplyWorkspaceEditResponse) : Prop :=
  any_valid (ApplyWorkspaceEditResponse_applied r) /\
  opt_valid text_valid (ApplyWorkspaceEditResponse_failureReason r).
#[export] Instance ApplyWorkspaceEditResponse_roundtrip : Roundtrip ApplyWorkspaceEditResponse_codec ApplyWorkspaceEditResponse_valid.
Proof. struct_law. Qed.
#[export] Instance ApplyWorkspaceEditResponse_object : WritesObject ApplyWorkspaceEditResponse_codec.
Proof. intros v. by eexists. Qed.

Record ConfigurationItem := mk_ConfigurationItem {
  ConfigurationItem_scopeUri : lsDocumentUri; ConfigurationItem_section : bytes }.
Definition ConfigurationItem_codec : codec ConfigurationItem :=
  struct_codec
    (field (lit "scopeUri") lsDocumentUri_codec
     ⊗ field (lit "section") string_codec)
    (fun '(x0, x1) => mk_ConfigurationItem x0 x1)
    (fun r => (ConfigurationItem_scopeUri r, ConfigurationItem_section r)).
Definition ConfigurationItem_valid (r : ConfigurationItem) : Prop :=
  uri_valid (ConfigurationItem_scopeUri r) /\
  text_valid (ConfigurationItem_section r).
#[export] Instance ConfigurationItem_roundtrip : Roundtrip ConfigurationItem_codec ConfigurationItem_valid.
Proof. struct_law. Qed.
#[export] Instance ConfigurationItem_object : WritesObject ConfigurationItem_codec.
Proof. intros v. by eexists. Qed.

Record ConfigurationParams := mk_ConfigurationParams {
  ConfigurationParams_items : list ConfigurationItem }.
Definition ConfigurationParams_codec : codec ConfigurationParams :=
  struct_codec
    (field (lit "items") (vector_codec ConfigurationItem_codec))
    (fun x0 => mk_ConfigurationParams x0)
    (fun r => ConfigurationParams_items r).
Definition ConfigurationParams_valid (r : ConfigurationParams) : Prop :=
  Forall ConfigurationItem_valid (ConfigurationParams_items r).
#[export] Instance ConfigurationParams_roundtrip : Roundtrip ConfigurationParams_codec ConfigurationParams_valid.
Proof. struct_law. Qed.
#[export] Instance ConfigurationParams_object : WritesObject ConfigurationParams_codec.
Proof. intros v. by eexists. Qed.

Record WorkspaceFolder := mk_WorkspaceFolder {
  WorkspaceFolder_uri : lsDocumentUri; WorkspaceFolder_name : bytes }.
Definition WorkspaceFolder_codec : codec WorkspaceFolder :=
  struct_codec
    (field (lit "uri") lsDocumentUri_codec
     ⊗ field (lit "name") string_codec)
    (fun '(x0, x1) => mk_WorkspaceFolder x0 x1)
    (fun r => (WorkspaceFolder_uri r, WorkspaceFolder_name r)).
Definition WorkspaceFolder_valid (r : WorkspaceFolder) : Prop :=
  uri_valid (WorkspaceFolder_uri r) /\
  text_valid (WorkspaceFolder_name r).
#[export] Instance WorkspaceFolder_roundtrip : Roundtrip WorkspaceFolder_codec WorkspaceFolder_valid.
Proof. struct_law. Qed.
#[export] Instance WorkspaceFolder_object : WritesObject WorkspaceFolder_codec.
Proof. intros v. by eexists. Qed.

Record WorkspaceFoldersChangeEvent := mk_WorkspaceFoldersChangeEvent {
  WorkspaceFoldersChangeEvent_added : list WorkspaceFolder;
  WorkspaceFoldersChangeEvent_removed : list WorkspaceFolder }.
Definition WorkspaceFoldersChangeEvent_codec : codec WorkspaceFoldersChangeEvent :=
  struct_codec
    (field (lit "added") (vector_codec WorkspaceFolder_codec)
     ⊗ field (lit "removed") (vector_codec WorkspaceFolder_codec))
    (fun '(x0, x1) => mk_WorkspaceFoldersChangeEvent x0 x1)
    (fun r => (WorkspaceFoldersChangeEvent_added r, WorkspaceFoldersChangeEvent_removed r)).
Definition WorkspaceFoldersChangeEvent_valid (r : WorkspaceFoldersChangeEvent) : Prop :=
  Forall WorkspaceFolder_valid (WorkspaceFoldersChangeEvent_added r) /\
  Forall WorkspaceFolder_valid (WorkspaceFoldersChangeEvent_removed r).
#[export] Instance WorkspaceFoldersChangeEvent_roundtrip : Roundtrip WorkspaceFoldersChangeEvent_codec WorkspaceFoldersChangeEvent_valid.
Proof. struct_law. Qed.
#[export] Instance WorkspaceFoldersChangeEvent_object : WritesObject WorkspaceFoldersChangeEvent_codec.
Proof. intros v. by eexists. Qed.

Record DidChangeWorkspaceFoldersParams := mk_DidChangeWorkspaceFoldersParams {
  DidChangeWorkspaceFoldersParams_event : WorkspaceFoldersChangeEvent }.
Definition DidChangeWorkspaceFoldersParams_codec : codec DidChangeWorkspaceFoldersParams :=
  struct_codec
    (field (lit "event") WorkspaceFoldersChangeEvent_codec)
    (fun x0 => mk_DidChangeWorkspaceFoldersParams x0)
    (fun r => DidChangeWorkspaceFoldersParams_event r).
Definition DidChangeWorkspaceFoldersParams_valid (r : DidChangeWorkspaceFoldersParams) : Prop :=
  WorkspaceFoldersChangeEvent_valid (DidChangeWorkspaceFoldersParams_event r).
#[export] Instance DidChangeWorkspaceFoldersParams_roundtrip : Roundtrip DidChangeWorkspaceFoldersParams_codec DidChangeWorkspaceFoldersParams_valid.
Proof. struct_law. Qed.
#[export] Instance DidChangeWorkspaceFoldersParams_object : WritesObject DidChangeWorkspaceFoldersParams_codec.
Proof. intros v. by eexists. Qed.

Record lsDidChangeConfigurationParams := mk_lsDidChangeConfigurationParams {
  lsDidChangeConfigurationParams_settings : Any }.
Definition lsDidChangeConfigurationParams_codec : codec lsDidChangeConfigurationParams :=
  struct_codec
    (field (lit "settings") any)
    (fun x0 => mk_lsDidChangeConfigurationParams x0)
    (fun r => lsDidChangeConfigurationParams_settings r).
Definition lsDidChangeConfigurationParams_valid (r : lsDidChangeConfigurationParams) : Prop :=
  any_ok (lsDidChangeConfigurationParams_settings r).
#[export] Instance lsDidChangeConfigurationParams_roundtrip : Roundtrip lsDidChangeConfigurationParams_codec lsDidChangeConfigurationParams_valid.
Proof. struct_law. Qed.
#[export] Instance lsDidChangeConfigurationParams_object : WritesObject lsDidChangeConfigurationParams_codec.
Proof. intros v. by eexists. Qed.

Inductive lsFileChangeType :=
| lsFileChangeType_Created | lsFileChangeType_Changed | lsFileChangeType_Deleted.
Definition lsFileChangeType_value (e : lsFileChangeType) : Z :=
  match e with
  | lsFileChangeType_Created => 1 | lsFileChangeType_Changed => 2 | lsFileChangeType_Deleted => 3
  end%Z.
Definition lsFileChangeType_codec : codec Z := enum_codec int_codec 0.
#[export] Instance lsFileChangeType_roundtrip : Roundtrip lsFileChangeType_codec int_valid.
Proof. by apply enum_roundtrip; [apply _|]. Qed.
#[export] Instance lsFileChangeType_not_null : NotNull lsFileChangeType_codec int_valid.
Proof. apply enum_not_null, _. Qed.
#[export] Instance lsFileChangeType_fresh : FreshRead lsFileChangeType_codec.
Proof. apply enum_fresh. Qed.

Record lsFileEvent := mk_lsFileEvent {
  lsFileEvent_uri : lsDocumentUri; lsFileEvent_type : Z }.
Definition lsFileEvent_codec : codec lsFileEvent :=
  struct_codec
    (field (lit "uri") lsDocumentUri_codec
     ⊗ field (lit "type") lsFileChangeType_codec)
    (fun '(x0, x1) => mk_lsFileEvent x0 x1)
    (fun r => (lsFileEvent_uri r, lsFileEvent_type r)).
Definition lsFileEvent_valid (r : lsFileEvent) : Prop :=
  uri_valid (lsFileEvent_uri r) /\
  int_valid (lsFileEvent_type r).
#[export] Instance lsFileEvent_roundtrip : Roundtrip lsFileEvent_codec lsFileEvent_valid.
Proof. struct_law. Qed.
#[export] Instance lsFileEvent_object : WritesObject lsFileEvent_codec.
Proof. intros v. by eexists. Qed.

Record lsDidChangeWatchedFilesParams := mk_lsDidChangeWatchedFilesParams {
  lsDidChangeWatchedFilesParams_changes : list lsFileEvent }.
Definition lsDidChangeWatchedFilesParams_codec : codec lsDidChangeWatchedFilesParams :=
  struct_codec
    (field (lit "changes") (vector_codec lsFileEvent_codec))
    (fun x0 => mk_lsDidChangeWatchedFilesParams x0)
    (fun r => lsDidChangeWatchedFilesParams_changes r).
Definition lsDidChangeWatchedFilesParams_valid (r : lsDidChangeWatchedFilesParams) : Prop :=
  Forall lsFileEvent_valid (lsDidChangeWatchedFilesParams_changes r).
#[export] Instance lsDidChangeWatchedFilesParams_roundtrip : Roundtrip lsDidChangeWatchedFilesParams_codec lsDidChangeWatchedFilesParams_valid.
Proof. struct_law. Qed.
#[export] Instance lsDidChangeWatchedFilesParams_object : WritesObject lsDidChangeWatchedFilesParams_codec.
Proof. intros v. by eexists. Qed.

Inductive lsMessageType :=
| lsMessageType_Error | lsMessageType_Warning | lsMessageType_Info | lsMessageType_Log | lsMessageType_Debug.
Definition lsMessageType_value (e : lsMessageType) : Z :=
  match e with
  | lsMessageType_Error => 1 | lsMessageType_Warning => 2 | lsMessageType_Info => 3 | lsMessageType_Log => 4
  | lsMessageType_Debug => 5
  end%Z.
Definition lsMessageType_codec : codec Z := enum_codec int_codec 0.
#[export] Instance lsMessageType_roundtrip : Roundtrip lsMessageType_codec int_valid.
Proof. by apply enum_roundtrip; [apply _|]. Qed.
#[export] Instance lsMessageType_not_null : NotNull lsMessageType_codec int_valid.
Proof. apply enum_not_null, _. Qed.
#[export] Instance lsMessageType_fresh : FreshRead lsMessageType_codec.
Proof. apply enum_fresh. Qed.

Record MessageParams := mk_MessageParams {
  MessageParams_type : Z; MessageParams_message : bytes }.
Definition MessageParams_codec : codec MessageParams :=
  struct_codec
    (field_init (lit "type") lsMessageType_codec 1%Z
     ⊗ field (lit "message") string_codec)
    (fun '(x0, x1) => mk_MessageParams x0 x1)
    (fun r => (MessageParams_type r, MessageParams_message r)).
Definition MessageParams_valid (r : MessageParams) : Prop :=
  int_valid (MessageParams_type r) /\
  text_valid (MessageParams_message r).
#[export] Instance MessageParams_roundtrip : Roundtrip MessageParams_codec MessageParams_valid.
Proof. struct_law. Qed.
#[export] Instance MessageParams_object : WritesObject MessageParams_codec.
Proof. intros v. by eexists. Qed.

Record MessageActionItem := mk_MessageActionItem {
  MessageActionItem_title : bytes }.
Definition MessageActionItem_codec : codec MessageActionItem :=
  struct_codec
    (field (lit "title") string_codec)
    (fun x0 => mk_MessageActionItem x0)
    (fun r => MessageActionItem_title r).
Definition MessageActionItem_valid (r : MessageActionItem) : Prop :=
  text_valid (MessageActionItem_title r).
#[export] Instance MessageActionItem_roundtrip : Roundtrip MessageActionItem_codec MessageActionItem_valid.
Proof. struct_law. Qed.
#[export] Instance MessageActionItem_object : WritesObject MessageActionItem_codec.
Proof. intros v. by eexists. Qed.

Record ShowMessageRequestParams := mk_ShowMessageRequestParams {
  ShowMessageRequestParams_type : Z; ShowMessageRequestParams_message : bytes;
  ShowMessageRequestParams_actions : list MessageActionItem }.
Definition ShowMessageRequestParams_codec : codec ShowMessageRequestParams :=
  struct_codec
    (field_init (lit "type") lsMessageType_codec 1%Z
     ⊗ field (lit "message") string_codec
     ⊗ field (lit "actions") (vector_codec MessageActionItem_codec))
    (fun '(x0, (x1, x2)) => mk_ShowMessageRequestParams x0 x1 x2)
    (fun r => (ShowMessageRequestParams_type r, (ShowMessageRequestParams_message r,
     ShowMessageRequestParams_actions r))).
Definition ShowMessageRequestParams_valid (r : ShowMessageRequestParams) : Prop :=
  int_valid (ShowMessageRequestParams_type r) /\
  text_valid (ShowMessageRequestParams_message r) /\
  Forall MessageActionItem_valid (ShowMessageRequestParams_actions r).
#[export] Instance ShowMessageRequestParams_roundtrip : Roundtrip ShowMessageRequestParams_codec ShowMessageRequestParams_valid.
Proof. struct_law. Qed.
#[export] Instance ShowMessageRequestParams_object : WritesObject ShowMessageRequestParams_codec.
Proof. intros v. by eexists. Qed.

Record Registration := mk_Registration {
  Registration_id : bytes; Registration_method : bytes }.
Definition Registration_codec : codec Registration :=
  struct_codec
    (field (lit "id") string_codec
     ⊗ field (lit "method") string_codec)
    (fun '(x0, x1) => mk_Registration x0 x1)
    (fun r => (Registration_id r, Registration_method r)).
Definition Registration_valid (r : Registration) : Prop :=
  text_valid (Registration_id r) /\
  text_valid (Registration_method r).
#[export] Instance Registration_roundtrip : Roundtrip Registration_codec Registration_valid.
Proof. struct_law. Qed.
#[export] Instance Registration_object : WritesObject Registration_codec.
Proof. intros v. by eexists. Qed.

Record RegistrationParams := mk_RegistrationParams {
  RegistrationParams_registrations : list Registration }.
Definition RegistrationParams_codec : codec RegistrationParams :=
  struct_codec
    (field (lit "registrations") (vector_codec Registration_codec))
    (fun x0 => mk_RegistrationParams x0)
    (fun r => RegistrationParams_registrations r).
Definition RegistrationParams_valid (r : RegistrationParams) : Prop :=
  Forall Registration_valid (RegistrationParams_registrations r).
#[export] Instance RegistrationParams_roundtrip : Roundtrip RegistrationParams_codec RegistrationParams_valid.
Proof. struct_law. Qed.
#[export] Instance RegistrationParams_object : WritesObject RegistrationParams_codec.
Proof. intros v. by eexists. Qed.

Record Unregistration := mk_Unregistration {
  Unregistration_id : bytes; Unregistration_method : bytes }.
Definition Unregistration_codec : codec Unregistration :=
  struct_codec
    (field (lit "id") string_codec
     ⊗ field (lit "method") string_codec)
    (fun '(x0, x1) => mk_Unregistration x0 x1)
    (fun r => (Unregistration_id r, Unregistration_method r)).
Definition Unregistration_valid (r : Unregistration) : Prop :=
  text_valid (Unregistration_id r) /\
  text_valid (Unregistration_method r).
#[export] Instance Unregistration_roundtrip : Roundtrip Unregistration_codec Unregistration_valid.
Proof. struct_law. Qed.
#[export] Instance Unregistration_object : WritesObject Unregistration_codec.
Proof. intros v. by eexists. Qed.

Record UnregistrationParams := mk_UnregistrationParams {
  UnregistrationParams_unregisterations : list Unregistration }.
Definition UnregistrationParams_codec : codec UnregistrationParams :=
  struct_codec
    (field (lit "unregisterations") (vector_codec Unregistration_codec))
    (fun x0 => mk_UnregistrationParams x0)
    (fun r => UnregistrationParams_unregisterations r).
Definition UnregistrationParams_valid (r : UnregistrationParams) : Prop :=
  Forall Unregistration_valid (UnregistrationParams_unregisterations r).
#[export] Instance UnregistrationParams_roundtrip : Roundtrip UnregistrationParams_codec UnregistrationParams_valid.
Proof. struct_law. Qed.
#[export] Instance UnregistrationParams_object : WritesObject UnregistrationParams_codec.
Proof. intros v. by eexists. Qed.

Record ProgressParams := mk_ProgressParams {
  ProgressParams_token : option bytes * option Z; ProgressParams_value : Any }.
Definition ProgressParams_codec : codec ProgressParams :=
  struct_codec
    (field (lit "token") (tagged_pair_codec IsString string_codec int_codec)
     ⊗ field (lit "value") any)
    (fun '(x0, x1) => mk_ProgressParams x0 x1)
    (fun r => (ProgressParams_token r, ProgressParams_value r)).
Definition ProgressParams_valid (r : ProgressParams) : Prop :=
  one_of text_valid int_valid (ProgressParams_token r) /\
  any_ok (ProgressParams_value r).
#[export] Instance ProgressParams_roundtrip : Roundtrip ProgressParams_codec ProgressParams_valid.
Proof. struct_law. Qed.
#[export] Instance ProgressParams_object : WritesObject ProgressParams_codec.
Proof. intros v. by eexists. Qed.

Record StatusReport := mk_StatusReport {
  StatusReport_type : bytes; StatusReport_message : bytes }.
Definition StatusReport_codec : codec StatusReport :=
  struct_codec
    (field (lit "type") string_codec
     ⊗ field (lit "message") string_codec)
    (fun '(x0, x1) => mk_StatusReport x0 x1)
    (fun r => (StatusReport_type r, StatusReport_message r)).
Definition StatusReport_valid (r : StatusReport) : Prop :=
  text_valid (StatusReport_type r) /\
  text_valid (StatusReport_message r).
#[export] Instance StatusReport_roundtrip : Roundtrip StatusReport_codec StatusReport_valid.
Proof. struct_law. Qed.
#[export] Instance StatusReport_object : WritesObject StatusReport_codec.
Proof. intros v. by eexists. Qed.

Inductive MessageType :=
| MessageType_Error | MessageType_Warning | MessageType_Info | MessageType_Log.
Definition MessageType_value (e : MessageType) : Z :=
  match e with
  | MessageType_Error => 1 | MessageType_Warning => 2 | MessageType_Info => 3 | MessageType_Log => 4
  end%Z.
Definition MessageType_codec : codec Z := enum_codec int_codec 0.
#[export] Instance MessageType_roundtrip : Roundtrip MessageType_codec int_valid.
Proof. by apply enum_roundtrip; [apply _|]. Qed.
#[export] Instance MessageType_not_null : NotNull MessageType_codec int_valid.
Proof. apply enum_not_null, _. Qed.
#[export] Instance MessageType_fresh : FreshRead MessageType_codec.
Proof. apply enum_fresh. Qed.

Record ActionableNotification := mk_ActionableNotification {
  ActionableNotification_severity : Z; ActionableNotification_message : bytes;
  ActionableNotification_data : option Any; ActionableNotification_commands : list (lsCommand (list Any)) }.
Definition ActionableNotification_codec : codec ActionableNotification :=
  struct_codec
    (field (lit "severity") MessageType_codec
     ⊗ field (lit "message") string_codec
     ⊗ opt_field (lit "data") any
     ⊗ field (lit "commands") (vector_codec lsCommandWithAny_codec))
    (fun '(x0, (x1, (x2, x3))) => mk_ActionableNotification x0 x1 x2 x3)
    (fun r => (ActionableNotification_severity r, (ActionableNotification_message r,
     (ActionableNotification_data r, ActionableNotification_commands r)))).
Definition ActionableNotification_valid (r : ActionableNotification) : Prop :=
  int_valid (ActionableNotification_severity r) /\
  text_valid (ActionableNotification_message r) /\
  opt_valid any_ok (ActionableNotification_data r) /\
  Forall lsCommandWithAny_valid (ActionableNotification_commands r).
#[export] Instance ActionableNotification_roundtrip : Roundtrip ActionableNotification_codec ActionableNotification_valid.
Proof. struct_law. Qed.
#[export] Instance ActionableNotification_object : WritesObject ActionableNotification_codec.
Proof. intros v. by eexists. Qed.

Record ProgressReport := mk_ProgressReport {
  ProgressReport_id : bytes; ProgressReport_task : bytes; ProgressReport_subTask : bytes;
  ProgressReport_status : bytes; ProgressReport_workDone : Z; ProgressReport_complete : bool;
  ProgressReport_totalWork : Z }.
Definition ProgressReport_codec : codec ProgressReport :=
  struct_codec
    (field (lit "id") string_codec
     ⊗ field (lit "task") string_codec
     ⊗ field (lit "subTask") string_codec
     ⊗ field (lit "status") string_codec
     ⊗ field_init (lit "workDone") int_codec 0%Z
     ⊗ field_init (lit "complete") bool_codec false)
    (fun '(x0, (x1, (x2, (x3, (x4, x5))))) => mk_ProgressReport x0 x1 x2 x3 x4 x5 0%Z)
    (fun r => (ProgressReport_id r, (ProgressReport_task r, (ProgressReport_subTask r,
     (ProgressReport_status r, (ProgressReport_workDone r, ProgressReport_complete r)))))).
Definition ProgressReport_valid (r : ProgressReport) : Prop :=
  (ProgressReport_totalWork r = 0%Z) /\
  (text_valid (ProgressReport_id r) /\
  text_valid (ProgressReport_task r) /\
  text_valid (ProgressReport_subTask r) /\
  text_valid (ProgressReport_status r) /\
  int_valid (ProgressReport_workDone r) /\
  any_valid (ProgressReport_complete r)).
#[export] Instance ProgressReport_roundtrip : Roundtrip ProgressReport_codec ProgressReport_valid.
Proof. struct_law_default. Qed.
#[export] Instance ProgressReport_object : WritesObject ProgressReport_codec.
Proof. intros v. by eexists. Qed.

Record EventNotification := mk_EventNotification {
  EventNotification_eventType : Z; EventNotification_data : Any }.
Definition EventNotification_codec : codec EventNotification :=
  struct_codec
    (field (lit "eventType") int_codec
     ⊗ field (lit "data") any)
    (fun '(x0, x1) => mk_EventNotification x0 x1)
    (fun r => (EventNotification_eventType r, EventNotification_data r)).
Definition EventNotification_valid (r : EventNotification) : Prop :=
  int_valid (EventNotification_eventType r) /\
  any_ok (EventNotification_data r).
#[export] Instance EventNotification_roundtrip : Roundtrip EventNotification_codec EventNotification_valid.
Proof. struct_law. Qed.
#[export] Instance EventNotification_object : WritesObject EventNotification_codec.
Proof. intros v. by eexists. Qed.

(** *** Version 3.18 (protocol_3_18.h) *)

Record RelativePattern := mk_RelativePattern {
  RelativePattern_baseUri : Any; RelativePattern_pattern : bytes }.
Definition RelativePattern_codec : codec RelativePattern :=
  struct_codec
    (field (lit "baseUri") any
     ⊗ field (lit "pattern") string_codec)
    (fun '(x0, x1) => mk_RelativePattern x0 x1)
    (fun r => (RelativePattern_baseUri r, RelativePattern_pattern r)).
Definition RelativePattern_valid (r : RelativePattern) : Prop :=
  any_ok (RelativePattern_baseUri r) /\
  text_valid (RelativePattern_pattern r).
#[export] Instance RelativePattern_roundtrip : Roundtrip RelativePattern_codec RelativePattern_valid.
Proof. struct_law. Qed.
#[export] Instance RelativePattern_object : WritesObject RelativePattern_codec.
Proof. intros v. by eexists. Qed.

Record NotebookDocumentFilter := mk_NotebookDocumentFilter {
  NotebookDocumentFilter_notebookType : option bytes; NotebookDocumentFilter_scheme : option bytes;
  NotebookDocumentFilter_pattern : option bytes }.
Definition NotebookDocumentFilter_codec : codec NotebookDocumentFilter :=
  struct_codec
    (opt_field (lit "notebookType") string_codec
     ⊗ opt_field (lit "scheme") string_codec
     ⊗ opt_field (lit "pattern") string_codec)
    (fun '(x0, (x1, x2)) => mk_NotebookDocumentFilter x0 x1 x2)
    (fun r => (NotebookDocumentFilter_notebookType r, (NotebookDocumentFilter_scheme r,
     NotebookDocumentFilter_pattern r))).
Definition NotebookDocumentFilter_valid (r : NotebookDocumentFilter) : Prop :=
  opt_valid text_valid (NotebookDocumentFilter_notebookType r) /\
  opt_valid text_valid (NotebookDocumentFilter_scheme r) /\
  opt_valid text_valid (NotebookDocumentFilter_pattern r).
#[export] Instance NotebookDocumentFilter_roundtrip : Roundtrip NotebookDocumentFilter_codec NotebookDocumentFilter_valid.
Proof. struct_law. Qed.
#[export] Instance NotebookDocumentFilter_object : WritesObject NotebookDocumentFilter_codec.
Proof. intros v. by eexists. Qed.

Record NotebookDocumentIdentifier := mk_NotebookDocumentIdentifier {
  NotebookDocumentIdentifier_uri : lsDocumentUri }.
Definition NotebookDocumentIdentifier_codec : codec NotebookDocumentIdentifier :=
  struct_codec
    (field (lit "uri") lsDocumentUri_codec)
    (fun x0 => mk_NotebookDocumentIdentifier x0)
    (fun r => NotebookDocumentIdentifier_uri r).
Definition NotebookDocumentIdentifier_valid (r : NotebookDocumentIdentifier) : Prop :=
  uri_valid (NotebookDocumentIdentifier_uri r).
#[export] Instance NotebookDocumentIdentifier_roundtrip : Roundtrip NotebookDocumentIdentifier_codec NotebookDocumentIdentifier_valid.
Proof. struct_law. Qed.
#[export] Instance NotebookDocumentIdentifier_object : WritesObject NotebookDocumentIdentifier_codec.
Proof. intros v. by eexists. Qed.

Record VersionedNotebookDocumentIdentifier := mk_VersionedNotebookDocumentIdentifier {
  VersionedNotebookDocumentIdentifier_uri : lsDocumentUri;
  VersionedNotebookDocumentIdentifier_version : option Z }.
Definition VersionedNotebookDocumentIdentifier_codec : codec VersionedNotebookDocumentIdentifier :=
  struct_codec
    (field (lit "uri") lsDocumentUri_codec
     ⊗ opt_field (lit "version") int_codec)
    (fun '(x0, x1) => mk_VersionedNotebookDocumentIdentifier x0 x1)
    (fun r => (VersionedNotebookDocumentIdentifier_uri r, VersionedNotebookDocumentIdentifier_version r)).
Definition VersionedNotebookDocumentIdentifier_valid (r : VersionedNotebookDocumentIdentifier) : Prop :=
  uri_valid (VersionedNotebookDocumentIdentifier_uri r) /\
  opt_valid int_valid (VersionedNotebookDocumentIdentifier_version r).
#[export] Instance VersionedNotebookDocumentIdentifier_roundtrip : Roundtrip VersionedNotebookDocumentIdentifier_codec VersionedNotebookDocumentIdentifier_valid.
Proof. struct_law. Qed.
#[export] Instance VersionedNotebookDocumentIdentifier_object : WritesObject VersionedNotebookDocumentIdentifier_codec.
Proof. intros v. by eexists. Qed.

Record TextDocumentContentParams := mk_TextDocumentContentParams {
  TextDocumentContentParams_uri : lsDocumentUri }.
Definition TextDocumentContentParams_codec : codec TextDocumentContentParams :=
  struct_codec
    (field (lit "uri") lsDocumentUri_codec)
    (fun x0 => mk_TextDocumentContentParams x0)
    (fun r => TextDocumentContentParams_uri r).
Definition TextDocumentContentParams_valid (r : TextDocumentContentParams) : Prop :=
  uri_valid (TextDocumentContentParams_uri r).
#[export] Instance TextDocumentContentParams_roundtrip : Roundtrip TextDocumentContentParams_codec TextDocumentContentParams_valid.
Proof. struct_law. Qed.
#[export] Instance TextDocumentContentParams_object : WritesObject TextDocumentContentParams_codec.
Proof. intros v. by eexists. Qed.

Record TextDocumentContentResult := mk_TextDocumentContentResult {
  TextDocumentContentResult_text : bytes }.
Definition TextDocumentContentResult_codec : codec TextDocumentContentResult :=
  struct_codec
    (field (lit "text") string_codec)
    (fun x0 => mk_TextDocumentContentResult x0)
    (fun r => TextDocumentContentResult_text r).
Definition TextDocumentContentResult_valid (r : TextDocumentContentResult) : Prop :=
  text_valid (TextDocumentContentResult_text r).
#[export] Instance TextDocumentContentResult_roundtrip : Roundtrip TextDocumentContentResult_codec TextDocumentContentResult_valid.
Proof. struct_law. Qed.
#[export] Instance TextDocumentContentResult_object : WritesObject TextDocumentContentResult_codec.
Proof. intros v. by eexists. Qed.

Record TextDocumentContentOptions := mk_TextDocumentContentOptions {
  TextDocumentContentOptions_schemes : list bytes }.
Definition TextDocumentContentOptions_codec : codec TextDocumentContentOptions :=
  struct_codec
    (field (lit "schemes") (vector_codec string_codec))
    (fun x0 => mk_TextDocumentContentOptions x0)
    (fun r => TextDocumentContentOptions_schemes r).
Definition TextDocumentContentOptions_valid (r : TextDocumentContentOptions) : Prop :=
  Forall text_valid (TextDocumentContentOptions_schemes r).
#[export] Instance TextDocumentContentOptions_roundtrip : Roundtrip TextDocumentContentOptions_codec TextDocumentContentOptions_valid.
Proof. struct_law. Qed.
#[export] Instance TextDocumentContentOptions_object : WritesObject TextDocumentContentOptions_codec.
Proof. intros v. by eexists. Qed.

Record TextDocumentContentClientCapabilities := mk_TextDocumentContentClientCapabilities {
  TextDocumentContentClientCapabilities_dynamicRegistration : option bool }.
Definition TextDocumentContentClientCapabilities_codec : codec TextDocumentContentClientCapabilities :=
  struct_codec
    (opt_field (lit "dynamicRegistration") bool_codec)
    (fun x0 => mk_TextDocumentContentClientCapabilities x0)
    (fun r => TextDocumentContentClientCapabilities_dynamicRegistration r).
Definition TextDocumentContentClientCapabilities_valid (r : TextDocumentContentClientCapabilities) : Prop :=
  opt_valid any_valid (TextDocumentContentClientCapabilities_dynamicRegistration r).
#[export] Instance TextDocumentContentClientCapabilities_roundtrip : Roundtrip TextDocumentContentClientCapabilities_codec TextDocumentContentClientCapabilities_valid.
Proof. struct_law. Qed.
#[export] Instance TextDocumentContentClientCapabilities_object : WritesObject TextDocumentContentClientCapabilities_codec.
Proof. intros v. by eexists. Qed.

Record DocumentDiagnosticParams := mk_DocumentDiagnosticParams {
  DocumentDiagnosticParams_textDocument : lsTextDocumentIdentifier;
  DocumentDiagnosticParams_identifier : option bytes; DocumentDiagnosticParams_previousResultId : option bytes }.
Definition DocumentDiagnosticParams_codec : codec DocumentDiagnosticParams :=
  struct_codec
    (field (lit "textDocument") lsTextDocumentIdentifier_codec
     ⊗ opt_field (lit "identifier") string_codec
     ⊗ opt_field (lit "previousResultId") string_codec)
    (fun '(x0, (x1, x2)) => mk_DocumentDiagnosticParams x0 x1 x2)
    (fun r => (DocumentDiagnosticParams_textDocument r, (DocumentDiagnosticParams_identifier r,
     DocumentDiagnosticParams_previousResultId r))).
Definition DocumentDiagnosticParams_valid (r : DocumentDiagnosticParams) : Prop :=
  docid_valid (DocumentDiagnosticParams_textDocument r) /\
  opt_valid text_valid (DocumentDiagnosticParams_identifier r) /\
  opt_valid text_valid (DocumentDiagnosticParams_previousResultId r).
#[export] Instance DocumentDiagnosticParams_roundtrip : Roundtrip DocumentDiagnosticParams_codec DocumentDiagnosticParams_valid.
Proof. struct_law. Qed.
#[export] Instance DocumentDiagnosticParams_object : WritesObject DocumentDiagnosticParams_codec.
Proof. intros v. by eexists. Qed.

Record PreviousResultId := mk_PreviousResultId {
  PreviousResultId_uri : lsDocumentUri; PreviousResultId_value : bytes }.
Definition PreviousResultId_codec : codec PreviousResultId :=
  struct_codec
    (field (lit "uri") lsDocumentUri_codec
     ⊗ field (lit "value") string_codec)
    (fun '(x0, x1) => mk_PreviousResultId x0 x1)
    (fun r => (PreviousResultId_uri r, PreviousResultId_value r)).
Definition PreviousResultId_valid (r : PreviousResultId) : Prop :=
  uri_valid (PreviousResultId_uri r) /\
  text_valid (PreviousResultId_value r).
#[export] Instance PreviousResultId_roundtrip : Roundtrip PreviousResultId_codec PreviousResultId_valid.
Proof. struct_law. Qed.
#[export] Instance PreviousResultId_object : WritesObject PreviousResultId_codec.
Proof. intros v. by eexists. Qed.

Record WorkspaceDiagnosticParams := mk_WorkspaceDiagnosticParams {
  WorkspaceDiagnosticParams_identifier : option bytes;
  WorkspaceDiagnosticParams_previousResultIds : option (list PreviousResultId) }.
Definition WorkspaceDiagnosticParams_codec : codec WorkspaceDiagnosticParams :=
  struct_codec
    (opt_field (lit "identifier") string_codec
     ⊗ opt_field (lit "previousResultIds") (vector_codec PreviousResultId_codec))
    (fun '(x0, x1) => mk_WorkspaceDiagnosticParams x0 x1)
    (fun r => (WorkspaceDiagnosticParams_identifier r, WorkspaceDiagnosticParams_previousResultIds r)).
Definition WorkspaceDiagnosticParams_valid (r : WorkspaceDiagnosticParams) : Prop :=
  opt_valid text_valid (WorkspaceDiagnosticParams_identifier r) /\
  opt_valid (Forall PreviousResultId_valid) (WorkspaceDiagnosticParams_previousResultIds r).
#[export] Instance WorkspaceDiagnosticParams_roundtrip : Roundtrip WorkspaceDiagnosticParams_codec WorkspaceDiagnosticParams_valid.
Proof. struct_law. Qed.
#[export] Instance WorkspaceDiagnosticParams_object : WritesObject WorkspaceDiagnosticParams_codec.
Proof. intros v. by eexists. Qed.

Record FullDocumentDiagnosticReport := mk_FullDocumentDiagnosticReport {
  FullDocumentDiagnosticReport_kind : bytes; FullDocumentDiagnosticReport_resultId : option bytes;
  FullDocumentDiagnosticReport_items : list lsDiagnostic }.
Definition FullDocumentDiagnosticReport_codec : codec FullDocumentDiagnosticReport :=
  struct_codec
    (field_init (lit "kind") string_codec (lit "full")
     ⊗ opt_field (lit "resultId") string_codec
     ⊗ field (lit "items") (vector_codec lsDiagnostic_codec))
    (fun '(x0, (x1, x2)) => mk_FullDocumentDiagnosticReport x0 x1 x2)
    (fun r => (FullDocumentDiagnosticReport_kind r, (FullDocumentDiagnosticReport_resultId r,
     FullDocumentDiagnosticReport_items r))).
Definition FullDocumentDiagnosticReport_valid (r : FullDocumentDiagnosticReport) : Prop :=
  text_valid (FullDocumentDiagnosticReport_kind r) /\
  opt_valid text_valid (FullDocumentDiagnosticReport_resultId r) /\
  Forall lsDiagnostic_valid (FullDocumentDiagnosticReport_items r).
#[export] Instance FullDocumentDiagnosticReport_roundtrip : Roundtrip FullDocumentDiagnosticReport_codec FullDocumentDiagnosticReport_valid.
Proof. struct_law. Qed.
#[export] Instance FullDocumentDiagnosticReport_object : WritesObject FullDocumentDiagnosticReport_codec.
Proof. intros v. by eexists. Qed.

Record WorkspaceDocumentDiagnosticReport := mk_WorkspaceDocumentDiagnosticReport {
  WorkspaceDocumentDiagnosticReport_uri : lsDocumentUri; WorkspaceDocumentDiagnosticReport_version : option Z;
  WorkspaceDocumentDiagnosticReport_report : FullDocumentDiagnosticReport }.
Definition WorkspaceDocumentDiagnosticReport_codec : codec WorkspaceDocumentDiagnosticReport :=
  struct_codec
    (field (lit "uri") lsDocumentUri_codec
     ⊗ opt_field (lit "version") int_codec
     ⊗ field (lit "report") FullDocumentDiagnosticReport_codec)
    (fun '(x0, (x1, x2)) => mk_WorkspaceDocumentDiagnosticReport x0 x1 x2)
    (fun r => (WorkspaceDocumentDiagnosticReport_uri r, (WorkspaceDocumentDiagnosticReport_version r,
     WorkspaceDocumentDiagnosticReport_report r))).
Definition WorkspaceDocumentDiagnosticReport_valid (r : WorkspaceDocumentDiagnosticReport) : Prop :=
  uri_valid (WorkspaceDocumentDiagnosticReport_uri r) /\
  opt_valid int_valid (WorkspaceDocumentDiagnosticReport_version r) /\
  FullDocumentDiagnosticReport_valid (WorkspaceDocumentDiagnosticReport_report r).
#[export] Instance WorkspaceDocumentDiagnosticReport_roundtrip : Roundtrip WorkspaceDocumentDiagnosticReport_codec WorkspaceDocumentDiagnosticReport_valid.
Proof. struct_law. Qed.
#[export] Instance WorkspaceDocumentDiagnosticReport_object : WritesObject WorkspaceDocumentDiagnosticReport_codec.
Proof. intros v. by eexists. Qed.

Record WorkspaceDiagnosticReport := mk_WorkspaceDiagnosticReport {
  WorkspaceDiagnosticReport_items : list WorkspaceDocumentDiagnosticReport }.
Definition WorkspaceDiagnosticReport_codec : codec WorkspaceDiagnosticReport :=
  struct_codec
    (field (lit "items") (vector_codec WorkspaceDocumentDiagnosticReport_codec))
    (fun x0 => mk_WorkspaceDiagnosticReport x0)
    (fun r => WorkspaceDiagnosticReport_items r).
Definition WorkspaceDiagnosticReport_valid (r : WorkspaceDiagnosticReport) : Prop :=
  Forall WorkspaceDocumentDiagnosticReport_valid (WorkspaceDiagnosticReport_items r).
#[export] Instance WorkspaceDiagnosticReport_roundtrip : Roundtrip WorkspaceDiagnosticReport_codec WorkspaceDiagnosticReport_valid.
Proof. struct_law. Qed.
#[export] Instance WorkspaceDiagnosticReport_object : WritesObject WorkspaceDiagnosticReport_codec.
Proof. intros v. by eexists. Qed.

Record DiagnosticOptions := mk_DiagnosticOptions {
  DiagnosticOptions_identifier : option bytes; DiagnosticOptions_interFileDependencies : option bool;
  DiagnosticOptions_workspaceDiagnostics : option bool }.
Definition DiagnosticOptions_codec : codec DiagnosticOptions :=
  struct_codec
    (opt_field (lit "identifier") string_codec
     ⊗ opt_field (lit "interFileDependencies") bool_codec
     ⊗ opt_field (lit "workspaceDiagnostics") bool_codec)
    (fun '(x0, (x1, x2)) => mk_DiagnosticOptions x0 x1 x2)
    (fun r => (DiagnosticOptions_identifier r, (DiagnosticOptions_interFileDependencies r,
     DiagnosticOptions_workspaceDiagnostics r))).
Definition DiagnosticOptions_valid (r : DiagnosticOptions) : Prop :=
  opt_valid text_valid (DiagnosticOptions_identifier r) /\
  opt_valid any_valid (DiagnosticOptions_interFileDependencies r) /\
  opt_valid any_valid (DiagnosticOptions_workspaceDiagnostics r).
#[export] Instance DiagnosticOptions_roundtrip : Roundtrip DiagnosticOptions_codec DiagnosticOptions_valid.
Proof. struct_law. Qed.
#[export] Instance DiagnosticOptions_object : WritesObject DiagnosticOptions_codec.
Proof. intros v. by eexists. Qed.

Record DiagnosticClientCapabilities := mk_DiagnosticClientCapabilities {
  DiagnosticClientCapabilities_dynamicRegistration : option bool;
  DiagnosticClientCapabilities_relatedDocumentSupport : option bool }.
Definition DiagnosticClientCapabilities_codec : codec DiagnosticClientCapabilities :=
  struct_codec
    (opt_field (lit "dynamicRegistration") bool_codec
     ⊗ opt_field (lit "relatedDocumentSupport") bool_codec)
    (fun '(x0, x1) => mk_DiagnosticClientCapabilities x0 x1)
    (fun r => (DiagnosticClientCapabilities_dynamicRegistration r,
     DiagnosticClientCapabilities_relatedDocumentSupport r)).
Definition DiagnosticClientCapabilities_valid (r : DiagnosticClientCapabilities) : Prop :=
  opt_valid any_valid (DiagnosticClientCapabilities_dynamicRegistration r) /\
  opt_valid any_valid (DiagnosticClientCapabilities_relatedDocumentSupport r).
#[export] Instance DiagnosticClientCapabilities_roundtrip : Roundtrip DiagnosticClientCapabilities_codec DiagnosticClientCapabilities_valid.
Proof. struct_law. Qed.
#[export] Instance DiagnosticClientCapabilities_object : WritesObject DiagnosticClientCapabilities_codec.
Proof. intros v. by eexists. Qed.

Record WorkspaceDiagnosticClientCapabilities := mk_WorkspaceDiagnosticClientCapabilities {
  WorkspaceDiagnosticClientCapabilities_refreshSupport : option bool }.
Definition WorkspaceDiagnosticClientCapabilities_codec : codec WorkspaceDiagnosticClientCapabilities :=
  struct_codec
    (opt_field (lit "refreshSupport") bool_codec)
    (fun x0 => mk_WorkspaceDiagnosticClientCapabilities x0)
    (fun r => WorkspaceDiagnosticClientCapabilities_refreshSupport r).
Definition WorkspaceDiagnosticClientCapabilities_valid (r : WorkspaceDiagnosticClientCapabilities) : Prop :=
  opt_valid any_valid (WorkspaceDiagnosticClientCapabilities_refreshSupport r).
#[export] Instance WorkspaceDiagnosticClientCapabilities_roundtrip : Roundtrip WorkspaceDiagnosticClientCapabilities_codec WorkspaceDiagnosticClientCapabilities_valid.
Proof. struct_law. Qed.
#[export] Instance WorkspaceDiagnosticClientCapabilities_object : WritesObject WorkspaceDiagnosticClientCapabilities_codec.
Proof. intros v. by eexists. Qed.

Record InlineValueContext := mk_InlineValueContext {
  InlineValueContext_frameId : Z; InlineValueContext_stoppedLocation : lsRange }.
Definition InlineValueContext_codec : codec InlineValueContext :=
  struct_codec
    (field_init (lit "frameId") int_codec 0%Z
     ⊗ field (lit "stoppedLocation") lsRange_codec)
    (fun '(x0, x1) => mk_InlineValueContext x0 x1)
    (fun r => (InlineValueContext_frameId r, InlineValueContext_stoppedLocation r)).
Definition InlineValueContext_valid (r : InlineValueContext) : Prop :=
  int_valid (InlineValueContext_frameId r) /\
  range_valid (InlineValueContext_stoppedLocation r).
#[export] Instance InlineValueContext_roundtrip : Roundtrip InlineValueContext_codec InlineValueContext_valid.
Proof. struct_law. Qed.
#[export] Instance InlineValueContext_object : WritesObject InlineValueContext_codec.
Proof. intros v. by eexists. Qed.

Record InlineValueParams := mk_InlineValueParams {
  InlineValueParams_textDocument : lsTextDocumentIdentifier; InlineValueParams_range : lsRange;
  InlineValueParams_context : InlineValueContext }.
Definition InlineValueParams_codec : codec InlineValueParams :=
  struct_codec
    (field (lit "textDocument") lsTextDocumentIdentifier_codec
     ⊗ field (lit "range") lsRange_codec
     ⊗ field (lit "context") InlineValueContext_codec)
    (fun '(x0, (x1, x2)) => mk_InlineValueParams x0 x1 x2)
    (fun r => (InlineValueParams_textDocument r, (InlineValueParams_range r, InlineValueParams_context r))).
Definition InlineValueParams_valid (r : InlineValueParams) : Prop :=
  docid_valid (InlineValueParams_textDocument r) /\
  range_valid (InlineValueParams_range r) /\
  InlineValueContext_valid (InlineValueParams_context r).
#[export] Instance InlineValueParams_roundtrip : Roundtrip InlineValueParams_codec InlineValueParams_valid.
Proof. struct_law. Qed.
#[export] Instance InlineValueParams_object : WritesObject InlineValueParams_codec.
Proof. intros v. by eexists. Qed.

Record InlineValue := mk_InlineValue {
  InlineValue_range : lsRange; InlineValue_text : option bytes; InlineValue_variableName : option bytes;
  InlineValue_caseSensitiveLookup : option bool; InlineValue_expression : option bytes }.
Definition InlineValue_codec : codec InlineValue :=
  struct_codec
    (field (lit "range") lsRange_codec
     ⊗ opt_field (lit "text") string_codec
     ⊗ opt_field (lit "variableName") string_codec
     ⊗ opt_field (lit "caseSensitiveLookup") bool_codec
     ⊗ opt_field (lit "expression") string_codec)
    (fun '(x0, (x1, (x2, (x3, x4)))) => mk_InlineValue x0 x1 x2 x3 x4)
    (fun r => (InlineValue_range r, (InlineValue_text r, (InlineValue_variableName r,
     (InlineValue_caseSensitiveLookup r, InlineValue_expression r))))).
Definition InlineValue_valid (r : InlineValue) : Prop :=
  range_valid (InlineValue_range r) /\
  opt_valid text_valid (InlineValue_text r) /\
  opt_valid text_valid (InlineValue_variableName r) /\
  opt_valid any_valid (InlineValue_caseSensitiveLookup r) /\
  opt_valid text_valid (InlineValue_expression r).
#[export] Instance InlineValue_roundtrip : Roundtrip InlineValue_codec InlineValue_valid.
Proof. struct_law. Qed.
#[export] Instance InlineValue_object : WritesObject InlineValue_codec.
Proof. intros v. by eexists. Qed.

Record InlineValueOptions := mk_InlineValueOptions {
  InlineValueOptions_workDoneProgress : option bool }.
Definition InlineValueOptions_codec : codec InlineValueOptions :=
  struct_codec
    (opt_field (lit "workDoneProgress") bool_codec)
    (fun x0 => mk_InlineValueOptions x0)
    (fun r => InlineValueOptions_workDoneProgress r).
Definition InlineValueOptions_valid (r : InlineValueOptions) : Prop :=
  opt_valid any_valid (InlineValueOptions_workDoneProgress r).
#[export] Instance InlineValueOptions_roundtrip : Roundtrip InlineValueOptions_codec InlineValueOptions_valid.
Proof. struct_law. Qed.
#[export] Instance InlineValueOptions_object : WritesObject InlineValueOptions_codec.
Proof. intros v. by eexists. Qed.

Record InlineValueClientCapabilities := mk_InlineValueClientCapabilities {
  InlineValueClientCapabilities_dynamicRegistration : option bool }.
Definition InlineValueClientCapabilities_codec : codec InlineValueClientCapabilities :=
  struct_codec
    (opt_field (lit "dynamicRegistration") bool_codec)
    (fun x0 => mk_InlineValueClientCapabilities x0)
    (fun r => InlineValueClientCapabilities_dynamicRegistration r).
Definition InlineValueClientCapabilities_valid (r : InlineValueClientCapabilities) : Prop :=
  opt_valid any_valid (InlineValueClientCapabilities_dynamicRegistration r).
#[export] Instance InlineValueClientCapabilities_roundtrip : Roundtrip InlineValueClientCapabilities_codec InlineValueClientCapabilities_valid.
Proof. struct_law. Qed.
#[export] Instance InlineValueClientCapabilities_object : WritesObject InlineValueClientCapabilities_codec.
Proof. intros v. by eexists. Qed.

Record SelectedCompletionInfo := mk_SelectedCompletionInfo {
  SelectedCompletionInfo_range : lsRange; SelectedCompletionInfo_text : bytes }.
Definition SelectedCompletionInfo_codec : codec SelectedCompletionInfo :=
  struct_codec
    (field (lit "range") lsRange_codec
     ⊗ field (lit "text") string_codec)
    (fun '(x0, x1) => mk_SelectedCompletionInfo x0 x1)
    (fun r => (SelectedCompletionInfo_range r, SelectedCompletionInfo_text r)).
Definition SelectedCompletionInfo_valid (r : SelectedCompletionInfo) : Prop :=
  range_valid (SelectedCompletionInfo_range r) /\
  text_valid (SelectedCompletionInfo_text r).
#[export] Instance SelectedCompletionInfo_roundtrip : Roundtrip SelectedCompletionInfo_codec SelectedCompletionInfo_valid.
Proof. struct_law. Qed.
#[export] Instance SelectedCompletionInfo_object : WritesObject SelectedCompletionInfo_codec.
Proof. intros v. by eexists. Qed.

Record InlineCompletionContext := mk_InlineCompletionContext {
  InlineCompletionContext_triggerKind : Z;
  InlineCompletionContext_selectedCompletionInfo : option SelectedCompletionInfo }.
Definition InlineCompletionContext_codec : codec InlineCompletionContext :=
  struct_codec
    (field_init (lit "triggerKind") int_codec 1%Z
     ⊗ opt_field (lit "selectedCompletionInfo") SelectedCompletionInfo_codec)
    (fun '(x0, x1) => mk_InlineCompletionContext x0 x1)
    (fun r => (InlineCompletionContext_triggerKind r, InlineCompletionContext_selectedCompletionInfo r)).
Definition InlineCompletionContext_valid (r : InlineCompletionContext) : Prop :=
  int_valid (InlineCompletionContext_triggerKind r) /\
  opt_valid SelectedCompletionInfo_valid (InlineCompletionContext_selectedCompletionInfo r).
#[export] Instance InlineCompletionContext_roundtrip : Roundtrip InlineCompletionContext_codec InlineCompletionContext_valid.
Proof. struct_law. Qed.
#[export] Instance InlineCompletionContext_object : WritesObject InlineCompletionContext_codec.
Proof. intros v. by eexists. Qed.

Record InlineCompletionParams := mk_InlineCompletionParams {
  InlineCompletionParams_textDocument : lsTextDocumentIdentifier; InlineCompletionParams_position : lsPosition;
  InlineCompletionParams_context : InlineCompletionContext }.
Definition InlineCompletionParams_codec : codec InlineCompletionParams :=
  struct_codec
    (field (lit "textDocument") lsTextDocumentIdentifier_codec
     ⊗ field (lit "position") lsPosition_codec
     ⊗ field (lit "context") InlineCompletionContext_codec)
    (fun '(x0, (x1, x2)) => mk_InlineCompletionParams x0 x1 x2)
    (fun r => (InlineCompletionParams_textDocument r, (InlineCompletionParams_position r,
     InlineCompletionParams_context r))).
Definition InlineCompletionParams_valid (r : InlineCompletionParams) : Prop :=
  docid_valid (InlineCompletionParams_textDocument r) /\
  position_valid (InlineCompletionParams_position r) /\
  InlineCompletionContext_valid (InlineCompletionParams_context r).
#[export] Instance InlineCompletionParams_roundtrip : Roundtrip InlineCompletionParams_codec InlineCompletionParams_valid.
Proof. struct_law. Qed.
#[export] Instance InlineCompletionParams_object : WritesObject InlineCompletionParams_codec.
Proof. intros v. by eexists. Qed.

Record InlineCompletionItem := mk_InlineCompletionItem {
  InlineCompletionItem_insertText : bytes; InlineCompletionItem_range : option lsRange;
  InlineCompletionItem_command : option (lsCommand (list Any)) }.
Definition InlineCompletionItem_codec : codec InlineCompletionItem :=
  struct_codec
    (field (lit "insertText") string_codec
     ⊗ opt_field (lit "range") lsRange_codec
     ⊗ opt_field (lit "command") lsCommandWithAny_codec)
    (fun '(x0, (x1, x2)) => mk_InlineCompletionItem x0 x1 x2)
    (fun r => (InlineCompletionItem_insertText r, (InlineCompletionItem_range r,
     InlineCompletionItem_command r))).
Definition InlineCompletionItem_valid (r : InlineCompletionItem) : Prop :=
  text_valid (InlineCompletionItem_insertText r) /\
  opt_valid range_valid (InlineCompletionItem_range r) /\
  opt_valid lsCommandWithAny_valid (InlineCompletionItem_command r).
#[export] Instance InlineCompletionItem_roundtrip : Roundtrip InlineCompletionItem_codec InlineCompletionItem_valid.
Proof. struct_law. Qed.
#[export] Instance InlineCompletionItem_object : WritesObject InlineCompletionItem_codec.
Proof. intros v. by eexists. Qed.

Record InlineCompletionList := mk_InlineCompletionList {
  InlineCompletionList_items : list InlineCompletionItem }.
Definition InlineCompletionList_codec : codec InlineCompletionList :=
  struct_codec
    (field (lit "items") (vector_codec InlineCompletionItem_codec))
    (fun x0 => mk_InlineCompletionList x0)
    (fun r => InlineCompletionList_items r).
Definition InlineCompletionList_valid (r : InlineCompletionList) : Prop :=
  Forall InlineCompletionItem_valid (InlineCompletionList_items r).
#[export] Instance InlineCompletionList_roundtrip : Roundtrip InlineCompletionList_codec InlineCompletionList_valid.
Proof. struct_law. Qed.
#[export] Instance InlineCompletionList_object : WritesObject InlineCompletionList_codec.
Proof. intros v. by eexists. Qed.

Record InlineCompletionOptions := mk_InlineCompletionOptions {
  InlineCompletionOptions_workDoneProgress : option bool }.
Definition InlineCompletionOptions_codec : codec InlineCompletionOptions :=
  struct_codec
    (opt_field (lit "workDoneProgress") bool_codec)
    (fun x0 => mk_InlineCompletionOptions x0)
    (fun r => InlineCompletionOptions_workDoneProgress r).
Definition InlineCompletionOptions_valid (r : InlineCompletionOptions) : Prop :=
  opt_valid any_valid (InlineCompletionOptions_workDoneProgress r).
#[export] Instance InlineCompletionOptions_roundtrip : Roundtrip InlineCompletionOptions_codec InlineCompletionOptions_valid.
Proof. struct_law. Qed.
#[export] Instance InlineCompletionOptions_object : WritesObject InlineCompletionOptions_codec.
Proof. intros v. by eexists. Qed.

Record InlineCompletionClientCapabilities := mk_InlineCompletionClientCapabilities {
  InlineCompletionClientCapabilities_dynamicRegistration : option bool }.
Definition InlineCompletionClientCapabilities_codec : codec InlineCompletionClientCapabilities :=
  struct_codec
    (opt_field (lit "dynamicRegistration") bool_codec)
    (fun x0 => mk_InlineCompletionClientCapabilities x0)
    (fun r => InlineCompletionClientCapabilities_dynamicRegistration r).
Definition InlineCompletionClientCapabilities_valid (r : InlineCompletionClientCapabilities) : Prop :=
  opt_valid any_valid (InlineCompletionClientCapabilities_dynamicRegistration r).
#[export] Instance InlineCompletionClientCapabilities_roundtrip : Roundtrip InlineCompletionClientCapabilities_codec InlineCompletionClientCapabilities_valid.
Proof. struct_law. Qed.
#[export] Instance InlineCompletionClientCapabilities_object : WritesObject InlineCompletionClientCapabilities_codec.
Proof. intros v. by eexists. Qed.

Record DocumentRangesFormattingParams := mk_DocumentRangesFormattingParams {
  DocumentRangesFormattingParams_textDocument : lsTextDocumentIdentifier;
  DocumentRangesFormattingParams_ranges : list lsRange;
  DocumentRangesFormattingParams_options : lsFormattingOptions }.
Definition DocumentRangesFormattingParams_codec : codec DocumentRangesFormattingParams :=
  struct_codec
    (field (lit "textDocument") lsTextDocumentIdentifier_codec
     ⊗ field (lit "ranges") (vector_codec lsRange_codec)
     ⊗ field (lit "options") lsFormattingOptions_codec)
    (fun '(x0, (x1, x2)) => mk_DocumentRangesFormattingParams x0 x1 x2)
    (fun r => (DocumentRangesFormattingParams_textDocument r, (DocumentRangesFormattingParams_ranges r,
     DocumentRangesFormattingParams_options r))).
Definition DocumentRangesFormattingParams_valid (r : DocumentRangesFormattingParams) : Prop :=
  docid_valid (DocumentRangesFormattingParams_textDocument r) /\
  Forall range_valid (DocumentRangesFormattingParams_ranges r) /\
  lsFormattingOptions_valid (DocumentRangesFormattingParams_options r).
#[export] Instance DocumentRangesFormattingParams_roundtrip : Roundtrip DocumentRangesFormattingParams_codec DocumentRangesFormattingParams_valid.
Proof. struct_law. Qed.
#[export] Instance DocumentRangesFormattingParams_object : WritesObject DocumentRangesFormattingParams_codec.
Proof. intros v. by eexists. Qed.

Record DocumentRangeFormattingClientCapabilities := mk_DocumentRangeFormattingClientCapabilities {
  DocumentRangeFormattingClientCapabilities_dynamicRegistration : option bool;
  DocumentRangeFormattingClientCapabilities_rangesSupport : option bool }.
Definition DocumentRangeFormattingClientCapabilities_codec : codec DocumentRangeFormattingClientCapabilities :=
  struct_codec
    (opt_field (lit "dynamicRegistration") bool_codec
     ⊗ opt_field (lit "rangesSupport") bool_codec)
    (fun '(x0, x1) => mk_DocumentRangeFormattingClientCapabilities x0 x1)
    (fun r => (DocumentRangeFormattingClientCapabilities_dynamicRegistration r,
     DocumentRangeFormattingClientCapabilities_rangesSupport r)).
Definition DocumentRangeFormattingClientCapabilities_valid (r : DocumentRangeFormattingClientCapabilities) : Prop :=
  opt_valid any_valid (DocumentRangeFormattingClientCapabilities_dynamicRegistration r) /\
  opt_valid any_valid (DocumentRangeFormattingClientCapabilities_rangesSupport r).
#[export] Instance DocumentRangeFormattingClientCapabilities_roundtrip : Roundtrip DocumentRangeFormattingClientCapabilities_codec DocumentRangeFormattingClientCapabilities_valid.
Proof. struct_law. Qed.
#[export] Instance DocumentRangeFormattingClientCapabilities_object : WritesObject DocumentRangeFormattingClientCapabilities_codec.
Proof. intros v. by eexists. Qed.

Record DocumentRangeFormattingOptions := mk_DocumentRangeFormattingOptions {
  DocumentRangeFormattingOptions_workDoneProgress : option bool;
  DocumentRangeFormattingOptions_rangesSupport : option bool }.
Definition DocumentRangeFormattingOptions_codec : codec DocumentRangeFormattingOptions :=
  struct_codec
    (opt_field (lit "workDoneProgress") bool_codec
     ⊗ opt_field (lit "rangesSupport") bool_codec)
    (fun '(x0, x1) => mk_DocumentRangeFormattingOptions x0 x1)
    (fun r => (DocumentRangeFormattingOptions_workDoneProgress r,
     DocumentRangeFormattingOptions_rangesSupport r)).
Definition DocumentRangeFormattingOptions_valid (r : DocumentRangeFormattingOptions) : Prop :=
  opt_valid any_valid (DocumentRangeFormattingOptions_workDoneProgress r) /\
  opt_valid any_valid (DocumentRangeFormattingOptions_rangesSupport r).
#[export] Instance DocumentRangeFormattingOptions_roundtrip : Roundtrip DocumentRangeFormattingOptions_codec DocumentRangeFormattingOptions_valid.
Proof. struct_law. Qed.
#[export] Instance DocumentRangeFormattingOptions_object : WritesObject DocumentRangeFormattingOptions_codec.
Proof. intros v. by eexists. Qed.

Record SnippetTextEdit := mk_SnippetTextEdit {
  SnippetTextEdit_range : lsRange; SnippetTextEdit_snippet : bytes;
  SnippetTextEdit_annotationId : option bytes }.
Definition SnippetTextEdit_codec : codec SnippetTextEdit :=
  struct_codec
    (field (lit "range") lsRange_codec
     ⊗ field (lit "snippet") string_codec
     ⊗ opt_field (lit "annotationId") string_codec)
    (fun '(x0, (x1, x2)) => mk_SnippetTextEdit x0 x1 x2)
    (fun r => (SnippetTextEdit_range r, (SnippetTextEdit_snippet r, SnippetTextEdit_annotationId r))).
Definition SnippetTextEdit_valid (r : SnippetTextEdit) : Prop :=
  range_valid (SnippetTextEdit_range r) /\
  text_valid (SnippetTextEdit_snippet r) /\
  opt_valid text_valid (SnippetTextEdit_annotationId r).
#[export] Instance SnippetTextEdit_roundtrip : Roundtrip SnippetTextEdit_codec SnippetTextEdit_valid.
Proof. struct_law. Qed.
#[export] Instance SnippetTextEdit_object : WritesObject SnippetTextEdit_codec.
Proof. intros v. by eexists. Qed.

Record CodeLensResolveSupport := mk_CodeLensResolveSupport {
  CodeLensResolveSupport_properties : list bytes }.
Definition CodeLensResolveSupport_codec : codec CodeLensResolveSupport :=
  struct_codec
    (field (lit "properties") (vector_codec string_codec))
    (fun x0 => mk_CodeLensResolveSupport x0)
    (fun r => CodeLensResolveSupport_properties r).
Definition CodeLensResolveSupport_valid (r : CodeLensResolveSupport) : Prop :=
  Forall text_valid (CodeLensResolveSupport_properties r).
#[export] Instance CodeLensResolveSupport_roundtrip : Roundtrip CodeLensResolveSupport_codec CodeLensResolveSupport_valid.
Proof. struct_law. Qed.
#[export] Instance CodeLensResolveSupport_object : WritesObject CodeLensResolveSupport_codec.
Proof. intros v. by eexists. Qed.

Record CodeLensClientCapabilities := mk_CodeLensClientCapabilities {
  CodeLensClientCapabilities_dynamicRegistration : option bool;
  CodeLensClientCapabilities_resolveSupport : option CodeLensResolveSupport }.
Definition CodeLensClientCapabilities_codec : codec CodeLensClientCapabilities :=
  struct_codec
    (opt_field (lit "dynamicRegistration") bool_codec
     ⊗ opt_field (lit "resolveSupport") CodeLensResolveSupport_codec)
    (fun '(x0, x1) => mk_CodeLensClientCapabilities x0 x1)
    (fun r => (CodeLensClientCapabilities_dynamicRegistration r, CodeLensClientCapabilities_resolveSupport r)).
Definition CodeLensClientCapabilities_valid (r : CodeLensClientCapabilities) : Prop :=
  opt_valid any_valid (CodeLensClientCapabilities_dynamicRegistration r) /\
  opt_valid CodeLensResolveSupport_valid (CodeLensClientCapabilities_resolveSupport r).
#[export] Instance CodeLensClientCapabilities_roundtrip : Roundtrip CodeLensClientCapabilities_codec CodeLensClientCapabilities_valid.
Proof. struct_law. Qed.
#[export] Instance CodeLensClientCapabilities_object : WritesObject CodeLensClientCapabilities_codec.
Proof. intros v. by eexists. Qed.

Record CodeActionKindDocumentation := mk_CodeActionKindDocumentation {
  CodeActionKindDocumentation_kind : bytes; CodeActionKindDocumentation_command : lsCommand (list Any) }.
Definition CodeActionKindDocumentation_codec : codec CodeActionKindDocumentation :=
  struct_codec
    (field (lit "kind") string_codec
     ⊗ field (lit "command") lsCommandWithAny_codec)
    (fun '(x0, x1) => mk_CodeActionKindDocumentation x0 x1)
    (fun r => (CodeActionKindDocumentation_kind r, CodeActionKindDocumentation_command r)).
Definition CodeActionKindDocumentation_valid (r : CodeActionKindDocumentation) : Prop :=
  text_valid (CodeActionKindDocumentation_kind r) /\
  lsCommandWithAny_valid (CodeActionKindDocumentation_command r).
#[export] Instance CodeActionKindDocumentation_roundtrip : Roundtrip CodeActionKindDocumentation_codec CodeActionKindDocumentation_valid.
Proof. struct_law. Qed.
#[export] Instance CodeActionKindDocumentation_object : WritesObject CodeActionKindDocumentation_codec.
Proof. intros v. by eexists. Qed.
(** *** Texts (src/lsp/lsp.cpp) *)

Definition InsertedContent (i : lsCompletionItem) : bytes :=
  match lsCompletionItem_textEdit i with
  | Some e => newText e
  | None => match lsCompletionItem_insertText i with
            | Some (_ :: _ as t) => t
            | _ => lsCompletionItem_label i
            end
  end.

Definition DisplayText (i : lsCompletionItem) : bytes :=
  match lsCompletionItem_detail i with
  | Some d => lsCompletionItem_label i ++ lit " in " ++ d
  | None => lsCompletionItem_label i
  end.

(** A line of [ToString]: the value, or that there is none *)
Definition info_line {T} (name name_none : bytes) (show : T -> bytes) (o : option T) : bytes :=
  match o with
  | Some v => name ++ lit " : " ++ show v ++ [LF]
  | None => name_none ++ lit " : no exist." ++ [LF]
  end.
Definition bool_text (b : bool) : bytes := if b then lit "1" else lit "0".

(** The format is shown under the name of the text. *)
Definition completion_ToString (i : lsCompletionItem) : bytes :=
  lit "label : " ++ lsCompletionItem_label i ++ [LF] ++
  info_line (lit "kind") (lit "kind") completion_kind_name (lsCompletionItem_kind i) ++
  info_line (lit "detail") (lit "detail") id (lsCompletionItem_detail i) ++
  match lsCompletionItem_documentation i with
  | Some d => lit "documentation : " ++ [LF] ++
      match d with
      | (Some s, _) => s
      | (None, Some m) => markup_value m
      | (None, None) => []
      end
  | None => lit "documentation : no exist." ++ [LF]
  end ++
  info_line (lit "deprecated") (lit "deprecated") bool_text (lsCompletionItem_deprecated i) ++
  info_line (lit "preselect") (lit "preselect") bool_text (lsCompletionItem_preselect i) ++
  info_line (lit "sortText") (lit "sortText") id (lsCompletionItem_sortText i) ++
  info_line (lit "filterText") (lit "filterText") id (lsCompletionItem_filterText i) ++
  info_line (lit "insertText") (lit "insertText") id (lsCompletionItem_insertText i) ++
  info_line (lit "insertText") (lit "insertTextFormat") insert_format_name (lsCompletionItem_insertTextFormat i) ++
  info_line (lit "textEdit") (lit "textEdit") edit_ToString (lsCompletionItem_textEdit i).

Definition progress_ToString (r : ProgressReport) : bytes :=
  lit "id:" ++ ProgressReport_id r ++ [LF] ++ lit "task:" ++ ProgressReport_task r ++ [LF] ++
  lit "subTask:" ++ ProgressReport_subTask r ++ [LF] ++ lit "status:" ++ ProgressReport_status r ++ [LF] ++
  lit "totalWork:" ++ to_string (ProgressReport_totalWork r) ++ [LF] ++
  lit "workDone:" ++ to_string (ProgressReport_workDone r) ++ [LF] ++
  lit "complete:" ++ bool_text (ProgressReport_complete r) ++ [LF].

(** [std::hex] of an [int]: the digits of the unsigned number, without leading zeros *)
Fixpoint hex_digits (n : nat) (z : Z) : bytes :=
  match n with
  | 0 => []
  | S n => if (z =? 0)%Z then [] else hex_digits n (z / 16) ++ [hex_digit (z mod 16)]
  end.
Definition hex_text (z : Z) : bytes :=
  match hex_digits 8 (uwrap 32 z) with [] => lit "0" | t => t end.

Definition event_ToString (e : EventNotification) : bytes :=
  (match EventNotification_eventType e with
   | 100%Z => lit "eventType:ClasspathUpdated" ++ [LF]
   | 200%Z => lit "eventType:ProjectsImported" ++ [LF]
   | t => lit "eventType:" ++ hex_text t ++ [LF]
   end) ++ lit "data:" ++ any_data (EventNotification_data e) ++ [LF].

Lemma hex_text_samples : hex_text 255 = lit "ff" /\ hex_text (-1) = lit "ffffffff" /\ hex_text 0 = lit "0".
Proof. done. Qed.
End Data.
