(* ===== verification/Capabilities.v ===== *)
(** * The handshake

    The structs of include/LibLsp/lsp/general: what a client and a server tell
    each other about themselves in the [initialize] request.  The conventions
    are those of ProtocolData: [X_member], [X_codec], [X_valid]. *)
From S2P Require Import Prelude CppString Position Utils Uri Json Reflect RequestId Framing Message LspTypes Envelope.
From S2P Require Import ProtocolData.

Section Handshake.
Context {rapidjson : RapidJson}.
Abbreviation any := (any_codec Parse Print).
Abbreviation any_ok := (any_value_valid Parse Print).

(** A choice between a boolean and any other value *)
Definition any_not_bool (a : Any) : Prop := any_ok a /\ IsBool (write_any Parse a) = false.
#[export] Instance any_not_bool_roundtrip : Roundtrip any any_not_bool.
Proof. intros a [Ha _]. by apply any_value_roundtrip. Qed.
#[export] Instance any_not_bool_not_null : NotNull any any_not_bool.
Proof. intros a [Ha _]. by apply any_value_not_null. Qed.
#[export] Instance any_not_bool_tagged : Tagged IsBool any any_not_bool false.
Proof. by intros a [_ Ha]. Qed.

(** Every setting of [trace] is written, and read back. *)
#[export] Instance lsTrace_valid_roundtrip : Roundtrip lsTrace_codec any_valid.
Proof. by intros [] _. Qed.

(** *** Capabilities of the client (general/lsWorkspaceClientCapabilites.h, lsTextDocumentClientCapabilities.h, lsClientCapabilities.h) *)

Record lschangeAnnotationSupport := mk_lschangeAnnotationSupport {
  lschangeAnnotationSupport_groupsOnLabel : option bool }.
Definition lschangeAnnotationSupport_codec : codec lschangeAnnotationSupport :=
  struct_codec
    (opt_field (lit "groupsOnLabel") bool_codec)
    (fun x0 => mk_lschangeAnnotationSupport x0)
    (fun r => lschangeAnnotationSupport_groupsOnLabel r).
Definition lschangeAnnotationSupport_valid (r : lschangeAnnotationSupport) : Prop :=
  opt_valid any_valid (lschangeAnnotationSupport_groupsOnLabel r).
#[export] Instance lschangeAnnotationSupport_roundtrip : Roundtrip lschangeAnnotationSupport_codec lschangeAnnotationSupport_valid.
Proof. struct_law. Qed.
#[export] Instance lschangeAnnotationSupport_object : WritesObject lschangeAnnotationSupport_codec.
Proof. intros v. by eexists. Qed.

Record WorkspaceEditCapabilities := mk_WorkspaceEditCapabilities {
  WorkspaceEditCapabilities_documentChanges : option bool;
  WorkspaceEditCapabilities_resourceChanges : option bool;
  WorkspaceEditCapabilities_resourceOperations : option (list bytes);
  WorkspaceEditCapabilities_failureHandling : option bytes;
  WorkspaceEditCapabilities_normalizesLineEndings : option bool;
  WorkspaceEditCapabilities_changeAnnotationSupport : option lschangeAnnotationSupport;
  WorkspaceEditCapabilities_metadataSupport : option bool }.
Definition WorkspaceEditCapabilities_codec : codec WorkspaceEditCapabilities :=
  struct_codec
    (opt_field (lit "documentChanges") bool_codec
     ⊗ opt_field (lit "resourceChanges") bool_codec
     ⊗ opt_field (lit "resourceOperations") (vector_codec string_codec)
     ⊗ opt_field (lit "failureHandling") string_codec
     ⊗ opt_field (lit "normalizesLineEndings") bool_codec
     ⊗ opt_field (lit "changeAnnotationSupport") lschangeAnnotationSupport_codec
     ⊗ opt_field (lit "metadataSupport") bool_codec)
    (fun '(x0, (x1, (x2, (x3, (x4, (x5, x6)))))) => mk_WorkspaceEditCapabilities x0 x1 x2 x3 x4 x5 x6)
    (fun r => (WorkspaceEditCapabilities_documentChanges r, (WorkspaceEditCapabilities_resourceChanges r,
     (WorkspaceEditCapabilities_resourceOperations r, (WorkspaceEditCapabilities_failureHandling r,
     (WorkspaceEditCapabilities_normalizesLineEndings r,
     (WorkspaceEditCapabilities_changeAnnotationSupport r, WorkspaceEditCapabilities_metadataSupport r))))))).
Definition WorkspaceEditCapabilities_valid (r : WorkspaceEditCapabilities) : Prop :=
  opt_valid any_valid (WorkspaceEditCapabilities_documentChanges r) /\
  opt_valid any_valid (WorkspaceEditCapabilities_resourceChanges r) /\
  opt_valid (Forall text_valid) (WorkspaceEditCapabilities_resourceOperations r) /\
  opt_valid text_valid (WorkspaceEditCapabilities_failureHandling r) /\
  opt_valid any_valid (WorkspaceEditCapabilities_normalizesLineEndings r) /\
  opt_valid lschangeAnnotationSupport_valid (WorkspaceEditCapabilities_changeAnnotationSupport r) /\
  opt_valid any_valid (WorkspaceEditCapabilities_metadataSupport r).
#[export] Instance WorkspaceEditCapabilities_roundtrip : Roundtrip WorkspaceEditCapabilities_codec WorkspaceEditCapabilities_valid.
Proof. struct_law. Qed.
#[export] Instance WorkspaceEditCapabilities_object : WritesObject WorkspaceEditCapabilities_codec.
Proof. intros v. by eexists. Qed.

Record DynamicRegistrationCapabilities := mk_DynamicRegistrationCapabilities {
  DynamicRegistrationCapabilities_dynamicRegistration : option bool }.
Definition DynamicRegistrationCapabilities_codec : codec DynamicRegistrationCapabilities :=
  struct_codec
    (opt_field (lit "dynamicRegistration") bool_codec)
    (fun x0 => mk_DynamicRegistrationCapabilities x0)
    (fun r => DynamicRegistrationCapabilities_dynamicRegistration r).
Definition DynamicRegistrationCapabilities_valid (r : DynamicRegistrationCapabilities) : Prop :=
  opt_valid any_valid (DynamicRegistrationCapabilities_dynamicRegistration r).
#[export] Instance DynamicRegistrationCapabilities_roundtrip : Roundtrip DynamicRegistrationCapabilities_codec DynamicRegistrationCapabilities_valid.
Proof. struct_law. Qed.
#[export] Instance DynamicRegistrationCapabilities_object : WritesObject DynamicRegistrationCapabilities_codec.
Proof. intros v. by eexists. Qed.

Record InlayHintLazyProperties := mk_InlayHintLazyProperties {
  InlayHintLazyProperties_properties : option (list bytes) }.
Definition InlayHintLazyProperties_codec : codec InlayHintLazyProperties :=
  struct_codec
    (opt_field (lit "properties") (vector_codec string_codec))
    (fun x0 => mk_InlayHintLazyProperties x0)
    (fun r => InlayHintLazyProperties_properties r).
Definition InlayHintLazyProperties_valid (r : InlayHintLazyProperties) : Prop :=
  opt_valid (Forall text_valid) (InlayHintLazyProperties_properties r).
#[export] Instance InlayHintLazyProperties_roundtrip : Roundtrip InlayHintLazyProperties_codec InlayHintLazyProperties_valid.
Proof. struct_law. Qed.
#[export] Instance InlayHintLazyProperties_object : WritesObject InlayHintLazyProperties_codec.
Proof. intros v. by eexists. Qed.

Record InlayHintClientCapabilities := mk_InlayHintClientCapabilities {
  InlayHintClientCapabilities_dynamicRegistration : option bool;
  InlayHintClientCapabilities_resolveSupport : option InlayHintLazyProperties }.
Definition InlayHintClientCapabilities_codec : codec InlayHintClientCapabilities :=
  struct_codec
    (opt_field (lit "dynamicRegistration") bool_codec
     ⊗ opt_field (lit "resolveSupport") InlayHintLazyProperties_codec)
    (fun '(x0, x1) => mk_InlayHintClientCapabilities x0 x1)
    (fun r => (InlayHintClientCapabilities_dynamicRegistration r,
     InlayHintClientCapabilities_resolveSupport r)).
Definition InlayHintClientCapabilities_valid (r : InlayHintClientCapabilities) : Prop :=
  opt_valid any_valid (InlayHintClientCapabilities_dynamicRegistration r) /\
  opt_valid InlayHintLazyProperties_valid (InlayHintClientCapabilities_resolveSupport r).
#[export] Instance InlayHintClientCapabilities_roundtrip : Roundtrip InlayHintClientCapabilities_codec InlayHintClientCapabilities_valid.
Proof. struct_law. Qed.
#[export] Instance InlayHintClientCapabilities_object : WritesObject InlayHintClientCapabilities_codec.
Proof. intros v. by eexists. Qed.

Record SymbolKindCapabilities := mk_SymbolKindCapabilities {
  SymbolKindCapabilities_valueSet : option (list Z) }.
Definition SymbolKindCapabilities_codec : codec SymbolKindCapabilities :=
  struct_codec
    (opt_field (lit "valueSet") (vector_codec lsSymbolKind_codec))
    (fun x0 => mk_SymbolKindCapabilities x0)
    (fun r => SymbolKindCapabilities_valueSet r).
Definition SymbolKindCapabilities_valid (r : SymbolKindCapabilities) : Prop :=
  opt_valid (Forall uint8_valid) (SymbolKindCapabilities_valueSet r).
#[export] Instance SymbolKindCapabilities_roundtrip : Roundtrip SymbolKindCapabilities_codec SymbolKindCapabilities_valid.
Proof. struct_law. Qed.
#[export] Instance SymbolKindCapabilities_object : WritesObject SymbolKindCapabilities_codec.
Proof. intros v. by eexists. Qed.

Record SymbolCapabilities := mk_SymbolCapabilities {
  SymbolCapabilities_symbolKind : option SymbolKindCapabilities;
  SymbolCapabilities_dynamicRegistration : option bool }.
Definition SymbolCapabilities_codec : codec SymbolCapabilities :=
  struct_codec
    (opt_field (lit "symbolKind") SymbolKindCapabilities_codec
     ⊗ opt_field (lit "dynamicRegistration") bool_codec)
    (fun '(x0, x1) => mk_SymbolCapabilities x0 x1)
    (fun r => (SymbolCapabilities_symbolKind r, SymbolCapabilities_dynamicRegistration r)).
Definition SymbolCapabilities_valid (r : SymbolCapabilities) : Prop :=
  opt_valid SymbolKindCapabilities_valid (SymbolCapabilities_symbolKind r) /\
  opt_valid any_valid (SymbolCapabilities_dynamicRegistration r).
#[export] Instance SymbolCapabilities_roundtrip : Roundtrip SymbolCapabilities_codec SymbolCapabilities_valid.
Proof. struct_law. Qed.
#[export] Instance SymbolCapabilities_object : WritesObject SymbolCapabilities_codec.
Proof. intros v. by eexists. Qed.

Record lsFileOperations := mk_lsFileOperations {
  lsFileOperations_dynamicRegistration : option bool; lsFileOperations_didCreate : option bool;
  lsFileOperations_willCreate : option bool; lsFileOperations_didRename : option bool;
  lsFileOperations_willRename : option bool; lsFileOperations_didDelete : option bool;
  lsFileOperations_willDelete : option bool }.
Definition lsFileOperations_codec : codec lsFileOperations :=
  struct_codec
    (opt_field (lit "dynamicRegistration") bool_codec
     ⊗ opt_field (lit "didCreate") bool_codec
     ⊗ opt_field (lit "willCreate") bool_codec
     ⊗ opt_field (lit "didRename") bool_codec
     ⊗ opt_field (lit "willRename") bool_codec
     ⊗ opt_field (lit "didDelete") bool_codec
     ⊗ opt_field (lit "willDelete") bool_codec)
    (fun '(x0, (x1, (x2, (x3, (x4, (x5, x6)))))) => mk_lsFileOperations x0 x1 x2 x3 x4 x5 x6)
    (fun r => (lsFileOperations_dynamicRegistration r, (lsFileOperations_didCreate r,
     (lsFileOperations_willCreate r, (lsFileOperations_didRename r, (lsFileOperations_willRename r,
     (lsFileOperations_didDelete r, lsFileOperations_willDelete r))))))).
Definition lsFileOperations_valid (r : lsFileOperations) : Prop :=
  opt_valid any_valid (lsFileOperations_dynamicRegistration r) /\
  opt_valid any_valid (lsFileOperations_didCreate r) /\
  opt_valid any_valid (lsFileOperations_willCreate r) /\
  opt_valid any_valid (lsFileOperations_didRename r) /\
  opt_valid any_valid (lsFileOperations_willRename r) /\
  opt_valid any_valid (lsFileOperations_didDelete r) /\
  opt_valid any_valid (lsFileOperations_willDelete r).
#[export] Instance lsFileOperations_roundtrip : Roundtrip lsFileOperations_codec lsFileOperations_valid.
Proof. struct_law. Qed.
#[export] Instance lsFileOperations_object : WritesObject lsFileOperations_codec.
Proof. intros v. by eexists. Qed.

Record lsWorkspaceClientCapabilites := mk_lsWorkspaceClientCapabilites {
  lsWorkspaceClientCapabilites_applyEdit : option bool;
  lsWorkspaceClientCapabilites_workspaceEdit : option WorkspaceEditCapabilities;
  lsWorkspaceClientCapabilites_didChangeConfiguration : option DynamicRegistrationCapabilities;
  lsWorkspaceClientCapabilites_didChangeWatchedFiles : option DynamicRegistrationCapabilities;
  lsWorkspaceClientCapabilites_symbol : option SymbolCapabilities;
  lsWorkspaceClientCapabilites_executeCommand : option DynamicRegistrationCapabilities;
  lsWorkspaceClientCapabilites_workspaceFolders : option bool;
  lsWorkspaceClientCapabilites_configuration : option bool;
  lsWorkspaceClientCapabilites_semanticTokens : option DynamicRegistrationCapabilities;
  lsWorkspaceClientCapabilites_codeLens : option DynamicRegistrationCapabilities;
  lsWorkspaceClientCapabilites_fileOperations : option lsFileOperations;
  lsWorkspaceClientCapabilites_textDocumentContent : option TextDocumentContentClientCapabilities;
  lsWorkspaceClientCapabilites_diagnostics : option WorkspaceDiagnosticClientCapabilities }.
Definition lsWorkspaceClientCapabilites_codec : codec lsWorkspaceClientCapabilites :=
  struct_codec
    (opt_field (lit "applyEdit") bool_codec
     ⊗ opt_field (lit "workspaceEdit") WorkspaceEditCapabilities_codec
     ⊗ opt_field (lit "didChangeConfiguration") DynamicRegistrationCapabilities_codec
     ⊗ opt_field (lit "didChangeWatchedFiles") DynamicRegistrationCapabilities_codec
     ⊗ opt_field (lit "symbol") SymbolCapabilities_codec
     ⊗ opt_field (lit "executeCommand") DynamicRegistrationCapabilities_codec
     ⊗ opt_field (lit "workspaceFolders") bool_codec
     ⊗ opt_field (lit "configuration") bool_codec
     ⊗ opt_field (lit "semanticTokens") DynamicRegistrationCapabilities_codec
     ⊗ opt_field (lit "codeLens") DynamicRegistrationCapabilities_codec
     ⊗ opt_field (lit "fileOperations") lsFileOperations_codec
     ⊗ opt_field (lit "textDocumentContent") TextDocumentContentClientCapabilities_codec
     ⊗ opt_field (lit "diagnostics") WorkspaceDiagnosticClientCapabilities_codec)
    (fun '(x0, (x1, (x2, (x3, (x4, (x5, (x6, (x7, (x8, (x9, (x10, (x11, x12)))))))))))) =>
     mk_lsWorkspaceClientCapabilites x0 x1 x2 x3 x4 x5 x6 x7 x8 x9 x10 x11 x12)
    (fun r => (lsWorkspaceClientCapabilites_applyEdit r, (lsWorkspaceClientCapabilites_workspaceEdit r,
     (lsWorkspaceClientCapabilites_didChangeConfiguration r,
     (lsWorkspaceClientCapabilites_didChangeWatchedFiles r, (lsWorkspaceClientCapabilites_symbol r,
     (lsWorkspaceClientCapabilites_executeCommand r, (lsWorkspaceClientCapabilites_workspaceFolders r,
     (lsWorkspaceClientCapabilites_configuration r, (lsWorkspaceClientCapabilites_semanticTokens r,
     (lsWorkspaceClientCapabilites_codeLens r, (lsWorkspaceClientCapabilites_fileOperations r,
     (lsWorkspaceClientCapabilites_textDocumentContent r,
     lsWorkspaceClientCapabilites_diagnostics r))))))))))))).
Definition lsWorkspaceClientCapabilites_valid (r : lsWorkspaceClientCapabilites) : Prop :=
  opt_valid any_valid (lsWorkspaceClientCapabilites_applyEdit r) /\
  opt_valid WorkspaceEditCapabilities_valid (lsWorkspaceClientCapabilites_workspaceEdit r) /\
  opt_valid DynamicRegistrationCapabilities_valid (lsWorkspaceClientCapabilites_didChangeConfiguration r) /\
  opt_valid DynamicRegistrationCapabilities_valid (lsWorkspaceClientCapabilites_didChangeWatchedFiles r) /\
  opt_valid SymbolCapabilities_valid (lsWorkspaceClientCapabilites_symbol r) /\
  opt_valid DynamicRegistrationCapabilities_valid (lsWorkspaceClientCapabilites_executeCommand r) /\
  opt_valid any_valid (lsWorkspaceClientCapabilites_workspaceFolders r) /\
  opt_valid any_valid (lsWorkspaceClientCapabilites_configuration r) /\
  opt_valid DynamicRegistrationCapabilities_valid (lsWorkspaceClientCapabilites_semanticTokens r) /\
  opt_valid DynamicRegistrationCapabilities_valid (lsWorkspaceClientCapabilites_codeLens r) /\
  opt_valid lsFileOperations_valid (lsWorkspaceClientCapabilites_fileOperations r) /\
  opt_valid TextDocumentContentClientCapabilities_valid (lsWorkspaceClientCapabilites_textDocumentContent r) /\
  opt_valid WorkspaceDiagnosticClientCapabilities_valid (lsWorkspaceClientCapabilites_diagnostics r).
#[export] Instance lsWorkspaceClientCapabilites_roundtrip : Roundtrip lsWorkspaceClientCapabilites_codec lsWorkspaceClientCapabilites_valid.
Proof. struct_law. Qed.
#[export] Instance lsWorkspaceClientCapabilites_object : WritesObject lsWorkspaceClientCapabilites_codec.
Proof. intros v. by eexists. Qed.

Record WorkDoneProgressOptions := mk_WorkDoneProgressOptions {
  WorkDoneProgressOptions_workDoneProgress : option bool }.
Definition WorkDoneProgressOptions_codec : codec WorkDoneProgressOptions :=
  struct_codec
    (opt_field (lit "workDoneProgress") bool_codec)
    (fun x0 => mk_WorkDoneProgressOptions x0)
    (fun r => WorkDoneProgressOptions_workDoneProgress r).
Definition WorkDoneProgressOptions_valid (r : WorkDoneProgressOptions) : Prop :=
  opt_valid any_valid (WorkDoneProgressOptions_workDoneProgress r).
#[export] Instance WorkDoneProgressOptions_roundtrip : Roundtrip WorkDoneProgressOptions_codec WorkDoneProgressOptions_valid.
Proof. struct_law. Qed.
#[export] Instance WorkDoneProgressOptions_object : WritesObject WorkDoneProgressOptions_codec.
Proof. intros v. by eexists. Qed.

Record lsCompletionOptions := mk_lsCompletionOptions {
  lsCompletionOptions_workDoneProgress : option bool; lsCompletionOptions_resolveProvider : option bool;
  lsCompletionOptions_triggerCharacters : option (list bytes);
  lsCompletionOptions_allCommitCharacters : option (list bytes) }.
Definition lsCompletionOptions_codec : codec lsCompletionOptions :=
  struct_codec
    (opt_field (lit "workDoneProgress") bool_codec
     ⊗ opt_field_init (lit "resolveProvider") bool_codec (Some false)
     ⊗ opt_field (lit "triggerCharacters") (vector_codec string_codec)
     ⊗ opt_field (lit "allCommitCharacters") (vector_codec string_codec))
    (fun '(x0, (x1, (x2, x3))) => mk_lsCompletionOptions x0 x1 x2 x3)
    (fun r => (lsCompletionOptions_workDoneProgress r, (lsCompletionOptions_resolveProvider r,
     (lsCompletionOptions_triggerCharacters r, lsCompletionOptions_allCommitCharacters r)))).
Definition lsCompletionOptions_valid (r : lsCompletionOptions) : Prop :=
  opt_valid any_valid (lsCompletionOptions_workDoneProgress r) /\
  opt_init_valid any_valid (Some false) (lsCompletionOptions_resolveProvider r) /\
  opt_valid (Forall text_valid) (lsCompletionOptions_triggerCharacters r) /\
  opt_valid (Forall text_valid) (lsCompletionOptions_allCommitCharacters r).
#[export] Instance lsCompletionOptions_roundtrip : Roundtrip lsCompletionOptions_codec lsCompletionOptions_valid.
Proof. struct_law. Qed.
#[export] Instance lsCompletionOptions_object : WritesObject lsCompletionOptions_codec.
Proof. intros v. by eexists. Qed.

Record lsSaveOptions := mk_lsSaveOptions {
  lsSaveOptions_includeText : bool }.
Definition lsSaveOptions_codec : codec lsSaveOptions :=
  struct_codec
    (field_init (lit "includeText") bool_codec false)
    (fun x0 => mk_lsSaveOptions x0)
    (fun r => lsSaveOptions_includeText r).
Definition lsSaveOptions_valid (r : lsSaveOptions) : Prop :=
  any_valid (lsSaveOptions_includeText r).
#[export] Instance lsSaveOptions_roundtrip : Roundtrip lsSaveOptions_codec lsSaveOptions_valid.
Proof. struct_law. Qed.
#[export] Instance lsSaveOptions_object : WritesObject lsSaveOptions_codec.
Proof. intros v. by eexists. Qed.

Record lsSignatureHelpOptions := mk_lsSignatureHelpOptions {
  lsSignatureHelpOptions_workDoneProgress : option bool; lsSignatureHelpOptions_triggerCharacters : list bytes }.
Definition lsSignatureHelpOptions_codec : codec lsSignatureHelpOptions :=
  struct_codec
    (opt_field (lit "workDoneProgress") bool_codec
     ⊗ field (lit "triggerCharacters") (vector_codec string_codec))
    (fun '(x0, x1) => mk_lsSignatureHelpOptions x0 x1)
    (fun r => (lsSignatureHelpOptions_workDoneProgress r, lsSignatureHelpOptions_triggerCharacters r)).
Definition lsSignatureHelpOptions_valid (r : lsSignatureHelpOptions) : Prop :=
  opt_valid any_valid (lsSignatureHelpOptions_workDoneProgress r) /\
  Forall text_valid (lsSignatureHelpOptions_triggerCharacters r).
#[export] Instance lsSignatureHelpOptions_roundtrip : Roundtrip lsSignatureHelpOptions_codec lsSignatureHelpOptions_valid.
Proof. struct_law. Qed.
#[export] Instance lsSignatureHelpOptions_object : WritesObject lsSignatureHelpOptions_codec.
Proof. intros v. by eexists. Qed.

Inductive lsTextDocumentSyncKind :=
| lsTextDocumentSyncKind_None | lsTextDocumentSyncKind_Full | lsTextDocumentSyncKind_Incremental.
Definition lsTextDocumentSyncKind_value (e : lsTextDocumentSyncKind) : Z :=
  match e with
  | lsTextDocumentSyncKind_None => 0 | lsTextDocumentSyncKind_Full => 1
  | lsTextDocumentSyncKind_Incremental => 2
  end%Z.
Definition lsTextDocumentSyncKind_codec : codec Z := enum_codec int_codec 0.
#[export] Instance lsTextDocumentSyncKind_roundtrip : Roundtrip lsTextDocumentSyncKind_codec int_valid.
Proof. by apply enum_roundtrip; [apply _|]. Qed.
#[export] Instance lsTextDocumentSyncKind_not_null : NotNull lsTextDocumentSyncKind_codec int_valid.
Proof. apply enum_not_null, _. Qed.
#[export] Instance lsTextDocumentSyncKind_fresh : FreshRead lsTextDocumentSyncKind_codec.
Proof. apply enum_fresh. Qed.

Record lsTextDocumentSyncOptions := mk_lsTextDocumentSyncOptions {
  lsTextDocumentSyncOptions_openClose : option bool; lsTextDocumentSyncOptions_change : option Z;
  lsTextDocumentSyncOptions_willSave : option bool; lsTextDocumentSyncOptions_willSaveWaitUntil : option bool;
  lsTextDocumentSyncOptions_save : option lsSaveOptions }.
Definition lsTextDocumentSyncOptions_codec : codec lsTextDocumentSyncOptions :=
  struct_codec
    (opt_field (lit "openClose") bool_codec
     ⊗ opt_field (lit "change") lsTextDocumentSyncKind_codec
     ⊗ opt_field (lit "willSave") bool_codec
     ⊗ opt_field (lit "willSaveWaitUntil") bool_codec
     ⊗ opt_field (lit "save") lsSaveOptions_codec)
    (fun '(x0, (x1, (x2, (x3, x4)))) => mk_lsTextDocumentSyncOptions x0 x1 x2 x3 x4)
    (fun r => (lsTextDocumentSyncOptions_openClose r, (lsTextDocumentSyncOptions_change r,
     (lsTextDocumentSyncOptions_willSave r, (lsTextDocumentSyncOptions_willSaveWaitUntil r,
     lsTextDocumentSyncOptions_save r))))).
Definition lsTextDocumentSyncOptions_valid (r : lsTextDocumentSyncOptions) : Prop :=
  opt_valid any_valid (lsTextDocumentSyncOptions_openClose r) /\
  opt_valid int_valid (lsTextDocumentSyncOptions_change r) /\
  opt_valid any_valid (lsTextDocumentSyncOptions_willSave r) /\
  opt_valid any_valid (lsTextDocumentSyncOptions_willSaveWaitUntil r) /\
  opt_valid lsSaveOptions_valid (lsTextDocumentSyncOptions_save r).
#[export] Instance lsTextDocumentSyncOptions_roundtrip : Roundtrip lsTextDocumentSyncOptions_codec lsTextDocumentSyncOptions_valid.
Proof. struct_law. Qed.
#[export] Instance lsTextDocumentSyncOptions_object : WritesObject lsTextDocumentSyncOptions_codec.
Proof. intros v. by eexists. Qed.

Record SynchronizationCapabilities := mk_SynchronizationCapabilities {
  SynchronizationCapabilities_dynamicRegistration : option bool;
  SynchronizationCapabilities_willSave : option bool;
  SynchronizationCapabilities_willSaveWaitUntil : option bool;
  SynchronizationCapabilities_didSave : option bool }.
Definition SynchronizationCapabilities_codec : codec SynchronizationCapabilities :=
  struct_codec
    (opt_field (lit "dynamicRegistration") bool_codec
     ⊗ opt_field (lit "willSave") bool_codec
     ⊗ opt_field (lit "willSaveWaitUntil") bool_codec
     ⊗ opt_field (lit "didSave") bool_codec)
    (fun '(x0, (x1, (x2, x3))) => mk_SynchronizationCapabilities x0 x1 x2 x3)
    (fun r => (SynchronizationCapabilities_dynamicRegistration r, (SynchronizationCapabilities_willSave r,
     (SynchronizationCapabilities_willSaveWaitUntil r, SynchronizationCapabilities_didSave r)))).
Definition SynchronizationCapabilities_valid (r : SynchronizationCapabilities) : Prop :=
  opt_valid any_valid (SynchronizationCapabilities_dynamicRegistration r) /\
  opt_valid any_valid (SynchronizationCapabilities_willSave r) /\
  opt_valid any_valid (SynchronizationCapabilities_willSaveWaitUntil r) /\
  opt_valid any_valid (SynchronizationCapabilities_didSave r).
#[export] Instance SynchronizationCapabilities_roundtrip : Roundtrip SynchronizationCapabilities_codec SynchronizationCapabilities_valid.
Proof. struct_law. Qed.
#[export] Instance SynchronizationCapabilities_object : WritesObject SynchronizationCapabilities_codec.
Proof. intros v. by eexists. Qed.

Record CompletionItemKindCapabilities := mk_CompletionItemKindCapabilities {
  CompletionItemKindCapabilities_valueSet : option (list Z) }.
Definition CompletionItemKindCapabilities_codec : codec CompletionItemKindCapabilities :=
  struct_codec
    (opt_field (lit "valueSet") (vector_codec lsCompletionItemKind_codec))
    (fun x0 => mk_CompletionItemKindCapabilities x0)
    (fun r => CompletionItemKindCapabilities_valueSet r).
Definition CompletionItemKindCapabilities_valid (r : CompletionItemKindCapabilities) : Prop :=
  opt_valid (Forall int_valid) (CompletionItemKindCapabilities_valueSet r).
#[export] Instance CompletionItemKindCapabilities_roundtrip : Roundtrip CompletionItemKindCapabilities_codec CompletionItemKindCapabilities_valid.
Proof. struct_law. Qed.
#[export] Instance CompletionItemKindCapabilities_object : WritesObject CompletionItemKindCapabilities_codec.
Proof. intros v. by eexists. Qed.

Record CompletionItemCapabilities := mk_CompletionItemCapabilities {
  CompletionItemCapabilities_snippetSupport : option bool;
  CompletionItemCapabilities_commitCharactersSupport : option bool;
  CompletionItemCapabilities_documentationFormat : option (list bytes);
  CompletionItemCapabilities_deprecatedSupport : option bool;
  CompletionItemCapabilities_preselectSupport : option bool }.
Definition CompletionItemCapabilities_codec : codec CompletionItemCapabilities :=
  struct_codec
    (opt_field (lit "snippetSupport") bool_codec
     ⊗ opt_field (lit "commitCharactersSupport") bool_codec
     ⊗ opt_field (lit "documentationFormat") (vector_codec string_codec)
     ⊗ opt_field (lit "deprecatedSupport") bool_codec
     ⊗ opt_field (lit "preselectSupport") bool_codec)
    (fun '(x0, (x1, (x2, (x3, x4)))) => mk_CompletionItemCapabilities x0 x1 x2 x3 x4)
    (fun r => (CompletionItemCapabilities_snippetSupport r,
     (CompletionItemCapabilities_commitCharactersSupport r,
     (CompletionItemCapabilities_documentationFormat r, (CompletionItemCapabilities_deprecatedSupport r,
     CompletionItemCapabilities_preselectSupport r))))).
Definition CompletionItemCapabilities_valid (r : CompletionItemCapabilities) : Prop :=
  opt_valid any_valid (CompletionItemCapabilities_snippetSupport r) /\
  opt_valid any_valid (CompletionItemCapabilities_commitCharactersSupport r) /\
  opt_valid (Forall text_valid) (CompletionItemCapabilities_documentationFormat r) /\
  opt_valid any_valid (CompletionItemCapabilities_deprecatedSupport r) /\
  opt_valid any_valid (CompletionItemCapabilities_preselectSupport r).
#[export] Instance CompletionItemCapabilities_roundtrip : Roundtrip CompletionItemCapabilities_codec CompletionItemCapabilities_valid.
Proof. struct_law. Qed.
#[export] Instance CompletionItemCapabilities_object : WritesObject CompletionItemCapabilities_codec.
Proof. intros v. by eexists. Qed.

Record CompletionCapabilities := mk_CompletionCapabilities {
  CompletionCapabilities_dynamicRegistration : option bool;
  CompletionCapabilities_completionItem : option CompletionItemCapabilities;
  CompletionCapabilities_completionItemKind : option CompletionItemKindCapabilities;
  CompletionCapabilities_contextSupport : option bool }.
Definition CompletionCapabilities_codec : codec CompletionCapabilities :=
  struct_codec
    (opt_field (lit "dynamicRegistration") bool_codec
     ⊗ opt_field (lit "completionItem") CompletionItemCapabilities_codec
     ⊗ opt_field (lit "completionItemKind") CompletionItemKindCapabilities_codec)
    (fun '(x0, (x1, x2)) => mk_CompletionCapabilities x0 x1 x2 None)
    (fun r => (CompletionCapabilities_dynamicRegistration r, (CompletionCapabilities_completionItem r,
     CompletionCapabilities_completionItemKind r))).
Definition CompletionCapabilities_valid (r : CompletionCapabilities) : Prop :=
  (CompletionCapabilities_contextSupport r = None) /\
  (opt_valid any_valid (CompletionCapabilities_dynamicRegistration r) /\
  opt_valid CompletionItemCapabilities_valid (CompletionCapabilities_completionItem r) /\
  opt_valid CompletionItemKindCapabilities_valid (CompletionCapabilities_completionItemKind r)).
#[export] Instance CompletionCapabilities_roundtrip : Roundtrip CompletionCapabilities_codec CompletionCapabilities_valid.
Proof. struct_law_default. Qed.
#[export] Instance CompletionCapabilities_object : WritesObject CompletionCapabilities_codec.
Proof. intros v. by eexists. Qed.

Record HoverCapabilities := mk_HoverCapabilities {
  HoverCapabilities_dynamicRegistration : option bool; HoverCapabilities_contentFormat : option (list bytes) }.
Definition HoverCapabilities_codec : codec HoverCapabilities :=
  struct_codec
    (opt_field (lit "dynamicRegistration") bool_codec
     ⊗ opt_field (lit "contentFormat") (vector_codec string_codec))
    (fun '(x0, x1) => mk_HoverCapabilities x0 x1)
    (fun r => (HoverCapabilities_dynamicRegistration r, HoverCapabilities_contentFormat r)).
Definition HoverCapabilities_valid (r : HoverCapabilities) : Prop :=
  opt_valid any_valid (HoverCapabilities_dynamicRegistration r) /\
  opt_valid (Forall text_valid) (HoverCapabilities_contentFormat r).
#[export] Instance HoverCapabilities_roundtrip : Roundtrip HoverCapabilities_codec HoverCapabilities_valid.
Proof. struct_law. Qed.
#[export] Instance HoverCapabilities_object : WritesObject HoverCapabilities_codec.
Proof. intros v. by eexists. Qed.

Record ParameterInformationCapabilities := mk_ParameterInformationCapabilities {
  ParameterInformationCapabilities_labelOffsetSupport : option bool }.
Definition ParameterInformationCapabilities_codec : codec ParameterInformationCapabilities :=
  struct_codec
    (opt_field (lit "labelOffsetSupport") bool_codec)
    (fun x0 => mk_ParameterInformationCapabilities x0)
    (fun r => ParameterInformationCapabilities_labelOffsetSupport r).
Definition ParameterInformationCapabilities_valid (r : ParameterInformationCapabilities) : Prop :=
  opt_valid any_valid (ParameterInformationCapabilities_labelOffsetSupport r).
#[export] Instance ParameterInformationCapabilities_roundtrip : Roundtrip ParameterInformationCapabilities_codec ParameterInformationCapabilities_valid.
Proof. struct_law. Qed.
#[export] Instance ParameterInformationCapabilities_object : WritesObject ParameterInformationCapabilities_codec.
Proof. intros v. by eexists. Qed.

Record SignatureInformationCapabilities := mk_SignatureInformationCapabilities {
  SignatureInformationCapabilities_documentationFormat : list bytes;
  SignatureInformationCapabilities_parameterInformation : ParameterInformationCapabilities }.
Definition SignatureInformationCapabilities_codec : codec SignatureInformationCapabilities :=
  struct_codec
    (field (lit "documentationFormat") (vector_codec string_codec)
     ⊗ field (lit "parameterInformation") ParameterInformationCapabilities_codec)
    (fun '(x0, x1) => mk_SignatureInformationCapabilities x0 x1)
    (fun r => (SignatureInformationCapabilities_documentationFormat r,
     SignatureInformationCapabilities_parameterInformation r)).
Definition SignatureInformationCapabilities_valid (r : SignatureInformationCapabilities) : Prop :=
  Forall text_valid (SignatureInformationCapabilities_documentationFormat r) /\
  ParameterInformationCapabilities_valid (SignatureInformationCapabilities_parameterInformation r).
#[export] Instance SignatureInformationCapabilities_roundtrip : Roundtrip SignatureInformationCapabilities_codec SignatureInformationCapabilities_valid.
Proof. struct_law. Qed.
#[export] Instance SignatureInformationCapabilities_object : WritesObject SignatureInformationCapabilities_codec.
Proof. intros v. by eexists. Qed.

Record SignatureHelpCapabilities := mk_SignatureHelpCapabilities {
  SignatureHelpCapabilities_dynamicRegistration : option bool;
  SignatureHelpCapabilities_signatureInformation : option SignatureInformationCapabilities }.
Definition SignatureHelpCapabilities_codec : codec SignatureHelpCapabilities :=
  struct_codec
    (opt_field (lit "dynamicRegistration") bool_codec
     ⊗ opt_field (lit "signatureInformation") SignatureInformationCapabilities_codec)
    (fun '(x0, x1) => mk_SignatureHelpCapabilities x0 x1)
    (fun r => (SignatureHelpCapabilities_dynamicRegistration r,
     SignatureHelpCapabilities_signatureInformation r)).
Definition SignatureHelpCapabilities_valid (r : SignatureHelpCapabilities) : Prop :=
  opt_valid any_valid (SignatureHelpCapabilities_dynamicRegistration r) /\
  opt_valid SignatureInformationCapabilities_valid (SignatureHelpCapabilities_signatureInformation r).
#[export] Instance SignatureHelpCapabilities_roundtrip : Roundtrip SignatureHelpCapabilities_codec SignatureHelpCapabilities_valid.
Proof. struct_law. Qed.
#[export] Instance SignatureHelpCapabilities_object : WritesObject SignatureHelpCapabilities_codec.
Proof. intros v. by eexists. Qed.

Record DocumentSymbolCapabilities := mk_DocumentSymbolCapabilities {
  DocumentSymbolCapabilities_dynamicRegistration : option bool;
  DocumentSymbolCapabilities_symbolKind : option SymbolKindCapabilities;
  DocumentSymbolCapabilities_hierarchicalDocumentSymbolSupport : option bool }.
Definition DocumentSymbolCapabilities_codec : codec DocumentSymbolCapabilities :=
  struct_codec
    (opt_field (lit "dynamicRegistration") bool_codec
     ⊗ opt_field (lit "symbolKind") SymbolKindCapabilities_codec
     ⊗ opt_field (lit "hierarchicalDocumentSymbolSupport") bool_codec)
    (fun '(x0, (x1, x2)) => mk_DocumentSymbolCapabilities x0 x1 x2)
    (fun r => (DocumentSymbolCapabilities_dynamicRegistration r, (DocumentSymbolCapabilities_symbolKind r,
     DocumentSymbolCapabilities_hierarchicalDocumentSymbolSupport r))).
Definition DocumentSymbolCapabilities_valid (r : DocumentSymbolCapabilities) : Prop :=
  opt_valid any_valid (DocumentSymbolCapabilities_dynamicRegistration r) /\
  opt_valid SymbolKindCapabilities_valid (DocumentSymbolCapabilities_symbolKind r) /\
  opt_valid any_valid (DocumentSymbolCapabilities_hierarchicalDocumentSymbolSupport r).
#[export] Instance DocumentSymbolCapabilities_roundtrip : Roundtrip DocumentSymbolCapabilities_codec DocumentSymbolCapabilities_valid.
Proof. struct_law. Qed.
#[export] Instance DocumentSymbolCapabilities_object : WritesObject DocumentSymbolCapabilities_codec.
Proof. intros v. by eexists. Qed.

Record DeclarationCapabilities := mk_DeclarationCapabilities {
  DeclarationCapabilities_dynamicRegistration : option bool; DeclarationCapabilities_linkSupport : option bool }.
Definition DeclarationCapabilities_codec : codec DeclarationCapabilities :=
  struct_codec
    (opt_field (lit "dynamicRegistration") bool_codec
     ⊗ opt_field (lit "linkSupport") bool_codec)
    (fun '(x0, x1) => mk_DeclarationCapabilities x0 x1)
    (fun r => (DeclarationCapabilities_dynamicRegistration r, DeclarationCapabilities_linkSupport r)).
Definition DeclarationCapabilities_valid (r : DeclarationCapabilities) : Prop :=
  opt_valid any_valid (DeclarationCapabilities_dynamicRegistration r) /\
  opt_valid any_valid (DeclarationCapabilities_linkSupport r).
#[export] Instance DeclarationCapabilities_roundtrip : Roundtrip DeclarationCapabilities_codec DeclarationCapabilities_valid.
Proof. struct_law. Qed.
#[export] Instance DeclarationCapabilities_object : WritesObject DeclarationCapabilities_codec.
Proof. intros v. by eexists. Qed.

Record CodeActionKindCapabilities := mk_CodeActionKindCapabilities {
  CodeActionKindCapabilities_valueSet : option (list bytes) }.
Definition CodeActionKindCapabilities_codec : codec CodeActionKindCapabilities :=
  struct_codec
    (opt_field (lit "valueSet") (vector_codec string_codec))
    (fun x0 => mk_CodeActionKindCapabilities x0)
    (fun r => CodeActionKindCapabilities_valueSet r).
Definition CodeActionKindCapabilities_valid (r : CodeActionKindCapabilities) : Prop :=
  opt_valid (Forall text_valid) (CodeActionKindCapabilities_valueSet r).
#[export] Instance CodeActionKindCapabilities_roundtrip : Roundtrip CodeActionKindCapabilities_codec CodeActionKindCapabilities_valid.
Proof. struct_law. Qed.
#[export] Instance CodeActionKindCapabilities_object : WritesObject CodeActionKindCapabilities_codec.
Proof. intros v. by eexists. Qed.

Record CodeActionLiteralSupportCapabilities := mk_CodeActionLiteralSupportCapabilities {
  CodeActionLiteralSupportCapabilities_codeActionKind : option CodeActionKindCapabilities }.
Definition CodeActionLiteralSupportCapabilities_codec : codec CodeActionLiteralSupportCapabilities :=
  struct_codec
    (opt_field (lit "codeActionKind") CodeActionKindCapabilities_codec)
    (fun x0 => mk_CodeActionLiteralSupportCapabilities x0)
    (fun r => CodeActionLiteralSupportCapabilities_codeActionKind r).
Definition CodeActionLiteralSupportCapabilities_valid (r : CodeActionLiteralSupportCapabilities) : Prop :=
  opt_valid CodeActionKindCapabilities_valid (CodeActionLiteralSupportCapabilities_codeActionKind r).
#[export] Instance CodeActionLiteralSupportCapabilities_roundtrip : Roundtrip CodeActionLiteralSupportCapabilities_codec CodeActionLiteralSupportCapabilities_valid.
Proof. struct_law. Qed.
#[export] Instance CodeActionLiteralSupportCapabilities_object : WritesObject CodeActionLiteralSupportCapabilities_codec.
Proof. intros v. by eexists. Qed.

Record CodeActionCapabilities := mk_CodeActionCapabilities {
  CodeActionCapabilities_dynamicRegistration : option bool;
  CodeActionCapabilities_codeActionLiteralSupport : option CodeActionLiteralSupportCapabilities }.
Definition CodeActionCapabilities_codec : codec CodeActionCapabilities :=
  struct_codec
    (opt_field (lit "dynamicRegistration") bool_codec
     ⊗ opt_field (lit "codeActionLiteralSupport") CodeActionLiteralSupportCapabilities_codec)
    (fun '(x0, x1) => mk_CodeActionCapabilities x0 x1)
    (fun r => (CodeActionCapabilities_dynamicRegistration r,
     CodeActionCapabilities_codeActionLiteralSupport r)).
Definition CodeActionCapabilities_valid (r : CodeActionCapabilities) : Prop :=
  opt_valid any_valid (CodeActionCapabilities_dynamicRegistration r) /\
  opt_valid CodeActionLiteralSupportCapabilities_valid (CodeActionCapabilities_codeActionLiteralSupport r).
#[export] Instance CodeActionCapabilities_roundtrip : Roundtrip CodeActionCapabilities_codec CodeActionCapabilities_valid.
Proof. struct_law. Qed.
#[export] Instance CodeActionCapabilities_object : WritesObject CodeActionCapabilities_codec.
Proof. intros v. by eexists. Qed.

Record RenameCapabilities := mk_RenameCapabilities {
  RenameCapabilities_dynamicRegistration : option bool; RenameCapabilities_prepareSupport : option bool }.
Definition RenameCapabilities_codec : codec RenameCapabilities :=
  struct_codec
    (opt_field (lit "dynamicRegistration") bool_codec
     ⊗ opt_field (lit "prepareSupport") bool_codec)
    (fun '(x0, x1) => mk_RenameCapabilities x0 x1)
    (fun r => (RenameCapabilities_dynamicRegistration r, RenameCapabilities_prepareSupport r)).
Definition RenameCapabilities_valid (r : RenameCapabilities) : Prop :=
  opt_valid any_valid (RenameCapabilities_dynamicRegistration r) /\
  opt_valid any_valid (RenameCapabilities_prepareSupport r).
#[export] Instance RenameCapabilities_roundtrip : Roundtrip RenameCapabilities_codec RenameCapabilities_valid.
Proof. struct_law. Qed.
#[export] Instance RenameCapabilities_object : WritesObject RenameCapabilities_codec.
Proof. intros v. by eexists. Qed.

Record DiagnosticsTagSupport := mk_DiagnosticsTagSupport {
  DiagnosticsTagSupport_valueSet : list Z }.
Definition DiagnosticsTagSupport_codec : codec DiagnosticsTagSupport :=
  struct_codec
    (field (lit "valueSet") (vector_codec DiagnosticTag_codec))
    (fun x0 => mk_DiagnosticsTagSupport x0)
    (fun r => DiagnosticsTagSupport_valueSet r).
Definition DiagnosticsTagSupport_valid (r : DiagnosticsTagSupport) : Prop :=
  Forall uint8_valid (DiagnosticsTagSupport_valueSet r).
#[export] Instance DiagnosticsTagSupport_roundtrip : Roundtrip DiagnosticsTagSupport_codec DiagnosticsTagSupport_valid.
Proof. struct_law. Qed.
#[export] Instance DiagnosticsTagSupport_object : WritesObject DiagnosticsTagSupport_codec.
Proof. intros v. by eexists. Qed.

Record PublishDiagnosticsClientCapabilities := mk_PublishDiagnosticsClientCapabilities {
  PublishDiagnosticsClientCapabilities_dynamicRegistration : option bool;
  PublishDiagnosticsClientCapabilities_relatedInformation : option bool;
  PublishDiagnosticsClientCapabilities_tagSupport : option (option bool * option DiagnosticsTagSupport);
  PublishDiagnosticsClientCapabilities_versionSupport : option bool;
  PublishDiagnosticsClientCapabilities_codeDescriptionSupport : option bool;
  PublishDiagnosticsClientCapabilities_dataSupport : option bool }.
Definition PublishDiagnosticsClientCapabilities_codec : codec PublishDiagnosticsClientCapabilities :=
  struct_codec
    (opt_field (lit "dynamicRegistration") bool_codec
     ⊗ opt_field (lit "relatedInformation") bool_codec
     ⊗ opt_field (lit "tagSupport") (tagged_pair_codec IsBool bool_codec DiagnosticsTagSupport_codec)
     ⊗ opt_field (lit "versionSupport") bool_codec
     ⊗ opt_field (lit "codeDescriptionSupport") bool_codec
     ⊗ opt_field (lit "dataSupport") bool_codec)
    (fun '(x0, (x1, (x2, (x3, (x4, x5))))) => mk_PublishDiagnosticsClientCapabilities x0 x1 x2 x3 x4 x5)
    (fun r => (PublishDiagnosticsClientCapabilities_dynamicRegistration r,
     (PublishDiagnosticsClientCapabilities_relatedInformation r,
     (PublishDiagnosticsClientCapabilities_tagSupport r,
     (PublishDiagnosticsClientCapabilities_versionSupport r,
     (PublishDiagnosticsClientCapabilities_codeDescriptionSupport r,
     PublishDiagnosticsClientCapabilities_dataSupport r)))))).
Definition PublishDiagnosticsClientCapabilities_valid (r : PublishDiagnosticsClientCapabilities) : Prop :=
  opt_valid any_valid (PublishDiagnosticsClientCapabilities_dynamicRegistration r) /\
  opt_valid any_valid (PublishDiagnosticsClientCapabilities_relatedInformation r) /\
  opt_valid (one_of any_valid DiagnosticsTagSupport_valid) (PublishDiagnosticsClientCapabilities_tagSupport r) /\
  opt_valid any_valid (PublishDiagnosticsClientCapabilities_versionSupport r) /\
  opt_valid any_valid (PublishDiagnosticsClientCapabilities_codeDescriptionSupport r) /\
  opt_valid any_valid (PublishDiagnosticsClientCapabilities_dataSupport r).
#[export] Instance PublishDiagnosticsClientCapabilities_roundtrip : Roundtrip PublishDiagnosticsClientCapabilities_codec PublishDiagnosticsClientCapabilities_valid.
Proof. struct_law. Qed.
#[export] Instance PublishDiagnosticsClientCapabilities_object : WritesObject PublishDiagnosticsClientCapabilities_codec.
Proof. intros v. by eexists. Qed.

Record FoldingRangeCapabilities := mk_FoldingRangeCapabilities {
  FoldingRangeCapabilities_dynamicRegistration : option bool; FoldingRangeCapabilities_rangeLimit : option Z;
  FoldingRangeCapabilities_lineFoldingOnly : option bool }.
Definition FoldingRangeCapabilities_codec : codec FoldingRangeCapabilities :=
  struct_codec
    (opt_field (lit "dynamicRegistration") bool_codec
     ⊗ opt_field (lit "rangeLimit") int_codec
     ⊗ opt_field (lit "lineFoldingOnly") bool_codec)
    (fun '(x0, (x1, x2)) => mk_FoldingRangeCapabilities x0 x1 x2)
    (fun r => (FoldingRangeCapabilities_dynamicRegistration r, (FoldingRangeCapabilities_rangeLimit r,
     FoldingRangeCapabilities_lineFoldingOnly r))).
Definition FoldingRangeCapabilities_valid (r : FoldingRangeCapabilities) : Prop :=
  opt_valid any_valid (FoldingRangeCapabilities_dynamicRegistration r) /\
  opt_valid int_valid (FoldingRangeCapabilities_rangeLimit r) /\
  opt_valid any_valid (FoldingRangeCapabilities_lineFoldingOnly r).
#[export] Instance FoldingRangeCapabilities_roundtrip : Roundtrip FoldingRangeCapabilities_codec FoldingRangeCapabilities_valid.
Proof. struct_law. Qed.
#[export] Instance FoldingRangeCapabilities_object : WritesObject FoldingRangeCapabilities_codec.
Proof. intros v. by eexists. Qed.

Record SemanticHighlightingCapabilities := mk_SemanticHighlightingCapabilities {
  SemanticHighlightingCapabilities_dynamicRegistration : option bool;
  SemanticHighlightingCapabilities_semanticHighlighting : option bool }.
Definition SemanticHighlightingCapabilities_codec : codec SemanticHighlightingCapabilities :=
  struct_codec
    (opt_field (lit "dynamicRegistration") bool_codec
     ⊗ opt_field (lit "semanticHighlighting") bool_codec)
    (fun '(x0, x1) => mk_SemanticHighlightingCapabilities x0 x1)
    (fun r => (SemanticHighlightingCapabilities_dynamicRegistration r,
     SemanticHighlightingCapabilities_semanticHighlighting r)).
Definition SemanticHighlightingCapabilities_valid (r : SemanticHighlightingCapabilities) : Prop :=
  opt_valid any_valid (SemanticHighlightingCapabilities_dynamicRegistration r) /\
  opt_valid any_valid (SemanticHighlightingCapabilities_semanticHighlighting r).
#[export] Instance SemanticHighlightingCapabilities_roundtrip : Roundtrip SemanticHighlightingCapabilities_codec SemanticHighlightingCapabilities_valid.
Proof. struct_law. Qed.
#[export] Instance SemanticHighlightingCapabilities_object : WritesObject SemanticHighlightingCapabilities_codec.
Proof. intros v. by eexists. Qed.

Record SemanticTokensClientCapabilitiesRequestsFull := mk_SemanticTokensClientCapabilitiesRequestsFull {
  SemanticTokensClientCapabilitiesRequestsFull_delta : bool }.
Definition SemanticTokensClientCapabilitiesRequestsFull_codec : codec SemanticTokensClientCapabilitiesRequestsFull :=
  struct_codec
    (field_init (lit "delta") bool_codec false)
    (fun x0 => mk_SemanticTokensClientCapabilitiesRequestsFull x0)
    (fun r => SemanticTokensClientCapabilitiesRequestsFull_delta r).
Definition SemanticTokensClientCapabilitiesRequestsFull_valid (r : SemanticTokensClientCapabilitiesRequestsFull) : Prop :=
  any_valid (SemanticTokensClientCapabilitiesRequestsFull_delta r).
#[export] Instance SemanticTokensClientCapabilitiesRequestsFull_roundtrip : Roundtrip SemanticTokensClientCapabilitiesRequestsFull_codec SemanticTokensClientCapabilitiesRequestsFull_valid.
Proof. struct_law. Qed.
#[export] Instance SemanticTokensClientCapabilitiesRequestsFull_object : WritesObject SemanticTokensClientCapabilitiesRequestsFull_codec.
Proof. intros v. by eexists. Qed.

Record SemanticTokensClientCapabilities_lsRequests := mk_SemanticTokensClientCapabilities_lsRequests {
  SemanticTokensClientCapabilities_lsRequests_range : option (option bool * option SemanticTokensClientCapabilitiesRequestsFull);
  SemanticTokensClientCapabilities_lsRequests_full : option (option bool * option Any) }.
Definition SemanticTokensClientCapabilities_lsRequests_codec : codec SemanticTokensClientCapabilities_lsRequests :=
  struct_codec
    (opt_field (lit "range") (tagged_pair_codec IsBool bool_codec SemanticTokensClientCapabilitiesRequestsFull_codec)
     ⊗ opt_field (lit "full") (tagged_pair_codec IsBool bool_codec any))
    (fun '(x0, x1) => mk_SemanticTokensClientCapabilities_lsRequests x0 x1)
    (fun r => (SemanticTokensClientCapabilities_lsRequests_range r,
     SemanticTokensClientCapabilities_lsRequests_full r)).
Definition SemanticTokensClientCapabilities_lsRequests_valid (r : SemanticTokensClientCapabilities_lsRequests) : Prop :=
  opt_valid (one_of any_valid SemanticTokensClientCapabilitiesRequestsFull_valid) (SemanticTokensClientCapabilities_lsRequests_range r) /\
  opt_valid (one_of any_valid any_not_bool) (SemanticTokensClientCapabilities_lsRequests_full r).
#[export] Instance SemanticTokensClientCapabilities_lsRequests_roundtrip : Roundtrip SemanticTokensClientCapabilities_lsRequests_codec SemanticTokensClientCapabilities_lsRequests_valid.
Proof. struct_law. Qed.
#[export] Instance SemanticTokensClientCapabilities_lsRequests_object : WritesObject SemanticTokensClientCapabilities_lsRequests_codec.
Proof. intros v. by eexists. Qed.

Record SemanticTokensClientCapabilities := mk_SemanticTokensClientCapabilities {
  SemanticTokensClientCapabilities_dynamicRegistration : option bool;
  SemanticTokensClientCapabilities_requests : SemanticTokensClientCapabilities_lsRequests;
  SemanticTokensClientCapabilities_tokenTypes : list bytes;
  SemanticTokensClientCapabilities_tokenModifiers : list bytes;
  SemanticTokensClientCapabilities_formats : list bytes;
  SemanticTokensClientCapabilities_overlappingTokenSupport : option bool;
  SemanticTokensClientCapabilities_multilineTokenSupport : option bool }.
Definition SemanticTokensClientCapabilities_codec : codec SemanticTokensClientCapabilities :=
  struct_codec
    (opt_field (lit "dynamicRegistration") bool_codec
     ⊗ field (lit "requests") SemanticTokensClientCapabilities_lsRequests_codec
     ⊗ field (lit "tokenTypes") (vector_codec string_codec)
     ⊗ field (lit "tokenModifiers") (vector_codec string_codec)
     ⊗ field (lit "formats") (vector_codec string_codec)
     ⊗ opt_field (lit "overlappingTokenSupport") bool_codec
     ⊗ opt_field (lit "multilineTokenSupport") bool_codec)
    (fun '(x0, (x1, (x2, (x3, (x4, (x5, x6)))))) => mk_SemanticTokensClientCapabilities x0 x1 x2 x3 x4 x5 x6)
    (fun r => (SemanticTokensClientCapabilities_dynamicRegistration r,
     (SemanticTokensClientCapabilities_requests r, (SemanticTokensClientCapabilities_tokenTypes r,
     (SemanticTokensClientCapabilities_tokenModifiers r, (SemanticTokensClientCapabilities_formats r,
     (SemanticTokensClientCapabilities_overlappingTokenSupport r,
     SemanticTokensClientCapabilities_multilineTokenSupport r))))))).
Definition SemanticTokensClientCapabilities_valid (r : SemanticTokensClientCapabilities) : Prop :=
  opt_valid any_valid (SemanticTokensClientCapabilities_dynamicRegistration r) /\
  SemanticTokensClientCapabilities_lsRequests_valid (SemanticTokensClientCapabilities_requests r) /\
  Forall text_valid (SemanticTokensClientCapabilities_tokenTypes r) /\
  Forall text_valid (SemanticTokensClientCapabilities_tokenModifiers r) /\
  Forall text_valid (SemanticTokensClientCapabilities_formats r) /\
  opt_valid any_valid (SemanticTokensClientCapabilities_overlappingTokenSupport r) /\
  opt_valid any_valid (SemanticTokensClientCapabilities_multilineTokenSupport r).
#[export] Instance SemanticTokensClientCapabilities_roundtrip : Roundtrip SemanticTokensClientCapabilities_codec SemanticTokensClientCapabilities_valid.
Proof. struct_law. Qed.
#[export] Instance SemanticTokensClientCapabilities_object : WritesObject SemanticTokensClientCapabilities_codec.
Proof. intros v. by eexists. Qed.

Record lsTextDocumentClientCapabilities := mk_lsTextDocumentClientCapabilities {
  lsTextDocumentClientCapabilities_synchronization : SynchronizationCapabilities;
  lsTextDocumentClientCapabilities_completion : option CompletionCapabilities;
  lsTextDocumentClientCapabilities_hover : option HoverCapabilities;
  lsTextDocumentClientCapabilities_signatureHelp : option SignatureHelpCapabilities;
  lsTextDocumentClientCapabilities_implementation : option DeclarationCapabilities;
  lsTextDocumentClientCapabilities_references : option DynamicRegistrationCapabilities;
  lsTextDocumentClientCapabilities_documentHighlight : option DynamicRegistrationCapabilities;
  lsTextDocumentClientCapabilities_documentSymbol : option DocumentSymbolCapabilities;
  lsTextDocumentClientCapabilities_formatting : option DynamicRegistrationCapabilities;
  lsTextDocumentClientCapabilities_rangeFormatting : option DocumentRangeFormattingClientCapabilities;
  lsTextDocumentClientCapabilities_onTypeFormatting : option DynamicRegistrationCapabilities;
  lsTextDocumentClientCapabilities_declaration : option DeclarationCapabilities;
  lsTextDocumentClientCapabilities_definition : option DeclarationCapabilities;
  lsTextDocumentClientCapabilities_typeDefinition : option DeclarationCapabilities;
  lsTextDocumentClientCapabilities_codeAction : option CodeActionCapabilities;
  lsTextDocumentClientCapabilities_codeLens : option CodeLensClientCapabilities;
  lsTextDocumentClientCapabilities_documentLink : option DynamicRegistrationCapabilities;
  lsTextDocumentClientCapabilities_colorProvider : option DynamicRegistrationCapabilities;
  lsTextDocumentClientCapabilities_rename : option RenameCapabilities;
  lsTextDocumentClientCapabilities_publishDiagnostics : option PublishDiagnosticsClientCapabilities;
  lsTextDocumentClientCapabilities_foldingRange : option FoldingRangeCapabilities;
  lsTextDocumentClientCapabilities_semanticHighlightingCapabilities : option SemanticHighlightingCapabilities;
  lsTextDocumentClientCapabilities_typeHierarchyCapabilities : option DynamicRegistrationCapabilities;
  lsTextDocumentClientCapabilities_callHierarchy : option DynamicRegistrationCapabilities;
  lsTextDocumentClientCapabilities_selectionRange : option DynamicRegistrationCapabilities;
  lsTextDocumentClientCapabilities_linkedEditingRange : option DynamicRegistrationCapabilities;
  lsTextDocumentClientCapabilities_semanticTokens : option SemanticTokensClientCapabilities;
  lsTextDocumentClientCapabilities_moniker : option DynamicRegistrationCapabilities;
  lsTextDocumentClientCapabilities_inlayHint : option InlayHintClientCapabilities;
  lsTextDocumentClientCapabilities_diagnostic : option DiagnosticClientCapabilities;
  lsTextDocumentClientCapabilities_inlineValue : option InlineValueClientCapabilities;
  lsTextDocumentClientCapabilities_inlineCompletion : option InlineCompletionClientCapabilities }.
Definition lsTextDocumentClientCapabilities_codec : codec lsTextDocumentClientCapabilities :=
  struct_codec
    (field (lit "synchronization") SynchronizationCapabilities_codec
     ⊗ opt_field (lit "completion") CompletionCapabilities_codec
     ⊗ opt_field (lit "hover") HoverCapabilities_codec
     ⊗ opt_field (lit "signatureHelp") SignatureHelpCapabilities_codec
     ⊗ opt_field (lit "implementation") DeclarationCapabilities_codec
     ⊗ opt_field (lit "references") DynamicRegistrationCapabilities_codec
     ⊗ opt_field (lit "documentHighlight") DynamicRegistrationCapabilities_codec
     ⊗ opt_field (lit "documentSymbol") DocumentSymbolCapabilities_codec
     ⊗ opt_field (lit "formatting") DynamicRegistrationCapabilities_codec
     ⊗ opt_field (lit "rangeFormatting") DocumentRangeFormattingClientCapabilities_codec
     ⊗ opt_field (lit "onTypeFormatting") DynamicRegistrationCapabilities_codec
     ⊗ opt_field (lit "declaration") DeclarationCapabilities_codec
     ⊗ opt_field (lit "definition") DeclarationCapabilities_codec
     ⊗ opt_field (lit "typeDefinition") DeclarationCapabilities_codec
     ⊗ opt_field (lit "implementation") DeclarationCapabilities_codec
     ⊗ opt_field (lit "codeAction") CodeActionCapabilities_codec
     ⊗ opt_field (lit "codeLens") CodeLensClientCapabilities_codec
     ⊗ opt_field (lit "documentLink") DynamicRegistrationCapabilities_codec
     ⊗ opt_field (lit "colorProvider") DynamicRegistrationCapabilities_codec
     ⊗ opt_field (lit "rename") RenameCapabilities_codec
     ⊗ opt_field (lit "publishDiagnostics") PublishDiagnosticsClientCapabilities_codec
     ⊗ opt_field (lit "foldingRange") FoldingRangeCapabilities_codec
     ⊗ opt_field (lit "semanticHighlightingCapabilities") SemanticHighlightingCapabilities_codec
     ⊗ opt_field (lit "typeHierarchyCapabilities") DynamicRegistrationCapabilities_codec
     ⊗ opt_field (lit "callHierarchy") DynamicRegistrationCapabilities_codec
     ⊗ opt_field (lit "selectionRange") DynamicRegistrationCapabilities_codec
     ⊗ opt_field (lit "linkedEditingRange") DynamicRegistrationCapabilities_codec
     ⊗ opt_field (lit "semanticTokens") SemanticTokensClientCapabilities_codec
     ⊗ opt_field (lit "moniker") DynamicRegistrationCapabilities_codec
     ⊗ opt_field (lit "inlayHint") InlayHintClientCapabilities_codec
     ⊗ opt_field (lit "diagnostic") DiagnosticClientCapabilities_codec
     ⊗ opt_field (lit "inlineValue") InlineValueClientCapabilities_codec
     ⊗ opt_field (lit "inlineCompletion") InlineCompletionClientCapabilities_codec)
    (fun '(x0, (x1, (x2, (x3, (_, (x5, (x6, (x7, (x8, (x9, (x10, (x11, (x12, (x13, (x14, (x15, (x16, (x17,
     (x18, (x19, (x20, (x21, (x22, (x23, (x24, (x25, (x26, (x27, (x28, (x29, (x30, (x31,
     x32)))))))))))))))))))))))))))))))) => mk_lsTextDocumentClientCapabilities x0 x1 x2 x3 x14 x5 x6 x7 x8
     x9 x10 x11 x12 x13 x15 x16 x17 x18 x19 x20 x21 x22 x23 x24 x25 x26 x27 x28 x29 x30 x31 x32)
    (fun r => (lsTextDocumentClientCapabilities_synchronization r,
     (lsTextDocumentClientCapabilities_completion r, (lsTextDocumentClientCapabilities_hover r,
     (lsTextDocumentClientCapabilities_signatureHelp r, (lsTextDocumentClientCapabilities_implementation r,
     (lsTextDocumentClientCapabilities_references r, (lsTextDocumentClientCapabilities_documentHighlight r,
     (lsTextDocumentClientCapabilities_documentSymbol r, (lsTextDocumentClientCapabilities_formatting r,
     (lsTextDocumentClientCapabilities_rangeFormatting r,
     (lsTextDocumentClientCapabilities_onTypeFormatting r, (lsTextDocumentClientCapabilities_declaration r,
     (lsTextDocumentClientCapabilities_definition r, (lsTextDocumentClientCapabilities_typeDefinition r,
     (lsTextDocumentClientCapabilities_implementation r, (lsTextDocumentClientCapabilities_codeAction r,
     (lsTextDocumentClientCapabilities_codeLens r, (lsTextDocumentClientCapabilities_documentLink r,
     (lsTextDocumentClientCapabilities_colorProvider r, (lsTextDocumentClientCapabilities_rename r,
     (lsTextDocumentClientCapabilities_publishDiagnostics r,
     (lsTextDocumentClientCapabilities_foldingRange r,
     (lsTextDocumentClientCapabilities_semanticHighlightingCapabilities r,
     (lsTextDocumentClientCapabilities_typeHierarchyCapabilities r,
     (lsTextDocumentClientCapabilities_callHierarchy r, (lsTextDocumentClientCapabilities_selectionRange r,
     (lsTextDocumentClientCapabilities_linkedEditingRange r,
     (lsTextDocumentClientCapabilities_semanticTokens r, (lsTextDocumentClientCapabilities_moniker r,
     (lsTextDocumentClientCapabilities_inlayHint r, (lsTextDocumentClientCapabilities_diagnostic r,
     (lsTextDocumentClientCapabilities_inlineValue r,
     lsTextDocumentClientCapabilities_inlineCompletion r))))))))))))))))))))))))))))))))).
Definition lsTextDocumentClientCapabilities_valid (r : lsTextDocumentClientCapabilities) : Prop :=
  SynchronizationCapabilities_valid (lsTextDocumentClientCapabilities_synchronization r) /\
  opt_valid CompletionCapabilities_valid (lsTextDocumentClientCapabilities_completion r) /\
  opt_valid HoverCapabilities_valid (lsTextDocumentClientCapabilities_hover r) /\
  opt_valid SignatureHelpCapabilities_valid (lsTextDocumentClientCapabilities_signatureHelp r) /\
  opt_valid DeclarationCapabilities_valid (lsTextDocumentClientCapabilities_implementation r) /\
  opt_valid DynamicRegistrationCapabilities_valid (lsTextDocumentClientCapabilities_references r) /\
  opt_valid DynamicRegistrationCapabilities_valid (lsTextDocumentClientCapabilities_documentHighlight r) /\
  opt_valid DocumentSymbolCapabilities_valid (lsTextDocumentClientCapabilities_documentSymbol r) /\
  opt_valid DynamicRegistrationCapabilities_valid (lsTextDocumentClientCapabilities_formatting r) /\
  opt_valid DocumentRangeFormattingClientCapabilities_valid (lsTextDocumentClientCapabilities_rangeFormatting r) /\
  opt_valid DynamicRegistrationCapabilities_valid (lsTextDocumentClientCapabilities_onTypeFormatting r) /\
  opt_valid DeclarationCapabilities_valid (lsTextDocumentClientCapabilities_declaration r) /\
  opt_valid DeclarationCapabilities_valid (lsTextDocumentClientCapabilities_definition r) /\
  opt_valid DeclarationCapabilities_valid (lsTextDocumentClientCapabilities_typeDefinition r) /\
  opt_valid DeclarationCapabilities_valid (lsTextDocumentClientCapabilities_implementation r) /\
  opt_valid CodeActionCapabilities_valid (lsTextDocumentClientCapabilities_codeAction r) /\
  opt_valid CodeLensClientCapabilities_valid (lsTextDocumentClientCapabilities_codeLens r) /\
  opt_valid DynamicRegistrationCapabilities_valid (lsTextDocumentClientCapabilities_documentLink r) /\
  opt_valid DynamicRegistrationCapabilities_valid (lsTextDocumentClientCapabilities_colorProvider r) /\
  opt_valid RenameCapabilities_valid (lsTextDocumentClientCapabilities_rename r) /\
  opt_valid PublishDiagnosticsClientCapabilities_valid (lsTextDocumentClientCapabilities_publishDiagnostics r) /\
  opt_valid FoldingRangeCapabilities_valid (lsTextDocumentClientCapabilities_foldingRange r) /\
  opt_valid SemanticHighlightingCapabilities_valid (lsTextDocumentClientCapabilities_semanticHighlightingCapabilities r) /\
  opt_valid DynamicRegistrationCapabilities_valid (lsTextDocumentClientCapabilities_typeHierarchyCapabilities r) /\
  opt_valid DynamicRegistrationCapabilities_valid (lsTextDocumentClientCapabilities_callHierarchy r) /\
  opt_valid DynamicRegistrationCapabilities_valid (lsTextDocumentClientCapabilities_selectionRange r) /\
  opt_valid DynamicRegistrationCapabilities_valid (lsTextDocumentClientCapabilities_linkedEditingRange r) /\
  opt_valid SemanticTokensClientCapabilities_valid (lsTextDocumentClientCapabilities_semanticTokens r) /\
  opt_valid DynamicRegistrationCapabilities_valid (lsTextDocumentClientCapabilities_moniker r) /\
  opt_valid InlayHintClientCapabilities_valid (lsTextDocumentClientCapabilities_inlayHint r) /\
  opt_valid DiagnosticClientCapabilities_valid (lsTextDocumentClientCapabilities_diagnostic r) /\
  opt_valid InlineValueClientCapabilities_valid (lsTextDocumentClientCapabilities_inlineValue r) /\
  opt_valid InlineCompletionClientCapabilities_valid (lsTextDocumentClientCapabilities_inlineCompletion r).
(** [implementation] is reflected, and so written, twice. *)
#[export] Instance lsTextDocumentClientCapabilities_roundtrip :
  Roundtrip lsTextDocumentClientCapabilities_codec lsTextDocumentClientCapabilities_valid.
Proof.
  eapply struct_roundtrip_valid; [by intros []|reflexivity| |].
  - do 4 (apply pair_roundtrip; [vm_compute; reflexivity|members|]).
    eapply repeated_roundtrip with (second := fun b => b.2.2.2.2.2.2.2.2.2.1); [members|members|].
    intros b n ->%list_elem_of_singleton.
    do 9 (etrans; [eapply FindMember_skip; [members|apply (bool_decide_eq_false_1 _); vm_compute; reflexivity]|]).
    eapply FindMember_first; [members|apply (bool_decide_eq_false_1 _); vm_compute; reflexivity].
  - intros r H. unfold lsTextDocumentClientCapabilities_valid in H. decompose [and] H.
    cbv [pair_valid fst snd]. repeat match goal with |- _ /\ _ => split end; (assumption || reflexivity).
Qed.
#[export] Instance lsTextDocumentClientCapabilities_object : WritesObject lsTextDocumentClientCapabilities_codec.
Proof. intros v. by eexists. Qed.

Record MarkdownClientCapabilities := mk_MarkdownClientCapabilities {
  MarkdownClientCapabilities_parser : bytes; MarkdownClientCapabilities_version : option bytes }.
Definition MarkdownClientCapabilities_codec : codec MarkdownClientCapabilities :=
  struct_codec
    (field (lit "parser") string_codec
     ⊗ opt_field (lit "version") string_codec)
    (fun '(x0, x1) => mk_MarkdownClientCapabilities x0 x1)
    (fun r => (MarkdownClientCapabilities_parser r, MarkdownClientCapabilities_version r)).
Definition MarkdownClientCapabilities_valid (r : MarkdownClientCapabilities) : Prop :=
  text_valid (MarkdownClientCapabilities_parser r) /\
  opt_valid text_valid (MarkdownClientCapabilities_version r).
#[export] Instance MarkdownClientCapabilities_roundtrip : Roundtrip MarkdownClientCapabilities_codec MarkdownClientCapabilities_valid.
Proof. struct_law. Qed.
#[export] Instance MarkdownClientCapabilities_object : WritesObject MarkdownClientCapabilities_codec.
Proof. intros v. by eexists. Qed.

Record lsClientCapabilities := mk_lsClientCapabilities {
  lsClientCapabilities_workspace : option lsWorkspaceClientCapabilites;
  lsClientCapabilities_textDocument : option lsTextDocumentClientCapabilities;
  lsClientCapabilities_window : option Any; lsClientCapabilities_experimental : option Any }.
Definition lsClientCapabilities_codec : codec lsClientCapabilities :=
  struct_codec
    (opt_field (lit "workspace") lsWorkspaceClientCapabilites_codec
     ⊗ opt_field (lit "textDocument") lsTextDocumentClientCapabilities_codec
     ⊗ opt_field (lit "window") any
     ⊗ opt_field (lit "experimental") any)
    (fun '(x0, (x1, (x2, x3))) => mk_lsClientCapabilities x0 x1 x2 x3)
    (fun r => (lsClientCapabilities_workspace r, (lsClientCapabilities_textDocument r,
     (lsClientCapabilities_window r, lsClientCapabilities_experimental r)))).
Definition lsClientCapabilities_valid (r : lsClientCapabilities) : Prop :=
  opt_valid lsWorkspaceClientCapabilites_valid (lsClientCapabilities_workspace r) /\
  opt_valid lsTextDocumentClientCapabilities_valid (lsClientCapabilities_textDocument r) /\
  opt_valid any_ok (lsClientCapabilities_window r) /\
  opt_valid any_ok (lsClientCapabilities_experimental r).
#[export] Instance lsClientCapabilities_roundtrip : Roundtrip lsClientCapabilities_codec lsClientCapabilities_valid.
Proof. struct_law. Qed.
#[export] Instance lsClientCapabilities_object : WritesObject lsClientCapabilities_codec.
Proof. intros v. by eexists. Qed.

(** *** Capabilities of the server (general/lsServerCapabilities.h) *)

Record CodeActionOptions := mk_CodeActionOptions {
  CodeActionOptions_workDoneProgress : option bool; CodeActionOptions_codeActionKinds : list bytes;
  CodeActionOptions_documentation : option (list CodeActionKindDocumentation) }.
Definition CodeActionOptions_codec : codec CodeActionOptions :=
  struct_codec
    (opt_field (lit "workDoneProgress") bool_codec
     ⊗ field (lit "codeActionKinds") (vector_codec string_codec)
     ⊗ opt_field (lit "documentation") (vector_codec CodeActionKindDocumentation_codec))
    (fun '(x0, (x1, x2)) => mk_CodeActionOptions x0 x1 x2)
    (fun r => (CodeActionOptions_workDoneProgress r, (CodeActionOptions_codeActionKinds r,
     CodeActionOptions_documentation r))).
Definition CodeActionOptions_valid (r : CodeActionOptions) : Prop :=
  opt_valid any_valid (CodeActionOptions_workDoneProgress r) /\
  Forall text_valid (CodeActionOptions_codeActionKinds r) /\
  opt_valid (Forall CodeActionKindDocumentation_valid) (CodeActionOptions_documentation r).
#[export] Instance CodeActionOptions_roundtrip : Roundtrip CodeActionOptions_codec CodeActionOptions_valid.
Proof. struct_law. Qed.
#[export] Instance CodeActionOptions_object : WritesObject CodeActionOptions_codec.
Proof. intros v. by eexists. Qed.

Record CodeLensOptions := mk_CodeLensOptions {
  CodeLensOptions_workDoneProgress : option bool; CodeLensOptions_resolveProvider : option bool }.
Definition CodeLensOptions_codec : codec CodeLensOptions :=
  struct_codec
    (opt_field (lit "workDoneProgress") bool_codec
     ⊗ opt_field (lit "resolveProvider") bool_codec)
    (fun '(x0, x1) => mk_CodeLensOptions x0 x1)
    (fun r => (CodeLensOptions_workDoneProgress r, CodeLensOptions_resolveProvider r)).
Definition CodeLensOptions_valid (r : CodeLensOptions) : Prop :=
  opt_valid any_valid (CodeLensOptions_workDoneProgress r) /\
  opt_valid any_valid (CodeLensOptions_resolveProvider r).
#[export] Instance CodeLensOptions_roundtrip : Roundtrip CodeLensOptions_codec CodeLensOptions_valid.
Proof. struct_law. Qed.
#[export] Instance CodeLensOptions_object : WritesObject CodeLensOptions_codec.
Proof. intros v. by eexists. Qed.

Record lsDocumentOnTypeFormattingOptions := mk_lsDocumentOnTypeFormattingOptions {
  lsDocumentOnTypeFormattingOptions_workDoneProgress : option bool;
  lsDocumentOnTypeFormattingOptions_firstTriggerCharacter : bytes;
  lsDocumentOnTypeFormattingOptions_moreTriggerCharacter : list bytes }.
Definition lsDocumentOnTypeFormattingOptions_codec : codec lsDocumentOnTypeFormattingOptions :=
  struct_codec
    (opt_field (lit "workDoneProgress") bool_codec
     ⊗ field (lit "firstTriggerCharacter") string_codec
     ⊗ field (lit "moreTriggerCharacter") (vector_codec string_codec))
    (fun '(x0, (x1, x2)) => mk_lsDocumentOnTypeFormattingOptions x0 x1 x2)
    (fun r => (lsDocumentOnTypeFormattingOptions_workDoneProgress r,
     (lsDocumentOnTypeFormattingOptions_firstTriggerCharacter r,
     lsDocumentOnTypeFormattingOptions_moreTriggerCharacter r))).
Definition lsDocumentOnTypeFormattingOptions_valid (r : lsDocumentOnTypeFormattingOptions) : Prop :=
  opt_valid any_valid (lsDocumentOnTypeFormattingOptions_workDoneProgress r) /\
  text_valid (lsDocumentOnTypeFormattingOptions_firstTriggerCharacter r) /\
  Forall text_valid (lsDocumentOnTypeFormattingOptions_moreTriggerCharacter r).
#[export] Instance lsDocumentOnTypeFormattingOptions_roundtrip : Roundtrip lsDocumentOnTypeFormattingOptions_codec lsDocumentOnTypeFormattingOptions_valid.
Proof. struct_law. Qed.
#[export] Instance lsDocumentOnTypeFormattingOptions_object : WritesObject lsDocumentOnTypeFormattingOptions_codec.
Proof. intros v. by eexists. Qed.

Record RenameOptions := mk_RenameOptions {
  RenameOptions_workDoneProgress : option bool; RenameOptions_prepareProvider : option bool }.
Definition RenameOptions_codec : codec RenameOptions :=
  struct_codec
    (opt_field (lit "workDoneProgress") bool_codec
     ⊗ opt_field (lit "prepareProvider") bool_codec)
    (fun '(x0, x1) => mk_RenameOptions x0 x1)
    (fun r => (RenameOptions_workDoneProgress r, RenameOptions_prepareProvider r)).
Definition RenameOptions_valid (r : RenameOptions) : Prop :=
  opt_valid any_valid (RenameOptions_workDoneProgress r) /\
  opt_valid any_valid (RenameOptions_prepareProvider r).
#[export] Instance RenameOptions_roundtrip : Roundtrip RenameOptions_codec RenameOptions_valid.
Proof. struct_law. Qed.
#[export] Instance RenameOptions_object : WritesObject RenameOptions_codec.
Proof. intros v. by eexists. Qed.

Record DocumentFilter := mk_DocumentFilter {
  DocumentFilter_language : option bytes; DocumentFilter_scheme : option bytes;
  DocumentFilter_pattern : option bytes }.
Definition DocumentFilter_codec : codec DocumentFilter :=
  struct_codec
    (opt_field (lit "language") string_codec
     ⊗ opt_field (lit "scheme") string_codec
     ⊗ opt_field (lit "pattern") string_codec)
    (fun '(x0, (x1, x2)) => mk_DocumentFilter x0 x1 x2)
    (fun r => (DocumentFilter_language r, (DocumentFilter_scheme r, DocumentFilter_pattern r))).
Definition DocumentFilter_valid (r : DocumentFilter) : Prop :=
  opt_valid text_valid (DocumentFilter_language r) /\
  opt_valid text_valid (DocumentFilter_scheme r) /\
  opt_valid text_valid (DocumentFilter_pattern r).
#[export] Instance DocumentFilter_roundtrip : Roundtrip DocumentFilter_codec DocumentFilter_valid.
Proof. struct_law. Qed.
#[export] Instance DocumentFilter_object : WritesObject DocumentFilter_codec.
Proof. intros v. by eexists. Qed.

Record lsDocumentLinkOptions := mk_lsDocumentLinkOptions {
  lsDocumentLinkOptions_workDoneProgress : option bool; lsDocumentLinkOptions_resolveProvider : option bool }.
Definition lsDocumentLinkOptions_codec : codec lsDocumentLinkOptions :=
  struct_codec
    (opt_field (lit "workDoneProgress") bool_codec
     ⊗ opt_field (lit "resolveProvider") bool_codec)
    (fun '(x0, x1) => mk_lsDocumentLinkOptions x0 x1)
    (fun r => (lsDocumentLinkOptions_workDoneProgress r, lsDocumentLinkOptions_resolveProvider r)).
Definition lsDocumentLinkOptions_valid (r : lsDocumentLinkOptions) : Prop :=
  opt_valid any_valid (lsDocumentLinkOptions_workDoneProgress r) /\
  opt_valid any_valid (lsDocumentLinkOptions_resolveProvider r).
#[export] Instance lsDocumentLinkOptions_roundtrip : Roundtrip lsDocumentLinkOptions_codec lsDocumentLinkOptions_valid.
Proof. struct_law. Qed.
#[export] Instance lsDocumentLinkOptions_object : WritesObject lsDocumentLinkOptions_codec.
Proof. intros v. by eexists. Qed.

Record lsExecuteCommandOptions := mk_lsExecuteCommandOptions {
  lsExecuteCommandOptions_workDoneProgress : option bool; lsExecuteCommandOptions_commands : list bytes }.
Definition lsExecuteCommandOptions_codec : codec lsExecuteCommandOptions :=
  struct_codec
    (opt_field (lit "workDoneProgress") bool_codec
     ⊗ field (lit "commands") (vector_codec string_codec))
    (fun '(x0, x1) => mk_lsExecuteCommandOptions x0 x1)
    (fun r => (lsExecuteCommandOptions_workDoneProgress r, lsExecuteCommandOptions_commands r)).
Definition lsExecuteCommandOptions_valid (r : lsExecuteCommandOptions) : Prop :=
  opt_valid any_valid (lsExecuteCommandOptions_workDoneProgress r) /\
  Forall text_valid (lsExecuteCommandOptions_commands r).
#[export] Instance lsExecuteCommandOptions_roundtrip : Roundtrip lsExecuteCommandOptions_codec lsExecuteCommandOptions_valid.
Proof. struct_law. Qed.
#[export] Instance lsExecuteCommandOptions_object : WritesObject lsExecuteCommandOptions_codec.
Proof. intros v. by eexists. Qed.

Record TextDocumentRegistrationOptions := mk_TextDocumentRegistrationOptions {
  TextDocumentRegistrationOptions_documentSelector : option (list DocumentFilter) }.
Definition TextDocumentRegistrationOptions_codec : codec TextDocumentRegistrationOptions :=
  struct_codec
    (opt_field (lit "documentSelector") (vector_codec DocumentFilter_codec))
    (fun x0 => mk_TextDocumentRegistrationOptions x0)
    (fun r => TextDocumentRegistrationOptions_documentSelector r).
Definition TextDocumentRegistrationOptions_valid (r : TextDocumentRegistrationOptions) : Prop :=
  opt_valid (Forall DocumentFilter_valid) (TextDocumentRegistrationOptions_documentSelector r).
#[export] Instance TextDocumentRegistrationOptions_roundtrip : Roundtrip TextDocumentRegistrationOptions_codec TextDocumentRegistrationOptions_valid.
Proof. struct_law. Qed.
#[export] Instance TextDocumentRegistrationOptions_object : WritesObject TextDocumentRegistrationOptions_codec.
Proof. intros v. by eexists. Qed.

Record StaticRegistrationOptions := mk_StaticRegistrationOptions {
  StaticRegistrationOptions_documentSelector : option (list DocumentFilter);
  StaticRegistrationOptions_id : option bytes }.
Definition StaticRegistrationOptions_codec : codec StaticRegistrationOptions :=
  struct_codec
    (opt_field (lit "documentSelector") (vector_codec DocumentFilter_codec)
     ⊗ opt_field (lit "id") string_codec)
    (fun '(x0, x1) => mk_StaticRegistrationOptions x0 x1)
    (fun r => (StaticRegistrationOptions_documentSelector r, StaticRegistrationOptions_id r)).
Definition StaticRegistrationOptions_valid (r : StaticRegistrationOptions) : Prop :=
  opt_valid (Forall DocumentFilter_valid) (StaticRegistrationOptions_documentSelector r) /\
  opt_valid text_valid (StaticRegistrationOptions_id r).
#[export] Instance StaticRegistrationOptions_roundtrip : Roundtrip StaticRegistrationOptions_codec StaticRegistrationOptions_valid.
Proof. struct_law. Qed.
#[export] Instance StaticRegistrationOptions_object : WritesObject StaticRegistrationOptions_codec.
Proof. intros v. by eexists. Qed.

Record WorkspaceFoldersOptions := mk_WorkspaceFoldersOptions {
  WorkspaceFoldersOptions_supported : option bool;
  WorkspaceFoldersOptions_changeNotifications : option (option bytes * option bool) }.
Definition WorkspaceFoldersOptions_codec : codec WorkspaceFoldersOptions :=
  struct_codec
    (opt_field (lit "supported") bool_codec
     ⊗ opt_field (lit "changeNotifications") (tagged_pair_codec IsString string_codec bool_codec))
    (fun '(x0, x1) => mk_WorkspaceFoldersOptions x0 x1)
    (fun r => (WorkspaceFoldersOptions_supported r, WorkspaceFoldersOptions_changeNotifications r)).
Definition WorkspaceFoldersOptions_valid (r : WorkspaceFoldersOptions) : Prop :=
  opt_valid any_valid (WorkspaceFoldersOptions_supported r) /\
  opt_valid (one_of text_valid any_valid) (WorkspaceFoldersOptions_changeNotifications r).
#[export] Instance WorkspaceFoldersOptions_roundtrip : Roundtrip WorkspaceFoldersOptions_codec WorkspaceFoldersOptions_valid.
Proof. struct_law. Qed.
#[export] Instance WorkspaceFoldersOptions_object : WritesObject WorkspaceFoldersOptions_codec.
Proof. intros v. by eexists. Qed.

Inductive lsFileOperationPatternKind :=
| lsFileOperationPatternKind_file | lsFileOperationPatternKind_folder.
Definition lsFileOperationPatternKind_value (e : lsFileOperationPatternKind) : Z :=
  match e with
  | lsFileOperationPatternKind_file => 0 | lsFileOperationPatternKind_folder => 1
  end%Z.
Definition lsFileOperationPatternKind_codec : codec Z := enum_codec unsigned_codec 0.
#[export] Instance lsFileOperationPatternKind_roundtrip : Roundtrip lsFileOperationPatternKind_codec unsigned_valid.
Proof. by apply enum_roundtrip; [apply _|]. Qed.
#[export] Instance lsFileOperationPatternKind_not_null : NotNull lsFileOperationPatternKind_codec unsigned_valid.
Proof. apply enum_not_null, _. Qed.
#[export] Instance lsFileOperationPatternKind_fresh : FreshRead lsFileOperationPatternKind_codec.
Proof. apply enum_fresh. Qed.

Record lsFileOperationPatternOptions := mk_lsFileOperationPatternOptions {
  lsFileOperationPatternOptions_ignoreCase : option bool }.
Definition lsFileOperationPatternOptions_codec : codec lsFileOperationPatternOptions :=
  struct_codec
    (opt_field (lit "ignoreCase") bool_codec)
    (fun x0 => mk_lsFileOperationPatternOptions x0)
    (fun r => lsFileOperationPatternOptions_ignoreCase r).
Definition lsFileOperationPatternOptions_valid (r : lsFileOperationPatternOptions) : Prop :=
  opt_valid any_valid (lsFileOperationPatternOptions_ignoreCase r).
#[export] Instance lsFileOperationPatternOptions_roundtrip : Roundtrip lsFileOperationPatternOptions_codec lsFileOperationPatternOptions_valid.
Proof. struct_law. Qed.
#[export] Instance lsFileOperationPatternOptions_object : WritesObject lsFileOperationPatternOptions_codec.
Proof. intros v. by eexists. Qed.

Record lsFileOperationPattern := mk_lsFileOperationPattern {
  lsFileOperationPattern_glob : bytes; lsFileOperationPattern_matches : option Z;
  lsFileOperationPattern_options : option lsFileOperationPatternOptions }.
Definition lsFileOperationPattern_codec : codec lsFileOperationPattern :=
  struct_codec
    (field (lit "glob") string_codec
     ⊗ opt_field (lit "matches") lsFileOperationPatternKind_codec
     ⊗ opt_field (lit "options") lsFileOperationPatternOptions_codec)
    (fun '(x0, (x1, x2)) => mk_lsFileOperationPattern x0 x1 x2)
    (fun r => (lsFileOperationPattern_glob r, (lsFileOperationPattern_matches r,
     lsFileOperationPattern_options r))).
Definition lsFileOperationPattern_valid (r : lsFileOperationPattern) : Prop :=
  text_valid (lsFileOperationPattern_glob r) /\
  opt_valid unsigned_valid (lsFileOperationPattern_matches r) /\
  opt_valid lsFileOperationPatternOptions_valid (lsFileOperationPattern_options r).
#[export] Instance lsFileOperationPattern_roundtrip : Roundtrip lsFileOperationPattern_codec lsFileOperationPattern_valid.
Proof. struct_law. Qed.
#[export] Instance lsFileOperationPattern_object : WritesObject lsFileOperationPattern_codec.
Proof. intros v. by eexists. Qed.

Record lsFileOperationFilter := mk_lsFileOperationFilter {
  lsFileOperationFilter_scheme : option bytes; lsFileOperationFilter_pattern : option lsFileOperationPattern }.
Definition lsFileOperationFilter_codec : codec lsFileOperationFilter :=
  struct_codec
    (opt_field (lit "scheme") string_codec
     ⊗ opt_field (lit "pattern") lsFileOperationPattern_codec)
    (fun '(x0, x1) => mk_lsFileOperationFilter x0 x1)
    (fun r => (lsFileOperationFilter_scheme r, lsFileOperationFilter_pattern r)).
Definition lsFileOperationFilter_valid (r : lsFileOperationFilter) : Prop :=
  opt_valid text_valid (lsFileOperationFilter_scheme r) /\
  opt_valid lsFileOperationPattern_valid (lsFileOperationFilter_pattern r).
#[export] Instance lsFileOperationFilter_roundtrip : Roundtrip lsFileOperationFilter_codec lsFileOperationFilter_valid.
Proof. struct_law. Qed.
#[export] Instance lsFileOperationFilter_object : WritesObject lsFileOperationFilter_codec.
Proof. intros v. by eexists. Qed.

Record lsFileOperationRegistrationOptions := mk_lsFileOperationRegistrationOptions {
  lsFileOperationRegistrationOptions_filters : option (list lsFileOperationFilter) }.
Definition lsFileOperationRegistrationOptions_codec : codec lsFileOperationRegistrationOptions :=
  struct_codec
    (opt_field (lit "filters") (vector_codec lsFileOperationFilter_codec))
    (fun x0 => mk_lsFileOperationRegistrationOptions x0)
    (fun r => lsFileOperationRegistrationOptions_filters r).
Definition lsFileOperationRegistrationOptions_valid (r : lsFileOperationRegistrationOptions) : Prop :=
  opt_valid (Forall lsFileOperationFilter_valid) (lsFileOperationRegistrationOptions_filters r).
#[export] Instance lsFileOperationRegistrationOptions_roundtrip : Roundtrip lsFileOperationRegistrationOptions_codec lsFileOperationRegistrationOptions_valid.
Proof. struct_law. Qed.
#[export] Instance lsFileOperationRegistrationOptions_object : WritesObject lsFileOperationRegistrationOptions_codec.
Proof. intros v. by eexists. Qed.

Record WorkspaceServerCapabilities_lsFileOperations := mk_WorkspaceServerCapabilities_lsFileOperations {
  WorkspaceServerCapabilities_lsFileOperations_didCreate : option lsFileOperationRegistrationOptions;
  WorkspaceServerCapabilities_lsFileOperations_willCreate : option lsFileOperationRegistrationOptions;
  WorkspaceServerCapabilities_lsFileOperations_didRename : option lsFileOperationRegistrationOptions;
  WorkspaceServerCapabilities_lsFileOperations_willRename : option lsFileOperationRegistrationOptions;
  WorkspaceServerCapabilities_lsFileOperations_didDelete : option lsFileOperationRegistrationOptions;
  WorkspaceServerCapabilities_lsFileOperations_willDelete : option lsFileOperationRegistrationOptions }.
Definition WorkspaceServerCapabilities_lsFileOperations_codec : codec WorkspaceServerCapabilities_lsFileOperations :=
  struct_codec
    (opt_field (lit "didCreate") lsFileOperationRegistrationOptions_codec
     ⊗ opt_field (lit "willCreate") lsFileOperationRegistrationOptions_codec
     ⊗ opt_field (lit "didRename") lsFileOperationRegistrationOptions_codec
     ⊗ opt_field (lit "willRename") lsFileOperationRegistrationOptions_codec
     ⊗ opt_field (lit "didDelete") lsFileOperationRegistrationOptions_codec
     ⊗ opt_field (lit "willDelete") lsFileOperationRegistrationOptions_codec)
    (fun '(x0, (x1, (x2, (x3, (x4, x5))))) => mk_WorkspaceServerCapabilities_lsFileOperations x0 x1 x2 x3 x4
     x5)
    (fun r => (WorkspaceServerCapabilities_lsFileOperations_didCreate r,
     (WorkspaceServerCapabilities_lsFileOperations_willCreate r,
     (WorkspaceServerCapabilities_lsFileOperations_didRename r,
     (WorkspaceServerCapabilities_lsFileOperations_willRename r,
     (WorkspaceServerCapabilities_lsFileOperations_didDelete r,
     WorkspaceServerCapabilities_lsFileOperations_willDelete r)))))).
Definition WorkspaceServerCapabilities_lsFileOperations_valid (r : WorkspaceServerCapabilities_lsFileOperations) : Prop :=
  opt_valid lsFileOperationRegistrationOptions_valid (WorkspaceServerCapabilities_lsFileOperations_didCreate r) /\
  opt_valid lsFileOperationRegistrationOptions_valid (WorkspaceServerCapabilities_lsFileOperations_willCreate r) /\
  opt_valid lsFileOperationRegistrationOptions_valid (WorkspaceServerCapabilities_lsFileOperations_didRename r) /\
  opt_valid lsFileOperationRegistrationOptions_valid (WorkspaceServerCapabilities_lsFileOperations_willRename r) /\
  opt_valid lsFileOperationRegistrationOptions_valid (WorkspaceServerCapabilities_lsFileOperations_didDelete r) /\
  opt_valid lsFileOperationRegistrationOptions_valid (WorkspaceServerCapabilities_lsFileOperations_willDelete r).
#[export] Instance WorkspaceServerCapabilities_lsFileOperations_roundtrip : Roundtrip WorkspaceServerCapabilities_lsFileOperations_codec WorkspaceServerCapabilities_lsFileOperations_valid.
Proof. struct_law. Qed.
#[export] Instance WorkspaceServerCapabilities_lsFileOperations_object : WritesObject WorkspaceServerCapabilities_lsFileOperations_codec.
Proof. intros v. by eexists. Qed.

Record WorkspaceServerCapabilities := mk_WorkspaceServerCapabilities {
  WorkspaceServerCapabilities_workspaceFolders : WorkspaceFoldersOptions;
  WorkspaceServerCapabilities_fileOperations : option WorkspaceServerCapabilities_lsFileOperations;
  WorkspaceServerCapabilities_textDocumentContentProvider : option TextDocumentContentOptions }.
Definition WorkspaceServerCapabilities_codec : codec WorkspaceServerCapabilities :=
  struct_codec
    (field (lit "workspaceFolders") WorkspaceFoldersOptions_codec
     ⊗ opt_field (lit "fileOperations") WorkspaceServerCapabilities_lsFileOperations_codec
     ⊗ opt_field (lit "textDocumentContentProvider") TextDocumentContentOptions_codec)
    (fun '(x0, (x1, x2)) => mk_WorkspaceServerCapabilities x0 x1 x2)
    (fun r => (WorkspaceServerCapabilities_workspaceFolders r,
     (WorkspaceServerCapabilities_fileOperations r,
     WorkspaceServerCapabilities_textDocumentContentProvider r))).
Definition WorkspaceServerCapabilities_valid (r : WorkspaceServerCapabilities) : Prop :=
  WorkspaceFoldersOptions_valid (WorkspaceServerCapabilities_workspaceFolders r) /\
  opt_valid WorkspaceServerCapabilities_lsFileOperations_valid (WorkspaceServerCapabilities_fileOperations r) /\
  opt_valid TextDocumentContentOptions_valid (WorkspaceServerCapabilities_textDocumentContentProvider r).
#[export] Instance WorkspaceServerCapabilities_roundtrip : Roundtrip WorkspaceServerCapabilities_codec WorkspaceServerCapabilities_valid.
Proof. struct_law. Qed.
#[export] Instance WorkspaceServerCapabilities_object : WritesObject WorkspaceServerCapabilities_codec.
Proof. intros v. by eexists. Qed.

Record SemanticHighlightingServerCapabilities := mk_SemanticHighlightingServerCapabilities {
  SemanticHighlightingServerCapabilities_scopes : list (list bytes) }.
Definition SemanticHighlightingServerCapabilities_codec : codec SemanticHighlightingServerCapabilities :=
  struct_codec
    (field (lit "scopes") (vector_codec (vector_codec string_codec)))
    (fun x0 => mk_SemanticHighlightingServerCapabilities x0)
    (fun r => SemanticHighlightingServerCapabilities_scopes r).
Definition SemanticHighlightingServerCapabilities_valid (r : SemanticHighlightingServerCapabilities) : Prop :=
  Forall (Forall text_valid) (SemanticHighlightingServerCapabilities_scopes r).
#[export] Instance SemanticHighlightingServerCapabilities_roundtrip : Roundtrip SemanticHighlightingServerCapabilities_codec SemanticHighlightingServerCapabilities_valid.
Proof. struct_law. Qed.
#[export] Instance SemanticHighlightingServerCapabilities_object : WritesObject SemanticHighlightingServerCapabilities_codec.
Proof. intros v. by eexists. Qed.

Record SemanticTokensServerFull := mk_SemanticTokensServerFull {
  SemanticTokensServerFull_delta : bool }.
Definition SemanticTokensServerFull_codec : codec SemanticTokensServerFull :=
  struct_codec
    (field_init (lit "delta") bool_codec false)
    (fun x0 => mk_SemanticTokensServerFull x0)
    (fun r => SemanticTokensServerFull_delta r).
Definition SemanticTokensServerFull_valid (r : SemanticTokensServerFull) : Prop :=
  any_valid (SemanticTokensServerFull_delta r).
#[export] Instance SemanticTokensServerFull_roundtrip : Roundtrip SemanticTokensServerFull_codec SemanticTokensServerFull_valid.
Proof. struct_law. Qed.
#[export] Instance SemanticTokensServerFull_object : WritesObject SemanticTokensServerFull_codec.
Proof. intros v. by eexists. Qed.

Record SemanticTokensWithRegistrationOptions := mk_SemanticTokensWithRegistrationOptions {
  SemanticTokensWithRegistrationOptions_legend : SemanticTokensLegend;
  SemanticTokensWithRegistrationOptions_range : option (option bool * option Any);
  SemanticTokensWithRegistrationOptions_full : option (option bool * option SemanticTokensServerFull);
  SemanticTokensWithRegistrationOptions_documentSelector : option (list DocumentFilter);
  SemanticTokensWithRegistrationOptions_id : option bytes }.
Definition SemanticTokensWithRegistrationOptions_codec : codec SemanticTokensWithRegistrationOptions :=
  struct_codec
    (field (lit "legend") SemanticTokensLegend_codec
     ⊗ opt_field (lit "range") (tagged_pair_codec IsBool bool_codec any)
     ⊗ opt_field (lit "full") (tagged_pair_codec IsBool bool_codec SemanticTokensServerFull_codec)
     ⊗ opt_field (lit "documentSelector") (vector_codec DocumentFilter_codec)
     ⊗ opt_field (lit "id") string_codec)
    (fun '(x0, (x1, (x2, (x3, x4)))) => mk_SemanticTokensWithRegistrationOptions x0 x1 x2 x3 x4)
    (fun r => (SemanticTokensWithRegistrationOptions_legend r,
     (SemanticTokensWithRegistrationOptions_range r, (SemanticTokensWithRegistrationOptions_full r,
     (SemanticTokensWithRegistrationOptions_documentSelector r,
     SemanticTokensWithRegistrationOptions_id r))))).
Definition SemanticTokensWithRegistrationOptions_valid (r : SemanticTokensWithRegistrationOptions) : Prop :=
  legend_valid (SemanticTokensWithRegistrationOptions_legend r) /\
  opt_valid (one_of any_valid any_not_bool) (SemanticTokensWithRegistrationOptions_range r) /\
  opt_valid (one_of any_valid SemanticTokensServerFull_valid) (SemanticTokensWithRegistrationOptions_full r) /\
  opt_valid (Forall DocumentFilter_valid) (SemanticTokensWithRegistrationOptions_documentSelector r) /\
  opt_valid text_valid (SemanticTokensWithRegistrationOptions_id r).
#[export] Instance SemanticTokensWithRegistrationOptions_roundtrip : Roundtrip SemanticTokensWithRegistrationOptions_codec SemanticTokensWithRegistrationOptions_valid.
Proof. struct_law. Qed.
#[export] Instance SemanticTokensWithRegistrationOptions_object : WritesObject SemanticTokensWithRegistrationOptions_codec.
Proof. intros v. by eexists. Qed.

Record InlayHintOptions := mk_InlayHintOptions {
  InlayHintOptions_workDoneProgress : option bool; InlayHintOptions_resolveProvider : option bool }.
Definition InlayHintOptions_codec : codec InlayHintOptions :=
  struct_codec
    (opt_field (lit "workDoneProgress") bool_codec
     ⊗ opt_field (lit "resolveProvider") bool_codec)
    (fun '(x0, x1) => mk_InlayHintOptions x0 x1)
    (fun r => (InlayHintOptions_workDoneProgress r, InlayHintOptions_resolveProvider r)).
Definition InlayHintOptions_valid (r : InlayHintOptions) : Prop :=
  opt_valid any_valid (InlayHintOptions_workDoneProgress r) /\
  opt_valid any_valid (InlayHintOptions_resolveProvider r).
#[export] Instance InlayHintOptions_roundtrip : Roundtrip InlayHintOptions_codec InlayHintOptions_valid.
Proof. struct_law. Qed.
#[export] Instance InlayHintOptions_object : WritesObject InlayHintOptions_codec.
Proof. intros v. by eexists. Qed.

(** The kind of the synchronisation, or its options: an object is read as
    options, any other value as a kind. *)
Definition sync_codec : codec (option Z * option lsTextDocumentSyncOptions) :=
  mkCodec (read_sync lsTextDocumentSyncKind_codec lsTextDocumentSyncOptions_codec)
    (write_either lsTextDocumentSyncKind_codec lsTextDocumentSyncOptions_codec) (None, None).
Definition sync_valid : option Z * option lsTextDocumentSyncOptions -> Prop :=
  one_of int_valid lsTextDocumentSyncOptions_valid.
#[export] Instance sync_roundtrip : Roundtrip sync_codec sync_valid.
Proof.
  apply (either_roundtrip (fun j => match j with JObject _ => false | _ => true end)); [by intros []|apply _..| |].
  - by intros v _.
  - intros v _. by destruct (lsTextDocumentSyncOptions_object v) as [ms ->].
Qed.
#[export] Instance sync_not_null : NotNull sync_codec sync_valid.
Proof. intros [[a|] [b|]] H; by cbn in H. Qed.

Record lsServerCapabilities := mk_lsServerCapabilities {
  lsServerCapabilities_textDocumentSync : option (option Z * option lsTextDocumentSyncOptions);
  lsServerCapabilities_hoverProvider : option bool;
  lsServerCapabilities_completionProvider : option lsCompletionOptions;
  lsServerCapabilities_signatureHelpProvider : option lsSignatureHelpOptions;
  lsServerCapabilities_definitionProvider : option (option bool * option WorkDoneProgressOptions);
  lsServerCapabilities_typeDefinitionProvider : option (option bool * option StaticRegistrationOptions);
  lsServerCapabilities_implementationProvider : option (option bool * option StaticRegistrationOptions);
  lsServerCapabilities_referencesProvider : option (option bool * option WorkDoneProgressOptions);
  lsServerCapabilities_documentHighlightProvider : option (option bool * option WorkDoneProgressOptions);
  lsServerCapabilities_documentSymbolProvider : option (option bool * option WorkDoneProgressOptions);
  lsServerCapabilities_workspaceSymbolProvider : option (option bool * option WorkDoneProgressOptions);
  lsServerCapabilities_codeActionProvider : option (option bool * option CodeActionOptions);
  lsServerCapabilities_codeLensProvider : option CodeLensOptions;
  lsServerCapabilities_documentFormattingProvider : option (option bool * option WorkDoneProgressOptions);
  lsServerCapabilities_documentRangeFormattingProvider : option (option bool * option DocumentRangeFormattingOptions);
  lsServerCapabilities_documentOnTypeFormattingProvider : option lsDocumentOnTypeFormattingOptions;
  lsServerCapabilities_renameProvider : option (option bool * option RenameOptions);
  lsServerCapabilities_documentLinkProvider : option lsDocumentLinkOptions;
  lsServerCapabilities_executeCommandProvider : option lsExecuteCommandOptions;
  lsServerCapabilities_workspace : option WorkspaceServerCapabilities;
  lsServerCapabilities_semanticHighlighting : option SemanticHighlightingServerCapabilities;
  lsServerCapabilities_typeHierarchyProvider : option (option bool * option StaticRegistrationOptions);
  lsServerCapabilities_callHierarchyProvider : option (option bool * option StaticRegistrationOptions);
  lsServerCapabilities_selectionRangeProvider : option (option bool * option StaticRegistrationOptions);
  lsServerCapabilities_experimental : option Any;
  lsServerCapabilities_colorProvider : option (option bool * option WorkDoneProgressOptions);
  lsServerCapabilities_foldingRangeProvider : option (option bool * option WorkDoneProgressOptions);
  lsServerCapabilities_linkedEditingRangeProvider : option (option bool * option StaticRegistrationOptions);
  lsServerCapabilities_monikerProvider : option (option bool * option StaticRegistrationOptions);
  lsServerCapabilities_semanticTokensProvider : option SemanticTokensWithRegistrationOptions;
  lsServerCapabilities_inlayHintProvider : option (option bool * option InlayHintOptions);
  lsServerCapabilities_diagnosticProvider : option DiagnosticOptions;
  lsServerCapabilities_inlineValueProvider : option (option bool * option InlineValueOptions);
  lsServerCapabilities_inlineCompletionProvider : option (option bool * option InlineCompletionOptions) }.
Definition lsServerCapabilities_codec : codec lsServerCapabilities :=
  struct_codec
    (opt_field (lit "textDocumentSync") sync_codec
     ⊗ opt_field (lit "hoverProvider") bool_codec
     ⊗ opt_field (lit "completionProvider") lsCompletionOptions_codec
     ⊗ opt_field (lit "signatureHelpProvider") lsSignatureHelpOptions_codec
     ⊗ opt_field (lit "definitionProvider") (tagged_pair_codec IsBool bool_codec WorkDoneProgressOptions_codec)
     ⊗ opt_field (lit "typeDefinitionProvider") (tagged_pair_codec IsBool bool_codec StaticRegistrationOptions_codec)
     ⊗ opt_field (lit "implementationProvider") (tagged_pair_codec IsBool bool_codec StaticRegistrationOptions_codec)
     ⊗ opt_field (lit "referencesProvider") (tagged_pair_codec IsBool bool_codec WorkDoneProgressOptions_codec)
     ⊗ opt_field (lit "documentHighlightProvider") (tagged_pair_codec IsBool bool_codec WorkDoneProgressOptions_codec)
     ⊗ opt_field (lit "documentSymbolProvider") (tagged_pair_codec IsBool bool_codec WorkDoneProgressOptions_codec)
     ⊗ opt_field (lit "workspaceSymbolProvider") (tagged_pair_codec IsBool bool_codec WorkDoneProgressOptions_codec)
     ⊗ opt_field (lit "codeActionProvider") (tagged_pair_codec IsBool bool_codec CodeActionOptions_codec)
     ⊗ opt_field (lit "codeLensProvider") CodeLensOptions_codec
     ⊗ opt_field (lit "documentFormattingProvider") (tagged_pair_codec IsBool bool_codec WorkDoneProgressOptions_codec)
     ⊗ opt_field (lit "documentRangeFormattingProvider") (tagged_pair_codec IsBool bool_codec DocumentRangeFormattingOptions_codec)
     ⊗ opt_field (lit "documentOnTypeFormattingProvider") lsDocumentOnTypeFormattingOptions_codec
     ⊗ opt_field (lit "renameProvider") (tagged_pair_codec IsBool bool_codec RenameOptions_codec)
     ⊗ opt_field (lit "documentLinkProvider") lsDocumentLinkOptions_codec
     ⊗ opt_field (lit "executeCommandProvider") lsExecuteCommandOptions_codec
     ⊗ opt_field (lit "workspace") WorkspaceServerCapabilities_codec
     ⊗ opt_field (lit "semanticHighlighting") SemanticHighlightingServerCapabilities_codec
     ⊗ opt_field (lit "typeHierarchyProvider") (tagged_pair_codec IsBool bool_codec StaticRegistrationOptions_codec)
     ⊗ opt_field (lit "callHierarchyProvider") (tagged_pair_codec IsBool bool_codec StaticRegistrationOptions_codec)
     ⊗ opt_field (lit "selectionRangeProvider") (tagged_pair_codec IsBool bool_codec StaticRegistrationOptions_codec)
     ⊗ opt_field (lit "experimental") any
     ⊗ opt_field (lit "colorProvider") (tagged_pair_codec IsBool bool_codec WorkDoneProgressOptions_codec)
     ⊗ opt_field (lit "foldingRangeProvider") (tagged_pair_codec IsBool bool_codec WorkDoneProgressOptions_codec)
     ⊗ opt_field (lit "linkedEditingRangeProvider") (tagged_pair_codec IsBool bool_codec StaticRegistrationOptions_codec)
     ⊗ opt_field (lit "monikerProvider") (tagged_pair_codec IsBool bool_codec StaticRegistrationOptions_codec)
     ⊗ opt_field (lit "semanticTokensProvider") SemanticTokensWithRegistrationOptions_codec
     ⊗ opt_field (lit "inlayHintProvider") (tagged_pair_codec IsBool bool_codec InlayHintOptions_codec)
     ⊗ opt_field (lit "diagnosticProvider") DiagnosticOptions_codec
     ⊗ opt_field (lit "inlineValueProvider") (tagged_pair_codec IsBool bool_codec InlineValueOptions_codec)
     ⊗ opt_field (lit "inlineCompletionProvider") (tagged_pair_codec IsBool bool_codec InlineCompletionOptions_codec))
    (fun '(x0, (x1, (x2, (x3, (x4, (x5, (x6, (x7, (x8, (x9, (x10, (x11, (x12, (x13, (x14, (x15, (x16, (x17,
     (x18, (x19, (x20, (x21, (x22, (x23, (x24, (x25, (x26, (x27, (x28, (x29, (x30, (x31, (x32,
     x33))))))))))))))))))))))))))))))))) => mk_lsServerCapabilities x0 x1 x2 x3 x4 x5 x6 x7 x8 x9 x10 x11
     x12 x13 x14 x15 x16 x17 x18 x19 x20 x21 x22 x23 x24 x25 x26 x27 x28 x29 x30 x31 x32 x33)
    (fun r => (lsServerCapabilities_textDocumentSync r, (lsServerCapabilities_hoverProvider r,
     (lsServerCapabilities_completionProvider r, (lsServerCapabilities_signatureHelpProvider r,
     (lsServerCapabilities_definitionProvider r, (lsServerCapabilities_typeDefinitionProvider r,
     (lsServerCapabilities_implementationProvider r, (lsServerCapabilities_referencesProvider r,
     (lsServerCapabilities_documentHighlightProvider r, (lsServerCapabilities_documentSymbolProvider r,
     (lsServerCapabilities_workspaceSymbolProvider r, (lsServerCapabilities_codeActionProvider r,
     (lsServerCapabilities_codeLensProvider r, (lsServerCapabilities_documentFormattingProvider r,
     (lsServerCapabilities_documentRangeFormattingProvider r,
     (lsServerCapabilities_documentOnTypeFormattingProvider r, (lsServerCapabilities_renameProvider r,
     (lsServerCapabilities_documentLinkProvider r, (lsServerCapabilities_executeCommandProvider r,
     (lsServerCapabilities_workspace r, (lsServerCapabilities_semanticHighlighting r,
     (lsServerCapabilities_typeHierarchyProvider r, (lsServerCapabilities_callHierarchyProvider r,
     (lsServerCapabilities_selectionRangeProvider r, (lsServerCapabilities_experimental r,
     (lsServerCapabilities_colorProvider r, (lsServerCapabilities_foldingRangeProvider r,
     (lsServerCapabilities_linkedEditingRangeProvider r, (lsServerCapabilities_monikerProvider r,
     (lsServerCapabilities_semanticTokensProvider r, (lsServerCapabilities_inlayHintProvider r,
     (lsServerCapabilities_diagnosticProvider r, (lsServerCapabilities_inlineValueProvider r,
     lsServerCapabilities_inlineCompletionProvider r)))))))))))))))))))))))))))))))))).
Definition lsServerCapabilities_valid (r : lsServerCapabilities) : Prop :=
  opt_valid sync_valid (lsServerCapabilities_textDocumentSync r) /\
  opt_valid any_valid (lsServerCapabilities_hoverProvider r) /\
  opt_valid lsCompletionOptions_valid (lsServerCapabilities_completionProvider r) /\
  opt_valid lsSignatureHelpOptions_valid (lsServerCapabilities_signatureHelpProvider r) /\
  opt_valid (one_of any_valid WorkDoneProgressOptions_valid) (lsServerCapabilities_definitionProvider r) /\
  opt_valid (one_of any_valid StaticRegistrationOptions_valid) (lsServerCapabilities_typeDefinitionProvider r) /\
  opt_valid (one_of any_valid StaticRegistrationOptions_valid) (lsServerCapabilities_implementationProvider r) /\
  opt_valid (one_of any_valid WorkDoneProgressOptions_valid) (lsServerCapabilities_referencesProvider r) /\
  opt_valid (one_of any_valid WorkDoneProgressOptions_valid) (lsServerCapabilities_documentHighlightProvider r) /\
  opt_valid (one_of any_valid WorkDoneProgressOptions_valid) (lsServerCapabilities_documentSymbolProvider r) /\
  opt_valid (one_of any_valid WorkDoneProgressOptions_valid) (lsServerCapabilities_workspaceSymbolProvider r) /\
  opt_valid (one_of any_valid CodeActionOptions_valid) (lsServerCapabilities_codeActionProvider r) /\
  opt_valid CodeLensOptions_valid (lsServerCapabilities_codeLensProvider r) /\
  opt_valid (one_of any_valid WorkDoneProgressOptions_valid) (lsServerCapabilities_documentFormattingProvider r) /\
  opt_valid (one_of any_valid DocumentRangeFormattingOptions_valid) (lsServerCapabilities_documentRangeFormattingProvider r) /\
  opt_valid lsDocumentOnTypeFormattingOptions_valid (lsServerCapabilities_documentOnTypeFormattingProvider r) /\
  opt_valid (one_of any_valid RenameOptions_valid) (lsServerCapabilities_renameProvider r) /\
  opt_valid lsDocumentLinkOptions_valid (lsServerCapabilities_documentLinkProvider r) /\
  opt_valid lsExecuteCommandOptions_valid (lsServerCapabilities_executeCommandProvider r) /\
  opt_valid WorkspaceServerCapabilities_valid (lsServerCapabilities_workspace r) /\
  opt_valid SemanticHighlightingServerCapabilities_valid (lsServerCapabilities_semanticHighlighting r) /\
  opt_valid (one_of any_valid StaticRegistrationOptions_valid) (lsServerCapabilities_typeHierarchyProvider r) /\
  opt_valid (one_of any_valid StaticRegistrationOptions_valid) (lsServerCapabilities_callHierarchyProvider r) /\
  opt_valid (one_of any_valid StaticRegistrationOptions_valid) (lsServerCapabilities_selectionRangeProvider r) /\
  opt_valid any_ok (lsServerCapabilities_experimental r) /\
  opt_valid (one_of any_valid WorkDoneProgressOptions_valid) (lsServerCapabilities_colorProvider r) /\
  opt_valid (one_of any_valid WorkDoneProgressOptions_valid) (lsServerCapabilities_foldingRangeProvider r) /\
  opt_valid (one_of any_valid StaticRegistrationOptions_valid) (lsServerCapabilities_linkedEditingRangeProvider r) /\
  opt_valid (one_of any_valid StaticRegistrationOptions_valid) (lsServerCapabilities_monikerProvider r) /\
  opt_valid SemanticTokensWithRegistrationOptions_valid (lsServerCapabilities_semanticTokensProvider r) /\
  opt_valid (one_of any_valid InlayHintOptions_valid) (lsServerCapabilities_inlayHintProvider r) /\
  opt_valid DiagnosticOptions_valid (lsServerCapabilities_diagnosticProvider r) /\
  opt_valid (one_of any_valid InlineValueOptions_valid) (lsServerCapabilities_inlineValueProvider r) /\
  opt_valid (one_of any_valid InlineCompletionOptions_valid) (lsServerCapabilities_inlineCompletionProvider r).
#[export] Instance lsServerCapabilities_roundtrip : Roundtrip lsServerCapabilities_codec lsServerCapabilities_valid.
Proof. struct_law. Qed.
#[export] Instance lsServerCapabilities_object : WritesObject lsServerCapabilities_codec.
Proof. intros v. by eexists. Qed.

(** *** The handshake (general/InitializeParams.h, initialize.h) *)

Record ClientInfo := mk_ClientInfo {
  ClientInfo_name : bytes; ClientInfo_version : option bytes }.
Definition ClientInfo_codec : codec ClientInfo :=
  struct_codec
    (field (lit "name") string_codec
     ⊗ opt_field (lit "version") string_codec)
    (fun '(x0, x1) => mk_ClientInfo x0 x1)
    (fun r => (ClientInfo_name r, ClientInfo_version r)).
Definition ClientInfo_valid (r : ClientInfo) : Prop :=
  text_valid (ClientInfo_name r) /\
  opt_valid text_valid (ClientInfo_version r).
#[export] Instance ClientInfo_roundtrip : Roundtrip ClientInfo_codec ClientInfo_valid.
Proof. struct_law. Qed.
#[export] Instance ClientInfo_object : WritesObject ClientInfo_codec.
Proof. intros v. by eexists. Qed.

Record lsInitializeParams := mk_lsInitializeParams {
  lsInitializeParams_processId : option Z; lsInitializeParams_rootPath : option bytes;
  lsInitializeParams_rootUri : option lsDocumentUri; lsInitializeParams_initializationOptions : option Any;
  lsInitializeParams_capabilities : lsClientCapabilities; lsInitializeParams_clientName : option bytes;
  lsInitializeParams_clientInfo : option ClientInfo; lsInitializeParams_trace : lsTrace;
  lsInitializeParams_workspaceFolders : option (list WorkspaceFolder);
  lsInitializeParams_locale : option bytes;
  lsInitializeParams_workDoneToken : option (option bytes * option Z) }.
Definition lsInitializeParams_codec : codec lsInitializeParams :=
  struct_codec
    (opt_field (lit "processId") int_codec
     ⊗ opt_field (lit "rootPath") string_codec
     ⊗ opt_field (lit "rootUri") lsDocumentUri_codec
     ⊗ opt_field (lit "initializationOptions") any
     ⊗ field (lit "capabilities") lsClientCapabilities_codec
     ⊗ opt_field (lit "clientName") string_codec
     ⊗ opt_field (lit "clientInfo") ClientInfo_codec
     ⊗ field (lit "trace") lsTrace_codec
     ⊗ opt_field (lit "workspaceFolders") (vector_codec WorkspaceFolder_codec)
     ⊗ opt_field (lit "locale") string_codec
     ⊗ opt_field (lit "workDoneToken") (tagged_pair_codec IsString string_codec int_codec))
    (fun '(x0, (x1, (x2, (x3, (x4, (x5, (x6, (x7, (x8, (x9, x10)))))))))) => mk_lsInitializeParams x0 x1 x2
     x3 x4 x5 x6 x7 x8 x9 x10)
    (fun r => (lsInitializeParams_processId r, (lsInitializeParams_rootPath r,
     (lsInitializeParams_rootUri r, (lsInitializeParams_initializationOptions r,
     (lsInitializeParams_capabilities r, (lsInitializeParams_clientName r, (lsInitializeParams_clientInfo r,
     (lsInitializeParams_trace r, (lsInitializeParams_workspaceFolders r, (lsInitializeParams_locale r,
     lsInitializeParams_workDoneToken r))))))))))).
Definition lsInitializeParams_valid (r : lsInitializeParams) : Prop :=
  opt_valid int_valid (lsInitializeParams_processId r) /\
  opt_valid text_valid (lsInitializeParams_rootPath r) /\
  opt_valid uri_valid (lsInitializeParams_rootUri r) /\
  opt_valid any_ok (lsInitializeParams_initializationOptions r) /\
  lsClientCapabilities_valid (lsInitializeParams_capabilities r) /\
  opt_valid text_valid (lsInitializeParams_clientName r) /\
  opt_valid ClientInfo_valid (lsInitializeParams_clientInfo r) /\
  any_valid (lsInitializeParams_trace r) /\
  opt_valid (Forall WorkspaceFolder_valid) (lsInitializeParams_workspaceFolders r) /\
  opt_valid text_valid (lsInitializeParams_locale r) /\
  opt_valid (one_of text_valid int_valid) (lsInitializeParams_workDoneToken r).
#[export] Instance lsInitializeParams_roundtrip : Roundtrip lsInitializeParams_codec lsInitializeParams_valid.
Proof. struct_law. Qed.
#[export] Instance lsInitializeParams_object : WritesObject lsInitializeParams_codec.
Proof. intros v. by eexists. Qed.

Record lsInitializeError := mk_lsInitializeError {
  lsInitializeError_retry : bool }.
Definition lsInitializeError_codec : codec lsInitializeError :=
  struct_codec
    (field (lit "retry") bool_codec)
    (fun x0 => mk_lsInitializeError x0)
    (fun r => lsInitializeError_retry r).
Definition lsInitializeError_valid (r : lsInitializeError) : Prop :=
  any_valid (lsInitializeError_retry r).
#[export] Instance lsInitializeError_roundtrip : Roundtrip lsInitializeError_codec lsInitializeError_valid.
Proof. struct_law. Qed.
#[export] Instance lsInitializeError_object : WritesObject lsInitializeError_codec.
Proof. intros v. by eexists. Qed.

Record InitializeResult := mk_InitializeResult {
  InitializeResult_capabilities : lsServerCapabilities }.
Definition InitializeResult_codec : codec InitializeResult :=
  struct_codec
    (field (lit "capabilities") lsServerCapabilities_codec)
    (fun x0 => mk_InitializeResult x0)
    (fun r => InitializeResult_capabilities r).
Definition InitializeResult_valid (r : InitializeResult) : Prop :=
  lsServerCapabilities_valid (InitializeResult_capabilities r).
#[export] Instance InitializeResult_roundtrip : Roundtrip InitializeResult_codec InitializeResult_valid.
Proof. struct_law. Qed.
#[export] Instance InitializeResult_object : WritesObject InitializeResult_codec.
Proof. intros v. by eexists. Qed.
End Handshake.
