(* ===== verification/ClientPreferences.v ===== *)
(** * What the client supports

    [ClientPreferences] (include/LibLsp/lsp/ClientPreferences.h): the questions
    a server asks about the capabilities of its client, as functions of the
    [lsClientCapabilities] of the [initialize] request.  The theorem reads the
    same answers off the JSON document of the request. *)
From S2P Require Import Prelude CppString Position Utils Uri Json Reflect RequestId Framing Message LspTypes Envelope.
From S2P Require Import PathMapping ProtocolData Capabilities.

(** ** The questions *)

(** [isDynamicRegistrationSupported] is a template over the capabilities that
    have a member [dynamicRegistration]. *)
Class DynamicRegistration (T : Type) := dynamicRegistration : T -> option bool.

#[export] Instance dyn_plain : DynamicRegistration DynamicRegistrationCapabilities :=
  DynamicRegistrationCapabilities_dynamicRegistration.
#[export] Instance dyn_symbol : DynamicRegistration SymbolCapabilities := SymbolCapabilities_dynamicRegistration.
#[export] Instance dyn_completion : DynamicRegistration CompletionCapabilities :=
  CompletionCapabilities_dynamicRegistration.
#[export] Instance dyn_hover : DynamicRegistration HoverCapabilities := HoverCapabilities_dynamicRegistration.
#[export] Instance dyn_signature : DynamicRegistration SignatureHelpCapabilities :=
  SignatureHelpCapabilities_dynamicRegistration.
#[export] Instance dyn_document_symbol : DynamicRegistration DocumentSymbolCapabilities :=
  DocumentSymbolCapabilities_dynamicRegistration.
#[export] Instance dyn_declaration : DynamicRegistration DeclarationCapabilities :=
  DeclarationCapabilities_dynamicRegistration.
#[export] Instance dyn_code_action : DynamicRegistration CodeActionCapabilities :=
  CodeActionCapabilities_dynamicRegistration.
#[export] Instance dyn_rename : DynamicRegistration RenameCapabilities := RenameCapabilities_dynamicRegistration.
#[export] Instance dyn_folding : DynamicRegistration FoldingRangeCapabilities :=
  FoldingRangeCapabilities_dynamicRegistration.
#[export] Instance dyn_inlay : DynamicRegistration InlayHintClientCapabilities :=
  InlayHintClientCapabilities_dynamicRegistration.
#[export] Instance dyn_range_formatting : DynamicRegistration DocumentRangeFormattingClientCapabilities :=
  DocumentRangeFormattingClientCapabilities_dynamicRegistration.
#[export] Instance dyn_code_lens : DynamicRegistration CodeLensClientCapabilities :=
  CodeLensClientCapabilities_dynamicRegistration.

Definition isDynamicRegistrationSupported {T} `{DynamicRegistration T} (capability : option T) : bool :=
  match capability with
  | Some c => match dynamicRegistration c with Some b => b | None => false end
  | None => false
  end.

Definition isTrue (value : option bool) : bool := match value with Some b => b | None => false end.

Fixpoint contains (v : list bytes) (target : bytes) : bool :=
  match v with
  | [] => false
  | it :: v' => if bool_decide (it = target) then true else contains v' target
  end.

(** The loop over [valueSet] *)
Fixpoint any_kind (kind : bytes) (valueSet : list bytes) : bool :=
  match valueSet with
  | [] => false
  | k :: rest => if StartsWith kind k then true else any_kind kind rest
  end.

Definition isTagSupported (tagSupport : option (option bool * option DiagnosticsTagSupport)) : bool :=
  match tagSupport with
  | Some (first, second) =>
      match first with
      | Some b => b
      | None =>
          match second with
          | Some s => negb (bool_decide (DiagnosticsTagSupport_valueSet s = []))
          | None => false
          end
      end
  | None => false
  end.

Section Preferences.
Context {rapidjson : RapidJson}.

Record ClientPreferences := mkPreferences {
  workspace : option lsWorkspaceClientCapabilites;   (** a [shared_ptr], null without *)
  textDocument : lsTextDocumentClientCapabilities;
  v3supported : bool
}.

(** The constructor: without [textDocument] the member keeps its default. *)
Definition make_preferences (capabilities : lsClientCapabilities) : ClientPreferences :=
  mkPreferences (lsClientCapabilities_workspace capabilities)
    (match lsClientCapabilities_textDocument capabilities with
     | Some t => t
     | None => rinit lsTextDocumentClientCapabilities_codec
     end)
    (match lsClientCapabilities_textDocument capabilities with Some _ => true | None => false end).

(** [v3supported && isDynamicRegistrationSupported(textDocument.m)], and the
    questions on the workspace with and without [v3supported] *)
Definition registered {T} `{DynamicRegistration T} (m : lsTextDocumentClientCapabilities -> option T)
    (p : ClientPreferences) : bool :=
  v3supported p && isDynamicRegistrationSupported (m (textDocument p)).
Definition in_workspace (q : lsWorkspaceClientCapabilites -> bool) (p : ClientPreferences) : bool :=
  match workspace p with Some w => q w | None => false end.

Definition isV3Supported (p : ClientPreferences) : bool := v3supported p.
Definition isSignatureHelpSupported (p : ClientPreferences) : bool :=
  v3supported p && match lsTextDocumentClientCapabilities_signatureHelp (textDocument p) with
                   | Some _ => true | None => false end.
Definition isWorkspaceDidChangeConfigurationSupported :=
  in_workspace (fun w => isDynamicRegistrationSupported (lsWorkspaceClientCapabilites_didChangeConfiguration w)).
Definition isWorkspaceFoldersSupported :=
  in_workspace (fun w => isTrue (lsWorkspaceClientCapabilites_workspaceFolders w)).
Definition isCompletionDynamicRegistered := registered lsTextDocumentClientCapabilities_completion.
Definition isCompletionSnippetsSupported (p : ClientPreferences) : bool :=
  if negb (v3supported p) then false else
  match lsTextDocumentClientCapabilities_completion (textDocument p) with
  | None => false
  | Some completion =>
      match CompletionCapabilities_completionItem completion with
      | Some item => isTrue (CompletionItemCapabilities_snippetSupport item)
      | None => false
      end
  end.
Definition isFormattingDynamicRegistrationSupported := registered lsTextDocumentClientCapabilities_formatting.
Definition isRangeFormattingDynamicRegistrationSupported :=
  registered lsTextDocumentClientCapabilities_rangeFormatting.
Definition isOnTypeFormattingDynamicRegistrationSupported :=
  registered lsTextDocumentClientCapabilities_onTypeFormatting.
Definition isCodeLensDynamicRegistrationSupported := registered lsTextDocumentClientCapabilities_codeLens.
Definition isSignatureHelpDynamicRegistrationSupported :=
  registered lsTextDocumentClientCapabilities_signatureHelp.
Definition isRenameDynamicRegistrationSupported := registered lsTextDocumentClientCapabilities_rename.
Definition isExecuteCommandDynamicRegistrationSupported (p : ClientPreferences) : bool :=
  v3supported p &&
  in_workspace (fun w => isDynamicRegistrationSupported (lsWorkspaceClientCapabilites_executeCommand w)) p.
Definition isWorkspaceSymbolDynamicRegistered (p : ClientPreferences) : bool :=
  v3supported p &&
  in_workspace (fun w => isDynamicRegistrationSupported (lsWorkspaceClientCapabilites_symbol w)) p.
Definition isWorkspaceChangeWatchedFilesDynamicRegistered (p : ClientPreferences) : bool :=
  v3supported p &&
  in_workspace (fun w => isDynamicRegistrationSupported (lsWorkspaceClientCapabilites_didChangeWatchedFiles w)) p.
Definition isDocumentSymbolDynamicRegistered := registered lsTextDocumentClientCapabilities_documentSymbol.
Definition isCodeActionDynamicRegistered := registered lsTextDocumentClientCapabilities_codeAction.
Definition isDefinitionDynamicRegistered := registered lsTextDocumentClientCapabilities_definition.
Definition isTypeDefinitionDynamicRegistered := registered lsTextDocumentClientCapabilities_typeDefinition.
Definition isHoverDynamicRegistered := registered lsTextDocumentClientCapabilities_hover.
Definition isReferencesDynamicRegistered := registered lsTextDocumentClientCapabilities_references.
Definition isDocumentHighlightDynamicRegistered :=
  registered lsTextDocumentClientCapabilities_documentHighlight.
Definition isDocumentLinkDynamicRegistered := registered lsTextDocumentClientCapabilities_documentLink.
Definition isFoldgingRangeDynamicRegistered := registered lsTextDocumentClientCapabilities_foldingRange.
Definition isInlayHintDynamicRegistered := registered lsTextDocumentClientCapabilities_inlayHint.
Definition isImplementationDynamicRegistered := registered lsTextDocumentClientCapabilities_implementation.
Definition isSelectionRangeDynamicRegistered := registered lsTextDocumentClientCapabilities_selectionRange.
Definition isCallHierarchyDynamicRegistered := registered lsTextDocumentClientCapabilities_callHierarchy.
Definition isWillSaveRegistered (p : ClientPreferences) : bool :=
  v3supported p && isTrue (SynchronizationCapabilities_willSave
                             (lsTextDocumentClientCapabilities_synchronization (textDocument p))).
Definition isWillSaveWaitUntilRegistered (p : ClientPreferences) : bool :=
  v3supported p && isTrue (SynchronizationCapabilities_willSaveWaitUntil
                             (lsTextDocumentClientCapabilities_synchronization (textDocument p))).
Definition isWorkspaceApplyEditSupported :=
  in_workspace (fun w => isTrue (lsWorkspaceClientCapabilites_applyEdit w)).
Definition isSupportsCompletionDocumentationMarkdown (p : ClientPreferences) : bool :=
  if negb (v3supported p) then false else
  match lsTextDocumentClientCapabilities_completion (textDocument p) with
  | None => false
  | Some completion =>
      match CompletionCapabilities_completionItem completion with
      | Some item =>
          match CompletionItemCapabilities_documentationFormat item with
          | Some data => contains data (lit "markdown")
          | None => false
          end
      | None => false
      end
  end.
Definition isWorkspaceEditResourceChangesSupported (p : ClientPreferences) : bool :=
  match workspace p with
  | None => false
  | Some w => match lsWorkspaceClientCapabilites_workspaceEdit w with
              | Some e => isTrue (WorkspaceEditCapabilities_resourceChanges e)
              | None => false
              end
  end.
Definition isResourceOperationSupported (p : ClientPreferences) : bool :=
  match workspace p with
  | None => false
  | Some w =>
      match lsWorkspaceClientCapabilites_workspaceEdit w with
      | None => false
      | Some it =>
          match WorkspaceEditCapabilities_resourceOperations it with
          | None => false
          | Some ops => contains ops (lit "create") && contains ops (lit "rename") && contains ops (lit "delete")
          end
      end
  end.
Definition isHierarchicalDocumentSymbolSupported (p : ClientPreferences) : bool :=
  if negb (v3supported p) then false else
  match lsTextDocumentClientCapabilities_documentSymbol (textDocument p) with
  | None => false
  | Some d => isTrue (DocumentSymbolCapabilities_hierarchicalDocumentSymbolSupport d)
  end.
Definition isSemanticHighlightingSupported (p : ClientPreferences) : bool :=
  if negb (v3supported p) then false else
  match lsTextDocumentClientCapabilities_semanticHighlightingCapabilities (textDocument p) with
  | None => false
  | Some s => isTrue (SemanticHighlightingCapabilities_semanticHighlighting s)
  end.
Definition isSupportedCodeActionKind (kind : bytes) (p : ClientPreferences) : bool :=
  if negb (v3supported p) then false else
  match lsTextDocumentClientCapabilities_codeAction (textDocument p) with
  | None => false
  | Some codeAction =>
      match CodeActionCapabilities_codeActionLiteralSupport codeAction with
      | Some l =>
          match CodeActionLiteralSupportCapabilities_codeActionKind l with
          | Some k => match CodeActionKindCapabilities_valueSet k with
                      | Some valueSet => any_kind kind valueSet
                      | None => false
                      end
          | None => false
          end
      | None => false
      end
  end.
(** The answer of [isTagSupported] is dropped. *)
Definition isDiagnosticTagSupported (p : ClientPreferences) : bool :=
  if negb (v3supported p) then false else
  match lsTextDocumentClientCapabilities_publishDiagnostics (textDocument p) with
  | None => false
  | Some publishDiagnostics =>
      match PublishDiagnosticsClientCapabilities_tagSupport publishDiagnostics with
      | Some _ => let _ := isTagSupported (PublishDiagnosticsClientCapabilities_tagSupport publishDiagnostics) in false
      | None => false
      end
  end.
End Preferences.

(** ** The document of the capabilities *)

(** A member that is there and is not null, and a path of them *)
Definition setting (j : json) (name : bytes) : option json :=
  match member j name with Some c => if IsNull c then None else Some c | None => None end.
Fixpoint settings (j : json) (path : list bytes) : option json :=
  match path with
  | [] => Some j
  | name :: path' => match setting j name with Some c => settings c path' | None => None end
  end.

(** What a document says at the end of a path; [false] where the path ends
    early *)
Definition answer (a : json -> bool) (j : json) (path : list bytes) : bool :=
  match settings j path with Some k => a k | None => false end.
Definition given : json -> list bytes -> bool := answer (fun _ => true).
Definition switched_on : json -> list bytes -> bool := answer GetBool.
Definition elements (j : json) : list bytes := match j with JArray es => map GetString es | _ => [] end.

(** ** Reading members *)

Definition reads {T} (c : codec T) (j : json) (v : T) : Prop := rread c j (rinit c) = inr v.
Definition optional_reads {T} (c : codec T) (j : json) (name : bytes) (v : option T) : Prop :=
  match setting j name with
  | Some k => exists x, v = Some x /\ reads c k x
  | None => v = None
  end.

Lemma struct_reads {T R} (f : fields T) (to : T -> R) (from : R -> T) j r :
  from (to (f_init f)) = f_init f -> reads (struct_codec f to from) j r ->
  exists t, f_read f j (f_init f) = inr t /\ to t = r.
Proof.
  unfold reads. cbn. intros ->. destruct (f_read f j (f_init f)) as [e|t]; [done|].
  intros [= <-]. by exists t.
Qed.

Lemma pair_reads {A B} (f : fields A) (g : fields B) j v :
  f_read (f ⊗ g) j (f_init (f ⊗ g)) = inr v ->
  exists a b, v = (a, b) /\ f_read f j (f_init f) = inr a /\ f_read g j (f_init g) = inr b.
Proof.
  cbn. destruct (f_read f j (f_init f)) as [e|a]; [done|]. cbn.
  destruct (f_read g j (f_init g)) as [e|b]; [done|]. intros [= <-]. by exists a, b.
Qed.

Lemma opt_field_reads {T} name (c : codec T) j v :
  f_read (opt_field name c) j (f_init (opt_field name c)) = inr v -> optional_reads c j name v.
Proof.
  unfold optional_reads, setting, member. cbn. destruct j; try by intros [= <-]. cbn.
  destruct (FindMember name members) as [k|]; [|by intros [= <-]].
  destruct (IsNull k); [by intros [= <-]|]. unfold reads.
  destruct (rread c k (rinit c)) as [e|x]; [done|]. intros [= <-]. by exists x.
Qed.

(** A plain member; null is left to the reader of its type. *)
Lemma field_reads {T} name (c : codec T) j v :
  f_read (field name c) j (f_init (field name c)) = inr v ->
  match member j name with Some k => reads c k v | None => v = rinit c end.
Proof.
  unfold member. cbn. destruct j; try by intros [= <-]. cbn.
  destruct (FindMember name members) as [k|]; [done|by intros [= <-]].
Qed.

Lemma bool_reads k b : reads bool_codec k b -> k = JBool b.
Proof. destruct k; try done. by intros [= <-]. Qed.

Lemma texts_reads k l : reads (vector_codec string_codec) k l -> exists es, k = JArray es /\ l = map GetString es.
Proof.
  destruct k as [| | | | |es|]; try done. intros H. exists es. split; [done|].
  assert (Hgen : forall l acc, iter_elems (fun e values => match rread string_codec e (rinit string_codec) with
      | inl x => inl x | inr x => inr (values ++ [x]) end) es acc = inr l -> l = acc ++ map GetString es).
  { clear H. induction es as [|e es IH]; intros l0 acc; cbn; [intros [= <-]; by rewrite app_nil_r|].
    destruct (IsString e); cbn; [|done]. intros ->%IH. by rewrite <- app_assoc. }
  by apply (Hgen l []) in H.
Qed.

(** All members of a struct that was read *)
Ltac struct_members H :=
  let t := fresh "t" in
  eapply struct_reads in H as (t & H & <-); [|reflexivity];
  repeat (let a := fresh "a" in let b := fresh "b" in let Ha := fresh "Ha" in
          apply pair_reads in H as (a & b & -> & Ha & H);
          first [apply opt_field_reads in Ha | apply field_reads in Ha]);
  first [apply opt_field_reads in H | apply field_reads in H].

(** A question about a member of a member *)
Lemma optional_answer {T} (c : codec T) j name (v : option T) (q : T -> bool) a path :
  optional_reads c j name v -> (forall k x, reads c k x -> q x = answer a k path) ->
  match v with Some x => q x | None => false end = answer a j (name :: path).
Proof.
  unfold optional_reads, answer. cbn [settings]. intros Hv Hq. destruct (setting j name) as [k|].
  - destruct Hv as (x & -> & Hx). by apply Hq.
  - by subst.
Qed.

Lemma switch_answer j name v : optional_reads bool_codec j name v -> isTrue v = switched_on j [name].
Proof. intros H. eapply (optional_answer _ _ _ _ id); [done|]. by intros k b ->%bool_reads. Qed.

Lemma texts_answer j name v (q : list bytes -> bool) :
  optional_reads (vector_codec string_codec) j name v ->
  match v with Some l => q l | None => false end = answer (fun k => q (elements k)) j [name].
Proof. intros H. eapply optional_answer; [done|]. by intros k l (es & -> & ->)%texts_reads. Qed.

(** Every capability with the member reads it under its name. *)
Class RegistrationReads {T} `{DynamicRegistration T} (c : codec T) :=
  registration_reads : forall k x, reads c k x ->
    optional_reads bool_codec k (lit "dynamicRegistration") (dynamicRegistration x).

Ltac registration := let H := fresh in intros k x H; struct_members H; assumption.

Section Members.
Context {rapidjson : RapidJson}.
#[export] Instance plain_reads : RegistrationReads DynamicRegistrationCapabilities_codec.
Proof. registration. Qed.
#[export] Instance symbol_reads : RegistrationReads SymbolCapabilities_codec.
Proof. registration. Qed.
#[export] Instance completion_reads : RegistrationReads CompletionCapabilities_codec.
Proof. registration. Qed.
#[export] Instance hover_reads : RegistrationReads HoverCapabilities_codec.
Proof. registration. Qed.
#[export] Instance signature_reads : RegistrationReads SignatureHelpCapabilities_codec.
Proof. registration. Qed.
#[export] Instance document_symbol_reads : RegistrationReads DocumentSymbolCapabilities_codec.
Proof. registration. Qed.
#[export] Instance declaration_reads : RegistrationReads DeclarationCapabilities_codec.
Proof. registration. Qed.
#[export] Instance code_action_reads : RegistrationReads CodeActionCapabilities_codec.
Proof. registration. Qed.
#[export] Instance rename_reads : RegistrationReads RenameCapabilities_codec.
Proof. registration. Qed.
#[export] Instance folding_reads : RegistrationReads FoldingRangeCapabilities_codec.
Proof. registration. Qed.
#[export] Instance inlay_reads : RegistrationReads InlayHintClientCapabilities_codec.
Proof. registration. Qed.
#[export] Instance range_formatting_reads : RegistrationReads DocumentRangeFormattingClientCapabilities_codec.
Proof. registration. Qed.
#[export] Instance code_lens_reads : RegistrationReads CodeLensClientCapabilities_codec.
Proof. registration. Qed.

Lemma registration_answer {T} `{DynamicRegistration T} (c : codec T) `{!RegistrationReads c} j name v :
  optional_reads c j name v ->
  isDynamicRegistrationSupported v = switched_on j [name; lit "dynamicRegistration"].
Proof.
  intros Hv. eapply optional_answer; [done|]. intros k x Hx%registration_reads. by apply switch_answer.
Qed.

(** The members of the text documents that are asked for *)
Lemma textDocument_members j t :
  reads lsTextDocumentClientCapabilities_codec j t ->
  match member j (lit "synchronization") with
  | Some k => reads SynchronizationCapabilities_codec k (lsTextDocumentClientCapabilities_synchronization t)
  | None => lsTextDocumentClientCapabilities_synchronization t = rinit SynchronizationCapabilities_codec
  end /\
  optional_reads CompletionCapabilities_codec j (lit "completion")
    (lsTextDocumentClientCapabilities_completion t) /\
  optional_reads HoverCapabilities_codec j (lit "hover")
    (lsTextDocumentClientCapabilities_hover t) /\
  optional_reads SignatureHelpCapabilities_codec j (lit "signatureHelp")
    (lsTextDocumentClientCapabilities_signatureHelp t) /\
  optional_reads DynamicRegistrationCapabilities_codec j (lit "references")
    (lsTextDocumentClientCapabilities_references t) /\
  optional_reads DynamicRegistrationCapabilities_codec j (lit "documentHighlight")
    (lsTextDocumentClientCapabilities_documentHighlight t) /\
  optional_reads DocumentSymbolCapabilities_codec j (lit "documentSymbol")
    (lsTextDocumentClientCapabilities_documentSymbol t) /\
  optional_reads DynamicRegistrationCapabilities_codec j (lit "formatting")
    (lsTextDocumentClientCapabilities_formatting t) /\
  optional_reads DocumentRangeFormattingClientCapabilities_codec j (lit "rangeFormatting")
    (lsTextDocumentClientCapabilities_rangeFormatting t) /\
  optional_reads DynamicRegistrationCapabilities_codec j (lit "onTypeFormatting")
    (lsTextDocumentClientCapabilities_onTypeFormatting t) /\
  optional_reads DeclarationCapabilities_codec j (lit "definition")
    (lsTextDocumentClientCapabilities_definition t) /\
  optional_reads DeclarationCapabilities_codec j (lit "typeDefinition")
    (lsTextDocumentClientCapabilities_typeDefinition t) /\
  optional_reads DeclarationCapabilities_codec j (lit "implementation")
    (lsTextDocumentClientCapabilities_implementation t) /\
  optional_reads CodeActionCapabilities_codec j (lit "codeAction")
    (lsTextDocumentClientCapabilities_codeAction t) /\
  optional_reads CodeLensClientCapabilities_codec j (lit "codeLens")
    (lsTextDocumentClientCapabilities_codeLens t) /\
  optional_reads DynamicRegistrationCapabilities_codec j (lit "documentLink")
    (lsTextDocumentClientCapabilities_documentLink t) /\
  optional_reads RenameCapabilities_codec j (lit "rename")
    (lsTextDocumentClientCapabilities_rename t) /\
  optional_reads FoldingRangeCapabilities_codec j (lit "foldingRange")
    (lsTextDocumentClientCapabilities_foldingRange t) /\
  optional_reads SemanticHighlightingCapabilities_codec j (lit "semanticHighlightingCapabilities")
    (lsTextDocumentClientCapabilities_semanticHighlightingCapabilities t) /\
  optional_reads DynamicRegistrationCapabilities_codec j (lit "callHierarchy")
    (lsTextDocumentClientCapabilities_callHierarchy t) /\
  optional_reads DynamicRegistrationCapabilities_codec j (lit "selectionRange")
    (lsTextDocumentClientCapabilities_selectionRange t) /\
  optional_reads InlayHintClientCapabilities_codec j (lit "inlayHint")
    (lsTextDocumentClientCapabilities_inlayHint t) /\
  optional_reads PublishDiagnosticsClientCapabilities_codec j (lit "publishDiagnostics")
    (lsTextDocumentClientCapabilities_publishDiagnostics t).
Proof. intros H. struct_members H. split_and!; assumption. Qed.

Ltac document_members H := apply textDocument_members in H; destruct_and! H.

(** ** Questions on the preferences *)

Section Answers.
Context (j : json) (capabilities : lsClientCapabilities)
  (Hread : reads lsClientCapabilities_codec j capabilities).
Abbreviation p := (make_preferences capabilities).
Abbreviation doc := (lit "textDocument").
Abbreviation wsp := (lit "workspace").

Lemma capabilities_members :
  optional_reads lsWorkspaceClientCapabilites_codec j wsp (lsClientCapabilities_workspace capabilities) /\
  optional_reads lsTextDocumentClientCapabilities_codec j doc (lsClientCapabilities_textDocument capabilities).
Proof. pose proof Hread as H. struct_members H. cbn. auto. Qed.

Lemma v3_given : v3supported p = given j [doc].
Proof.
  destruct capabilities_members as [_ H]. unfold optional_reads, given, answer in *. cbn [settings v3supported make_preferences].
  destruct (setting j doc); [destruct H as (t & -> & _)|rewrite H]; done.
Qed.

Lemma v3_answer (Q : ClientPreferences -> bool) (q : lsTextDocumentClientCapabilities -> bool) a path :
  (forall w t v, Q (mkPreferences w t v) = (v && q t)) ->
  (forall k t, reads lsTextDocumentClientCapabilities_codec k t -> q t = answer a k path) ->
  Q p = answer a j (doc :: path).
Proof.
  intros HQ Hq. destruct capabilities_members as [_ H]. rewrite <- (optional_answer _ _ _ _ q a path H Hq).
  unfold make_preferences. rewrite HQ. by destruct (lsClientCapabilities_textDocument capabilities).
Qed.

Lemma workspace_answer (q : lsWorkspaceClientCapabilites -> bool) a path :
  (forall k w, reads lsWorkspaceClientCapabilites_codec k w -> q w = answer a k path) ->
  in_workspace q p = answer a j (wsp :: path).
Proof. intros Hq. destruct capabilities_members as [H _]. exact (optional_answer _ _ _ _ q a path H Hq). Qed.

Lemma registered_answer {T} `{DynamicRegistration T} (c : codec T) `{!RegistrationReads c} m name :
  (forall k t, reads lsTextDocumentClientCapabilities_codec k t -> optional_reads c k name (m t)) ->
  registered m p = switched_on j [doc; name; lit "dynamicRegistration"].
Proof. intros Hm. apply (v3_answer _ (fun t => isDynamicRegistrationSupported (m t))); [done|]. intros k t Ht%Hm. by apply (registration_answer c). Qed.
End Answers.

(** [if (!v3supported || !...) return false;] before a question is the same
    as [&&]. *)
Lemma v3_guard (v b : bool) : (if negb v then false else b) = (v && b).
Proof. by destruct v. Qed.

(** The questions of the text documents, with the member of the document that
    answers each *)
Definition dyn (name : bytes) : list bytes := [lit "textDocument"; name; lit "dynamicRegistration"].
Definition document_questions : list ((ClientPreferences -> bool) * list bytes) := [
  (isCompletionDynamicRegistered, dyn (lit "completion"));
  (isFormattingDynamicRegistrationSupported, dyn (lit "formatting"));
  (isRangeFormattingDynamicRegistrationSupported, dyn (lit "rangeFormatting"));
  (isOnTypeFormattingDynamicRegistrationSupported, dyn (lit "onTypeFormatting"));
  (isCodeLensDynamicRegistrationSupported, dyn (lit "codeLens"));
  (isSignatureHelpDynamicRegistrationSupported, dyn (lit "signatureHelp"));
  (isRenameDynamicRegistrationSupported, dyn (lit "rename"));
  (isDocumentSymbolDynamicRegistered, dyn (lit "documentSymbol"));
  (isCodeActionDynamicRegistered, dyn (lit "codeAction"));
  (isDefinitionDynamicRegistered, dyn (lit "definition"));
  (isTypeDefinitionDynamicRegistered, dyn (lit "typeDefinition"));
  (isHoverDynamicRegistered, dyn (lit "hover"));
  (isReferencesDynamicRegistered, dyn (lit "references"));
  (isDocumentHighlightDynamicRegistered, dyn (lit "documentHighlight"));
  (isDocumentLinkDynamicRegistered, dyn (lit "documentLink"));
  (isFoldgingRangeDynamicRegistered, dyn (lit "foldingRange"));
  (isInlayHintDynamicRegistered, dyn (lit "inlayHint"));
  (isImplementationDynamicRegistered, dyn (lit "implementation"));
  (isSelectionRangeDynamicRegistered, dyn (lit "selectionRange"));
  (isCallHierarchyDynamicRegistered, dyn (lit "callHierarchy")) ].

Lemma document_answers j capabilities :
  reads lsClientCapabilities_codec j capabilities ->
  Forall (fun '(q, path) => q (make_preferences capabilities) = switched_on j path) document_questions.
Proof.
  intros Hread.
  repeat (apply Forall_cons_2; [eapply registered_answer;
    [exact Hread|typeclasses eauto|let H := fresh in intros k t H; document_members H; eassumption]|]).
  apply Forall_nil_2.
Qed.

Abbreviation question := (ClientPreferences -> bool).

(** Questions inside a capability *)
Definition inner_questions (kind : bytes) : list (question * (json -> bool) * list bytes) := [
  (isSignatureHelpSupported, fun _ => true, [lit "textDocument"; lit "signatureHelp"]);
  (isCompletionSnippetsSupported, GetBool,
   [lit "textDocument"; lit "completion"; lit "completionItem"; lit "snippetSupport"]);
  (isSupportsCompletionDocumentationMarkdown, fun k => contains (elements k) (lit "markdown"),
   [lit "textDocument"; lit "completion"; lit "completionItem"; lit "documentationFormat"]);
  (isHierarchicalDocumentSymbolSupported, GetBool,
   [lit "textDocument"; lit "documentSymbol"; lit "hierarchicalDocumentSymbolSupport"]);
  (isSemanticHighlightingSupported, GetBool,
   [lit "textDocument"; lit "semanticHighlightingCapabilities"; lit "semanticHighlighting"]);
  (isSupportedCodeActionKind kind, fun k => any_kind kind (elements k),
   [lit "textDocument"; lit "codeAction"; lit "codeActionLiteralSupport"; lit "codeActionKind"; lit "valueSet"]);
  (isWillSaveRegistered, GetBool, [lit "textDocument"; lit "synchronization"; lit "willSave"]);
  (isWillSaveWaitUntilRegistered, GetBool, [lit "textDocument"; lit "synchronization"; lit "willSaveWaitUntil"]) ].

(** The member under the next name of the path, in the struct that was read *)
Ltac next_member :=
  let H := fresh in intros ?k ?x H; first [document_members H | struct_members H];
  first [ apply switch_answer; eassumption
        | apply texts_answer; eassumption
        | eapply optional_answer; [eassumption|] ].

Ltac v3_question :=
  unfold isSignatureHelpSupported, isCompletionSnippetsSupported, isSupportsCompletionDocumentationMarkdown,
    isHierarchicalDocumentSymbolSupported, isSemanticHighlightingSupported, isSupportedCodeActionKind,
    isWillSaveRegistered, isWillSaveWaitUntilRegistered;
  cbn [v3supported textDocument]; first [reflexivity | apply v3_guard].

(** A plain member of the text documents, absent or null like its default *)
Lemma synchronization_answer j t (m : SynchronizationCapabilities -> option bool) name :
  reads lsTextDocumentClientCapabilities_codec j t ->
  m (rinit SynchronizationCapabilities_codec) = None ->
  (forall k s, reads SynchronizationCapabilities_codec k s -> optional_reads bool_codec k name (m s)) ->
  isTrue (m (lsTextDocumentClientCapabilities_synchronization t)) =
  switched_on j [lit "synchronization"; name].
Proof.
  intros H Hi Hm. document_members H. unfold switched_on, answer, setting. cbn [settings]. unfold setting.
  match goal with H : match member j (lit "synchronization") with _ => _ end |- _ => revert H end.
  destruct (member j (lit "synchronization")) as [k|]; [|intros ->; by rewrite Hi].
  intros Hs%Hm. destruct (IsNull k) eqn:E.
  - destruct k; try done. unfold optional_reads in Hs. cbn in Hs. by rewrite Hs.
  - by rewrite (switch_answer k name _ Hs).
Qed.

Lemma inner_answers kind j capabilities :
  reads lsClientCapabilities_codec j capabilities ->
  Forall (fun '(q, a, path) => q (make_preferences capabilities) = answer a j path) (inner_questions kind).
Proof.
  intros Hread. unfold inner_questions.
  repeat apply Forall_cons_2; [..|apply Forall_nil_2];
    (eapply (v3_answer _ _ Hread); [intros w t v; v3_question|]).
  all: first
    [ solve [repeat next_member]
    | intros k t H; eapply synchronization_answer; [exact H|done|]; let H := fresh in intros ? ? H; struct_members H; eassumption
    | next_member; done ].
Qed.

Definition workspace_questions : list (question * (json -> bool) * list bytes) := [
  (isWorkspaceDidChangeConfigurationSupported, GetBool,
   [lit "workspace"; lit "didChangeConfiguration"; lit "dynamicRegistration"]);
  (isWorkspaceFoldersSupported, GetBool, [lit "workspace"; lit "workspaceFolders"]);
  (isWorkspaceApplyEditSupported, GetBool, [lit "workspace"; lit "applyEdit"]);
  (isWorkspaceEditResourceChangesSupported, GetBool, [lit "workspace"; lit "workspaceEdit"; lit "resourceChanges"]);
  (isResourceOperationSupported,
   fun k => let ops := elements k in
     contains ops (lit "create") && contains ops (lit "rename") && contains ops (lit "delete"),
   [lit "workspace"; lit "workspaceEdit"; lit "resourceOperations"]) ].

(** The questions that need [textDocument] as well *)
Definition guarded_questions : list (question * list bytes) := [
  (isExecuteCommandDynamicRegistrationSupported, [lit "workspace"; lit "executeCommand"; lit "dynamicRegistration"]);
  (isWorkspaceSymbolDynamicRegistered, [lit "workspace"; lit "symbol"; lit "dynamicRegistration"]);
  (isWorkspaceChangeWatchedFilesDynamicRegistered,
   [lit "workspace"; lit "didChangeWatchedFiles"; lit "dynamicRegistration"]) ].

(** *** Diagnostic tags *)

(** What [isTagSupported] is asked about, and what the document says of it: the
    switch, or whether the set of tags has any *)
Definition tags_supported (t : lsTextDocumentClientCapabilities) : bool :=
  match lsTextDocumentClientCapabilities_publishDiagnostics t with
  | Some d => isTagSupported (PublishDiagnosticsClientCapabilities_tagSupport d)
  | None => false
  end.
Definition tags_given (k : json) : bool :=
  match k with
  | JBool b => b
  | _ => match member k (lit "valueSet") with Some (JArray (_ :: _)) => true | _ => false end
  end.

Lemma vector_reads {T} (c : codec T) k l :
  reads (vector_codec c) k l -> exists es, k = JArray es /\ length l = length es.
Proof.
  destruct k as [| | | | |es|]; try done. intros H. exists es. split; [done|].
  assert (Hgen : forall l acc, iter_elems (fun e values => match rread c e (rinit c) with
      | inl x => inl x | inr x => inr (values ++ [x]) end) es acc = inr l -> length l = length acc + length es).
  { clear H. induction es as [|e es IH]; intros l0 acc; cbn; [intros [= <-]; lia|].
    destruct (rread c e (rinit c)); [done|]. intros ->%IH. rewrite length_app. cbn. lia. }
  by apply (Hgen l []) in H.
Qed.

Lemma tag_support_reads k x :
  reads (tagged_pair_codec IsBool bool_codec DiagnosticsTagSupport_codec) k x ->
  IsNull k = false -> isTagSupported (Some x) = tags_given k.
Proof.
  intros H Hn. unfold reads in H. cbn -[DiagnosticsTagSupport_codec] in H. rewrite Hn in H.
  destruct (IsBool k) eqn:Eb; [destruct k; try done; by injection H as <-|].
  destruct (rread DiagnosticsTagSupport_codec k _) as [e|d] eqn:Ed; [done|]. injection H as <-.
  assert (Hd : reads DiagnosticsTagSupport_codec k d) by exact Ed. struct_members Hd. cbn.
  transitivity (match member k (lit "valueSet") with Some (JArray (_ :: _)) => true | _ => false end); [|by destruct k].
  destruct (member k (lit "valueSet")) as [v|]; [|by rewrite Hd].
  apply vector_reads in Hd as (es & -> & Hl). destruct es, t; try done; by rewrite bool_decide_eq_false_2.
Qed.

Lemma tags_answer j capabilities :
  reads lsClientCapabilities_codec j capabilities ->
  tags_supported (textDocument (make_preferences capabilities)) =
  answer tags_given j [lit "textDocument"; lit "publishDiagnostics"; lit "tagSupport"].
Proof.
  intros Hread. destruct (capabilities_members j capabilities Hread) as [_ H].
  rewrite <- (optional_answer _ _ _ _ tags_supported tags_given [lit "publishDiagnostics"; lit "tagSupport"] H).
  - unfold make_preferences. cbn [textDocument]. by destruct (lsClientCapabilities_textDocument capabilities).
  - intros k t Ht. document_members Ht. unfold tags_supported.
    eapply optional_answer; [eassumption|]. intros k' d Hd. struct_members Hd.
    match goal with H : optional_reads (tagged_pair_codec _ _ _) _ _ _ |- _ => rename H into Htag end.
    unfold optional_reads in Htag. unfold answer. cbn [settings PublishDiagnosticsClientCapabilities_tagSupport].
    unfold setting in *. destruct (member k' (lit "tagSupport")) as [v|]; [|by rewrite Htag].
    destruct (IsNull v) eqn:En; [by rewrite Htag|]. destruct Htag as (x & -> & Hx). by apply tag_support_reads.
Qed.

Lemma workspace_answers j capabilities :
  reads lsClientCapabilities_codec j capabilities ->
  Forall (fun '(q, a, path) => q (make_preferences capabilities) = answer a j path) workspace_questions /\
  Forall (fun '(q, path) => q (make_preferences capabilities) = (given j [lit "textDocument"] && switched_on j path))
    guarded_questions.
Proof.
  intros Hread. split; unfold workspace_questions, guarded_questions; repeat apply Forall_cons_2; try apply Forall_nil_2.
  6-8: (apply (f_equal2 andb); [by apply v3_given|]).
  all: (eapply (workspace_answer _ _ Hread)).
  all: first [ solve [repeat next_member]
             | let H := fresh in intros k w H; struct_members H; eapply registration_answer; [typeclasses eauto|eassumption] ].
Qed.
End Members.

Lemma contains_spec v target : contains v target = true <-> target ∈ v.
Proof.
  induction v as [|it v IH]; cbn; [by split; [|intros ?%not_elem_of_nil]|]. rewrite elem_of_cons, <- IH.
  case_bool_decide; naive_solver.
Qed.

Lemma any_kind_spec kind v : any_kind kind v = true <-> exists k r, k ∈ v /\ kind = k ++ r.
Proof.
  induction v as [|k v IH]; cbn; [split; [done|by intros (?&?&?%not_elem_of_nil&?)]|].
  destruct (StartsWith kind k) eqn:E.
  - apply StartsWith_spec in E as [r ->]. split; [|done]. intros _. exists k, r. set_solver.
  - rewrite IH. split; intros (k' & r & Hk & ->); exists k', r; [set_solver|]. split; [|done].
    apply elem_of_cons in Hk as [->|Hk]; [|done].
    assert (StartsWith (k ++ r) k = true) by (apply StartsWith_spec; eauto). congruence.
Qed.

Lemma tags_not_reported {rapidjson : RapidJson} p : isDiagnosticTagSupported p = false.
Proof. unfold isDiagnosticTagSupported. by repeat destr_goal. Qed.

(** * Theorems *)

(** C18. What a server is told about its client is what the document of the
    client's capabilities says.  Whenever the capabilities are read from a
    JSON document, every question of [ClientPreferences] but one has the answer that
    the document gives at the path of that question, with absent, null and
    misplaced members counting as [false]: the switches of the text documents
    and of the workspace, the formats and kinds that are listed, and whether
    the client speaks version 3 at all, which the three questions on commands,
    symbols and watched files of the workspace require too.  One question is
    an exception: [isDiagnosticTagSupported] is [false] whatever the document
    says; the answer of the document is that of [isTagSupported], which is
    asked and dropped. *)
Theorem preferences_read_document {rapidjson : RapidJson} (j : json) (capabilities : lsClientCapabilities)
    (kind : bytes) :
  rread lsClientCapabilities_codec j (rinit lsClientCapabilities_codec) = inr capabilities ->
  let p := make_preferences capabilities in
  isV3Supported p = given j [lit "textDocument"] /\
  Forall (fun '(q, path) => q p = switched_on j path) document_questions /\
  Forall (fun '(q, a, path) => q p = answer a j path) (inner_questions kind ++ workspace_questions) /\
  Forall (fun '(q, path) => q p = (given j [lit "textDocument"] && switched_on j path)) guarded_questions /\
  isDiagnosticTagSupported p = false /\
  match lsTextDocumentClientCapabilities_publishDiagnostics (textDocument p) with
  | Some d => isTagSupported (PublishDiagnosticsClientCapabilities_tagSupport d)
  | None => false
  end = answer tags_given j [lit "textDocument"; lit "publishDiagnostics"; lit "tagSupport"].
Proof.
  intros H. destruct (workspace_answers j capabilities H) as [Hw Hg].
  split_and!; [by apply v3_given|by apply document_answers| |done|apply tags_not_reported|by apply tags_answer].
  apply Forall_app. by split; [apply inner_answers|].
Qed.

Definition sample_capabilities : json := JObject [
  (lit "workspace", JObject [(lit "workspaceEdit",
     JObject [(lit "resourceOperations", JArray [JString (lit "rename"); JString (lit "delete"); JString (lit "create")])]);
     (lit "symbol", JObject [(lit "dynamicRegistration", JBool true)])]);
  (lit "textDocument", JObject [
     (lit "synchronization", JNull);
     (lit "hover", JObject [(lit "dynamicRegistration", JBool true); (lit "later", JNumber 1)]);
     (lit "publishDiagnostics", JObject [(lit "tagSupport", JBool true)]);
     (lit "codeAction", JObject [(lit "codeActionLiteralSupport",
        JObject [(lit "codeActionKind", JObject [(lit "valueSet", JArray [JString (lit "quickfix")])])])])])].

Lemma preferences_read_document_witness :
  let H : RapidJson := {| Parse := fun _ => None; Print := fun _ => [] |} in
  exists capabilities,
    rread lsClientCapabilities_codec sample_capabilities (rinit lsClientCapabilities_codec) = inr capabilities /\
    isV3Supported (make_preferences capabilities) = given sample_capabilities [lit "textDocument"] /\
    given sample_capabilities [lit "textDocument"] = true /\
    (isWorkspaceSymbolDynamicRegistered (make_preferences capabilities),
     isHoverDynamicRegistered (make_preferences capabilities),
     isResourceOperationSupported (make_preferences capabilities),
     isWillSaveRegistered (make_preferences capabilities)) = (true, true, true, false).
Proof.
  intros H. eexists. split; [vm_compute; reflexivity|]. split; [|split; vm_compute; reflexivity].
  eapply (preferences_read_document sample_capabilities _ []). vm_compute. reflexivity.
Defined.

(** The support of diagnostic tags is never reported: [isDiagnosticTagSupported]
    asks [isTagSupported] and drops its answer. *)
Theorem diagnostic_tags_dropped {rapidjson : RapidJson} :
  (forall p, isDiagnosticTagSupported p = false) /\
  exists capabilities,
    rread lsClientCapabilities_codec sample_capabilities (rinit lsClientCapabilities_codec) = inr capabilities /\
    match lsTextDocumentClientCapabilities_publishDiagnostics (textDocument (make_preferences capabilities)) with
    | Some d => isTagSupported (PublishDiagnosticsClientCapabilities_tagSupport d) = true
    | None => False
    end.
Proof.
  split.
  - apply tags_not_reported.
  - eexists. split; [vm_compute; reflexivity|]. reflexivity.
Qed.

(** A code action kind is supported when a listed kind is a prefix of its
    text; the dots between the parts of a kind are not looked at, so with
    [quickfix] listed [quickfixes] is supported. *)
Theorem code_action_kind_prefix {rapidjson : RapidJson} (j : json) (capabilities : lsClientCapabilities) (kind : bytes) :
  rread lsClientCapabilities_codec j (rinit lsClientCapabilities_codec) = inr capabilities ->
  isSupportedCodeActionKind kind (make_preferences capabilities) = true <->
  exists set k r, settings j [lit "textDocument"; lit "codeAction"; lit "codeActionLiteralSupport";
                              lit "codeActionKind"; lit "valueSet"] = Some set /\
                  k ∈ elements set /\ kind = k ++ r.
Proof.
  intros H. pose proof (inner_answers kind j capabilities H) as Ha.
  do 5 apply Forall_cons_1 in Ha as [_ Ha]. apply Forall_cons_1 in Ha as [-> _].
  unfold answer. destruct (settings j _) as [set|].
  - rewrite any_kind_spec. split; [intros (k & r & ? & ?); by exists set, k, r|].
    intros (? & k & r & [= ->] & ? & ?). eauto.
  - split; [done|]. by intros (? & ? & ? & ? & _).
Qed.

Lemma code_action_kind_prefix_witness :
  let H : RapidJson := {| Parse := fun _ => None; Print := fun _ => [] |} in
  exists capabilities,
    rread lsClientCapabilities_codec sample_capabilities (rinit lsClientCapabilities_codec) = inr capabilities /\
    isSupportedCodeActionKind (lit "quickfixes") (make_preferences capabilities) = true.
Proof.
  intros H. eexists. split; [vm_compute; reflexivity|].
  apply (code_action_kind_prefix sample_capabilities); [vm_compute; reflexivity|].
  eexists _, (lit "quickfix"), (lit "es"). split; [vm_compute; reflexivity|]. split; [by left|done].
Defined.
