(* ===== verification/Extensions.v ===== *)
(** * Extensions

    Parts of the library that the dispatch of the protocol does not use: the
    names of semantic tokens of other tools (textDocument/SemanticTokens.h,
    src/lsp/textDocument.cpp), the arguments of commands that are written as
    arrays (lsp_code_action.h), and the SonarLint extension
    (extention/sonarlint/protocol.h).  Structs follow the conventions of
    ProtocolData. *)
From S2P Require Import Prelude CppString Position Utils Uri Json Reflect RequestId Framing Message LspTypes Envelope.
From S2P Require Import ProtocolData Capabilities.

(** ** Semantic tokens of clangd and of the Java server *)

Inductive HighlightingKind_clangD :=
| HVariable | HLocalVariable | HParameter | HFunction | HMethod | HStaticMethod | HField | HStaticField
| HClass | HInterface | HEnum | HEnumConstant | HTypedef | HType | HUnknown | HNamespace
| HTemplateParameter | HConcept | HPrimitive | HMacro | HInactiveCode.

(** [toSemanticTokenType(HighlightingKind_clangD)] *)
Definition clangd_token_type (kind : HighlightingKind_clangD) : bytes :=
  match kind with
  | HVariable | HLocalVariable | HStaticField => lit "variable"
  | HParameter => lit "parameter"
  | HFunction => lit "function"
  | HMethod => lit "method"
  | HStaticMethod => lit "function"
  | HField => lit "property"
  | HClass => lit "class"
  | HInterface => lit "interface"
  | HEnum => lit "enum"
  | HEnumConstant => lit "enumMember"
  | HTypedef | HType => lit "type"
  | HUnknown => lit "unknown"
  | HNamespace => lit "namespace"
  | HTemplateParameter => lit "typeParameter"
  | HConcept => lit "concept"
  | HPrimitive => lit "type"
  | HMacro => lit "macro"
  | HInactiveCode => lit "comment"
  end.

Inductive HighlightingModifier_clangD :=
| MDeclaration | MDeprecated | MDeduced | MReadonly | MStatic | MAbstract | MDependentName | MDefaultLibrary
| MFunctionScope | MClassScope | MFileScope | MGlobalScope.

Definition clangd_modifier (m : HighlightingModifier_clangD) : bytes :=
  match m with
  | MDeclaration => lit "declaration" | MDeprecated => lit "deprecated" | MReadonly => lit "readonly"
  | MStatic => lit "static" | MDeduced => lit "deduced" | MAbstract => lit "abstract"
  | MDependentName => lit "dependentName" | MDefaultLibrary => lit "defaultLibrary"
  | MFunctionScope => lit "functionScope" | MClassScope => lit "classScope" | MFileScope => lit "fileScope"
  | MGlobalScope => lit "globalScope"
  end.

Inductive TokenType_JDT :=
| PACKAGE_JDT | CLASS_JDT | INTERFACE_JDT | ENUM_JDT | ENUM_MEMBER_JDT | TYPE_JDT | TYPE_PARAMETER_JDT
| ANNOTATION_JDT | ANNOTATION_MEMBER_JDT | METHOD_JDT | PROPERTY_JDT | VARIABLE_JDT | PARAMETER_JDT.

Definition jdt_token_type (t : TokenType_JDT) : bytes :=
  match t with
  | PACKAGE_JDT => lit "namespace" | CLASS_JDT => lit "class" | INTERFACE_JDT => lit "interface"
  | ENUM_JDT => lit "enum" | ENUM_MEMBER_JDT => lit "enumMember" | TYPE_JDT => lit "type"
  | TYPE_PARAMETER_JDT => lit "typeParameter" | ANNOTATION_JDT => lit "annotation"
  | ANNOTATION_MEMBER_JDT => lit "annotationMember" | METHOD_JDT => lit "function"
  | PROPERTY_JDT => lit "property" | VARIABLE_JDT => lit "variable" | PARAMETER_JDT => lit "parameter"
  end.

(** [toSemanticTokenType(std::vector<SemanticTokenType>&)] *)
Definition encode_token_types (types : list Z) : Z :=
  fold_left (fun encode_type bit => Z.lor encode_type (Z.shiftl 1 bit)) types 0%Z.

(** [operator==(SemanticToken, SemanticToken)] *)
Definition token_eqb (l r : SemanticToken) : bool :=
  (deltaLine l =? deltaLine r)%Z && (deltaStart l =? deltaStart r)%Z && (token_length l =? token_length r)%Z &&
  (tokenType l =? tokenType r)%Z && (token_modifiers l =? token_modifiers r)%Z.

Lemma token_eqb_spec l r : token_eqb l r = true <-> l = r.
Proof.
  destruct l, r. unfold token_eqb. cbn. rewrite !andb_true_iff, !Z.eqb_eq. split.
  - by intros ((((-> & ->) & ->) & ->) & ->).
  - by intros [= -> -> -> -> ->].
Qed.

(** The names that a client knows from the protocol *)
Definition is_standard_token (name : bytes) : Prop := exists t, token_type_name t = name.

(** What the two tools report is a token type of the protocol, but for two
    names of either. *)
Lemma other_token_types_standard :
  (forall k, is_standard_token (clangd_token_type k) \/ k = HUnknown \/ k = HConcept) /\
  (forall t, is_standard_token (jdt_token_type t) \/ t = ANNOTATION_JDT \/ t = ANNOTATION_MEMBER_JDT).
Proof.
  split; intros k.
  - destruct k; try (by right; auto); left;
      [ exists ls_variable | exists ls_variable | exists ls_parameter | exists ls_function | exists ls_method
      | exists ls_function | exists ls_property | exists ls_variable | exists ls_class | exists ls_interface
      | exists ls_enum | exists ls_enumMember | exists ls_type | exists ls_type | exists ls_namespace
      | exists ls_typeParameter | exists ls_type | exists ls_macro | exists ls_comment ]; done.
  - destruct k; try (by right; auto); left;
      [ exists ls_namespace | exists ls_class | exists ls_interface | exists ls_enum | exists ls_enumMember
      | exists ls_type | exists ls_typeParameter | exists ls_function | exists ls_property | exists ls_variable
      | exists ls_parameter ]; done.
Qed.

(** ** Paths and registrations (src/lsp/lsp.cpp) *)

Definition AbsolutePath_is_empty (p : AbsolutePath) : bool := bool_decide (path_ p = []).
Definition is_absolute (p : AbsolutePath) : bool := valid p.
Definition path_eqb (a b : AbsolutePath) : bool := bool_decide (path_ a = path_ b).
Definition path_neb (a b : AbsolutePath) : bool := negb (bool_decide (path_ a = path_ b)).
Definition path_ltb (a b : AbsolutePath) : bool := string_lt (path_ a) (path_ b).
Definition path_gtb (a b : AbsolutePath) : bool := string_lt (path_ b) (path_ a).

Definition Directory_eqb (a b : Directory) : bool := bool_decide (dir_path a = dir_path b).
Definition Directory_neb (a b : Directory) : bool := negb (bool_decide (dir_path a = dir_path b)).

(** [SetPath] and the constructor from a path *)
Definition SetPath (path : AbsolutePath) (_ : lsDocumentUri) : lsDocumentUri := lsDocumentUri_FromPath path.
Definition uri_eqb (a b : lsDocumentUri) : bool := bool_decide (raw_uri_ a = raw_uri_ b).
Definition uri_eqb_text (a : lsDocumentUri) (b : bytes) : bool := bool_decide (raw_uri_ a = b).

(** [lsLocation::operator<]: the URIs first *)
Definition location_ltb (a b : lsLocation) : bool :=
  if string_lt (raw_uri_ (uri a)) (raw_uri_ (uri b)) then true
  else if string_lt (raw_uri_ (uri b)) (raw_uri_ (uri a)) then false
  else range_ltb (range a) (range b).

(** A path is written as its text and normalised when it is read. *)
Definition AbsolutePath_codec (getcwd : bytes) (stat : bytes -> option bool) : codec AbsolutePath :=
  mkCodec (fun j _ => inr (AbsolutePath_of getcwd stat (GetString j))) (fun p => JString (path_ p)) AbsolutePath_empty.

(** The paths that normalisation yields are read back as they were written. *)
Lemma canonical_path_roundtrip getcwd stat (path : bytes) :
  IsUnixAbsolutePath path = true -> NUL ∉ canonical_path path ->
  let p := AbsolutePath_of getcwd stat path in
  rread (AbsolutePath_codec getcwd stat) (rwrite (AbsolutePath_codec getcwd stat) p) AbsolutePath_empty = inr p.
Proof.
  intros Hp Hn. cbn [rread rwrite AbsolutePath_codec GetString]. unfold AbsolutePath_of at 2 3.
  assert (Ha : IsAbsolutePath path = true) by (unfold IsAbsolutePath; by rewrite Hp).
  rewrite Ha, NormalizePath_unix by done. cbn [path_]. rewrite c_str_id by done. f_equal.
  destruct (canonical_state path) as (st & Hok & Hst). rewrite Hst.
  pose proof (canon_text_unix st Hok) as Hu. unfold AbsolutePath_of.
  assert (Ha' : IsAbsolutePath (canon_text st) = true) by (unfold IsAbsolutePath; by rewrite Hu).
  rewrite Ha', NormalizePath_unix by done. cbn [path_]. by rewrite canonical_path_fixed.
Qed.

(** [Registration::Create]; the two random numbers of the identifier are
    arguments *)
Definition Registration_Create (method : bytes) (part1 part2 : Z) : Registration :=
  mk_Registration (generate_uuid_v4 part1 part2) method.

(** [Any::Set] of a message and [Any::SetData] *)
Section AnyValues.
Context {rapidjson : RapidJson}.
Definition Any_Set_message (m : json) : Any := mkAny (Print m) kObjectType.
Definition Any_SetData (output : bytes) (a : Any) : Any :=
  let d := c_str output in mkAny d (GuessType (mkAny d (jsonType a))).
End AnyValues.

(** ** Names of code actions and commands

    [JDT::CodeActionKind] (lsp.cpp), [RefactorProposalUtility] and
    [QuickAssistProcessor] (textDocument.cpp): the constants with their texts. *)
Definition JDT_CodeActionKind : list (bytes * bytes) :=
  [ (lit "QuickFix", lit "quickfix");
    (lit "Refactor", lit "refactor");
    (lit "RefactorExtract", lit "refactor.extract");
    (lit "RefactorInline", lit "refactor.inline");
    (lit "RefactorRewrite", lit "refactor.rewrite");
    (lit "Source", lit "source");
    (lit "SourceOrganizeImports", lit "source.organizeImports") ].
Definition COMMAND_ID_APPLY_EDIT : bytes := lit "java.apply.workspaceEdit".
Definition RefactorProposalUtility : list (bytes * bytes) :=
  [ (lit "APPLY_REFACTORING_COMMAND_ID", lit "java.action.applyRefactoringCommand");
    (lit "EXTRACT_VARIABLE_ALL_OCCURRENCE_COMMAND", lit "extractVariableAllOccurrence");
    (lit "EXTRACT_VARIABLE_COMMAND", lit "extractVariable");
    (lit "EXTRACT_CONSTANT_COMMAND", lit "extractConstant");
    (lit "EXTRACT_METHOD_COMMAND", lit "extractMethod");
    (lit "EXTRACT_FIELD_COMMAND", lit "extractField");
    (lit "CONVERT_VARIABLE_TO_FIELD_COMMAND", lit "convertVariableToField");
    (lit "MOVE_FILE_COMMAND", lit "moveFile");
    (lit "MOVE_INSTANCE_METHOD_COMMAND", lit "moveInstanceMethod");
    (lit "MOVE_STATIC_MEMBER_COMMAND", lit "moveStaticMember");
    (lit "MOVE_TYPE_COMMAND", lit "moveType") ].
Definition QuickAssistProcessor : list (bytes * bytes) :=
  [ (lit "SPLIT_JOIN_VARIABLE_DECLARATION_ID", lit "org.eclipse.jdt.ls.correction.splitJoinVariableDeclaration.assist");
    (lit "CONVERT_FOR_LOOP_ID", lit "org.eclipse.jdt.ls.correction.convertForLoop.assist");
    (lit "ASSIGN_TO_LOCAL_ID", lit "org.eclipse.jdt.ls.correction.assignToLocal.assist");
    (lit "ASSIGN_TO_FIELD_ID", lit "org.eclipse.jdt.ls.correction.assignToField.assist");
    (lit "ASSIGN_PARAM_TO_FIELD_ID", lit "org.eclipse.jdt.ls.correction.assignParamToField.assist");
    (lit "ASSIGN_ALL_PARAMS_TO_NEW_FIELDS_ID", lit "org.eclipse.jdt.ls.correction.assignAllParamsToNewFields.assist");
    (lit "ADD_BLOCK_ID", lit "org.eclipse.jdt.ls.correction.addBlock.assist");
    (lit "EXTRACT_LOCAL_ID", lit "org.eclipse.jdt.ls.correction.extractLocal.assist");
    (lit "EXTRACT_LOCAL_NOT_REPLACE_ID", lit "org.eclipse.jdt.ls.correction.extractLocalNotReplaceOccurrences.assist");
    (lit "EXTRACT_CONSTANT_ID", lit "org.eclipse.jdt.ls.correction.extractConstant.assist");
    (lit "INLINE_LOCAL_ID", lit "org.eclipse.jdt.ls.correction.inlineLocal.assist");
    (lit "CONVERT_LOCAL_TO_FIELD_ID", lit "org.eclipse.jdt.ls.correction.convertLocalToField.assist");
    (lit "CONVERT_ANONYMOUS_TO_LOCAL_ID", lit "org.eclipse.jdt.ls.correction.convertAnonymousToLocal.assist");
    (lit "CONVERT_TO_STRING_BUFFER_ID", lit "org.eclipse.jdt.ls.correction.convertToStringBuffer.assist");
    (lit "CONVERT_TO_MESSAGE_FORMAT_ID", lit "org.eclipse.jdt.ls.correction.convertToMessageFormat.assist");
    (lit "EXTRACT_METHOD_INPLACE_ID", lit "org.eclipse.jdt.ls.correction.extractMethodInplace.assist");
    (lit "CONVERT_ANONYMOUS_CLASS_TO_NESTED_COMMAND", lit "convertAnonymousClassToNestedCommand") ].

(** The kind without its last component: kinds form a tree by their dots *)
Definition parent_kind (kind : bytes) : option bytes := (fun i => take i kind) <$> rfind_char "." kind.

(** The parent of every kind is one of the kinds, no two constants of a table
    have the same text, and the names of the quick assists are well formed. *)
Theorem action_names_ok :
  (forall k p, k ∈ map snd JDT_CodeActionKind -> parent_kind k = Some p -> p ∈ map snd JDT_CodeActionKind) /\
  NoDup (map snd JDT_CodeActionKind) /\ NoDup (map snd RefactorProposalUtility) /\
  NoDup (map snd QuickAssistProcessor) /\
  Forall (fun q => q.1 = lit "CONVERT_ANONYMOUS_CLASS_TO_NESTED_COMMAND" \/
                   (StartsWith q.2 (lit "org.eclipse.jdt.ls.correction.") && EndsWith q.2 (lit ".assist")) = true)
    QuickAssistProcessor.
Proof.
  split; [|split_and!; apply (bool_decide_unpack _); vm_compute; exact I].
  intros k p Hk Hp.
  assert (H : Forall (fun k => match parent_kind k with Some p => p ∈ map snd JDT_CodeActionKind | None => True end)
                (map snd JDT_CodeActionKind)).
  { repeat (apply Forall_cons; split; [first [exact I|apply (bool_decide_unpack _); vm_compute; exact I]|]). constructor. }
  rewrite Forall_forall in H. specialize (H k Hk). by rewrite Hp in H.
Qed.

(** ** Structs that are written as arrays

    [MAKE_REFLECT_STRUCT_WRITER_AS_ARRAY] writes the members in order; the
    reader counts the elements, and ignores those it does not know. *)
Record CommandArgs := mkCommandArgs { textDocumentUri : lsDocumentUri; edits : list lsTextEdit }.

Definition edits_codec : codec (list lsTextEdit) := vector_codec lsTextEdit_codec.

Definition CommandArgs_element (e : json) (s : nat * CommandArgs) : exn + (nat * CommandArgs) :=
  let '(i, v) := s in
  match i with
  | 0 => bind_exn (rread lsDocumentUri_codec e (textDocumentUri v)) (fun u => inr (S i, mkCommandArgs u (edits v)))
  | 1 => bind_exn (rread edits_codec e (edits v)) (fun l => inr (S i, mkCommandArgs (textDocumentUri v) l))
  | _ => inr (S i, v)
  end.

Definition CommandArgs_codec : codec CommandArgs :=
  mkCodec
    (fun j v => bind_exn (IterArray CommandArgs_element j (0, v)) (fun s => inr s.2))
    (fun v => JArray [rwrite lsDocumentUri_codec (textDocumentUri v); rwrite edits_codec (edits v)])
    (mkCommandArgs (rinit lsDocumentUri_codec) []).

Record lsCodeLensCommandArguments := mkLensArgs {
  lens_uri : lsDocumentUri; lens_position : lsPosition; lens_locations : list lsLocation }.

Definition locations_codec : codec (list lsLocation) := vector_codec lsLocation_codec.

Definition LensArgs_element (e : json) (s : nat * lsCodeLensCommandArguments)
    : exn + (nat * lsCodeLensCommandArguments) :=
  let '(i, v) := s in
  match i with
  | 0 => bind_exn (rread lsDocumentUri_codec e (lens_uri v))
           (fun u => inr (S i, mkLensArgs u (lens_position v) (lens_locations v)))
  | 1 => bind_exn (rread lsPosition_codec e (lens_position v))
           (fun p => inr (S i, mkLensArgs (lens_uri v) p (lens_locations v)))
  | 2 => bind_exn (rread locations_codec e (lens_locations v))
           (fun l => inr (S i, mkLensArgs (lens_uri v) (lens_position v) l))
  | _ => inr (S i, v)
  end.

Definition lsCodeLensCommandArguments_codec : codec lsCodeLensCommandArguments :=
  mkCodec
    (fun j v => bind_exn (IterArray LensArgs_element j (0, v)) (fun s => inr s.2))
    (fun v => JArray [rwrite lsDocumentUri_codec (lens_uri v); rwrite lsPosition_codec (lens_position v);
                      rwrite locations_codec (lens_locations v)])
    (mkLensArgs (rinit lsDocumentUri_codec) (rinit lsPosition_codec) []).

(** [MAKE_REFLECT_EMPTY_STRUCT(lsCodeLensUserData)] *)
Definition lsCodeLensUserData_codec : codec unit := mkCodec (fun _ v => inr v) (fun _ => JObject []) tt.

Definition CommandArgs_valid (v : CommandArgs) : Prop :=
  uri_valid (textDocumentUri v) /\ Forall edit_valid (edits v).
Definition LensArgs_valid (v : lsCodeLensCommandArguments) : Prop :=
  uri_valid (lens_uri v) /\ position_valid (lens_position v) /\ Forall location_valid (lens_locations v).

(** Elements behind the known ones do not matter. *)
Lemma skip_elements {T} (f : json -> nat * T -> exn + (nat * T)) n i v more :
  (forall e k, n <= k -> f e (k, v) = inr (S k, v)) -> n <= i ->
  iter_elems f more (i, v) = inr (length more + i, v).
Proof.
  intros Hf. revert i. induction more as [|e more IH]; intros i Hi; cbn [iter_elems length]; [done|].
  rewrite Hf by done. rewrite IH by lia. f_equal. f_equal. lia.
Qed.

Lemma CommandArgs_read_back v more :
  CommandArgs_valid v ->
  rread CommandArgs_codec (JArray ([rwrite lsDocumentUri_codec (textDocumentUri v); rwrite edits_codec (edits v)] ++ more))
    (rinit CommandArgs_codec) = inr v.
Proof.
  intros [Hu He]. pose proof (uri_roundtrip _ Hu) as Eu.
  pose proof (vector_roundtrip lsTextEdit_codec edit_valid _ _ He) as Ee.
  cbn [rread CommandArgs_codec IterArray rinit app iter_elems CommandArgs_element textDocumentUri edits].
  change (mkDocumentUri []) with (rinit lsDocumentUri_codec). rewrite Eu.
  cbn [bind_exn CommandArgs_element edits textDocumentUri]. unfold edits_codec at 1.
  change (@nil lsTextEdit) with (rinit edits_codec). unfold edits_codec at 1 2. rewrite Ee.
  cbn [bind_exn]. rewrite (skip_elements _ 2) by (done || intros ? [|[|k]] ?; done || lia).
  cbn. by destruct v.
Qed.

Lemma LensArgs_read_back v more :
  LensArgs_valid v ->
  rread lsCodeLensCommandArguments_codec
    (JArray ([rwrite lsDocumentUri_codec (lens_uri v); rwrite lsPosition_codec (lens_position v);
              rwrite locations_codec (lens_locations v)] ++ more))
    (rinit lsCodeLensCommandArguments_codec) = inr v.
Proof.
  intros (Hu & Hp & Hl). pose proof (uri_roundtrip _ Hu) as Eu. pose proof (lsPosition_roundtrip _ Hp) as Ep.
  pose proof (vector_roundtrip lsLocation_codec location_valid _ _ Hl) as El.
  unfold lsCodeLensCommandArguments_codec. cbn [rread IterArray rinit app iter_elems].
  unfold LensArgs_element at 1. cbn [lens_uri lens_position lens_locations].
  rewrite Eu. cbn [bind_exn]. unfold LensArgs_element at 1. cbn [lens_uri lens_position lens_locations].
  rewrite Ep. cbn [bind_exn]. unfold LensArgs_element at 1. cbn [lens_uri lens_position lens_locations].
  change (@nil lsLocation) with (rinit locations_codec).
  change (vector_codec lsLocation_codec) with locations_codec in El. rewrite El.
  cbn [bind_exn]. rewrite (skip_elements _ 3) by (done || intros ? [|[|[|k]]] ?; done || lia).
  cbn. by destruct v.
Qed.

#[export] Instance CommandArgs_roundtrip : Roundtrip CommandArgs_codec CommandArgs_valid.
Proof. intros v Hv. exact (CommandArgs_read_back v [] Hv). Qed.
#[export] Instance LensArgs_roundtrip : Roundtrip lsCodeLensCommandArguments_codec LensArgs_valid.
Proof. intros v Hv. exact (LensArgs_read_back v [] Hv). Qed.

(** ** The SonarLint extension *)

Record LintRule := mk_LintRule {
  LintRule_key : bytes; LintRule_name : bytes; LintRule_activeByDefault : bool;
  LintRule_severity : option bytes; LintRule_type : option bytes; LintRule_icon_index : Z }.
Definition LintRule_codec : codec LintRule :=
  struct_codec
    (field (lit "key") string_codec
     ⊗ field (lit "name") string_codec
     ⊗ field_init (lit "activeByDefault") bool_codec true
     ⊗ opt_field (lit "severity") string_codec
     ⊗ opt_field (lit "type") string_codec)
    (fun '(x0, (x1, (x2, (x3, x4)))) => mk_LintRule x0 x1 x2 x3 x4 (-1)%Z)
    (fun r => (LintRule_key r, (LintRule_name r, (LintRule_activeByDefault r, (LintRule_severity r,
     LintRule_type r))))).
Definition LintRule_valid (r : LintRule) : Prop :=
  (LintRule_icon_index r = (-1)%Z) /\
  (text_valid (LintRule_key r) /\
  text_valid (LintRule_name r) /\
  any_valid (LintRule_activeByDefault r) /\
  opt_valid text_valid (LintRule_severity r) /\
  opt_valid text_valid (LintRule_type r)).
#[export] Instance LintRule_roundtrip : Roundtrip LintRule_codec LintRule_valid.
Proof. struct_law_default. Qed.
#[export] Instance LintRule_object : WritesObject LintRule_codec.
Proof. intros v. by eexists. Qed.

Record RuleParameter := mk_RuleParameter {
  RuleParameter_name : bytes; RuleParameter_description : option bytes;
  RuleParameter_defaultValue : option bytes }.
Definition RuleParameter_codec : codec RuleParameter :=
  struct_codec
    (field (lit "name") string_codec
     ⊗ opt_field (lit "description") string_codec
     ⊗ opt_field (lit "defaultValue") string_codec)
    (fun '(x0, (x1, x2)) => mk_RuleParameter x0 x1 x2)
    (fun r => (RuleParameter_name r, (RuleParameter_description r, RuleParameter_defaultValue r))).
Definition RuleParameter_valid (r : RuleParameter) : Prop :=
  text_valid (RuleParameter_name r) /\
  opt_valid text_valid (RuleParameter_description r) /\
  opt_valid text_valid (RuleParameter_defaultValue r).
#[export] Instance RuleParameter_roundtrip : Roundtrip RuleParameter_codec RuleParameter_valid.
Proof. struct_law. Qed.
#[export] Instance RuleParameter_object : WritesObject RuleParameter_codec.
Proof. intros v. by eexists. Qed.

Record ShowRuleDescriptionParams := mk_ShowRuleDescriptionParams {
  ShowRuleDescriptionParams_key : option bytes; ShowRuleDescriptionParams_name : option bytes;
  ShowRuleDescriptionParams_htmlDescription : option bytes; ShowRuleDescriptionParams_type : option bytes;
  ShowRuleDescriptionParams_severity : option bytes;
  ShowRuleDescriptionParams_parameters : option (list RuleParameter) }.
Definition ShowRuleDescriptionParams_codec : codec ShowRuleDescriptionParams :=
  struct_codec
    (opt_field (lit "key") string_codec
     ⊗ opt_field (lit "name") string_codec
     ⊗ opt_field (lit "htmlDescription") string_codec
     ⊗ opt_field (lit "type") string_codec
     ⊗ opt_field (lit "severity") string_codec
     ⊗ opt_field (lit "parameters") (vector_codec RuleParameter_codec))
    (fun '(x0, (x1, (x2, (x3, (x4, x5))))) => mk_ShowRuleDescriptionParams x0 x1 x2 x3 x4 x5)
    (fun r => (ShowRuleDescriptionParams_key r, (ShowRuleDescriptionParams_name r,
     (ShowRuleDescriptionParams_htmlDescription r, (ShowRuleDescriptionParams_type r,
     (ShowRuleDescriptionParams_severity r, ShowRuleDescriptionParams_parameters r)))))).
Definition ShowRuleDescriptionParams_valid (r : ShowRuleDescriptionParams) : Prop :=
  opt_valid text_valid (ShowRuleDescriptionParams_key r) /\
  opt_valid text_valid (ShowRuleDescriptionParams_name r) /\
  opt_valid text_valid (ShowRuleDescriptionParams_htmlDescription r) /\
  opt_valid text_valid (ShowRuleDescriptionParams_type r) /\
  opt_valid text_valid (ShowRuleDescriptionParams_severity r) /\
  opt_valid (Forall RuleParameter_valid) (ShowRuleDescriptionParams_parameters r).
#[export] Instance ShowRuleDescriptionParams_roundtrip : Roundtrip ShowRuleDescriptionParams_codec ShowRuleDescriptionParams_valid.
Proof. struct_law. Qed.
#[export] Instance ShowRuleDescriptionParams_object : WritesObject ShowRuleDescriptionParams_codec.
Proof. intros v. by eexists. Qed.

Record GetJavaConfigResponse := mk_GetJavaConfigResponse {
  GetJavaConfigResponse_projectRoot : bytes; GetJavaConfigResponse_sourceLevel : bytes;
  GetJavaConfigResponse_classpath : list bytes; GetJavaConfigResponse_isTest : bool;
  GetJavaConfigResponse_vmLocation : bytes }.
Definition GetJavaConfigResponse_codec : codec GetJavaConfigResponse :=
  struct_codec
    (field (lit "projectRoot") string_codec
     ⊗ field (lit "sourceLevel") string_codec
     ⊗ field (lit "classpath") (vector_codec string_codec)
     ⊗ field (lit "isTest") bool_codec
     ⊗ field (lit "vmLocation") string_codec)
    (fun '(x0, (x1, (x2, (x3, x4)))) => mk_GetJavaConfigResponse x0 x1 x2 x3 x4)
    (fun r => (GetJavaConfigResponse_projectRoot r, (GetJavaConfigResponse_sourceLevel r,
     (GetJavaConfigResponse_classpath r, (GetJavaConfigResponse_isTest r,
     GetJavaConfigResponse_vmLocation r))))).
Definition GetJavaConfigResponse_valid (r : GetJavaConfigResponse) : Prop :=
  text_valid (GetJavaConfigResponse_projectRoot r) /\
  text_valid (GetJavaConfigResponse_sourceLevel r) /\
  Forall text_valid (GetJavaConfigResponse_classpath r) /\
  any_valid (GetJavaConfigResponse_isTest r) /\
  text_valid (GetJavaConfigResponse_vmLocation r).
#[export] Instance GetJavaConfigResponse_roundtrip : Roundtrip GetJavaConfigResponse_codec GetJavaConfigResponse_valid.
Proof. struct_law. Qed.
#[export] Instance GetJavaConfigResponse_object : WritesObject GetJavaConfigResponse_codec.
Proof. intros v. by eexists. Qed.

Record SetTraceNotificationParams := mk_SetTraceNotificationParams {
  SetTraceNotificationParams_value : lsTrace }.
Definition SetTraceNotificationParams_codec : codec SetTraceNotificationParams :=
  struct_codec
    (field (lit "value") lsTrace_codec)
    (fun x0 => mk_SetTraceNotificationParams x0)
    (fun r => SetTraceNotificationParams_value r).
Definition SetTraceNotificationParams_valid (r : SetTraceNotificationParams) : Prop :=
  any_valid (SetTraceNotificationParams_value r).
#[export] Instance SetTraceNotificationParams_roundtrip : Roundtrip SetTraceNotificationParams_codec SetTraceNotificationParams_valid.
Proof. struct_law. Qed.
#[export] Instance SetTraceNotificationParams_object : WritesObject SetTraceNotificationParams_codec.
Proof. intros v. by eexists. Qed.

Record ServerConnectionSettings := mk_ServerConnectionSettings {
  ServerConnectionSettings_connectionId : bytes; ServerConnectionSettings_serverUrl : bytes;
  ServerConnectionSettings_token : bytes; ServerConnectionSettings_organizationKey : option bytes;
  ServerConnectionSettings_SONARCLOUD_URL : bytes; ServerConnectionSettings_SONARCLOUD_ALIAS : list bytes }.
Definition sonarcloud_url : bytes := lit "https://sonarcloud.io".
Definition sonarcloud_alias : list bytes :=
  [lit "https://sonarqube.com"; lit "https://www.sonarqube.com"; lit "https://www.sonarcloud.io"; lit "https://sonarcloud.io"].
Definition ServerConnectionSettings_codec : codec ServerConnectionSettings :=
  struct_codec
    (field (lit "connectionId") string_codec
     ⊗ field (lit "serverUrl") string_codec
     ⊗ field (lit "token") string_codec
     ⊗ opt_field (lit "organizationKey") string_codec)
    (fun '(x0, (x1, (x2, x3))) => mk_ServerConnectionSettings x0 x1 x2 x3 sonarcloud_url sonarcloud_alias)
    (fun r => (ServerConnectionSettings_connectionId r, (ServerConnectionSettings_serverUrl r,
     (ServerConnectionSettings_token r, ServerConnectionSettings_organizationKey r)))).
Definition ServerConnectionSettings_valid (r : ServerConnectionSettings) : Prop :=
  (ServerConnectionSettings_SONARCLOUD_URL r = sonarcloud_url /\ ServerConnectionSettings_SONARCLOUD_ALIAS r = sonarcloud_alias) /\
  (text_valid (ServerConnectionSettings_connectionId r) /\
  text_valid (ServerConnectionSettings_serverUrl r) /\
  text_valid (ServerConnectionSettings_token r) /\
  opt_valid text_valid (ServerConnectionSettings_organizationKey r)).
#[export] Instance ServerConnectionSettings_roundtrip : Roundtrip ServerConnectionSettings_codec ServerConnectionSettings_valid.
Proof. struct_law_default. Qed.
#[export] Instance ServerConnectionSettings_object : WritesObject ServerConnectionSettings_codec.
Proof. intros v. by eexists. Qed.

Record RuleSetting := mk_RuleSetting {
  RuleSetting_level : bytes; RuleSetting_parameters : option (list (bytes * bytes)) }.
Definition RuleSetting_codec : codec RuleSetting :=
  struct_codec
    (field_init (lit "level") string_codec (lit "on")
     ⊗ opt_field (lit "parameters") (map_codec string_codec))
    (fun '(x0, x1) => mk_RuleSetting x0 x1)
    (fun r => (RuleSetting_level r, RuleSetting_parameters r)).
Definition RuleSetting_valid (r : RuleSetting) : Prop :=
  text_valid (RuleSetting_level r) /\
  opt_valid (map_valid text_valid) (RuleSetting_parameters r).
#[export] Instance RuleSetting_roundtrip : Roundtrip RuleSetting_codec RuleSetting_valid.
Proof. struct_law. Qed.
#[export] Instance RuleSetting_object : WritesObject RuleSetting_codec.
Proof. intros v. by eexists. Qed.

Record ConsoleParams := mk_ConsoleParams {
  ConsoleParams_showAnalyzerLogs : option bool; ConsoleParams_showVerboseLogs : option bool }.
Definition ConsoleParams_codec : codec ConsoleParams :=
  struct_codec
    (opt_field (lit "showAnalyzerLogs") bool_codec
     ⊗ opt_field (lit "showVerboseLogs") bool_codec)
    (fun '(x0, x1) => mk_ConsoleParams x0 x1)
    (fun r => (ConsoleParams_showAnalyzerLogs r, ConsoleParams_showVerboseLogs r)).
Definition ConsoleParams_valid (r : ConsoleParams) : Prop :=
  opt_valid any_valid (ConsoleParams_showAnalyzerLogs r) /\
  opt_valid any_valid (ConsoleParams_showVerboseLogs r).
#[export] Instance ConsoleParams_roundtrip : Roundtrip ConsoleParams_codec ConsoleParams_valid.
Proof. struct_law. Qed.
#[export] Instance ConsoleParams_object : WritesObject ConsoleParams_codec.
Proof. intros v. by eexists. Qed.

Record SonarLintWorkspaceSettings := mk_SonarLintWorkspaceSettings {
  SonarLintWorkspaceSettings_disableTelemetry : option bool;
  SonarLintWorkspaceSettings_connectedMode : option (list (bytes * ServerConnectionSettings));
  SonarLintWorkspaceSettings_rules : option (list (bytes * RuleSetting));
  SonarLintWorkspaceSettings_output : option ConsoleParams;
  SonarLintWorkspaceSettings_pathToNodeExecutable : option bytes }.
Definition SonarLintWorkspaceSettings_codec : codec SonarLintWorkspaceSettings :=
  struct_codec
    (opt_field (lit "disableTelemetry") bool_codec
     ⊗ opt_field (lit "connectedMode") (map_codec ServerConnectionSettings_codec)
     ⊗ opt_field (lit "rules") (map_codec RuleSetting_codec)
     ⊗ opt_field (lit "output") ConsoleParams_codec
     ⊗ opt_field (lit "pathToNodeExecutable") string_codec)
    (fun '(x0, (x1, (x2, (x3, x4)))) => mk_SonarLintWorkspaceSettings x0 x1 x2 x3 x4)
    (fun r => (SonarLintWorkspaceSettings_disableTelemetry r, (SonarLintWorkspaceSettings_connectedMode r,
     (SonarLintWorkspaceSettings_rules r, (SonarLintWorkspaceSettings_output r,
     SonarLintWorkspaceSettings_pathToNodeExecutable r))))).
Definition SonarLintWorkspaceSettings_valid (r : SonarLintWorkspaceSettings) : Prop :=
  opt_valid any_valid (SonarLintWorkspaceSettings_disableTelemetry r) /\
  opt_valid (map_valid ServerConnectionSettings_valid) (SonarLintWorkspaceSettings_connectedMode r) /\
  opt_valid (map_valid RuleSetting_valid) (SonarLintWorkspaceSettings_rules r) /\
  opt_valid ConsoleParams_valid (SonarLintWorkspaceSettings_output r) /\
  opt_valid text_valid (SonarLintWorkspaceSettings_pathToNodeExecutable r).
#[export] Instance SonarLintWorkspaceSettings_roundtrip : Roundtrip SonarLintWorkspaceSettings_codec SonarLintWorkspaceSettings_valid.
Proof. struct_law. Qed.
#[export] Instance SonarLintWorkspaceSettings_object : WritesObject SonarLintWorkspaceSettings_codec.
Proof. intros v. by eexists. Qed.

Definition LintRule_Display (r : LintRule) : bytes := LintRule_name r ++ lit " (" ++ LintRule_key r ++ lit ")".

(** [on], [off] and [turn] of a rule's setting.  [IsOn], [toggle], the
    constructor from a [bool] and [getConfigurationParameters] are declared
    only. *)
Definition RuleSetting_on (r : RuleSetting) : RuleSetting := mk_RuleSetting (lit "on") (RuleSetting_parameters r).
Definition RuleSetting_off (r : RuleSetting) : RuleSetting := mk_RuleSetting (lit "off") (RuleSetting_parameters r).
Definition RuleSetting_turn (activate : bool) (r : RuleSetting) : RuleSetting :=
  if activate then RuleSetting_on r else RuleSetting_off r.

(** The methods of the extension *)
Inductive sonarlint_request :=
| slls_listAllRules | slls_showSonarLintOutput | slls_openJavaHomeSettings | slls_openPathToNodeSettings
| slls_showRuleDescription | slls_getJavaConfig.
Inductive sonarlint_notification :=
| Notify_didClasspathUpdate | Notify_didJavaServerModeChange | slls_setTraceNotification.

Definition sonarlint_method (r : sonarlint_request) : bytes :=
  match r with
  | slls_listAllRules => lit "sonarlint/listAllRules"
  | slls_showSonarLintOutput => lit "sonarlint/showSonarLintOutput"
  | slls_openJavaHomeSettings => lit "sonarlint/openJavaHomeSettings"
  | slls_openPathToNodeSettings => lit "sonarlint/openPathToNodeSettings"
  | slls_showRuleDescription => lit "sonarlint/showRuleDescription"
  | slls_getJavaConfig => lit "sonarlint/getJavaConfig"
  end.
Definition sonarlint_notify_method (n : sonarlint_notification) : bytes :=
  match n with
  | Notify_didClasspathUpdate => lit "sonarlint/didClasspathUpdate"
  | Notify_didJavaServerModeChange => lit "sonarlint/didJavaServerModeChange"
  | slls_setTraceNotification => lit "$/setTraceNotification"
  end.

(** The type of a request's params and of its result *)
Definition sonarlint_params (r : sonarlint_request) : { T : Type & codec T } :=
  match r with
  | slls_showRuleDescription => existT _ ShowRuleDescriptionParams_codec
  | slls_getJavaConfig => existT _ lsDocumentUri_codec
  | _ => existT _ jsonnull_codec
  end.
Definition sonarlint_notify_params (n : sonarlint_notification) : { T : Type & codec T } :=
  match n with
  | Notify_didClasspathUpdate => existT _ lsDocumentUri_codec
  | Notify_didJavaServerModeChange => existT _ string_codec
  | slls_setTraceNotification => existT _ SetTraceNotificationParams_codec
  end.

(** A setting that was switched is stored and read back as it was switched,
    with its parameters. *)
Lemma turned_setting_roundtrip (b : bool) (r : RuleSetting) :
  opt_valid (map_valid text_valid) (RuleSetting_parameters r) ->
  exists r', rread RuleSetting_codec (rwrite RuleSetting_codec (RuleSetting_turn b r)) (rinit RuleSetting_codec) = inr r' /\
    RuleSetting_level r' = lit (if b then "on" else "off") /\ RuleSetting_parameters r' = RuleSetting_parameters r.
Proof.
  intros Hp. exists (RuleSetting_turn b r). split; [|by destruct b].
  apply RuleSetting_roundtrip. split; [|by destruct b].
  destruct b; apply (bool_decide_eq_true_1 _); vm_compute; reflexivity.
Qed.
