(* ===== verification/Nullable.v ===== *)
(** * Nullable members, mandatory optionals, structs as arrays

    The rest of include/LibLsp/JsonRpc/serializer.h: the class [Nullable], the
    macro that writes absent optionals as null, and the one that writes a
    struct as an array. *)
From S2P Require Import Prelude CppString Position Utils Uri Json Reflect Extensions.

(** ** [Nullable]

    [value_] is an [optional]; [None] is the JSON null. *)
Module Nullable.
Section Nullable.
Context {T : Type}.

Definition of_null : option T := None.
Definition of_value (value : T) : option T := Some value.
Definition assign_null (_ : option T) : option T := None.
Definition assign (value : T) (_ : option T) : option T := Some value.
Definition emplace (value : T) (_ : option T) : T * option T := (value, Some value).
Definition reset (_ : option T) : option T := None.
Definition swap (self other : option T) : option T * option T := (other, self).
Definition has_value (n : option T) : bool := match n with Some _ => true | None => false end.
Definition isNull (n : option T) : bool := negb (has_value n).

(** [value()] and [operator->] throw [bad_optional_access]; [operator*] of
    null is undefined *)
Inductive access := Value (v : T) | BadOptionalAccess | Undefined.
Definition value (n : option T) : access := match n with Some v => Value v | None => BadOptionalAccess end.
Definition deref (n : option T) : access := match n with Some v => Value v | None => Undefined end.

(** The two [Reflect] functions, by these operations *)
Definition Reflect_reader (c : codec T) (visitor : json) (n : option T) : exn + option T :=
  if IsNull visitor then inr (reset n)
  else bind_exn (rread c visitor (rinit c)) (fun real_value => inr (assign real_value n)).
Definition Reflect_writer (c : codec T) (n : option T) : json :=
  match value n with Value v => rwrite c v | _ => JNull end.

(** They are the codec that the other files use for [Nullable]. *)
Theorem Reflect_nullable (c : codec T) j n :
  Reflect_reader c j n = rread (nullable_codec c) j n /\ Reflect_writer c n = rwrite (nullable_codec c) n.
Proof. split; [|by destruct n]. unfold Reflect_reader. cbn. by destruct (IsNull j). Qed.

(** Every operation keeps [value()] defined exactly where [has_value()] says
    so, and [isNull()] the opposite of it. *)
Theorem access_guarded (n : option T) :
  (has_value n = true <-> exists v, value n = Value v /\ deref n = Value v) /\
  (isNull n = true <-> value n = BadOptionalAccess).
Proof. destruct n; cbn; naive_solver. Qed.
End Nullable.
End Nullable.

(** ** [MAKE_REFLECT_STRUCT_OPTIONALS_MANDATORY]

    The writer writes the key and the value, null when it is absent.  The
    reader calls [Reflect] for the visitor itself: the name is not used. *)
Definition mandatory_field {T} (name : bytes) (c : codec T) : fields (option T) :=
  mkFields [name] (rread (optional_codec c)) (fun v => [(name, rwrite (optional_codec c) v)]) None.

(** The reader of a type that is not an object *)
Definition rejects_objects {T} (c : codec T) : Prop := forall ms v, exists e, rread c (JObject ms) v = inl e.

Lemma int_rejects_objects : rejects_objects int_codec.
Proof. intros ms v. by eexists. Qed.
Lemma string_rejects_objects : rejects_objects string_codec.
Proof. intros ms v. by eexists. Qed.
Lemma bool_rejects_objects : rejects_objects bool_codec.
Proof. intros ms v. by eexists. Qed.

(** A struct reflected by this macro cannot be read: where a member is a
    number, a string or a flag, reading any object, also one that the same
    macro has written, throws. *)
Theorem mandatory_unreadable {T R S} (name : bytes) (c : codec T) (rest : fields R) (to : option T * R -> S) from
    (ms : list (bytes * json)) (s : S) :
  rejects_objects c -> exists e, rread (struct_codec (mandatory_field name c ⊗ rest) to from) (JObject ms) s = inl e.
Proof.
  intros Hc. destruct (Hc ms (rinit c)) as [e He]. exists e. cbn [rread struct_codec f_read field_pair].
  destruct (from s) as [a b]. cbn. by rewrite He.
Qed.

Lemma mandatory_unreadable_witness :
  let c := struct_codec (mandatory_field (lit "a") int_codec ⊗ opt_field (lit "b") int_codec) id id in
  rwrite c (None, None) = JObject [(lit "a", JNull)] /\
  exists e, rread c (rwrite c (Some 1%Z, None)) (None, None) = inl e.
Proof.
  split; [reflexivity|].
  apply (mandatory_unreadable (lit "a") int_codec (opt_field (lit "b") int_codec) id id). apply int_rejects_objects.
Defined.

(** ** [MAKE_REFLECT_STRUCT_WRITER_AS_ARRAY]

    [Reflect(visitor, value.name)] for each member between [StartArray] and
    [EndArray]; an absent optional is written as null. *)
Definition array_members (T : Type) := T -> list json.
Definition array_member {T} (c : codec T) : array_members T := fun v => [rwrite c v].
Definition array_pair {A B} (f : array_members A) (g : array_members B) : array_members (A * B) :=
  fun '(a, b) => f a ++ g b.
Definition write_as_array {T} (f : array_members T) (v : T) : json := JArray (f v).

(** [CommandArgs] is written this way, and the reader of its own reads it back. *)
Theorem CommandArgs_as_array (v : CommandArgs) :
  write_as_array (array_pair (array_member lsDocumentUri_codec) (array_member edits_codec)) (textDocumentUri v, edits v)
    = rwrite CommandArgs_codec v /\
  (CommandArgs_valid v ->
   rread CommandArgs_codec
     (write_as_array (array_pair (array_member lsDocumentUri_codec) (array_member edits_codec))
        (textDocumentUri v, edits v)) (rinit CommandArgs_codec) = inr v).
Proof.
  split; [done|]. intros Hv. pose proof (CommandArgs_read_back v [] Hv) as H. exact H.
Qed.
