(* ===== verification/Jdtls.v ===== *)
(** * Data of the Java extension

    The structs of include/LibLsp/lsp/extention/jdtls, with the conventions of
    ProtocolData. *)
From S2P Require Import Prelude CppString Position Utils Uri Json Reflect RequestId LspTypes ProtocolData.

Section Java.
Context {rapidjson : RapidJson}.
Abbreviation any := (any_codec Parse Print).
Abbreviation any_ok := (any_value_valid Parse Print).

Record OverridableMethod := mk_OverridableMethod {
  OverridableMethod_bindingKey : bytes; OverridableMethod_name : bytes;
  OverridableMethod_parameters : list bytes; OverridableMethod_unimplemented : bool;
  OverridableMethod_declaringClass : bytes; OverridableMethod_declaringClassType : bytes }.
Definition OverridableMethod_codec : codec OverridableMethod :=
  struct_codec
    (field (lit "bindingKey") string_codec
     ⊗ field (lit "name") string_codec
     ⊗ field (lit "parameters") (vector_codec string_codec)
     ⊗ field_init (lit "unimplemented") bool_codec false
     ⊗ field (lit "declaringClass") string_codec
     ⊗ field (lit "declaringClassType") string_codec)
    (fun '(x0, (x1, (x2, (x3, (x4, x5))))) => mk_OverridableMethod x0 x1 x2 x3 x4 x5)
    (fun r => (OverridableMethod_bindingKey r, (OverridableMethod_name r, (OverridableMethod_parameters r,
     (OverridableMethod_unimplemented r, (OverridableMethod_declaringClass r,
     OverridableMethod_declaringClassType r)))))).
Definition OverridableMethod_valid (r : OverridableMethod) : Prop :=
  text_valid (OverridableMethod_bindingKey r) /\
  text_valid (OverridableMethod_name r) /\
  Forall text_valid (OverridableMethod_parameters r) /\
  any_valid (OverridableMethod_unimplemented r) /\
  text_valid (OverridableMethod_declaringClass r) /\
  text_valid (OverridableMethod_declaringClassType r).
#[export] Instance OverridableMethod_roundtrip : Roundtrip OverridableMethod_codec OverridableMethod_valid.
Proof. struct_law. Qed.
#[export] Instance OverridableMethod_object : WritesObject OverridableMethod_codec.
Proof. intros v. by eexists. Qed.

Record OverridableMethodsResponse := mk_OverridableMethodsResponse {
  OverridableMethodsResponse_type : bytes; OverridableMethodsResponse_methods : list OverridableMethod }.
Definition OverridableMethodsResponse_codec : codec OverridableMethodsResponse :=
  struct_codec
    (field (lit "type") string_codec
     ⊗ field (lit "methods") (vector_codec OverridableMethod_codec))
    (fun '(x0, x1) => mk_OverridableMethodsResponse x0 x1)
    (fun r => (OverridableMethodsResponse_type r, OverridableMethodsResponse_methods r)).
Definition OverridableMethodsResponse_valid (r : OverridableMethodsResponse) : Prop :=
  text_valid (OverridableMethodsResponse_type r) /\
  Forall OverridableMethod_valid (OverridableMethodsResponse_methods r).
#[export] Instance OverridableMethodsResponse_roundtrip : Roundtrip OverridableMethodsResponse_codec OverridableMethodsResponse_valid.
Proof. struct_law. Qed.
#[export] Instance OverridableMethodsResponse_object : WritesObject OverridableMethodsResponse_codec.
Proof. intros v. by eexists. Qed.

Record WorkspaceSymbolParams := mk_WorkspaceSymbolParams {
  WorkspaceSymbolParams_query : bytes }.
Definition WorkspaceSymbolParams_codec : codec WorkspaceSymbolParams :=
  struct_codec
    (field (lit "query") string_codec)
    (fun x0 => mk_WorkspaceSymbolParams x0)
    (fun r => WorkspaceSymbolParams_query r).
Definition WorkspaceSymbolParams_valid (r : WorkspaceSymbolParams) : Prop :=
  text_valid (WorkspaceSymbolParams_query r).
#[export] Instance WorkspaceSymbolParams_roundtrip : Roundtrip WorkspaceSymbolParams_codec WorkspaceSymbolParams_valid.
Proof. struct_law. Qed.
#[export] Instance WorkspaceSymbolParams_object : WritesObject WorkspaceSymbolParams_codec.
Proof. intros v. by eexists. Qed.

Record AddOverridableMethodParams := mk_AddOverridableMethodParams {
  AddOverridableMethodParams_context : lsCodeActionParams;
  AddOverridableMethodParams_overridableMethods : list OverridableMethod }.
Definition AddOverridableMethodParams_codec : codec AddOverridableMethodParams :=
  struct_codec
    (field (lit "context") lsCodeActionParams_codec
     ⊗ field (lit "overridableMethods") (vector_codec OverridableMethod_codec))
    (fun '(x0, x1) => mk_AddOverridableMethodParams x0 x1)
    (fun r => (AddOverridableMethodParams_context r, AddOverridableMethodParams_overridableMethods r)).
Definition AddOverridableMethodParams_valid (r : AddOverridableMethodParams) : Prop :=
  lsCodeActionParams_valid (AddOverridableMethodParams_context r) /\
  Forall OverridableMethod_valid (AddOverridableMethodParams_overridableMethods r).
#[export] Instance AddOverridableMethodParams_roundtrip : Roundtrip AddOverridableMethodParams_codec AddOverridableMethodParams_valid.
Proof. struct_law. Qed.
#[export] Instance AddOverridableMethodParams_object : WritesObject AddOverridableMethodParams_codec.
Proof. intros v. by eexists. Qed.

Inductive BuildWorkspaceStatus :=
| BuildWorkspaceStatus_FAILED | BuildWorkspaceStatus_SUCCEED | BuildWorkspaceStatus_WITH_ERROR
| BuildWorkspaceStatus_CANCELLED.
Definition BuildWorkspaceStatus_value (e : BuildWorkspaceStatus) : Z :=
  match e with
  | BuildWorkspaceStatus_FAILED => 0 | BuildWorkspaceStatus_SUCCEED => 1 | BuildWorkspaceStatus_WITH_ERROR => 2
  | BuildWorkspaceStatus_CANCELLED => 3
  end%Z.
Definition BuildWorkspaceStatus_codec : codec Z := enum_codec uint8_codec 0.
#[export] Instance BuildWorkspaceStatus_roundtrip : Roundtrip BuildWorkspaceStatus_codec uint8_valid.
Proof. by apply enum_roundtrip; [apply _|]. Qed.
#[export] Instance BuildWorkspaceStatus_not_null : NotNull BuildWorkspaceStatus_codec uint8_valid.
Proof. apply enum_not_null, _. Qed.
#[export] Instance BuildWorkspaceStatus_fresh : FreshRead BuildWorkspaceStatus_codec.
Proof. apply enum_fresh. Qed.

Record LspMethodBinding := mk_LspMethodBinding {
  LspMethodBinding_bindingKey : bytes; LspMethodBinding_name : bytes; LspMethodBinding_parameters : list bytes }.
Definition LspMethodBinding_codec : codec LspMethodBinding :=
  struct_codec
    (field (lit "bindingKey") string_codec
     ⊗ field (lit "name") string_codec
     ⊗ field (lit "parameters") (vector_codec string_codec))
    (fun '(x0, (x1, x2)) => mk_LspMethodBinding x0 x1 x2)
    (fun r => (LspMethodBinding_bindingKey r, (LspMethodBinding_name r, LspMethodBinding_parameters r))).
Definition LspMethodBinding_valid (r : LspMethodBinding) : Prop :=
  text_valid (LspMethodBinding_bindingKey r) /\
  text_valid (LspMethodBinding_name r) /\
  Forall text_valid (LspMethodBinding_parameters r).
#[export] Instance LspMethodBinding_roundtrip : Roundtrip LspMethodBinding_codec LspMethodBinding_valid.
Proof. struct_law. Qed.
#[export] Instance LspMethodBinding_object : WritesObject LspMethodBinding_codec.
Proof. intros v. by eexists. Qed.

Record LspVariableBinding := mk_LspVariableBinding {
  LspVariableBinding_bindingKey : bytes; LspVariableBinding_name : bytes; LspVariableBinding_type : bytes;
  LspVariableBinding_isField : bool }.
Definition LspVariableBinding_codec : codec LspVariableBinding :=
  struct_codec
    (field (lit "bindingKey") string_codec
     ⊗ field (lit "name") string_codec
     ⊗ field (lit "type") string_codec
     ⊗ field (lit "isField") bool_codec)
    (fun '(x0, (x1, (x2, x3))) => mk_LspVariableBinding x0 x1 x2 x3)
    (fun r => (LspVariableBinding_bindingKey r, (LspVariableBinding_name r, (LspVariableBinding_type r,
     LspVariableBinding_isField r)))).
Definition LspVariableBinding_valid (r : LspVariableBinding) : Prop :=
  text_valid (LspVariableBinding_bindingKey r) /\
  text_valid (LspVariableBinding_name r) /\
  text_valid (LspVariableBinding_type r) /\
  any_valid (LspVariableBinding_isField r).
#[export] Instance LspVariableBinding_roundtrip : Roundtrip LspVariableBinding_codec LspVariableBinding_valid.
Proof. struct_law. Qed.
#[export] Instance LspVariableBinding_object : WritesObject LspVariableBinding_codec.
Proof. intros v. by eexists. Qed.

Record CheckConstructorsResponse := mk_CheckConstructorsResponse {
  CheckConstructorsResponse_constructors : list LspMethodBinding;
  CheckConstructorsResponse_fields : list LspVariableBinding }.
Definition CheckConstructorsResponse_codec : codec CheckConstructorsResponse :=
  struct_codec
    (field (lit "constructors") (vector_codec LspMethodBinding_codec)
     ⊗ field (lit "fields") (vector_codec LspVariableBinding_codec))
    (fun '(x0, x1) => mk_CheckConstructorsResponse x0 x1)
    (fun r => (CheckConstructorsResponse_constructors r, CheckConstructorsResponse_fields r)).
Definition CheckConstructorsResponse_valid (r : CheckConstructorsResponse) : Prop :=
  Forall LspMethodBinding_valid (CheckConstructorsResponse_constructors r) /\
  Forall LspVariableBinding_valid (CheckConstructorsResponse_fields r).
#[export] Instance CheckConstructorsResponse_roundtrip : Roundtrip CheckConstructorsResponse_codec CheckConstructorsResponse_valid.
Proof. struct_law. Qed.
#[export] Instance CheckConstructorsResponse_object : WritesObject CheckConstructorsResponse_codec.
Proof. intros v. by eexists. Qed.

Record LspDelegateField := mk_LspDelegateField {
  LspDelegateField_field : LspVariableBinding; LspDelegateField_delegateMethods : list LspMethodBinding }.
Definition LspDelegateField_codec : codec LspDelegateField :=
  struct_codec
    (field (lit "field") LspVariableBinding_codec
     ⊗ field (lit "delegateMethods") (vector_codec LspMethodBinding_codec))
    (fun '(x0, x1) => mk_LspDelegateField x0 x1)
    (fun r => (LspDelegateField_field r, LspDelegateField_delegateMethods r)).
Definition LspDelegateField_valid (r : LspDelegateField) : Prop :=
  LspVariableBinding_valid (LspDelegateField_field r) /\
  Forall LspMethodBinding_valid (LspDelegateField_delegateMethods r).
#[export] Instance LspDelegateField_roundtrip : Roundtrip LspDelegateField_codec LspDelegateField_valid.
Proof. struct_law. Qed.
#[export] Instance LspDelegateField_object : WritesObject LspDelegateField_codec.
Proof. intros v. by eexists. Qed.

Record CheckDelegateMethodsResponse := mk_CheckDelegateMethodsResponse {
  CheckDelegateMethodsResponse_delegateFields : list LspDelegateField }.
Definition CheckDelegateMethodsResponse_codec : codec CheckDelegateMethodsResponse :=
  struct_codec
    (field (lit "delegateFields") (vector_codec LspDelegateField_codec))
    (fun x0 => mk_CheckDelegateMethodsResponse x0)
    (fun r => CheckDelegateMethodsResponse_delegateFields r).
Definition CheckDelegateMethodsResponse_valid (r : CheckDelegateMethodsResponse) : Prop :=
  Forall LspDelegateField_valid (CheckDelegateMethodsResponse_delegateFields r).
#[export] Instance CheckDelegateMethodsResponse_roundtrip : Roundtrip CheckDelegateMethodsResponse_codec CheckDelegateMethodsResponse_valid.
Proof. struct_law. Qed.
#[export] Instance CheckDelegateMethodsResponse_object : WritesObject CheckDelegateMethodsResponse_codec.
Proof. intros v. by eexists. Qed.

Record CheckHashCodeEqualsResponse := mk_CheckHashCodeEqualsResponse {
  CheckHashCodeEqualsResponse_type : bytes; CheckHashCodeEqualsResponse_fields : list LspVariableBinding;
  CheckHashCodeEqualsResponse_existingMethods : list bytes }.
Definition CheckHashCodeEqualsResponse_codec : codec CheckHashCodeEqualsResponse :=
  struct_codec
    (field (lit "type") string_codec
     ⊗ field (lit "fields") (vector_codec LspVariableBinding_codec)
     ⊗ field (lit "type") string_codec
     ⊗ field (lit "existingMethods") (vector_codec string_codec))
    (fun '(_, (x1, (x2, x3))) => mk_CheckHashCodeEqualsResponse x2 x1 x3)
    (fun r => (CheckHashCodeEqualsResponse_type r, (CheckHashCodeEqualsResponse_fields r,
     (CheckHashCodeEqualsResponse_type r, CheckHashCodeEqualsResponse_existingMethods r)))).
Definition CheckHashCodeEqualsResponse_valid (r : CheckHashCodeEqualsResponse) : Prop :=
  text_valid (CheckHashCodeEqualsResponse_type r) /\
  Forall LspVariableBinding_valid (CheckHashCodeEqualsResponse_fields r) /\
  text_valid (CheckHashCodeEqualsResponse_type r) /\
  Forall text_valid (CheckHashCodeEqualsResponse_existingMethods r).
(** [type] is reflected, and so written, twice. *)
#[export] Instance CheckHashCodeEqualsResponse_roundtrip :
  Roundtrip CheckHashCodeEqualsResponse_codec CheckHashCodeEqualsResponse_valid.
Proof.
  eapply struct_roundtrip_valid; [by intros []|reflexivity| |].
  - eapply repeated_roundtrip with (second := fun b => b.2.1); [members|members|].
    intros b n ->%list_elem_of_singleton.
    etrans; [eapply FindMember_skip; [members|apply (bool_decide_eq_false_1 _); vm_compute; reflexivity]|].
    eapply FindMember_first; [members|apply (bool_decide_eq_false_1 _); vm_compute; reflexivity].
  - intros r (H1 & H2 & H3 & H4). by repeat split.
Qed.
#[export] Instance CheckHashCodeEqualsResponse_object : WritesObject CheckHashCodeEqualsResponse_codec.
Proof. intros v. by eexists. Qed.

Record CheckToStringResponse := mk_CheckToStringResponse {
  CheckToStringResponse_type : bytes; CheckToStringResponse_fields : list LspVariableBinding;
  CheckToStringResponse_exists : bool }.
Definition CheckToStringResponse_codec : codec CheckToStringResponse :=
  struct_codec
    (field (lit "type") string_codec
     ⊗ field (lit "fields") (vector_codec LspVariableBinding_codec)
     ⊗ field (lit "exists") bool_codec)
    (fun '(x0, (x1, x2)) => mk_CheckToStringResponse x0 x1 x2)
    (fun r => (CheckToStringResponse_type r, (CheckToStringResponse_fields r,
     CheckToStringResponse_exists r))).
Definition CheckToStringResponse_valid (r : CheckToStringResponse) : Prop :=
  text_valid (CheckToStringResponse_type r) /\
  Forall LspVariableBinding_valid (CheckToStringResponse_fields r) /\
  any_valid (CheckToStringResponse_exists r).
#[export] Instance CheckToStringResponse_roundtrip : Roundtrip CheckToStringResponse_codec CheckToStringResponse_valid.
Proof. struct_law. Qed.
#[export] Instance CheckToStringResponse_object : WritesObject CheckToStringResponse_codec.
Proof. intros v. by eexists. Qed.

Record FindLinksParams := mk_FindLinksParams {
  FindLinksParams_type : bytes; FindLinksParams_position : lsTextDocumentPositionParams }.
Definition FindLinksParams_codec : codec FindLinksParams :=
  struct_codec
    (field (lit "type") string_codec
     ⊗ field (lit "position") lsTextDocumentPositionParams_codec)
    (fun '(x0, x1) => mk_FindLinksParams x0 x1)
    (fun r => (FindLinksParams_type r, FindLinksParams_position r)).
Definition FindLinksParams_valid (r : FindLinksParams) : Prop :=
  text_valid (FindLinksParams_type r) /\
  lsTextDocumentPositionParams_valid (FindLinksParams_position r).
#[export] Instance FindLinksParams_roundtrip : Roundtrip FindLinksParams_codec FindLinksParams_valid.
Proof. struct_law. Qed.
#[export] Instance FindLinksParams_object : WritesObject FindLinksParams_codec.
Proof. intros v. by eexists. Qed.

Record AccessorField := mk_AccessorField {
  AccessorField_fieldName : bytes; AccessorField_isStatic : bool; AccessorField_generateGetter : bool;
  AccessorField_generateSetter : bool }.
Definition AccessorField_codec : codec AccessorField :=
  struct_codec
    (field (lit "fieldName") string_codec
     ⊗ field_init (lit "isStatic") bool_codec false
     ⊗ field_init (lit "generateGetter") bool_codec false
     ⊗ field_init (lit "generateSetter") bool_codec false)
    (fun '(x0, (x1, (x2, x3))) => mk_AccessorField x0 x1 x2 x3)
    (fun r => (AccessorField_fieldName r, (AccessorField_isStatic r, (AccessorField_generateGetter r,
     AccessorField_generateSetter r)))).
Definition AccessorField_valid (r : AccessorField) : Prop :=
  text_valid (AccessorField_fieldName r) /\
  any_valid (AccessorField_isStatic r) /\
  any_valid (AccessorField_generateGetter r) /\
  any_valid (AccessorField_generateSetter r).
#[export] Instance AccessorField_roundtrip : Roundtrip AccessorField_codec AccessorField_valid.
Proof. struct_law. Qed.
#[export] Instance AccessorField_object : WritesObject AccessorField_codec.
Proof. intros v. by eexists. Qed.

Record GenerateAccessorsParams := mk_GenerateAccessorsParams {
  GenerateAccessorsParams_context : lsCodeActionParams; GenerateAccessorsParams_accessors : list AccessorField }.
Definition GenerateAccessorsParams_codec : codec GenerateAccessorsParams :=
  struct_codec
    (field (lit "context") lsCodeActionParams_codec
     ⊗ field (lit "accessors") (vector_codec AccessorField_codec))
    (fun '(x0, x1) => mk_GenerateAccessorsParams x0 x1)
    (fun r => (GenerateAccessorsParams_context r, GenerateAccessorsParams_accessors r)).
Definition GenerateAccessorsParams_valid (r : GenerateAccessorsParams) : Prop :=
  lsCodeActionParams_valid (GenerateAccessorsParams_context r) /\
  Forall AccessorField_valid (GenerateAccessorsParams_accessors r).
#[export] Instance GenerateAccessorsParams_roundtrip : Roundtrip GenerateAccessorsParams_codec GenerateAccessorsParams_valid.
Proof. struct_law. Qed.
#[export] Instance GenerateAccessorsParams_object : WritesObject GenerateAccessorsParams_codec.
Proof. intros v. by eexists. Qed.

Record GenerateConstructorsParams := mk_GenerateConstructorsParams {
  GenerateConstructorsParams_context : lsCodeActionParams;
  GenerateConstructorsParams_fields : list LspVariableBinding;
  GenerateConstructorsParams_constructors : list LspMethodBinding }.
Definition GenerateConstructorsParams_codec : codec GenerateConstructorsParams :=
  struct_codec
    (field (lit "context") lsCodeActionParams_codec
     ⊗ field (lit "fields") (vector_codec LspVariableBinding_codec))
    (fun '(x0, x1) => mk_GenerateConstructorsParams x0 x1 [])
    (fun r => (GenerateConstructorsParams_context r, GenerateConstructorsParams_fields r)).
Definition GenerateConstructorsParams_valid (r : GenerateConstructorsParams) : Prop :=
  (GenerateConstructorsParams_constructors r = []) /\
  (lsCodeActionParams_valid (GenerateConstructorsParams_context r) /\
  Forall LspVariableBinding_valid (GenerateConstructorsParams_fields r)).
#[export] Instance GenerateConstructorsParams_roundtrip : Roundtrip GenerateConstructorsParams_codec GenerateConstructorsParams_valid.
Proof. struct_law_default. Qed.
#[export] Instance GenerateConstructorsParams_object : WritesObject GenerateConstructorsParams_codec.
Proof. intros v. by eexists. Qed.

Record LspDelegateEntry := mk_LspDelegateEntry {
  LspDelegateEntry_field : LspVariableBinding; LspDelegateEntry_delegateMethod : LspMethodBinding }.
Definition LspDelegateEntry_codec : codec LspDelegateEntry :=
  struct_codec
    (field (lit "field") LspVariableBinding_codec
     ⊗ field (lit "delegateMethod") LspMethodBinding_codec)
    (fun '(x0, x1) => mk_LspDelegateEntry x0 x1)
    (fun r => (LspDelegateEntry_field r, LspDelegateEntry_delegateMethod r)).
Definition LspDelegateEntry_valid (r : LspDelegateEntry) : Prop :=
  LspVariableBinding_valid (LspDelegateEntry_field r) /\
  LspMethodBinding_valid (LspDelegateEntry_delegateMethod r).
#[export] Instance LspDelegateEntry_roundtrip : Roundtrip LspDelegateEntry_codec LspDelegateEntry_valid.
Proof. struct_law. Qed.
#[export] Instance LspDelegateEntry_object : WritesObject LspDelegateEntry_codec.
Proof. intros v. by eexists. Qed.

Record GenerateDelegateMethodsParams := mk_GenerateDelegateMethodsParams {
  GenerateDelegateMethodsParams_context : lsCodeActionParams;
  GenerateDelegateMethodsParams_delegateEntries : list LspDelegateEntry }.
Definition GenerateDelegateMethodsParams_codec : codec GenerateDelegateMethodsParams :=
  struct_codec
    (field (lit "context") lsCodeActionParams_codec
     ⊗ field (lit "delegateEntries") (vector_codec LspDelegateEntry_codec))
    (fun '(x0, x1) => mk_GenerateDelegateMethodsParams x0 x1)
    (fun r => (GenerateDelegateMethodsParams_context r, GenerateDelegateMethodsParams_delegateEntries r)).
Definition GenerateDelegateMethodsParams_valid (r : GenerateDelegateMethodsParams) : Prop :=
  lsCodeActionParams_valid (GenerateDelegateMethodsParams_context r) /\
  Forall LspDelegateEntry_valid (GenerateDelegateMethodsParams_delegateEntries r).
#[export] Instance GenerateDelegateMethodsParams_roundtrip : Roundtrip GenerateDelegateMethodsParams_codec GenerateDelegateMethodsParams_valid.
Proof. struct_law. Qed.
#[export] Instance GenerateDelegateMethodsParams_object : WritesObject GenerateDelegateMethodsParams_codec.
Proof. intros v. by eexists. Qed.

Record GenerateHashCodeEqualsParams := mk_GenerateHashCodeEqualsParams {
  GenerateHashCodeEqualsParams_context : lsCodeActionParams;
  GenerateHashCodeEqualsParams_fields : list LspVariableBinding;
  GenerateHashCodeEqualsParams_regenerate : bool }.
Definition GenerateHashCodeEqualsParams_codec : codec GenerateHashCodeEqualsParams :=
  struct_codec
    (field (lit "context") lsCodeActionParams_codec
     ⊗ field (lit "fields") (vector_codec LspVariableBinding_codec)
     ⊗ field_init (lit "regenerate") bool_codec false)
    (fun '(x0, (x1, x2)) => mk_GenerateHashCodeEqualsParams x0 x1 x2)
    (fun r => (GenerateHashCodeEqualsParams_context r, (GenerateHashCodeEqualsParams_fields r,
     GenerateHashCodeEqualsParams_regenerate r))).
Definition GenerateHashCodeEqualsParams_valid (r : GenerateHashCodeEqualsParams) : Prop :=
  lsCodeActionParams_valid (GenerateHashCodeEqualsParams_context r) /\
  Forall LspVariableBinding_valid (GenerateHashCodeEqualsParams_fields r) /\
  any_valid (GenerateHashCodeEqualsParams_regenerate r).
#[export] Instance GenerateHashCodeEqualsParams_roundtrip : Roundtrip GenerateHashCodeEqualsParams_codec GenerateHashCodeEqualsParams_valid.
Proof. struct_law. Qed.
#[export] Instance GenerateHashCodeEqualsParams_object : WritesObject GenerateHashCodeEqualsParams_codec.
Proof. intros v. by eexists. Qed.

Record GenerateToStringParams := mk_GenerateToStringParams {
  GenerateToStringParams_context : lsCodeActionParams; GenerateToStringParams_fields : list LspVariableBinding }.
Definition GenerateToStringParams_codec : codec GenerateToStringParams :=
  struct_codec
    (field (lit "context") lsCodeActionParams_codec
     ⊗ field (lit "fields") (vector_codec LspVariableBinding_codec))
    (fun '(x0, x1) => mk_GenerateToStringParams x0 x1)
    (fun r => (GenerateToStringParams_context r, GenerateToStringParams_fields r)).
Definition GenerateToStringParams_valid (r : GenerateToStringParams) : Prop :=
  lsCodeActionParams_valid (GenerateToStringParams_context r) /\
  Forall LspVariableBinding_valid (GenerateToStringParams_fields r).
#[export] Instance GenerateToStringParams_roundtrip : Roundtrip GenerateToStringParams_codec GenerateToStringParams_valid.
Proof. struct_law. Qed.
#[export] Instance GenerateToStringParams_object : WritesObject GenerateToStringParams_codec.
Proof. intros v. by eexists. Qed.

Record MoveParams := mk_MoveParams {
  MoveParams_moveKind : bytes; MoveParams_sourceUris : list bytes;
  MoveParams_params : option lsCodeActionParams; MoveParams_destination : Any;
  MoveParams_updateReferences : bool }.
Definition MoveParams_codec : codec MoveParams :=
  struct_codec
    (field (lit "moveKind") string_codec
     ⊗ field (lit "sourceUris") (vector_codec string_codec)
     ⊗ opt_field (lit "params") lsCodeActionParams_codec
     ⊗ field (lit "destination") any
     ⊗ field (lit "updateReferences") bool_codec)
    (fun '(x0, (x1, (x2, (x3, x4)))) => mk_MoveParams x0 x1 x2 x3 x4)
    (fun r => (MoveParams_moveKind r, (MoveParams_sourceUris r, (MoveParams_params r,
     (MoveParams_destination r, MoveParams_updateReferences r))))).
Definition MoveParams_valid (r : MoveParams) : Prop :=
  text_valid (MoveParams_moveKind r) /\
  Forall text_valid (MoveParams_sourceUris r) /\
  opt_valid lsCodeActionParams_valid (MoveParams_params r) /\
  any_ok (MoveParams_destination r) /\
  any_valid (MoveParams_updateReferences r).
#[export] Instance MoveParams_roundtrip : Roundtrip MoveParams_codec MoveParams_valid.
Proof. struct_law. Qed.
#[export] Instance MoveParams_object : WritesObject MoveParams_codec.
Proof. intros v. by eexists. Qed.

Record MoveDestinationsResponse := mk_MoveDestinationsResponse {
  MoveDestinationsResponse_errorMessage : bytes; MoveDestinationsResponse_destinations : list Any }.
Definition MoveDestinationsResponse_codec : codec MoveDestinationsResponse :=
  struct_codec
    (field (lit "errorMessage") string_codec
     ⊗ field (lit "destinations") (vector_codec any))
    (fun '(x0, x1) => mk_MoveDestinationsResponse x0 x1)
    (fun r => (MoveDestinationsResponse_errorMessage r, MoveDestinationsResponse_destinations r)).
Definition MoveDestinationsResponse_valid (r : MoveDestinationsResponse) : Prop :=
  text_valid (MoveDestinationsResponse_errorMessage r) /\
  Forall any_ok (MoveDestinationsResponse_destinations r).
#[export] Instance MoveDestinationsResponse_roundtrip : Roundtrip MoveDestinationsResponse_codec MoveDestinationsResponse_valid.
Proof. struct_law. Qed.
#[export] Instance MoveDestinationsResponse_object : WritesObject MoveDestinationsResponse_codec.
Proof. intros v. by eexists. Qed.

Record RenamePosition := mk_RenamePosition {
  RenamePosition_uri : lsDocumentUri; RenamePosition_offset : Z; RenamePosition_length : Z }.
Definition RenamePosition_codec : codec RenamePosition :=
  struct_codec
    (field (lit "uri") lsDocumentUri_codec
     ⊗ field_init (lit "offset") int_codec 0%Z
     ⊗ field_init (lit "length") int_codec 0%Z)
    (fun '(x0, (x1, x2)) => mk_RenamePosition x0 x1 x2)
    (fun r => (RenamePosition_uri r, (RenamePosition_offset r, RenamePosition_length r))).
Definition RenamePosition_valid (r : RenamePosition) : Prop :=
  uri_valid (RenamePosition_uri r) /\
  int_valid (RenamePosition_offset r) /\
  int_valid (RenamePosition_length r).
#[export] Instance RenamePosition_roundtrip : Roundtrip RenamePosition_codec RenamePosition_valid.
Proof. struct_law. Qed.
#[export] Instance RenamePosition_object : WritesObject RenamePosition_codec.
Proof. intros v. by eexists. Qed.

Record GetRefactorEditParams := mk_GetRefactorEditParams {
  GetRefactorEditParams_command : bytes; GetRefactorEditParams_context : lsCodeActionParams;
  GetRefactorEditParams_options : option lsFormattingOptions;
  GetRefactorEditParams_commandArguments : list Any }.
Definition GetRefactorEditParams_codec : codec GetRefactorEditParams :=
  struct_codec
    (field (lit "command") string_codec
     ⊗ field (lit "context") lsCodeActionParams_codec
     ⊗ opt_field (lit "options") lsFormattingOptions_codec)
    (fun '(x0, (x1, x2)) => mk_GetRefactorEditParams x0 x1 x2 [])
    (fun r => (GetRefactorEditParams_command r, (GetRefactorEditParams_context r,
     GetRefactorEditParams_options r))).
Definition GetRefactorEditParams_valid (r : GetRefactorEditParams) : Prop :=
  (GetRefactorEditParams_commandArguments r = []) /\
  (text_valid (GetRefactorEditParams_command r) /\
  lsCodeActionParams_valid (GetRefactorEditParams_context r) /\
  opt_valid lsFormattingOptions_valid (GetRefactorEditParams_options r)).
#[export] Instance GetRefactorEditParams_roundtrip : Roundtrip GetRefactorEditParams_codec GetRefactorEditParams_valid.
Proof. struct_law_default. Qed.
#[export] Instance GetRefactorEditParams_object : WritesObject GetRefactorEditParams_codec.
Proof. intros v. by eexists. Qed.

Record RefactorWorkspaceEdit := mk_RefactorWorkspaceEdit {
  RefactorWorkspaceEdit_edit : lsWorkspaceEdit; RefactorWorkspaceEdit_command : option (lsCommand (list Any));
  RefactorWorkspaceEdit_errorMessage : option bytes }.
Definition RefactorWorkspaceEdit_codec : codec RefactorWorkspaceEdit :=
  struct_codec
    (field (lit "edit") lsWorkspaceEdit_codec
     ⊗ opt_field (lit "command") lsCommandWithAny_codec
     ⊗ opt_field (lit "errorMessage") string_codec)
    (fun '(x0, (x1, x2)) => mk_RefactorWorkspaceEdit x0 x1 x2)
    (fun r => (RefactorWorkspaceEdit_edit r, (RefactorWorkspaceEdit_command r,
     RefactorWorkspaceEdit_errorMessage r))).
Definition RefactorWorkspaceEdit_valid (r : RefactorWorkspaceEdit) : Prop :=
  lsWorkspaceEdit_valid (RefactorWorkspaceEdit_edit r) /\
  opt_valid lsCommandWithAny_valid (RefactorWorkspaceEdit_command r) /\
  opt_valid text_valid (RefactorWorkspaceEdit_errorMessage r).
#[export] Instance RefactorWorkspaceEdit_roundtrip : Roundtrip RefactorWorkspaceEdit_codec RefactorWorkspaceEdit_valid.
Proof. struct_law. Qed.
#[export] Instance RefactorWorkspaceEdit_object : WritesObject RefactorWorkspaceEdit_codec.
Proof. intros v. by eexists. Qed.

Record SearchSymbolParams := mk_SearchSymbolParams {
  SearchSymbolParams_query : bytes; SearchSymbolParams_projectName : option bytes;
  SearchSymbolParams_sourceOnly : option bool; SearchSymbolParams_maxResults : option Z }.
Definition SearchSymbolParams_codec : codec SearchSymbolParams :=
  struct_codec
    (field (lit "query") string_codec
     ⊗ opt_field (lit "projectName") string_codec
     ⊗ opt_field (lit "sourceOnly") bool_codec
     ⊗ opt_field (lit "maxResults") int_codec)
    (fun '(x0, (x1, (x2, x3))) => mk_SearchSymbolParams x0 x1 x2 x3)
    (fun r => (SearchSymbolParams_query r, (SearchSymbolParams_projectName r,
     (SearchSymbolParams_sourceOnly r, SearchSymbolParams_maxResults r)))).
Definition SearchSymbolParams_valid (r : SearchSymbolParams) : Prop :=
  text_valid (SearchSymbolParams_query r) /\
  opt_valid text_valid (SearchSymbolParams_projectName r) /\
  opt_valid any_valid (SearchSymbolParams_sourceOnly r) /\
  opt_valid int_valid (SearchSymbolParams_maxResults r).
#[export] Instance SearchSymbolParams_roundtrip : Roundtrip SearchSymbolParams_codec SearchSymbolParams_valid.
Proof. struct_law. Qed.
#[export] Instance SearchSymbolParams_object : WritesObject SearchSymbolParams_codec.
Proof. intros v. by eexists. Qed.
End Java.
