(* ===== verification/Trees.v ===== *)
(** * Recursive structs

    [SelectionRange], [lsDocumentSymbol] and [TypeHierarchyItem] contain
    values of their own type (include/LibLsp/lsp/textDocument/selectionRange.h,
    symbol.h, textDocument/typeHierarchy.h).  Their reader recurses on the
    document, their writer on the value.

    One layer of such a struct is a function [step] from the codec of the
    nested values to the codec of the struct.  [rec_codec] iterates it: the
    reader as often as the document is deep, the writer as often as the value
    is.  [rec_read_fixpoint] and [rec_write_fixpoint] show that this is the
    recursion of the program: the iteration never runs out. *)
From S2P Require Import Prelude CppString Position Utils Uri Json Reflect RequestId LspTypes ProtocolData.

(** ** Depth of a document *)
Fixpoint json_depth (j : json) : nat :=
  match j with
  | JArray l => S (foldr (fun x m => Nat.max (json_depth x) m) 0 l)
  | JObject ms => S (foldr (fun x m => Nat.max (json_depth x.2) m) 0 ms)
  | _ => 0
  end.

Lemma foldr_max_elem {A} (f : A -> nat) (l : list A) x : x ∈ l -> f x <= foldr (fun x m => Nat.max (f x) m) 0 l.
Proof. induction 1; cbn; lia. Qed.

Lemma elem_depth (l : list json) x : x ∈ l -> json_depth x < json_depth (JArray l).
Proof. intros H%(foldr_max_elem json_depth). cbn. lia. Qed.
Lemma member_depth (ms : list (bytes * json)) n v : (n, v) ∈ ms -> json_depth v < json_depth (JObject ms).
Proof. intros H%(foldr_max_elem (fun x : bytes * json => json_depth x.2)). cbn in *. lia. Qed.

(** ** Readers that agree on documents of small depth *)
Definition agree_below {T} (n : nat) (c c' : codec T) : Prop :=
  rinit c = rinit c' /\ forall j v, json_depth j < n -> rread c j v = rread c' j v.
Definition fields_agree {T} (j : json) (f f' : fields T) : Prop := forall v, f_read f j v = f_read f' j v.

Lemma vector_agree {T} n (c c' : codec T) : agree_below n c c' -> agree_below n (vector_codec c) (vector_codec c').
Proof.
  intros [Hi Hr]. split; [done|]. intros [| | | | |l|] v Hd; try done. cbn [rread vector_codec IterArray].
  assert (Hl : Forall (fun e => json_depth e < n) l)
    by (apply Forall_forall; intros e He; pose proof (elem_depth l e He); lia).
  clear Hd. revert v. induction Hl as [|e l He _ IH]; intros v; [done|]. cbn. rewrite (Hr e), <- Hi in * by done.
  by destruct (rread c' e _).
Qed.

Lemma opt_field_agree {T} name j (c c' : codec T) :
  agree_below (json_depth j) c c' -> fields_agree j (opt_field name c) (opt_field name c').
Proof.
  intros [Hi Hr] v. destruct j as [| | | | | |ms]; try done. cbn [f_read opt_field opt_field_init DoMember].
  destruct (FindMember name ms) as [x|] eqn:Hx; [|done]. cbn. rewrite Hi, Hr; [done|].
  by apply (member_depth ms name), FindMember_elem.
Qed.

Lemma field_pair_agree {A B} j (f f' : fields A) (g g' : fields B) :
  fields_agree j f f' -> fields_agree j g g' -> fields_agree j (f ⊗ g) (f' ⊗ g').
Proof.
  intros Hf Hg [a b]. cbn. rewrite (Hf a). destruct (f_read f' j a); [done|]. cbn. by rewrite (Hg b).
Qed.

Lemma struct_agree {T R} j (f f' : fields T) (to : T -> R) from v :
  fields_agree j f f' -> rread (struct_codec f to from) j v = rread (struct_codec f' to from) j v.
Proof. intros H. cbn. by rewrite (H (from v)). Qed.

(** The members of a layer: the nested ones agree, the others are the same *)
Ltac agree :=
  repeat apply field_pair_agree;
  first [ by intros ? | apply opt_field_agree; first [ done | by apply vector_agree ] ].

(** ** Iterating a layer *)
Section Recursion.
Context {R : Type} (step : codec R -> codec R) (start : R) (depth : R -> nat).

(** What is reached when the iteration runs out *)
Definition exhausted : codec R := mkCodec (fun j _ => throw [] j) (fun _ => JNull) start.

Fixpoint level (n : nat) : codec R :=
  match n with 0 => exhausted | S n => step (level n) end.

Definition rec_codec : codec R :=
  mkCodec (fun j v => rread (level (S (json_depth j))) j v) (fun r => rwrite (level (S (depth r))) r) start.

(** [layer P]: the values whose own members are valid and whose nested values
    satisfy [P] *)
Context (layer : (R -> Prop) -> R -> Prop).

Fixpoint within (n : nat) : R -> Prop :=
  match n with 0 => fun _ => False | S n => layer (within n) end.
Definition rec_valid (r : R) : Prop := within (S (depth r)) r.

(** What a struct has to show for one layer *)
Class Layer := {
  layer_init : forall c, rinit (step c) = start;
  layer_roundtrip : forall c P, Roundtrip c P -> NotNull c P -> Roundtrip (step c) (layer P);
  layer_object : forall c, WritesObject (step c);
  layer_mono : forall (P Q : R -> Prop) r, (forall x, P x -> Q x) -> layer P r -> layer Q r;
  layer_write : forall (P : R -> Prop) c c' r, (forall x, P x -> rwrite c x = rwrite c' x) -> layer P r ->
    rwrite (step c) r = rwrite (step c') r;
  layer_deeper : forall (P : R -> Prop) c r, layer P r ->
    layer (fun x => P x /\ json_depth (rwrite c x) < json_depth (rwrite (step c) r)) r;
  layer_depth : forall (P : R -> Prop) r, layer P r -> layer (fun x => P x /\ depth x < depth r) r;
  layer_read : forall c c' j v, agree_below (json_depth j) c c' -> rread (step c) j v = rread (step c') j v
}.
Context {HL : Layer}.

Lemma level_init n : rinit (level n) = start.
Proof using HL. destruct n; [done|apply layer_init]. Qed.

(** More iterations than the document is deep make no difference. *)
Lemma level_enough n m j v :
  json_depth j < n -> json_depth j < m -> rread (level n) j v = rread (level m) j v.
Proof using HL.
  revert m j v. induction n as [|n IH]; intros [|m] j v Hn Hm; [lia..|]. apply layer_read.
  split; [by rewrite !level_init|]. intros j' v' Hj. apply IH; lia.
Qed.

(** The reader is the recursive one of the program. *)
Lemma rec_read_fixpoint j v : rread rec_codec j v = rread (step rec_codec) j v.
Proof using HL.
  cbn [rread rec_codec]. change (level (S (json_depth j))) with (step (level (json_depth j))). apply layer_read.
  split; [apply level_init|]. intros j' v' Hj. apply level_enough; lia.
Qed.

Lemma within_le n m r : n <= m -> within n r -> within m r.
Proof using HL.
  revert m r. induction n as [|n IH]; intros [|m] r Hle; [done|done|lia|].
  apply layer_mono. intros x. apply IH. lia.
Qed.

Lemma level_write n m r : n <= m -> within n r -> rwrite (level n) r = rwrite (level m) r.
Proof using HL.
  revert m r. induction n as [|n IH]; intros [|m] r Hle; [done|done|lia|].
  apply layer_write. intros x. apply IH. lia.
Qed.

(** The depth of a value is at least that of what it is written as. *)
Lemma within_written n r : within n r -> within (S (json_depth (rwrite (level n) r))) r.
Proof using HL.
  revert r. induction n as [|n IH]; intros r Hr; [done|]. cbn [within level] in *.
  apply (layer_deeper (within n) (level n)) in Hr. revert Hr. apply layer_mono.
  intros x [Hx Hd]. apply (within_le (S (json_depth (rwrite (level n) x)))); [lia|by apply IH].
Qed.

(** Every valid value is valid within its depth, and the writer is the
    recursive one of the program. *)
Lemma within_depth n r : within n r -> rec_valid r.
Proof using HL.
  revert r. induction n as [|n IH]; intros r Hr; [done|]. unfold rec_valid. cbn [within] in *.
  apply layer_depth in Hr. revert Hr. apply layer_mono. intros x [Hx Hd].
  apply (within_le (S (depth x))); [lia|by apply IH].
Qed.

Lemma rec_write_fixpoint r : rec_valid r -> rwrite rec_codec r = rwrite (step rec_codec) r.
Proof using HL.
  intros Hr. cbn [rwrite rec_codec]. change (level (S (depth r))) with (step (level (depth r))).
  apply (layer_write (fun x => within (depth r) x /\ depth x < depth r)).
  - intros x [Hx Hd]. symmetry. apply level_write; [lia|]. by apply (within_depth (depth r)).
  - by apply layer_depth.
Qed.

Lemma level_laws n : Roundtrip (level n) (within n) /\ NotNull (level n) (within n).
Proof using HL.
  induction n as [|n [IH1 IH2]]; [split; by intros ? []|]. split; [by apply layer_roundtrip|].
  intros r _. cbn [level]. by destruct (layer_object (level n) r) as [ms ->].
Qed.

Lemma rec_roundtrip : Roundtrip rec_codec rec_valid.
Proof using HL.
  intros r Hr. cbn [rread rwrite rinit rec_codec]. set (n := S (depth r)) in *. set (j := rwrite (level n) r).
  pose proof (within_written n r Hr) as Hj. fold j in Hj.
  assert (Hw : rwrite (level (S (json_depth j))) r = j).
  { unfold j at 2. destruct (Nat.le_ge_cases n (S (json_depth j))) as [Hle|Hle];
      [symmetry; by apply level_write|by apply level_write]. }
  pose proof (proj1 (level_laws (S (json_depth j))) r Hj) as H. by rewrite Hw, level_init in H.
Qed.
End Recursion.

#[export] Instance rec_object {R} (step : codec R -> codec R) start depth :
  (forall c, WritesObject (step c)) -> WritesObject (rec_codec step start depth).
Proof. intros H r. apply H. Qed.
Arguments Layer {R} _ _ _ _.

(** ** Selection ranges

    The parent is an owned pointer; the reader leaves none when the document
    has none. *)
Inductive SelectionRange := mk_SelectionRange {
  SelectionRange_range : lsRange; SelectionRange_parent : option SelectionRange }.

Definition SelectionRange_step (c : codec SelectionRange) : codec SelectionRange :=
  struct_codec
    (field (lit "range") lsRange_codec
     ⊗ opt_field (lit "parent") c)
    (fun '(x0, x1) => mk_SelectionRange x0 x1)
    (fun r => (SelectionRange_range r, SelectionRange_parent r)).
Definition SelectionRange_start : SelectionRange := mk_SelectionRange (rinit lsRange_codec) None.
Definition SelectionRange_layer (P : SelectionRange -> Prop) (r : SelectionRange) : Prop :=
  range_valid (SelectionRange_range r) /\
  opt_valid P (SelectionRange_parent r).
Fixpoint SelectionRange_depth (r : SelectionRange) : nat :=
  match SelectionRange_parent r with Some p => S (SelectionRange_depth p) | None => 0 end.

#[export] Instance SelectionRange_laws :
  Layer SelectionRange_step SelectionRange_start SelectionRange_depth SelectionRange_layer.
Proof.
  split.
  - done.
  - intros c P Hr Hn. struct_law.
  - intros c v. by eexists.
  - intros P Q [s [p|]] H [H1 H2]; split; try done. by apply H.
  - intros P c c' [s [p|]] H [H1 H2]; [|done]. cbn in *. by rewrite (H p).
  - intros P c [s [p|]] [H1 H2]; split; try done. cbn in H2 |- *. split; [done|]. lia.
  - intros P [s [p|]] [H1 H2]; split; try done. cbn in H2 |- *. split; [done|]. lia.
  - intros c c' j v H. apply struct_agree. agree.
Qed.

Definition SelectionRange_codec : codec SelectionRange :=
  rec_codec SelectionRange_step SelectionRange_start SelectionRange_depth.
Definition SelectionRange_valid : SelectionRange -> Prop := rec_valid SelectionRange_depth SelectionRange_layer.
#[export] Instance SelectionRange_roundtrip : Roundtrip SelectionRange_codec SelectionRange_valid.
Proof. apply rec_roundtrip, _. Qed.
#[export] Instance SelectionRange_object : WritesObject SelectionRange_codec.
Proof. apply rec_object. intros c v. by eexists. Qed.

(** ** Nested vectors *)
Section Vectors.
Context {R : Type}.
Implicit Types (P Q : R -> Prop) (c : codec R) (o : option (list R)).

Lemma nested_mono P Q o : (forall x, P x -> Q x) -> opt_valid (Forall P) o -> opt_valid (Forall Q) o.
Proof. destruct o; [|done]. intros H Ho. by apply (Forall_impl P). Qed.

Lemma nested_write P c c' name o :
  (forall x, P x -> rwrite c x = rwrite c' x) -> opt_valid (Forall P) o ->
  WriteOptional (vector_codec c) name o = WriteOptional (vector_codec c') name o.
Proof.
  intros H Ho. destruct o as [l|]; [|done]. cbn in *. do 3 f_equal.
  induction Ho as [|x l Hx _ IH]; [done|]. cbn. by rewrite (H x Hx), IH.
Qed.

Lemma nested_deeper P c name o ms :
  opt_valid (Forall P) o -> WriteOptional (vector_codec c) name o ⊆ ms ->
  opt_valid (Forall (fun x => P x /\ json_depth (rwrite c x) < json_depth (JObject ms))) o.
Proof.
  destruct o as [l|]; [|done]. intros Ho Hs. cbn in *. rewrite Forall_forall in Ho. apply Forall_forall. intros x Hx.
  split; [by apply Ho|]. transitivity (json_depth (JArray (map (rwrite c) l))).
  - apply elem_depth. by apply list_elem_of_fmap_2.
  - apply (member_depth ms name), Hs. set_solver.
Qed.

Lemma written_here {A B} (c : codec A) name (g : fields B) (o : option A) b :
  WriteOptional c name o ⊆ f_write (opt_field name c ⊗ g) (o, b).
Proof. cbn. set_solver. Qed.
Lemma written_there {A B} (f : fields A) (g : fields B) a b l :
  l ⊆ f_write g b -> l ⊆ f_write (f ⊗ g) (a, b).
Proof. cbn. set_solver. Qed.

Definition nested_depth (depth : R -> nat) o : nat :=
  match o with Some l => S (foldr (fun x m => Nat.max (depth x) m) 0 l) | None => 0 end.

Lemma nested_depth_lt P depth o n :
  nested_depth depth o <= n -> opt_valid (Forall P) o -> opt_valid (Forall (fun x => P x /\ depth x < n)) o.
Proof.
  destruct o as [l|]; [|done]. cbn. intros Hn Ho. rewrite Forall_forall in Ho. apply Forall_forall. intros x Hx.
  split; [by apply Ho|]. pose proof (foldr_max_elem depth l x Hx). lia.
Qed.
End Vectors.

(** The members of one layer, and what is left to show for the nested ones *)
Ltac nested layer tac :=
  let H := fresh in intros H; unfold layer in *; decompose [and] H; clear H;
  repeat match goal with |- _ /\ _ => split end; try assumption; tac.

(** ** Document symbols *)
Inductive lsDocumentSymbol := mk_lsDocumentSymbol {
  lsDocumentSymbol_name : bytes; lsDocumentSymbol_kind : Z; lsDocumentSymbol_range : lsRange;
  lsDocumentSymbol_selectionRange : lsRange; lsDocumentSymbol_detail : option bytes;
  lsDocumentSymbol_deprecated : option bool; lsDocumentSymbol_children : option (list lsDocumentSymbol);
  lsDocumentSymbol_flags : Z }.

Definition lsDocumentSymbol_step (c : codec lsDocumentSymbol) : codec lsDocumentSymbol :=
  struct_codec
    (field (lit "name") string_codec
     ⊗ field_init (lit "kind") lsSymbolKind_codec 0%Z
     ⊗ field (lit "range") lsRange_codec
     ⊗ field (lit "selectionRange") lsRange_codec
     ⊗ opt_field (lit "detail") string_codec
     ⊗ opt_field (lit "deprecated") bool_codec
     ⊗ opt_field (lit "children") (vector_codec c)
     ⊗ field_init (lit "flags") int_codec 0%Z)
    (fun '(x0, (x1, (x2, (x3, (x4, (x5, (x6, x7))))))) => mk_lsDocumentSymbol x0 x1 x2 x3 x4 x5 x6 x7)
    (fun r => (lsDocumentSymbol_name r, (lsDocumentSymbol_kind r, (lsDocumentSymbol_range r,
     (lsDocumentSymbol_selectionRange r, (lsDocumentSymbol_detail r, (lsDocumentSymbol_deprecated r,
     (lsDocumentSymbol_children r, lsDocumentSymbol_flags r)))))))).
Definition lsDocumentSymbol_start : lsDocumentSymbol :=
  mk_lsDocumentSymbol [] 0 (rinit lsRange_codec) (rinit lsRange_codec) None None None 0.
Definition lsDocumentSymbol_layer (P : lsDocumentSymbol -> Prop) (r : lsDocumentSymbol) : Prop :=
  text_valid (lsDocumentSymbol_name r) /\
  uint8_valid (lsDocumentSymbol_kind r) /\
  range_valid (lsDocumentSymbol_range r) /\
  range_valid (lsDocumentSymbol_selectionRange r) /\
  opt_valid text_valid (lsDocumentSymbol_detail r) /\
  opt_valid any_valid (lsDocumentSymbol_deprecated r) /\
  opt_valid (Forall P) (lsDocumentSymbol_children r) /\
  int_valid (lsDocumentSymbol_flags r).
Fixpoint lsDocumentSymbol_depth (r : lsDocumentSymbol) : nat :=
  nested_depth lsDocumentSymbol_depth (lsDocumentSymbol_children r).

#[export] Instance lsDocumentSymbol_laws :
  Layer lsDocumentSymbol_step lsDocumentSymbol_start lsDocumentSymbol_depth lsDocumentSymbol_layer.
Proof.
  split.
  - done.
  - intros c P Hr Hn. struct_law.
  - intros c v. by eexists.
  - intros P Q r HPQ. nested lsDocumentSymbol_layer ltac:(by eapply nested_mono).
  - intros P c c' r Hc (_ & _ & _ & _ & _ & _ & H & _). cbn. by rewrite (nested_write P c c').
  - intros P c r. nested lsDocumentSymbol_layer ltac:(apply (nested_deeper _ _ (lit "children")); [done|]).
    do 6 apply written_there. apply written_here.
  - intros P r. nested lsDocumentSymbol_layer ltac:(apply nested_depth_lt; [by destruct r|done]).
  - intros c c' j v H. apply struct_agree. agree.
Qed.

Definition lsDocumentSymbol_codec : codec lsDocumentSymbol :=
  rec_codec lsDocumentSymbol_step lsDocumentSymbol_start lsDocumentSymbol_depth.
Definition lsDocumentSymbol_valid : lsDocumentSymbol -> Prop :=
  rec_valid lsDocumentSymbol_depth lsDocumentSymbol_layer.
#[export] Instance lsDocumentSymbol_roundtrip : Roundtrip lsDocumentSymbol_codec lsDocumentSymbol_valid.
Proof. apply rec_roundtrip, _. Qed.
#[export] Instance lsDocumentSymbol_object : WritesObject lsDocumentSymbol_codec.
Proof. apply rec_object. intros c v. by eexists. Qed.

(** ** Type hierarchies (textDocument/typeHierarchy.h, resolveTypeHierarchy.h) *)
Section Hierarchy.
Context {rapidjson : RapidJson}.
Abbreviation any := (any_codec Parse Print).
Abbreviation any_ok := (any_value_valid Parse Print).

Inductive TypeHierarchyItem := mk_TypeHierarchyItem {
  TypeHierarchyItem_name : bytes; TypeHierarchyItem_detail : option bytes; TypeHierarchyItem_kind : Z;
  TypeHierarchyItem_deprecated : option bool; TypeHierarchyItem_uri : lsDocumentUri;
  TypeHierarchyItem_range : lsRange; TypeHierarchyItem_selectionRange : lsRange;
  TypeHierarchyItem_parents : option (list TypeHierarchyItem);
  TypeHierarchyItem_children : option (list TypeHierarchyItem); TypeHierarchyItem_data : option Any }.
Definition TypeHierarchyItem_step (c : codec TypeHierarchyItem) : codec TypeHierarchyItem :=
  struct_codec
    (field (lit "name") string_codec
     ⊗ opt_field (lit "detail") string_codec
     ⊗ field (lit "kind") lsSymbolKind_codec
     ⊗ opt_field (lit "deprecated") bool_codec
     ⊗ field (lit "uri") lsDocumentUri_codec
     ⊗ field (lit "range") lsRange_codec
     ⊗ field (lit "selectionRange") lsRange_codec
     ⊗ opt_field (lit "parents") (vector_codec c)
     ⊗ opt_field (lit "children") (vector_codec c)
     ⊗ opt_field (lit "data") any)
    (fun '(x0, (x1, (x2, (x3, (x4, (x5, (x6, (x7, (x8, x9))))))))) => mk_TypeHierarchyItem x0 x1 x2 x3 x4 x5
     x6 x7 x8 x9)
    (fun r => (TypeHierarchyItem_name r, (TypeHierarchyItem_detail r, (TypeHierarchyItem_kind r,
     (TypeHierarchyItem_deprecated r, (TypeHierarchyItem_uri r, (TypeHierarchyItem_range r,
     (TypeHierarchyItem_selectionRange r, (TypeHierarchyItem_parents r, (TypeHierarchyItem_children r,
     TypeHierarchyItem_data r)))))))))).
Definition TypeHierarchyItem_start : TypeHierarchyItem :=
  mk_TypeHierarchyItem [] None 0 None (rinit lsDocumentUri_codec) (rinit lsRange_codec) (rinit lsRange_codec)
    None None None.
Definition TypeHierarchyItem_layer (P : TypeHierarchyItem -> Prop) (r : TypeHierarchyItem) : Prop :=
  text_valid (TypeHierarchyItem_name r) /\
  opt_valid text_valid (TypeHierarchyItem_detail r) /\
  uint8_valid (TypeHierarchyItem_kind r) /\
  opt_valid any_valid (TypeHierarchyItem_deprecated r) /\
  uri_valid (TypeHierarchyItem_uri r) /\
  range_valid (TypeHierarchyItem_range r) /\
  range_valid (TypeHierarchyItem_selectionRange r) /\
  opt_valid (Forall P) (TypeHierarchyItem_parents r) /\
  opt_valid (Forall P) (TypeHierarchyItem_children r) /\
  opt_valid any_ok (TypeHierarchyItem_data r).
Fixpoint TypeHierarchyItem_depth (r : TypeHierarchyItem) : nat :=
  Nat.max (nested_depth TypeHierarchyItem_depth (TypeHierarchyItem_parents r))
    (nested_depth TypeHierarchyItem_depth (TypeHierarchyItem_children r)).

#[export] Instance TypeHierarchyItem_laws :
  Layer TypeHierarchyItem_step TypeHierarchyItem_start TypeHierarchyItem_depth TypeHierarchyItem_layer.
Proof.
  split.
  - done.
  - intros c P Hr Hn. struct_law.
  - intros c v. by eexists.
  - intros P Q r HPQ. nested TypeHierarchyItem_layer ltac:(by eapply nested_mono).
  - intros P c c' r Hc (_ & _ & _ & _ & _ & _ & _ & H & H' & _). cbn.
    by rewrite !(nested_write P c c').
  - intros P c r. nested TypeHierarchyItem_layer idtac.
    + apply (nested_deeper _ _ (lit "parents")); [done|]. do 7 apply written_there. apply written_here.
    + apply (nested_deeper _ _ (lit "children")); [done|]. do 8 apply written_there. apply written_here.
  - intros P r. nested TypeHierarchyItem_layer ltac:(apply nested_depth_lt; [destruct r; cbn; lia|done]).
  - intros c c' j v H. apply struct_agree. agree.
Qed.

Definition TypeHierarchyItem_codec : codec TypeHierarchyItem :=
  rec_codec TypeHierarchyItem_step TypeHierarchyItem_start TypeHierarchyItem_depth.
Definition TypeHierarchyItem_valid : TypeHierarchyItem -> Prop :=
  rec_valid TypeHierarchyItem_depth TypeHierarchyItem_layer.
#[export] Instance TypeHierarchyItem_roundtrip : Roundtrip TypeHierarchyItem_codec TypeHierarchyItem_valid.
Proof. apply rec_roundtrip, _. Qed.
#[export] Instance TypeHierarchyItem_object : WritesObject TypeHierarchyItem_codec.
Proof. apply rec_object. intros c v. by eexists. Qed.

Record ResolveTypeHierarchyItemParams := mk_ResolveTypeHierarchyItemParams {
  ResolveTypeHierarchyItemParams_item : TypeHierarchyItem; ResolveTypeHierarchyItemParams_resolve : option Z;
  ResolveTypeHierarchyItemParams_direction : TypeHierarchyDirection }.
Definition ResolveTypeHierarchyItemParams_codec : codec ResolveTypeHierarchyItemParams :=
  struct_codec
    (field (lit "item") TypeHierarchyItem_codec
     ⊗ opt_field (lit "resolve") int_codec
     ⊗ field (lit "direction") TypeHierarchyDirection_codec)
    (fun '(x0, (x1, x2)) => mk_ResolveTypeHierarchyItemParams x0 x1 x2)
    (fun r => (ResolveTypeHierarchyItemParams_item r, (ResolveTypeHierarchyItemParams_resolve r,
     ResolveTypeHierarchyItemParams_direction r))).
Definition ResolveTypeHierarchyItemParams_valid (r : ResolveTypeHierarchyItemParams) : Prop :=
  TypeHierarchyItem_valid (ResolveTypeHierarchyItemParams_item r) /\
  opt_valid int_valid (ResolveTypeHierarchyItemParams_resolve r) /\
  direction_valid (ResolveTypeHierarchyItemParams_direction r).
#[export] Instance ResolveTypeHierarchyItemParams_roundtrip : Roundtrip ResolveTypeHierarchyItemParams_codec ResolveTypeHierarchyItemParams_valid.
Proof. struct_law. Qed.
#[export] Instance ResolveTypeHierarchyItemParams_object : WritesObject ResolveTypeHierarchyItemParams_codec.
Proof. intros v. by eexists. Qed.

End Hierarchy.

(** ** Colours (textDocument/documentColor.h, colorPresentation.h)

    [GetDouble] and [Double] are rapidjson's conversions. *)
Section Colours.
Context {double : Type}.
Variable GetDouble : json -> double.
Variable Double : double -> json.
Variable zero : double.

Definition IsNumber (j : json) : bool := match j with JNumber _ | JDouble _ => true | _ => false end.
Definition double_codec : codec double :=
  mkCodec (fun j _ => if negb (IsNumber j) then throw (lit "double") j else inr (GetDouble j)) Double zero.
(** A value that rapidjson writes as a number and reads back *)
Definition double_valid (d : double) : Prop := IsNumber (Double d) = true /\ GetDouble (Double d) = d.
#[export] Instance double_roundtrip : Roundtrip double_codec double_valid.
Proof. intros d [H1 H2]. cbn. by rewrite H1, H2. Qed.

Record TextDocument_Color := mk_TextDocument_Color {
  TextDocument_Color_red : double; TextDocument_Color_green : double; TextDocument_Color_blue : double;
  TextDocument_Color_alpha : double }.
Definition TextDocument_Color_codec : codec TextDocument_Color :=
  struct_codec
    (field (lit "red") double_codec
     ⊗ field (lit "green") double_codec
     ⊗ field (lit "blue") double_codec
     ⊗ field (lit "alpha") double_codec)
    (fun '(x0, (x1, (x2, x3))) => mk_TextDocument_Color x0 x1 x2 x3)
    (fun r => (TextDocument_Color_red r, (TextDocument_Color_green r, (TextDocument_Color_blue r,
     TextDocument_Color_alpha r)))).
Definition TextDocument_Color_valid (r : TextDocument_Color) : Prop :=
  double_valid (TextDocument_Color_red r) /\
  double_valid (TextDocument_Color_green r) /\
  double_valid (TextDocument_Color_blue r) /\
  double_valid (TextDocument_Color_alpha r).
#[export] Instance TextDocument_Color_roundtrip : Roundtrip TextDocument_Color_codec TextDocument_Color_valid.
Proof. struct_law. Qed.
#[export] Instance TextDocument_Color_object : WritesObject TextDocument_Color_codec.
Proof. intros v. by eexists. Qed.

Record ColorInformation := mk_ColorInformation {
  ColorInformation_range : lsRange; ColorInformation_color : TextDocument_Color }.
Definition ColorInformation_codec : codec ColorInformation :=
  struct_codec
    (field (lit "range") lsRange_codec
     ⊗ field (lit "color") TextDocument_Color_codec)
    (fun '(x0, x1) => mk_ColorInformation x0 x1)
    (fun r => (ColorInformation_range r, ColorInformation_color r)).
Definition ColorInformation_valid (r : ColorInformation) : Prop :=
  range_valid (ColorInformation_range r) /\
  TextDocument_Color_valid (ColorInformation_color r).
#[export] Instance ColorInformation_roundtrip : Roundtrip ColorInformation_codec ColorInformation_valid.
Proof. struct_law. Qed.
#[export] Instance ColorInformation_object : WritesObject ColorInformation_codec.
Proof. intros v. by eexists. Qed.

Record ColorPresentationParams := mk_ColorPresentationParams {
  ColorPresentationParams_textDocument : lsTextDocumentIdentifier; ColorPresentationParams_range : lsRange;
  ColorPresentationParams_color : TextDocument_Color }.
Definition ColorPresentationParams_codec : codec ColorPresentationParams :=
  struct_codec
    (field (lit "textDocument") lsTextDocumentIdentifier_codec
     ⊗ field (lit "range") lsRange_codec
     ⊗ field (lit "color") TextDocument_Color_codec)
    (fun '(x0, (x1, x2)) => mk_ColorPresentationParams x0 x1 x2)
    (fun r => (ColorPresentationParams_textDocument r, (ColorPresentationParams_range r,
     ColorPresentationParams_color r))).
Definition ColorPresentationParams_valid (r : ColorPresentationParams) : Prop :=
  docid_valid (ColorPresentationParams_textDocument r) /\
  range_valid (ColorPresentationParams_range r) /\
  TextDocument_Color_valid (ColorPresentationParams_color r).
#[export] Instance ColorPresentationParams_roundtrip : Roundtrip ColorPresentationParams_codec ColorPresentationParams_valid.
Proof. struct_law. Qed.
#[export] Instance ColorPresentationParams_object : WritesObject ColorPresentationParams_codec.
Proof. intros v. by eexists. Qed.
End Colours.

(** * Theorems *)

(** The readers terminate on every document, and satisfy the recursive
    equations of the program: each is the reader of its struct with itself for
    the nested values.  So do the writers, on every valid value. *)
Theorem tree_codecs_recurse {rapidjson : RapidJson} :
  (forall j v, rread SelectionRange_codec j v = rread (SelectionRange_step SelectionRange_codec) j v) /\
  (forall j v, rread lsDocumentSymbol_codec j v = rread (lsDocumentSymbol_step lsDocumentSymbol_codec) j v) /\
  (forall j v, rread TypeHierarchyItem_codec j v = rread (TypeHierarchyItem_step TypeHierarchyItem_codec) j v) /\
  (forall r, SelectionRange_valid r ->
     rwrite SelectionRange_codec r = rwrite (SelectionRange_step SelectionRange_codec) r) /\
  (forall r, lsDocumentSymbol_valid r ->
     rwrite lsDocumentSymbol_codec r = rwrite (lsDocumentSymbol_step lsDocumentSymbol_codec) r) /\
  (forall r, TypeHierarchyItem_valid r ->
     rwrite TypeHierarchyItem_codec r = rwrite (TypeHierarchyItem_step TypeHierarchyItem_codec) r).
Proof.
  split_and!.
  - exact (rec_read_fixpoint _ _ _ SelectionRange_layer).
  - exact (rec_read_fixpoint _ _ _ lsDocumentSymbol_layer).
  - exact (rec_read_fixpoint _ _ _ TypeHierarchyItem_layer).
  - exact (rec_write_fixpoint _ _ _ SelectionRange_layer).
  - exact (rec_write_fixpoint _ _ _ lsDocumentSymbol_layer).
  - exact (rec_write_fixpoint _ _ _ TypeHierarchyItem_layer).
Qed.

(** A document with symbols in symbols *)
Lemma tree_codecs_recurse_witness :
  let rj := {| Parse := fun _ => None; Print := fun _ => [] |} in
  let r := mkRange (mkPosition 0 0) (mkPosition 1 0) in
  let leaf := mk_lsDocumentSymbol (lit "f") 6 r r None None None 0 in
  let s := mk_lsDocumentSymbol (lit "C") 5 r r None (Some true) (Some [leaf; leaf]) 0 in
  lsDocumentSymbol_valid s /\
  rwrite lsDocumentSymbol_codec s = rwrite (lsDocumentSymbol_step lsDocumentSymbol_codec) s.
Proof.
  intros rj r leaf s.
  assert (Hs : lsDocumentSymbol_valid s).
  { unfold lsDocumentSymbol_valid, rec_valid, s, leaf. cbn [lsDocumentSymbol_depth lsDocumentSymbol_children].
    assert (Ht : forall t, bool_decide (NUL ∈ t) = false -> text_valid t) by (intros t; apply bool_decide_eq_false).
    assert (Hr : range_valid r) by (vm_compute; repeat split; discriminate).
    repeat first [ assumption | apply Ht; reflexivity | apply Hr
      | progress cbn | split | constructor | (unfold uint8_valid, int_valid, Json.between; lia) ]. }
  split; [done|].
  destruct (@tree_codecs_recurse rj) as (_ & _ & _ & _ & H & _). by apply H.
Defined.
