(* ===== verification/Writer.v ===== *)
(** * Writers

    The interface [Writer] (serializer.h), [JsonWriter] (json.h) and the
    functions [Reflect] and [ReflectMember] that call it (serializer.h,
    serializer.cpp), for every type that the templates and the macros can
    build.  A writer is called step by step: keys, values, starts and ends of
    arrays and objects.  The file shows that these calls are always properly
    nested, that they build the document that the codecs of Json.v and
    Reflect.v describe, and that the reader of the type gets the value back. *)
From S2P Require Import Prelude CppString Position Utils Uri Json Reflect Trees.

Section Writer.
Context {double : Type}.
Variable GetDouble : json -> double.
Variable Double : double -> json.
Variable zero : double.

(** ** The interface *)

(** The virtual functions of [Writer].  [WCString] is [String(x)] without a length. *)
Inductive wcall :=
| WNull
| WBool (x : bool)
| WInt (x : Z)
| WUint32 (x : Z)
| WInt64 (x : Z)
| WUint64 (x : Z)
| WDouble (x : double)
| WCString (x : bytes)
| WString (x : bytes) (len : Z)
| WStartArray (size : nat)
| WEndArray
| WStartObject
| WEndObject
| WKey (name : bytes).

(** The calls of rapidjson's handler interface that [JsonWriter] makes *)
Inductive event :=
| ENull
| EBool (x : bool)
| EInt (x : Z)
| EInt64 (x : Z)
| EUint64 (x : Z)
| EDouble (x : double)
| EString (x : bytes)
| EStartArray
| EEndArray
| EStartObject
| EEndObject
| EKey (name : bytes).

(** A string of [len] bytes at [x] (which is [c_str()] of a longer or equally
    long string) *)
Definition JsonWriter (w : wcall) : event :=
  match w with
  | WNull => ENull
  | WBool x => EBool x
  | WInt x => EInt x
  | WUint32 x => EUint64 x
  | WInt64 x => EInt64 x
  | WUint64 x => EUint64 x
  | WDouble x => EDouble x
  | WCString x => EString (c_str x)
  | WString x len => EString (take (Z.to_nat len) x)
  | WStartArray _ => EStartArray
  | WEndArray => EEndArray
  | WStartObject => EStartObject
  | WEndObject => EEndObject
  | WKey name => EKey (c_str name)
  end.

Definition JsonWriter_Format : SerializeFormat := Json.Json.

(** *** The document of a sequence of events

    rapidjson's contract: one value in all, a key before each value of an
    object, ends that match their starts; [None] otherwise.  [frames] are the
    open arrays and objects, the innermost first. *)
Inductive frame :=
| InArray (elems : list json)
| InObject (members : list (bytes * json)) (key : option bytes).

Record document := mkDocument { frames : list frame; root : option json }.

Definition empty_document : document := mkDocument [] None.

Definition put (j : json) (d : document) : option document :=
  match frames d with
  | [] => match root d with None => Some (mkDocument [] (Some j)) | Some _ => None end
  | InArray l :: fs => Some (mkDocument (InArray (l ++ [j]) :: fs) (root d))
  | InObject ms (Some k) :: fs => Some (mkDocument (InObject (ms ++ [(k, j)]) None :: fs) (root d))
  | InObject _ None :: _ => None
  end.

Definition push (f : frame) (d : document) : document := mkDocument (f :: frames d) (root d).

Definition handle (e : event) (d : document) : option document :=
  match e with
  | ENull => put JNull d
  | EBool x => put (JBool x) d
  | EInt x | EInt64 x | EUint64 x => put (JNumber x) d
  | EDouble x => put (Double x) d
  | EString x => put (JString x) d
  | EStartArray => Some (push (InArray []) d)
  | EStartObject => Some (push (InObject [] None) d)
  | EKey k =>
      match frames d with
      | InObject ms None :: fs => Some (mkDocument (InObject ms (Some k) :: fs) (root d))
      | _ => None
      end
  | EEndArray =>
      match frames d with InArray l :: fs => put (JArray l) (mkDocument fs (root d)) | _ => None end
  | EEndObject =>
      match frames d with
      | InObject ms None :: fs => put (JObject ms) (mkDocument fs (root d))
      | _ => None
      end
  end.

Fixpoint handle_all (es : list event) (d : document) : option document :=
  match es with [] => Some d | e :: es => handle e d ≫= handle_all es end.

(** The finished document *)
Definition written (es : list event) : option json :=
  d ← handle_all es empty_document;
  match frames d with [] => root d | _ :: _ => None end.

(** ** Types that can be reflected

    The elementary types of serializer.cpp, the type constructors of
    serializer.h, the pairs whose first alternative is a [bool] or a string
    and the generic ones, and structs made by [MAKE_REFLECT_STRUCT] (or, without members, by
    [MAKE_REFLECT_EMPTY_STRUCT]). *)
Inductive type :=
| TUint8 | TShort | TUshort | TInt | TUnsigned | TLong | TUlong | TLongLong | TUlongLong
| TDouble | TBool | TString | TJsonNull | TFormat
| TOptional (t : type)
| TNullable (t : type)
| TVector (t : type)
| TMap (t : type)
| TBoolOr (t : type)
| TStringOr (t : type)
| TPair (t1 t2 : type)
| TStruct (m : members)
with members :=
| MEnd
| MField (name : bytes) (t : type) (m : members)
| MOptional (name : bytes) (t : type) (m : members).

Scheme type_mut := Induction for type Sort Prop
with members_mut := Induction for members Sort Prop.
Combined Scheme types_ind from type_mut, members_mut.

Fixpoint value (t : type) : Type :=
  match t with
  | TUint8 | TShort | TUshort | TInt | TUnsigned | TLong | TUlong | TLongLong | TUlongLong => Z
  | TDouble => double
  | TBool => bool
  | TString => bytes
  | TJsonNull => unit
  | TFormat => SerializeFormat
  | TOptional t | TNullable t => option (value t)
  | TVector t => list (value t)
  | TMap t => list (bytes * value t)
  | TBoolOr t => option bool * option (value t)
  | TStringOr t => option bytes * option (value t)
  | TPair t1 t2 => option (value t1) * option (value t2)
  | TStruct m => values m
  end
with values (m : members) : Type :=
  match m with
  | MEnd => unit
  | MField _ t m => value t * values m
  | MOptional _ t m => option (value t) * values m
  end.

(** ** [Reflect(Writer&, T&)] *)

(** [visitor.String(value.c_str(), (rapidjson::SizeType)value.size())], with
    the size cast to 32 bits *)
Definition Reflect_string (value : bytes) : list wcall :=
  [WString value (uwrap 32 (Z.of_nat (length value)))].

(** [optional] and [Nullable] *)
Definition Reflect_optional {T} (reflect : T -> list wcall) (value : option T) : list wcall :=
  match value with Some x => reflect x | None => [WNull] end.

Definition Reflect_vector {T} (reflect : T -> list wcall) (values : list T) : list wcall :=
  WStartArray (length values) :: concat (map reflect values) ++ [WEndArray].

Definition Reflect_map {T} (reflect : T -> list wcall) (value : list (bytes * T)) : list wcall :=
  WStartObject :: concat (map (fun it => WKey it.1 :: reflect it.2) value) ++ [WEndObject].

Definition Reflect_pair {A B} (first : A -> list wcall) (second : B -> list wcall)
    (value : option A * option B) : list wcall :=
  match value.1 with
  | Some _ => Reflect_optional first value.1
  | None => Reflect_optional second value.2
  end.

(** [ReflectMember]; an absent optional member is left out of JSON only *)
Definition ReflectMember {T} (reflect : T -> list wcall) (name : bytes) (value : T) : list wcall :=
  WKey name :: reflect value.
Definition ReflectMember_optional {T} (Format : SerializeFormat) (reflect : T -> list wcall) (name : bytes)
    (value : option T) : list wcall :=
  match value, Format with
  | None, Json.Json => []
  | _, _ => WKey name :: Reflect_optional reflect value
  end.

(** [REFLECT_MEMBER_START] and [REFLECT_MEMBER_END] around the members *)
Definition Reflect_struct (members : list wcall) : list wcall := WStartObject :: members ++ [WEndObject].

Fixpoint Reflect (Format : SerializeFormat) (t : type) : value t -> list wcall :=
  match t with
  | TUint8 | TShort | TUshort | TInt => fun v => [WInt v]
  | TUnsigned => fun v => [WUint32 v]
  | TLong | TLongLong => fun v => [WInt64 v]
  | TUlong | TUlongLong => fun v => [WUint64 v]
  | TDouble => fun v => [WDouble v]
  | TBool => fun v => [WBool v]
  | TString => Reflect_string
  | TJsonNull => fun _ => [WNull]
  | TFormat => fun v => [WCString (match v with Json.Json => lit "json" | MessagePack => lit "msgpack" end)]
  | TOptional t | TNullable t => Reflect_optional (Reflect Format t)
  | TVector t => Reflect_vector (Reflect Format t)
  | TMap t => Reflect_map (Reflect Format t)
  | TBoolOr t => Reflect_pair (fun b => [WBool b]) (Reflect Format t)
  | TStringOr t => Reflect_pair Reflect_string (Reflect Format t)
  | TPair t1 t2 => Reflect_pair (Reflect Format t1) (Reflect Format t2)
  | TStruct m => fun v => Reflect_struct (ReflectMembers Format m v)
  end
with ReflectMembers (Format : SerializeFormat) (m : members) : values m -> list wcall :=
  match m with
  | MEnd => fun _ => []
  | MField name t m => fun v => ReflectMember (Reflect Format t) name v.1 ++ ReflectMembers Format m v.2
  | MOptional name t m => fun v =>
      ReflectMember_optional Format (Reflect Format t) name v.1 ++ ReflectMembers Format m v.2
  end.

(** ** The codec of a type *)

Definition no_fields : fields unit := mkFields [] (fun _ v => inr v) (fun _ => []) tt.

Definition opt_member (Format : SerializeFormat) {T} (name : bytes) (c : codec T) : fields (option T) :=
  match Format with
  | Json.Json => opt_field name c
  | MessagePack => field name (optional_codec c)
  end.

Fixpoint codec_of (Format : SerializeFormat) (t : type) : codec (value t) :=
  match t with
  | TUint8 => uint8_codec
  | TShort => short_codec
  | TUshort => ushort_codec
  | TInt => int_codec
  | TUnsigned => unsigned_codec
  | TLong => long_codec
  | TUlong => ulong_codec
  | TLongLong => longlong_codec
  | TUlongLong => ulonglong_codec
  | TDouble => double_codec GetDouble Double zero
  | TBool => bool_codec
  | TString => string_codec
  | TJsonNull => jsonnull_codec
  | TFormat => format_codec
  | TOptional t => optional_codec (codec_of Format t)
  | TNullable t => nullable_codec (codec_of Format t)
  | TVector t => vector_codec (codec_of Format t)
  | TMap t => map_codec (codec_of Format t)
  | TBoolOr t => tagged_pair_codec IsBool bool_codec (codec_of Format t)
  | TStringOr t => tagged_pair_codec IsString string_codec (codec_of Format t)
  | TPair t1 t2 => pair_codec (codec_of Format t1) (codec_of Format t2)
  | TStruct m => struct_codec (fields_of Format m) id id
  end
with fields_of (Format : SerializeFormat) (m : members) : fields (values m) :=
  match m with
  | MEnd => no_fields
  | MField name t m => field name (codec_of Format t) ⊗ fields_of Format m
  | MOptional name t m => opt_member Format name (codec_of Format t) ⊗ fields_of Format m
  end.

(** ** Which types and values survive *)

Inductive kind := KNull | KBool | KNumber | KString | KArray | KObject.
#[local] Instance kind_eq_dec : EqDecision kind.
Proof. solve_decision. Defined.
Definition kinds : list kind := [KNull; KBool; KNumber; KString; KArray; KObject].
Definition kind_of (j : json) : kind :=
  match j with
  | JNull => KNull
  | JBool _ => KBool
  | JNumber _ | JDouble _ => KNumber
  | JString _ => KString
  | JArray _ => KArray
  | JObject _ => KObject
  end.
Definition same (k k' : kind) : bool := bool_decide (k = k').

(** What a value of the type may be written as *)
Fixpoint may (t : type) (k : kind) : bool :=
  match t with
  | TUint8 | TShort | TUshort | TInt | TUnsigned | TLong | TUlong | TLongLong | TUlongLong | TDouble => same k KNumber
  | TBool => same k KBool
  | TString | TFormat => same k KString
  | TJsonNull => same k KNull
  | TOptional t | TNullable t => same k KNull || may t k
  | TVector _ => same k KArray
  | TMap _ | TStruct _ => same k KObject
  | TBoolOr t => same k KBool || may t k
  | TStringOr t => same k KString || may t k
  | TPair t1 t2 => may t1 k || may t2 k
  end.

(** What the reader of the type refuses with an exception, at the value itself *)
Fixpoint refuses (t : type) (k : kind) : bool :=
  match t with
  | TUint8 | TShort | TUshort | TInt | TUnsigned | TLong | TUlong | TLongLong | TUlongLong | TDouble =>
      negb (same k KNumber)
  | TBool => negb (same k KBool)
  | TString => negb (same k KString)
  | TJsonNull | TFormat | TStruct _ => false
  | TOptional t | TNullable t => negb (same k KNull) && refuses t k
  | TVector _ => negb (same k KArray)
  | TMap _ => negb (same k KObject)
  | TBoolOr t => negb (same k KBool) && negb (same k KNull) && refuses t k
  | TStringOr t => negb (same k KString) && negb (same k KNull) && refuses t k
  | TPair t1 t2 => negb (same k KNull) && refuses t1 k && refuses t2 k
  end.

(** The pairs that have a reader of their own *)
Definition has_own_pair (t : type) : bool := match t with TBool | TString => true | _ => false end.

Fixpoint member_names (m : members) : list bytes :=
  match m with
  | MEnd => []
  | MField name _ m | MOptional name _ m => name :: member_names m
  end.

(** No optional of a type with a null of its own; of a pair, alternatives that
    the reader can tell apart: neither is written as null, what the first is
    written as is refused by the reader of the second, which is tried first
    (with a [bool] or a string as the first, the reader looks at the kind);
    different names of the members of a struct *)
Fixpoint well_formed (t : type) : bool :=
  match t with
  | TOptional t | TNullable t => negb (may t KNull) && well_formed t
  | TVector t | TMap t => well_formed t
  | TBoolOr t => negb (may t KNull) && negb (may t KBool) && well_formed t
  | TStringOr t => negb (may t KNull) && negb (may t KString) && well_formed t
  | TPair t1 t2 =>
      negb (has_own_pair t1) && negb (may t1 KNull) && negb (may t2 KNull) &&
      forallb (fun k => implb (may t1 k) (refuses t2 k)) kinds && well_formed t1 && well_formed t2
  | TStruct m => well_formed_members m
  | _ => true
  end
with well_formed_members (m : members) : bool :=
  match m with
  | MEnd => true
  | MField name t m =>
      bool_decide (NUL ∉ name) && bool_decide (name ∉ member_names m) && well_formed t && well_formed_members m
  | MOptional name t m =>
      bool_decide (NUL ∉ name) && bool_decide (name ∉ member_names m) && negb (may t KNull) &&
      well_formed t && well_formed_members m
  end.

Definition string_valid (s : bytes) : Prop := (NUL ∉ s) /\ (Z.of_nat (length s) < 2 ^ 32)%Z.

(** Numbers in the range of their type, strings without NUL shorter than 2^32 *)
Fixpoint admissible (t : type) : value t -> Prop :=
  match t with
  | TUint8 => between 0 (2 ^ 8 - 1)
  | TShort => between (- 2 ^ 15) (2 ^ 15 - 1)
  | TUshort => between 0 (2 ^ 16 - 1)
  | TInt => between (- 2 ^ 31) (2 ^ 31 - 1)
  | TUnsigned => between 0 (2 ^ 32 - 1)
  | TLong | TLongLong => between (- 2 ^ 63) (2 ^ 63 - 1)
  | TUlong | TUlongLong => between 0 (2 ^ 64 - 1)
  | TDouble => double_valid GetDouble Double
  | TBool | TJsonNull | TFormat => fun _ => True
  | TString => string_valid
  | TOptional t | TNullable t => opt_valid (admissible t)
  | TVector t => Forall (admissible t)
  | TMap t => map_valid (admissible t)
  | TBoolOr t => one_of (fun _ => True) (admissible t)
  | TStringOr t => one_of string_valid (admissible t)
  | TPair t1 t2 => one_of (admissible t1) (admissible t2)
  | TStruct m => valid_members m
  end
with valid_members (m : members) : values m -> Prop :=
  match m with
  | MEnd => fun _ => True
  | MField _ t m => pair_valid (admissible t) (valid_members m)
  | MOptional _ t m => pair_valid (opt_valid (admissible t)) (valid_members m)
  end.

(** ** Properly nested calls *)

Lemma handle_all_app es1 es2 d : handle_all (es1 ++ es2) d = handle_all es1 d ≫= handle_all es2.
Proof. revert d. induction es1 as [|e es1 IH]; intros d; [done|]. cbn. destruct (handle e d); cbn; auto. Qed.

(** The events put the value [j], wherever a value is expected *)
Definition emits (es : list event) (j : json) : Prop := forall d, handle_all es d = put j d.

(** The events add the members [ms] to the object that is open *)
Definition adds (es : list event) (ms : list (bytes * json)) : Prop :=
  forall ms0 fs r, handle_all es (mkDocument (InObject ms0 None :: fs) r) =
    Some (mkDocument (InObject (ms0 ++ ms) None :: fs) r).

Lemma emits_one e j : (forall d, handle e d = put j d) -> emits [e] j.
Proof. intros H d. cbn. rewrite H. by destruct (put j d). Qed.

Lemma adds_nil : adds [] [].
Proof. intros ms0 fs r. cbn. by rewrite app_nil_r. Qed.

Lemma adds_app es1 es2 ms1 ms2 : adds es1 ms1 -> adds es2 ms2 -> adds (es1 ++ es2) (ms1 ++ ms2).
Proof. intros H1 H2 ms0 fs r. rewrite handle_all_app, H1. cbn. by rewrite H2, app_assoc. Qed.

Lemma adds_member k es j : emits es j -> adds (EKey k :: es) [(k, j)].
Proof. intros H ms0 fs r. cbn. by rewrite H. Qed.

Lemma emits_object es ms : adds es ms -> emits (EStartObject :: es ++ [EEndObject]) (JObject ms).
Proof.
  intros H [fs r]. cbn. unfold push. cbn [frames root]. rewrite handle_all_app, H. cbn -[put].
  by destruct (put _ _).
Qed.

Lemma emits_elems {T} (es : T -> list event) (js : T -> json) vs l fs r :
  Forall (fun v => emits (es v) (js v)) vs ->
  handle_all (concat (map es vs)) (mkDocument (InArray l :: fs) r) =
    Some (mkDocument (InArray (l ++ map js vs) :: fs) r).
Proof.
  intros H. revert l. induction H as [|v vs Hv _ IH]; intros l; cbn; [by rewrite app_nil_r|].
  rewrite handle_all_app, Hv. cbn. by rewrite IH, <- app_assoc.
Qed.

Lemma emits_array {T} (es : T -> list event) (js : T -> json) vs :
  Forall (fun v => emits (es v) (js v)) vs ->
  emits (EStartArray :: concat (map es vs) ++ [EEndArray]) (JArray (map js vs)).
Proof.
  intros H [fs r]. cbn. unfold push. cbn [frames root]. rewrite handle_all_app, (emits_elems es js) by done.
  cbn -[put]. by destruct (put _ _).
Qed.

Lemma adds_entries {T} (es : T -> list event) (ms : T -> list (bytes * json)) vs :
  Forall (fun v => adds (es v) (ms v)) vs -> adds (concat (map es vs)) (concat (map ms vs)).
Proof. induction 1; [apply adds_nil|]. by apply adds_app. Qed.

(** ** The calls of [Reflect] *)

(** What the functions [Reflect] call a [JsonWriter] with *)
Abbreviation events l := (map JsonWriter l).

Definition reflects {T} (reflect : T -> list wcall) (c : codec T) (P : T -> Prop) : Prop :=
  forall v, P v -> emits (events (reflect v)) (rwrite c v).

Lemma reflects_string : reflects Reflect_string string_codec string_valid.
Proof.
  intros s [_ Hs]. apply emits_one. intros d. cbn. unfold uwrap. rewrite Z.mod_small by lia.
  by rewrite Nat2Z.id, firstn_all.
Qed.

Lemma reflects_optional {T} reflect (c : codec T) P :
  reflects reflect c P -> reflects (Reflect_optional reflect) (optional_codec c) (opt_valid P).
Proof. intros H [x|] Hv; [by apply H|]. by apply emits_one. Qed.

Lemma reflects_vector {T} reflect (c : codec T) P :
  reflects reflect c P -> reflects (Reflect_vector reflect) (vector_codec c) (Forall P).
Proof.
  intros H vs Hv. unfold Reflect_vector. rewrite map_cons, map_app, concat_map, map_map.
  apply (emits_array (fun v => events (reflect v)) (rwrite c)). by eapply Forall_impl.
Qed.

Lemma reflects_map {T} reflect (c : codec T) P :
  reflects reflect c P -> reflects (Reflect_map reflect) (map_codec c) (map_valid P).
Proof.
  intros H m [_ Hm]. unfold Reflect_map. rewrite map_cons, map_app, concat_map, map_map. apply emits_object.
  assert (Hj : map (fun '(k, v) => (c_str k, rwrite c v)) m = concat (map (fun e => [(c_str e.1, rwrite c e.2)]) m)).
  { clear. induction m as [|[k v] m IH]; [done|]. cbn. by rewrite IH. }
  cbn [rwrite map_codec]. rewrite Hj. apply (adds_entries (fun it => events (WKey it.1 :: reflect it.2))).
  eapply Forall_impl; [exact Hm|]. intros [k v] [_ Hv]. by apply adds_member, H.
Qed.

Lemma reflects_pair {A B} r1 r2 (c1 : codec A) (c2 : codec B) P Q :
  reflects r1 c1 P -> reflects r2 c2 Q -> reflects (Reflect_pair r1 r2) (pair_codec c1 c2) (one_of P Q).
Proof. intros H1 H2 [[a|] [b|]] Hv; try done; [by apply H1|by apply H2]. Qed.

Lemma reflects_tagged_pair {A B} test r1 r2 (c1 : codec A) (c2 : codec B) P Q :
  reflects r1 c1 P -> reflects r2 c2 Q -> reflects (Reflect_pair r1 r2) (tagged_pair_codec test c1 c2) (one_of P Q).
Proof. apply reflects_pair. Qed.

(** Every type *)
Lemma reflects_types F :
  (forall t, well_formed t = true -> reflects (Reflect F t) (codec_of F t) (admissible t)) /\
  (forall m, well_formed_members m = true ->
     forall v, valid_members m v -> adds (events (ReflectMembers F m v)) (f_write (fields_of F m) v)).
Proof.
  apply types_ind; cbn [well_formed well_formed_members Reflect codec_of admissible value].
  1-11: by intros _ v _; apply emits_one.
  - intros _. apply reflects_string.
  - by intros _ v _; apply emits_one.
  - by intros _ [] _; apply emits_one.
  - intros t IH [_ Hw]%andb_true_iff. by apply reflects_optional, IH.
  - intros t IH [_ Hw]%andb_true_iff. by apply reflects_optional, IH.
  - intros t IH Hw. by apply reflects_vector, IH.
  - intros t IH Hw. by apply reflects_map, IH.
  - intros t IH [_ Hw]%andb_true_iff. apply reflects_tagged_pair; [by intros v _; apply emits_one|by apply IH].
  - intros t IH [_ Hw]%andb_true_iff. apply reflects_tagged_pair; [apply reflects_string|by apply IH].
  - intros t1 IH1 t2 IH2 [[_ Hw1]%andb_true_iff Hw2]%andb_true_iff.
    apply reflects_pair; [by apply IH1|by apply IH2].
  - intros m IH Hw v Hv. unfold Reflect_struct. rewrite map_cons, map_app. by apply emits_object, IH.
  - intros _ v _. apply adds_nil.
  - intros name t IHt m IHm [[[Hn%bool_decide_eq_true _]%andb_true_iff Ht]%andb_true_iff Hm]%andb_true_iff [x v] [Hx Hv].
    cbn [ReflectMembers fst snd]. rewrite map_app. apply adds_app; [|by apply IHm].
    cbn [ReflectMember map JsonWriter]. rewrite c_str_id by done. by apply adds_member, IHt.
  - intros name t IHt m IHm
      [[[[Hn%bool_decide_eq_true _]%andb_true_iff _]%andb_true_iff Ht]%andb_true_iff Hm]%andb_true_iff [x v] [Hx Hv].
    cbn [ReflectMembers fst snd]. rewrite map_app.
    assert (Ho : adds (events (WKey name :: Reflect_optional (Reflect F t) x))
                   [(name, rwrite (optional_codec (codec_of F t)) x)]).
    { cbn [map JsonWriter]. rewrite c_str_id by done. apply adds_member.
      by apply (reflects_optional _ _ _ (IHt Ht)). }
    change (f_write (fields_of F (MOptional name t m)) (x, v))
      with (f_write (opt_member F name (codec_of F t)) x ++ f_write (fields_of F m) v).
    apply adds_app; [|by apply IHm]. destruct x as [x|], F; [exact Ho|exact Ho|apply adds_nil|exact Ho].
Qed.

(** ** The laws of the codec of a type *)

#[local] Instance longlong_laws : Roundtrip longlong_codec (between (- 2 ^ 63) (2 ^ 63 - 1)).
Proof. number_roundtrip. Qed.
#[local] Instance ulonglong_laws : Roundtrip ulonglong_codec (between 0 (2 ^ 64 - 1)).
Proof. number_roundtrip. Qed.
#[local] Instance jsonnull_laws : Roundtrip jsonnull_codec (fun _ => True).
Proof. by intros []. Qed.
#[local] Instance string_laws : Roundtrip string_codec string_valid.
Proof. intros s [Hs _]. by apply string_roundtrip. Qed.
#[local] Instance no_fields_laws : FieldsRoundtrip no_fields (fun _ => True).
Proof. by split; [intros []|]. Qed.

Lemma same_true k k' : same k k' = true <-> k = k'.
Proof. apply bool_decide_eq_true. Qed.

(** A value is written as its type allows. *)
Lemma types_kinds F t v :
  well_formed t = true -> admissible t v -> may t (kind_of (rwrite (codec_of F t) v)) = true.
Proof.
  revert v. induction t as [| | | | | | | | | | | | | |t IH|t IH|t IH|t IH|t IH|t IH|t1 IH1 t2 IH2|m];
    intros v Hw Hv; cbn [well_formed may codec_of admissible value] in *; try done.
  - destruct Hv as [Hv _]. cbn. unfold IsNumber in Hv. by destruct (Double v).
  - apply andb_true_iff in Hw as [_ Hw]. destruct v as [x|]; [|done]. cbn. rewrite IH by done. apply orb_true_r.
  - apply andb_true_iff in Hw as [_ Hw]. destruct v as [x|]; [|done]. cbn. rewrite IH by done. apply orb_true_r.
  - apply andb_true_iff in Hw as [_ Hw]. destruct v as [[a|] [b|]]; try done. cbn. rewrite IH by done. apply orb_true_r.
  - apply andb_true_iff in Hw as [_ Hw]. destruct v as [[a|] [b|]]; try done. cbn. rewrite IH by done. apply orb_true_r.
  - apply andb_true_iff in Hw as [[_ Hw1]%andb_true_iff Hw2]. destruct v as [[a|] [b|]]; try done; cbn.
    + by rewrite IH1.
    + rewrite IH2 by done. apply orb_true_r.
Qed.

Lemma types_not_null F t :
  well_formed t = true -> may t KNull = false -> NotNull (codec_of F t) (admissible t).
Proof.
  intros Hw Hn v Hv. pose proof (types_kinds F t v Hw Hv) as H. destruct (rwrite (codec_of F t) v); try done.
  cbn in H. congruence.
Qed.

Lemma types_not_kind F t test k :
  (forall j, test j = true -> kind_of j = k) -> well_formed t = true -> may t k = false ->
  Tagged test (codec_of F t) (admissible t) false.
Proof.
  intros Ht Hw Hn v Hv. pose proof (types_kinds F t v Hw Hv) as H.
  destruct (test (rwrite (codec_of F t) v)) eqn:E; [|done]. apply Ht in E. congruence.
Qed.

(** The reader refuses what it should, and its visitor stays where it is. *)
Lemma types_refuse F t j v :
  refuses t (kind_of j) = true -> exists msg, rread (codec_of F t) j v = inl (mkExn msg j).
Proof.
  revert v. induction t as [| | | | | | | | | | | | | |t IH|t IH|t IH|t IH|t IH|t IH|t1 IH1 t2 IH2|m];
    intros v H; cbn [refuses codec_of value] in *; try done.
  1-12: by destruct j; cbn in *; eauto.
  - apply andb_true_iff in H as [Hn H]. destruct (IH (rinit (codec_of F t)) H) as [msg Hm]. exists msg. cbn.
    destruct (IsNull j) eqn:E; [by destruct j|]. by rewrite Hm.
  - apply andb_true_iff in H as [Hn H]. destruct (IH (rinit (codec_of F t)) H) as [msg Hm]. exists msg. cbn.
    destruct (IsNull j) eqn:E; [by destruct j|]. by rewrite Hm.
  - by destruct j; cbn in *; eauto.
  - by destruct j; cbn in *; eauto.
  - apply andb_true_iff in H as [[Hb Hn]%andb_true_iff H]. destruct (IH (rinit (codec_of F t)) H) as [msg Hm].
    exists msg. destruct v as [a b]. cbn. destruct (IsBool j) eqn:E; [by destruct j|].
    destruct (IsNull j) eqn:E'; [by destruct j|]. by rewrite Hm.
  - apply andb_true_iff in H as [[Hb Hn]%andb_true_iff H]. destruct (IH (rinit (codec_of F t)) H) as [msg Hm].
    exists msg. destruct v as [a b]. cbn. destruct (IsString j) eqn:E; [by destruct j|].
    destruct (IsNull j) eqn:E'; [by destruct j|]. by rewrite Hm.
  - apply andb_true_iff in H as [[Hn H1]%andb_true_iff H2].
    destruct (IH1 (rinit (codec_of F t1)) H1) as [msg Hm], (IH2 (rinit (codec_of F t2)) H2) as [msg2 Hm2].
    exists msg. destruct v as [a b]. cbn. destruct (IsNull j) eqn:E'; [by destruct j|].
    rewrite Hm2. cbn. by rewrite E', Hm.
Qed.

Lemma all_kinds (f : kind -> bool) k : forallb f kinds = true -> f k = true.
Proof.
  intros H. rewrite forallb_forall in H. apply H. destruct k; cbn; tauto.
Qed.

(** The generic pair reads back when its reader can tell the alternatives apart. *)
Lemma pair_laws F t1 t2 :
  well_formed (TPair t1 t2) = true -> Roundtrip (codec_of F t1) (admissible t1) ->
  Roundtrip (codec_of F t2) (admissible t2) -> Roundtrip (codec_of F (TPair t1 t2)) (admissible (TPair t1 t2)).
Proof.
  cbn [well_formed]. intros [[[[[_ Hn1%negb_true_iff]%andb_true_iff Hn2%negb_true_iff]%andb_true_iff
    Hk]%andb_true_iff Hw1]%andb_true_iff Hw2]%andb_true_iff R1 R2.
  pose proof (types_not_null F t1 Hw1 Hn1) as N1. pose proof (types_not_null F t2 Hw2 Hn2) as N2.
  intros [[a|] [b|]] H; cbn in H; try done; cbn.
  - rewrite (N1 a H). pose proof (all_kinds _ (kind_of (rwrite (codec_of F t1) a)) Hk) as Hr. cbn in Hr.
    rewrite (types_kinds F t1 a Hw1 H) in Hr. cbn in Hr.
    destruct (types_refuse F t2 _ (rinit (codec_of F t2)) Hr) as [msg ->]. cbn. by rewrite (N1 a H), (R1 a H).
  - by rewrite (N2 b H), (R2 b H).
Qed.

Lemma member_names_of F m : f_names (fields_of F m) = member_names m.
Proof. induction m as [|name t m IH|name t m IH]; cbn; [done|by rewrite IH|]. destruct F; cbn; by rewrite IH. Qed.

Lemma opt_member_laws F {T} name (c : codec T) P :
  Roundtrip c P -> NotNull c P -> FieldsRoundtrip (opt_member F name c) (opt_valid P).
Proof. intros. destruct F; cbn; apply _. Qed.

Lemma opt_member_names F {T} name (c : codec T) : f_names (opt_member F name c) = [name].
Proof. by destruct F. Qed.

Lemma fresh_member {A} (f : fields A) F name m :
  f_names f = [name] -> name ∉ member_names m -> names_disjoint f (fields_of F m) = true.
Proof.
  intros Hf Hn. unfold names_disjoint. rewrite Hf, member_names_of. cbn.
  by rewrite bool_decide_eq_false_2.
Qed.

Lemma types_laws F :
  (forall t, well_formed t = true -> Roundtrip (codec_of F t) (admissible t)) /\
  (forall m, well_formed_members m = true -> FieldsRoundtrip (fields_of F m) (valid_members m)).
Proof.
  apply types_ind; cbn [well_formed well_formed_members codec_of admissible value].
  1-14: by intros _; typeclasses eauto.
  - intros t IH [Hn%negb_true_iff Hw]%andb_true_iff. apply optional_roundtrip; [by apply IH|].
    by apply types_not_null.
  - intros t IH [Hn%negb_true_iff Hw]%andb_true_iff. apply nullable_roundtrip; [by apply IH|].
    by apply types_not_null.
  - intros t IH Hw. by apply vector_roundtrip, IH.
  - intros t IH Hw. by apply map_roundtrip, IH.
  - intros t IH [[Hn%negb_true_iff Hb%negb_true_iff]%andb_true_iff Hw]%andb_true_iff.
    apply tagged_pair_roundtrip; [apply _|by apply IH|apply _|by apply types_not_null|apply _|].
    by apply (types_not_kind F t _ KBool); [by intros []|..].
  - intros t IH [[Hn%negb_true_iff Hb%negb_true_iff]%andb_true_iff Hw]%andb_true_iff.
    apply tagged_pair_roundtrip; [apply _|by apply IH|apply _|by apply types_not_null|apply _|].
    by apply (types_not_kind F t _ KString); [by intros []|..].
  - intros t1 IH1 t2 IH2 Hw. pose proof Hw as [[_ Hw1]%andb_true_iff Hw2]%andb_true_iff.
    apply pair_laws; [exact Hw|by apply IH1|by apply IH2].
  - intros m IH Hw. apply (struct_roundtrip _ id id); [done|done|by apply IH].
  - intros _. apply _.
  - intros name t IHt m IHm [[[_ Hf%bool_decide_eq_true]%andb_true_iff Ht]%andb_true_iff Hm]%andb_true_iff.
    apply pair_roundtrip; [by apply (fresh_member _ F name)|by apply field_roundtrip, IHt|by apply IHm].
  - intros name t IHt m IHm
      [[[[_ Hf%bool_decide_eq_true]%andb_true_iff Hn%negb_true_iff]%andb_true_iff Ht]%andb_true_iff Hm]%andb_true_iff.
    apply pair_roundtrip; [apply (fresh_member _ F name); [apply opt_member_names|done]| |by apply IHm].
    apply opt_member_laws; [by apply IHt|by apply types_not_null].
Qed.

(** * Theorems *)

(** C6. Reflection is faithful: for every well-formed type built from the
    elementary types, optionals, [Nullable], vectors, maps, pairs (those with a
    [bool] or a string as the first alternative and the generic ones) and
    structs, the calls that [Reflect] makes for an admissible value are
    properly nested, [JsonWriter] turns them into one complete document, this
    document is the one that the type's codec stands for, and the reader of
    the type gets the value back from it.  The same holds for a writer of
    another format, for which absent members are written as null.  Well-formed
    ([well_formed]) excludes an optional or [Nullable] of a type that can itself
    be written as null, pairs whose alternatives the reader cannot tell apart,
    and structs with two members of one name; admissible ([admissible]) are
    numbers in the range of their type, strings without NUL, maps in key order
    and pairs with exactly one alternative set. *)
Theorem reflection_faithful (Format : SerializeFormat) (t : type) (v : value t) :
  well_formed t = true -> admissible t v ->
  written (events (Reflect Format t v)) = Some (rwrite (codec_of Format t) v) /\
  rread (codec_of Format t) (rwrite (codec_of Format t) v) (rinit (codec_of Format t)) = inr v.
Proof.
  intros Hw Hv. split; [|by apply (proj1 (types_laws Format) t Hw)].
  unfold written. by rewrite (proj1 (reflects_types Format) t Hw v Hv).
Qed.
End Writer.

(** ** A struct of the protocol *)

Definition position_type : type :=
  TStruct (MField (lit "line") TUnsigned (MField (lit "character") TUnsigned MEnd)).
Definition range_type : type :=
  TStruct (MField (lit "start") position_type (MField (lit "end") position_type MEnd)).
Definition text_edit_type : type :=
  TStruct (MField (lit "range") range_type (MField (lit "newText") TString
    (MOptional (lit "annotationId") TString MEnd))).

Section TextEdit.
Context {double : Type}.
Variable GetDouble : json -> double.
Variable Double : double -> json.

Definition position_value (p : lsPosition) : @value double position_type :=
  (Z.of_N (line p), (Z.of_N (character p), tt)).
Definition text_edit_value (e : lsTextEdit) : @value double text_edit_type :=
  ((position_value (range_start (edit_range e)), (position_value (range_end (edit_range e)), tt)),
   (newText e, (annotationId e, tt))).

(** The record of Reflect.v is written as its members are. *)
Lemma text_edit_written (e : lsTextEdit) :
  admissible GetDouble Double text_edit_type (text_edit_value e) ->
  written Double (map JsonWriter (Reflect Json.Json text_edit_type (text_edit_value e))) =
    Some (rwrite lsTextEdit_codec e).
Proof.
  intros Hv. unfold written. rewrite (proj1 (reflects_types GetDouble Double (GetDouble JNull) Json.Json) text_edit_type).
  - by destruct e as [? ? []].
  - reflexivity.
  - done.
Qed.
End TextEdit.

Lemma reflection_faithful_witness :
  let e : @value Z text_edit_type := ((((1, (4, tt)), ((1, (6, tt)), tt)), (lit "foo", (None, tt))))%Z in
  written JNumber (map JsonWriter (Reflect Json.Json text_edit_type e)) =
    Some (rwrite (codec_of GetNumber JNumber 0%Z Json.Json text_edit_type) e) /\
  rread (codec_of GetNumber JNumber 0%Z MessagePack text_edit_type)
    (rwrite (codec_of GetNumber JNumber 0%Z MessagePack text_edit_type) e)
    (rinit (codec_of GetNumber JNumber 0%Z MessagePack text_edit_type)) = inr e.
Proof.
  intros e.
  assert (Hv : admissible GetNumber JNumber text_edit_type e).
  { cbn. unfold pair_valid, string_valid, between. cbn. split_and!; try lia; try done.
    apply (bool_decide_eq_true_1 _). vm_compute. reflexivity. }
  split.
  - by apply (reflection_faithful GetNumber JNumber 0%Z Json.Json text_edit_type e).
  - by apply (reflection_faithful GetNumber JNumber 0%Z MessagePack text_edit_type e).
Defined.

(** Generic pairs: a number or a list of strings is told apart, a number or a
    struct is not, since a struct is read from anything. *)
Example pairs_told_apart :
  well_formed (TPair TInt (TVector TString)) = true /\ well_formed (TPair TInt position_type) = false /\
  well_formed (TOptional (TNullable TInt)) = false.
Proof. done. Qed.
