(* ===== verification/Catalogue.v ===== *)
(** * The messages of the protocol

    For every request and notification that [ProtocolJsonHandler] knows, the
    types of [params] and [result] that [DEFINE_REQUEST_RESPONSE_TYPE] and
    [DEFINE_NOTIFICATION_TYPE] give it, and with them the handler as it runs:
    every parser is the [ReflectReader] of its type.

    What an endpoint with this handler writes, another one dispatches as the
    same message. *)
From S2P Require Import Prelude CppString Position Utils Uri Json Reflect RequestId Framing Message LspTypes Envelope.
From S2P Require Import Handlers Protocol ProtocolData Capabilities Jdtls Trees.

(** ** The last member of a message *)
Record payload (name : bytes) := mkPayload {
  p_type : Type;
  p_fields : fields p_type;
  p_valid : p_type -> Prop;
  p_names : f_names p_fields = [name];
  p_law : FieldsRoundtrip p_fields p_valid
}.
Arguments mkPayload {name} _ _ _ _ _.
Arguments p_type {name} _.
Arguments p_fields {name} _.
Arguments p_valid {name} _ _.
Arguments p_names {name} _.
Arguments p_law {name} _.

(** A value, an [optional] value, and [optional<JsonNull>], of which only the
    absent one is read back as it is written *)
Definition plain {name T} (c : codec T) (valid : T -> Prop) {HR : Roundtrip c valid} : payload name :=
  mkPayload T (field name c) valid eq_refl (field_roundtrip name c valid HR).
Definition optional {name T} (c : codec T) (valid : T -> Prop) {HR : Roundtrip c valid} {HN : NotNull c valid}
    : payload name :=
  mkPayload (option T) (opt_field name c) (opt_valid valid) eq_refl (opt_field_roundtrip name c valid HR HN).

#[export] Instance jsonnull_roundtrip : Roundtrip jsonnull_codec any_valid.
Proof. by intros [] _. Qed.
Lemma absent_roundtrip name : FieldsRoundtrip (opt_field name jsonnull_codec) (eq None).
Proof.
  split.
  - intros v ms <- Hm. cbn. by rewrite (Hm name) by (cbn; set_solver).
  - intros [|] n Hn; [|done]. cbn in *. rewrite bool_decide_eq_false_2; [done|set_solver].
Qed.
Definition null_or_absent {name} : payload name :=
  mkPayload (option unit) (opt_field name jsonnull_codec) (eq None) eq_refl (absent_roundtrip name).

(** *** Results with a reader of their own *)

(** [LocationListEither::Either]; where the reader's assertion fails, an error *)
Definition locations_codec : codec (option (list lsLocation) * option (list LocationLink)) :=
  mkCodec (fun j v => default (throw [] j) (read_locations j v)) (fun v => default JNull (write_locations v)) (None, None).
Definition locations_valid (v : option (list lsLocation) * option (list LocationLink)) : Prop :=
  match v with
  | (Some l, None) => Forall location_valid l
  | (None, Some (x :: l)) => Forall link_valid (x :: l) /\ is_Some (originSelectionRange x)
  | _ => False
  end.
#[export] Instance locations_codec_roundtrip : Roundtrip locations_codec locations_valid.
Proof.
  intros v Hv. destruct (locations_roundtrip v Hv) as (j & Hw & Hr).
  cbn [rread rwrite rinit locations_codec]. rewrite Hw. cbn [default]. unfold default, from_option, id. by rewrite Hr.
Qed.

(** [TextDocumentPrepareRenameResult] *)
Definition prepare_rename_codec : codec (option lsRange * option PrepareRenameResult) :=
  mkCodec (read_prepare_rename lsRange_codec PrepareRenameResult_codec)
    (write_either lsRange_codec PrepareRenameResult_codec) (None, None).
Definition prepare_rename_valid : option lsRange * option PrepareRenameResult -> Prop :=
  one_of range_valid PrepareRenameResult_valid.
#[export] Instance prepare_rename_roundtrip : Roundtrip prepare_rename_codec prepare_rename_valid.
Proof.
  apply (either_roundtrip (fun j => negb (HasMember j (lit "placeholder")))); [|apply _..|by intros|by intros].
  intros j v. unfold read_prepare_rename. by destruct (HasMember _ _).
Qed.

Section Catalogue.
Context {rapidjson : RapidJson} {double : Type}.
Variable GetDouble : json -> double.
Variable Double : double -> json.
Variable zero : double.
Abbreviation any := (any_codec Parse Print).
Abbreviation any_ok := (any_value_valid Parse Print).

(** ** The types of [params] and [result] *)

(** [lsp/general/initialize.h] *)
Definition td_initialize_payload : payload (lit "params") * payload (lit "result") :=
  (plain lsInitializeParams_codec lsInitializeParams_valid,
   plain InitializeResult_codec InitializeResult_valid).

(** [lsp/general/shutdown.h] *)
Definition td_shutdown_payload : payload (lit "params") * payload (lit "result") :=
  (null_or_absent,
   optional any any_ok).

(** [lsp/textDocument/code_action.h] *)
Definition td_codeAction_payload : payload (lit "params") * payload (lit "result") :=
  (plain lsCodeActionParams_codec lsCodeActionParams_valid,
   plain (vector_codec lsCommandWithAny_codec) (Forall lsCommandWithAny_valid)).

(** [lsp/textDocument/code_lens.h] *)
Definition td_codeLens_payload : payload (lit "params") * payload (lit "result") :=
  (plain lsDocumentCodeLensParams_codec lsDocumentCodeLensParams_valid,
   plain (vector_codec lsCodeLens_codec) (Forall lsCodeLens_valid)).

(** [lsp/textDocument/completion.h] *)
Definition td_completion_payload : payload (lit "params") * payload (lit "result") :=
  (plain lsCompletionParams_codec lsCompletionParams_valid,
   plain CompletionList_codec CompletionList_valid).

(** [lsp/textDocument/declaration_definition.h] *)
Definition td_definition_payload : payload (lit "params") * payload (lit "result") :=
  (plain lsTextDocumentPositionParams_codec lsTextDocumentPositionParams_valid,
   plain locations_codec locations_valid).
Definition td_declaration_payload : payload (lit "params") * payload (lit "result") :=
  (plain lsTextDocumentPositionParams_codec lsTextDocumentPositionParams_valid,
   plain locations_codec locations_valid).

(** [lsp/textDocument/willSave.h] *)
Definition td_willSaveWaitUntil_payload : payload (lit "params") * payload (lit "result") :=
  (plain WillSaveTextDocumentParams_Params_codec WillSaveTextDocumentParams_Params_valid,
   plain (vector_codec lsTextEdit_codec) (Forall edit_valid)).
Definition td_willSave_payload : payload (lit "params") :=
  plain WillSaveTextDocumentParams_Params_codec WillSaveTextDocumentParams_Params_valid.

(** [lsp/textDocument/highlight.h] *)
Definition td_highlight_payload : payload (lit "params") * payload (lit "result") :=
  (plain lsTextDocumentPositionParams_codec lsTextDocumentPositionParams_valid,
   plain (vector_codec lsDocumentHighlight_codec) (Forall lsDocumentHighlight_valid)).

(** [lsp/textDocument/document_link.h] *)
Definition td_links_payload : payload (lit "params") * payload (lit "result") :=
  (plain TextDocumentDocumentLink_Params_codec TextDocumentDocumentLink_Params_valid,
   plain (vector_codec lsDocumentLink_codec) (Forall lsDocumentLink_valid)).
Definition td_linkResolve_payload : payload (lit "params") * payload (lit "result") :=
  (plain lsDocumentLink_codec lsDocumentLink_valid,
   plain lsDocumentLink_codec lsDocumentLink_valid).

(** [lsp/textDocument/document_symbol.h] *)
Definition td_symbol_payload : payload (lit "params") * payload (lit "result") :=
  (plain lsDocumentSymbolParams_codec lsDocumentSymbolParams_valid,
   plain (vector_codec lsDocumentSymbol_codec) (Forall lsDocumentSymbol_valid)).

(** [lsp/textDocument/formatting.h] *)
Definition td_formatting_payload : payload (lit "params") * payload (lit "result") :=
  (plain TextDocumentFormatting_Params_codec TextDocumentFormatting_Params_valid,
   plain (vector_codec lsTextEdit_codec) (Forall edit_valid)).

(** [lsp/textDocument/hover.h] *)
Definition td_hover_payload : payload (lit "params") * payload (lit "result") :=
  (plain lsTextDocumentPositionParams_codec lsTextDocumentPositionParams_valid,
   plain TextDocumentHover_Result_codec TextDocumentHover_Result_valid).

(** [lsp/textDocument/implementation.h] *)
Definition td_implementation_payload : payload (lit "params") * payload (lit "result") :=
  (plain lsTextDocumentPositionParams_codec lsTextDocumentPositionParams_valid,
   plain locations_codec locations_valid).

(** [lsp/textDocument/range_formatting.h] *)
Definition td_rangeFormatting_payload : payload (lit "params") * payload (lit "result") :=
  (plain lsTextDocumentRangeFormattingParams_codec lsTextDocumentRangeFormattingParams_valid,
   plain (vector_codec lsTextEdit_codec) (Forall edit_valid)).

(** [lsp/textDocument/references.h] *)
Definition td_references_payload : payload (lit "params") * payload (lit "result") :=
  (plain TextDocumentReferences_Params_codec TextDocumentReferences_Params_valid,
   plain (vector_codec lsLocation_codec) (Forall location_valid)).

(** [lsp/textDocument/rename.h] *)
Definition td_rename_payload : payload (lit "params") * payload (lit "result") :=
  (plain TextDocumentRename_Params_codec TextDocumentRename_Params_valid,
   plain lsWorkspaceEdit_codec lsWorkspaceEdit_valid).

(** [lsp/textDocument/signature_help.h] *)
Definition td_signatureHelp_payload : payload (lit "params") * payload (lit "result") :=
  (plain lsTextDocumentPositionParams_codec lsTextDocumentPositionParams_valid,
   plain lsSignatureHelp_codec lsSignatureHelp_valid).

(** [lsp/textDocument/type_definition.h] *)
Definition td_typeDefinition_payload : payload (lit "params") * payload (lit "result") :=
  (plain lsTextDocumentPositionParams_codec lsTextDocumentPositionParams_valid,
   plain locations_codec locations_valid).

(** [lsp/workspace/execute_command.h] *)
Definition wp_executeCommand_payload : payload (lit "params") * payload (lit "result") :=
  (plain ExecuteCommandParams_codec ExecuteCommandParams_valid,
   plain any (any_text_valid Parse Print)).
Definition Notify_sendNotification_payload : payload (lit "params") :=
  plain ExecuteCommandParams_codec ExecuteCommandParams_valid.

(** [lsp/workspace/symbol.h] *)
Definition wp_symbol_payload : payload (lit "params") * payload (lit "result") :=
  (plain WorkspaceSymbolParams_codec WorkspaceSymbolParams_valid,
   plain (vector_codec lsSymbolInformation_codec) (Forall lsSymbolInformation_valid)).

(** [lsp/textDocument/typeHierarchy.h] *)
Definition td_typeHierarchy_payload : payload (lit "params") * payload (lit "result") :=
  (plain TypeHierarchyParams_codec TypeHierarchyParams_valid,
   plain TypeHierarchyItem_codec TypeHierarchyItem_valid).

(** [lsp/textDocument/resolveCompletionItem.h] *)
Definition completionItem_resolve_payload : payload (lit "params") * payload (lit "result") :=
  (plain lsCompletionItem_codec lsCompletionItem_valid,
   plain lsCompletionItem_codec lsCompletionItem_valid).

(** [lsp/textDocument/resolveCodeLens.h] *)
Definition codeLens_resolve_payload : payload (lit "params") * payload (lit "result") :=
  (plain lsCodeLens_codec lsCodeLens_valid,
   plain lsCodeLens_codec lsCodeLens_valid).

(** [lsp/textDocument/colorPresentation.h] *)
Definition td_colorPresentation_payload : payload (lit "params") * payload (lit "result") :=
  (plain (ColorPresentationParams_codec GetDouble Double zero) (ColorPresentationParams_valid GetDouble Double),
   plain (vector_codec ColorPresentation_codec) (Forall ColorPresentation_valid)).

(** [lsp/textDocument/documentColor.h] *)
Definition td_documentColor_payload : payload (lit "params") * payload (lit "result") :=
  (plain DocumentColorParams_codec DocumentColorParams_valid,
   plain (vector_codec (ColorInformation_codec GetDouble Double zero)) (Forall (ColorInformation_valid GetDouble Double))).

(** [lsp/textDocument/foldingRange.h] *)
Definition td_foldingRange_payload : payload (lit "params") * payload (lit "result") :=
  (plain FoldingRangeRequestParams_codec FoldingRangeRequestParams_valid,
   plain (vector_codec FoldingRange_codec) (Forall FoldingRange_valid)).

(** [lsp/textDocument/prepareRename.h] *)
Definition td_prepareRename_payload : payload (lit "params") * payload (lit "result") :=
  (plain lsTextDocumentPositionParams_codec lsTextDocumentPositionParams_valid,
   plain prepare_rename_codec prepare_rename_valid).

(** [lsp/textDocument/resolveTypeHierarchy.h] *)
Definition typeHierarchy_resolve_payload : payload (lit "params") * payload (lit "result") :=
  (plain ResolveTypeHierarchyItemParams_codec ResolveTypeHierarchyItemParams_valid,
   plain TypeHierarchyItem_codec TypeHierarchyItem_valid).

(** [lsp/textDocument/selectionRange.h] *)
Definition td_selectionRange_payload : payload (lit "params") * payload (lit "result") :=
  (plain SelectionRangeParams_codec SelectionRangeParams_valid,
   plain (vector_codec SelectionRange_codec) (Forall SelectionRange_valid)).

(** [lsp/textDocument/SemanticTokens.h] *)
Definition td_semanticTokens_full_payload : payload (lit "params") * payload (lit "result") :=
  (plain SemanticTokensParams_codec SemanticTokensParams_valid,
   optional SemanticTokens_codec tokens_valid).
Definition td_semanticTokens_full_delta_payload : payload (lit "params") * payload (lit "result") :=
  (plain SemanticTokensDeltaParams_codec SemanticTokensDeltaParams_valid,
   optional SemanticTokensOrDelta_codec ordelta_valid).

(** [lsp/textDocument/inlayHint.h] *)
Definition td_inlayHint_payload : payload (lit "params") * payload (lit "result") :=
  (plain TextDocumentInlayHint_Params_codec TextDocumentInlayHint_Params_valid,
   plain (vector_codec lsInlayHint_codec) (Forall lsInlayHint_valid)).
Definition td_inlayHintResolve_payload : payload (lit "params") * payload (lit "result") :=
  (plain lsInlayHint_codec lsInlayHint_valid,
   plain lsInlayHint_codec lsInlayHint_valid).

(** [lsp/protocol_3_18.h] *)
Definition td_diagnostic_payload : payload (lit "params") * payload (lit "result") :=
  (plain DocumentDiagnosticParams_codec DocumentDiagnosticParams_valid,
   plain FullDocumentDiagnosticReport_codec FullDocumentDiagnosticReport_valid).
Definition workspace_diagnostic_payload : payload (lit "params") * payload (lit "result") :=
  (plain WorkspaceDiagnosticParams_codec WorkspaceDiagnosticParams_valid,
   plain WorkspaceDiagnosticReport_codec WorkspaceDiagnosticReport_valid).
Definition td_inlineValue_payload : payload (lit "params") * payload (lit "result") :=
  (plain InlineValueParams_codec InlineValueParams_valid,
   plain (vector_codec InlineValue_codec) (Forall InlineValue_valid)).
Definition td_inlineCompletion_payload : payload (lit "params") * payload (lit "result") :=
  (plain InlineCompletionParams_codec InlineCompletionParams_valid,
   optional InlineCompletionList_codec InlineCompletionList_valid).
Definition td_rangesFormatting_payload : payload (lit "params") * payload (lit "result") :=
  (plain DocumentRangesFormattingParams_codec DocumentRangesFormattingParams_valid,
   plain (vector_codec lsTextEdit_codec) (Forall edit_valid)).
Definition workspace_textDocumentContent_payload : payload (lit "params") * payload (lit "result") :=
  (plain TextDocumentContentParams_codec TextDocumentContentParams_valid,
   plain TextDocumentContentResult_codec TextDocumentContentResult_valid).
Definition workspace_textDocumentContent_refresh_payload : payload (lit "params") * payload (lit "result") :=
  (plain jsonnull_codec any_valid,
   plain jsonnull_codec any_valid).
Definition workspace_foldingRange_refresh_payload : payload (lit "params") * payload (lit "result") :=
  (plain jsonnull_codec any_valid,
   plain jsonnull_codec any_valid).
Definition workspace_inlineValue_refresh_payload : payload (lit "params") * payload (lit "result") :=
  (plain jsonnull_codec any_valid,
   plain jsonnull_codec any_valid).
Definition codeAction_resolve_payload : payload (lit "params") * payload (lit "result") :=
  (plain CodeAction_codec CodeAction_valid,
   plain CodeAction_codec CodeAction_valid).
Definition workspaceSymbol_resolve_payload : payload (lit "params") * payload (lit "result") :=
  (plain lsSymbolInformation_codec lsSymbolInformation_valid,
   plain lsSymbolInformation_codec lsSymbolInformation_valid).
Definition workspace_semanticTokens_refresh_payload : payload (lit "params") * payload (lit "result") :=
  (plain jsonnull_codec any_valid,
   plain jsonnull_codec any_valid).
Definition workspace_inlayHint_refresh_payload : payload (lit "params") * payload (lit "result") :=
  (plain jsonnull_codec any_valid,
   plain jsonnull_codec any_valid).
Definition workspace_diagnostic_refresh_payload : payload (lit "params") * payload (lit "result") :=
  (plain jsonnull_codec any_valid,
   plain jsonnull_codec any_valid).

(** [lsp/extention/jdtls/classFileContents.h] *)
Definition java_classFileContents_payload : payload (lit "params") * payload (lit "result") :=
  (plain lsTextDocumentIdentifier_codec docid_valid,
   plain string_codec text_valid).

(** [lsp/extention/jdtls/buildWorkspace.h] *)
Definition java_buildWorkspace_payload : payload (lit "params") * payload (lit "result") :=
  (plain bool_codec any_valid,
   plain BuildWorkspaceStatus_codec uint8_valid).

(** [lsp/extention/jdtls/listOverridableMethods.h] *)
Definition java_listOverridableMethods_payload : payload (lit "params") * payload (lit "result") :=
  (plain lsCodeActionParams_codec lsCodeActionParams_valid,
   plain OverridableMethodsResponse_codec OverridableMethodsResponse_valid).

(** [lsp/extention/jdtls/checkHashCodeEqualsStatus.h] *)
Definition java_checkHashCodeEqualsStatus_payload : payload (lit "params") * payload (lit "result") :=
  (plain lsCodeActionParams_codec lsCodeActionParams_valid,
   plain CheckHashCodeEqualsResponse_codec CheckHashCodeEqualsResponse_valid).

(** [lsp/extention/jdtls/addOverridableMethods.h] *)
Definition java_addOverridableMethods_payload : payload (lit "params") * payload (lit "result") :=
  (plain AddOverridableMethodParams_codec AddOverridableMethodParams_valid,
   plain lsWorkspaceEdit_codec lsWorkspaceEdit_valid).

(** [lsp/extention/jdtls/checkConstructorsStatus.h] *)
Definition java_checkConstructorsStatus_payload : payload (lit "params") * payload (lit "result") :=
  (plain lsCodeActionParams_codec lsCodeActionParams_valid,
   plain CheckConstructorsResponse_codec CheckConstructorsResponse_valid).

(** [lsp/extention/jdtls/checkDelegateMethodsStatus.h] *)
Definition java_checkDelegateMethodsStatus_payload : payload (lit "params") * payload (lit "result") :=
  (plain lsCodeActionParams_codec lsCodeActionParams_valid,
   plain CheckDelegateMethodsResponse_codec CheckDelegateMethodsResponse_valid).

(** [lsp/extention/jdtls/checkToStringStatus.h] *)
Definition java_checkToStringStatus_payload : payload (lit "params") * payload (lit "result") :=
  (plain lsCodeActionParams_codec lsCodeActionParams_valid,
   plain CheckToStringResponse_codec CheckToStringResponse_valid).

(** [lsp/extention/jdtls/generateAccessors.h] *)
Definition java_generateAccessors_payload : payload (lit "params") * payload (lit "result") :=
  (plain GenerateAccessorsParams_codec GenerateAccessorsParams_valid,
   plain lsWorkspaceEdit_codec lsWorkspaceEdit_valid).

(** [lsp/extention/jdtls/generateConstructors.h] *)
Definition java_generateConstructors_payload : payload (lit "params") * payload (lit "result") :=
  (plain GenerateConstructorsParams_codec GenerateConstructorsParams_valid,
   plain lsWorkspaceEdit_codec lsWorkspaceEdit_valid).

(** [lsp/extention/jdtls/generateDelegateMethods.h] *)
Definition java_generateDelegateMethods_payload : payload (lit "params") * payload (lit "result") :=
  (plain GenerateDelegateMethodsParams_codec GenerateDelegateMethodsParams_valid,
   plain lsWorkspaceEdit_codec lsWorkspaceEdit_valid).

(** [lsp/extention/jdtls/generateHashCodeEquals.h] *)
Definition java_generateHashCodeEquals_payload : payload (lit "params") * payload (lit "result") :=
  (plain GenerateHashCodeEqualsParams_codec GenerateHashCodeEqualsParams_valid,
   plain lsWorkspaceEdit_codec lsWorkspaceEdit_valid).

(** [lsp/extention/jdtls/generateToString.h] *)
Definition java_generateToString_payload : payload (lit "params") * payload (lit "result") :=
  (plain GenerateToStringParams_codec GenerateToStringParams_valid,
   plain lsWorkspaceEdit_codec lsWorkspaceEdit_valid).

(** [lsp/extention/jdtls/getMoveDestinations.h] *)
Definition java_getMoveDestinations_payload : payload (lit "params") * payload (lit "result") :=
  (plain MoveParams_codec MoveParams_valid,
   plain MoveDestinationsResponse_codec MoveDestinationsResponse_valid).

(** [lsp/extention/jdtls/getRefactorEdit.h] *)
Definition java_getRefactorEdit_payload : payload (lit "params") * payload (lit "result") :=
  (plain GetRefactorEditParams_codec GetRefactorEditParams_valid,
   plain RefactorWorkspaceEdit_codec RefactorWorkspaceEdit_valid).

(** [lsp/extention/jdtls/Move.h] *)
Definition java_move_payload : payload (lit "params") * payload (lit "result") :=
  (plain MoveParams_codec MoveParams_valid,
   plain RefactorWorkspaceEdit_codec RefactorWorkspaceEdit_valid).

(** [lsp/extention/jdtls/organizeImports.h] *)
Definition java_organizeImports_payload : payload (lit "params") * payload (lit "result") :=
  (plain lsCodeActionParams_codec lsCodeActionParams_valid,
   plain lsWorkspaceEdit_codec lsWorkspaceEdit_valid).

(** [lsp/extention/jdtls/resolveUnimplementedAccessors.h] *)
Definition java_resolveUnimplementedAccessors_payload : payload (lit "params") * payload (lit "result") :=
  (plain lsCodeActionParams_codec lsCodeActionParams_valid,
   plain (vector_codec AccessorField_codec) (Forall AccessorField_valid)).

(** [lsp/extention/jdtls/searchSymbols.h] *)
Definition java_searchSymbols_payload : payload (lit "params") * payload (lit "result") :=
  (plain SearchSymbolParams_codec SearchSymbolParams_valid,
   plain (vector_codec lsSymbolInformation_codec) (Forall lsSymbolInformation_valid)).

(** [lsp/textDocument/didRenameFiles.h] *)
Definition td_didRenameFiles_payload : payload (lit "params") * payload (lit "result") :=
  (plain FileRenameParams_codec FileRenameParams_valid,
   optional lsWorkspaceEdit_codec lsWorkspaceEdit_valid).
Definition td_willRenameFiles_payload : payload (lit "params") * payload (lit "result") :=
  (plain FileRenameParams_codec FileRenameParams_valid,
   optional lsWorkspaceEdit_codec lsWorkspaceEdit_valid).

(** [lsp/workspace/configuration.h] *)
Definition WorkspaceConfiguration_payload : payload (lit "params") * payload (lit "result") :=
  (plain ConfigurationParams_codec ConfigurationParams_valid,
   plain (vector_codec any) (Forall any_ok)).

(** [lsp/workspace/workspaceFolders.h] *)
Definition WorkspaceFolders_payload : payload (lit "params") * payload (lit "result") :=
  (null_or_absent,
   plain (nullable_codec (vector_codec WorkspaceFolder_codec)) (opt_valid (Forall WorkspaceFolder_valid))).

(** [lsp/client/registerCapability.h] *)
Definition Req_ClientRegisterCapability_payload : payload (lit "params") * payload (lit "result") :=
  (plain RegistrationParams_codec RegistrationParams_valid,
   plain jsonnull_codec any_valid).

(** [lsp/client/unregisterCapability.h] *)
Definition Req_ClientUnregisterCapability_payload : payload (lit "params") * payload (lit "result") :=
  (plain UnregistrationParams_codec UnregistrationParams_valid,
   plain jsonnull_codec any_valid).

(** [lsp/textDocument/onTypeFormatting.h] *)
Definition td_onTypeFormatting_payload : payload (lit "params") * payload (lit "result") :=
  (plain lsDocumentOnTypeFormattingParams_codec lsDocumentOnTypeFormattingParams_valid,
   plain (vector_codec lsTextEdit_codec) (Forall edit_valid)).

(** [lsp/workspace/applyEdit.h] *)
Definition WorkspaceApply_payload : payload (lit "params") * payload (lit "result") :=
  (plain ApplyWorkspaceEditParams_codec ApplyWorkspaceEditParams_valid,
   plain ApplyWorkspaceEditResponse_codec ApplyWorkspaceEditResponse_valid).

(** [lsp/extention/jdtls/projectConfigurationUpdate.h] *)
Definition java_projectConfigurationUpdate_payload : payload (lit "params") :=
  plain lsTextDocumentIdentifier_codec docid_valid.

(** [lsp/general/exit.h] *)
Definition Notify_Exit_payload : payload (lit "params") :=
  null_or_absent.

(** [lsp/general/initialized.h] *)
Definition Notify_InitializedNotification_payload : payload (lit "params") :=
  plain jsonnull_codec any_valid.

(** [lsp/textDocument/did_change.h] *)
Definition Notify_TextDocumentDidChange_payload : payload (lit "params") :=
  plain lsTextDocumentDidChangeParams_codec lsTextDocumentDidChangeParams_valid.

(** [lsp/textDocument/did_close.h] *)
Definition Notify_TextDocumentDidClose_payload : payload (lit "params") :=
  plain TextDocumentDidClose_Params_codec TextDocumentDidClose_Params_valid.

(** [lsp/textDocument/did_open.h] *)
Definition Notify_TextDocumentDidOpen_payload : payload (lit "params") :=
  plain TextDocumentDidOpen_Params_codec TextDocumentDidOpen_Params_valid.

(** [lsp/textDocument/did_save.h] *)
Definition Notify_TextDocumentDidSave_payload : payload (lit "params") :=
  plain TextDocumentDidSave_Params_codec TextDocumentDidSave_Params_valid.

(** [lsp/textDocument/publishDiagnostics.h] *)
Definition Notify_TextDocumentPublishDiagnostics_payload : payload (lit "params") :=
  plain TextDocumentPublishDiagnostics_Params_codec TextDocumentPublishDiagnostics_Params_valid.

(** [lsp/textDocument/semanticHighlighting.h] *)
Definition Notify_semanticHighlighting_payload : payload (lit "params") :=
  plain SemanticHighlightingParams_codec SemanticHighlightingParams_valid.

(** [lsp/windows/MessageNotify.h] *)
Definition Notify_LogMessage_payload : payload (lit "params") :=
  plain MessageParams_codec MessageParams_valid.
Definition Notify_ShowMessage_payload : payload (lit "params") :=
  plain MessageParams_codec MessageParams_valid.

(** [lsp/general/progress.h] *)
Definition Notify_Progress_payload : payload (lit "params") :=
  plain ProgressParams_codec ProgressParams_valid.

(** [lsp/workspace/didChangeWorkspaceFolders.h] *)
Definition Notify_WorkspaceDidChangeWorkspaceFolders_payload : payload (lit "params") :=
  plain DidChangeWorkspaceFoldersParams_codec DidChangeWorkspaceFoldersParams_valid.

(** [lsp/workspace/did_change_configuration.h] *)
Definition Notify_WorkspaceDidChangeConfiguration_payload : payload (lit "params") :=
  plain lsDidChangeConfigurationParams_codec lsDidChangeConfigurationParams_valid.

(** [lsp/workspace/did_change_watched_files.h] *)
Definition Notify_WorkspaceDidChangeWatchedFiles_payload : payload (lit "params") :=
  plain lsDidChangeWatchedFilesParams_codec lsDidChangeWatchedFilesParams_valid.

(** [lsp/language/language.h] *)
Definition lang_status_payload : payload (lit "params") :=
  plain StatusReport_codec StatusReport_valid.
Definition lang_actionableNotification_payload : payload (lit "params") :=
  plain ActionableNotification_codec ActionableNotification_valid.
Definition lang_progressReport_payload : payload (lit "params") :=
  plain ProgressReport_codec ProgressReport_valid.
Definition lang_eventNotification_payload : payload (lit "params") :=
  plain EventNotification_codec EventNotification_valid.

(** *** By type *)
Definition request_payload (t : request_type) : payload (lit "params") * payload (lit "result") :=
  match t with
  | td_initialize => td_initialize_payload
  | td_shutdown => td_shutdown_payload
  | td_codeAction => td_codeAction_payload
  | td_codeLens => td_codeLens_payload
  | td_completion => td_completion_payload
  | td_definition => td_definition_payload
  | td_declaration => td_declaration_payload
  | td_willSaveWaitUntil => td_willSaveWaitUntil_payload
  | td_highlight => td_highlight_payload
  | td_links => td_links_payload
  | td_linkResolve => td_linkResolve_payload
  | td_symbol => td_symbol_payload
  | td_formatting => td_formatting_payload
  | td_hover => td_hover_payload
  | td_implementation => td_implementation_payload
  | td_rangeFormatting => td_rangeFormatting_payload
  | td_references => td_references_payload
  | td_rename => td_rename_payload
  | td_signatureHelp => td_signatureHelp_payload
  | td_typeDefinition => td_typeDefinition_payload
  | wp_executeCommand => wp_executeCommand_payload
  | wp_symbol => wp_symbol_payload
  | td_typeHierarchy => td_typeHierarchy_payload
  | completionItem_resolve => completionItem_resolve_payload
  | codeLens_resolve => codeLens_resolve_payload
  | td_colorPresentation => td_colorPresentation_payload
  | td_documentColor => td_documentColor_payload
  | td_foldingRange => td_foldingRange_payload
  | td_prepareRename => td_prepareRename_payload
  | typeHierarchy_resolve => typeHierarchy_resolve_payload
  | td_selectionRange => td_selectionRange_payload
  | td_semanticTokens_full => td_semanticTokens_full_payload
  | td_semanticTokens_full_delta => td_semanticTokens_full_delta_payload
  | td_inlayHint => td_inlayHint_payload
  | td_inlayHintResolve => td_inlayHintResolve_payload
  | td_diagnostic => td_diagnostic_payload
  | workspace_diagnostic => workspace_diagnostic_payload
  | td_inlineValue => td_inlineValue_payload
  | td_inlineCompletion => td_inlineCompletion_payload
  | td_rangesFormatting => td_rangesFormatting_payload
  | workspace_textDocumentContent => workspace_textDocumentContent_payload
  | workspace_textDocumentContent_refresh => workspace_textDocumentContent_refresh_payload
  | workspace_foldingRange_refresh => workspace_foldingRange_refresh_payload
  | workspace_inlineValue_refresh => workspace_inlineValue_refresh_payload
  | codeAction_resolve => codeAction_resolve_payload
  | workspaceSymbol_resolve => workspaceSymbol_resolve_payload
  | java_classFileContents => java_classFileContents_payload
  | java_buildWorkspace => java_buildWorkspace_payload
  | java_listOverridableMethods => java_listOverridableMethods_payload
  | java_checkHashCodeEqualsStatus => java_checkHashCodeEqualsStatus_payload
  | java_addOverridableMethods => java_addOverridableMethods_payload
  | java_checkConstructorsStatus => java_checkConstructorsStatus_payload
  | java_checkDelegateMethodsStatus => java_checkDelegateMethodsStatus_payload
  | java_checkToStringStatus => java_checkToStringStatus_payload
  | java_generateAccessors => java_generateAccessors_payload
  | java_generateConstructors => java_generateConstructors_payload
  | java_generateDelegateMethods => java_generateDelegateMethods_payload
  | java_generateHashCodeEquals => java_generateHashCodeEquals_payload
  | java_generateToString => java_generateToString_payload
  | java_getMoveDestinations => java_getMoveDestinations_payload
  | java_getRefactorEdit => java_getRefactorEdit_payload
  | java_move => java_move_payload
  | java_organizeImports => java_organizeImports_payload
  | java_resolveUnimplementedAccessors => java_resolveUnimplementedAccessors_payload
  | java_searchSymbols => java_searchSymbols_payload
  | td_didRenameFiles => td_didRenameFiles_payload
  | td_willRenameFiles => td_willRenameFiles_payload
  | WorkspaceConfiguration => WorkspaceConfiguration_payload
  | WorkspaceFolders => WorkspaceFolders_payload
  | Req_ClientRegisterCapability => Req_ClientRegisterCapability_payload
  | Req_ClientUnregisterCapability => Req_ClientUnregisterCapability_payload
  | td_onTypeFormatting => td_onTypeFormatting_payload
  | WorkspaceApply => WorkspaceApply_payload
  | workspace_semanticTokens_refresh => workspace_semanticTokens_refresh_payload
  | workspace_inlayHint_refresh => workspace_inlayHint_refresh_payload
  | workspace_diagnostic_refresh => workspace_diagnostic_refresh_payload
  end.
Definition notify_params (t : notify_type) : payload (lit "params") :=
  match t with
  | java_projectConfigurationUpdate => java_projectConfigurationUpdate_payload
  | Notify_Exit => Notify_Exit_payload
  | Notify_InitializedNotification => Notify_InitializedNotification_payload
  | Notify_TextDocumentDidChange => Notify_TextDocumentDidChange_payload
  | Notify_TextDocumentDidClose => Notify_TextDocumentDidClose_payload
  | Notify_TextDocumentDidOpen => Notify_TextDocumentDidOpen_payload
  | Notify_TextDocumentDidSave => Notify_TextDocumentDidSave_payload
  | Notify_TextDocumentPublishDiagnostics => Notify_TextDocumentPublishDiagnostics_payload
  | Notify_semanticHighlighting => Notify_semanticHighlighting_payload
  | td_willSave => td_willSave_payload
  | Notify_LogMessage => Notify_LogMessage_payload
  | Notify_ShowMessage => Notify_ShowMessage_payload
  | Notify_Progress => Notify_Progress_payload
  | Notify_WorkspaceDidChangeWorkspaceFolders => Notify_WorkspaceDidChangeWorkspaceFolders_payload
  | Notify_WorkspaceDidChangeConfiguration => Notify_WorkspaceDidChangeConfiguration_payload
  | Notify_WorkspaceDidChangeWatchedFiles => Notify_WorkspaceDidChangeWatchedFiles_payload
  | Notify_sendNotification => Notify_sendNotification_payload
  | lang_status => lang_status_payload
  | lang_actionableNotification => lang_actionableNotification_payload
  | lang_progressReport => lang_progressReport_payload
  | lang_eventNotification => lang_eventNotification_payload
  end.

Definition request_params (t : request_type) : payload (lit "params") := (request_payload t).1.
Definition request_result (t : request_type) : payload (lit "result") := (request_payload t).2.

(** ** The handler *)

Definition request_codec_of (t : request_type) : codec (lsRequest (p_type (request_params t))) :=
  request_codec (request_method t) (p_fields (request_params t)).
Definition response_codec_of (t : request_type) : codec (ResponseMessage (p_type (request_result t))) :=
  response_codec (p_fields (request_result t)).
Definition notify_codec_of (t : notify_type) : codec (lsNotification (p_type (notify_params t))) :=
  notify_codec (notify_method t) (p_fields (notify_params t)).

(** [ProtocolJsonHandler] with the parsers of its types *)
Definition handler (o : ProtocolJsonHandlerOptions) : MessageJsonHandler :=
  ProtocolJsonHandler
    (fun t => request_reader (request_method t) (p_fields (request_params t)))
    (fun t => response_reader (p_fields (request_result t)))
    (fun t => notify_reader (notify_method t) (p_fields (notify_params t)))
    (error_reader any) o.

(** ** One message *)

Lemma methods_valid t : text_valid (request_method t).
Proof. destruct t; by apply find_char_None. Qed.
Lemma notify_methods_valid t : text_valid (notify_method t).
Proof. destruct t; by apply find_char_None. Qed.

Section Endpoints.
Variable ParseDoc : bytes -> (bytes * nat) + json.
Variable lookup : lsRequestId -> option (nat * bytes).
Variable o : ProtocolJsonHandlerOptions.

(** A request of any type the options enable, with any valid parameters, is
    dispatched by the other side as the same request. *)
Lemma request_delivered (t : request_type) (p : p_type (request_params t)) (id : lsRequestId) (text : bytes) :
  t ∈ requests_of o -> p_valid (request_params t) p -> id_valid id ->
  let r := mkRequest version id (request_method t) p in
  let j := rwrite (request_codec_of t) r in
  ParseDoc text = inr j ->
  rread (request_codec_of t) j (rinit (request_codec_of t)) = inr r /\
  parseAndClassify ParseDoc (handler o) lookup text =
    (mkParsed true false REQUEST_MESSAGE (Some (mkMessage REQUEST_MESSAGE (request_method t) id id_none None j)) None, []).
Proof.
  intros Ht Hp Hi r j Htext.
  apply (request_survives_wire ParseDoc (handler o) lookup (p_fields (request_params t)) (p_valid (request_params t))
           (request_method t) text id p
           (parser_of_request (fun t => request_reader (request_method t) (p_fields (request_params t)))
              (error_reader any) t) (p_names _) (p_law _) Hp Hi (methods_valid t));
    [unfold handler; rewrite request_lookup; by rewrite bool_decide_eq_true_2| |done].
  by destruct t.
Qed.

(** A notification likewise. *)
Lemma notification_delivered (t : notify_type) (p : p_type (notify_params t)) (text : bytes) :
  t ∈ notifications_of o -> p_valid (notify_params t) p ->
  let r := mkNotify version (notify_method t) p in
  let j := rwrite (notify_codec_of t) r in
  ParseDoc text = inr j ->
  rread (notify_codec_of t) j (rinit (notify_codec_of t)) = inr r /\
  parseAndClassify ParseDoc (handler o) lookup text =
    (mkParsed true false NOTIFICATION_MESSAGE
       (Some (mkMessage NOTIFICATION_MESSAGE (notify_method t) id_none id_none None j)) None, []).
Proof.
  intros Ht Hp r j Htext.
  apply (notification_survives_wire ParseDoc (handler o) lookup (p_fields (notify_params t)) (p_valid (notify_params t))
           (notify_method t) text p (p_names _) (p_law _) Hp (notify_methods_valid t)); [|done].
  unfold handler. rewrite notification_lookup. by rewrite bool_decide_eq_true_2.
Qed.

(** The response to a pending request reaches it with its result, unless the
    result is an empty [optional]: then no member [result] is written, the
    other side does not recognise a response and the request stays pending. *)
Lemma response_delivered (t : request_type) (v : p_type (request_result t)) (id : lsRequestId) (info : nat)
    (text : bytes) :
  t ∈ responses_of o -> p_valid (request_result t) v -> id_valid id -> lookup id = Some (info, request_method t) ->
  let r := mkResponse version id v in
  let j := rwrite (response_codec_of t) r in
  ParseDoc text = inr j ->
  rread (response_codec_of t) j (rinit (response_codec_of t)) = inr r /\
  parseAndClassify ParseDoc (handler o) lookup text =
    if HasMember j (lit "result")
    then (mkParsed true false RESPONCE_MESSAGE (Some (mkMessage RESPONCE_MESSAGE [] id id_none None j)) (Some info), [])
    else (parsed_empty, [(WARNING, lit "Unknown lsp message when consumer message:" ++ [LF] ++ text)]).
Proof.
  intros Ht Hv Hi Hl r j Htext.
  destruct (response_survives_wire ParseDoc (handler o) lookup (p_fields (request_result t)) (p_valid (request_result t))
           (error_reader any) (request_method t) text id v info (p_names _) (p_law _) Hv Hi Hl) as [H1 H2];
    [unfold handler; rewrite response_lookup; by rewrite bool_decide_eq_true_2|done|].
  assert (Hj : HasMember j (lit "result") =
    match FindMember (lit "result") (f_write (p_fields (request_result t)) v) with Some _ => true | None => false end)
    by reflexivity.
  split; [exact H1|]. rewrite H2, Hj. by destruct (FindMember _ _).
Qed.

(** An error response reaches the request with its code, message and data. *)
Lemma error_delivered (t : request_type) (e : lsResponseError) (id : lsRequestId) (info : nat) (text : bytes) :
  t ∈ responses_of o -> int_valid (code e) -> text_valid (error_message e) -> opt_valid any_ok (error_data e) ->
  id_valid id -> lookup id = Some (info, request_method t) ->
  let r := mkRspError version id e in
  let j := rwrite (Rsp_Error_codec any) r in
  ParseDoc text = inr j ->
  rread (Rsp_Error_codec any) j (rinit (Rsp_Error_codec any)) = inr r /\
  parseAndClassify ParseDoc (handler o) lookup text =
    (mkParsed true false RESPONCE_MESSAGE
       (Some (mkMessage RESPONCE_MESSAGE [] id id_none (Some (code e, error_message e)) j)) (Some info), []).
Proof.
  intros Ht Hc Hm Hd Hi Hl r j Htext.
  apply (error_survives_wire ParseDoc (handler o) lookup any any_ok (response_reader (p_fields (request_result t)))
           (request_method t) text id e info _ _ Hc Hm Hd Hi Hl); [|done].
  unfold handler. rewrite response_lookup. by rewrite bool_decide_eq_true_2.
Qed.

End Endpoints.
End Catalogue.
