(* ===== verification/Conversation.v ===== *)
(** * Conversations

    The way of a message from one endpoint to the other: the struct is written
    (Catalogue, Envelope), printed by rapidjson, framed and sent ([WriterMsg]);
    the reader ([listen], Framing) finds the frames again in whatever chunks
    the stream delivers, and [parseAndClassify] (Message) makes the message
    that the dispatcher gets. *)
From S2P Require Import Prelude CppString Position Utils Uri Stream Framing Json Reflect RequestId Message LspTypes.
From S2P Require Import Envelope Handlers Protocol ProtocolData Capabilities Jdtls Trees Catalogue.

Section Conversation.
Context {rapidjson : RapidJson} {double : Type}.
Variable GetDouble : json -> double.
Variable Double : double -> json.
Variable zero : double.
(** The message and the offset that rapidjson reports for a text that is not JSON *)
Variable parse_error : bytes -> bytes * nat.
(** The pending requests of the receiver, see Pending *)
Variable lookup : lsRequestId -> option (nat * bytes).
Variable o : ProtocolJsonHandlerOptions.

Abbreviation params_of t := (request_params GetDouble Double zero t).
Abbreviation result_of t := (request_result GetDouble Double zero t).

(** [document.Parse] *)
Definition parse_document (text : bytes) : (bytes * nat) + json :=
  match Parse text with Some j => inr j | None => inl (parse_error text) end.

(** What an application sends: requests and notifications, the results of its
    handlers and their errors *)
Inductive sent_message :=
| OutRequest (t : request_type) (id : lsRequestId) (p : p_type (params_of t))
| OutNotify (t : notify_type) (p : p_type (notify_params t))
| OutResult (t : request_type) (id : lsRequestId) (v : p_type (result_of t))
| OutError (t : request_type) (id : lsRequestId) (e : lsResponseError).

(** The document that [ReflectWriter] makes of it, and the frame that is sent *)
Definition document (m : sent_message) : json :=
  match m with
  | OutRequest t id p =>
      rwrite (request_codec_of GetDouble Double zero t) (mkRequest version id (request_method t) p)
  | OutNotify t p => rwrite (notify_codec_of t) (mkNotify version (notify_method t) p)
  | OutResult t id v => rwrite (response_codec_of GetDouble Double zero t) (mkResponse version id v)
  | OutError t id e => rwrite (Rsp_Error_codec (any_codec Parse Print)) (mkRspError version id e)
  end.
(** [LspMessage::ToJson]: the buffer of the writer as a C string *)
Definition ToJson (m : sent_message) : bytes := c_str (Print (document m)).
Definition frame (m : sent_message) : bytes := WriterMsg (ToJson m).
(** [LspMessage::Write]: the length is the size of the buffer, the text its C string *)
Definition Write (m : sent_message) : bytes :=
  lit "Content-Length: " ++ to_string (Z.of_nat (length (Print (document m)))) ++ CRLF2 ++ c_str (Print (document m)).

(** What the receiver makes of the document: the message as it was sent *)
Definition read_as_sent (m : sent_message) : Prop :=
  match m with
  | OutRequest t id p =>
      rread (request_codec_of GetDouble Double zero t) (document m) (rinit (request_codec_of GetDouble Double zero t))
      = inr (mkRequest version id (request_method t) p)
  | OutNotify t p =>
      rread (notify_codec_of t) (document m) (rinit (notify_codec_of t)) = inr (mkNotify version (notify_method t) p)
  | OutResult t id v =>
      rread (response_codec_of GetDouble Double zero t) (document m) (rinit (response_codec_of GetDouble Double zero t))
      = inr (mkResponse version id v)
  | OutError t id e =>
      rread (Rsp_Error_codec (any_codec Parse Print)) (document m) (rinit (Rsp_Error_codec (any_codec Parse Print)))
      = inr (mkRspError version id e)
  end.

(** and how it is dispatched; a response goes to the pending request [info] *)
Definition dispatched (m : sent_message) : ParsedMessage :=
  let parsed kind method id err :=
    mkParsed true false kind (Some (mkMessage kind method id id_none err (document m))) in
  match m with
  | OutRequest t id _ => parsed REQUEST_MESSAGE (request_method t) id None None
  | OutNotify t _ => parsed NOTIFICATION_MESSAGE (notify_method t) id_none None None
  | OutResult _ id _ => parsed RESPONCE_MESSAGE [] id None (fst <$> lookup id)
  | OutError _ id e => parsed RESPONCE_MESSAGE [] id (Some (code e, error_message e)) (fst <$> lookup id)
  end.

(** The receiver knows the type, the values can be transmitted, and a response
    answers a pending request of its method.  A result may be one of which
    nothing is written, as for [shutdown]. *)
Definition acceptable (m : sent_message) : Prop :=
  match m with
  | OutRequest t id p => t ∈ requests_of o /\ p_valid (params_of t) p /\ id_valid id
  | OutNotify t p => t ∈ notifications_of o /\ p_valid (notify_params t) p
  | OutResult t id v =>
      t ∈ responses_of o /\ p_valid (result_of t) v /\ id_valid id /\
      exists info, lookup id = Some (info, request_method t)
  | OutError t id e =>
      t ∈ responses_of o /\ int_valid (code e) /\ text_valid (error_message e) /\
      opt_valid (any_value_valid Parse Print) (error_data e) /\ id_valid id /\
      (exists info, lookup id = Some (info, request_method t))
  end.

Definition receive : bytes -> ParsedMessage * list log_entry :=
  parseAndClassify parse_document (handler GetDouble Double zero o) lookup.

(** The document of a result has a member [result], unless the result is an
    empty [optional] *)
Definition recognised (m : sent_message) : bool :=
  match m with OutResult _ _ _ => HasMember (document m) (lit "result") | _ => true end.
Definition unknown_message (m : sent_message) : log_entry :=
  (WARNING, lit "Unknown lsp message when consumer message:" ++ [LF] ++ ToJson m).
(** What the dispatcher gets, and what is logged *)
Definition delivered (m : sent_message) : ParsedMessage * list log_entry :=
  if recognised m then (dispatched m, []) else (parsed_empty, [unknown_message m]).

Lemma message_delivered (m : sent_message) :
  acceptable m -> Parse (ToJson m) = Some (document m) ->
  read_as_sent m /\ receive (ToJson m) = delivered m.
Proof.
  intros Hm Hp.
  assert (Hd : parse_document (ToJson m) = inr (document m)) by (unfold parse_document; by rewrite Hp).
  unfold receive. destruct m as [t id p|t p|t id v|t id e]; cbn [acceptable] in Hm.
  - destruct Hm as (Ht & Hv & Hi). by apply request_delivered.
  - destruct Hm as (Ht & Hv). by apply notification_delivered.
  - destruct Hm as (Ht & Hv & Hi & [info Hl]).
    pose proof (response_delivered GetDouble Double zero parse_document lookup o t v id info _ Ht Hv Hi Hl Hd) as [H1 H2].
    split; [exact H1|]. rewrite H2. unfold delivered. cbn [recognised dispatched]. rewrite Hl.
    cbn [document]. by destruct (HasMember _ _).
  - destruct Hm as (Ht & Hc & Hm & Hv & Hi & [info Hl]). unfold delivered. cbn [recognised dispatched]. rewrite Hl.
    by apply (error_delivered GetDouble Double zero parse_document lookup o t e id info).
Qed.

(** [Write] sends the frame that [WriterMsg] sends, unless the text has a zero
    byte, which only the raw text of an [Any] can bring in; then the header
    announces bytes that do not follow. *)
Lemma Write_frame (m : sent_message) : NUL ∉ Print (document m) -> Write m = frame m.
Proof. intros Hn. unfold Write, frame, ToJson, WriterMsg. by rewrite c_str_id. Qed.

Theorem Write_short (m : sent_message) :
  NUL ∈ Print (document m) -> length (ToJson m) < length (Print (document m)).
Proof. intros Hn. by apply c_str_short. Qed.

(** * Theorems *)

(** C4. What an endpoint sends, message by message, is read by the other: any
    sequence of requests, notifications, results and errors whose types the
    reader registered and whose values can be transmitted, each response for a
    pending request of its method, written and framed and delivered by the
    stream in whatever chunks, is read as exactly these documents, in order,
    with parameters, result or error as they were sent.  Each is dispatched
    under its kind, method and id, except a result of which nothing was
    written (an empty optional, as for [shutdown]): that one is logged as an
    unknown message and dispatched as nothing, so its request stays pending.
    No issue is reported, and the reader returns when the input ends. *)
Theorem conversation_delivered {S : Type} `{Istream S} {alive : S -> Prop} {pending : S -> bytes}
    {laws : StreamLaws S alive pending} (msgs : list sent_message) (fuel : nat)
    (p : producer S (list (ParsedMessage * list log_entry))) :
  bound p = true -> alive (input p) ->
  Forall acceptable msgs ->
  Forall (fun m => Parse (ToJson m) = Some (document m)) msgs ->
  Forall (fun m => Z.of_nat (length (ToJson m)) <= INT_MAX)%Z msgs ->
  pending (input p) = concat (map frame msgs) -> length (pending (input p)) < fuel ->
  Forall read_as_sent msgs /\
  exists p', listen (fun text received => (received ++ [receive text], false)) 0 None fuel p = Some p' /\
    consumer p' = consumer p ++ map delivered msgs /\ issues p' = issues p.
Proof.
  intros Hb Ha Hok Hparse Hlen Hp Hf.
  assert (Hall : Forall (fun m => read_as_sent m /\ receive (ToJson m) = delivered m) msgs).
  { rewrite Forall_forall in *. intros m Hm. by apply message_delivered; auto. }
  split; [eapply Forall_impl; [exact Hall|]; by intros m [??]|].
  destruct (listen_written (fun text received => (received ++ [receive text], false))
              (map (fun m => ToJson m) msgs) fuel p) as (p' & H1 & H2 & H3);
    [done|done|done|by apply Forall_fmap|by rewrite Hp, map_map|done|].
  exists p'. split; [done|]. split; [|done]. rewrite H2. generalize (consumer p). clear -Hall.
  induction Hall as [|m msgs [_ Hm] _ IH]; intros c; [by rewrite app_nil_r|].
  cbn [map fold_left fst]. rewrite IH, Hm. by rewrite <- app_assoc.
Qed.

(** A handler that returns an empty [optional], for example for [shutdown] or
    [textDocument/semanticTokens/full], answers with a message that the other
    side does not recognise: it logs a warning and the request stays
    pending. *)
Theorem empty_result_not_delivered (t : request_type) (id : lsRequestId) (v : p_type (result_of t)) (info : nat) :
  let m := OutResult t id v in
  t ∈ responses_of o -> p_valid (result_of t) v -> id_valid id -> lookup id = Some (info, request_method t) ->
  Parse (ToJson m) = Some (document m) ->
  HasMember (document m) (lit "result") = false ->
  receive (ToJson m) = (parsed_empty, [unknown_message m]).
Proof.
  intros m Ht Hv Hi Hl Hp Hr.
  destruct (message_delivered m) as [_ H2]; [split_and!; eauto|done|].
  rewrite H2. unfold delivered. cbn [recognised m]. by rewrite Hr.
Qed.

End Conversation.

(** ** A conversation *)

Definition sample_messages (rj : RapidJson) : list (@sent_message rj unit (fun _ => tt) (fun _ => JNull) tt) :=
  [ OutRequest _ _ _ td_hover (mkId kInt 7 [])
      (mk_lsTextDocumentPositionParams (mkDocId (mkDocumentUri (lit "file:///a.cc"))) (mkPosition 3 4) None);
    OutError _ _ _ td_hover (mkId kInt 1 []) (LspTypes.mkError (-32603) (lit "failed") None);
    OutNotify _ _ _ Notify_Exit None;
    OutResult _ _ _ td_shutdown (mkId kInt 2 []) None ].

(** Texts for the four documents *)
Definition no_json : RapidJson := {| Parse := fun _ => None; Print := fun _ => [] |}.
Definition sample_json : RapidJson := {|
  Parse := fun s =>
    match s with
    | [c] => @document no_json unit (fun _ => tt) (fun _ => JNull) tt <$> sample_messages no_json !! (Byte.to_nat c - 49)
    | _ => None
    end;
  Print := fun j =>
    if HasMember j (lit "params") then lit "1" else if HasMember j (lit "error") then lit "2"
    else if HasMember j (lit "method") then lit "3" else lit "4" |}.

Definition sample_lookup (id : lsRequestId) : option (nat * bytes) := 
  if decide (value id = 2)%Z then Some (6, lit "shutdown") else Some (5, lit "textDocument/hover").

Lemma sample_id z : (0 <= z < 100)%Z -> id_valid (mkId kInt z []).
Proof. intros Hz. split; [unfold between; cbn [value]; lia|done]. Qed.

Lemma conversation_delivered_witness :
  let msgs := sample_messages sample_json in
  exists p', listen (fun text received => (received ++ [@receive sample_json unit (fun _ => tt) (fun _ => JNull) tt
                        (fun _ => ([], 0)) sample_lookup default_options text], false)) 0 None 120
      (mkProducer (mkStdin true false false false [] []
         [Data (concat (map (@frame sample_json unit (fun _ => tt) (fun _ => JNull) tt) (take 2 msgs)) ++ lit "Content"); Timeout; Data (lit "-Length: 1" ++ CRLF2);
          Data (lit "3" ++ WriterMsg (lit "4"))]) true false [] []) = Some p' /\
    map (fun r => (kind r.1, pending r.1)) (consumer p') =
      [(REQUEST_MESSAGE, None); (RESPONCE_MESSAGE, Some 5); (NOTIFICATION_MESSAGE, None);
       (kind parsed_empty, None)].
Proof.
  intros msgs.
  destruct (@conversation_delivered sample_json unit (fun _ => tt) (fun _ => JNull) tt (fun _ => ([], 0))
              sample_lookup default_options _ _ _ _ _ msgs 120
              (mkProducer (mkStdin true false false false [] []
                 [Data (concat (map (@frame sample_json unit (fun _ => tt) (fun _ => JNull) tt) (take 2 msgs)) ++ lit "Content"); Timeout;
                  Data (lit "-Length: 1" ++ CRLF2); Data (lit "3" ++ WriterMsg (lit "4"))]) true false [] []))
    as (_ & p' & H1 & H2 & _).
  - done.
  - by repeat split.
  - apply Forall_cons; split; [|apply Forall_cons; split; [|apply Forall_cons; split; [|apply Forall_singleton]]].
    + split; [apply (bool_decide_unpack _); vm_compute; reflexivity|]. split; [|exact (sample_id 7 ltac:(lia))].
      split; [by apply find_char_None|]. split; [|done]. unfold position_valid. cbn. lia.
    + split; [apply (bool_decide_unpack _); vm_compute; reflexivity|].
      split; [unfold int_valid, Json.between; cbn; lia|]. split; [by apply find_char_None|]. split; [done|].
      split; [exact (sample_id 1 ltac:(lia))|by exists 5].
    + split; [apply (bool_decide_unpack _); vm_compute; reflexivity|done].
    + split; [apply (bool_decide_unpack _); vm_compute; reflexivity|]. split; [done|].
      split; [exact (sample_id 2 ltac:(lia))|by exists 6].
  - repeat constructor; vm_compute; reflexivity.
  - repeat constructor; vm_compute; discriminate.
  - vm_compute. reflexivity.
  - apply Nat.ltb_lt. vm_compute. reflexivity.
  - exists p'. split; [exact H1|]. rewrite H2. vm_compute. reflexivity.
Defined.

(** [shutdown] answered as the protocol prescribes, with nothing *)
Lemma empty_result_not_delivered_witness :
  let rj := {| Parse := fun _ => Some (JObject [(lit "jsonrpc", JString version); (lit "id", JNumber 1)]);
               Print := fun _ => lit "{..}" |} in
  @receive rj unit (fun _ => tt) (fun _ => JNull) tt (fun _ => ([], 0)) (fun _ => Some (5, lit "shutdown"))
    default_options (lit "{..}") =
  (parsed_empty, [(WARNING, lit "Unknown lsp message when consumer message:" ++ [LF] ++ lit "{..}")]).
Proof.
  intros rj.
  apply (@empty_result_not_delivered rj unit (fun _ => tt) (fun _ => JNull) tt (fun _ => ([], 0))
           (fun _ => Some (5, lit "shutdown")) default_options td_shutdown (mkId kInt 1 []) None 5);
    [apply (bool_decide_unpack _); vm_compute; reflexivity|done|exact (sample_id 1 ltac:(lia))|done|done|done].
Defined.
